(* ===== verification/_CoqProject ===== *)
-Q . S2P
Prelude.v
Bitmap.v
Lockdep.v
LockdepPath.v
LockdepSafe.v
Mem.v
Addr.v
Paging.v
Layout.v
Std.v
FsTypes.v
Elf.v
Extern.v
Region.v
Pmm.v
Heap.v
Zone.v
PageTable.v
PageWalk.v
PageTableSpec.v
PageMap.v
Mapper.v
Vmm.v
VmmSafe.v
AddressSpace.v
FdTable.v
Mmap.v
Loader.v
LoaderSpec.v
LoaderSafe.v
MmapSpec.v
MmapSafe.v
Ring.v
Sched.v
Executor.v
WaitQueue.v
Pipe.v
Channel.v
Threads.v
Signal.v
Futex.v
Spin.v
IrqLock.v
AsyncLock.v
Net.v
Ldisc.v
Vfs.v
Timer.v
