(* ===== verification/Prelude.v ===== *)
(** * Hadron kernel: verification library

    Hadron is an x86_64 kernel in Rust.  This library models the parts of it
    that are pure or whose effects can be made explicit, as executable Rocq
    functions translated from [src/], and proves what those parts promise to
    each other and to user space.

    ** The program and its parts

    Physical memory is handed out by a bitmap allocator of frames.  Page
    tables are built in those frames and reached through the direct map.  On
    top of both sit the virtual memory manager (kernel heap, kernel stacks,
    MMIO windows), which takes address ranges from the region allocators, and
    the user address spaces.  The heap and the zone allocator serve the
    kernel's own objects.  The program loader reads an ELF file and fills a
    user address space with its segments, stack and arguments; the memory calls
    give a running process private, device and shared mappings.

    Every CPU runs an executor, a loop that polls tasks from priority queues,
    steals from other CPUs, and is fed by wakers.  Locks, wait queues, the
    sleep queue, futexes, pipes and channels are what tasks wait on.  Lock acquisition
    is watched by the lock dependency tracker.

    Above that are the services: the descriptor table of a process and path
    resolution, the signals of a process, the line discipline of the terminals,
    and the network stack.

    ** How the code is modelled

    A function of the source is a function of the same name, with the type's
    name in front where the source has a method ([Region_allocate] or
    a Module or Section for the type).  [exec] below is the outcome of code
    that may panic: overflow of checked arithmetic (the kernel is modelled
    with overflow checks on), an index out of range, a failed assertion or
    [expect] is [Panic].  [result] is Rust's.  [wp c Q] says that [c] returns,
    and returns something in [Q]; so a theorem with [wp] or with [Ret] in its
    conclusion is a theorem of total correctness.  Integers are [Z] with the
    width written out in each operation; raw memory is a map from addresses to
    bytes ([Mem]); a [Vec], slice or [VecDeque] is a list; a struct is a
    Record, an enum an Inductive type.

    Concurrent code is cut into steps, a step being one atomic access, one
    critical section of a lock, or work on private data.  A run is any list of
    labels; the label says who moves and settles what the code leaves open.
    Memory is sequentially consistent.

    Code that is not in the repository (the crates [planck-noalloc] and
    [bitflags]) is a class with the documented laws ([Extern]), with an
    instance that keeps them.  The same is done between components: the page
    mapper ([Mapper]), the frame allocator ([Pmm]), the callback that grows the
    heap ([Heap]), network devices ([Net]), inodes and file systems ([Vfs],
    [Mmap]).

    ** Files

    Foundations:
    - [Prelude]: outcomes, integers of a width, alignment, loops, tactics;
    - [Bitmap]: words as sets of bits;
    - [Mem]: byte-addressed memory;
    - [Std], [Extern]: what is used of the standard library, and of crates;
    - [Threads]: runs of threads that share state.

    Memory:
    - [Addr], [Paging], [Layout]: [kernel/core/src/addr.rs], [paging.rs],
      [kernel/mm/src/hhdm.rs], [layout.rs];
    - [Region]: [kernel/mm/src/region.rs];
    - [Pmm]: [kernel/mm/src/pmm.rs];
    - [Heap], [Zone]: [kernel/mm/src/heap.rs], [zone.rs];
    - [PageTable] (the code), [PageWalk] (abstract trees), [PageTableSpec]
      (correctness), [PageMap] (refinement): the structures of
      [kernel/kernel/src/arch/x86_64/structures/paging.rs] and
      [kernel/kernel/src/arch/x86_64/paging/mapper.rs];
    - [Mapper]: the traits of [kernel/mm/src/mapper.rs] as a class, and the
      page tables as an instance;
    - [Vmm], [VmmSafe]: [kernel/mm/src/vmm.rs] and the global instance of
      [kernel/kernel/src/mm/vmm.rs];
    - [AddressSpace]: [kernel/mm/src/address_space.rs].

    Programs:
    - [Elf]: [crates/parse/elf/src];
    - [Loader] (the code), [LoaderSpec] (correctness of each step), [LoaderSafe]
      (the guarantees): [kernel/kernel/src/proc/binfmt] and
      [kernel/kernel/src/proc/exec.rs];
    - [Mmap] (the code), [MmapSpec] (correctness of each loop), [MmapSafe] (the
      guarantees): [kernel/kernel/src/syscall/memory.rs],
      [kernel/kernel/src/ipc/shm.rs], and the memory of a process in
      [kernel/kernel/src/proc/mod.rs];
    - [Futex]: [kernel/kernel/src/ipc/futex.rs], the futex call of
      [kernel/kernel/src/syscall/event.rs], and the mutex of
      [userspace/hadron-libc/core/src/pthread.rs];
    - [Signal]: [kernel/kernel/src/proc/signal.rs], the delivery of
      [kernel/kernel/src/proc/mod.rs], and the signal calls and checked user
      pointers of [kernel/kernel/src/syscall/process.rs] and [userptr.rs].

    Tasks and synchronization:
    - [Sched]: [kernel/core/src/task.rs], [sched.rs],
      [kernel/sched/src/waker.rs];
    - [Executor]: [kernel/sched/src/executor.rs] and
      [kernel/kernel/src/sched/smp.rs];
    - [WaitQueue], [Spin], [IrqLock], [AsyncLock]: the files of
      [kernel/core/src/sync];
    - [Lockdep] (the code), [LockdepPath] (the cycle search), [LockdepSafe]
      (the guarantees): [kernel/core/src/sync/lockdep.rs];
    - [Timer]: [kernel/sched/src/timer.rs] and
      [kernel/kernel/src/sched/primitives.rs].

    Services:
    - [Ring], [Pipe], [Channel]: [kernel/ipc/src];
    - [FsTypes], [FdTable], [Vfs]: [kernel/fs/src] and the descriptor calls of
      [kernel/kernel/src/syscall/vfs.rs];
    - [Ldisc]: [kernel/tty/src/ldisc.rs];
    - [Net]: [kernel/net/src].

    ** What the theorems show

    - Memory: whatever sequence of operations the kernel performs, memory that
      is handed out is fresh and keeps what its owner wrote
      ([Region.region_client_safe], [Heap.heap_client_safe],
      [Zone.zone_client_safe], [VmmSafe.vmm_memory_safe]); the x86_64 page
      table code implements a map from pages to frames
      ([PageMap.mapper_refines]); user address spaces are isolated from each
      other and from the kernel ([AddressSpace.user_spaces_isolated]).
    - Programs: the ELF reader finds what the headers describe
      ([Elf.elf_reader_correct]); a program that is loaded sees its segments,
      relocated, with the rights it asked for, its stack, arguments and
      environment, and nothing else ([LoaderSafe.execve_loads_program]); other
      files are refused ([LoaderSafe.execve_rejects]).  Mappings behave as a
      short specification of private and shared pages says, whatever the rest of
      the kernel does in between ([MmapSafe.mappings_refine]), as do the program
      break and shared memory objects ([MmapSafe.brk_correct],
      [MmapSafe.shm_object_correct]).  A mutex of the C library, over the futexes
      of the kernel, excludes and loses no wakeup ([Futex.pthread_mutex_safe]).
      Signals are neither lost
      nor taken twice, whatever threads do ([Signal.signals_refine]), and a
      program goes on where it was after a handler
      ([Signal.check_signals_correct]).
    - Tasks: a task is owned by one place at a time
      ([Executor.executor_ownership]), a wakeup leads to a poll
      ([Executor.wake_is_polled]), no priority starves
      ([Sched.ready_queue_no_starvation]), a sleeper is woken in time
      ([Timer.sleeper_woken_in_time]).
    - Locks: exclusion, no torn reads, single initialisation, and no deadlock
      with interrupt handlers ([Spin], [IrqLock], [AsyncLock]); no cycle among
      recorded lock orders ([LockdepSafe.lockdep_no_cycle]).
    - Services: bytes and messages arrive in order and no reader sleeps on data
      ([Pipe], [Channel], [Ring]); the descriptor table, path resolution and
      the line discipline refine short specifications ([FdTable], [Vfs],
      [Ldisc]); every frame gets exactly the answer it is due
      ([Net.net_stack_answers]).
    - Limits of the code, stated as theorems about concrete runs: a cycle the
      tracker misses beyond 256 edges, a wakeup lost with a stolen task or a
      full wait queue, the wrong frame for a large page with a write-combining
      flag, a descriptor number that panics the kernel, a segment that is
      copied over a page table, a relocation that hangs the kernel, flags that a
      program chooses on return from a handler, a shared page that outlives its
      object, arguments of an unmapping that panic the kernel, a program break
      that starts at the null page, a futex woken in the wrong process.

    ** Bounds and fuel

    Loops whose recursion is not structural take a fuel.  The loops over the
    free list of the heap and of the zones need one more than the number of
    blocks, and the theorems give a fuel that large from the invariant; the
    cycle search gets one step for every entry it can ever push
    ([LockdepPath]); loops that are bounded by a constant of the code (retries,
    batches of the tick, symbolic links, 64 signals) use that constant; loops
    over a file are bounded by the counts in its headers and the size of its
    sections, those over a mapping by its number of pages.  The refinement of
    the mappings is for ranges below the user stack, and the theorem on the
    mutex for at most as many threads as the futex table has entries (1024);
    beyond both the code fails, as the theorems on its limits show.  Running
    out of fuel is [Panic] or [None], so a theorem that the code returns shows that
    the fuel is enough.  The progress of the executors is proved for any run
    in which the CPU in question keeps taking steps.

    ** What is not modelled

    Device drivers, assembly and system registers, the boot protocols and
    firmware tables, procedural macros, and host-side tools: their behaviour is
    that of hardware, firmware or the compiler.  The parsers of firmware tables
    and debug information, the process table and the loop that enters user
    space, the remaining system calls, the C library but for its mutex, and the
    user programs are not modelled: they work on raw user memory, or only pass
    arguments on to such parts.  Weak memory orders are not modelled: atomics
    are sequentially consistent.  Build options that only count or log are off;
    options that change behaviour (poisoning, warning mode) are arguments. *)

From Stdlib Require Export ZArith Lia.
From stdpp Require Export base numbers gmap sets fin_maps.
From stdpp Require Export list_basics list_relations list_monad list_misc list_tactics list_numbers list.

Open Scope Z_scope.

Declare Scope hadron_scope.
Delimit Scope hadron_scope with hadron.

(** ** Outcomes of Rust code

    [exec A] is the result of running a piece of Rust code: it either
    returns a value or panics.  Checked arithmetic, out-of-bounds indexing,
    [assert!], [debug_assert!] and [expect] all panic. *)

Inductive exec (A : Type) : Type :=
| Ret (a : A)
| Panic.
Arguments Ret {A} a.
Arguments Panic {A}.

#[export] Instance exec_ret : MRet exec := @Ret.

#[export] Instance exec_bind : MBind exec := fun A B f c =>
  match c with
  | Ret a => f a
  | Panic => Panic
  end.

(** [Result<T, E>]. *)
Inductive result (T E : Type) : Type :=
| Ok (t : T)
| Err (e : E).
Arguments Ok {T E} t.
Arguments Err {T E} e.

(** [assert!(b)] and [debug_assert!(b)]. *)
Definition assert (b : bool) : exec unit := if b then Ret tt else Panic.

(** [Option::expect] and [Option::unwrap]. *)
Definition expect {A} (o : option A) : exec A :=
  match o with Some a => Ret a | None => Panic end.

(** ** Machine integers

    [u64] and [usize] (64 bits on every target of the kernel) are integers
    in [0, 2^64).  [+], [-] and [*] are the checked operators of the default
    build profile: an overflow panics. *)

Definition U64 : Z := 2 ^ 64.

Definition is_u64 (x : Z) : Prop := 0 <= x < U64.

Definition add64 (a b : Z) : exec Z := if a + b <? U64 then Ret (a + b) else Panic.

Definition sub64 (a b : Z) : exec Z := if b <=? a then Ret (a - b) else Panic.

Definition mul64 (a b : Z) : exec Z := if a * b <? U64 then Ret (a * b) else Panic.

(** The same on [u32]. *)
Definition add32 (a b : Z) : exec Z := if a + b <? 2 ^ 32 then Ret (a + b) else Panic.

Definition checked_add64 (a b : Z) : option Z :=
  if a + b <? U64 then Some (a + b) else None.

Definition wrapping_add64 (a b : Z) : Z := (a + b) mod U64.

Definition wrapping_sub64 (a b : Z) : Z := (a - b) mod U64.

(** Bitwise complement [!x] of a [u64]. *)
Definition not64 (x : Z) : Z := Z.ldiff (Z.ones 64) x.

(** [x << n] on [u64] for [n < 64]: the bits shifted out are lost. *)
Definition shl64 (x n : Z) : Z := Z.shiftl x n mod U64.

(** [x as i64] for a [u64] [x]. *)
Definition as_i64 (x : Z) : Z := if x <? 2 ^ 63 then x else x - U64.

(** [u64::trailing_zeros]. *)
Fixpoint pos_tz (p : positive) : Z :=
  match p with
  | xO q => 1 + pos_tz q
  | _ => 0
  end.

Definition trailing_zeros64 (x : Z) : Z :=
  match x with
  | Zpos p => pos_tz p
  | _ => 64
  end.

(** ** Slices and vectors, with the bounds checks of indexing *)

Definition idx {A} (l : list A) (i : Z) : exec A :=
  if 0 <=? i then match l !! Z.to_nat i with Some a => Ret a | None => Panic end
  else Panic.

Definition upd {A} (l : list A) (i : Z) (x : A) : exec (list A) :=
  if (0 <=? i) && (i <? Z.of_nat (length l)) then Ret (<[Z.to_nat i := x]> l) else Panic.

(** [for i in lo..lo+n { s = body(i, s) }]. *)
Fixpoint for_range {S} (lo : Z) (n : nat) (body : Z -> S -> exec S) (s : S) : exec S :=
  match n with
  | O => Ret s
  | Datatypes.S n' => s' ← body lo s; for_range (lo + 1) n' body s'
  end.

(** The outcome of a loop body that may leave the loop or the function. *)
Inductive flow (S R : Type) : Type :=
| Continue (s : S)
| Break (s : S)
| Return (r : R).
Arguments Continue {S R} s.
Arguments Break {S R} s.
Arguments Return {S R} r.

(** ** Total correctness

    [wp c Q]: the code [c] does not panic and its result satisfies [Q]. *)

Definition wp {A} (c : exec A) (Q : A -> Prop) : Prop :=
  match c with
  | Ret a => Q a
  | Panic => False
  end.

Lemma wp_ret {A} (a : A) (Q : A -> Prop) : Q a -> wp (Ret a) Q.
Proof. done. Qed.

Lemma wp_mret {A} (a : A) (Q : A -> Prop) : Q a -> wp (mret a) Q.
Proof. done. Qed.

Lemma wp_bind {A B} (c : exec A) (f : A -> exec B) (Q : B -> Prop) :
  wp c (fun a => wp (f a) Q) -> wp (c ≫= f) Q.
Proof. by destruct c. Qed.

Lemma wp_mono {A} (c : exec A) (P Q : A -> Prop) :
  wp c P -> (forall a, P a -> Q a) -> wp c Q.
Proof. destruct c; simpl; auto. Qed.

Lemma wp_exists {A} (c : exec A) (Q : A -> Prop) :
  wp c Q <-> exists a, c = Ret a /\ Q a.
Proof. destruct c; simpl; naive_solver. Qed.

Lemma wp_use {A} (c : exec A) (Q : A -> Prop) a : wp c Q -> c = Ret a -> Q a.
Proof. intros H ->. exact H. Qed.

Lemma wp_eq {A} (c : exec A) a : wp c (eq a) -> c = Ret a.
Proof. intros (? & -> & ->)%wp_exists. done. Qed.

Lemma wp_and {A} (c : exec A) (P Q : A -> Prop) :
  wp c P -> wp c Q -> wp c (fun a => P a /\ Q a).
Proof. destruct c; simpl; auto. Qed.

(** Inversion of code that returned. *)
Lemma bind_Ret_inv {A B} (c : exec A) (f : A -> exec B) b :
  c ≫= f = Ret b -> exists a, c = Ret a /\ f a = Ret b.
Proof. destruct c as [a|]; simpl; [|done]. eauto. Qed.

Lemma assert_Ret_inv b u : assert b = Ret u -> b = true.
Proof. by destruct b. Qed.

Lemma sub64_Ret_inv a b c : sub64 a b = Ret c -> c = a - b.
Proof. unfold sub64. destruct (b <=? a); congruence. Qed.

Lemma add64_Ret_inv a b c : add64 a b = Ret c -> c = a + b.
Proof. unfold add64. destruct (a + b <? U64); congruence. Qed.

Lemma add64_ok a b : a + b < U64 -> add64 a b = Ret (a + b).
Proof. unfold add64. intros H. by rewrite (proj2 (Z.ltb_lt _ _) H). Qed.

Lemma mul64_ok a b : a * b < U64 -> mul64 a b = Ret (a * b).
Proof. unfold mul64. intros H. by rewrite (proj2 (Z.ltb_lt _ _) H). Qed.

Lemma add64_overflow a b : U64 <= a + b -> add64 a b = Panic.
Proof. unfold add64. intros H. by rewrite (proj2 (Z.ltb_ge _ _) H). Qed.

Lemma wp_assert b (Q : unit -> Prop) : b = true -> Q tt -> wp (assert b) Q.
Proof. by intros ->. Qed.

Lemma wp_expect {A} (o : option A) a (Q : A -> Prop) : o = Some a -> Q a -> wp (expect o) Q.
Proof. by intros ->. Qed.

Lemma wp_add64 a b (Q : Z -> Prop) : a + b < U64 -> Q (a + b) -> wp (add64 a b) Q.
Proof. unfold add64. intros H ?. by rewrite (proj2 (Z.ltb_lt _ _) H). Qed.

Lemma wp_sub64 a b (Q : Z -> Prop) : b <= a -> Q (a - b) -> wp (sub64 a b) Q.
Proof. unfold sub64. intros H ?. by rewrite (proj2 (Z.leb_le _ _) H). Qed.

Lemma wp_mul64 a b (Q : Z -> Prop) : a * b < U64 -> Q (a * b) -> wp (mul64 a b) Q.
Proof. unfold mul64. intros H ?. by rewrite (proj2 (Z.ltb_lt _ _) H). Qed.

Lemma wp_add32 a b (Q : Z -> Prop) : a + b < 2 ^ 32 -> Q (a + b) -> wp (add32 a b) Q.
Proof. unfold add32. intros H ?. by rewrite (proj2 (Z.ltb_lt _ _) H). Qed.

Lemma wp_idx {A} (l : list A) i x (Q : A -> Prop) :
  0 <= i -> l !! Z.to_nat i = Some x -> Q x -> wp (idx l i) Q.
Proof. unfold idx. intros H -> ?. by rewrite (proj2 (Z.leb_le _ _) H). Qed.

Lemma wp_upd {A} (l : list A) i x (Q : list A -> Prop) :
  0 <= i < Z.of_nat (length l) -> Q (<[Z.to_nat i := x]> l) -> wp (upd l i x) Q.
Proof.
  unfold upd. intros [H1 H2] ?.
  by rewrite (proj2 (Z.leb_le _ _) H1), (proj2 (Z.ltb_lt _ _) H2).
Qed.

#[global] Arguments wp : simpl never.

(** The invariant rule for counted loops. *)
Lemma wp_for_range {S} (I : Z -> S -> Prop) lo n body (s : S) :
  I lo s ->
  (forall i s, lo <= i < lo + Z.of_nat n -> I i s -> wp (body i s) (I (i + 1))) ->
  wp (for_range lo n body s) (I (lo + Z.of_nat n)).
Proof.
  revert lo s. induction n as [|n IH]; intros lo s H0 Hs; simpl.
  - by rewrite Z.add_0_r.
  - apply wp_bind. eapply wp_mono; [apply Hs; [lia|done]|].
    intros s' H1. replace (lo + Z.of_nat (Datatypes.S n)) with (lo + 1 + Z.of_nat n) by lia.
    apply IH; [done|]. intros; apply Hs; [lia|done].
Qed.

(** ** Tactics *)

Ltac ulia := unfold is_u64, U64 in *; lia.

(** Linear arithmetic with division and remainder. *)
Ltac divlia := Z.to_euclidean_division_equations; lia.

(** One step of symbolic execution of the code in a [wp] goal. *)
Ltac wp_step :=
  lazymatch goal with
  | |- wp (mbind _ _) _ => apply wp_bind
  | |- wp (Ret _) _ => apply wp_ret
  | |- wp (mret _) _ => apply wp_mret
  | |- wp (add64 _ _) _ => apply wp_add64; [try ulia|]
  | |- wp (sub64 _ _) _ => apply wp_sub64; [try ulia|]
  | |- wp (mul64 _ _) _ => apply wp_mul64; [try ulia|]
  | |- wp (assert _) _ => apply wp_assert; [try ulia|]
  | |- wp _ _ => progress cbv beta iota
  end.

Ltac wp_steps := repeat wp_step.

(** Decide the boolean integer comparisons the code tests. *)
Ltac zcases :=
  repeat match goal with
  | |- context [Z.ltb ?a ?b] => destruct (Z.ltb_spec a b); try lia
  | |- context [Z.leb ?a ?b] => destruct (Z.leb_spec a b); try lia
  | |- context [Z.eqb ?a ?b] => destruct (Z.eqb_spec a b); try lia
  | H : context [Z.ltb ?a ?b] |- _ => destruct (Z.ltb_spec a b); try lia
  | H : context [Z.leb ?a ?b] |- _ => destruct (Z.leb_spec a b); try lia
  | H : context [Z.eqb ?a ?b] |- _ => destruct (Z.eqb_spec a b); try lia
  end.

(** ** Bits of machine words *)

Create HintDb bits discriminated.

Lemma testbit_high x n i : 0 <= x < 2 ^ n -> 0 <= n <= i -> Z.testbit x i = false.
Proof.
  intros Hx Hi. rewrite <- (Z.mod_small x (2 ^ n)) by done.
  apply Z.mod_pow2_bits_high. lia.
Qed.

Lemma bits_bound x n :
  0 <= n -> 0 <= x -> (forall i, n <= i -> Z.testbit x i = false) -> x < 2 ^ n.
Proof.
  intros Hn Hx Hb. destruct (Z.eq_dec x 0) as [->|Hnz]; [lia|].
  apply Z.log2_lt_pow2; [lia|].
  destruct (Z.lt_ge_cases (Z.log2 x) n) as [|Hge]; [done|].
  specialize (Hb _ Hge). rewrite Z.bit_log2 in Hb by lia. done.
Qed.

Lemma is_u64_bits x : is_u64 x <-> 0 <= x /\ forall i, 64 <= i -> Z.testbit x i = false.
Proof.
  unfold is_u64, U64. split.
  - intros Hx. split; [lia|]. intros i Hi. apply (testbit_high x 64); lia.
  - intros [Hx Hb]. split; [done|]. apply bits_bound; [lia|done|done].
Qed.

Lemma not64_testbit x i :
  0 <= i < 64 -> Z.testbit (not64 x) i = negb (Z.testbit x i).
Proof.
  intros Hi. unfold not64. rewrite Z.ldiff_spec, Z.ones_spec_low by lia. done.
Qed.

Lemma not64_testbit_high x i : 64 <= i -> Z.testbit (not64 x) i = false.
Proof.
  intros Hi. unfold not64. rewrite Z.ldiff_spec, Z.ones_spec_high by lia. done.
Qed.

Lemma not64_u64 x : is_u64 (not64 x).
Proof.
  apply is_u64_bits. split.
  - unfold not64. apply Z.ldiff_nonneg. left. rewrite Z.ones_equiv. lia.
  - intros. by apply not64_testbit_high.
Qed.

Lemma land_u64_l a b : is_u64 a -> is_u64 (Z.land a b).
Proof.
  rewrite !is_u64_bits. intros [Ha Hb]. split.
  - apply Z.land_nonneg. by left.
  - intros i Hi. rewrite Z.land_spec, Hb by done. done.
Qed.

Lemma lor_u64 a b : is_u64 a -> is_u64 b -> is_u64 (Z.lor a b).
Proof.
  rewrite !is_u64_bits. intros [Ha Hb] [Hc Hd]. split.
  - by apply Z.lor_nonneg.
  - intros i Hi. rewrite Z.lor_spec, Hb, Hd by done. done.
Qed.

Lemma bit_mask_testbit n i :
  0 <= n -> 0 <= i -> Z.testbit (Z.shiftl 1 n) i = (i =? n).
Proof.
  intros Hn Hi. rewrite Z.shiftl_1_l. destruct (Z.eqb_spec i n) as [->|Hne].
  - by apply Z.pow2_bits_true.
  - apply Z.pow2_bits_false. lia.
Qed.

Lemma bit_mask_u64 n : 0 <= n < 64 -> is_u64 (Z.shiftl 1 n).
Proof.
  intros Hn. rewrite Z.shiftl_1_l. unfold is_u64, U64. split; [lia|].
  apply Z.pow_lt_mono_r; lia.
Qed.

(** [w & (1 << b) == 0] tests the bit [b]. *)
Lemma land_bit_eqb w b : 0 <= b -> (Z.land w (Z.shiftl 1 b) =? 0) = negb (Z.testbit w b).
Proof.
  intros Hb. destruct (Z.testbit w b) eqn:E; simpl.
  - apply Z.eqb_neq. intros H0.
    assert (Z.testbit (Z.land w (Z.shiftl 1 b)) b = false) as H1 by (by rewrite H0, Z.testbit_0_l).
    rewrite Z.land_spec, E, bit_mask_testbit, Z.eqb_refl in H1 by lia. done.
  - apply Z.eqb_eq. apply Z.bits_inj'. intros i Hi.
    rewrite Z.land_spec, bit_mask_testbit, Z.testbit_0_l by lia.
    destruct (Z.eqb_spec i b) as [->|]; [by rewrite E|]. apply andb_false_r.
Qed.

(** [x & !(2^k - 1)] rounds a [u64] down to a multiple of [2^k]. *)
Lemma land_not_mask x k :
  is_u64 x -> 0 <= k <= 64 -> Z.land x (not64 (2 ^ k - 1)) = 2 ^ k * (x / 2 ^ k).
Proof.
  intros Hx Hk. apply Z.bits_inj'. intros i Hi.
  rewrite Z.mul_comm, <- Z.shiftl_mul_pow2, <- Z.shiftr_div_pow2 by lia.
  rewrite Z.land_spec, Z.shiftl_spec by lia.
  replace (2 ^ k - 1) with (Z.ones k) by (rewrite Z.ones_equiv; lia).
  destruct (Z.lt_ge_cases i 64) as [Hlt|Hge].
  - rewrite not64_testbit by lia. destruct (Z.lt_ge_cases i k).
    + rewrite Z.ones_spec_low, (Z.testbit_neg_r _ (i - k)) by lia. apply andb_false_r.
    + rewrite Z.ones_spec_high, Z.shiftr_spec by lia.
      replace (i - k + k) with i by lia. apply andb_true_r.
  - rewrite not64_testbit_high, andb_false_r by lia.
    rewrite Z.shiftr_spec by lia. replace (i - k + k) with i by lia.
    symmetry. apply is_u64_bits; [done|lia].
Qed.

Lemma land_mask x k : 0 <= k -> Z.land x (2 ^ k - 1) = x mod 2 ^ k.
Proof.
  intros Hk. rewrite <- Z.land_ones by done. by rewrite Z.ones_equiv.
Qed.

(** *** Trailing zeros *)

(** Fields that share no bit: [|] adds them. *)
Lemma lor_field_add x y n : 0 <= n -> 0 <= y < 2 ^ n -> Z.lor (x * 2 ^ n) y = x * 2 ^ n + y.
Proof.
  intros Hn Hy. assert (Z.land (x * 2 ^ n) y = 0) as Hz.
  { apply Z.bits_inj'. intros i Hi. rewrite Z.land_spec, Z.bits_0.
    destruct (decide (i < n)); [by rewrite Z.mul_pow2_bits_low by lia|].
    rewrite (testbit_high y n i) by lia. apply andb_false_r. }
  rewrite <- Z.lxor_lor, <- Z.add_nocarry_lxor by done. done.
Qed.

Lemma pos_tz_nonneg p : 0 <= pos_tz p.
Proof. induction p; simpl; lia. Qed.

Lemma pos_tz_testbit p : Z.testbit (Zpos p) (pos_tz p) = true.
Proof.
  induction p as [p IH|p IH|]; [done| |done].
  change (pos_tz p~0) with (1 + pos_tz p). rewrite Z.add_1_l, Pos2Z.inj_xO.
  rewrite Z.double_bits_succ. done.
Qed.

Lemma pos_tz_below p i : 0 <= i < pos_tz p -> Z.testbit (Zpos p) i = false.
Proof.
  revert i. induction p as [p IH|p IH|]; intros i; simpl pos_tz; [lia| |lia].
  intros Hi. rewrite Pos2Z.inj_xO. destruct (Z.eq_dec i 0) as [->|Hnz].
  - apply Z.testbit_even_0.
  - replace i with (Z.succ (i - 1)) by lia. rewrite Z.double_bits_succ. apply IH. lia.
Qed.

Lemma trailing_zeros64_spec x :
  is_u64 x -> x <> 0 ->
  0 <= trailing_zeros64 x < 64 /\ Z.testbit x (trailing_zeros64 x) = true.
Proof.
  intros Hx Hnz. destruct x as [|p|p]; [done| |ulia]. simpl.
  pose proof (pos_tz_testbit p) as Ht. pose proof (pos_tz_nonneg p). split; [|done].
  split; [done|]. destruct (Z.lt_ge_cases (pos_tz p) 64) as [|Hge]; [done|].
  apply is_u64_bits in Hx as [_ Hx]. by rewrite Hx in Ht.
Qed.

Lemma not64_zero_iff x : is_u64 x -> not64 x = 0 <-> x = U64 - 1.
Proof.
  intros Hx. split.
  - intros H0. apply Z.bits_inj'. intros i Hi.
    change (U64 - 1) with (2 ^ 64 - 1). rewrite Z.sub_1_r, <- Z.ones_equiv.
    destruct (Z.lt_ge_cases i 64).
    + rewrite Z.ones_spec_low by lia.
      pose proof (not64_testbit x i ltac:(lia)) as Hn. rewrite H0, Z.testbit_0_l in Hn.
      by destruct (Z.testbit x i).
    + rewrite Z.ones_spec_high by lia. apply is_u64_bits in Hx as [_ Hx]. by apply Hx.
  - intros ->. reflexivity.
Qed.

(** ** Sets *)

Lemma size_take_out (X : gset Z) f : f ∈ X -> size X = S (size (X ∖ {[f]})).
Proof.
  intros Hf. rewrite size_difference, size_singleton by set_solver.
  assert (size X <> 0%nat) by (intros E%size_empty_iff; set_solver). lia.
Qed.

(** ** Lists *)

Lemma map_seqZ_S {A} (f : Z -> A) n :
  map f (seqZ 0 (Z.of_nat (S n))) = f 0 :: map (fun i => f (i + 1)) (seqZ 0 (Z.of_nat n)).
Proof.
  rewrite seqZ_cons by lia. rewrite Nat2Z.inj_succ, Z.pred_succ.
  change (Z.succ 0) with (1 + 0). rewrite <- fmap_add_seqZ.
  change (f 0 :: map f (map (Z.add 1) (seqZ 0 (Z.of_nat n))) =
          f 0 :: map (fun i => f (i + 1)) (seqZ 0 (Z.of_nat n))).
  rewrite map_map. f_equal. apply map_ext. intros i. f_equal. lia.
Qed.

Lemma list_insert_mid {A} (l1 l2 : list A) x y :
  <[length l1 := y]> (l1 ++ x :: l2) = l1 ++ y :: l2.
Proof. induction l1; simpl; congruence. Qed.

Lemma list_delete_mid {A} (l1 l2 : list A) x : delete (length l1) (l1 ++ x :: l2) = l1 ++ l2.
Proof. induction l1; simpl; congruence. Qed.
