(* ===== verification/Bitmap.v ===== *)
(** * Bitmaps of 64-bit words

    The bit tests and updates that the frame allocator ([kernel/mm/src/pmm.rs])
    and the lock dependency tracker ([kernel/core/src/sync/lockdep.rs]) write
    out on arrays of [u64], and the set of bits they represent. *)

From S2P Require Import Prelude.

Definition BITS_PER_WORD : Z := 64.

(** [bitmap[word_idx] |= 1u64 << bit_idx]. *)
Definition bitmap_or (bm : list Z) (word_idx bit_idx : Z) : exec (list Z) :=
  w ← idx bm word_idx;
  upd bm word_idx (Z.lor w (Z.shiftl 1 bit_idx)).

(** [bitmap[word_idx] &= !(1u64 << bit_idx)]. *)
Definition bitmap_and_not (bm : list Z) (word_idx bit_idx : Z) : exec (list Z) :=
  w ← idx bm word_idx;
  upd bm word_idx (Z.land w (not64 (Z.shiftl 1 bit_idx))).

(** [bitmap[word_idx] & (1u64 << bit_idx) == 0]. *)
Definition bitmap_is_clear (bm : list Z) (word_idx bit_idx : Z) : exec bool :=
  w ← idx bm word_idx;
  Ret (Z.land w (Z.shiftl 1 bit_idx) =? 0).

(** ** The bitmap as a set *)

(** Bit [f] is set; bits beyond the bitmap count as set. *)
Definition used (bm : list Z) (f : Z) : bool :=
  match bm !! Z.to_nat (f / BITS_PER_WORD) with
  | Some w => Z.testbit w (f mod BITS_PER_WORD)
  | None => true
  end.

Definition bits_len (bm : list Z) : Z := BITS_PER_WORD * Z.of_nat (length bm).

Lemma used_oob bm f : bits_len bm <= f -> used bm f = true.
Proof.
  unfold used, bits_len, BITS_PER_WORD. intros Hf.
  rewrite lookup_ge_None_2; [done|]. Z.to_euclidean_division_equations. lia.
Qed.

Lemma frame_word bm f :
  0 <= f < bits_len bm ->
  exists w, bm !! Z.to_nat (f / BITS_PER_WORD) = Some w /\ used bm f = Z.testbit w (f mod BITS_PER_WORD).
Proof.
  unfold bits_len, BITS_PER_WORD. intros Hf.
  destruct (bm !! Z.to_nat (f / 64)) as [w|] eqn:Hw.
  - exists w. unfold used, BITS_PER_WORD. by rewrite Hw.
  - apply lookup_ge_None in Hw. Z.to_euclidean_division_equations. lia.
Qed.

Lemma frame_div_mod f : 0 <= f ->
  0 <= f / BITS_PER_WORD /\ 0 <= f mod BITS_PER_WORD < 64 /\
  f = BITS_PER_WORD * (f / BITS_PER_WORD) + f mod BITS_PER_WORD.
Proof. unfold BITS_PER_WORD. intros. Z.to_euclidean_division_equations. lia. Qed.

(** Changing the word of frame [f] only in the bit of [f]. *)
Lemma used_update bm f w w' g :
  0 <= f -> 0 <= g -> bm !! Z.to_nat (f / BITS_PER_WORD) = Some w ->
  (forall i, 0 <= i < 64 -> i <> f mod BITS_PER_WORD -> Z.testbit w' i = Z.testbit w i) ->
  used (<[Z.to_nat (f / BITS_PER_WORD) := w']> bm) g =
  if g =? f then Z.testbit w' (f mod BITS_PER_WORD) else used bm g.
Proof.
  intros Hf Hg Hw Hbits. pose proof (frame_div_mod f Hf). pose proof (frame_div_mod g Hg).
  unfold used. destruct (decide (g / BITS_PER_WORD = f / BITS_PER_WORD)) as [E|E].
  - rewrite E, list_lookup_insert_eq by (by eapply lookup_lt_Some). rewrite Hw.
    destruct (Z.eqb_spec g f) as [->|Hne]; [done|]. apply Hbits; [lia|].
    intros Hm. apply Hne. rewrite E, Hm in *. lia.
  - rewrite list_lookup_insert_ne by lia.
    destruct (Z.eqb_spec g f) as [->|Hne]; done.
Qed.

Definition bitmap_set (bm bm' : list Z) (f : Z) (b : bool) : Prop :=
  length bm' = length bm /\ Forall is_u64 bm' /\
  forall g, 0 <= g -> used bm' g = if g =? f then b else used bm g.

Lemma wp_bitmap_or bm f (Q : list Z -> Prop) :
  Forall is_u64 bm -> 0 <= f < bits_len bm ->
  (forall bm', bitmap_set bm bm' f true -> Q bm') ->
  wp (bitmap_or bm (f / BITS_PER_WORD) (f mod BITS_PER_WORD)) Q.
Proof.
  intros Hu Hf HQ. destruct (frame_word bm f Hf) as (w & Hw & _).
  pose proof (frame_div_mod f ltac:(lia)).
  unfold bitmap_or. wp_step. eapply wp_idx; [lia|done|].
  pose proof (lookup_lt_Some _ _ _ Hw). apply wp_upd; [lia|]. apply HQ. split_and!.
  - apply length_insert.
  - apply Forall_insert; [done|]. apply lor_u64; [by eapply Forall_lookup_1|].
    apply bit_mask_u64. lia.
  - intros g Hg. rewrite (used_update bm f w) by
      (try done; try lia; intros i Hi Hne; rewrite Z.lor_spec, bit_mask_testbit by lia;
       rewrite (proj2 (Z.eqb_neq _ _)) by done; apply orb_false_r).
    rewrite Z.lor_spec, bit_mask_testbit, Z.eqb_refl, orb_true_r by lia. done.
Qed.

Lemma wp_bitmap_and_not bm f (Q : list Z -> Prop) :
  Forall is_u64 bm -> 0 <= f < bits_len bm ->
  (forall bm', bitmap_set bm bm' f false -> Q bm') ->
  wp (bitmap_and_not bm (f / BITS_PER_WORD) (f mod BITS_PER_WORD)) Q.
Proof.
  intros Hu Hf HQ. destruct (frame_word bm f Hf) as (w & Hw & _).
  pose proof (frame_div_mod f ltac:(lia)).
  unfold bitmap_and_not. wp_step. eapply wp_idx; [lia|done|].
  pose proof (lookup_lt_Some _ _ _ Hw). apply wp_upd; [lia|]. apply HQ. split_and!.
  - apply length_insert.
  - apply Forall_insert; [done|]. apply land_u64_l. by eapply Forall_lookup_1.
  - intros g Hg. rewrite (used_update bm f w) by
      (try done; try lia; intros i Hi Hne;
       rewrite Z.land_spec, not64_testbit, bit_mask_testbit by lia;
       rewrite (proj2 (Z.eqb_neq _ _)) by done; apply andb_true_r).
    rewrite Z.land_spec, not64_testbit, bit_mask_testbit, Z.eqb_refl, andb_false_r by lia. done.
Qed.

Lemma wp_bitmap_is_clear bm f (Q : bool -> Prop) :
  0 <= f < bits_len bm -> Q (negb (used bm f)) ->
  wp (bitmap_is_clear bm (f / BITS_PER_WORD) (f mod BITS_PER_WORD)) Q.
Proof.
  intros Hf HQ. destruct (frame_word bm f Hf) as (w & Hw & Hb).
  pose proof (frame_div_mod f ltac:(lia)).
  unfold bitmap_is_clear. wp_step. eapply wp_idx; [lia|done|]. wp_step.
  rewrite land_bit_eqb by lia. by rewrite <- Hb.
Qed.

(** The bits set below [total].  Sealed: the sets are large and are never
    computed. *)
Definition bits_of_def (bm : list Z) (total : Z) : gset Z :=
  list_to_set (filter (fun f => used bm f = true) (seqZ 0 total)).
Definition bits_of_aux : seal bits_of_def.
Proof. by eexists. Qed.
Definition bits_of : list Z -> Z -> gset Z := unseal bits_of_aux.

Lemma elem_of_bits_of bm total f :
  f ∈ bits_of bm total <-> 0 <= f < total /\ used bm f = true.
Proof.
  unfold bits_of. rewrite (seal_eq bits_of_aux). unfold bits_of_def.
  rewrite elem_of_list_to_set, list_elem_of_filter, elem_of_seqZ, Z.add_0_l. tauto.
Qed.

Lemma bits_of_set bm bm' f total :
  0 <= f < total -> bitmap_set bm bm' f true -> bits_of bm' total = {[f]} ∪ bits_of bm total.
Proof.
  intros Hf (_ & _ & Hu). apply set_eq. intros g.
  rewrite elem_of_union, elem_of_singleton, !elem_of_bits_of.
  destruct (decide (0 <= g)); [|split; [lia|intros [->|]; lia]].
  rewrite Hu by done. destruct (Z.eqb_spec g f) as [->|]; tauto.
Qed.

Lemma used_zeros n f : 0 <= f < 64 * Z.of_nat n -> used (replicate n 0) f = false.
Proof.
  intros Hf. unfold used, BITS_PER_WORD. rewrite lookup_replicate_2 by divlia. apply Z.testbit_0_l.
Qed.

Lemma bits_of_zeros n : bits_of (replicate n 0) (64 * Z.of_nat n) = ∅.
Proof.
  apply set_eq. intros f. rewrite elem_of_bits_of. split; [|set_solver].
  intros [Hf Hu]. by rewrite used_zeros in Hu.
Qed.
