(* ===== verification/Lockdep.v ===== *)
(** * Lock dependency tracking (kernel/core/src/sync/lockdep.rs)

    Lock classes, the graph of which class was held when which was acquired,
    the search for cycles, the level and interrupt checks, and the stacks of
    held locks, one per CPU.  All CPUs run at once.  [lock_acquired] and the
    registration are cut where other CPUs can act: a step is a section under
    the graph lock, an atomic access, or work on data of one CPU.  A call made
    by an interrupt handler while its CPU is inside the tracker is a step too.

    [warn] is the build option [hadron_lockdep_warn]: a violation is handed to
    the reporting callback (here: appended to [ld_reports]) instead of
    panicking.  The statistics of [hadron_lock_stat] are not built in. *)

From stdpp Require Import strings.
From S2P Require Import Prelude Bitmap.
Open Scope Z_scope.

Definition MAX_CLASSES : Z := 256.
Definition MAX_HELD : Z := 32.
Definition MAX_EDGES : Z := 1024.
Definition GRAPH_WORDS : Z := MAX_CLASSES * MAX_CLASSES / 64.

Inductive LockKind : Type := SpinLock | IrqSpinLock | Mutex | RwLock.

#[export] Instance LockKind_eq_dec : EqDecision LockKind.
Proof. solve_decision. Defined.

(** A [LockClassId] is its number; [NONE] is the sentinel. *)
Definition NONE : Z := 0xFFFF.

Definition IRQ_USED_IN_IRQ : Z := Z.shiftl 1 0.
Definition IRQ_USED_IN_NON_IRQ : Z := Z.shiftl 1 1.

Record LockClassEntry : Type := mkClass {
  ce_key_addr : Z;
  ce_subclass : Z;
  ce_level : Z;
  ce_name : string;
  ce_kind : LockKind;
  ce_irq_usage : Z;
}.

Definition LockClassEntry_empty : LockClassEntry := mkClass 0 0 0 EmptyString SpinLock 0.

(** What a report says.  The held-lock stack is printed in warning mode. *)
Inductive violation : Type :=
| VCycle (held acquiring : Z) (held_name acq_name : string) (held_kind acq_kind : LockKind)
    (stack : list (string * LockKind))
| VIrq (class : Z) (name : string) (kind : LockKind)
| VLevel (held acquiring held_level acq_level : Z) (held_name acq_name : string)
    (held_kind acq_kind : LockKind) (stack : list (string * LockKind * Z)).

(** ** Held-lock stacks *)

Record HeldLocks : Type := mkHeld {
  hl_stack : list Z;
  hl_depth : Z;
}.

Definition HeldLocks_new : HeldLocks := mkHeld (replicate (Z.to_nat MAX_HELD) NONE) 0.

Definition held_push (self : HeldLocks) (class : Z) : exec HeldLocks :=
  if hl_depth self <? MAX_HELD then
    st ← upd (hl_stack self) (hl_depth self) class;
    Ret (mkHeld st (hl_depth self + 1))
  else Ret self.

(** The inner loop of [pop]: shift the entries above [j] down, [n] of them. *)
Fixpoint shift_down (stack : list Z) (j : Z) (n : nat) : exec (list Z) :=
  match n with
  | O => Ret stack
  | S n =>
      x ← idx stack (j + 1);
      stack ← upd stack j x;
      shift_down stack (j + 1) n
  end.

(** The outer loop of [pop], [n] entries left to look at, from the top. *)
Fixpoint pop_loop (self : HeldLocks) (id : Z) (n : nat) : exec (HeldLocks * option Z) :=
  match n with
  | O => Ret (self, None)
  | S n =>
      let i := Z.of_nat n in
      class ← idx (hl_stack self) i;
      if class =? id then
        st ← shift_down (hl_stack self) i (Z.to_nat (hl_depth self - 1 - i));
        Ret (mkHeld st (hl_depth self - 1), Some class)
      else pop_loop self id n
  end.

Definition held_pop (self : HeldLocks) (id : Z) : exec (HeldLocks * option Z) :=
  pop_loop self id (Z.to_nat (hl_depth self)).

(** ** The dependency graph *)

Definition graph_test (graph : list Z) (from to : Z) : exec bool :=
  t ← mul64 from MAX_CLASSES;
  bit ← add64 t to;
  clear ← bitmap_is_clear graph (bit / 64) (bit mod 64);
  Ret (negb clear).

Definition graph_set (graph : list Z) (from to : Z) : exec (list Z) :=
  t ← mul64 from MAX_CLASSES;
  bit ← add64 t to;
  bitmap_or graph (bit / 64) (bit mod 64).

(** One round of the loop over the neighbours of [node]. *)
Definition explore (graph visited : list Z) (node neighbor : Z) (st : list Z * Z) : exec (list Z * Z) :=
  let (stack, sp) := st in
  e ← graph_test graph node neighbor;
  if (e : bool) then
    clear ← bitmap_is_clear visited (neighbor / 64) (neighbor mod 64);
    if clear && (sp <? MAX_CLASSES) then
      stack ← upd stack sp neighbor;
      Ret (stack, sp + 1)
    else Ret (stack, sp)
  else Ret (stack, sp).

(** The loop of [has_path]. *)
Fixpoint path_loop (fuel : nat) (graph : list Z) (count dst : Z) (visited stack : list Z) (sp : Z)
    : exec bool :=
  match fuel with
  | O => Panic
  | S fuel =>
      if sp =? 0 then Ret false else
      let sp := sp - 1 in
      node ← idx stack sp;
      if node =? dst then Ret true else
      clear ← bitmap_is_clear visited (node / 64) (node mod 64);
      if negb clear then path_loop fuel graph count dst visited stack sp else
      visited ← bitmap_or visited (node / 64) (node mod 64);
      '(stack, sp) ← for_range 0 (Z.to_nat count) (explore graph visited node) (stack, sp);
      path_loop fuel graph count dst visited stack sp
  end.

(** A round either shortens the stack of at most 256 entries or visits one of
    256 classes. *)
Definition path_fuel : nat := Z.to_nat (257 * 257).

Definition has_path (graph : list Z) (count src dst : Z) : exec bool :=
  let visited := replicate (Z.to_nat (MAX_CLASSES / 64)) 0 in
  let stack := replicate (Z.to_nat MAX_CLASSES) 0 in
  stack ← upd stack 0 src;
  path_loop path_fuel graph count dst visited stack 1.

(** ** The state of the tracker *)

(** Where a CPU is in [lock_acquired]: before entry [i] of its stack, or about
    to take the graph lock for it. *)
Inductive ld_phase : Type :=
| LdIdle
| LdEdge (class i : Z)
| LdLock (class i : Z).

Record LdCpu : Type := mkLdCpu {
  lc_held : HeldLocks;
  lc_in_lockdep : bool;
  lc_phase : ld_phase;
}.

Record Lockdep : Type := mkLockdep {
  ld_classes : list LockClassEntry;
  ld_class_count : Z;
  ld_graph : list Z;
  ld_edges : list (Z * Z);
  ld_edge_count : Z;
  ld_cpus : list LdCpu;
  ld_reports : list violation;
}.

Definition Lockdep_init (cpus : nat) : Lockdep :=
  mkLockdep (replicate (Z.to_nat MAX_CLASSES) LockClassEntry_empty) 0
    (replicate (Z.to_nat GRAPH_WORDS) 0) (replicate (Z.to_nat MAX_EDGES) (0xFFFF, 0xFFFF)) 0
    (replicate cpus (mkLdCpu HeldLocks_new false LdIdle)) [].

Definition set_classes (s : Lockdep) (cs : list LockClassEntry) (n : Z) : Lockdep :=
  mkLockdep cs n (ld_graph s) (ld_edges s) (ld_edge_count s) (ld_cpus s) (ld_reports s).

Definition set_ld_cpu (s : Lockdep) (c : nat) (x : LdCpu) : Lockdep :=
  mkLockdep (ld_classes s) (ld_class_count s) (ld_graph s) (ld_edges s) (ld_edge_count s)
    (<[c := x]> (ld_cpus s)) (ld_reports s).

Definition set_graph (s : Lockdep) (g : list Z) (es : list (Z * Z)) (n : Z) : Lockdep :=
  mkLockdep (ld_classes s) (ld_class_count s) g es n (ld_cpus s) (ld_reports s).

Definition add_report (s : Lockdep) (v : violation) : Lockdep :=
  mkLockdep (ld_classes s) (ld_class_count s) (ld_graph s) (ld_edges s) (ld_edge_count s)
    (ld_cpus s) (ld_reports s ++ [v]).

(** ** Class registration *)

(** The search for a class with the same key and subclass, [n] slots left. *)
Fixpoint find_class (classes : list LockClassEntry) (key_addr subclass i : Z) (n : nat) : exec (option Z) :=
  match n with
  | O => Ret None
  | S n =>
      e ← idx classes i;
      if (ce_key_addr e =? key_addr) && (ce_subclass e =? subclass) then Ret (Some i)
      else find_class classes key_addr subclass (i + 1) n
  end.

(** The search without the lock. *)
Definition register_fast (s : Lockdep) (key_addr subclass : Z) : exec (option Z) :=
  find_class (ld_classes s) key_addr subclass 0 (Z.to_nat (ld_class_count s)).

(** The section under the graph lock. *)
Definition register_slow (s : Lockdep) (key_addr subclass level : Z) (name : string) (kind : LockKind)
    : exec (Lockdep * Z) :=
  let count := ld_class_count s in
  o ← find_class (ld_classes s) key_addr subclass 0 (Z.to_nat count);
  match o with
  | Some i => Ret (s, i)
  | None =>
      if MAX_CLASSES <=? count then Ret (s, NONE) else
      e ← idx (ld_classes s) count;
      cs ← upd (ld_classes s) count (mkClass key_addr subclass level name kind (ce_irq_usage e));
      Ret (set_classes s cs (count + 1), count)
  end.

(** [get_or_register_full], when no other CPU acts between its two parts. *)
Definition get_or_register_full (s : Lockdep) (key_addr subclass level : Z) (name : string)
    (kind : LockKind) : exec (Lockdep * Z) :=
  o ← register_fast s key_addr subclass;
  match o with
  | Some i => Ret (s, i)
  | None => register_slow s key_addr subclass level name kind
  end.

Definition get_or_register (s : Lockdep) (addr : Z) (name : string) (kind : LockKind) :=
  get_or_register_full s addr 0 0 name kind.

Definition get_or_register_leveled (s : Lockdep) (addr level : Z) (name : string) (kind : LockKind) :=
  get_or_register_full s addr 0 level name kind.

Definition get_or_register_with_subclass (s : Lockdep) (key_addr subclass : Z) (name : string)
    (kind : LockKind) :=
  get_or_register_full s key_addr subclass 0 name kind.

(** [should_skip]: the words at GS:[0] and GS:[29]. *)
Definition should_skip (self_ptr init : Z) : bool :=
  if self_ptr <? 0xFFFF800000000000 then true else init =? 0.

(** ** Reporting *)

Definition class_name (s : Lockdep) (id : Z) : exec string :=
  if id <? ld_class_count s then e ← idx (ld_classes s) id; Ret (ce_name e)
  else Ret "<unknown>"%string.

Definition class_kind (s : Lockdep) (id : Z) : exec LockKind :=
  if id <? ld_class_count s then e ← idx (ld_classes s) id; Ret (ce_kind e)
  else Ret SpinLock.

Section Warn.
Variable warn : bool.

(** The lines of the held-lock stack, entries [i] to [i + n]. *)
Fixpoint stack_lines (s : Lockdep) (held : HeldLocks) (i : Z) (n : nat) : exec (list (string * LockKind)) :=
  match n with
  | O => Ret []
  | S n =>
      h ← idx (hl_stack held) i;
      name ← class_name s h;
      kind ← class_kind s h;
      rest ← stack_lines s held (i + 1) n;
      Ret ((name, kind) :: rest)
  end.

Fixpoint level_lines (s : Lockdep) (held : HeldLocks) (i : Z) (n : nat)
    : exec (list (string * LockKind * Z)) :=
  match n with
  | O => Ret []
  | S n =>
      h ← idx (hl_stack held) i;
      e ← idx (ld_classes s) h;
      name ← class_name s h;
      kind ← class_kind s h;
      rest ← level_lines s held (i + 1) n;
      Ret ((name, kind, ce_level e) :: rest)
  end.

Definition report_cycle (s : Lockdep) (held acquiring : Z) (held_stack : HeldLocks) : exec Lockdep :=
  held_name ← class_name s held;
  held_kind ← class_kind s held;
  acq_name ← class_name s acquiring;
  acq_kind ← class_kind s acquiring;
  if warn then
    lines ← stack_lines s held_stack 0 (Z.to_nat (hl_depth held_stack));
    Ret (add_report s (VCycle held acquiring held_name acq_name held_kind acq_kind lines))
  else Panic.

Definition report_irq_safety (s : Lockdep) (class : Z) : exec Lockdep :=
  name ← class_name s class;
  kind ← class_kind s class;
  if warn then Ret (add_report s (VIrq class name kind)) else Panic.

Definition report_level_violation (s : Lockdep) (held acquiring held_level acq_level : Z)
    (held_stack : HeldLocks) : exec Lockdep :=
  held_name ← class_name s held;
  held_kind ← class_kind s held;
  acq_name ← class_name s acquiring;
  acq_kind ← class_kind s acquiring;
  if warn then
    lines ← level_lines s held_stack 0 (Z.to_nat (hl_depth held_stack));
    Ret (add_report s (VLevel held acquiring held_level acq_level held_name acq_name held_kind acq_kind lines))
  else Panic.

(** ** Acquire and release hooks *)

(** The interrupt check: [irq] is the result of [in_irq_context]. *)
Definition irq_check (s : Lockdep) (class : Z) (irq : bool) : exec Lockdep :=
  let usage_bit := if irq then IRQ_USED_IN_IRQ else IRQ_USED_IN_NON_IRQ in
  e ← idx (ld_classes s) class;
  let prev_usage := ce_irq_usage e in
  cs ← upd (ld_classes s) class
         (mkClass (ce_key_addr e) (ce_subclass e) (ce_level e) (ce_name e) (ce_kind e)
            (Z.lor prev_usage usage_bit));
  let s := set_classes s cs (ld_class_count s) in
  if irq && negb (Z.land prev_usage IRQ_USED_IN_NON_IRQ =? 0) then
    if negb (bool_decide (ce_kind e = IrqSpinLock)) then report_irq_safety s class else Ret s
  else Ret s.

(** The loop of the level check, from entry [i] on, [n] entries left. *)
Fixpoint level_check (s : Lockdep) (held : HeldLocks) (class new_level i : Z) (n : nat) : exec Lockdep :=
  match n with
  | O => Ret s
  | S n =>
      h ← idx (hl_stack held) i;
      if (h =? NONE) || (h =? class) then level_check s held class new_level (i + 1) n else
      e ← idx (ld_classes s) h;
      let held_level := ce_level e in
      if (0 <? held_level) && (new_level <? held_level) then
        report_level_violation s h class held_level new_level held
      else level_check s held class new_level (i + 1) n
  end.

(** [lock_acquired] up to the loop over the held locks. *)
Definition acquire_enter (s : Lockdep) (c : nat) (x : LdCpu) (class : Z) (skip irq : bool) : exec Lockdep :=
  if (class =? NONE) || skip then Ret s else
  if lc_in_lockdep x then Ret s else
  s ← irq_check s class irq;
  e ← idx (ld_classes s) class;
  let held := lc_held x in
  s ← (if 0 <? ce_level e then level_check s held class (ce_level e) 0 (Z.to_nat (hl_depth held))
       else Ret s);
  Ret (set_ld_cpu s c (mkLdCpu held true (LdEdge class 0))).

(** Pushing the lock and leaving the tracker. *)
Definition acquire_done (s : Lockdep) (c : nat) (x : LdCpu) (class : Z) : exec Lockdep :=
  held ← held_push (lc_held x) class;
  Ret (set_ld_cpu s c (mkLdCpu held false LdIdle)).

(** A round of the loop over the held locks, without the graph lock. *)
Definition edge_test (s : Lockdep) (c : nat) (x : LdCpu) (class i : Z) : exec Lockdep :=
  let goto ph := set_ld_cpu s c (mkLdCpu (lc_held x) (lc_in_lockdep x) ph) in
  if i <? hl_depth (lc_held x) then
    h ← idx (hl_stack (lc_held x)) i;
    if (h =? NONE) || (h =? class) then Ret (goto (LdEdge class (i + 1))) else
    t ← graph_test (ld_graph s) h class;
    if (t : bool) then Ret (goto (LdEdge class (i + 1))) else Ret (goto (LdLock class i))
  else acquire_done s c x class.

(** The section under the graph lock. *)
Definition edge_record (s : Lockdep) (c : nat) (x : LdCpu) (class i : Z) : exec Lockdep :=
  h ← idx (hl_stack (lc_held x)) i;
  t ← graph_test (ld_graph s) h class;
  if negb t then
    g ← graph_set (ld_graph s) h class;
    let edge_idx := ld_edge_count s in
    es ← (if edge_idx <? MAX_EDGES then upd (ld_edges s) edge_idx (h, class) else Ret (ld_edges s));
    let s := set_graph s g es ((edge_idx + 1) mod 2 ^ 32) in
    p ← has_path (ld_graph s) (ld_class_count s) class h;
    if (p : bool) then
      s ← report_cycle s h class (lc_held x);
      acquire_done s c x class
    else Ret (set_ld_cpu s c (mkLdCpu (lc_held x) (lc_in_lockdep x) (LdEdge class (i + 1))))
  else Ret (set_ld_cpu s c (mkLdCpu (lc_held x) (lc_in_lockdep x) (LdEdge class (i + 1)))).

Definition lock_released (s : Lockdep) (c : nat) (x : LdCpu) (class : Z) (skip : bool) : exec Lockdep :=
  if (class =? NONE) || skip then Ret s else
  if lc_in_lockdep x then Ret s else
  '(held, _) ← held_pop (lc_held x) class;
  Ret (set_ld_cpu s c (mkLdCpu held false (lc_phase x))).
End Warn.
