(* ===== verification/LockdepPath.v ===== *)
(** * The cycle search of the lock dependency tracker

    [has_path] of [kernel/core/src/sync/lockdep.rs] is a depth-first search
    with a stack of 256 entries.  It always returns; what it finds is a path;
    and it finds every path while the graph has at most 256 edges, because
    then no neighbour is left out for lack of room on the stack. *)

From S2P Require Import Prelude Bitmap Lockdep.

Definition EDGE_BITS : Z := MAX_CLASSES * MAX_CLASSES.

Definition edge (g : list Z) (a b : Z) : Prop :=
  0 <= a < MAX_CLASSES /\ 0 <= b < MAX_CLASSES /\ used g (a * MAX_CLASSES + b) = true.

(** The bit numbers of the edges. *)
Definition edge_bits (g : list Z) : gset Z := bits_of g EDGE_BITS.

Definition graph_ok (g : list Z) (count : Z) : Prop :=
  length g = Z.to_nat GRAPH_WORDS /\ Forall is_u64 g /\ 0 <= count <= MAX_CLASSES /\
  forall a b, edge g a b -> a < count /\ b < count.

Definition bitset_ok (v : list Z) : Prop := length v = 4%nat /\ Forall is_u64 v.

Lemma graph_bits_len g count : graph_ok g count -> bits_len g = EDGE_BITS.
Proof. intros (Hl & _). unfold bits_len. rewrite Hl. reflexivity. Qed.

#[export] Instance edge_dec g a b : Decision (edge g a b).
Proof. unfold edge. apply _. Defined.

(** The row and column of a bit. *)
Lemma bit_row a b : 0 <= b < MAX_CLASSES -> (a * MAX_CLASSES + b) / MAX_CLASSES = a.
Proof. unfold MAX_CLASSES. intros. divlia. Qed.

Lemma bit_col a b : 0 <= b < MAX_CLASSES -> (a * MAX_CLASSES + b) mod MAX_CLASSES = b.
Proof. unfold MAX_CLASSES. intros. divlia. Qed.

Lemma bit_split n : n = n / MAX_CLASSES * MAX_CLASSES + n mod MAX_CLASSES.
Proof. unfold MAX_CLASSES. divlia. Qed.

Lemma edge_bit g a b :
  0 <= b < MAX_CLASSES -> a * MAX_CLASSES + b ∈ edge_bits g <-> edge g a b.
Proof.
  intros Hb. unfold edge_bits, edge. rewrite elem_of_bits_of. unfold EDGE_BITS, MAX_CLASSES in *.
  split; intros; split_and!; (tauto || lia).
Qed.

Lemma wp_graph_test g count a b (Q : bool -> Prop) :
  graph_ok g count -> 0 <= a < MAX_CLASSES -> 0 <= b < MAX_CLASSES ->
  Q (bool_decide (edge g a b)) -> wp (graph_test g a b) Q.
Proof.
  intros Hg Ha Hb HQ. pose proof (graph_bits_len _ _ Hg) as Hl. unfold graph_test.
  unfold MAX_CLASSES in Ha, Hb.
  wp_step. wp_step; [unfold MAX_CLASSES; ulia|]. wp_step. wp_step; [unfold MAX_CLASSES; ulia|]. wp_step.
  apply (wp_bitmap_is_clear g (a * MAX_CLASSES + b)).
  - rewrite Hl. unfold EDGE_BITS, MAX_CLASSES. lia.
  - wp_step. rewrite negb_involutive. replace (used _ _) with (bool_decide (edge g a b)); [done|].
    destruct (used g (a * MAX_CLASSES + b)) eqn:Eu.
    + apply bool_decide_eq_true. split_and!; try done; unfold MAX_CLASSES; lia.
    + apply bool_decide_eq_false. unfold edge. intuition congruence.
Qed.

(** The graph after an edge has been added. *)
Lemma wp_graph_set g count a b (Q : list Z -> Prop) :
  graph_ok g count -> 0 <= a < count -> 0 <= b < count ->
  (forall g', graph_ok g' count -> edge_bits g' = {[a * MAX_CLASSES + b]} ∪ edge_bits g ->
     (forall x y, edge g' x y <-> edge g x y \/ (x = a /\ y = b)) -> Q g') ->
  wp (graph_set g a b) Q.
Proof.
  intros Hg Ha Hb HQ. pose proof (graph_bits_len _ _ Hg) as Hl. pose proof Hg as (Hlen & Hu & Hc & He).
  unfold MAX_CLASSES in Hc. unfold graph_set.
  wp_step. wp_step; [unfold MAX_CLASSES; ulia|]. wp_step. wp_step; [unfold MAX_CLASSES; ulia|].
  assert (0 <= a * MAX_CLASSES + b < EDGE_BITS) as Hbit by (unfold EDGE_BITS, MAX_CLASSES; lia).
  apply (wp_bitmap_or g (a * MAX_CLASSES + b)); [done|lia|].
  intros g' Hset. pose proof (bits_of_set _ _ _ _ Hbit Hset) as Heb. destruct Hset as (Hl' & Hu' & Hused).
  assert (forall x y, edge g' x y <-> edge g x y \/ (x = a /\ y = b)) as Hedge.
  { intros x y. unfold edge. split.
    - intros (Hx & Hy & H). rewrite Hused in H by (unfold MAX_CLASSES in *; lia).
      destruct (Z.eqb_spec (x * MAX_CLASSES + y) (a * MAX_CLASSES + b)) as [E|E]; [right|left; tauto].
      unfold MAX_CLASSES in *. lia.
    - intros [(Hx & Hy & H)|[-> ->]].
      + split_and!; try lia. rewrite Hused by (unfold MAX_CLASSES in *; lia). by destruct (_ =? _).
      + split_and!; try (unfold MAX_CLASSES; lia). rewrite Hused by lia. by rewrite Z.eqb_refl. }
  apply HQ; [|done|done]. split_and!; [by rewrite Hl'|done|unfold MAX_CLASSES; lia|unfold MAX_CLASSES; lia|].
  intros x y [Hxy|[-> ->]]%Hedge; [by apply He|lia].
Qed.

(** ** The stack *)

Lemma wp_stack_push (stack : list Z) sp x (Q : list Z -> Prop) :
  0 <= sp < Z.of_nat (length stack) ->
  (forall stack', length stack' = length stack ->
     take (Z.to_nat (sp + 1)) stack' = take (Z.to_nat sp) stack ++ [x] -> Q stack') ->
  wp (upd stack sp x) Q.
Proof.
  intros Hsp HQ. apply wp_upd; [lia|]. apply HQ; [apply length_insert|].
  replace (Z.to_nat (sp + 1)) with (S (Z.to_nat sp)) by lia.
  rewrite (take_S_r _ _ x) by (apply list_lookup_insert_eq; lia).
  by rewrite take_insert_ge by lia.
Qed.

Lemma wp_stack_pop (stack : list Z) sp (Q : Z -> Prop) :
  0 <= sp < Z.of_nat (length stack) ->
  (forall x, take (Z.to_nat (sp + 1)) stack = take (Z.to_nat sp) stack ++ [x] -> Q x) ->
  wp (idx stack sp) Q.
Proof.
  intros Hsp HQ. destruct (lookup_lt_is_Some_2 stack (Z.to_nat sp)) as [x Hx]; [lia|].
  eapply wp_idx; [lia|done|]. apply HQ.
  replace (Z.to_nat (sp + 1)) with (S (Z.to_nat sp)) by lia. by apply take_S_r.
Qed.

(** ** The search *)

(** The array [stack] with [sp] entries in use holds [L]. *)
Definition stack_is (st : list Z * Z) (L : list Z) : Prop :=
  length st.1 = Z.to_nat MAX_CLASSES /\ 0 <= st.2 <= MAX_CLASSES /\ take (Z.to_nat st.2) st.1 = L.

Lemma stack_is_length st L : stack_is st L -> Z.of_nat (length L) = st.2.
Proof. intros (Hl & Hs & <-). rewrite length_take, Hl. unfold MAX_CLASSES in *. lia. Qed.

Section Search.
Variables (g : list Z) (count src dst : Z).
Hypothesis Hg : graph_ok g count.

(** Few enough edges for the stack. *)
Definition few_edges : Prop := Z.of_nat (size (edge_bits g)) <= MAX_CLASSES.

(** The edges that leave visited classes, those of [node] up to [j] only. *)
Definition followed (V : list Z) (node j : Z) : gset Z :=
  filter (fun n => used V (n / MAX_CLASSES) = true /\ (n / MAX_CLASSES = node -> n mod MAX_CLASSES < j))
    (edge_bits g).

Definition from_src (L : list Z) : Prop := Forall (fun v => 0 <= v < count /\ rtc (edge g) src v) L.

Record explored (V : list Z) (node : Z) (L0 : list Z) (j : Z) (L : list Z) : Prop := {
  ex_src : from_src L;
  ex_room : few_edges -> Z.of_nat (length L) <= Z.of_nat (size (followed V node j));
  ex_seen : few_edges -> forall w, w < j -> edge g node w -> used V w = true \/ w ∈ L;
  ex_kept : L0 ⊆ L;
}.

Lemma followed_step V node j :
  0 <= j < MAX_CLASSES -> used V node = true ->
  followed V node (j + 1) =
  if decide (edge g node j) then {[node * MAX_CLASSES + j]} ∪ followed V node j else followed V node j.
Proof.
  intros Hj Hn. apply set_eq. intros n. unfold followed.
  assert (forall n, n <> node * MAX_CLASSES + j -> n / MAX_CLASSES = node ->
            n mod MAX_CLASSES < j + 1 -> n mod MAX_CLASSES < j) as Hlt.
  { intros n' Hne <- Hlt. pose proof (bit_split n').
    destruct (decide (n' mod MAX_CLASSES = j)) as [E|]; [|lia]. rewrite E in *. lia. }
  destruct (decide (edge g node j)) as [He|He].
  - rewrite elem_of_union, elem_of_singleton, !elem_of_filter.
    destruct (decide (n = node * MAX_CLASSES + j)) as [->|Hne].
    + rewrite bit_row, bit_col, edge_bit by done. split; [tauto|]. intros _. split_and!; [done|lia|done].
    + split; [intros [[H1 H2] H3]; right; eauto|]. intros [|[[H1 H2] H3]]; [done|].
      split_and!; [done| |done]. intros E. specialize (H2 E). lia.
  - rewrite !elem_of_filter. split; intros [[H1 H2] H3]; (split_and!; [done| |done]); intros E.
    + specialize (H2 E). destruct (decide (n = node * MAX_CLASSES + j)) as [->|]; [|by eauto].
      exfalso. apply He. by apply edge_bit in H3.
    + specialize (H2 E). lia.
Qed.

(** An edge not followed yet leaves room on the stack. *)
Lemma followed_room V node j :
  few_edges -> 0 <= j < MAX_CLASSES -> edge g node j -> Z.of_nat (size (followed V node j)) < MAX_CLASSES.
Proof.
  intros Hf Hj He. unfold few_edges in Hf.
  assert (followed V node j ⊂ edge_bits g) as Hsub%subset_size; [|lia].
  apply strict_spec. rewrite !elem_of_subseteq. split.
  - intros n [_ Hn]%elem_of_filter. done.
  - intros Hsub. apply (edge_bit g node j Hj), Hsub, elem_of_filter in He as [[_ Hlt] _].
    rewrite bit_row, bit_col in Hlt by done. specialize (Hlt eq_refl). lia.
Qed.

Lemma followed_grows V node j :
  0 <= j < MAX_CLASSES -> used V node = true ->
  (size (followed V node j) <= size (followed V node (j + 1)))%nat.
Proof.
  intros Hj Hn. rewrite followed_step by done. destruct (decide _); [|done].
  apply subseteq_size. set_solver.
Qed.

Lemma followed_edge V node j :
  0 <= j < MAX_CLASSES -> used V node = true -> edge g node j ->
  size (followed V node (j + 1)) = S (size (followed V node j)).
Proof.
  intros Hj Hn He. rewrite followed_step by done. rewrite decide_True by done.
  rewrite size_union, size_singleton; [done|].
  apply disjoint_singleton_l. unfold followed. rewrite elem_of_filter, bit_row, bit_col by done.
  intros [[_ H] _]. specialize (H eq_refl). lia.
Qed.

Lemma wp_explore V node L0 j st L :
  bitset_ok V -> 0 <= node < count -> used V node = true -> rtc (edge g) src node -> 0 <= j < count ->
  stack_is st L -> explored V node L0 j L ->
  wp (explore g V node j st) (fun st' => exists L', stack_is st' L' /\ explored V node L0 (j + 1) L').
Proof.
  intros [HVl HVu] Hnode Hused Hr Hj Hst [Hsrc Hroom Hseen Hkept].
  pose proof (stack_is_length _ _ Hst) as HL. pose proof Hg as (_ & _ & Hc & _).
  assert (0 <= j < MAX_CLASSES) as Hjm by lia.
  pose proof (followed_grows V node j Hjm Hused) as Hmono.
  destruct st as [stack sp]. destruct Hst as (Hlen & Hsp & Htake). cbn [fst snd] in *. unfold explore.
  wp_step. apply (wp_graph_test g count); [done|lia|lia|].
  case_bool_decide as He; cycle 1.
  { wp_steps. exists L. split; [done|]. constructor; [done|intros; specialize (Hroom ltac:(done)); lia| |done].
    intros Hf w Hw Hew. apply Hseen; [done| |done]. destruct (decide (w = j)) as [->|]; [done|lia]. }
  wp_step. apply (wp_bitmap_is_clear V j).
  { unfold bits_len, BITS_PER_WORD. rewrite HVl. unfold MAX_CLASSES in *. lia. }
  destruct (used V j) eqn:Ej; simpl.
  { wp_steps. exists L. split; [done|]. constructor; [done|intros; specialize (Hroom ltac:(done)); lia| |done].
    intros Hf w Hw Hew. destruct (decide (w = j)) as [->|]; [by left|]. apply Hseen; [done|lia|done]. }
  destruct (Z.ltb_spec sp MAX_CLASSES) as [Hlt|Hge]; cycle 1.
  { wp_steps. exists L. split; [done|]. constructor; [done|intros; specialize (Hroom ltac:(done)); lia| |done].
    intros Hf. pose proof (followed_room V node j Hf Hjm He). specialize (Hroom Hf). lia. }
  wp_step. apply wp_stack_push; [lia|]. intros stack' Hl' Ht'. wp_steps. exists (L ++ [j]). split.
  { split_and!; cbn [fst snd]; [lia|lia|lia|]. by rewrite Ht', Htake. }
  constructor.
  - apply Forall_app_2; [done|]. apply Forall_singleton. split; [done|]. by eapply rtc_r.
  - intros Hf. rewrite length_app, followed_edge by done. specialize (Hroom Hf). simpl. lia.
  - intros Hf w Hw Hew. destruct (decide (w = j)) as [->|]; [set_solver|].
    destruct (Hseen Hf w ltac:(lia) Hew); [by left|set_solver].
  - set_solver.
Qed.

(** *** The whole search *)

Record searched (V : list Z) (L : list Z) : Prop := {
  se_ok : bitset_ok V;
  se_src : from_src L;
  se_dst : used V dst = false;
  se_room : few_edges -> Z.of_nat (length L) <=
    1 + Z.of_nat (size (filter (fun n => used V (n / MAX_CLASSES) = true) (edge_bits g)));
  se_closed : few_edges -> forall v w, 0 <= v -> used V v = true -> edge g v w -> used V w = true \/ w ∈ L;
  se_start : few_edges -> used V src = true \/ src ∈ L;
}.

Hypothesis Hsrc : 0 <= src < count.

Definition visits (V : list Z) : Z := Z.of_nat (size (bits_of V MAX_CLASSES)).

Lemma visits_bound V : visits V <= MAX_CLASSES.
Proof.
  unfold visits. assert (bits_of V MAX_CLASSES ⊆ list_to_set (seqZ 0 MAX_CLASSES)) as Hs%subseteq_size.
  { apply elem_of_subseteq. intros v [Hv _]%elem_of_bits_of. apply elem_of_list_to_set, elem_of_seqZ. lia. }
  rewrite size_list_to_set, length_seqZ in Hs by apply NoDup_seqZ. unfold MAX_CLASSES in *. lia.
Qed.

(** Marking a class as visited. *)
Lemma wp_visit V node (Q : list Z -> Prop) :
  bitset_ok V -> 0 <= node < MAX_CLASSES -> used V node = false ->
  (forall V', bitset_ok V' -> (forall v, 0 <= v -> used V' v = if v =? node then true else used V v) ->
     visits V' = visits V + 1 -> Q V') ->
  wp (bitmap_or V (node / 64) (node mod 64)) Q.
Proof.
  intros [Hl Hu] Hn Hclear HQ. apply (wp_bitmap_or V node); [done| |].
  { unfold bits_len, BITS_PER_WORD. rewrite Hl. unfold MAX_CLASSES in *. lia. }
  intros V' Hset. pose proof (bits_of_set _ _ _ _ Hn Hset) as Hb. destruct Hset as (Hl' & Hu' & Hused).
  apply HQ; [by split; [rewrite Hl'|]|done|]. unfold visits. rewrite Hb, size_union, size_singleton; [lia|].
  apply disjoint_singleton_l. rewrite elem_of_bits_of. rewrite Hclear. intros []. done.
Qed.

(** Before the neighbours of a freshly visited [node] are looked at. *)
Lemma explored_start V V' node L :
  0 <= node < MAX_CLASSES -> searched V (L ++ [node]) -> used V node = false ->
  (forall v, 0 <= v -> used V' v = if v =? node then true else used V v) ->
  explored V' node L 0 L.
Proof.
  intros Hn [_ Hs _ Hroom _ _] Hclear Hused. constructor.
  - by apply Forall_app in Hs as [].
  - intros Hf. specialize (Hroom Hf). rewrite length_app in Hroom. simpl in Hroom.
    assert (filter (fun n => used V (n / MAX_CLASSES) = true) (edge_bits g) ⊆ followed V' node 0)
      as Hsub%subseteq_size; [|lia].
    apply elem_of_subseteq. intros n [Hv Hn']%elem_of_filter. unfold followed. apply elem_of_filter.
    pose proof Hn' as [Hb _]%elem_of_bits_of.
    assert (0 <= n / MAX_CLASSES) by (unfold MAX_CLASSES; divlia).
    split_and!; [|intros E; rewrite E in Hv; congruence|done].
    rewrite Hused by done. by destruct (_ =? _).
  - intros _ w Hw (_ & Hw' & _). lia.
  - done.
Qed.

(** After they have been looked at. *)
Lemma explored_done V V' node L L' :
  searched V (L ++ [node]) -> node <> dst -> 0 <= dst -> bitset_ok V' ->
  (forall v, 0 <= v -> used V' v = if v =? node then true else used V v) ->
  explored V' node L count L' -> searched V' L'.
Proof.
  intros [_ _ Hd Hroom Hcl Hst] Hne Hdst Hok Hused [Hs' Hroom' Hseen Hkept]. constructor; [done|done| | | |].
  - rewrite Hused, (proj2 (Z.eqb_neq dst node)) by (done || congruence). done.
  - intros Hf. specialize (Hroom' Hf).
    assert (followed V' node count ⊆ filter (fun n => used V' (n / MAX_CLASSES) = true) (edge_bits g))
      as Hsub%subseteq_size; [|lia].
    apply elem_of_subseteq. unfold followed. intros n. rewrite !elem_of_filter. tauto.
  - intros Hf v w Hv Hu He. rewrite Hused in Hu by done. destruct (Z.eqb_spec v node) as [->|].
    + apply Hseen; [done| |done]. apply Hg in He. lia.
    + destruct (Hcl Hf v w Hv Hu He) as [H|[H| ->%list_elem_of_singleton]%elem_of_app].
      * left. rewrite Hused by apply He. by destruct (_ =? _).
      * right. by apply Hkept.
      * left. rewrite Hused by apply He. by rewrite Z.eqb_refl.
  - intros Hf. destruct (Hst Hf) as [H|[H| ->%list_elem_of_singleton]%elem_of_app].
    + left. rewrite Hused by lia. by destruct (_ =? _).
    + right. by apply Hkept.
    + left. rewrite Hused by lia. by rewrite Z.eqb_refl.
Qed.

(** A search with nothing left on the stack has seen all there is. *)
Lemma searched_complete V :
  few_edges -> searched V [] -> ~ rtc (edge g) src dst.
Proof.
  intros Hf [_ _ Hd _ Hcl Hst] Hr.
  assert (forall v, rtc (edge g) src v -> 0 <= v /\ used V v = true) as Hall.
  { apply (rtc_ind_r (fun v => 0 <= v /\ used V v = true)).
    - split; [lia|]. destruct (Hst Hf) as [|[]%not_elem_of_nil]; done.
    - intros v w _ He [Hv Hu]. split; [apply He|]. destruct (Hcl Hf v w Hv Hu He) as [|[]%not_elem_of_nil]; done. }
  destruct (Hall dst Hr). congruence.
Qed.

Definition path_result (b : bool) : Prop :=
  (b = true -> rtc (edge g) src dst) /\ (few_edges -> rtc (edge g) src dst -> b = true).

(** A class that was visited before leaves the stack. *)
Lemma searched_skip V L node : searched V (L ++ [node]) -> used V node = true -> searched V L.
Proof.
  intros [Hok Hs Hd Hroom Hcl Hst] Hu. constructor; [done| |done| | |].
  - by apply Forall_app in Hs as [].
  - intros Hf. specialize (Hroom Hf). rewrite length_app in Hroom. simpl in Hroom. lia.
  - intros Hf v w Hv Huv He.
    destruct (Hcl Hf v w Hv Huv He) as [|[|<-%list_elem_of_singleton]%elem_of_app]; auto.
  - intros Hf. destruct (Hst Hf) as [|[|<-%list_elem_of_singleton]%elem_of_app]; auto.
Qed.

Lemma path_loop_correct fuel V stack sp L :
  0 <= dst -> stack_is (stack, sp) L -> searched V L ->
  257 * (MAX_CLASSES - visits V) + sp < Z.of_nat fuel ->
  wp (path_loop fuel g count dst V stack sp) path_result.
Proof.
  intros Hdst. revert V stack sp L. induction fuel as [|fuel IH]; intros V stack sp L Hst Hse Hfuel.
  { pose proof (visits_bound V). destruct Hst as (_ & Hsp & _). simpl in *. lia. }
  pose proof (stack_is_length _ _ Hst) as HL. pose proof Hg as (_ & _ & Hc & _).
  destruct Hst as (Hlen & Hsp & Htake). cbn [fst snd] in *. simpl.
  destruct (Z.eqb_spec sp 0) as [->|Hnz].
  { apply wp_ret. split; [done|]. intros Hf Hr. destruct L; [|simpl in HL; lia].
    by destruct (searched_complete V Hf Hse). }
  wp_step. apply wp_stack_pop; [unfold MAX_CLASSES in *; lia|]. rewrite Z.sub_add, Htake. intros node ->.
  set (L' := take (Z.to_nat (sp - 1)) stack) in *.
  destruct (proj1 (Forall_app _ _ _) (se_src _ _ Hse)) as [_ [Hnode Hreach]%Forall_singleton].
  assert (stack_is (stack, sp - 1) L') as Hst' by (split_and!; cbn [fst snd]; [done|lia|lia|done]).
  destruct (Z.eqb_spec node dst) as [->|Hne].
  { apply wp_ret. by split. }
  wp_step. apply (wp_bitmap_is_clear V node).
  { destruct (se_ok _ _ Hse) as [Hvl _]. unfold bits_len, BITS_PER_WORD. rewrite Hvl. unfold MAX_CLASSES in *. lia. }
  destruct (used V node) eqn:Eu; simpl.
  { apply (IH V _ _ L'); [done|by eapply searched_skip|lia]. }
  wp_step. apply wp_visit; [apply Hse|lia|done|]. intros V' Hok' Hused' Hvis.
  assert (explored V' node L' 0 L') as Hex0 by (eapply explored_start; eauto; lia).
  assert (used V' node = true) as Hun by (rewrite Hused', Z.eqb_refl by lia; done).
  wp_step. eapply wp_mono.
  { apply (wp_for_range (fun j st => exists L, stack_is st L /\ explored V' node L' j L)); [by eauto|].
    intros j st Hj (L1 & Hs1 & He1). eapply wp_explore; eauto; lia. }
  intros [stack1 sp1] (L1 & Hs1 & He1). rewrite Z.add_0_l, Z2Nat.id in He1 by lia.
  apply (IH V' _ _ L1); [done|by eapply explored_done|].
  destruct Hs1 as (_ & Hsp1 & _). cbn [fst snd] in *. unfold MAX_CLASSES in *. lia.
Qed.

(** [has_path] returns; a path it reports exists; with at most 256 edges in
    the graph it reports every path. *)
Lemma wp_has_path : 0 <= dst < count -> wp (has_path g count src dst) path_result.
Proof.
  intros Hdst. pose proof Hg as (_ & _ & Hc & _). unfold has_path. wp_step.
  apply wp_stack_push; [rewrite length_replicate; unfold MAX_CLASSES; lia|].
  intros stack Hl Ht. rewrite take_0 in Ht. apply (path_loop_correct _ _ _ _ [src]); [lia| | |].
  - split_and!; cbn [fst snd]; [by rewrite Hl, length_replicate|unfold MAX_CLASSES; lia..|done].
  - assert (forall v, 0 <= v < 256 -> used (replicate (Z.to_nat (MAX_CLASSES / 64)) 0) v = false) as Hz.
    { intros v Hv. apply (used_zeros (Z.to_nat (MAX_CLASSES / 64))). change (Z.to_nat (MAX_CLASSES / 64)) with 4%nat. lia. }
    constructor.
    + split; [done|]. by apply Forall_replicate.
    + apply Forall_singleton. split; [lia|done].
    + apply Hz. unfold MAX_CLASSES in *. lia.
    + simpl. lia.
    + intros Hf v w Hv Hu (Hv' & _). unfold MAX_CLASSES in *. rewrite Hz in Hu by lia. done.
    + right. by apply list_elem_of_singleton.
  - change (replicate _ 0) with (replicate 4 0). unfold visits, path_fuel.
    change MAX_CLASSES with (64 * Z.of_nat 4). rewrite bits_of_zeros, size_empty, Z2Nat.id by lia. lia.
Qed.
End Search.
