(* ===== verification/LockdepSafe.v ===== *)
(** * What the lock dependency tracker guarantees

    The CPUs of the machine register classes, acquire and release locks in any
    order; each step of [Lockdep] is atomic.  Recorded beside the state are the
    pairs (held class, acquired class) of all acquisitions the tracker has begun
    to process ([sys_nested]) and of those it has processed ([sys_done]).

    In the panicking mode, while no more than 256 edges have been recorded,
    the order in which locks were nested has no cycle.  In the warning mode
    the tracker never panics and every report is justified. *)

From stdpp Require Import strings.
From S2P Require Import Prelude Bitmap Lockdep LockdepPath.
Open Scope Z_scope.

Definition held_list (h : HeldLocks) : list Z := take (Z.to_nat (hl_depth h)) (hl_stack h).

(** The pairs an acquisition of [class] adds to the order. *)
Definition nestings (h : HeldLocks) (class : Z) : list (Z * Z) :=
  (fun x => (x, class)) <$> filter (fun x => x <> class) (held_list h).

Record LdSys : Type := mkLdSys {
  sys_ld : Lockdep;
  sys_nested : list (Z * Z);
  sys_done : list (Z * Z);
}.

Inductive ld_label : Type :=
| LdRegister (key_addr subclass level : Z) (name : string) (kind : LockKind)
| LdAcquire (c : nat) (class self_ptr init : Z) (irq : bool)
| LdStep (c : nat)
| LdRelease (c : nat) (class self_ptr init : Z).

(** A [LockClassId] comes from the registration. *)
Definition is_class (s : Lockdep) (class : Z) : bool :=
  (class =? NONE) || ((0 <=? class) && (class <? ld_class_count s)).

Definition tracked (x : LdCpu) (class : Z) (skip : bool) : bool :=
  negb ((class =? NONE) || skip) && negb (lc_in_lockdep x).

(** [None]: the step is not possible. *)
Definition ld_step (warn : bool) (y : LdSys) (l : ld_label) : exec (option LdSys) :=
  let s := sys_ld y in
  match l with
  | LdRegister key_addr subclass level name kind =>
      '(s, _) ← register_slow s key_addr subclass level name kind;
      Ret (Some (mkLdSys s (sys_nested y) (sys_done y)))
  | LdAcquire c class self_ptr init irq =>
      match ld_cpus s !! c with
      | Some x =>
          if is_class s class then
            let skip := should_skip self_ptr init in
            s ← acquire_enter warn s c x class skip irq;
            Ret (Some (mkLdSys s (if tracked x class skip then sys_nested y ++ nestings (lc_held x) class
                                  else sys_nested y) (sys_done y)))
          else Ret None
      | None => Ret None
      end
  | LdStep c =>
      match ld_cpus s !! c with
      | Some x =>
          match lc_phase x with
          | LdIdle => Ret None
          | LdEdge class i =>
              s ← edge_test s c x class i;
              Ret (Some (mkLdSys s (sys_nested y)
                           (if i <? hl_depth (lc_held x) then sys_done y
                            else sys_done y ++ nestings (lc_held x) class)))
          | LdLock class i =>
              s ← edge_record warn s c x class i;
              Ret (Some (mkLdSys s (sys_nested y) (sys_done y)))
          end
      | None => Ret None
      end
  | LdRelease c class self_ptr init =>
      match ld_cpus s !! c with
      | Some x =>
          if is_class s class then
            s ← lock_released s c x class (should_skip self_ptr init);
            Ret (Some (mkLdSys s (sys_nested y) (sys_done y)))
          else Ret None
      | None => Ret None
      end
  end.

Fixpoint ld_run (warn : bool) (y : LdSys) (ls : list ld_label) : exec (option LdSys) :=
  match ls with
  | [] => Ret (Some y)
  | l :: ls =>
      o ← ld_step warn y l;
      match o with
      | Some y => ld_run warn y ls
      | None => Ret None
      end
  end.

Definition ld_start (cpus : nat) : LdSys := mkLdSys (Lockdep_init cpus) [] [].

(** ** Outcomes: panicking is allowed in the panicking mode only *)

Definition wpd {A} (warn : bool) (c : exec A) (Q : A -> Prop) : Prop :=
  match c with
  | Ret a => Q a
  | Panic => warn = false
  end.

Lemma wpd_wp {A} warn (c : exec A) Q : wp c Q -> wpd warn c Q.
Proof. by destruct c. Qed.

Lemma wpd_bind {A B} warn (c : exec A) (f : A -> exec B) Q :
  wpd warn c (fun a => wpd warn (f a) Q) -> wpd warn (c ≫= f) Q.
Proof. by destruct c. Qed.

Lemma wpd_mono {A} warn (c : exec A) (P Q : A -> Prop) :
  wpd warn c P -> (forall a, P a -> Q a) -> wpd warn c Q.
Proof. destruct c; simpl; auto. Qed.

Lemma wpd_bind_wp {A B} warn (c : exec A) (f : A -> exec B) P Q :
  wp c P -> (forall a, P a -> wpd warn (f a) Q) -> wpd warn (c ≫= f) Q.
Proof. destruct c; simpl; [auto|done]. Qed.

#[global] Arguments wpd : simpl never.

(** ** The held-lock stack is a list *)

Definition held_ok (count : Z) (h : HeldLocks) : Prop :=
  length (hl_stack h) = Z.to_nat MAX_HELD /\ 0 <= hl_depth h <= MAX_HELD /\
  Forall (fun x => 0 <= x < count) (held_list h).

Lemma held_list_length count h : held_ok count h -> length (held_list h) = Z.to_nat (hl_depth h).
Proof. intros (Hl & Hd & _). unfold held_list. rewrite length_take, Hl. unfold MAX_HELD in *. lia. Qed.

Lemma held_lookup count h i :
  held_ok count h -> 0 <= i < hl_depth h ->
  exists x, hl_stack h !! Z.to_nat i = Some x /\ held_list h !! Z.to_nat i = Some x /\ 0 <= x < count.
Proof.
  intros Hok Hi. pose proof (held_list_length _ _ Hok) as Hl.
  destruct (lookup_lt_is_Some_2 (held_list h) (Z.to_nat i)) as [x Hx]; [lia|]. exists x. split; [|split; [done|]].
  - unfold held_list in Hx. by apply lookup_take_Some in Hx as [].
  - destruct Hok as (_ & _ & Hf). by eapply (Forall_lookup_1 _ _ _ _ Hf).
Qed.

(** [push] appends, unless 32 locks are held already. *)
Lemma wp_held_push count h class (Q : HeldLocks -> Prop) :
  held_ok count h -> 0 <= class < count ->
  (forall h', held_ok count h' ->
     held_list h' = (if hl_depth h <? MAX_HELD then held_list h ++ [class] else held_list h) -> Q h') ->
  wp (held_push h class) Q.
Proof.
  intros Hok Hc HQ. pose proof Hok as (Hl & Hd & Hf). unfold held_push.
  destruct (Z.ltb_spec (hl_depth h) MAX_HELD) as [Hlt|Hge]; cycle 1.
  { wp_step. by apply HQ. }
  wp_step. apply wp_stack_push; [unfold MAX_HELD in *; lia|]. intros st Hl' Ht. wp_step.
  apply HQ; [|done]. split_and!; cbn [hl_stack hl_depth]; [by rewrite Hl'|lia|lia|].
  unfold held_list. cbn [hl_stack hl_depth]. rewrite Ht. apply Forall_app_2; [done|]. by apply Forall_singleton.
Qed.

(** Shifting removes one entry. *)
Lemma wp_shift_down stack j n (Q : list Z -> Prop) :
  0 <= j -> (Z.to_nat j + n < length stack)%nat ->
  (forall st, length st = length stack ->
     take (Z.to_nat j + n) st = delete (Z.to_nat j) (take (Z.to_nat j + n + 1) stack) -> Q st) ->
  wp (shift_down stack j n) Q.
Proof.
  revert stack j. induction n as [|n IH]; intros stack j Hj Hlen HQ; simpl.
  { wp_step. apply HQ; [done|]. rewrite Nat.add_0_r.
    destruct (lookup_lt_is_Some_2 stack (Z.to_nat j)) as [x Hx]; [lia|].
    rewrite Nat.add_1_r, (take_S_r _ _ x) by done.
    rewrite delete_take_drop, take_app_le, take_take, Nat.min_id by (rewrite length_take; lia).
    rewrite drop_ge by (rewrite length_app, length_take; simpl; lia). by rewrite app_nil_r. }
  destruct (lookup_lt_is_Some_2 stack (S (Z.to_nat j))) as [x Hx]; [lia|].
  wp_step. eapply wp_idx; [lia|by rewrite Z2Nat.inj_add, Nat.add_1_r by lia|].
  wp_step. apply wp_upd; [lia|]. apply IH; [lia|rewrite length_insert; lia|].
  intros st Hl Ht. apply HQ; [by rewrite Hl, length_insert|].
  replace (Z.to_nat (j + 1) + n)%nat with (Z.to_nat j + S n)%nat in Ht by lia. rewrite Ht.
  replace (Z.to_nat (j + 1)) with (S (Z.to_nat j)) by lia.
  apply list_eq. intros k.
  destruct (decide (k < Z.to_nat j)%nat) as [Hk|Hk].
  { rewrite !list_lookup_delete_lt by lia. rewrite !lookup_take_lt by lia. by rewrite list_lookup_insert_ne by lia. }
  destruct (decide (k = Z.to_nat j)) as [->|].
  - rewrite list_lookup_delete_lt, list_lookup_delete_ge by lia. rewrite !lookup_take_lt by lia.
    by rewrite list_lookup_insert_eq by lia.
  - rewrite !list_lookup_delete_ge by lia.
    destruct (decide (S k < Z.to_nat j + S n + 1)%nat).
    + rewrite !lookup_take_lt by lia. by rewrite list_lookup_insert_ne by lia.
    + rewrite !lookup_take_ge by lia. done.
Qed.

(** [pop] removes the topmost entry of the class, if there is one. *)
Definition popped (h : HeldLocks) (id : Z) (h' : HeldLocks) (o : option Z) : Prop :=
  match o with
  | None => h' = h /\ id ∉ held_list h
  | Some x => x = id /\ exists l1 l2, held_list h = l1 ++ id :: l2 /\ (id ∉ l2) /\ held_list h' = l1 ++ l2
  end.

Lemma pop_loop_correct count h id n :
  held_ok count h -> (n <= Z.to_nat (hl_depth h))%nat -> (id ∉ drop n (held_list h)) ->
  wp (pop_loop h id n) (fun r => held_ok count r.1 /\ popped h id r.1 r.2).
Proof.
  intros Hok. pose proof (held_list_length _ _ Hok) as Hll. pose proof Hok as (Hl & Hd & Hf).
  induction n as [|n IH]; intros Hn Hdrop; simpl.
  { wp_step. split; [done|]. split; [done|]. by rewrite drop_0 in Hdrop. }
  destruct (held_lookup count h (Z.of_nat n) Hok) as (x & Hx & Hx' & Hxc); [lia|]. rewrite Nat2Z.id in Hx'.
  wp_step. eapply wp_idx; [lia|done|]. destruct (Z.eqb_spec x id) as [->|Hne]; cycle 1.
  { apply IH; [lia|]. rewrite (drop_S _ x n) by done.
    apply not_elem_of_cons. by split; [congruence|]. }
  wp_step. apply wp_shift_down; [lia|unfold MAX_HELD in *; lia|]. intros st Hst Ht. wp_step.
  rewrite Nat2Z.id in Ht.
  replace (n + Z.to_nat (hl_depth h - 1 - Z.of_nat n))%nat with (Z.to_nat (hl_depth h - 1)) in Ht by lia.
  replace (Z.to_nat (hl_depth h - 1) + 1)%nat with (Z.to_nat (hl_depth h)) in Ht by lia.
  fold (held_list h) in Ht.
  pose proof (take_drop_middle _ _ _ Hx') as Hsplit.
  assert (held_list (mkHeld st (hl_depth h - 1)) = take n (held_list h) ++ drop (S n) (held_list h)) as Hnew.
  { unfold held_list at 1. cbn [hl_stack hl_depth]. by rewrite Ht, delete_take_drop. }
  cbn [fst snd]. split.
  - split_and!; cbn [hl_stack hl_depth]; [by rewrite Hst|lia|lia|]. rewrite Hnew.
    apply Forall_app_2; [by apply Forall_take|by apply Forall_drop].
  - split; [done|]. exists (take n (held_list h)), (drop (S n) (held_list h)). done.
Qed.

Lemma wp_held_pop count h id :
  held_ok count h -> wp (held_pop h id) (fun r => held_ok count r.1 /\ popped h id r.1 r.2).
Proof.
  intros Hok. pose proof (held_list_length _ _ Hok) as Hll. apply pop_loop_correct; [done|lia|].
  rewrite drop_ge by lia. apply not_elem_of_nil.
Qed.

(** ** The class table *)

Definition level_of (cs : list LockClassEntry) (i : Z) : Z :=
  match cs !! Z.to_nat i with Some e => ce_level e | None => 0 end.

(** An entry keeps all its fields; the usage bits only grow. *)
Definition entry_le (e e' : LockClassEntry) : Prop :=
  ce_key_addr e' = ce_key_addr e /\ ce_subclass e' = ce_subclass e /\ ce_level e' = ce_level e /\
  ce_name e' = ce_name e /\ ce_kind e' = ce_kind e /\
  forall i, Z.testbit (ce_irq_usage e) i = true -> Z.testbit (ce_irq_usage e') i = true.

#[export] Instance entry_le_preorder : PreOrder entry_le.
Proof. split; [by intros e|]. intros a b c (?&?&?&?&?&?) (?&?&?&?&?&?). split_and!; try congruence. auto. Qed.

Definition classes_le (count : Z) (cs cs' : list LockClassEntry) : Prop :=
  length cs' = length cs /\
  forall i e, 0 <= i < count -> cs !! Z.to_nat i = Some e -> exists e', cs' !! Z.to_nat i = Some e' /\ entry_le e e'.

Lemma classes_le_refl count cs : classes_le count cs cs.
Proof. split; [done|]. intros i e _ He. exists e. by split. Qed.

Lemma classes_le_level count cs cs' i :
  length cs = Z.to_nat MAX_CLASSES -> count <= MAX_CLASSES ->
  classes_le count cs cs' -> 0 <= i < count -> level_of cs' i = level_of cs i.
Proof.
  intros Hl Hc [_ Hle] Hi. unfold level_of.
  destruct (lookup_lt_is_Some_2 cs (Z.to_nat i)) as [e He]; [lia|].
  destruct (Hle i e Hi He) as (e' & -> & (_ & _ & Hlev & _)). by rewrite He.
Qed.

(** Keys identify classes. *)
Definition keys_distinct (count : Z) (cs : list LockClassEntry) : Prop :=
  forall i j e e', 0 <= i < count -> 0 <= j < count -> cs !! Z.to_nat i = Some e -> cs !! Z.to_nat j = Some e' ->
    ce_key_addr e = ce_key_addr e' -> ce_subclass e = ce_subclass e' -> i = j.

Lemma find_class_correct cs k sub i n :
  0 <= i -> (Z.to_nat i + n <= length cs)%nat ->
  wp (find_class cs k sub i n) (fun o =>
    match o with
    | Some j => i <= j < i + Z.of_nat n /\
        exists e, cs !! Z.to_nat j = Some e /\ ce_key_addr e = k /\ ce_subclass e = sub
    | None => forall j e, i <= j < i + Z.of_nat n -> cs !! Z.to_nat j = Some e ->
        ~ (ce_key_addr e = k /\ ce_subclass e = sub)
    end).
Proof.
  revert i. induction n as [|n IH]; intros i Hi Hlen; simpl.
  { wp_step. intros j e Hj. lia. }
  destruct (lookup_lt_is_Some_2 cs (Z.to_nat i)) as [e He]; [lia|].
  wp_step. eapply wp_idx; [lia|done|].
  destruct (Z.eqb_spec (ce_key_addr e) k) as [Hk|Hk]; [destruct (Z.eqb_spec (ce_subclass e) sub) as [Hs|Hs]|]; simpl.
  { wp_step. split; [lia|]. eauto. }
  all: eapply wp_mono; [apply IH; lia|]; intros [j|]; simpl;
    [intros [Hj Hex]; split; [lia|done]|];
    intros Hnone j e' Hj He'; destruct (decide (j = i)) as [->|];
    [simplify_eq; tauto|apply (Hnone j); [lia|done]].
Qed.

(** ** The invariant *)

Definition nest (l : list (Z * Z)) (a b : Z) : Prop := (a, b) ∈ l.

(** What a report claims is so. *)
Definition real (count : Z) (cs : list LockClassEntry) (nested : list (Z * Z)) (v : violation) : Prop :=
  match v with
  | VCycle h a _ _ _ _ _ => nest nested h a /\ rtc (nest nested) a h
  | VIrq class _ _ => 0 <= class < count /\ exists e, cs !! Z.to_nat class = Some e /\ ce_kind e <> IrqSpinLock /\
      Z.testbit (ce_irq_usage e) 0 = true /\ Z.testbit (ce_irq_usage e) 1 = true
  | VLevel h a lh la _ _ _ _ _ => nest nested h a /\ 0 <= h < count /\ 0 <= a < count /\
      level_of cs h = lh /\ level_of cs a = la /\ 0 < la < lh
  end.

Definition level_le (cs : list LockClassEntry) (a b : Z) : Prop :=
  0 < level_of cs a -> 0 < level_of cs b -> level_of cs a <= level_of cs b.

(** A CPU that is adding the edges to [class], with the entries below [i] done. *)
Definition acq_ok (count : Z) (g : list Z) (nested : list (Z * Z)) (h : HeldLocks) (class i : Z) : Prop :=
  0 <= class < count /\ 0 <= i <= hl_depth h /\
  (forall j x, 0 <= j < i -> held_list h !! Z.to_nat j = Some x -> x <> class -> edge g x class) /\
  (forall x, x ∈ held_list h -> x <> class -> (x, class) ∈ nested).

Definition cpu_ok (count : Z) (g : list Z) (nested : list (Z * Z)) (x : LdCpu) : Prop :=
  held_ok count (lc_held x) /\
  match lc_phase x with
  | LdIdle => lc_in_lockdep x = false
  | LdEdge class i => lc_in_lockdep x = true /\ acq_ok count g nested (lc_held x) class i
  | LdLock class i => lc_in_lockdep x = true /\ acq_ok count g nested (lc_held x) class i /\
      exists h, held_list (lc_held x) !! Z.to_nat i = Some h /\ h <> class
  end.

Record ld_ok (warn : bool) (y : LdSys) : Prop := {
  lo_classes : length (ld_classes (sys_ld y)) = Z.to_nat MAX_CLASSES;
  lo_keys : keys_distinct (ld_class_count (sys_ld y)) (ld_classes (sys_ld y));
  lo_graph : graph_ok (ld_graph (sys_ld y)) (ld_class_count (sys_ld y));
  lo_edges : length (ld_edges (sys_ld y)) = Z.to_nat MAX_EDGES;
  lo_count : ld_edge_count (sys_ld y) = Z.of_nat (size (edge_bits (ld_graph (sys_ld y))));
  lo_cpus : Forall (cpu_ok (ld_class_count (sys_ld y)) (ld_graph (sys_ld y)) (sys_nested y)) (ld_cpus (sys_ld y));
  lo_nested : forall a b, (a, b) ∈ sys_nested y ->
    0 <= a < ld_class_count (sys_ld y) /\ 0 <= b < ld_class_count (sys_ld y);
  lo_sub : forall a b, edge (ld_graph (sys_ld y)) a b -> (a, b) ∈ sys_nested y;
  lo_done : forall a b, (a, b) ∈ sys_done y -> edge (ld_graph (sys_ld y)) a b;
  lo_real : Forall (real (ld_class_count (sys_ld y)) (ld_classes (sys_ld y)) (sys_nested y))
              (ld_reports (sys_ld y));
  lo_acyclic : warn = false -> few_edges (ld_graph (sys_ld y)) ->
    forall a, ~ tc (edge (ld_graph (sys_ld y))) a a;
  lo_levels : warn = false -> forall a b, (a, b) ∈ sys_nested y -> level_le (ld_classes (sys_ld y)) a b;
}.

Lemma held_ok_mono count count' h : count <= count' -> held_ok count h -> held_ok count' h.
Proof.
  intros Hc (Hl & Hd & Hf). split_and!; try done; try lia. eapply Forall_impl; [done|]. simpl. lia.
Qed.

Lemma acq_ok_mono count count' g g' n n' h class i :
  count <= count' -> (forall a b, edge g a b -> edge g' a b) -> n ⊆ n' ->
  acq_ok count g n h class i -> acq_ok count' g' n' h class i.
Proof. intros Hc Hg Hn (Hcl & Hi & He & Hs). split_and!; try lia; eauto. Qed.

Lemma cpu_ok_mono count count' g g' n n' x :
  count <= count' -> (forall a b, edge g a b -> edge g' a b) -> n ⊆ n' ->
  cpu_ok count g n x -> cpu_ok count' g' n' x.
Proof.
  intros Hc Hg Hn [Hh Hp]. split; [by eapply held_ok_mono|].
  destruct (lc_phase x); [done| |].
  - destruct Hp as [? Hp]. split; [done|]. by eapply acq_ok_mono.
  - destruct Hp as (? & Hp & ?). split_and!; [done| |done]. by eapply acq_ok_mono.
Qed.

Lemma real_mono count count' cs cs' n n' v :
  length cs = Z.to_nat MAX_CLASSES -> count <= MAX_CLASSES -> count <= count' ->
  classes_le count cs cs' -> n ⊆ n' -> real count cs n v -> real count' cs' n' v.
Proof.
  intros Hl Hm Hc Hle Hn. destruct v as [h a|class|h a lh la]; cbn [real].
  - intros [Hin Hp]. split; [by apply Hn|]. eapply rtc_subrel; [|done]. intros ?? Hxy. by apply Hn.
  - intros (Hcl & e & He & Hk & H0 & H1). split; [lia|].
    destruct (proj2 Hle _ e Hcl He) as (e' & He' & (_ & _ & _ & _ & Hk' & Hu)).
    exists e'. rewrite Hk'. split_and!; auto.
  - intros (Hin & Hh & Ha & Hlh & Hla & Hlt). split_and!; try lia; [by apply Hn| |].
    + by rewrite (classes_le_level count cs cs').
    + by rewrite (classes_le_level count cs cs').
Qed.

Lemma level_le_mono count cs cs' a b :
  length cs = Z.to_nat MAX_CLASSES -> count <= MAX_CLASSES -> classes_le count cs cs' ->
  0 <= a < count -> 0 <= b < count -> level_le cs a b -> level_le cs' a b.
Proof. intros ??? Ha Hb. unfold level_le. by rewrite !(classes_le_level count cs cs'). Qed.

Lemma bits_of_size bm total : 0 <= total -> Z.of_nat (size (bits_of bm total)) <= total.
Proof.
  intros Ht. assert (bits_of bm total ⊆ list_to_set (seqZ 0 total)) as Hs%subseteq_size.
  { apply elem_of_subseteq. intros v [Hv _]%elem_of_bits_of. apply elem_of_list_to_set, elem_of_seqZ. lia. }
  rewrite size_list_to_set, length_seqZ in Hs by apply NoDup_seqZ. lia.
Qed.

(** ** Registration *)

Definition registered (s : Lockdep) (k sub level : Z) (name : string) (kind : LockKind) (s' : Lockdep) (id : Z) : Prop :=
  (s' = s /\ 0 <= id < ld_class_count s /\
     exists e, ld_classes s !! Z.to_nat id = Some e /\ ce_key_addr e = k /\ ce_subclass e = sub) \/
  ((forall j e, 0 <= j < ld_class_count s -> ld_classes s !! Z.to_nat j = Some e ->
      ~ (ce_key_addr e = k /\ ce_subclass e = sub)) /\
   ((s' = s /\ id = NONE /\ ld_class_count s = MAX_CLASSES) \/
    (id = ld_class_count s /\ id < MAX_CLASSES /\ exists cs u,
       s' = set_classes s cs (id + 1) /\ length cs = length (ld_classes s) /\
       cs !! Z.to_nat id = Some (mkClass k sub level name kind u) /\
       forall j, j <> Z.to_nat id -> cs !! j = ld_classes s !! j))).

Lemma register_slow_correct s k sub level name kind :
  length (ld_classes s) = Z.to_nat MAX_CLASSES -> 0 <= ld_class_count s <= MAX_CLASSES ->
  wp (register_slow s k sub level name kind) (fun r => registered s k sub level name kind r.1 r.2).
Proof.
  intros Hl Hc. unfold register_slow. wp_step. eapply wp_mono.
  { apply find_class_correct; [lia|]. unfold MAX_CLASSES in *. lia. }
  intros [j|]; simpl.
  { intros [Hj Hex]. wp_step. left. cbn [fst snd]. split_and!; [done|lia|lia|done]. }
  intros Hnone. assert (forall j e, 0 <= j < ld_class_count s -> ld_classes s !! Z.to_nat j = Some e ->
      ~ (ce_key_addr e = k /\ ce_subclass e = sub)) as Hn by (intros j e Hj; apply Hnone; lia).
  destruct (Z.leb_spec MAX_CLASSES (ld_class_count s)).
  { wp_step. right. split; [done|]. left. simpl. split_and!; [done|done|lia]. }
  destruct (lookup_lt_is_Some_2 (ld_classes s) (Z.to_nat (ld_class_count s))) as [e He]; [lia|].
  wp_step. eapply wp_idx; [lia|done|]. wp_step. apply wp_upd; [lia|]. wp_step.
  right. split; [done|]. right. cbn [fst snd]. split; [done|]. split; [lia|]. eexists _, _. split_and!; [done| | |].
  - apply length_insert.
  - apply list_lookup_insert_eq. lia.
  - intros j Hj. by rewrite list_lookup_insert_ne by lia.
Qed.

(** ** Frames: what a change of one part keeps *)

Definition with_tables (y : LdSys) (cs : list LockClassEntry) (count : Z) (nested : list (Z * Z))
    (reports : list violation) : LdSys :=
  let s := sys_ld y in
  mkLdSys (mkLockdep cs count (ld_graph s) (ld_edges s) (ld_edge_count s) (ld_cpus s) reports)
    nested (sys_done y).

Lemma ld_ok_tables warn y cs count' n' reports' :
  ld_ok warn y -> ld_class_count (sys_ld y) <= count' <= MAX_CLASSES ->
  classes_le (ld_class_count (sys_ld y)) (ld_classes (sys_ld y)) cs -> keys_distinct count' cs ->
  sys_nested y ⊆ n' -> (forall a b, (a, b) ∈ n' -> 0 <= a < count' /\ 0 <= b < count') ->
  (warn = false -> forall a b, (a, b) ∈ n' -> (a, b) ∈ sys_nested y \/ level_le cs a b) ->
  Forall (fun v => v ∈ ld_reports (sys_ld y) \/ real count' cs n' v) reports' ->
  ld_ok warn (with_tables y cs count' n' reports').
Proof.
  intros Hok Hc Hle Hk Hn Hrange Hlev Hrep. pose proof Hok as [Hcl _ Hg He Hec Hcpu Hnest Hsub Hdone Hreal Hac Hl].
  pose proof Hg as (Hgl & Hgu & Hgc & Hge).
  constructor; cbn [with_tables sys_ld sys_nested sys_done ld_classes ld_class_count ld_graph ld_edges
                    ld_edge_count ld_cpus ld_reports]; try done.
  - by rewrite (proj1 Hle).
  - split_and!; [done|done|lia|lia|]. intros a b Hab. apply Hge in Hab. lia.
  - eapply Forall_impl; [done|]. intros x. apply cpu_ok_mono; [lia|done|done].
  - intros a b Hab. by apply Hn, Hsub.
  - eapply Forall_impl; [done|]. intros v [Hv|Hv]; [|done].
    eapply real_mono; [done|apply Hgc|lia|done|done|]. by eapply Forall_forall in Hreal; [|done].
  - intros Hw a b Hab. destruct (Hlev Hw a b Hab) as [Hin|]; [|done].
    destruct (Hnest a b Hin). eapply level_le_mono; [done|apply Hgc|done|done|done|]. by apply Hl.
Qed.

Lemma ld_ok_cpu warn y c x done' :
  ld_ok warn y -> cpu_ok (ld_class_count (sys_ld y)) (ld_graph (sys_ld y)) (sys_nested y) x ->
  (forall a b, (a, b) ∈ done' -> edge (ld_graph (sys_ld y)) a b) ->
  ld_ok warn (mkLdSys (set_ld_cpu (sys_ld y) c x) (sys_nested y) done').
Proof.
  intros [Hcl Hk Hg He Hec Hcpu Hnest Hsub Hdone Hreal Hac Hl] Hx Hd.
  constructor; cbn [set_ld_cpu sys_ld sys_nested sys_done ld_classes ld_class_count ld_graph ld_edges
                    ld_edge_count ld_cpus ld_reports]; try done.
  by apply Forall_insert.
Qed.

Lemma keys_distinct_irq count cs cs' :
  length cs = Z.to_nat MAX_CLASSES -> count <= MAX_CLASSES ->
  classes_le count cs cs' -> keys_distinct count cs -> keys_distinct count cs'.
Proof.
  intros Hl Hc [Hl' Hle] Hk i j e e' Hi Hj Hei Hej Hka Hsu.
  destruct (lookup_lt_is_Some_2 cs (Z.to_nat i)) as [e1 He1]; [lia|].
  destruct (lookup_lt_is_Some_2 cs (Z.to_nat j)) as [e2 He2]; [lia|].
  destruct (Hle i e1 Hi He1) as (? & ? & (? & ? & _)). destruct (Hle j e2 Hj He2) as (? & ? & (? & ? & _)).
  simplify_eq. eapply (Hk i j e1 e2); try done; congruence.
Qed.

(** Registration keeps the invariant. *)
Lemma register_ok warn y k sub level name kind :
  ld_ok warn y ->
  wp (register_slow (sys_ld y) k sub level name kind) (fun r => ld_ok warn (mkLdSys r.1 (sys_nested y) (sys_done y))).
Proof.
  intros Hok. pose proof (lo_graph _ _ Hok) as (_ & _ & Hc & _). eapply wp_mono.
  { apply register_slow_correct; [apply Hok|done]. }
  intros [s' id]. cbn [fst snd]. destruct y as [s nested done_]. cbn [sys_ld sys_nested sys_done] in *.
  intros [[-> _]|[Hnew [[-> _]|(-> & Hlt & cs & u & -> & Hlen & Hid & Hother)]]]; [done|done|].
  apply (ld_ok_tables warn (mkLdSys s nested done_) cs _ nested (ld_reports s)); cbn [sys_ld sys_nested];
    [done|lia| | |done| | |].
  - split; [done|]. intros i e Hi He. exists e. split; [|done]. rewrite Hother by lia. done.
  - intros i j e e' Hi Hj Hei Hej Hka Hsu.
    destruct (decide (i = ld_class_count s)) as [->|Hni], (decide (j = ld_class_count s)) as [->|Hnj]; [done| | |].
    + rewrite Hid in Hei. simplify_eq/=. rewrite Hother in Hej by lia. exfalso. eapply (Hnew j); [lia|done|auto].
    + rewrite Hid in Hej. simplify_eq/=. rewrite Hother in Hei by lia. exfalso. eapply (Hnew i); [lia|done|auto].
    + rewrite Hother in Hei, Hej by lia. eapply (lo_keys _ _ Hok i j); try done; cbn; lia.
  - intros a b Hab. destruct (lo_nested _ _ Hok a b Hab). cbn in *. lia.
  - intros _ a b Hab. by left.
  - apply Forall_forall. by left.
Qed.

(** ** Reports *)

Section Reports.
Variables (warn : bool) (s : Lockdep) (h : HeldLocks).
Hypothesis Hlen : length (ld_classes s) = Z.to_nat MAX_CLASSES.
Hypothesis Hcount : 0 <= ld_class_count s <= MAX_CLASSES.
Hypothesis Hheld : held_ok (ld_class_count s) h.

Lemma wp_class_name id : 0 <= id -> wp (class_name s id) (fun _ => True).
Proof.
  intros Hid. unfold class_name. destruct (Z.ltb_spec id (ld_class_count s)); [|done].
  destruct (lookup_lt_is_Some_2 (ld_classes s) (Z.to_nat id)) as [e He]; [lia|].
  wp_step. by eapply wp_idx.
Qed.

Lemma wp_class_kind id : 0 <= id -> wp (class_kind s id) (fun _ => True).
Proof.
  intros Hid. unfold class_kind. destruct (Z.ltb_spec id (ld_class_count s)); [|done].
  destruct (lookup_lt_is_Some_2 (ld_classes s) (Z.to_nat id)) as [e He]; [lia|].
  wp_step. by eapply wp_idx.
Qed.

Lemma wp_stack_lines i n :
  0 <= i -> i + Z.of_nat n <= hl_depth h -> wp (stack_lines s h i n) (fun _ => True).
Proof.
  revert i. induction n as [|n IH]; intros i Hi Hn; simpl; [done|].
  destruct (held_lookup _ h i Hheld) as (x & Hx & _ & Hxc); [lia|].
  wp_step. eapply wp_idx; [lia|done|]. wp_step. eapply wp_mono; [apply wp_class_name; lia|]. intros ? _.
  wp_step. eapply wp_mono; [apply wp_class_kind; lia|]. intros ? _.
  wp_step. eapply wp_mono; [apply IH; lia|]. intros ? _. done.
Qed.

Lemma wp_level_lines i n :
  0 <= i -> i + Z.of_nat n <= hl_depth h -> wp (level_lines s h i n) (fun _ => True).
Proof.
  revert i. induction n as [|n IH]; intros i Hi Hn; simpl; [done|].
  destruct (held_lookup _ h i Hheld) as (x & Hx & _ & Hxc); [lia|].
  destruct (lookup_lt_is_Some_2 (ld_classes s) (Z.to_nat x)) as [e He]; [lia|].
  wp_step. eapply wp_idx; [lia|done|]. wp_step. eapply wp_idx; [lia|done|].
  wp_step. eapply wp_mono; [apply wp_class_name; lia|]. intros ? _.
  wp_step. eapply wp_mono; [apply wp_class_kind; lia|]. intros ? _.
  wp_step. eapply wp_mono; [apply IH; lia|]. intros ? _. done.
Qed.

(** Both names and kinds are read before a report is made. *)
Lemma wpd_names {A} a b (f : string -> LockKind -> string -> LockKind -> exec A) Q :
  0 <= a -> 0 <= b -> (forall n1 k1 n2 k2, wpd warn (f n1 k1 n2 k2) Q) ->
  wpd warn (n1 ← class_name s a; k1 ← class_kind s a; n2 ← class_name s b; k2 ← class_kind s b; f n1 k1 n2 k2) Q.
Proof.
  intros Ha Hb Hf.
  eapply wpd_bind_wp; [by apply wp_class_name|]. intros ? _.
  eapply wpd_bind_wp; [by apply wp_class_kind|]. intros ? _.
  eapply wpd_bind_wp; [by apply wp_class_name|]. intros ? _.
  eapply wpd_bind_wp; [by apply wp_class_kind|]. intros ? _. apply Hf.
Qed.

Lemma wpd_report_cycle a b :
  0 <= a -> 0 <= b ->
  wpd warn (report_cycle warn s a b h) (fun s' =>
    warn = true /\ exists n1 n2 k1 k2 ls, s' = add_report s (VCycle a b n1 n2 k1 k2 ls)).
Proof.
  intros Ha Hb. unfold report_cycle. apply wpd_names; [done|done|]. intros n1 k1 n2 k2.
  destruct warn; [|done]. eapply wpd_bind_wp; [apply wp_stack_lines; [done|]|].
  { destruct Hheld as (_ & ? & _). lia. }
  intros ls _. split; [done|]. by eexists _, _, _, _, _.
Qed.

Lemma wpd_report_level a b la lb :
  0 <= a -> 0 <= b ->
  wpd warn (report_level_violation warn s a b la lb h) (fun s' =>
    warn = true /\ exists n1 n2 k1 k2 ls, s' = add_report s (VLevel a b la lb n1 n2 k1 k2 ls)).
Proof.
  intros Ha Hb. unfold report_level_violation. apply wpd_names; [done|done|]. intros n1 k1 n2 k2.
  destruct warn; [|done]. eapply wpd_bind_wp; [apply wp_level_lines; [done|]|].
  { destruct Hheld as (_ & ? & _). lia. }
  intros ls _. split; [done|]. by eexists _, _, _, _, _.
Qed.

Lemma wpd_report_irq a :
  0 <= a ->
  wpd warn (report_irq_safety warn s a) (fun s' => warn = true /\ exists n k, s' = add_report s (VIrq a n k)).
Proof.
  intros Ha. unfold report_irq_safety.
  eapply wpd_bind_wp; [by apply wp_class_name|]. intros n _.
  eapply wpd_bind_wp; [by apply wp_class_kind|]. intros k _.
  destruct warn; [|done]. split; [done|]. by eexists _, _.
Qed.
End Reports.

(** ** Acquiring *)

Lemma irq_check_ok warn y class irq :
  ld_ok warn y -> 0 <= class < ld_class_count (sys_ld y) ->
  wpd warn (irq_check warn (sys_ld y) class irq) (fun s =>
    ld_ok warn (mkLdSys s (sys_nested y) (sys_done y)) /\ ld_class_count s = ld_class_count (sys_ld y) /\
    ld_cpus s = ld_cpus (sys_ld y) /\ ld_graph s = ld_graph (sys_ld y)).
Proof.
  intros Hok Hcl. pose proof (lo_graph _ _ Hok) as (_ & _ & Hc & _). pose proof (lo_classes _ _ Hok) as Hlen.
  destruct (lookup_lt_is_Some_2 (ld_classes (sys_ld y)) (Z.to_nat class)) as [e He]; [lia|].
  unfold irq_check. eapply wpd_bind_wp; [by eapply wp_idx, eq_refl; [lia|]|]. intros ? <-.
  eapply wpd_bind_wp; [by apply wp_upd, eq_refl; lia|]. intros ? <-.
  set (bit := if irq then IRQ_USED_IN_IRQ else IRQ_USED_IN_NON_IRQ).
  set (e' := mkClass _ _ _ _ _ _). set (cs := <[_ := e']> _).
  assert (classes_le (ld_class_count (sys_ld y)) (ld_classes (sys_ld y)) cs) as Hle.
  { split; [apply length_insert|]. intros i ei Hi Hei. unfold cs.
    destruct (decide (i = class)) as [->|Hne]; [|rewrite list_lookup_insert_ne by lia; by exists ei].
    rewrite list_lookup_insert_eq by lia. exists e'. split; [done|]. simplify_eq. split_and!; try done.
    intros k Hk. cbn [e' ce_irq_usage]. by rewrite Z.lor_spec, Hk. }
  assert (forall reports, Forall (fun v => v ∈ ld_reports (sys_ld y) \/
            real (ld_class_count (sys_ld y)) cs (sys_nested y) v) reports ->
            ld_ok warn (with_tables y cs (ld_class_count (sys_ld y)) (sys_nested y) reports)) as Hnew.
  { intros reports Hr. apply ld_ok_tables; [done|lia|done| |done|apply Hok|by left|done].
    eapply keys_distinct_irq; [done|apply Hc|done|apply Hok]. }
  assert (wpd warn (Ret (set_classes (sys_ld y) cs (ld_class_count (sys_ld y)))) (fun s =>
    ld_ok warn (mkLdSys s (sys_nested y) (sys_done y)) /\ ld_class_count s = ld_class_count (sys_ld y) /\
    ld_cpus s = ld_cpus (sys_ld y) /\ ld_graph s = ld_graph (sys_ld y))) as Hplain.
  { split_and!; try done. apply (Hnew (ld_reports (sys_ld y))). apply Forall_forall. by left. }
  destruct (irq && _) eqn:Eirq; [|exact Hplain].
  case_bool_decide as Hkind; [exact Hplain|].
  eapply wpd_mono; [apply wpd_report_irq; [exact (eq_trans (proj1 Hle) Hlen)|done|lia]|].
  intros s (Hw & n & k & ->). split_and!; try done. apply (Hnew (ld_reports (sys_ld y) ++ [VIrq class n k])).
  apply Forall_app_2; [apply Forall_forall; by left|]. apply Forall_singleton. right. cbn [real].
  apply andb_prop in Eirq as [-> Hbit]. split; [done|]. exists e'. unfold cs.
  rewrite list_lookup_insert_eq by lia. split_and!; [done|done|..]; cbn [e' ce_irq_usage bit].
  - by rewrite Z.lor_spec, (orb_comm (Z.testbit _ _)).
  - rewrite Z.lor_spec. unfold IRQ_USED_IN_NON_IRQ in Hbit. rewrite land_bit_eqb, negb_involutive in Hbit by lia.
    by rewrite Hbit.
Qed.

(** From entry [i] on the levels are in order, or a report was made. *)
Definition level_checked (warn : bool) (s : Lockdep) (h : HeldLocks) (class i : Z) (s' : Lockdep) : Prop :=
  (s' = s /\ forall j x, i <= j -> held_list h !! Z.to_nat j = Some x -> x <> class ->
     level_le (ld_classes s) x class) \/
  (warn = true /\ exists x n1 n2 k1 k2 ls, x ∈ held_list h /\ x <> class /\
     level_of (ld_classes s) class < level_of (ld_classes s) x /\
     s' = add_report s (VLevel x class (level_of (ld_classes s) x) (level_of (ld_classes s) class) n1 n2 k1 k2 ls)).

Lemma level_check_ok warn s h class i n :
  length (ld_classes s) = Z.to_nat MAX_CLASSES -> 0 <= ld_class_count s <= MAX_CLASSES ->
  held_ok (ld_class_count s) h -> 0 <= class -> 0 <= i -> i + Z.of_nat n = hl_depth h ->
  0 < level_of (ld_classes s) class ->
  wpd warn (level_check warn s h class (level_of (ld_classes s) class) i n) (level_checked warn s h class i).
Proof.
  intros Hl Hc Hh Hcl. revert i. induction n as [|n IH]; intros i Hi Hn Hlev; simpl.
  { left. split; [done|]. intros j x Hj Hx. apply lookup_lt_Some in Hx.
    rewrite (held_list_length _ _ Hh) in Hx. lia. }
  destruct (held_lookup _ h i Hh) as (x & Hx & Hx' & Hxc); [lia|].
  eapply wpd_bind_wp; [by eapply wp_idx, eq_refl|]. intros ? <-.
  assert ((x =? NONE) = false) as -> by (unfold NONE, MAX_CLASSES in *; lia). simpl.
  assert (level_le (ld_classes s) x class \/ x = class ->
    wpd warn (level_check warn s h class (level_of (ld_classes s) class) (i + 1) n) (level_checked warn s h class i))
    as Hnext.
  { intros Hxl. eapply wpd_mono; [apply IH; [lia|lia|done]|]. intros s' [[-> Hall]|Hrep]; [left|by right].
    split; [done|]. intros j z Hj Hz Hne. destruct (decide (j = i)) as [->|]; [|apply (Hall j); [lia|done|done]].
    rewrite Hx' in Hz. simplify_eq. by destruct Hxl. }
  destruct (Z.eqb_spec x class) as [->|Hne]; [apply Hnext; by right|].
  destruct (lookup_lt_is_Some_2 (ld_classes s) (Z.to_nat x)) as [e He]; [lia|].
  assert (level_of (ld_classes s) x = ce_level e) as Hle by (unfold level_of; by rewrite He).
  eapply wpd_bind_wp; [by eapply wp_idx, eq_refl; [lia|]|]. intros ? <-.
  destruct (Z.ltb_spec 0 (ce_level e)); [destruct (Z.ltb_spec (level_of (ld_classes s) class) (ce_level e))|]; simpl.
  - eapply wpd_mono; [by apply wpd_report_level; [done|done|done|lia|]|].
    intros s' (Hw & n1 & n2 & k1 & k2 & ls & ->). right. split; [done|]. exists x, n1, n2, k1, k2, ls. rewrite Hle.
    split_and!; [by eapply list_elem_of_lookup_2|done|done|done].
  - apply Hnext. left. unfold level_le. lia.
  - apply Hnext. left. unfold level_le. lia.
Qed.

Lemma elem_of_nestings h class a b :
  (a, b) ∈ nestings h class <-> b = class /\ a ∈ held_list h /\ a <> class.
Proof.
  unfold nestings. rewrite list_elem_of_fmap. split.
  - intros (x & [= -> ->] & [Hne Hx]%list_elem_of_filter). done.
  - intros (-> & Ha & Hne). exists a. split; [done|]. by apply list_elem_of_filter.
Qed.

(** Adding the pairs of an acquisition to the order, after the level check. *)
Lemma ld_ok_nest warn y x class s' :
  ld_ok warn y -> held_ok (ld_class_count (sys_ld y)) (lc_held x) -> 0 <= class < ld_class_count (sys_ld y) ->
  (s' = sys_ld y /\ level_of (ld_classes (sys_ld y)) class <= 0) \/
  (0 < level_of (ld_classes (sys_ld y)) class /\ level_checked warn (sys_ld y) (lc_held x) class 0 s') ->
  ld_ok warn (mkLdSys s' (sys_nested y ++ nestings (lc_held x) class) (sys_done y)) /\
  ld_class_count s' = ld_class_count (sys_ld y) /\ ld_cpus s' = ld_cpus (sys_ld y) /\ ld_graph s' = ld_graph (sys_ld y).
Proof.
  intros Hok Hh Hcl Hs. pose proof (lo_graph _ _ Hok) as (_ & _ & Hc & _).
  assert (forall z, z ∈ held_list (lc_held x) -> 0 <= z < ld_class_count (sys_ld y)) as Hrange.
  { intros z Hz. destruct Hh as (_ & _ & Hf). by eapply Forall_forall in Hf. }
  assert (forall reports,
    (warn = false -> forall z, z ∈ held_list (lc_held x) -> z <> class -> level_le (ld_classes (sys_ld y)) z class) ->
    Forall (fun v => v ∈ ld_reports (sys_ld y) \/
            real (ld_class_count (sys_ld y)) (ld_classes (sys_ld y)) (sys_nested y ++ nestings (lc_held x) class) v) reports ->
    ld_ok warn (with_tables y (ld_classes (sys_ld y)) (ld_class_count (sys_ld y))
                  (sys_nested y ++ nestings (lc_held x) class) reports)) as Hnew.
  { intros reports Hl Hr. apply ld_ok_tables; [done|lia|apply classes_le_refl|apply Hok|set_solver| | |done].
    - intros a b [Hab|(-> & Ha & _)%elem_of_nestings]%elem_of_app; [by eapply lo_nested|]. split; [by apply Hrange|lia].
    - intros Hw a b [Hab|(-> & Ha & Hne)%elem_of_nestings]%elem_of_app; [by left|right; by apply Hl]. }
  destruct y as [s nested done_]. cbn [sys_ld sys_nested sys_done] in *.
  destruct Hs as [[-> Hlev]|[Hlev [[-> Hall]|(Hw & z & n1 & n2 & k1 & k2 & ls & Hz & Hne & Hlt & ->)]]].
  - split_and!; try done. destruct s. apply (Hnew _); [|apply Forall_forall; by left]. unfold level_le. cbn in *. lia.
  - split_and!; try done. destruct s. apply (Hnew _); [|apply Forall_forall; by left].
    intros _ z [j Hj]%list_elem_of_lookup Hne. apply (Hall (Z.of_nat j)); [lia|by rewrite Nat2Z.id|done].
  - split_and!; try done. apply (Hnew (ld_reports s ++ [_])); [by intros ->|].
    apply Forall_app_2; [apply Forall_forall; by left|]. apply Forall_singleton. right. cbn [real].
    split_and!; try done; try lia; [|apply Hrange; done..].
    apply elem_of_app. right. by apply elem_of_nestings.
Qed.

Lemma acquire_enter_ok warn y c x class skip irq :
  ld_ok warn y -> ld_cpus (sys_ld y) !! c = Some x -> is_class (sys_ld y) class = true ->
  wpd warn (acquire_enter warn (sys_ld y) c x class skip irq) (fun s =>
    ld_ok warn (mkLdSys s (if tracked x class skip then sys_nested y ++ nestings (lc_held x) class
                           else sys_nested y) (sys_done y))).
Proof.
  intros Hok Hx Hcls. pose proof (Forall_lookup_1 _ _ _ _ (lo_cpus _ _ Hok) Hx) as [Hh Hph].
  unfold acquire_enter, tracked. destruct y as [s nested done_]. cbn [sys_ld sys_nested sys_done] in *.
  destruct ((class =? NONE) || skip) eqn:E1; [done|]. destruct (lc_in_lockdep x) eqn:E2; [done|].
  assert (0 <= class < ld_class_count s) as Hcl.
  { unfold is_class in Hcls. apply orb_false_iff in E1 as [E1 _]. rewrite E1 in Hcls. simpl in Hcls. lia. }
  simpl. apply wpd_bind. eapply wpd_mono; [by apply (irq_check_ok warn (mkLdSys s nested done_))|].
  cbn [sys_ld sys_nested sys_done]. intros s1 (Hok1 & Hc1 & Hcpu1 & Hg1).
  pose proof (lo_classes _ _ Hok1) as Hl1. pose proof (lo_graph _ _ Hok1) as (_ & _ & Hm1 & _).
  cbn [sys_ld] in Hl1, Hm1. rewrite <- Hc1 in Hh, Hcl.
  destruct (lookup_lt_is_Some_2 (ld_classes s1) (Z.to_nat class)) as [e He]; [lia|].
  assert (ce_level e = level_of (ld_classes s1) class) as Hle by (unfold level_of; by rewrite He).
  eapply wpd_bind_wp; [by eapply wp_idx, eq_refl; [lia|]|]. intros ? <-. rewrite Hle.
  apply wpd_bind. apply wpd_mono with (P := fun s2 =>
    (s2 = s1 /\ level_of (ld_classes s1) class <= 0) \/
    (0 < level_of (ld_classes s1) class /\ level_checked warn s1 (lc_held x) class 0 s2)).
  { destruct (Z.ltb_spec 0 (level_of (ld_classes s1) class)); [|by left].
    eapply wpd_mono; [apply level_check_ok; try done; [lia|destruct Hh as (_ & ? & _); lia]|]. by right. }
  intros s2 Hs2. destruct (ld_ok_nest warn _ x class s2 Hok1 Hh Hcl Hs2) as (Hok2 & Hc2 & Hcpu2 & Hg2).
  cbn [sys_ld sys_nested sys_done] in *. apply (ld_ok_cpu warn _ c _ done_ Hok2); [|apply Hok2].
  cbn [sys_ld sys_nested sys_done]. rewrite Hc2. split; [done|]. split; [done|]. split_and!; [lia|lia|done| | |].
  - destruct Hh as (_ & ? & _). cbn. lia.
  - intros j z Hj. lia.
  - intros z Hz Hne. apply elem_of_app. right. by apply elem_of_nestings.
Qed.

Lemma acquire_done_ok warn y c x class done' :
  ld_ok warn y -> held_ok (ld_class_count (sys_ld y)) (lc_held x) -> 0 <= class < ld_class_count (sys_ld y) ->
  (forall a b, (a, b) ∈ done' -> edge (ld_graph (sys_ld y)) a b) ->
  wp (acquire_done (sys_ld y) c x class) (fun s => ld_ok warn (mkLdSys s (sys_nested y) done')).
Proof.
  intros Hok Hh Hcl Hd. unfold acquire_done. wp_step. eapply wp_held_push; [done|done|].
  intros h' Hh' _. wp_step. by apply ld_ok_cpu.
Qed.

(** Entry [i] is done. *)
Lemma acq_ok_next count g g' nested hl class i h :
  acq_ok count g nested hl class i -> i < hl_depth hl -> held_list hl !! Z.to_nat i = Some h ->
  h = class \/ edge g' h class -> (forall a b, edge g a b -> edge g' a b) ->
  acq_ok count g' nested hl class (i + 1).
Proof.
  intros (Hcl & Hi & He & Hn) Hlt Hh Hor Hmono. split_and!; try lia; [|done]. intros j z Hj Hz Hne.
  destruct (decide (j = i)) as [->|]; [|apply Hmono, (He j); [lia|done|done]].
  rewrite Hh in Hz. simplify_eq. by destruct Hor.
Qed.

Lemma edge_test_ok warn y c x class i :
  ld_ok warn y -> ld_cpus (sys_ld y) !! c = Some x -> lc_phase x = LdEdge class i ->
  wp (edge_test (sys_ld y) c x class i) (fun s =>
    ld_ok warn (mkLdSys s (sys_nested y) (if i <? hl_depth (lc_held x) then sys_done y
                                          else sys_done y ++ nestings (lc_held x) class))).
Proof.
  intros Hok Hx Hp. pose proof (Forall_lookup_1 _ _ _ _ (lo_cpus _ _ Hok) Hx) as [Hh Hph].
  rewrite Hp in Hph. destruct Hph as (Hin & Hacq). pose proof Hacq as (Hcl & Hi & He & Hn). pose proof (lo_graph _ _ Hok) as Hg.
  pose proof Hg as (_ & _ & Hc & _). unfold edge_test.
  destruct (Z.ltb_spec i (hl_depth (lc_held x))) as [Hlt|Hge]; cycle 1.
  { apply acquire_done_ok; [done|done|done|].
    intros a b [Hab|(-> & [j Hj]%list_elem_of_lookup & Hne)%elem_of_nestings]%elem_of_app; [by eapply lo_done|].
    apply (He (Z.of_nat j)); [|by rewrite Nat2Z.id|done].
    apply lookup_lt_Some in Hj. rewrite (held_list_length _ _ Hh) in Hj. lia. }
  destruct (held_lookup _ _ i Hh) as (h & Hst & Hh' & Hhc); [lia|].
  wp_step. eapply wp_idx; [lia|done|].
  assert ((h =? NONE) = false) as -> by (unfold NONE, MAX_CLASSES in *; lia). simpl.
  destruct (Z.eqb_spec h class) as [->|Hne].
  { wp_step. apply ld_ok_cpu; [done| |apply Hok]. split; [done|]. split; [done|].
    by eapply acq_ok_next; [| | |left|]. }
  wp_step. eapply wp_graph_test; [done|lia|lia|]. case_bool_decide as Hedge; wp_step.
  - apply ld_ok_cpu; [done| |apply Hok]. split; [done|]. split; [done|].
    by eapply acq_ok_next; [| | |right|].
  - apply ld_ok_cpu; [done| |apply Hok]. split; [done|]. split_and!; try done; try lia. by exists h.
Qed.

(** Paths of a relation with one more pair. *)
Lemma tc_add {A} (R R' : relation A) h c a b :
  (forall x y, R' x y <-> R x y \/ (x = h /\ y = c)) ->
  tc R' a b -> tc R a b \/ (rtc R' a h /\ rtc R' c b).
Proof.
  intros HR. induction 1 as [x y Hxy|x y z Hxy Hyz IH].
  - pose proof Hxy as [Hr|[-> ->]]%HR; [left; by apply tc_once|right; by split].
  - pose proof Hxy as [Hr|[-> ->]]%HR.
    + destruct IH as [IH|[IH1 IH2]]; [left; by eapply tc_l|]. right. split; [by eapply rtc_l|done].
    + right. split; [done|]. by apply tc_rtc.
Qed.

Lemma tc_mono {A} (R R' : relation A) a b : (forall x y, R x y -> R' x y) -> tc R a b -> tc R' a b.
Proof. intros HR. induction 1; [apply tc_once; auto|eapply tc_l; eauto]. Qed.

(** The state after an edge was recorded and no cycle found. *)
Lemma ld_ok_graph warn y g es h class :
  ld_ok warn y -> graph_ok g (ld_class_count (sys_ld y)) -> length es = Z.to_nat MAX_EDGES ->
  0 <= class < MAX_CLASSES -> ~ edge (ld_graph (sys_ld y)) h class -> (h, class) ∈ sys_nested y ->
  edge_bits g = {[h * MAX_CLASSES + class]} ∪ edge_bits (ld_graph (sys_ld y)) ->
  (forall a b, edge g a b <-> edge (ld_graph (sys_ld y)) a b \/ (a = h /\ b = class)) ->
  (warn = false -> few_edges g -> ~ rtc (edge g) class h) ->
  ld_ok warn (mkLdSys (set_graph (sys_ld y) g es ((ld_edge_count (sys_ld y) + 1) mod 2 ^ 32))
                (sys_nested y) (sys_done y)).
Proof.
  intros [Hcl Hk Hg He Hec Hcpu Hnest Hsub Hdone Hreal Hac Hl] Hg' Hes Hcm Hnew Hin Hb Hedge Hpath.
  assert (size (edge_bits g) = S (size (edge_bits (ld_graph (sys_ld y))))) as Hsize.
  { rewrite Hb, size_union, size_singleton; [done|]. apply disjoint_singleton_l. by rewrite edge_bit. }
  pose proof (bits_of_size g EDGE_BITS ltac:(done)) as Hbound. fold (edge_bits g) in Hbound.
  constructor; cbn [set_graph sys_ld sys_nested sys_done ld_classes ld_class_count ld_graph ld_edges
                    ld_edge_count ld_cpus ld_reports]; try done.
  - rewrite Hsize, Hec, Z.mod_small; [lia|]. unfold EDGE_BITS, MAX_CLASSES in Hbound. lia.
  - eapply Forall_impl; [done|]. intros x. apply cpu_ok_mono; [done| |done]. intros a b Hab. apply Hedge. by left.
  - intros a b [Hab|[-> ->]]%Hedge; [by apply Hsub|done].
  - intros a b Hab. apply Hedge. left. by apply Hdone.
  - intros Hw Hf a Ha. destruct (tc_add _ _ _ _ _ _ Hedge Ha) as [Ha'|[H1 H2]].
    + apply (Hac Hw) in Ha'; [done|]. unfold few_edges in *. lia.
    + apply (Hpath Hw Hf). by etrans.
Qed.

(** The section under the lock, when no cycle is found. *)
Lemma edge_next_ok warn y c x class i h g es n :
  ld_ok warn (mkLdSys (set_graph (sys_ld y) g es n) (sys_nested y) (sys_done y)) ->
  lc_in_lockdep x = true -> held_ok (ld_class_count (sys_ld y)) (lc_held x) ->
  acq_ok (ld_class_count (sys_ld y)) (ld_graph (sys_ld y)) (sys_nested y) (lc_held x) class i ->
  i < hl_depth (lc_held x) -> held_list (lc_held x) !! Z.to_nat i = Some h ->
  edge g h class -> (forall a b, edge (ld_graph (sys_ld y)) a b -> edge g a b) ->
  ld_ok warn (mkLdSys (set_ld_cpu (set_graph (sys_ld y) g es n) c
                         (mkLdCpu (lc_held x) (lc_in_lockdep x) (LdEdge class (i + 1))))
                (sys_nested y) (sys_done y)).
Proof.
  intros Hok Hin Hh Hacq Hlt Hi He Hmono. apply (ld_ok_cpu warn _ c _ _ Hok); [|apply Hok].
  split; [done|]. split; [done|]. eapply acq_ok_next; eauto.
Qed.

(** A report panics in the panicking mode. *)
Lemma report_cycle_panics {A} s h class hl (f : Lockdep -> exec A) :
  wpd false (s ← report_cycle false s h class hl; f s) (fun _ => False).
Proof.
  unfold report_cycle.
  by destruct (class_name s h), (class_kind s h), (class_name s class), (class_kind s class).
Qed.

(** And when one is found, in the warning mode. *)
Lemma edge_cycle_ok y c x class h :
  ld_ok true y -> held_ok (ld_class_count (sys_ld y)) (lc_held x) -> 0 <= class < ld_class_count (sys_ld y) ->
  0 <= h -> (h, class) ∈ sys_nested y -> rtc (edge (ld_graph (sys_ld y))) class h ->
  wp (s ← report_cycle true (sys_ld y) h class (lc_held x); acquire_done s c x class)
    (fun s => ld_ok true (mkLdSys s (sys_nested y) (sys_done y))).
Proof.
  intros Hok Hh Hcl Hhpos Hin Hr. pose proof (lo_graph _ _ Hok) as (_ & _ & Hc & _).
  apply wp_bind. pose proof (wpd_report_cycle true (sys_ld y) (lc_held x) (lo_classes _ _ Hok) Hc Hh h class)
    as Hrep. destruct (report_cycle _ _ _ _ _) as [s'|]; [|discriminate Hrep; lia].
  destruct Hrep as (_ & n1 & n2 & k1 & k2 & ls & ->); [lia|lia|]. apply wp_ret.
  assert (ld_ok true (with_tables y (ld_classes (sys_ld y)) (ld_class_count (sys_ld y)) (sys_nested y)
     (ld_reports (sys_ld y) ++ [VCycle h class n1 n2 k1 k2 ls]))) as Hok2.
  { apply ld_ok_tables; try done; [lia|apply classes_le_refl|apply Hok|apply Hok|].
    apply Forall_app_2; [apply Forall_forall; by left|]. apply Forall_singleton. right. split; [done|].
    eapply rtc_subrel; [|done]. intros a b Hab. by apply (lo_sub _ _ Hok). }
  by apply (acquire_done_ok true _ c x class (sys_done y) Hok2); [| |apply Hok2].
Qed.

Lemma edge_record_ok warn y c x class i :
  ld_ok warn y -> ld_cpus (sys_ld y) !! c = Some x -> lc_phase x = LdLock class i ->
  wpd warn (edge_record warn (sys_ld y) c x class i) (fun s =>
    ld_ok warn (mkLdSys s (sys_nested y) (sys_done y))).
Proof.
  intros Hok Hx Hp. pose proof (Forall_lookup_1 _ _ _ _ (lo_cpus _ _ Hok) Hx) as [Hh Hph].
  rewrite Hp in Hph. destruct Hph as (Hin & Hacq & h & Hh' & Hne). pose proof Hacq as (Hcl & Hi & He & Hn).
  pose proof (lo_graph _ _ Hok) as Hg. pose proof Hg as (_ & _ & Hc & _).
  assert (i < hl_depth (lc_held x)) as Hlt.
  { apply lookup_lt_Some in Hh'. rewrite (held_list_length _ _ Hh) in Hh'. lia. }
  destruct (held_lookup _ _ i Hh) as (h0 & Hst & Hh0 & Hhc); [lia|]. assert (h0 = h) as -> by congruence.
  assert ((h, class) ∈ sys_nested y) as Hnest by (apply Hn; [by eapply list_elem_of_lookup_2|done]).
  unfold edge_record. eapply wpd_bind_wp; [by eapply wp_idx, eq_refl; [lia|]|]. intros ? <-.
  eapply wpd_bind_wp; [by eapply wp_graph_test, eq_refl; [done|lia|lia]|]. intros ? <-.
  case_bool_decide as Hedge; simpl.
  { apply ld_ok_cpu; [done| |apply Hok]. split; [done|]. split; [done|].
    by eapply acq_ok_next; [| | |right|]. }
  eapply wpd_bind_wp.
  { eapply wp_graph_set; [done|lia|lia|]. intros g' H1 H2 H3. exact (conj H1 (conj H2 H3)). }
  intros g' (Hg' & Hbits & Hedges).
  eapply wpd_bind_wp with (P := fun es => length es = Z.to_nat MAX_EDGES).
  { destruct (Z.ltb_spec (ld_edge_count (sys_ld y)) MAX_EDGES); [|apply Hok].
    apply wp_upd; [rewrite (lo_edges _ _ Hok), (lo_count _ _ Hok) in *; lia|]. rewrite length_insert. apply Hok. }
  intros es Hes. eapply wpd_bind_wp.
  { apply (wp_has_path g' (ld_class_count (sys_ld y)) class h Hg'); lia. }
  intros p [Hsound Hcomplete]. set (s' := set_graph _ _ _ _).
  assert (warn = true \/ p = false -> ld_ok warn (mkLdSys s' (sys_nested y) (sys_done y))) as Hok'.
  { intros Hw. apply (ld_ok_graph warn y g' es h class); try done; [lia|]. intros -> Hf Hr. destruct Hw as [|Hw]; [done|].
    by rewrite Hcomplete in Hw. }
  destruct p; cycle 1.
  { eapply (edge_next_ok warn y c x class i h); [by apply Hok'; right|done|done|done|done|done|..].
    - apply Hedges. by right.
    - intros a b Hab. apply Hedges. by left. }
  destruct warn; [|eapply wpd_mono; [apply report_cycle_panics|done]].
  apply wpd_wp. apply (edge_cycle_ok (mkLdSys s' (sys_nested y) (sys_done y))); auto; lia.
Qed.

Lemma release_ok warn y c x class skip :
  ld_ok warn y -> ld_cpus (sys_ld y) !! c = Some x ->
  wp (lock_released (sys_ld y) c x class skip) (fun s => ld_ok warn (mkLdSys s (sys_nested y) (sys_done y))).
Proof.
  intros Hok Hx. pose proof (Forall_lookup_1 _ _ _ _ (lo_cpus _ _ Hok) Hx) as [Hh Hph].
  unfold lock_released. destruct y as [s nested done_]. cbn [sys_ld sys_nested sys_done] in *.
  destruct (_ || skip); [by wp_step|]. destruct (lc_in_lockdep x) eqn:E; [by wp_step|].
  wp_step. eapply wp_mono; [by apply wp_held_pop|]. intros [h o] [Hh' _]. cbn [fst] in Hh'. wp_step.
  apply (ld_ok_cpu warn (mkLdSys s nested done_)); [done| |apply Hok]. split; [done|].
  cbn [lc_phase lc_in_lockdep]. by destruct (lc_phase x); [|destruct Hph..].
Qed.

(** ** All runs *)

Lemma ld_step_ok warn y l :
  ld_ok warn y -> wpd warn (ld_step warn y l) (fun o => forall y', o = Some y' -> ld_ok warn y').
Proof.
  intros Hok. destruct l as [k sub level name kind|c class sp init irq|c|c class sp init]; simpl.
  - eapply wpd_bind_wp; [by apply register_ok|]. intros [s id] H y' [= <-]. exact H.
  - destruct (ld_cpus (sys_ld y) !! c) as [x|] eqn:Hx; [|done]. destruct (is_class _ _) eqn:Hc; [|done].
    apply wpd_bind. eapply wpd_mono; [by apply acquire_enter_ok|]. intros s H y' [= <-]. exact H.
  - destruct (ld_cpus (sys_ld y) !! c) as [x|] eqn:Hx; [|done]. destruct (lc_phase x) as [|class i|class i] eqn:Hp; [done|..].
    + eapply wpd_bind_wp; [by eapply edge_test_ok|]. intros s H y' [= <-]. exact H.
    + apply wpd_bind. eapply wpd_mono; [by eapply edge_record_ok|]. intros s H y' [= <-]. exact H.
  - destruct (ld_cpus (sys_ld y) !! c) as [x|] eqn:Hx; [|done]. destruct (is_class _ _) eqn:Hc; [|done].
    eapply wpd_bind_wp; [by eapply release_ok|]. intros s H y' [= <-]. exact H.
Qed.

Lemma ld_run_ok warn ls : forall y,
  ld_ok warn y -> wpd warn (ld_run warn y ls) (fun o => forall y', o = Some y' -> ld_ok warn y').
Proof.
  induction ls as [|l ls IH]; intros y Hok; simpl.
  { intros y' [= <-]. done. }
  apply wpd_bind. eapply wpd_mono; [by apply ld_step_ok|]. intros [y'|] H; [|done]. apply IH. by apply H.
Qed.

Lemma ld_start_ok warn cpus : ld_ok warn (ld_start cpus).
Proof.
  assert (forall a b, ~ edge (replicate (Z.to_nat GRAPH_WORDS) 0) a b) as Hno.
  { intros a b (Ha & Hb & Hu). rewrite used_zeros in Hu; [done|].
    change (64 * Z.of_nat (Z.to_nat GRAPH_WORDS)) with 65536. unfold MAX_CLASSES in *. lia. }
  constructor; cbn [ld_start Lockdep_init sys_ld sys_nested sys_done ld_classes ld_class_count ld_graph ld_edges
                    ld_edge_count ld_cpus ld_reports].
  - apply length_replicate.
  - intros i j e e' Hi. lia.
  - split_and!; [apply length_replicate|by apply Forall_replicate|lia|done|]. intros a b Hab. by apply Hno in Hab.
  - apply length_replicate.
  - pose proof (bits_of_zeros (Z.to_nat GRAPH_WORDS)) as Hz.
    change (64 * _) with EDGE_BITS in Hz. unfold edge_bits. by rewrite Hz.
  - apply Forall_replicate. split; [|done]. split_and!; [apply length_replicate|done|done|]. constructor.
  - intros a b []%not_elem_of_nil.
  - intros a b Hab. by apply Hno in Hab.
  - intros a b []%not_elem_of_nil.
  - constructor.
  - intros _ _ a Ha. inversion Ha as [? ? H|? ? ? H]; by apply Hno in H.
  - intros _ a b []%not_elem_of_nil.
Qed.

(** C7: In the panicking mode, as long as the tracker has not panicked and at most
    256 edges have been recorded, the locks nested so far can be ordered: no
    chain of nestings leads from a class back to it, on whatever CPUs and in
    whatever interleaving they were made.  Classes with levels were acquired
    in the order of their levels. *)
Theorem lockdep_no_cycle cpus ls y :
  ld_run false (ld_start cpus) ls = Ret (Some y) -> ld_edge_count (sys_ld y) <= MAX_CLASSES ->
  (forall a, ~ tc (nest (sys_done y)) a a) /\
  (forall a b, nest (sys_done y) a b -> level_le (ld_classes (sys_ld y)) a b).
Proof.
  intros Hrun Hcount. pose proof (ld_run_ok false ls _ (ld_start_ok false cpus)) as H. rewrite Hrun in H.
  specialize (H y eq_refl). split.
  - intros a Ha. apply (lo_acyclic _ _ H eq_refl) with a.
    + unfold few_edges. by rewrite <- (lo_count _ _ H).
    + by eapply tc_mono; [|exact Ha]; intros x z; apply H.
  - intros a b Hab. by apply (lo_levels _ _ H eq_refl), (lo_sub _ _ H), (lo_done _ _ H).
Qed.

(** In the warning mode the tracker never panics, and it cries wolf never: a
    reported cycle is a chain of nestings that were made, a reported level
    violation or mixed use in interrupts did happen. *)
Theorem lockdep_reports_real cpus ls :
  exists o, ld_run true (ld_start cpus) ls = Ret o /\
    forall y, o = Some y ->
      Forall (real (ld_class_count (sys_ld y)) (ld_classes (sys_ld y)) (sys_nested y)) (ld_reports (sys_ld y)).
Proof.
  pose proof (ld_run_ok true ls _ (ld_start_ok true cpus)) as H.
  destruct (ld_run true (ld_start cpus) ls) as [o|]; [|discriminate H].
  exists o. split; [done|]. intros y Hy. apply (lo_real true), H, Hy.
Qed.

(** ** Runs *)

Definition gs : Z := 0xFFFF800000000000.

(** Register [n] classes without levels, from key [k] on. *)
Definition registers (k : Z) (n : nat) : list ld_label :=
  (fun i => LdRegister (k + i) 0 0 "lock"%string SpinLock) <$> seqZ 0 (Z.of_nat n).

(** CPU [c] acquires a class with [n] locks held, none of the edges known. *)
Definition nest_on (c : nat) (class : Z) (n : nat) : list ld_label :=
  LdAcquire c class gs 1 false :: replicate (2 * n + 1) (LdStep c).

Definition unnest (c : nat) (classes : list Z) : list ld_label := (fun k => LdRelease c k gs 1) <$> classes.

(** Two CPUs nest three classes: 0 then 1 on one, 1 then 2 on the other. *)
Definition nest_chain : list ld_label :=
  registers 1 3 ++ nest_on 0 0 0 ++ nest_on 1 1 0 ++ nest_on 0 1 1 ++ nest_on 1 2 1 ++
  unnest 0 [1; 0] ++ unnest 1 [2; 1].

Definition sys_of (o : exec (option LdSys)) : option LdSys :=
  match o with Ret (Some y) => Some y | _ => None end.

Lemma nest_chain_run :
  exists y, ld_run false (ld_start 2) nest_chain = Ret (Some y) /\ sys_done y = [(0, 1); (1, 2)] /\
    ld_edge_count (sys_ld y) = 2.
Proof. eexists. split; [vm_compute; reflexivity|]. split; vm_compute; reflexivity. Defined.

Lemma lockdep_no_cycle_witness :
  exists y, ld_run false (ld_start 2) nest_chain = Ret (Some y) /\ sys_done y = [(0, 1); (1, 2)] /\
    (forall a, ~ tc (nest (sys_done y)) a a) /\
    ld_run false y (nest_on 0 2 0 ++ nest_on 0 0 1) = Panic.
Proof.
  destruct nest_chain_run as (y & Hrun & Hdone & Hcount). exists y. split_and!; [done|done| |].
  - apply (lockdep_no_cycle 2 nest_chain y Hrun). rewrite Hcount. unfold MAX_CLASSES. lia.
  - vm_compute in Hrun. injection Hrun as <-. vm_compute. reflexivity.
Defined.

(** A chain of 25 nested classes, from 0 over 24 down to 1. *)
Definition ladder : list Z := reverse (seqZ 1 24).

Definition deep_nesting : list ld_label :=
  registers 1 26 ++ nest_on 0 0 0 ++ concat (imap (fun i c => nest_on 0 c (S i)) ladder) ++
  unnest 0 (reverse ladder ++ [0]).

(** Then class 25 inside class 7, and class 0 inside class 25. *)
Definition hidden_cycle : list ld_label :=
  deep_nesting ++ nest_on 0 7 0 ++ nest_on 0 25 1 ++ unnest 0 [25; 7] ++ nest_on 0 25 0 ++ nest_on 0 0 1.

(** The bound is needed: the search drops neighbours when its stack is full,
    far below the documented 1024 edges.  A run with 26 classes and 302 edges
    ends in a cycle that is not found. *)
Theorem lockdep_misses_cycle :
  exists y, ld_run false (ld_start 1) hidden_cycle = Ret (Some y) /\
    ld_edge_count (sys_ld y) = 302 /\ tc (nest (sys_done y)) 0 0.
Proof.
  eexists. split; [vm_compute; reflexivity|]. split; [vm_compute; reflexivity|].
  assert (forall l a b, bool_decide ((a, b) ∈ l) = true -> nest l a b) as Hin
    by (intros l a b; apply bool_decide_eq_true).
  apply (tc_l _ 0 7); [|apply (tc_l _ 7 25); [|apply tc_once]]; apply Hin; vm_compute; reflexivity.
Qed.

(** A lock that is first taken in an interrupt handler and then outside is not
    reported, though both uses are recorded. *)
Theorem lockdep_irq_first_missed :
  exists y, ld_run true (ld_start 1)
      (registers 1 1 ++ [LdAcquire 0 0 gs 1 true; LdStep 0; LdRelease 0 0 gs 1;
                         LdAcquire 0 0 gs 1 false; LdStep 0]) = Ret (Some y) /\
    ce_irq_usage <$> (ld_classes (sys_ld y) !! 0%nat) = Some 3 /\ ld_reports (sys_ld y) = [].
Proof. eexists. split_and!; vm_compute; reflexivity. Qed.
