(* ===== verification/Mem.v ===== *)
(** * Byte-addressed memory

    The kernel reads and writes raw memory through the higher-half direct
    map, through heap pointers and through page-table frames.  [mem] is that
    memory, a byte for each virtual address; [load] and [store] are the
    little-endian accesses of [read_volatile], [write_volatile] and field
    assignment through a raw pointer, [write_bytes] and
    [copy_nonoverlapping] the functions of [core::ptr]. *)

From S2P Require Import Prelude.

Definition mem : Type := Z -> Z.

(** An [n]-byte little-endian read at [a]. *)
Fixpoint load (n : nat) (m : mem) (a : Z) : Z :=
  match n with
  | O => 0
  | S n' => m a mod 256 + 256 * load n' m (a + 1)
  end.

(** An [n]-byte little-endian write of [v] at [a]. *)
Definition store (n : nat) (m : mem) (a v : Z) : mem := fun x =>
  if (a <=? x) && (x <? a + Z.of_nat n) then v / 256 ^ (x - a) mod 256 else m x.

(** [core::ptr::write_bytes(a, v, n)]. *)
Definition write_bytes (m : mem) (a v n : Z) : mem := fun x =>
  if (a <=? x) && (x <? a + n) then v else m x.

(** [core::ptr::copy_nonoverlapping(src, dst, n)], [n] in bytes. *)
Definition copy_nonoverlapping (m : mem) (src dst n : Z) : mem := fun x =>
  if (dst <=? x) && (x <? dst + n) then m (src + (x - dst)) else m x.

Abbreviation load32 := (load 4).
Abbreviation store32 := (store 4).
Abbreviation load64 := (load 8).
Abbreviation store64 := (store 8).

(** [m'] differs from [m] at most inside [\[lo, hi)]. *)
Definition changed_only (lo hi : Z) (m m' : mem) : Prop :=
  forall x, ~ (lo <= x < hi) -> m' x = m x.

Lemma changed_only_refl lo hi m : changed_only lo hi m m.
Proof. done. Qed.

Lemma changed_only_trans lo hi m1 m2 m3 :
  changed_only lo hi m1 m2 -> changed_only lo hi m2 m3 -> changed_only lo hi m1 m3.
Proof. intros H1 H2 x Hx. by rewrite H2, H1. Qed.

Lemma changed_only_weaken lo hi lo' hi' m m' :
  lo' <= lo -> hi <= hi' -> changed_only lo hi m m' -> changed_only lo' hi' m m'.
Proof. intros ?? H x Hx. apply H. lia. Qed.

Lemma store_changed n m a v : changed_only a (a + Z.of_nat n) m (store n m a v).
Proof.
  intros x Hx. unfold store.
  destruct (Z.leb_spec a x), (Z.ltb_spec x (a + Z.of_nat n)); simpl; try done. lia.
Qed.

Lemma write_bytes_changed m a v n : changed_only a (a + n) m (write_bytes m a v n).
Proof.
  intros x Hx. unfold write_bytes.
  destruct (Z.leb_spec a x), (Z.ltb_spec x (a + n)); simpl; try done. lia.
Qed.

Lemma copy_changed m src dst n :
  changed_only dst (dst + n) m (copy_nonoverlapping m src dst n).
Proof.
  intros x Hx. unfold copy_nonoverlapping.
  destruct (Z.leb_spec dst x), (Z.ltb_spec x (dst + n)); simpl; try done. lia.
Qed.

Lemma load_range n m a : 0 <= load n m a < 256 ^ Z.of_nat n.
Proof.
  revert a. induction n as [|n IH]; intros a; simpl load; [simpl; lia|].
  specialize (IH (a + 1)). pose proof (Z.mod_pos_bound (m a) 256 ltac:(lia)).
  rewrite Nat2Z.inj_succ, Z.pow_succ_r by lia. lia.
Qed.

Lemma load64_u64 m a : is_u64 (load64 m a).
Proof. exact (load_range 8 m a). Qed.

Lemma load_ext n m m' a :
  (forall x, a <= x < a + Z.of_nat n -> m' x = m x) -> load n m' a = load n m a.
Proof.
  revert a. induction n as [|n IH]; intros a H; simpl; [done|].
  rewrite (H a), (IH (a + 1)); [done| |lia]. intros; apply H; lia.
Qed.

Lemma load_changed n lo hi m m' a :
  changed_only lo hi m m' -> a + Z.of_nat n <= lo \/ hi <= a ->
  load n m' a = load n m a.
Proof. intros H Hd. apply load_ext. intros x Hx. apply H. lia. Qed.

Lemma load_store_ne n k m a b v :
  a + Z.of_nat n <= b \/ b + Z.of_nat k <= a ->
  load n (store k m b v) a = load n m a.
Proof. intros. eapply load_changed; [apply store_changed|lia]. Qed.

Lemma load_write_bytes_ne n m a b v k :
  a + Z.of_nat n <= b \/ b + k <= a ->
  load n (write_bytes m b v k) a = load n m a.
Proof. intros. eapply load_changed; [apply write_bytes_changed|lia]. Qed.

Lemma load_digits n m a v :
  (forall i, 0 <= i < Z.of_nat n -> m (a + i) = v / 256 ^ i mod 256) ->
  load n m a = v mod 256 ^ Z.of_nat n.
Proof.
  revert a v. induction n as [|n IH]; intros a v H.
  - simpl. by rewrite Z.mod_1_r.
  - simpl load. rewrite <- (Z.add_0_r a) at 1. rewrite H by lia.
    rewrite Z.pow_0_r, Z.div_1_r, Z.mod_mod by lia.
    rewrite (IH (a + 1) (v / 256)).
    + rewrite Nat2Z.inj_succ, Z.pow_succ_r by lia.
      rewrite Z.rem_mul_r by (try apply Z.pow_pos_nonneg; lia). lia.
    + intros i Hi. rewrite <- Z.add_assoc, H by lia.
      rewrite Z.add_1_l, Z.pow_succ_r by lia. rewrite Z.div_div by lia. done.
Qed.

Lemma load_store_mod n m a v : load n (store n m a v) a = v mod 256 ^ Z.of_nat n.
Proof.
  apply load_digits. intros i Hi. unfold store.
  rewrite (proj2 (Z.leb_le _ _)), (proj2 (Z.ltb_lt _ _)) by lia. simpl.
  by replace (a + i - a) with i by lia.
Qed.

Lemma load_store_eq n m a v :
  0 <= v < 256 ^ Z.of_nat n -> load n (store n m a v) a = v.
Proof. intros Hv. rewrite load_store_mod. by apply Z.mod_small. Qed.

Lemma load64_store64_eq m a v : is_u64 v -> load64 (store64 m a v) a = v.
Proof. intros Hv. apply load_store_eq. exact Hv. Qed.

Lemma load_zeroed n m a b k :
  b <= a -> a + Z.of_nat n <= b + k -> load n (write_bytes m b 0 k) a = 0.
Proof.
  intros H1 H2. rewrite (load_digits n _ a 0); [by apply Zmod_0_l|].
  intros i Hi. unfold write_bytes.
  rewrite (proj2 (Z.leb_le _ _)), (proj2 (Z.ltb_lt _ _)) by lia. simpl.
  by rewrite Zdiv_0_l.
Qed.

Lemma load_copy n m src dst k a :
  dst <= a -> a + Z.of_nat n <= dst + k ->
  load n (copy_nonoverlapping m src dst k) a = load n m (src + (a - dst)).
Proof.
  revert a. induction n as [|n IH]; intros a H1 H2; simpl; [done|].
  rewrite IH by lia. unfold copy_nonoverlapping at 1.
  rewrite (proj2 (Z.leb_le _ _)), (proj2 (Z.ltb_lt _ _)) by lia. simpl.
  by replace (src + (a + 1 - dst)) with (src + (a - dst) + 1) by lia.
Qed.

Lemma load_inj n m m' a :
  load n m a = load n m' a ->
  forall x, a <= x < a + Z.of_nat n -> m x mod 256 = m' x mod 256.
Proof.
  revert a. induction n as [|n IH]; intros a E x Hx; [lia|]. cbn [load] in E.
  pose proof (Z.mod_pos_bound (m a) 256 ltac:(lia)). pose proof (Z.mod_pos_bound (m' a) 256 ltac:(lia)).
  destruct (decide (x = a)) as [->|]; [lia|]. apply (IH (a + 1)); lia.
Qed.

#[global] Arguments load : simpl never.

Lemma load1 m a : load 1 m a = m a mod 256.
Proof. unfold load. lia. Qed.
