(* ===== verification/Addr.v ===== *)
(** * Typed addresses (kernel/core/src/addr.rs) and the direct map
    (kernel/mm/src/hhdm.rs)

    [VirtAddr] and [PhysAddr] are transparent newtypes over [u64]; here both
    are [Z].  The definitions follow the constructors, the alignment
    functions, the page-table index functions and the operator impls. *)

From S2P Require Import Prelude.

Abbreviation VirtAddr := Z (only parsing).
Abbreviation PhysAddr := Z (only parsing).

Definition PHYS_ADDR_MASK : Z := 0x000FFFFFFFFFFFFF.
Definition PAGE_OFFSET_MASK : Z := 0xFFF.

(** [u64::is_power_of_two]. *)
Definition is_power_of_two (x : Z) : bool := (0 <? x) && (Z.land x (x - 1) =? 0).

(** ** PageTableIndex *)

Definition PageTableIndex_new (index : Z) : exec Z :=
  _ ← assert (index <? 512); Ret index.

Definition PageTableIndex_new_truncate (index : Z) : Z := Z.land index 0x1FF.

(** ** VirtAddr *)

Definition VirtAddr_new_truncate (addr : Z) : VirtAddr :=
  Z.shiftr (as_i64 (shl64 addr 16)) 16 mod U64.

Definition VirtAddr_new (addr : Z) : exec VirtAddr :=
  let canonical := VirtAddr_new_truncate addr in
  _ ← assert (canonical =? addr);
  Ret canonical.

Definition VirtAddr_is_aligned (self : VirtAddr) (align : Z) : exec bool :=
  _ ← assert (is_power_of_two align);
  m ← sub64 align 1;
  Ret (Z.land self m =? 0).

Definition VirtAddr_align_down (self : VirtAddr) (align : Z) : exec VirtAddr :=
  _ ← assert (is_power_of_two align);
  m ← sub64 align 1;
  Ret (VirtAddr_new_truncate (Z.land self (not64 m))).

Definition VirtAddr_align_up (self : VirtAddr) (align : Z) : exec VirtAddr :=
  _ ← assert (is_power_of_two align);
  s ← add64 self align;
  s1 ← sub64 s 1;
  m ← sub64 align 1;
  Ret (VirtAddr_new_truncate (Z.land s1 (not64 m))).

Definition VirtAddr_page_offset (self : VirtAddr) : Z := Z.land self PAGE_OFFSET_MASK.

(** [x as u16]. *)
Definition as_u16 (x : Z) : Z := x mod 2 ^ 16.

Definition VirtAddr_pml4_index (self : VirtAddr) : Z :=
  PageTableIndex_new_truncate (as_u16 (Z.shiftr self 39)).

Definition VirtAddr_pdpt_index (self : VirtAddr) : Z :=
  PageTableIndex_new_truncate (as_u16 (Z.shiftr self 30)).

Definition VirtAddr_pd_index (self : VirtAddr) : Z :=
  PageTableIndex_new_truncate (as_u16 (Z.shiftr self 21)).

Definition VirtAddr_pt_index (self : VirtAddr) : Z :=
  PageTableIndex_new_truncate (as_u16 (Z.shiftr self 12)).

Definition VirtAddr_add (self : VirtAddr) (rhs : Z) : VirtAddr :=
  VirtAddr_new_truncate (wrapping_add64 self rhs).

Definition VirtAddr_sub (self : VirtAddr) (rhs : Z) : VirtAddr :=
  VirtAddr_new_truncate (wrapping_sub64 self rhs).

Definition VirtAddr_diff (self rhs : VirtAddr) : Z := wrapping_sub64 self rhs.

(** ** PhysAddr *)

Definition PhysAddr_new (addr : Z) : exec PhysAddr :=
  let masked := Z.land addr PHYS_ADDR_MASK in
  _ ← assert (masked =? addr);
  Ret masked.

Definition PhysAddr_new_truncate (addr : Z) : PhysAddr := Z.land addr PHYS_ADDR_MASK.

Definition PhysAddr_is_aligned (self : PhysAddr) (align : Z) : exec bool :=
  _ ← assert (is_power_of_two align);
  m ← sub64 align 1;
  Ret (Z.land self m =? 0).

Definition PhysAddr_align_down (self : PhysAddr) (align : Z) : exec PhysAddr :=
  _ ← assert (is_power_of_two align);
  m ← sub64 align 1;
  Ret (Z.land self (not64 m)).

Definition PhysAddr_align_up (self : PhysAddr) (align : Z) : exec PhysAddr :=
  _ ← assert (is_power_of_two align);
  s ← add64 self align;
  s1 ← sub64 s 1;
  m ← sub64 align 1;
  Ret (Z.land s1 (not64 m)).

Definition PhysAddr_add (self : PhysAddr) (rhs : Z) : exec PhysAddr :=
  s ← add64 self rhs; PhysAddr_new s.

Definition PhysAddr_sub (self : PhysAddr) (rhs : Z) : exec PhysAddr :=
  s ← sub64 self rhs; PhysAddr_new s.

Definition PhysAddr_diff (self rhs : PhysAddr) : exec Z := sub64 self rhs.

(** ** The direct map: a global offset, set once *)

Definition HHDM_UNINIT : Z := U64 - 1.

(** [hhdm::init]: a compare-and-exchange from the sentinel. *)
Definition hhdm_init (HHDM_OFFSET : Z) (offset : VirtAddr) : exec Z :=
  let ok := HHDM_OFFSET =? HHDM_UNINIT in
  _ ← assert ok; Ret offset.

Definition hhdm_offset (HHDM_OFFSET : Z) : exec VirtAddr :=
  _ ← assert (negb (HHDM_OFFSET =? HHDM_UNINIT));
  Ret (VirtAddr_new_truncate HHDM_OFFSET).

Definition hhdm_phys_to_virt (HHDM_OFFSET : Z) (phys : PhysAddr) : exec VirtAddr :=
  _ ← assert (negb (HHDM_OFFSET =? HHDM_UNINIT));
  s ← add64 phys HHDM_OFFSET;
  Ret (VirtAddr_new_truncate s).

Definition hhdm_virt_to_phys (HHDM_OFFSET : Z) (virt : VirtAddr) : exec PhysAddr :=
  _ ← assert (HHDM_OFFSET <=? virt);
  s ← sub64 virt HHDM_OFFSET;
  PhysAddr_new s.

(** ** Facts *)

(** The addresses the CPU accepts: bits 48..63 repeat bit 47. *)
Definition canonical (a : Z) : Prop := 0 <= a < 2 ^ 47 \/ U64 - 2 ^ 47 <= a < U64.

Definition is_phys (a : Z) : Prop := 0 <= a < 2 ^ 52.

#[export] Instance canonical_dec a : Decision (canonical a).
Proof. unfold canonical. apply _. Defined.

Lemma canonical_u64 a : canonical a -> is_u64 a.
Proof. unfold canonical. ulia. Qed.

Lemma new_truncate_eq a :
  VirtAddr_new_truncate a =
  (if a mod 2 ^ 48 <? 2 ^ 47 then a mod 2 ^ 48 else a mod 2 ^ 48 + (U64 - 2 ^ 48)).
Proof.
  unfold VirtAddr_new_truncate, shl64, as_i64. rewrite Z.shiftl_mul_pow2 by lia.
  change U64 with (2 ^ 48 * 2 ^ 16). rewrite Z.mul_mod_distr_r by lia.
  pose proof (Z.mod_pos_bound a (2 ^ 48) ltac:(lia)).
  set (l := a mod 2 ^ 48) in *. rewrite Z.shiftr_div_pow2 by lia.
  destruct (Z.ltb_spec (l * 2 ^ 16) (2 ^ 63)), (Z.ltb_spec l (2 ^ 47)); try lia.
  - rewrite Z.div_mul, Z.mod_small by lia. done.
  - replace (l * 2 ^ 16 - 2 ^ 48 * 2 ^ 16) with ((l - 2 ^ 48) * 2 ^ 16) by lia.
    rewrite Z.div_mul by lia. symmetry. apply Z.mod_unique with (-1); lia.
Qed.

Lemma new_truncate_canonical a : canonical (VirtAddr_new_truncate a).
Proof.
  rewrite new_truncate_eq. pose proof (Z.mod_pos_bound a (2 ^ 48) ltac:(lia)).
  unfold canonical, U64. destruct (Z.ltb_spec (a mod 2 ^ 48) (2 ^ 47)); lia.
Qed.

Lemma new_truncate_id a : canonical a -> VirtAddr_new_truncate a = a.
Proof.
  intros Ha. rewrite new_truncate_eq. unfold canonical, U64 in *. destruct Ha.
  - rewrite (Z.mod_small a) by lia. destruct (Z.ltb_spec a (2 ^ 47)); lia.
  - replace (a mod 2 ^ 48) with (a - (2 ^ 64 - 2 ^ 48)).
    + destruct (Z.ltb_spec (a - (2 ^ 64 - 2 ^ 48)) (2 ^ 47)); lia.
    + apply Z.mod_unique with (2 ^ 16 - 1); lia.
Qed.

Lemma new_truncate_mod a b :
  a mod 2 ^ 48 = b mod 2 ^ 48 -> VirtAddr_new_truncate a = VirtAddr_new_truncate b.
Proof. intros H. by rewrite !new_truncate_eq, H. Qed.

Lemma is_power_of_two_pow k : 0 <= k -> is_power_of_two (2 ^ k) = true.
Proof.
  intros Hk. unfold is_power_of_two. rewrite land_mask, Z.mod_same by lia.
  rewrite (proj2 (Z.ltb_lt _ _)) by lia. done.
Qed.

Lemma PageTableIndex_truncate_eq x :
  0 <= x -> PageTableIndex_new_truncate x = x mod 512.
Proof. intros. unfold PageTableIndex_new_truncate. apply (land_mask x 9). lia. Qed.

Lemma index_eq a k :
  0 <= a -> 0 <= k -> PageTableIndex_new_truncate (as_u16 (Z.shiftr a k)) = a / 2 ^ k mod 512.
Proof.
  intros Ha Hk. unfold as_u16. rewrite Z.shiftr_div_pow2 by done.
  rewrite PageTableIndex_truncate_eq by (apply Z.mod_pos_bound; lia).
  apply Z.mod_mod_divide. by exists (2 ^ 7).
Qed.

Lemma pml4_index_eq a : 0 <= a -> VirtAddr_pml4_index a = a / 2 ^ 39 mod 512.
Proof. intros. by apply index_eq. Qed.
Lemma pdpt_index_eq a : 0 <= a -> VirtAddr_pdpt_index a = a / 2 ^ 30 mod 512.
Proof. intros. by apply index_eq. Qed.
Lemma pd_index_eq a : 0 <= a -> VirtAddr_pd_index a = a / 2 ^ 21 mod 512.
Proof. intros. by apply index_eq. Qed.
Lemma pt_index_eq a : 0 <= a -> VirtAddr_pt_index a = a / 2 ^ 12 mod 512.
Proof. intros. by apply index_eq. Qed.
Lemma page_offset_eq a : VirtAddr_page_offset a = a mod 2 ^ 12.
Proof. apply (land_mask a 12). lia. Qed.

Lemma phys_mask_id a : is_phys a -> Z.land a PHYS_ADDR_MASK = a.
Proof.
  intros Ha. change PHYS_ADDR_MASK with (2 ^ 52 - 1).
  rewrite land_mask by lia. by apply Z.mod_small.
Qed.

Lemma wp_PhysAddr_new a (Q : Z -> Prop) : is_phys a -> Q a -> wp (PhysAddr_new a) Q.
Proof.
  intros Ha HQ. unfold PhysAddr_new. rewrite phys_mask_id by done.
  wp_steps. done.
Qed.

Lemma wp_PhysAddr_add a b (Q : Z -> Prop) :
  is_phys (a + b) -> Q (a + b) -> wp (PhysAddr_add a b) Q.
Proof.
  intros Ha HQ. unfold PhysAddr_add. wp_steps; [unfold is_phys in *; ulia|].
  by apply wp_PhysAddr_new.
Qed.

Lemma wp_phys_to_virt off phys (Q : Z -> Prop) :
  0 <= off < HHDM_UNINIT -> canonical (off + phys) -> Q (off + phys) ->
  wp (hhdm_phys_to_virt off phys) Q.
Proof.
  intros Ho Hc HQ. pose proof (canonical_u64 _ Hc) as Hu. unfold HHDM_UNINIT in *.
  unfold hhdm_phys_to_virt, HHDM_UNINIT. wp_steps.
  rewrite Z.add_comm, new_truncate_id; done.
Qed.

Lemma wp_virt_to_phys off phys (Q : Z -> Prop) :
  is_phys phys -> Q phys -> wp (hhdm_virt_to_phys off (off + phys)) Q.
Proof.
  intros Hp HQ. assert (0 <= phys) by (unfold is_phys in *; lia).
  unfold hhdm_virt_to_phys. wp_steps.
  replace (off + phys - off) with phys by lia. by apply wp_PhysAddr_new.
Qed.

(** ** Rounding to a power of two *)

Section Align.
Context (k : Z) (Hk : 0 <= k <= 47).

Lemma pow2_bounds : 0 < 2 ^ k <= 2 ^ 47.
Proof using Hk. split; [lia|]. apply Z.pow_le_mono_r; lia. Qed.

Lemma round_down_canonical a : canonical a -> canonical (2 ^ k * (a / 2 ^ k)).
Proof using Hk.
  pose proof pow2_bounds. intros [Ha|Ha].
  - left. pose proof (Z.mul_div_le a (2 ^ k) ltac:(lia)).
    pose proof (Z.div_pos a (2 ^ k)). lia.
  - right. pose proof (Z.mul_div_le a (2 ^ k) ltac:(lia)). split; [|lia].
    replace (U64 - 2 ^ 47) with (2 ^ k * (2 ^ (64 - k) - 2 ^ (47 - k))).
    + apply Z.mul_le_mono_nonneg_l; [lia|]. apply Z.div_le_lower_bound; [lia|].
      rewrite Z.mul_sub_distr_l, <- !Z.pow_add_r by lia.
      replace (k + (64 - k)) with 64 by lia. replace (k + (47 - k)) with 47 by lia.
      unfold U64 in Ha. lia.
    + rewrite Z.mul_sub_distr_l, <- !Z.pow_add_r by lia. unfold U64. do 2 f_equal; lia.
Qed.

Lemma wp_VirtAddr_align_down a (Q : Z -> Prop) :
  canonical a -> Q (2 ^ k * (a / 2 ^ k)) -> wp (VirtAddr_align_down a (2 ^ k)) Q.
Proof using Hk.
  intros Ha HQ. pose proof pow2_bounds. unfold VirtAddr_align_down.
  wp_steps; [by apply is_power_of_two_pow; lia|].
  rewrite land_not_mask by (first [by apply canonical_u64 | lia]).
  rewrite new_truncate_id; [done|by apply round_down_canonical].
Qed.

Lemma wp_PhysAddr_align_down a (Q : Z -> Prop) :
  is_phys a -> Q (2 ^ k * (a / 2 ^ k)) -> wp (PhysAddr_align_down a (2 ^ k)) Q.
Proof using Hk.
  intros Ha HQ. pose proof pow2_bounds. unfold PhysAddr_align_down.
  wp_steps; [by apply is_power_of_two_pow; lia|].
  rewrite land_not_mask by (unfold is_phys in *; ulia). done.
Qed.

Lemma wp_VirtAddr_is_aligned a (Q : bool -> Prop) :
  Q (a mod 2 ^ k =? 0) -> wp (VirtAddr_is_aligned a (2 ^ k)) Q.
Proof using Hk.
  intros HQ. pose proof pow2_bounds. unfold VirtAddr_is_aligned.
  wp_steps; [by apply is_power_of_two_pow; lia|]. by rewrite land_mask by lia.
Qed.

Lemma wp_PhysAddr_is_aligned a (Q : bool -> Prop) :
  Q (a mod 2 ^ k =? 0) -> wp (PhysAddr_is_aligned a (2 ^ k)) Q.
Proof using Hk. exact (wp_VirtAddr_is_aligned a Q). Qed.

(** Rounding up, in the half of the address space where it stays. *)
Lemma wp_align_up_core a :
  is_u64 a -> a + 2 ^ k < U64 ->
  let r := Z.land (a + 2 ^ k - 1) (not64 (2 ^ k - 1)) in
  a <= r < a + 2 ^ k /\ r mod 2 ^ k = 0.
Proof using Hk.
  intros Ha Hb. pose proof pow2_bounds. cbv zeta.
  rewrite land_not_mask by (try lia; ulia).
  pose proof (Z.div_mod (a + 2 ^ k - 1) (2 ^ k) ltac:(lia)).
  pose proof (Z.mod_pos_bound (a + 2 ^ k - 1) (2 ^ k) ltac:(lia)).
  split; [lia|]. by rewrite Z.mul_comm, Z.mod_mul by lia.
Qed.
End Align.

(** ** Properties *)

(** The page-table walk sees the whole address: a canonical address is
    rebuilt from its four table indices and its page offset, so two
    addresses with the same indices and offset are equal. *)
Theorem virt_index_roundtrip (a : VirtAddr) :
  canonical a ->
  VirtAddr_new_truncate
    (VirtAddr_pml4_index a * 2 ^ 39 + VirtAddr_pdpt_index a * 2 ^ 30 +
     VirtAddr_pd_index a * 2 ^ 21 + VirtAddr_pt_index a * 2 ^ 12 +
     VirtAddr_page_offset a) = a /\
  0 <= VirtAddr_pml4_index a < 512 /\ 0 <= VirtAddr_pdpt_index a < 512 /\
  0 <= VirtAddr_pd_index a < 512 /\ 0 <= VirtAddr_pt_index a < 512.
Proof.
  intros Ha. pose proof (canonical_u64 a Ha) as Hu.
  rewrite pml4_index_eq, pdpt_index_eq, pd_index_eq, pt_index_eq, page_offset_eq by ulia.
  split; [|repeat split; apply Z.mod_pos_bound; lia].
  rewrite <- (new_truncate_id a) at 6 by done. apply new_truncate_mod.
  unfold canonical, U64 in *. Z.to_euclidean_division_equations. lia.
Qed.

Lemma virt_index_roundtrip_witness :
  canonical 0xFFFF800000ABC123 /\
  VirtAddr_pml4_index 0xFFFF800000ABC123 = 256 /\
  0 <= VirtAddr_pml4_index 0xFFFF800000ABC123 < 512.
Proof.
  assert (canonical 0xFFFF800000ABC123) as H by (right; unfold U64; lia).
  split; [exact H|]. split; [reflexivity|].
  apply (virt_index_roundtrip 0xFFFF800000ABC123 H).
Defined.

(** The direct map is a bijection on the memory it covers: once the offset is
    installed, every physical address below [size] translates to a canonical
    virtual address and back to itself, without a panic, and the two
    translations are inverse. *)
Theorem hhdm_roundtrip (off size phys : Z) :
  U64 - 2 ^ 47 <= off -> off + size < U64 -> size <= 2 ^ 52 -> 0 <= phys < size ->
  exists st v : Z,
    hhdm_init HHDM_UNINIT off = Ret st /\
    hhdm_phys_to_virt st phys = Ret v /\ v = off + phys /\ canonical v /\
    hhdm_virt_to_phys st v = Ret phys.
Proof.
  intros Hoff Hsz Hmax Hp. exists off, (off + phys).
  assert (canonical (off + phys)) as Hc by (right; ulia).
  repeat split; [..|done|].
  - apply wp_eq, wp_phys_to_virt; [unfold HHDM_UNINIT; ulia|done|done].
  - apply wp_eq, wp_virt_to_phys; [unfold is_phys; lia|done].
Qed.

Lemma hhdm_roundtrip_witness :
  exists st v : Z,
    hhdm_init HHDM_UNINIT 0xFFFF800000000000 = Ret st /\
    hhdm_phys_to_virt st 0x1234 = Ret v /\ v = 0xFFFF800000000000 + 0x1234 /\ canonical v /\
    hhdm_virt_to_phys st v = Ret 0x1234.
Proof.
  apply (hhdm_roundtrip 0xFFFF800000000000 0x40000000 0x1234); unfold U64; lia.
Defined.

(** ** The address types

    Expressions built with the operations of the two types.  The constructors
    that do not check their argument are the truncating ones. *)
Inductive virt_expr : Type :=
| VNew (x : Z)
| VTruncate (x : Z)
| VDown (e : virt_expr) (align : Z)
| VUp (e : virt_expr) (align : Z)
| VAdd (e : virt_expr) (n : Z)
| VSub (e : virt_expr) (n : Z).

Fixpoint virt_eval (e : virt_expr) : exec VirtAddr :=
  match e with
  | VNew x => VirtAddr_new x
  | VTruncate x => Ret (VirtAddr_new_truncate x)
  | VDown e align => v ← virt_eval e; VirtAddr_align_down v align
  | VUp e align => v ← virt_eval e; VirtAddr_align_up v align
  | VAdd e n => v ← virt_eval e; Ret (VirtAddr_add v n)
  | VSub e n => v ← virt_eval e; Ret (VirtAddr_sub v n)
  end.

Inductive phys_expr : Type :=
| PNew (x : Z)
| PTruncate (x : Z)
| PDown (e : phys_expr) (align : Z)
| PAdd (e : phys_expr) (n : Z)
| PSub (e : phys_expr) (n : Z).

Fixpoint phys_eval (e : phys_expr) : exec PhysAddr :=
  match e with
  | PNew x => PhysAddr_new x
  | PTruncate x => Ret (PhysAddr_new_truncate x)
  | PDown e align => p ← phys_eval e; PhysAddr_align_down p align
  | PAdd e n => p ← phys_eval e; PhysAddr_add p n
  | PSub e n => p ← phys_eval e; PhysAddr_sub p n
  end.

Lemma phys_land x y : 0 <= y < 2 ^ 52 -> is_phys (Z.land x y).
Proof.
  intros Hy. unfold is_phys. split; [apply Z.land_nonneg; lia|].
  apply (bits_bound (Z.land x y) 52); [lia|apply Z.land_nonneg; lia|].
  intros i Hi. rewrite Z.land_spec, (testbit_high y 52 i), andb_false_r by lia. done.
Qed.

Lemma phys_new_is_phys x p : PhysAddr_new x = Ret p -> is_phys p.
Proof.
  unfold PhysAddr_new. intros (_ & _ & H)%bind_Ret_inv. injection H as <-.
  apply phys_land. unfold PHYS_ADDR_MASK. lia.
Qed.

(** C33: The address types are sound: however an address is computed, a value of
    type [VirtAddr] is canonical, and a value of type [PhysAddr] computed
    without [align_up] has at most 52 bits. *)
Theorem addr_types_sound :
  (forall e v, virt_eval e = Ret v -> canonical v) /\
  (forall e p, phys_eval e = Ret p -> is_phys p).
Proof.
  split.
  - intros e v. destruct e; simpl; unfold VirtAddr_new, VirtAddr_align_down, VirtAddr_align_up, VirtAddr_add, VirtAddr_sub;
      repeat (first [intros (? & _ & H)%bind_Ret_inv; revert H|intros [= <-]]); apply new_truncate_canonical.
  - intros e. induction e as [x|x|e IH al|e IH n|e IH n]; intros p; simpl.
    + apply phys_new_is_phys.
    + intros [= <-]. apply phys_land. unfold PHYS_ADDR_MASK. lia.
    + intros (q & Hq%IH & H)%bind_Ret_inv. revert H. unfold PhysAddr_align_down.
      intros (_ & _ & H)%bind_Ret_inv. revert H. intros (k & _ & [= <-])%bind_Ret_inv.
      rewrite Z.land_comm. by apply phys_land.
    + intros (q & _ & H)%bind_Ret_inv. revert H. intros (s & _ & H)%bind_Ret_inv. by eapply phys_new_is_phys.
    + intros (q & _ & H)%bind_Ret_inv. revert H. intros (s & _ & H)%bind_Ret_inv. by eapply phys_new_is_phys.
Qed.

(** [PhysAddr::align_up] leaves the type: it rounds the last page up to
    2^52, which no other operation would accept. *)
Theorem phys_align_up_escapes :
  PhysAddr_align_up 0xFFFFFFFFFFFFF 4096 = Ret (2 ^ 52) /\ ~ is_phys (2 ^ 52) /\ PhysAddr_new (2 ^ 52) = Panic.
Proof. split; [reflexivity|]. split; [unfold is_phys; lia|reflexivity]. Qed.
