(* ===== verification/Paging.v ===== *)
(** * Pages, frames and page ranges (kernel/core/src/paging.rs)

    A [Page<S>] or a [PhysFrame<S>] is its start address; the page size [S]
    is the type parameter of the source, here an argument. *)

From S2P Require Import Prelude Addr.

Inductive PageSize : Type := Size4KiB | Size2MiB | Size1GiB.

#[export] Instance PageSize_eq_dec : EqDecision PageSize.
Proof. solve_decision. Defined.

Definition SIZE (S : PageSize) : Z :=
  match S with
  | Size4KiB => 4096
  | Size2MiB => 0x200000
  | Size1GiB => 0x40000000
  end.

Inductive AddressNotAligned : Type := NotAligned.

(** ** Page *)

Definition Page_containing_address (S : PageSize) (addr : VirtAddr) : exec Z :=
  VirtAddr_align_down addr (SIZE S).

Definition Page_from_start_address (S : PageSize) (addr : VirtAddr)
  : exec (result Z AddressNotAligned) :=
  a ← VirtAddr_is_aligned addr (SIZE S);
  if negb a then Ret (Err NotAligned) else Ret (Ok addr).

Definition Page_add (S : PageSize) (self rhs : Z) : exec Z :=
  d ← mul64 rhs (SIZE S);
  Page_containing_address S (VirtAddr_add self d).

Definition Page_sub (S : PageSize) (self rhs : Z) : exec Z :=
  d ← mul64 rhs (SIZE S);
  Page_containing_address S (VirtAddr_sub self d).

(** ** PhysFrame *)

Definition PhysFrame_containing_address (S : PageSize) (addr : PhysAddr) : exec Z :=
  PhysAddr_align_down addr (SIZE S).

Definition PhysFrame_from_start_address (S : PageSize) (addr : PhysAddr)
  : exec (result Z AddressNotAligned) :=
  a ← PhysAddr_is_aligned addr (SIZE S);
  if negb a then Ret (Err NotAligned) else Ret (Ok addr).

Definition PhysFrame_add (S : PageSize) (self rhs : Z) : exec Z :=
  d ← mul64 rhs (SIZE S);
  a ← PhysAddr_add self d;
  PhysFrame_containing_address S a.

Definition PhysFrame_sub (S : PageSize) (self rhs : Z) : exec Z :=
  d ← mul64 rhs (SIZE S);
  a ← PhysAddr_sub self d;
  PhysFrame_containing_address S a.

(** ** Range iterators *)

Record PageRange : Type := mkPageRange { pr_start : Z; pr_end : Z }.

Definition PageRange_next (S : PageSize) (self : PageRange) : exec (PageRange * option Z) :=
  if pr_start self <? pr_end self then
    let page := pr_start self in
    start ← Page_add S (pr_start self) 1;
    Ret (mkPageRange start (pr_end self), Some page)
  else Ret (self, None).

Definition PhysFrameRange_next (S : PageSize) (self : PageRange)
  : exec (PageRange * option Z) :=
  if pr_start self <? pr_end self then
    let frame := pr_start self in
    start ← PhysFrame_add S (pr_start self) 1;
    Ret (mkPageRange start (pr_end self), Some frame)
  else Ret (self, None).

(** Draining an iterator: [None] when [fuel] calls of [next] do not reach
    its end. *)
Fixpoint collect (next : PageRange -> exec (PageRange * option Z)) (fuel : nat)
    (r : PageRange) : exec (option (list Z)) :=
  match fuel with
  | O => Ret None
  | S fuel' =>
      x ← next r;
      match x with
      | (_, None) => Ret (Some [])
      | (r', Some p) =>
          ps ← collect next fuel' r';
          Ret (option_map (cons p) ps)
      end
  end.

(** ** Facts *)

Definition size_log2 (S : PageSize) : Z :=
  match S with Size4KiB => 12 | Size2MiB => 21 | Size1GiB => 30 end.

Lemma SIZE_pow2 S : SIZE S = 2 ^ size_log2 S.
Proof. by destruct S. Qed.

Lemma size_log2_bounds S : 12 <= size_log2 S <= 30.
Proof. destruct S; simpl; lia. Qed.

Lemma SIZE_bounds S : 4096 <= SIZE S <= 2 ^ 30.
Proof. destruct S; simpl; lia. Qed.

Lemma wp_Page_containing_address S a (Q : Z -> Prop) :
  canonical a -> Q (SIZE S * (a / SIZE S)) -> wp (Page_containing_address S a) Q.
Proof.
  intros Ha HQ. unfold Page_containing_address. rewrite SIZE_pow2 in *.
  pose proof (size_log2_bounds S). apply wp_VirtAddr_align_down; [lia|done|done].
Qed.

Lemma wp_PhysFrame_containing_address S a (Q : Z -> Prop) :
  is_phys a -> Q (SIZE S * (a / SIZE S)) -> wp (PhysFrame_containing_address S a) Q.
Proof.
  intros Ha HQ. unfold PhysFrame_containing_address. rewrite SIZE_pow2 in *.
  pose proof (size_log2_bounds S). apply wp_PhysAddr_align_down; [lia|done|done].
Qed.

Lemma aligned_round a b : 0 < b -> a mod b = 0 -> b * (a / b) = a.
Proof. intros Hb Ha. symmetry. apply Z.div_exact; [lia|done]. Qed.

Lemma wp_Page_containing_aligned S a (Q : Z -> Prop) :
  canonical a -> a mod SIZE S = 0 -> Q a -> wp (Page_containing_address S a) Q.
Proof.
  intros Ha Hal HQ. pose proof (SIZE_bounds S).
  apply wp_Page_containing_address; [done|]. by rewrite aligned_round by lia.
Qed.

Lemma wp_PhysFrame_containing_aligned S a (Q : Z -> Prop) :
  is_phys a -> a mod SIZE S = 0 -> Q a -> wp (PhysFrame_containing_address S a) Q.
Proof.
  intros Ha Hal HQ. pose proof (SIZE_bounds S).
  apply wp_PhysFrame_containing_address; [done|]. by rewrite aligned_round by lia.
Qed.

Lemma VirtAddr_add_canonical a b : canonical (a + b) -> VirtAddr_add a b = a + b.
Proof.
  intros H. unfold VirtAddr_add, wrapping_add64.
  rewrite Z.mod_small by exact (canonical_u64 _ H). by apply new_truncate_id.
Qed.

Lemma mod_add_same a b : 0 < b -> (a + b) mod b = a mod b.
Proof. intros. rewrite <- (Z.mul_1_l b) at 1. by apply Z.mod_add; lia. Qed.

Lemma wp_Page_add_1 S a (Q : Z -> Prop) :
  canonical (a + SIZE S) -> a mod SIZE S = 0 -> Q (a + SIZE S) -> wp (Page_add S a 1) Q.
Proof.
  intros Hc Hal HQ. pose proof (SIZE_bounds S). unfold Page_add. wp_steps.
  rewrite Z.mul_1_l, VirtAddr_add_canonical by done.
  apply wp_Page_containing_aligned; [done| |done]. by rewrite mod_add_same by lia.
Qed.

Lemma wp_PhysFrame_add_1 S a (Q : Z -> Prop) :
  is_phys (a + SIZE S) -> a mod SIZE S = 0 -> Q (a + SIZE S) -> wp (PhysFrame_add S a 1) Q.
Proof.
  intros Hc Hal HQ. pose proof (SIZE_bounds S). unfold PhysFrame_add. wp_steps.
  rewrite Z.mul_1_l. apply wp_PhysAddr_add; [done|].
  apply wp_PhysFrame_containing_aligned; [done| |done]. by rewrite mod_add_same by lia.
Qed.

Section Collect.
Context (S : PageSize) (ok : Z -> Prop).
Context (next : PageRange -> exec (PageRange * option Z)).
(** One call of [next] on a non-empty, aligned range. *)
Context (Hnext : forall a e (Q : PageRange * option Z -> Prop),
  a < e -> a mod SIZE S = 0 -> ok (a + SIZE S) ->
  Q (mkPageRange (a + SIZE S) e, Some a) -> wp (next (mkPageRange a e)) Q).
Context (Hend : forall a, next (mkPageRange a a) = Ret (mkPageRange a a, None)).

Lemma collect_spec n a :
  a mod SIZE S = 0 ->
  (forall i, 0 < i <= Z.of_nat n -> ok (a + i * SIZE S)) ->
  collect next (Datatypes.S n) (mkPageRange a (a + Z.of_nat n * SIZE S)) =
  Ret (Some (map (fun i => a + i * SIZE S) (seqZ 0 (Z.of_nat n)))).
Proof using Hend Hnext.
  pose proof (SIZE_bounds S). revert a. induction n as [|n IH]; intros a Hal Hok.
  - simpl. by rewrite Z.add_0_r, Hend.
  - remember (Datatypes.S n) as m eqn:Hm. simpl collect. subst m.
    assert (wp (next (mkPageRange a (a + Z.of_nat (Datatypes.S n) * SIZE S)))
      (eq (mkPageRange (a + SIZE S) (a + Z.of_nat (Datatypes.S n) * SIZE S), Some a)))
      as [x [-> <-]]%wp_exists.
    { apply Hnext; [lia|done| |done].
      rewrite <- (Z.mul_1_l (SIZE S)). apply Hok. lia. }
    simpl. replace (a + Z.of_nat (Datatypes.S n) * SIZE S)
      with (a + SIZE S + Z.of_nat n * SIZE S) by lia.
    specialize (IH (a + SIZE S)). simpl in IH. rewrite IH.
    + cbn [mbind exec_bind option_map]. rewrite map_seqZ_S. do 3 f_equal; [lia|].
      apply map_ext. intros i. lia.
    + by rewrite mod_add_same by lia.
    + intros i Hi. replace (a + SIZE S + i * SIZE S) with (a + (i + 1) * SIZE S) by lia.
      apply Hok. lia.
Qed.
End Collect.

(** ** Properties *)

(** C35: Iterating over [Page::range(start, end)] terminates and yields exactly
    the pages from [start] up to but not including [end], in order, without
    a panic, when the pages up to [end] have canonical addresses. *)
Theorem page_range_collect (S : PageSize) (a : VirtAddr) (n : nat) :
  a mod SIZE S = 0 ->
  (forall i, 0 <= i <= Z.of_nat n -> canonical (a + i * SIZE S)) ->
  collect (PageRange_next S) (Datatypes.S n) (mkPageRange a (a + Z.of_nat n * SIZE S)) =
  Ret (Some (map (fun i => a + i * SIZE S) (seqZ 0 (Z.of_nat n)))).
Proof.
  intros Hal Hok. apply (collect_spec S canonical); [| |done|].
  - intros b e Q Hlt Hb Hc HQ. unfold PageRange_next. simpl.
    rewrite (proj2 (Z.ltb_lt b e)) by done. wp_step. apply wp_Page_add_1; try done.
  - intros b. unfold PageRange_next. simpl. by rewrite Z.ltb_irrefl.
  - intros i Hi. apply Hok. lia.
Qed.

Lemma page_range_collect_witness :
  collect (PageRange_next Size4KiB) 4 (mkPageRange 0x7000 (0x7000 + 3 * SIZE Size4KiB)) =
  Ret (Some [0x7000; 0x8000; 0x9000]).
Proof.
  apply (page_range_collect Size4KiB 0x7000 3); [reflexivity|].
  intros i Hi. left. simpl. lia.
Defined.

(** The same for [PhysFrame::range] below the 52-bit limit. *)
Theorem phys_frame_range_collect (S : PageSize) (a : PhysAddr) (n : nat) :
  a mod SIZE S = 0 ->
  (forall i, 0 <= i <= Z.of_nat n -> is_phys (a + i * SIZE S)) ->
  collect (PhysFrameRange_next S) (Datatypes.S n) (mkPageRange a (a + Z.of_nat n * SIZE S)) =
  Ret (Some (map (fun i => a + i * SIZE S) (seqZ 0 (Z.of_nat n)))).
Proof.
  intros Hal Hok. apply (collect_spec S is_phys); [| |done|].
  - intros b e Q Hlt Hb Hc HQ. unfold PhysFrameRange_next. simpl.
    rewrite (proj2 (Z.ltb_lt b e)) by done. wp_step. apply wp_PhysFrame_add_1; try done.
  - intros b. unfold PhysFrameRange_next. simpl. by rewrite Z.ltb_irrefl.
  - intros i Hi. apply Hok. lia.
Qed.

Lemma phys_frame_range_collect_witness :
  collect (PhysFrameRange_next Size2MiB) 3 (mkPageRange 0x200000 (0x200000 + 2 * SIZE Size2MiB)) =
  Ret (Some [0x200000; 0x400000]).
Proof.
  apply (phys_frame_range_collect Size2MiB 0x200000 2); [reflexivity|].
  intros i Hi. unfold is_phys. simpl. lia.
Defined.
