(* ===== verification/Layout.v ===== *)
(** * Kernel address-space layout (kernel/mm/src/layout.rs) *)

From S2P Require Import Prelude Addr.

Definition TiB : Z := 1024 * 1024 * 1024 * 1024.
Definition DEFAULT_REGIONS_BASE : Z := 0xFFFFC00000000000.
Definition HEAP_OFFSET : Z := 0.
Definition HEAP_MAX_SIZE : Z := 2 * TiB.
Definition STACKS_OFFSET : Z := 8 * TiB.
Definition STACKS_MAX_SIZE : Z := 512 * 1024 * 1024 * 1024.
Definition MMIO_OFFSET : Z := 16 * TiB.
Definition MMIO_MAX_SIZE : Z := TiB.
Definition PERCPU_OFFSET : Z := 32 * TiB.
Definition PERCPU_MAX_SIZE : Z := TiB.
Definition VDSO_OFFSET : Z := 48 * TiB.
Definition VDSO_MAX_SIZE : Z := 2 * 1024 * 1024.
Definition KERNEL_IMAGE_BASE : Z := 0xFFFFFFFF80000000.
Definition KERNEL_IMAGE_MAX_SIZE : Z := 128 * 1024 * 1024.
Definition INITIAL_HEAP_SIZE : Z := 4 * 1024 * 1024.
Definition HEAP_GROW_MIN : Z := 64 * 1024.

Record VirtRegion : Type := mkVirtRegion { vr_base : VirtAddr; vr_max_size : Z }.

Definition VirtRegion_end (self : VirtRegion) : VirtAddr :=
  VirtAddr_add (vr_base self) (vr_max_size self).

Definition VirtRegion_contains (self : VirtRegion) (addr : VirtAddr) : exec bool :=
  if vr_base self <=? addr then
    e ← add64 (vr_base self) (vr_max_size self);
    Ret (addr <? e)
  else Ret false.

Record MemoryLayout : Type := mkMemoryLayout {
  ml_hhdm_base : VirtAddr;
  ml_hhdm_size : Z;
  ml_regions_base : VirtAddr;
  ml_heap : VirtRegion;
  ml_stacks : VirtRegion;
  ml_mmio : VirtRegion;
  ml_percpu : VirtRegion;
  ml_vdso : VirtRegion;
  ml_kernel_image : VirtRegion;
}.

Inductive FaultRegion : Type :=
| FR_Heap | FR_Stacks | FR_Mmio | FR_PerCpu | FR_KernelImage | FR_Hhdm | FR_Unknown.

Definition MemoryLayout_with_regions_base
    (hhdm_offset : VirtAddr) (max_phys regions_base : Z) : MemoryLayout :=
  let rb := VirtAddr_new_truncate regions_base in
  {| ml_hhdm_base := hhdm_offset;
     ml_hhdm_size := max_phys;
     ml_regions_base := rb;
     ml_heap := mkVirtRegion (VirtAddr_add rb HEAP_OFFSET) HEAP_MAX_SIZE;
     ml_stacks := mkVirtRegion (VirtAddr_add rb STACKS_OFFSET) STACKS_MAX_SIZE;
     ml_mmio := mkVirtRegion (VirtAddr_add rb MMIO_OFFSET) MMIO_MAX_SIZE;
     ml_percpu := mkVirtRegion (VirtAddr_add rb PERCPU_OFFSET) PERCPU_MAX_SIZE;
     ml_vdso := mkVirtRegion (VirtAddr_add rb VDSO_OFFSET) VDSO_MAX_SIZE;
     ml_kernel_image :=
       mkVirtRegion (VirtAddr_new_truncate KERNEL_IMAGE_BASE) KERNEL_IMAGE_MAX_SIZE |}.

Definition MemoryLayout_new (hhdm_offset : VirtAddr) (max_phys : Z) : MemoryLayout :=
  MemoryLayout_with_regions_base hhdm_offset max_phys DEFAULT_REGIONS_BASE.

Definition identify_region (self : MemoryLayout) (addr : VirtAddr) : exec FaultRegion :=
  b ← VirtRegion_contains (ml_heap self) addr;
  if b : bool then Ret FR_Heap else
  b ← VirtRegion_contains (ml_stacks self) addr;
  if b : bool then Ret FR_Stacks else
  b ← VirtRegion_contains (ml_mmio self) addr;
  if b : bool then Ret FR_Mmio else
  b ← VirtRegion_contains (ml_percpu self) addr;
  if b : bool then Ret FR_PerCpu else
  b ← VirtRegion_contains (ml_kernel_image self) addr;
  if b : bool then Ret FR_KernelImage else
  if ml_hhdm_base self <=? addr then
    e ← add64 (ml_hhdm_base self) (ml_hhdm_size self);
    if addr <? e then Ret FR_Hhdm else Ret FR_Unknown
  else Ret FR_Unknown.

(** ** Facts *)

(** A base address the layout fits at: the regions stay below the kernel
    image and above the direct map. *)
Definition good_base (hhdm size rb : Z) : Prop :=
  U64 - 2 ^ 47 <= hhdm /\ 0 <= size /\ hhdm + size <= rb /\
  rb + VDSO_OFFSET + VDSO_MAX_SIZE <= KERNEL_IMAGE_BASE.

(** The address ranges of the layout, as intervals of integers. *)
Definition in_fault_region (hhdm size rb a : Z) (r : FaultRegion) : Prop :=
  let within lo n := lo <= a < lo + n in
  let heap := within rb HEAP_MAX_SIZE in
  let stacks := within (rb + STACKS_OFFSET) STACKS_MAX_SIZE in
  let mmio := within (rb + MMIO_OFFSET) MMIO_MAX_SIZE in
  let percpu := within (rb + PERCPU_OFFSET) PERCPU_MAX_SIZE in
  let image := within KERNEL_IMAGE_BASE KERNEL_IMAGE_MAX_SIZE in
  let direct := within hhdm size in
  match r with
  | FR_Heap => heap
  | FR_Stacks => stacks
  | FR_Mmio => mmio
  | FR_PerCpu => percpu
  | FR_KernelImage => image
  | FR_Hhdm => direct
  | FR_Unknown => ~ heap /\ ~ stacks /\ ~ mmio /\ ~ percpu /\ ~ image /\ ~ direct
  end.

Ltac unfold_layout :=
  unfold good_base, in_fault_region, HEAP_OFFSET, HEAP_MAX_SIZE, STACKS_OFFSET,
    STACKS_MAX_SIZE, MMIO_OFFSET, MMIO_MAX_SIZE, PERCPU_OFFSET, PERCPU_MAX_SIZE,
    VDSO_OFFSET, VDSO_MAX_SIZE, KERNEL_IMAGE_BASE, KERNEL_IMAGE_MAX_SIZE, TiB, U64 in *.

Lemma region_base_add rb off :
  U64 - 2 ^ 47 <= rb -> 0 <= off -> rb + off < U64 -> VirtAddr_add rb off = rb + off.
Proof.
  intros. unfold VirtAddr_add, wrapping_add64. rewrite Z.mod_small by ulia.
  apply new_truncate_id. right. ulia.
Qed.

Lemma wp_contains r addr (Q : bool -> Prop) :
  vr_base r + vr_max_size r < U64 ->
  Q (bool_decide (vr_base r <= addr < vr_base r + vr_max_size r)) ->
  wp (VirtRegion_contains r addr) Q.
Proof.
  intros Hr HQ. unfold VirtRegion_contains.
  destruct (Z.leb_spec (vr_base r) addr).
  - wp_steps. replace (addr <? _) with (bool_decide (vr_base r <= addr < vr_base r + vr_max_size r));
      [done|]. case_bool_decide; symmetry; [apply Z.ltb_lt|apply Z.ltb_ge]; lia.
  - wp_step. rewrite bool_decide_eq_false_2 in HQ by lia. done.
Qed.

Lemma in_fault_region_unique hhdm size rb a r r' :
  good_base hhdm size rb ->
  in_fault_region hhdm size rb a r -> in_fault_region hhdm size rb a r' -> r = r'.
Proof.
  intros Hg. unfold_layout.
  destruct r, r'; cbv zeta; intros H1 H2; try done; exfalso; first [tauto|lia].
Qed.

Lemma identify_region_wp hhdm size rb a :
  good_base hhdm size rb ->
  wp (identify_region (MemoryLayout_with_regions_base hhdm size rb) a)
     (in_fault_region hhdm size rb a).
Proof.
  intros Hg.
  assert (VirtAddr_new_truncate rb = rb) as Hrb
    by (apply new_truncate_id; right; unfold_layout; lia).
  assert (VirtAddr_new_truncate KERNEL_IMAGE_BASE = KERNEL_IMAGE_BASE) as Hk
    by (apply new_truncate_id; right; unfold_layout; lia).
  assert (VirtAddr_add rb HEAP_OFFSET = rb) as Hheap
    by (rewrite region_base_add; unfold_layout; lia).
  unfold identify_region, MemoryLayout_with_regions_base. cbn.
  rewrite Hrb, Hk, Hheap, !region_base_add by (unfold_layout; lia).
  repeat (wp_step; apply wp_contains; cbn; [unfold_layout; lia|];
          case_bool_decide; [by wp_step|]).
  destruct (Z.leb_spec hhdm a).
  - wp_steps; [unfold_layout; lia|].
    destruct (Z.ltb_spec a (hhdm + size)); wp_step; [by split|].
    repeat split; try done. intros []. lia.
  - wp_step. repeat split; try done. intros []. lia.
Qed.

(** ** Properties *)

(** The layout is a partition: wherever the regions base is placed (KASLR),
    [identify_region] never panics and names a region exactly when the address
    lies in that region's interval, so the regions never overlap. *)
Theorem identify_region_correct (hhdm size rb a : Z) (r : FaultRegion) :
  good_base hhdm size rb ->
  identify_region (MemoryLayout_with_regions_base hhdm size rb) a = Ret r <->
  in_fault_region hhdm size rb a r.
Proof.
  intros Hg.
  pose proof (identify_region_wp hhdm size rb a Hg) as H.
  apply wp_exists in H as (r' & -> & H). split; [intros [= ->]; done|].
  intros Hr. f_equal. by apply (in_fault_region_unique hhdm size rb a).
Qed.

Lemma identify_region_correct_witness :
  good_base 0xFFFF800000000000 0x100000000 DEFAULT_REGIONS_BASE /\
  identify_region (MemoryLayout_new 0xFFFF800000000000 0x100000000) 0xFFFFC80000001000
    = Ret FR_Stacks.
Proof.
  assert (good_base 0xFFFF800000000000 0x100000000 DEFAULT_REGIONS_BASE) as H
    by (unfold_layout; unfold DEFAULT_REGIONS_BASE; lia).
  split; [exact H|].
  apply (identify_region_correct _ _ _ 0xFFFFC80000001000 FR_Stacks H).
  unfold_layout. unfold DEFAULT_REGIONS_BASE. lia.
Defined.
