(* ===== verification/Std.v ===== *)
(** * The functions of the Rust standard library the kernel relies on *)

From S2P Require Import Prelude.

(** ** [slice::binary_search_by]

    The library's loop: [base] and [size] delimit the part still searched. *)

Fixpoint binary_search_loop {A} (f : A -> comparison) (l : list A) (fuel : nat)
    (base size : Z) : exec Z :=
  if size <=? 1 then Ret base else
  match fuel with
  | O => Panic
  | S fuel =>
      let half := size / 2 in
      let mid := base + half in
      x ← idx l mid;
      let base := match f x with Gt => base | _ => mid end in
      binary_search_loop f l fuel base (size - half)
  end.

Definition binary_search_by {A} (f : A -> comparison) (l : list A) : exec (result Z Z) :=
  let size := Z.of_nat (length l) in
  if size =? 0 then Ret (Err 0) else
  base ← binary_search_loop f l (length l) 0 size;
  x ← idx l base;
  match f x with
  | Eq => Ret (Ok base)
  | Lt => Ret (Err (base + 1))
  | Gt => Ret (Err base)
  end.

Definition binary_search_by_key {A} (key : A -> Z) (b : Z) (l : list A) : exec (result Z Z) :=
  binary_search_by (fun x => Z.compare (key x) b) l.

(** ** [Iterator::position] and [Iterator::find] *)

Fixpoint position {A} (f : A -> bool) (l : list A) : option Z :=
  match l with
  | [] => None
  | x :: l => if f x then Some 0 else Z.succ <$> position f l
  end.

(** ** Slices

    [&l\[lo..hi\]] and [l\[lo..hi\].copy_from_slice(src)]: a bad range panics,
    and so does a source of another length. *)

Definition range_ok {A} (l : list A) (lo hi : Z) : bool :=
  (0 <=? lo) && (lo <=? hi) && (hi <=? Z.of_nat (length l)).

Definition slice {A} (l : list A) (lo hi : Z) : exec (list A) :=
  _ ← assert (range_ok l lo hi);
  Ret (take (Z.to_nat (hi - lo)) (drop (Z.to_nat lo) l)).

Definition copy_from_slice {A} (l : list A) (lo hi : Z) (src : list A) : exec (list A) :=
  _ ← assert (range_ok l lo hi);
  _ ← assert (Z.of_nat (length src) =? hi - lo);
  Ret (take (Z.to_nat lo) l ++ src ++ drop (Z.to_nat hi) l).

(** *** Bytes *)

Definition is_byte (b : Z) : Prop := 0 <= b < 256.

#[export] Instance is_byte_dec b : Decision (is_byte b).
Proof. unfold is_byte. apply _. Defined.

(** [==] on arrays and slices of bytes. *)
Definition bytes_eqb (a b : list Z) : bool := bool_decide (a = b).

(** [first_chunk] of a slice. *)
Definition first_chunk {A} (n : nat) (l : list A) : option (list A) :=
  if (n <=? length l)%nat then Some (take n l) else None.

(** [from_le_bytes] of the unsigned integer types. *)
Fixpoint from_le_bytes (l : list Z) : Z :=
  match l with [] => 0 | b :: l => b + 256 * from_le_bytes l end.

(** [to_le_bytes] of an integer of [n] bytes. *)
Fixpoint to_le_bytes (n : nat) (x : Z) : list Z :=
  match n with O => [] | S n => x mod 256 :: to_le_bytes n (x / 256) end.

(** [core::str::from_utf8] accepts: the encodings of one to four bytes,
    without surrogates, without overlong forms, up to U+10FFFF. *)
Definition utf8_cont (b : Z) : bool := (0x80 <=? b) && (b <=? 0xBF).

Fixpoint utf8_valid (l : list Z) : bool :=
  match l with
  | [] => true
  | b :: l =>
      if b <? 0x80 then utf8_valid l else
      match l with
      | c :: l =>
          if (0xC2 <=? b) && (b <=? 0xDF) then utf8_cont c && utf8_valid l else
          match l with
          | d :: l =>
              if (0xE0 <=? b) && (b <=? 0xEF) then
                ((if b =? 0xE0 then 0xA0 else 0x80) <=? c) && (c <=? (if b =? 0xED then 0x9F else 0xBF)) &&
                utf8_cont d && utf8_valid l
              else
              match l with
              | e :: l =>
                  (0xF0 <=? b) && (b <=? 0xF4) &&
                  ((if b =? 0xF0 then 0x90 else 0x80) <=? c) && (c <=? (if b =? 0xF4 then 0x8F else 0xBF)) &&
                  utf8_cont d && utf8_cont e && utf8_valid l
              | [] => false
              end
          | [] => false
          end
      | [] => false
      end
  end.

(** ** Facts *)

Lemma range_ok_spec {A} (l : list A) lo hi :
  range_ok l lo hi = true <-> 0 <= lo <= hi /\ hi <= Z.of_nat (length l).
Proof. unfold range_ok. rewrite !andb_true_iff, !Z.leb_le. lia. Qed.

Lemma wp_slice {A} (l : list A) lo hi (Q : list A -> Prop) :
  0 <= lo <= hi -> hi <= Z.of_nat (length l) ->
  Q (take (Z.to_nat (hi - lo)) (drop (Z.to_nat lo) l)) -> wp (slice l lo hi) Q.
Proof. intros H1 H2 HQ. unfold slice. wp_step. apply wp_assert; [by apply range_ok_spec|]. by wp_steps. Qed.

Lemma wp_copy_from_slice {A} (l : list A) lo hi src (Q : list A -> Prop) :
  0 <= lo <= hi -> hi <= Z.of_nat (length l) -> Z.of_nat (length src) = hi - lo ->
  Q (take (Z.to_nat lo) l ++ src ++ drop (Z.to_nat hi) l) -> wp (copy_from_slice l lo hi src) Q.
Proof.
  intros H1 H2 H3 HQ. unfold copy_from_slice. wp_step. apply wp_assert; [by apply range_ok_spec|].
  by wp_steps.
Qed.

(** A slice that was overwritten, one element at a time. *)
Lemma lookup_copied {A} (l src : list A) lo hi (j : nat) :
  (lo <= hi <= length l)%nat -> (length src = hi - lo)%nat ->
  (take lo l ++ src ++ drop hi l) !! j =
  if decide (lo <= j < hi)%nat then src !! (j - lo)%nat else l !! j.
Proof.
  intros H1 H2. destruct (decide (j < lo)%nat) as [Hj|Hj].
  - rewrite lookup_app_l by (rewrite length_take; lia). rewrite lookup_take_lt by done.
    by rewrite decide_False by lia.
  - rewrite lookup_app_r, length_take by (rewrite length_take; lia).
    replace (lo `min` length l)%nat with lo by lia. case_decide as Hd.
    + by rewrite lookup_app_l by lia.
    + rewrite lookup_app_r, lookup_drop by lia. f_equal. lia.
Qed.

Lemma length_copied {A} (l src : list A) lo hi :
  (lo <= hi <= length l)%nat -> (length src = hi - lo)%nat ->
  length (take lo l ++ src ++ drop hi l) = length l.
Proof. intros. rewrite !length_app, length_take, length_drop. lia. Qed.

Lemma position_spec {A} (f : A -> bool) l :
  match position f l with
  | Some i => exists l1 x l2, l = l1 ++ x :: l2 /\ i = Z.of_nat (length l1) /\ f x = true /\
      Forall (fun y => f y = false) l1
  | None => Forall (fun y => f y = false) l
  end.
Proof.
  induction l as [|x l IH]; simpl; [done|]. destruct (f x) eqn:E.
  - exists [], x, l. by rewrite E.
  - destruct (position f l) as [i|]; simpl; [|by constructor].
    destruct IH as (l1 & y & l2 & -> & -> & Hy & Hl). exists (x :: l1), y, l2.
    split_and!; [done|simpl; lia|done|by constructor].
Qed.

Section BinarySearch.
Context {A : Type} (f : A -> comparison) (l : list A).

(** The order the caller guarantees: once the comparison is [Gt] it stays. *)
Definition partitioned : Prop :=
  forall i j x y, (i < j)%nat -> l !! i = Some x -> l !! j = Some y ->
    (f x <> Lt -> f y = Gt) /\ (f y <> Gt -> f x = Lt).

Hypothesis Hpart : partitioned.

(** What the loop keeps: everything before [base] is smaller, everything
    from [base + size] on is larger. *)
Definition search_inv (base size : Z) : Prop :=
  0 <= base /\ 1 <= size /\ base + size <= Z.of_nat (length l) /\
  (forall i x, Z.of_nat i < base -> l !! i = Some x -> f x = Lt) /\
  (forall i x, base + size <= Z.of_nat i -> l !! i = Some x -> f x = Gt) /\
  (0 < base -> exists x, l !! Z.to_nat base = Some x /\ f x <> Gt).

Lemma search_inv_step base size x :
  search_inv base size -> 1 < size ->
  l !! Z.to_nat (base + size / 2) = Some x ->
  search_inv (match f x with Gt => base | _ => base + size / 2 end) (size - size / 2).
Proof using Hpart.
  intros (Hb & Hs & Hlen & Hlo & Hhi & Hnz) H1 Hx.
  assert (0 < size / 2 < size) as Hh by (Z.to_euclidean_division_equations; lia).
  assert (size / 2 <= size - size / 2) by (Z.to_euclidean_division_equations; lia).
  assert (f x = Gt \/ f x <> Gt) as [Hg|Hg] by (destruct (f x); auto; by right).
  - rewrite Hg. split_and!; try lia; [done| |done].
    intros i y Hi Hy. destruct (decide (Z.of_nat i = base + size / 2)) as [E|E].
    + assert (y = x) as -> by (rewrite <- E, Nat2Z.id in Hx; congruence). done.
    + apply (Hpart (Z.to_nat (base + size / 2)) i x y); [lia|done|done|congruence].
  - replace (match f x with Gt => base | _ => base + size / 2 end) with (base + size / 2)
      by (by destruct (f x)).
    split_and!; try lia.
    + intros i y Hi Hy. eapply (Hpart i (Z.to_nat (base + size / 2))); [lia|done|done|done].
    + intros i y Hi Hy. apply (Hhi i); [lia|done].
    + eauto.
Qed.

Lemma binary_search_loop_spec fuel base size :
  search_inv base size -> size <= Z.of_nat fuel ->
  wp (binary_search_loop f l fuel base size) (fun b => search_inv b 1).
Proof using Hpart.
  revert base size. induction fuel as [|fuel IH]; intros base size Hi Hf; simpl;
    pose proof Hi as (? & ? & ? & _).
  - lia.
  - destruct (Z.leb_spec size 1); [wp_step; by replace 1 with size by lia|].
    assert (0 < size / 2 < size) as Hh by (Z.to_euclidean_division_equations; lia).
    wp_step. destruct (l !! Z.to_nat (base + size / 2)) as [x|] eqn:Hx;
      [|apply lookup_ge_None in Hx; lia].
    eapply wp_idx; [lia|done|]. apply IH; [|lia]. by apply search_inv_step.
Qed.

(** The result of the search: a position of an equal element, or the place
    that separates the smaller from the larger ones. *)
Definition search_result (r : result Z Z) : Prop :=
  match r with
  | Ok i => 0 <= i /\ exists x, l !! Z.to_nat i = Some x /\ f x = Eq
  | Err i => 0 <= i <= Z.of_nat (length l) /\
      (forall j x, Z.of_nat j < i -> l !! j = Some x -> f x = Lt) /\
      (forall j x, i <= Z.of_nat j -> l !! j = Some x -> f x = Gt)
  end.

Lemma binary_search_by_spec : wp (binary_search_by f l) search_result.
Proof using Hpart.
  unfold binary_search_by. destruct (Z.eqb_spec (Z.of_nat (length l)) 0) as [E|E].
  { wp_step. simpl. destruct l; [|simpl in E; lia]. split_and!; simpl; try lia; done. }
  wp_step. eapply wp_mono.
  { apply binary_search_loop_spec; [|lia]. split_and!; try lia.
    intros i x Hi Hx. apply lookup_lt_Some in Hx. lia. }
  intros b (Hb & _ & Hlen & Hlo & Hhi & Hnz). wp_step.
  destruct (l !! Z.to_nat b) as [x|] eqn:Hx; [|apply lookup_ge_None in Hx; lia].
  eapply wp_idx; [lia|done|]. destruct (f x) eqn:Hc; wp_step; simpl.
  - eauto.
  - split_and!; try lia.
    + intros j y Hj Hy. destruct (decide (Z.of_nat j = b)) as [<-|]; [|apply (Hlo j); [lia|done]].
      rewrite Nat2Z.id in Hx. congruence.
    + intros j y Hj Hy. apply (Hhi j); [lia|done].
  - split_and!; try lia; [done|].
    intros j y Hj Hy. destruct (decide (Z.of_nat j = b)) as [<-|]; [|apply (Hhi j); [lia|done]].
    rewrite Nat2Z.id in Hx. congruence.
Qed.
End BinarySearch.
