(* ===== verification/FsTypes.v ===== *)
(** * Types of the file system interface

    The error, inode and permission types of [kernel/fs/src/lib.rs], the error
    numbers and poll events of [kernel/syscall/src/lib.rs]. *)

From S2P Require Import Prelude.

Inductive InodeType : Type := File | Directory | CharDevice | Symlink | BlockDevice | Socket.

Record Permissions : Type := mkPermissions { perm_read : bool; perm_write : bool; perm_execute : bool }.

Definition Permissions_all : Permissions := mkPermissions true true true.
Definition Permissions_read_only : Permissions := mkPermissions true false false.
Definition Permissions_read_write : Permissions := mkPermissions true true false.

Inductive FsError : Type :=
  | NotFound | NotADirectory | IsADirectory | AlreadyExists | BadFd | PermissionDenied | IoError
  | InvalidArgument | NotSupported | SymlinkLoop | Interrupted | BrokenPipe | Fault.

#[export] Instance InodeType_eq_dec : EqDecision InodeType.
Proof. solve_decision. Defined.

#[export] Instance FsError_eq_dec : EqDecision FsError.
Proof. solve_decision. Defined.

(** The error numbers; each name stands for its number. *)
Inductive Errno : Type :=
  | ENOENT | ESRCH | EINTR | ECHILD | EIO | EBADF | ENOMEM | EACCES | EFAULT
  | EEXIST | ENOTDIR | EISDIR | EINVAL | ESPIPE | EPIPE | ENAMETOOLONG | ENOSYS | ELOOP
  | EAGAIN | ENOTSOCK | EADDRINUSE | ENOTCONN | EISCONN | ECONNREFUSED | EMSGSIZE.

Definition errno (e : Errno) : Z :=
  match e with
  | ENOENT => 2 | ESRCH => 3 | EINTR => 4 | ECHILD => 10 | EIO => 5 | EBADF => 9
  | ENOMEM => 12 | EACCES => 13 | EFAULT => 14 | EEXIST => 17 | ENOTDIR => 20 | EISDIR => 21
  | EINVAL => 22 | ESPIPE => 29 | EPIPE => 32 | ENAMETOOLONG => 36 | ENOSYS => 38 | ELOOP => 40
  | EAGAIN => 11 | ENOTSOCK => 88 | EADDRINUSE => 98 | ENOTCONN => 107 | EISCONN => 106 | ECONNREFUSED => 111
  | EMSGSIZE => 90
  end.

Coercion errno : Errno >-> Z.

Definition to_errno (self : FsError) : Z :=
  match self with
  | NotFound => ENOENT
  | NotADirectory => ENOTDIR
  | IsADirectory => EISDIR
  | AlreadyExists => EEXIST
  | BadFd => EBADF
  | PermissionDenied => EACCES
  | IoError => EIO
  | InvalidArgument => EINVAL
  | NotSupported => ENOSYS
  | SymlinkLoop => ELOOP
  | Interrupted => EINTR
  | BrokenPipe => EPIPE
  | Fault => EFAULT
  end.

(** The poll events, as bits. *)
Inductive PollEvent : Type := POLLIN | POLLOUT | POLLERR | POLLHUP | POLLNVAL.

Definition poll_event (e : PollEvent) : Z :=
  match e with
  | POLLIN => 0x0001 | POLLOUT => 0x0004 | POLLERR => 0x0008 | POLLHUP => 0x0010 | POLLNVAL => 0x0020
  end.

Coercion poll_event : PollEvent >-> Z.

Lemma to_errno_inj : Inj (=) (=) to_errno.
Proof. intros [] []; by intros [=]. Qed.
