(* ===== verification/Elf.v ===== *)
(** * ELF files (crates/parse/elf/src)

    The file header, program headers, section headers, symbols, string tables
    and relocation entries of 64-bit ELF files, and the values of x86-64
    relocations.  A file is the list of its bytes.  An iterator is its state
    and a [next]; the functions that run one to its end take the number of
    steps that suffices.

    The specification reads the fields straight out of the bytes ([field]).
    The parser is proved to find what the fields say, and to stay inside the
    file, for every input. *)

From S2P Require Import Prelude Std.

(** ** Fields (header.rs) *)

Definition ELF_MAGIC : list Z := [0x7f; 0x45; 0x4c; 0x46].
Definition ELFCLASS64 : Z := 2.
Definition ELFDATA2LSB : Z := 1.
Definition ET_REL : Z := 1.
Definition ET_EXEC : Z := 2.
Definition ET_DYN : Z := 3.
Definition EM_X86_64 : Z := 62.
Definition PT_LOAD : Z := 1.
Definition ELF64_EHDR_SIZE : Z := 64.
Definition ELF64_PHDR_SIZE : Z := 56.
Definition ELF64_SHDR_SIZE : Z := 64.

Inductive ElfType : Type := Rel | Exec | Dyn.

(** [le_u16], [le_u32] and [le_u64] are the same code for [n] bytes. *)
Definition le_uint (n : nat) (data : list Z) (off : Z) : exec Z :=
  b ← slice data off (Z.of_nat (length data));
  chunk ← expect (first_chunk n b);
  Ret (from_le_bytes chunk).

Definition le_u16 (data : list Z) (off : Z) : exec Z := le_uint 2 data off.
Definition le_u32 (data : list Z) (off : Z) : exec Z := le_uint 4 data off.
Definition le_u64 (data : list Z) (off : Z) : exec Z := le_uint 8 data off.
Definition le_i64 (data : list Z) (off : Z) : exec Z := x ← le_uint 8 data off; Ret (as_i64 x).

Inductive ElfError : Type :=
| BadMagic
| UnsupportedClass
| UnsupportedEncoding
| UnsupportedMachine
| UnsupportedType
| Truncated
| InvalidOffset.

Record Elf64Header : Type := mkElf64Header {
  e_type : Z;
  e_machine : Z;
  e_entry : Z;
  e_phoff : Z;
  e_phnum : Z;
  e_phentsize : Z;
  e_shoff : Z;
  e_shentsize : Z;
  e_shnum : Z;
  e_shstrndx : Z;
}.

(** The two table checks at the end of [parse]: the program headers, which
    relocatable files need not have, and the section headers, if any. *)
Definition check_phdrs (len e_type e_phoff e_phnum e_phentsize : Z) : exec (result unit ElfError) :=
  if negb (e_type =? ET_REL) then
    size ← mul64 e_phnum e_phentsize;
    match checked_add64 e_phoff size with
    | None => Ret (Err InvalidOffset)
    | Some ph_end =>
        if len <? ph_end then Ret (Err InvalidOffset)
        else if (0 <? e_phnum) && (e_phentsize <? ELF64_PHDR_SIZE) then Ret (Err InvalidOffset)
        else Ret (Ok tt)
    end
  else Ret (Ok tt).

Definition check_shdrs (len e_shoff e_shnum e_shentsize : Z) : exec (result unit ElfError) :=
  if 0 <? e_shnum then
    if e_shentsize <? ELF64_SHDR_SIZE then Ret (Err InvalidOffset) else
    size ← mul64 e_shnum e_shentsize;
    match checked_add64 e_shoff size with
    | None => Ret (Err InvalidOffset)
    | Some sh_end => if len <? sh_end then Ret (Err InvalidOffset) else Ret (Ok tt)
    end
  else Ret (Ok tt).

Definition Elf64Header_parse (data : list Z) : exec (result Elf64Header ElfError) :=
  let len := Z.of_nat (length data) in
  if len <? ELF64_EHDR_SIZE then Ret (Err Truncated) else
  magic ← slice data 0 4;
  if negb (bytes_eqb magic ELF_MAGIC) then Ret (Err BadMagic) else
  class ← idx data 4;
  if negb (class =? ELFCLASS64) then Ret (Err UnsupportedClass) else
  encoding ← idx data 5;
  if negb (encoding =? ELFDATA2LSB) then Ret (Err UnsupportedEncoding) else
  e_type ← le_u16 data 16;
  if negb (e_type =? ET_REL) && negb (e_type =? ET_EXEC) && negb (e_type =? ET_DYN)
  then Ret (Err UnsupportedType) else
  e_machine ← le_u16 data 18;
  if negb (e_machine =? EM_X86_64) then Ret (Err UnsupportedMachine) else
  e_entry ← le_u64 data 24;
  e_phoff ← le_u64 data 32;
  e_shoff ← le_u64 data 40;
  e_phentsize ← le_u16 data 54;
  e_phnum ← le_u16 data 56;
  e_shentsize ← le_u16 data 58;
  e_shnum ← le_u16 data 60;
  e_shstrndx ← le_u16 data 62;
  p ← check_phdrs len e_type e_phoff e_phnum e_phentsize;
  match p with
  | Err e => Ret (Err e)
  | Ok _ =>
      s ← check_shdrs len e_shoff e_shnum e_shentsize;
      match s with
      | Err e => Ret (Err e)
      | Ok _ => Ret (Ok (mkElf64Header e_type e_machine e_entry e_phoff e_phnum e_phentsize
                           e_shoff e_shentsize e_shnum e_shstrndx))
      end
  end.

Definition Elf64Header_elf_type (self : Elf64Header) : exec ElfType :=
  if e_type self =? ET_REL then Ret Rel
  else if e_type self =? ET_EXEC then Ret Exec
  else if e_type self =? ET_DYN then Ret Dyn
  else Panic.

Record Elf64ProgramHeader : Type := mkElf64ProgramHeader {
  p_type : Z;
  p_flags : Z;
  p_offset : Z;
  p_vaddr : Z;
  p_filesz : Z;
  p_memsz : Z;
}.

Definition Elf64ProgramHeader_parse (data : list Z) (file_offset : Z) : exec Elf64ProgramHeader :=
  b ← slice data file_offset (Z.of_nat (length data));
  seg_type ← le_u32 b 0;
  flags ← le_u32 b 4;
  offset ← le_u64 b 8;
  vaddr ← le_u64 b 16;
  filesz ← le_u64 b 32;
  memsz ← le_u64 b 40;
  Ret (mkElf64ProgramHeader seg_type flags offset vaddr filesz memsz).

(** ** Files and their segments (segment.rs) *)

Record ElfFile : Type := mkElfFile {
  elf_data : list Z;
  elf_header : Elf64Header;
}.

Record LoadSegment : Type := mkLoadSegment {
  ls_vaddr : Z;
  ls_data : list Z;
  ls_memsz : Z;
  ls_flags : Z;
}.

Definition ElfFile_parse (data : list Z) : exec (result ElfFile ElfError) :=
  r ← Elf64Header_parse data;
  match r with
  | Err e => Ret (Err e)
  | Ok header => Ret (Ok (mkElfFile data header))
  end.

Definition entry_point (self : ElfFile) : Z := e_entry (elf_header self).

Definition elf_type (self : ElfFile) : exec ElfType := Elf64Header_elf_type (elf_header self).

(** The closure of [load_segments], for the program header [i]. *)
Definition load_segment (self : ElfFile) (i : Z) : exec (option LoadSegment) :=
  let data := elf_data self in
  let len := Z.of_nat (length data) in
  d ← mul64 i (e_phentsize (elf_header self));
  offset ← add64 (e_phoff (elf_header self)) d;
  last ← add64 offset ELF64_PHDR_SIZE;
  if len <? last then Ret None else
  phdr ← Elf64ProgramHeader_parse data offset;
  if negb (p_type phdr =? PT_LOAD) then Ret None else
  let file_offset := p_offset phdr in
  let file_size := p_filesz phdr in
  seg_data ← (if file_size =? 0 then Ret []
              else
                file_end ← add64 file_offset file_size;
                if file_end <=? len then slice data file_offset file_end
                else slice data (file_offset `min` len) len);
  Ret (Some (mkLoadSegment (p_vaddr phdr) seg_data (p_memsz phdr) (p_flags phdr))).

(** The iterator of [load_segments], from header [i] on, [n] headers left, in
    a loop with body [body]; the body may leave the loop with an error. *)
Fixpoint for_segments {S E} (self : ElfFile) (body : LoadSegment -> S -> exec (result S E))
    (i : Z) (n : nat) (s : S) : exec (result S E) :=
  match n with
  | O => Ret (Ok s)
  | Datatypes.S n' =>
      o ← load_segment self i;
      match o with
      | None => for_segments self body (i + 1) n' s
      | Some seg =>
          r ← body seg s;
          match r with
          | Err e => Ret (Err e)
          | Ok s => for_segments self body (i + 1) n' s
          end
      end
  end.

(** ** Sections, symbols and strings (section.rs) *)

Definition SHT_SYMTAB : Z := 2.
Definition SHT_RELA : Z := 4.
Definition SHT_DYNSYM : Z := 11.
Definition SHF_ALLOC : Z := 2.
Definition SHN_UNDEF : Z := 0.
Definition ELF64_SYM_SIZE : Z := 24.

Record Elf64SectionHeader : Type := mkElf64SectionHeader {
  sh_name : Z;
  sh_type : Z;
  sh_flags : Z;
  sh_addr : Z;
  sh_offset : Z;
  sh_size : Z;
  sh_link : Z;
  sh_info : Z;
  sh_addralign : Z;
  sh_entsize : Z;
}.

Definition Elf64SectionHeader_parse (data : list Z) (file_offset : Z) : exec Elf64SectionHeader :=
  b ← slice data file_offset (Z.of_nat (length data));
  name ← le_u32 b 0;
  type ← le_u32 b 4;
  flags ← le_u64 b 8;
  addr ← le_u64 b 16;
  offset ← le_u64 b 24;
  size ← le_u64 b 32;
  link ← le_u32 b 40;
  info ← le_u32 b 44;
  addralign ← le_u64 b 48;
  entsize ← le_u64 b 56;
  Ret (mkElf64SectionHeader name type flags addr offset size link info addralign entsize).

Record Elf64Symbol : Type := mkElf64Symbol {
  st_name : Z;
  st_info : Z;
  st_shndx : Z;
  st_value : Z;
  st_size : Z;
}.

Definition Elf64Symbol_parse (data : list Z) (offset : Z) : exec Elf64Symbol :=
  b ← slice data offset (Z.of_nat (length data));
  name ← le_u32 b 0;
  info ← idx b 4;
  shndx ← le_u16 b 6;
  value ← le_u64 b 8;
  size ← le_u64 b 16;
  Ret (mkElf64Symbol name info shndx value size).

Definition sym_type (self : Elf64Symbol) : Z := Z.land (st_info self) 0xf.
Definition sym_bind (self : Elf64Symbol) : Z := Z.shiftr (st_info self) 4.

(** A [StringTable] is its data, a string its bytes. *)
Definition StringTable_get (data : list Z) (offset : Z) : exec (option (list Z)) :=
  if Z.of_nat (length data) <=? offset then Ret None else
  remaining ← slice data offset (Z.of_nat (length data));
  match position (fun b => b =? 0) remaining with
  | None => Ret None
  | Some nul_pos =>
      s ← slice remaining 0 nul_pos;
      Ret (if utf8_valid s then Some s else None)
  end.

(** [SectionIter], over the file. *)
Record SectionIter : Type := mkSectionIter {
  si_data : list Z;
  si_shoff : Z;
  si_shentsize : Z;
  si_index : Z;
  si_count : Z;
}.

Definition SectionIter_next (self : SectionIter) : exec (SectionIter * option Elf64SectionHeader) :=
  if si_count self <=? si_index self then Ret (self, None) else
  d ← mul64 (si_index self) (si_shentsize self);
  offset ← add64 (si_shoff self) d;
  last ← add64 offset ELF64_SHDR_SIZE;
  if Z.of_nat (length (si_data self)) <? last then Ret (self, None) else
  hdr ← Elf64SectionHeader_parse (si_data self) offset;
  Ret (mkSectionIter (si_data self) (si_shoff self) (si_shentsize self) (si_index self + 1) (si_count self),
       Some hdr).

Definition sections (self : ElfFile) : SectionIter :=
  let hdr := elf_header self in
  mkSectionIter (elf_data self) (e_shoff hdr) (e_shentsize hdr) 0 (e_shnum hdr).

(** [Iterator::find]; every [next] before the last raises the index, so [n]
    above the number of sections left is enough. *)
Fixpoint section_find (p : Elf64SectionHeader -> exec bool) (n : nat) (it : SectionIter)
    : exec (option Elf64SectionHeader) :=
  match n with
  | O => Panic
  | S n' =>
      '(it, o) ← SectionIter_next it;
      match o with
      | None => Ret None
      | Some s => b ← p s; if b : bool then Ret (Some s) else section_find p n' it
      end
  end.

Definition find_section_by_type (self : ElfFile) (type : Z) : exec (option Elf64SectionHeader) :=
  section_find (fun s => Ret (sh_type s =? type)) (S (Z.to_nat (e_shnum (elf_header self)))) (sections self).

Definition section_data (self : ElfFile) (shdr : Elf64SectionHeader) : exec (option (list Z)) :=
  match checked_add64 (sh_offset shdr) (sh_size shdr) with
  | None => Ret None
  | Some last =>
      if Z.of_nat (length (elf_data self)) <? last then Ret None else
      s ← slice (elf_data self) (sh_offset shdr) last;
      Ret (Some s)
  end.

(** The section header at an index: [section_by_index], and the same code in
    [linked_strtab] and [section_header_strtab]. *)
Definition section_by_index (self : ElfFile) (index : Z) : exec (option Elf64SectionHeader) :=
  let hdr := elf_header self in
  if e_shnum hdr <=? index then Ret None else
  d ← mul64 index (e_shentsize hdr);
  offset ← add64 (e_shoff hdr) d;
  last ← add64 offset ELF64_SHDR_SIZE;
  if Z.of_nat (length (elf_data self)) <? last then Ret None else
  s ← Elf64SectionHeader_parse (elf_data self) offset;
  Ret (Some s).

(** The data of a string table. *)
Definition linked_strtab (self : ElfFile) (symtab : Elf64SectionHeader) : exec (option (list Z)) :=
  o ← section_by_index self (sh_link symtab);
  match o with
  | None => Ret None
  | Some strtab_shdr => section_data self strtab_shdr
  end.

Definition section_header_strtab (self : ElfFile) : exec (option (list Z)) :=
  let hdr := elf_header self in
  if (e_shstrndx hdr =? 0) || (e_shnum hdr <=? e_shstrndx hdr) then Ret None else
  o ← section_by_index self (e_shstrndx hdr);
  match o with
  | None => Ret None
  | Some shdr => section_data self shdr
  end.

Definition find_section_by_name (self : ElfFile) (name : list Z) : exec (option Elf64SectionHeader) :=
  o ← section_header_strtab self;
  match o with
  | None => Ret None
  | Some shstrtab =>
      section_find (fun s => n ← StringTable_get shstrtab (sh_name s); Ret (bool_decide (n = Some name)))
        (S (Z.to_nat (e_shnum (elf_header self)))) (sections self)
  end.

(** [SymbolIter] and [RelaIter]: a range of the file. *)
Record EntryIter : Type := mkEntryIter {
  ei_data : list Z;
  ei_offset : Z;
  ei_end : Z;
}.

Definition SymbolIter_next (self : EntryIter) : exec (EntryIter * option Elf64Symbol) :=
  last ← add64 (ei_offset self) ELF64_SYM_SIZE;
  if ei_end self <? last then Ret (self, None) else
  sym ← Elf64Symbol_parse (ei_data self) (ei_offset self);
  Ret (mkEntryIter (ei_data self) last (ei_end self), Some sym).

(** [Iterator::nth]. *)
Fixpoint symbol_nth (n : nat) (it : EntryIter) : exec (option Elf64Symbol) :=
  '(it, o) ← SymbolIter_next it;
  match o with
  | None => Ret None
  | Some sym => match n with O => Ret (Some sym) | S n' => symbol_nth n' it end
  end.

(** The range of a section's entries: [symbols] and [rela_entries]. *)
Definition section_entries (self : ElfFile) (shdr : Elf64SectionHeader) : exec (option EntryIter) :=
  o ← section_data self shdr;
  match o with
  | None => Ret None
  | Some data =>
      last ← add64 (sh_offset shdr) (Z.of_nat (length data));
      Ret (Some (mkEntryIter (elf_data self) (sh_offset shdr) last))
  end.

(** ** Relocations (reloc.rs) *)

Definition ELF64_RELA_SIZE : Z := 24.

Record Elf64Rela : Type := mkElf64Rela {
  r_offset : Z;
  r_type : Z;
  r_sym : Z;
  r_addend : Z;
}.

Definition Elf64Rela_parse (data : list Z) (offset : Z) : exec Elf64Rela :=
  b ← slice data offset (Z.of_nat (length data));
  off ← le_u64 b 0;
  r_info ← le_u64 b 8;
  addend ← le_i64 b 16;
  Ret (mkElf64Rela off (r_info mod 2 ^ 32) (Z.shiftr r_info 32 mod 2 ^ 32) addend).

Definition RelaIter_next (self : EntryIter) : exec (EntryIter * option Elf64Rela) :=
  last ← add64 (ei_offset self) ELF64_RELA_SIZE;
  if ei_end self <? last then Ret (self, None) else
  rela ← Elf64Rela_parse (ei_data self) (ei_offset self);
  Ret (mkEntryIter (ei_data self) last (ei_end self), Some rela).

Inductive RelocValue : Type :=
| RelocU32 (v : Z)
| RelocU64 (v : Z).

Inductive RelocError : Type :=
| RelocUnsupportedType (ty : Z)
| RelocOverflow.

(** [x as i32] and [x as u32] of an [i64], and the wrapping sum and
    difference of [i64]. *)
Definition as_i32 (x : Z) : Z := let y := x mod 2 ^ 32 in if y <? 2 ^ 31 then y else y - 2 ^ 32.
Definition wrap_i64 (x : Z) : Z := as_i64 (x mod U64).

(** The 32-bit signed field: the value must survive the truncation. *)
Definition reloc_i32 (x : Z) : result RelocValue RelocError :=
  let truncated := as_i32 x in
  if negb (truncated =? x) then Err RelocOverflow else Ok (RelocU32 (truncated mod 2 ^ 32)).

Definition compute_x86_64_reloc (rela : Elf64Rela) (sym_value base_addr place_addr : Z)
    : result (Z * RelocValue) RelocError :=
  let s := sym_value in
  let a := r_addend rela in
  let p := place_addr in
  let b := base_addr in
  let done v := Ok (r_offset rela, v) in
  let narrow r := match r with Ok v => done v | Err e => Err e end in
  match r_type rela with
  | 0 (* R_X86_64_NONE *) => done (RelocU64 0)
  | 1 (* R_X86_64_64 *) => done (RelocU64 (wrapping_add64 s (a mod U64)))
  | 2 (* R_X86_64_PC32 *) | 4 (* R_X86_64_PLT32 *) =>
      narrow (reloc_i32 (wrap_i64 (wrap_i64 (as_i64 s + a) - as_i64 p)))
  | 6 (* R_X86_64_GLOB_DAT *) => done (RelocU64 s)
  | 8 (* R_X86_64_RELATIVE *) => done (RelocU64 (wrapping_add64 b (a mod U64)))
  | 10 (* R_X86_64_32 *) =>
      let result := wrapping_add64 s (a mod U64) in
      if 2 ^ 32 - 1 <? result then Err RelocOverflow else done (RelocU32 (result mod 2 ^ 32))
  | 11 (* R_X86_64_32S *) => narrow (reloc_i32 (wrap_i64 (as_i64 s + a)))
  | other => Err (RelocUnsupportedType other)
  end.

(** ** What the bytes of a file say *)

(** The integer of [n] bytes at an offset. *)
Definition field (n : nat) (data : list Z) (off : Z) : Z :=
  from_le_bytes (take n (drop (Z.to_nat off) data)).

(** The bytes of a range, as far as the file has them. *)
Definition file_range (data : list Z) (off n : Z) : list Z := take (Z.to_nat n) (drop (Z.to_nat off) data).

(** [h] is the header of a file the kernel supports, with its tables inside
    the file. *)
Record valid_elf (data : list Z) (h : Elf64Header) : Prop := {
  ve_size : 64 <= Z.of_nat (length data);
  ve_magic : take 4 data = ELF_MAGIC;
  ve_class : field 1 data 4 = ELFCLASS64;
  ve_encoding : field 1 data 5 = ELFDATA2LSB;
  ve_type : e_type h = ET_REL \/ e_type h = ET_EXEC \/ e_type h = ET_DYN;
  ve_machine : e_machine h = EM_X86_64;
  ve_fields : h = mkElf64Header (field 2 data 16) (field 2 data 18) (field 8 data 24) (field 8 data 32)
    (field 2 data 56) (field 2 data 54) (field 8 data 40) (field 2 data 58) (field 2 data 60) (field 2 data 62);
  ve_phdrs : e_type h <> ET_REL ->
    e_phoff h + e_phnum h * e_phentsize h <= Z.of_nat (length data) /\
    (0 < e_phnum h -> ELF64_PHDR_SIZE <= e_phentsize h);
  ve_shdrs : 0 < e_shnum h ->
    e_shoff h + e_shnum h * e_shentsize h <= Z.of_nat (length data) /\ ELF64_SHDR_SIZE <= e_shentsize h;
}.

(** The program header [i], and the segment a program header describes. *)
Definition phdr_at (data : list Z) (h : Elf64Header) (i : Z) : Elf64ProgramHeader :=
  let o := e_phoff h + i * e_phentsize h in
  mkElf64ProgramHeader (field 4 data o) (field 4 data (o + 4)) (field 8 data (o + 8))
    (field 8 data (o + 16)) (field 8 data (o + 32)) (field 8 data (o + 40)).

Definition segment_of (data : list Z) (p : Elf64ProgramHeader) : LoadSegment :=
  mkLoadSegment (p_vaddr p) (file_range data (p_offset p) (p_filesz p)) (p_memsz p) (p_flags p).

Definition load_segments (data : list Z) (h : Elf64Header) : list LoadSegment :=
  omap (fun i => let p := phdr_at data h i in if p_type p =? PT_LOAD then Some (segment_of data p) else None)
    (seqZ 0 (e_phnum h)).

(** The end of a segment's data in the file is a 64-bit number. *)
Definition range_fits (p : Elf64ProgramHeader) : Prop :=
  p_type p = PT_LOAD -> p_filesz p <> 0 -> p_offset p + p_filesz p < U64.

(** The section header, symbol and relocation entry at an offset. *)
Definition shdr_at (data : list Z) (o : Z) : Elf64SectionHeader :=
  mkElf64SectionHeader (field 4 data o) (field 4 data (o + 4)) (field 8 data (o + 8)) (field 8 data (o + 16))
    (field 8 data (o + 24)) (field 8 data (o + 32)) (field 4 data (o + 40)) (field 4 data (o + 44))
    (field 8 data (o + 48)) (field 8 data (o + 56)).

Definition sym_at (data : list Z) (o : Z) : Elf64Symbol :=
  mkElf64Symbol (field 4 data o) (field 1 data (o + 4)) (field 2 data (o + 6)) (field 8 data (o + 8))
    (field 8 data (o + 16)).

Definition rela_at (data : list Z) (o : Z) : Elf64Rela :=
  mkElf64Rela (field 8 data o) (field 8 data (o + 8) mod 2 ^ 32) (field 8 data (o + 8) / 2 ^ 32)
    (as_i64 (field 8 data (o + 16))).

Definition section_at (data : list Z) (h : Elf64Header) (i : Z) : Elf64SectionHeader :=
  shdr_at data (e_shoff h + i * e_shentsize h).

Definition section_list (data : list Z) (h : Elf64Header) : list Elf64SectionHeader :=
  section_at data h <$> seqZ 0 (e_shnum h).

(** A section whose data is in the file, and its entries of 24 bytes. *)
Definition in_file (data : list Z) (s : Elf64SectionHeader) : bool :=
  sh_offset s + sh_size s <=? Z.of_nat (length data).

Definition entries_of {A} (at_ : list Z -> Z -> A) (data : list Z) (s : Elf64SectionHeader) : list A :=
  if in_file data s then (fun i => at_ data (sh_offset s + 24 * i)) <$> seqZ 0 (sh_size s / 24) else [].

(** ** Reading fields *)

Lemma from_le_bytes_range l : Forall is_byte l -> 0 <= from_le_bytes l < 256 ^ Z.of_nat (length l).
Proof.
  induction 1 as [|b l Hb Hl IH]; [done|]. unfold is_byte in Hb. cbn [from_le_bytes length].
  rewrite Nat2Z.inj_succ, Z.pow_succ_r by lia. lia.
Qed.

Lemma field_range n data off : Forall is_byte data -> 0 <= field n data off < 256 ^ Z.of_nat n.
Proof.
  intros Hd. unfold field.
  pose proof (from_le_bytes_range (take n (drop (Z.to_nat off) data)) ltac:(by apply Forall_take, Forall_drop)) as H.
  pose proof (length_take (drop (Z.to_nat off) data) n) as Hl.
  split; [lia|]. eapply Z.lt_le_trans; [apply H|]. apply Z.pow_le_mono_r; lia.
Qed.

Lemma field_drop n data off k : 0 <= off -> 0 <= k -> field n (drop (Z.to_nat off) data) k = field n data (off + k).
Proof. intros. unfold field. rewrite drop_drop. by replace (Z.to_nat off + Z.to_nat k)%nat with (Z.to_nat (off + k)) by lia. Qed.

Lemma slice_tail (data : list Z) off :
  0 <= off <= Z.of_nat (length data) -> slice data off (Z.of_nat (length data)) = Ret (drop (Z.to_nat off) data).
Proof.
  intros H. apply wp_eq, wp_slice; [lia|lia|]. rewrite take_ge; [done|]. rewrite length_drop. lia.
Qed.

Lemma le_uint_eq n data off :
  0 <= off -> off + Z.of_nat n <= Z.of_nat (length data) -> le_uint n data off = Ret (field n data off).
Proof.
  intros H1 H2. unfold le_uint. rewrite slice_tail by lia. simpl. unfold first_chunk.
  rewrite (proj2 (Nat.leb_le _ _)); [done|]. rewrite length_drop. lia.
Qed.

Lemma idx_field data i : 0 <= i < Z.of_nat (length data) -> idx data i = Ret (field 1 data i).
Proof.
  intros H. destruct (lookup_lt_is_Some_2 data (Z.to_nat i) ltac:(lia)) as [b Hb].
  unfold idx, field. rewrite (proj2 (Z.leb_le _ _)), Hb by lia. rewrite (drop_S _ b) by done.
  simpl. f_equal. lia.
Qed.

(** ** The header *)

(** The outcome of a check: it succeeds exactly when [P] holds. *)
Definition checks (P : Prop) (r : result unit ElfError) : Prop :=
  match r with Ok _ => P | Err e => e = InvalidOffset /\ ~ P end.

Lemma wp_check_phdrs len ty off num size :
  0 <= off -> 0 <= num < 2 ^ 16 -> 0 <= size < 2 ^ 16 -> len < U64 ->
  wp (check_phdrs len ty off num size)
    (checks (ty <> ET_REL -> off + num * size <= len /\ (0 < num -> ELF64_PHDR_SIZE <= size))).
Proof.
  intros Ho Hn Hs Hl. unfold check_phdrs, checks, checked_add64. destruct (Z.eqb_spec ty ET_REL) as [->|Ht]; simpl.
  { by wp_step. }
  assert (num * size < 2 ^ 32) by nia. wp_step. wp_step. unfold ELF64_PHDR_SIZE.
  destruct (Z.ltb_spec (off + num * size) U64); [|wp_step; split; [done|intros H1; specialize (H1 Ht); ulia]].
  destruct (Z.ltb_spec len (off + num * size)); [wp_step; split; [done|intros H2; specialize (H2 Ht); lia]|].
  destruct (Z.ltb_spec 0 num), (Z.ltb_spec size 56); simpl; wp_step; try (intros _; split; lia).
  split; [done|]. intros H4. specialize (H4 Ht). lia.
Qed.

Lemma wp_check_shdrs len off num size :
  0 <= off -> 0 <= num < 2 ^ 16 -> 0 <= size < 2 ^ 16 -> len < U64 ->
  wp (check_shdrs len off num size)
    (checks (0 < num -> off + num * size <= len /\ ELF64_SHDR_SIZE <= size)).
Proof.
  intros Ho Hn Hs Hl. unfold check_shdrs, checks, checked_add64, ELF64_SHDR_SIZE.
  destruct (Z.ltb_spec 0 num) as [H0|H0]; [|wp_step; lia].
  destruct (Z.ltb_spec size 64); [wp_step; split; [done|intros H1; specialize (H1 H0); lia]|].
  assert (num * size < 2 ^ 32) by nia. wp_step. wp_step.
  destruct (Z.ltb_spec (off + num * size) U64); [|wp_step; split; [done|intros H3; specialize (H3 H0); ulia]].
  destruct (Z.ltb_spec len (off + num * size)); wp_step; [|lia].
  split; [done|]. intros H4. specialize (H4 H0). lia.
Qed.

(** A file is a slice of bytes; a slice is at most [isize::MAX] bytes long. *)
Definition is_file (data : list Z) : Prop := Forall is_byte data /\ Z.of_nat (length data) < 2 ^ 63.

(** [parse] accepts the supported files and reads their headers. *)
Lemma wp_Elf64Header_parse data :
  is_file data ->
  wp (Elf64Header_parse data) (fun r =>
    match r with Ok h => valid_elf data h | Err _ => forall h, ~ valid_elf data h end).
Proof.
  intros [Hb Hlen]. unfold Elf64Header_parse, ELF64_EHDR_SIZE.
  destruct (Z.ltb_spec (Z.of_nat (length data)) 64) as [Hs|Hs]; [wp_step; intros h []; lia|].
  assert (forall off, 0 <= off < 64 -> idx data off = Ret (field 1 data off)) as Hi by (intros; apply idx_field; lia).
  assert (forall n off, 0 <= off -> off + Z.of_nat n <= 64 -> le_uint n data off = Ret (field n data off)) as Hf
    by (intros; apply le_uint_eq; lia).
  pose proof (fun n off => field_range n data off Hb) as Hr.
  wp_step. apply wp_slice; [lia|lia|]. change (Z.to_nat (4 - 0)) with 4%nat. rewrite drop_0.
  unfold bytes_eqb. case_bool_decide as Hm; cbn [negb]; [|wp_step; by intros h []].
  rewrite (Hi 4), (Hi 5) by lia. wp_step. wp_step. unfold ELFCLASS64.
  destruct (Z.eqb_spec (field 1 data 4) 2) as [Hc|Hc]; cbn [negb]; [|wp_step; by intros h []].
  wp_step. wp_step. unfold ELFDATA2LSB.
  destruct (Z.eqb_spec (field 1 data 5) 1) as [He|He]; cbn [negb]; [|wp_step; by intros h []].
  unfold le_u16, le_u64. rewrite !Hf by lia. wp_step. wp_step.
  destruct (_ && _ && _) eqn:Ety.
  { wp_step. intros h [? ? ? ? Hty ? ->]. simpl in Hty.
    apply andb_true_iff in Ety as [[E1 E2]%andb_true_iff E3]. rewrite negb_true_iff, Z.eqb_neq in *. lia. }
  wp_step. wp_step. destruct (Z.eqb_spec (field 2 data 18) EM_X86_64) as [Hmc|Hmc]; cbn [negb].
  2:{ wp_step. intros h [? ? ? ? ? Hmc' ->]. done. }
  wp_steps. pose proof (Hr 2%nat 56) as R1. pose proof (Hr 2%nat 54) as R2. pose proof (Hr 8%nat 32) as R3.
  pose proof (Hr 8%nat 40) as R4. pose proof (Hr 2%nat 60) as R5. pose proof (Hr 2%nat 58) as R6.
  change (256 ^ Z.of_nat 2) with (2 ^ 16) in *.
  eapply wp_mono; [apply wp_check_phdrs; ulia|]. intros [[]|e] Hp; [|wp_step; intros h [? ? ? ? ? ? -> Hp' ?]; by apply Hp].
  wp_step. eapply wp_mono; [apply wp_check_shdrs; ulia|].
  intros [[]|e] Hsh; [|wp_step; intros h [? ? ? ? ? ? -> ? Hs']; by apply Hsh].
  wp_step. constructor; simpl; try done.
  unfold ET_REL, ET_EXEC, ET_DYN in *. destruct (Z.eqb_spec (field 2 data 16) 1); [tauto|].
  destruct (Z.eqb_spec (field 2 data 16) 2); [tauto|]. destruct (Z.eqb_spec (field 2 data 16) 3); [tauto|done].
Qed.

(** ** Segments *)

(** What is parsed at an offset is what the fields there say. *)
Lemma phdr_parse_eq data h i :
  0 <= e_phoff h + i * e_phentsize h -> e_phoff h + i * e_phentsize h + ELF64_PHDR_SIZE <= Z.of_nat (length data) ->
  Elf64ProgramHeader_parse data (e_phoff h + i * e_phentsize h) = Ret (phdr_at data h i).
Proof.
  unfold ELF64_PHDR_SIZE. intros H1 H2. unfold Elf64ProgramHeader_parse, phdr_at. set (o := e_phoff h + _) in *.
  rewrite slice_tail by lia. cbn [mbind exec_bind]. unfold le_u32, le_u64.
  rewrite !le_uint_eq by (rewrite ?length_drop; lia). cbn [mbind exec_bind].
  rewrite !field_drop by lia. by rewrite Z.add_0_r.
Qed.

(** The three cases of the segment's data are one: the part of the range that
    is in the file. *)
Lemma segment_data_eq data off n :
  Z.of_nat (length data) < 2 ^ 63 -> is_u64 off -> is_u64 n -> (n <> 0 -> off + n < U64) ->
  (if n =? 0 then Ret []
   else
     file_end ← add64 off n;
     if file_end <=? Z.of_nat (length data) then slice data off file_end
     else slice data (off `min` Z.of_nat (length data)) (Z.of_nat (length data))) =
  Ret (file_range data off n).
Proof.
  intros Hl Ho Hn Hfit. unfold file_range. destruct (Z.eqb_spec n 0) as [->|Hn0]; [done|].
  specialize (Hfit Hn0). apply wp_eq. wp_step. wp_step.
  destruct (Z.leb_spec (off + n) (Z.of_nat (length data))).
  - apply wp_slice; [ulia|lia|]. do 2 f_equal. lia.
  - destruct (Z.le_gt_cases off (Z.of_nat (length data))).
    + rewrite Z.min_l by done. apply wp_slice; [ulia|lia|]. rewrite !take_ge; [done|..]; rewrite length_drop; ulia.
    + rewrite Z.min_r by lia. apply wp_slice; [lia|lia|]. rewrite Z.sub_diag. simpl.
      rewrite drop_ge by lia. by destruct (Z.to_nat n).
Qed.

Section Valid.
Context (data : list Z) (h : Elf64Header).
Context (Hfile : is_file data) (Hv : valid_elf data h).

Lemma valid_ranges :
  is_u64 (e_entry h) /\ is_u64 (e_phoff h) /\ is_u64 (e_shoff h) /\
  0 <= e_phnum h < 2 ^ 16 /\ 0 <= e_phentsize h < 2 ^ 16 /\
  0 <= e_shnum h < 2 ^ 16 /\ 0 <= e_shentsize h < 2 ^ 16 /\ 0 <= e_shstrndx h < 2 ^ 16.
Proof using Hfile Hv.
  destruct Hfile as [Hb _]. destruct Hv as [_ _ _ _ _ _ E _ _]. rewrite E. simpl.
  split_and!; by apply (field_range 8) || by apply (field_range 2).
Qed.

Lemma phdr_ranges i : let p := phdr_at data h i in
  is_u64 (p_offset p) /\ is_u64 (p_filesz p) /\ is_u64 (p_memsz p) /\ is_u64 (p_vaddr p) /\ 0 <= p_flags p < 2 ^ 32.
Proof using Hfile. destruct Hfile as [Hb _]. split_and!; by apply (field_range 8) || by apply (field_range 4). Qed.

Lemma phdr_in_file i :
  e_type h <> ET_REL -> 0 <= i < e_phnum h ->
  0 <= e_phoff h + i * e_phentsize h /\
  e_phoff h + i * e_phentsize h + ELF64_PHDR_SIZE <= Z.of_nat (length data).
Proof using Hfile Hv.
  intros Ht Hi. destruct valid_ranges as (_ & Hpo & _ & Hn & Hs & _). destruct (ve_phdrs _ _ Hv Ht) as [H1 H2].
  specialize (H2 ltac:(lia)). unfold ELF64_PHDR_SIZE, is_u64 in *. split; nia.
Qed.

(** The closure of [load_segments] gives the described segment, and fails on a
    header whose data ends beyond the 64-bit range. *)
Lemma load_segment_eq i :
  e_type h <> ET_REL -> 0 <= i < e_phnum h -> range_fits (phdr_at data h i) ->
  load_segment (mkElfFile data h) i =
  Ret (let p := phdr_at data h i in if p_type p =? PT_LOAD then Some (segment_of data p) else None).
Proof using Hfile Hv.
  intros Ht Hi Hfit. destruct (phdr_in_file i Ht Hi) as [H1 H2]. destruct Hfile as [_ Hl].
  destruct valid_ranges as (_ & Hpo & _ & Hn & Hs & _). destruct (phdr_ranges i) as (R1 & R2 & _).
  apply wp_eq. unfold load_segment, ELF64_PHDR_SIZE in *. cbn [elf_data elf_header].
  do 6 wp_step.
  rewrite (proj2 (Z.ltb_ge _ _)) by lia. rewrite phdr_parse_eq by (unfold ELF64_PHDR_SIZE; lia). wp_step. wp_step.
  unfold range_fits in Hfit. destruct (Z.eqb_spec (p_type (phdr_at data h i)) PT_LOAD) as [Ep|]; cbn [negb]; [|by wp_step].
  cbv zeta. rewrite segment_data_eq by auto. wp_step. by wp_steps.
Qed.

Lemma load_segment_panics i :
  e_type h <> ET_REL -> 0 <= i < e_phnum h -> ~ range_fits (phdr_at data h i) ->
  load_segment (mkElfFile data h) i = Panic.
Proof using Hfile Hv.
  intros Ht Hi Hfit. destruct (phdr_in_file i Ht Hi) as [H1 H2]. destruct Hfile as [_ Hl].
  destruct valid_ranges as (_ & Hpo & _ & Hn & Hs & _).
  assert (p_type (phdr_at data h i) = PT_LOAD /\ p_filesz (phdr_at data h i) <> 0 /\
    U64 <= p_offset (phdr_at data h i) + p_filesz (phdr_at data h i)) as (E1 & E2 & E3).
  { unfold range_fits in Hfit. destruct (decide (p_type (phdr_at data h i) = PT_LOAD)); [|naive_solver].
    destruct (decide (p_filesz (phdr_at data h i) = 0)); [naive_solver|].
    destruct (Z.lt_ge_cases (p_offset (phdr_at data h i) + p_filesz (phdr_at data h i)) U64); naive_solver. }
  unfold load_segment, ELF64_PHDR_SIZE in *. cbn [elf_data elf_header].
  rewrite mul64_ok by ulia. cbn [mbind exec_bind]. rewrite add64_ok by ulia. cbn [mbind exec_bind].
  rewrite add64_ok by ulia. cbn [mbind exec_bind].
  rewrite (proj2 (Z.ltb_ge _ _)) by lia. rewrite phdr_parse_eq by (unfold ELF64_PHDR_SIZE; lia). cbn [mbind exec_bind].
  by rewrite E1, (proj2 (Z.eqb_neq _ _) E2), add64_overflow.
Qed.

Lemma shdr_parse_eq o :
  0 <= o -> o + ELF64_SHDR_SIZE <= Z.of_nat (length data) -> Elf64SectionHeader_parse data o = Ret (shdr_at data o).
Proof using.
  unfold ELF64_SHDR_SIZE. intros H1 H2. unfold Elf64SectionHeader_parse, shdr_at. rewrite slice_tail by lia.
  cbn [mbind exec_bind]. unfold le_u32, le_u64. rewrite !le_uint_eq by (rewrite ?length_drop; lia).
  cbn [mbind exec_bind]. rewrite !field_drop by lia. by rewrite Z.add_0_r.
Qed.

Lemma sym_parse_eq o :
  0 <= o -> o + ELF64_SYM_SIZE <= Z.of_nat (length data) -> Elf64Symbol_parse data o = Ret (sym_at data o).
Proof using.
  unfold ELF64_SYM_SIZE. intros H1 H2. unfold Elf64Symbol_parse, sym_at. rewrite slice_tail by lia.
  cbn [mbind exec_bind]. unfold le_u16, le_u32, le_u64. rewrite !le_uint_eq by (rewrite ?length_drop; lia).
  cbn [mbind exec_bind]. rewrite idx_field by (rewrite length_drop; lia). cbn [mbind exec_bind].
  rewrite !field_drop by lia. by rewrite Z.add_0_r.
Qed.

Lemma rela_parse_eq o :
  0 <= o -> o + ELF64_RELA_SIZE <= Z.of_nat (length data) -> Elf64Rela_parse data o = Ret (rela_at data o).
Proof using Hfile.
  unfold ELF64_RELA_SIZE. intros H1 H2. unfold Elf64Rela_parse, rela_at. rewrite slice_tail by lia.
  cbn [mbind exec_bind]. unfold le_i64, le_u64. rewrite !le_uint_eq by (rewrite ?length_drop; lia).
  cbn [mbind exec_bind]. rewrite !field_drop by lia. rewrite Z.add_0_r, Z.shiftr_div_pow2 by lia.
  pose proof (field_range 8 data (o + 8) (proj1 Hfile)) as Hr. change (256 ^ Z.of_nat 8) with (2 ^ 64) in Hr.
  rewrite (Z.mod_small (_ / _)) by divlia. done.
Qed.

(** *** Sections *)

Lemma section_offset i :
  0 <= i < e_shnum h ->
  0 <= e_shoff h + i * e_shentsize h /\
  e_shoff h + i * e_shentsize h + ELF64_SHDR_SIZE <= Z.of_nat (length data).
Proof using Hfile Hv.
  intros Hi. destruct valid_ranges as (_ & _ & Hso & _ & _ & Hn & Hs & _).
  destruct (ve_shdrs _ _ Hv ltac:(lia)) as [H1 H2]. unfold ELF64_SHDR_SIZE, is_u64 in *. split; nia.
Qed.

Definition iter_at (i : Z) : SectionIter := mkSectionIter data (e_shoff h) (e_shentsize h) i (e_shnum h).

Lemma SectionIter_next_eq i :
  0 <= i -> SectionIter_next (iter_at i) =
  Ret (if i <? e_shnum h then (iter_at (i + 1), Some (section_at data h i)) else (iter_at i, None)).
Proof using Hfile Hv.
  intros Hi. unfold SectionIter_next. cbn [si_count si_index si_shoff si_shentsize si_data iter_at].
  destruct (Z.ltb_spec i (e_shnum h)) as [Hn|Hn]; [|by rewrite (proj2 (Z.leb_le _ _)) by lia].
  rewrite (proj2 (Z.leb_gt _ _)) by lia. destruct (section_offset i ltac:(lia)) as [H1 H2].
  destruct Hfile as [_ Hl]. destruct valid_ranges as (_ & _ & Hso & _ & _ & Hnn & Hs & _).
  unfold ELF64_SHDR_SIZE in *. rewrite mul64_ok by ulia. cbn [mbind exec_bind].
  rewrite add64_ok by ulia. cbn [mbind exec_bind]. rewrite add64_ok by ulia. cbn [mbind exec_bind].
  rewrite (proj2 (Z.ltb_ge _ _)) by lia. rewrite shdr_parse_eq by (unfold ELF64_SHDR_SIZE; lia). done.
Qed.

(** [find] returns the first section that passes the test. *)
Lemma section_find_eq p (q : Elf64SectionHeader -> bool) n i :
  (forall s, p s = Ret (q s)) -> 0 <= i <= e_shnum h -> Z.of_nat n = e_shnum h - i ->
  section_find p (S n) (iter_at i) = Ret (List.find q (section_at data h <$> seqZ i (Z.of_nat n))).
Proof using Hfile Hv.
  intros Hp. revert i. induction n as [|n IH]; intros i Hi Hn.
  - unfold section_find. rewrite SectionIter_next_eq by lia. by rewrite (proj2 (Z.ltb_ge _ _)) by lia.
  - rewrite seqZ_cons by lia. rewrite fmap_cons. cbn [List.find].
    change (section_find p (S (S n)) (iter_at i)) with ('(it, o) ← SectionIter_next (iter_at i);
      match o with None => Ret None | Some s => b ← p s; if b : bool then Ret (Some s) else section_find p (S n) it end).
    rewrite SectionIter_next_eq by lia. rewrite (proj2 (Z.ltb_lt _ _)) by lia. cbn [mbind exec_bind].
    rewrite Hp. cbn [mbind exec_bind]. destruct (q _); [done|]. rewrite IH by lia. do 4 f_equal; lia.
Qed.

Lemma find_section_by_type_eq ty :
  find_section_by_type (mkElfFile data h) ty = Ret (List.find (fun s => sh_type s =? ty) (section_list data h)).
Proof using Hfile Hv.
  destruct valid_ranges as (_ & _ & _ & _ & _ & Hn & _). unfold find_section_by_type, section_list. cbn [elf_header].
  change (sections (mkElfFile data h)) with (iter_at 0).
  rewrite (section_find_eq _ (fun s => sh_type s =? ty)) by (done || lia). by rewrite Z2Nat.id by lia.
Qed.

Definition section_ok (s : Elf64SectionHeader) : Prop := is_u64 (sh_offset s) /\ is_u64 (sh_size s).

Lemma section_at_ok i : section_ok (section_at data h i).
Proof using Hfile. split; by apply (field_range 8), Hfile. Qed.

Lemma section_data_eq s :
  section_ok s -> section_data (mkElfFile data h) s =
  Ret (if in_file data s then Some (file_range data (sh_offset s) (sh_size s)) else None).
Proof using Hfile.
  intros [Ho Hs]. destruct Hfile as [_ Hl]. unfold section_data, checked_add64, in_file, file_range. cbn [elf_data].
  destruct (Z.ltb_spec (sh_offset s + sh_size s) U64) as [Hu|Hu]; [|by rewrite (proj2 (Z.leb_gt _ _)) by ulia].
  destruct (Z.leb_spec (sh_offset s + sh_size s) (Z.of_nat (length data))).
  - rewrite (proj2 (Z.ltb_ge _ _)) by lia. apply wp_eq. wp_step. apply wp_slice; [ulia|lia|]. wp_step.
    do 3 f_equal. lia.
  - by rewrite (proj2 (Z.ltb_lt _ _)) by lia.
Qed.

Lemma section_by_index_eq i :
  0 <= i -> section_by_index (mkElfFile data h) i = Ret (if i <? e_shnum h then Some (section_at data h i) else None).
Proof using Hfile Hv.
  intros Hi. unfold section_by_index. cbn [elf_header elf_data].
  destruct (Z.ltb_spec i (e_shnum h)) as [Hn|Hn]; [|by rewrite (proj2 (Z.leb_le _ _)) by lia].
  rewrite (proj2 (Z.leb_gt _ _)) by lia. destruct (section_offset i ltac:(lia)) as [H1 H2].
  destruct Hfile as [_ Hl]. destruct valid_ranges as (_ & _ & Hso & _ & _ & Hnn & Hs & _).
  unfold ELF64_SHDR_SIZE in *. rewrite mul64_ok by ulia. cbn [mbind exec_bind].
  rewrite add64_ok by ulia. cbn [mbind exec_bind]. rewrite add64_ok by ulia. cbn [mbind exec_bind].
  rewrite (proj2 (Z.ltb_ge _ _)) by lia. rewrite shdr_parse_eq by (unfold ELF64_SHDR_SIZE; lia). done.
Qed.

(** *** Symbols, relocation entries, strings *)

Lemma SymbolIter_next_eq o e :
  0 <= o <= Z.of_nat (length data) -> e <= Z.of_nat (length data) ->
  SymbolIter_next (mkEntryIter data o e) =
  Ret (if o + 24 <=? e then (mkEntryIter data (o + 24) e, Some (sym_at data o)) else (mkEntryIter data o e, None)).
Proof using Hfile.
  intros H0 He. unfold SymbolIter_next, ELF64_SYM_SIZE. cbn [ei_offset ei_end ei_data]. destruct Hfile as [_ Hl].
  rewrite add64_ok by ulia. cbn [mbind exec_bind]. destruct (Z.leb_spec (o + 24) e).
  - rewrite (proj2 (Z.ltb_ge _ _)) by lia. by rewrite sym_parse_eq by (unfold ELF64_SYM_SIZE; lia).
  - by rewrite (proj2 (Z.ltb_lt _ _)) by lia.
Qed.

Lemma RelaIter_next_eq o e :
  0 <= o <= Z.of_nat (length data) -> e <= Z.of_nat (length data) ->
  RelaIter_next (mkEntryIter data o e) =
  Ret (if o + 24 <=? e then (mkEntryIter data (o + 24) e, Some (rela_at data o)) else (mkEntryIter data o e, None)).
Proof using Hfile.
  intros H0 He. unfold RelaIter_next, ELF64_RELA_SIZE. cbn [ei_offset ei_end ei_data]. destruct Hfile as [_ Hl].
  rewrite add64_ok by ulia. cbn [mbind exec_bind]. destruct (Z.leb_spec (o + 24) e).
  - rewrite (proj2 (Z.ltb_ge _ _)) by lia. by rewrite rela_parse_eq by (unfold ELF64_RELA_SIZE; lia).
  - by rewrite (proj2 (Z.ltb_lt _ _)) by lia.
Qed.

Lemma section_entries_eq s :
  section_ok s -> section_entries (mkElfFile data h) s =
  Ret (if in_file data s then Some (mkEntryIter data (sh_offset s) (sh_offset s + sh_size s)) else None).
Proof using Hfile.
  intros Hs. unfold section_entries. rewrite section_data_eq by done. cbn [mbind exec_bind].
  unfold in_file. destruct Hfile as [_ Hl], Hs as [Ho Hz]. zcases; [|done].
  assert (Z.of_nat (length (file_range data (sh_offset s) (sh_size s))) = sh_size s) as ->
    by (unfold file_range; rewrite length_take, length_drop; ulia).
  by rewrite add64_ok by ulia.
Qed.

Lemma symbol_nth_eq n o e :
  0 <= o <= Z.of_nat (length data) -> e <= Z.of_nat (length data) ->
  symbol_nth n (mkEntryIter data o e) =
  Ret (if o + 24 * Z.of_nat n + 24 <=? e then Some (sym_at data (o + 24 * Z.of_nat n)) else None).
Proof using Hfile.
  revert o. induction n as [|n IH]; intros o Ho He; cbn [symbol_nth]; rewrite SymbolIter_next_eq by done; cbn [mbind exec_bind].
  - change (24 * Z.of_nat 0) with 0. rewrite Z.add_0_r. by destruct (o + 24 <=? e).
  - destruct (Z.leb_spec (o + 24) e); [|by rewrite (proj2 (Z.leb_gt _ _)) by lia].
    rewrite IH by lia. by replace (o + 24 + 24 * Z.of_nat n) with (o + 24 * Z.of_nat (S n)) by lia.
Qed.

(** The symbol at an index, as the relocation code looks it up. *)
Lemma symbol_lookup s (n : nat) o e :
  section_ok s -> in_file data s = true -> o = sh_offset s -> e = sh_offset s + sh_size s ->
  symbol_nth n (mkEntryIter data o e) = Ret (entries_of sym_at data s !! n).
Proof using Hfile.
  intros [Ho Hz] Hin -> ->. unfold entries_of. rewrite Hin. unfold in_file in Hin. apply Z.leb_le in Hin.
  rewrite symbol_nth_eq by ulia. f_equal. rewrite list_lookup_fmap.
  destruct (Z.leb_spec (sh_offset s + 24 * Z.of_nat n + 24) (sh_offset s + sh_size s)).
  - by rewrite lookup_seqZ_lt by divlia.
  - by rewrite lookup_seqZ_ge by divlia.
Qed.
End Valid.

Lemma lookup_nul (l : list Z) n :
  position (fun b => b =? 0) l = Some n ->
  exists l1 l2, l = l1 ++ 0 :: l2 /\ n = Z.of_nat (length l1) /\ Forall (fun b => b <> 0) l1.
Proof.
  intros E. pose proof (position_spec (fun b => b =? 0) l) as H. rewrite E in H.
  destruct H as (l1 & x & l2 & -> & -> & Hx & Hl). apply Z.eqb_eq in Hx as ->. exists l1, l2. split_and!; [done|done|].
  eapply Forall_impl; [exact Hl|]. intros b Hb. by apply Z.eqb_neq.
Qed.

Lemma nul_terminated_inj (s s' l l' : list Z) :
  Forall (fun b => b <> 0) s -> Forall (fun b => b <> 0) s' -> s ++ 0 :: l = s' ++ 0 :: l' -> s = s'.
Proof.
  intros Hs. revert s'. induction Hs as [|x s Hx Hs IH]; intros s' Hs' E; destruct Hs' as [|y s' Hy Hs'];
    try done; simpl in E; injection E as E1 E2; [congruence|congruence|]. by rewrite E1, (IH s').
Qed.

(** A string of a table: the bytes up to the next NUL, when they are UTF-8. *)
Lemma wp_StringTable_get data off :
  0 <= off -> wp (StringTable_get data off) (fun r =>
    forall s, r = Some s <-> utf8_valid s = true /\ Forall (fun b => b <> 0) s /\ exists l, drop (Z.to_nat off) data = s ++ 0 :: l).
Proof.
  intros H0. unfold StringTable_get. destruct (Z.leb_spec (Z.of_nat (length data)) off).
  { wp_step. intros s. split; [done|]. intros (_ & _ & l & E). rewrite drop_ge in E by lia. by destruct s. }
  rewrite slice_tail by lia. wp_step. wp_step. destruct (position _ _) as [n|] eqn:E.
  - apply lookup_nul in E as (l1 & l2 & El & -> & Hl). rewrite El. wp_step.
    apply wp_slice; [lia|rewrite length_app; simpl; lia|]. wp_step.
    rewrite Z.sub_0_r, Nat2Z.id, drop_0, take_app_length. intros s. split.
    + destruct (utf8_valid l1) eqn:Eu; [|done]. intros [= <-]. split_and!; [done|done|by exists l2].
    + intros (Hu & Hs & l & Eq). assert (l1 = s) as ->; [|by rewrite Hu].
      by apply (nul_terminated_inj l1 s l2 l).
  - wp_step. intros s. split; [done|]. intros (_ & _ & l & Eq). pose proof (position_spec (fun b => b =? 0) (drop (Z.to_nat off) data)) as Hp.
    rewrite E, Eq in Hp. apply Forall_app in Hp as [_ Hp]. by apply Forall_cons in Hp as [Hp _].
Qed.

(** ** Relocations *)

Lemma wrap_i64_range x : - 2 ^ 63 <= wrap_i64 x < 2 ^ 63.
Proof. unfold wrap_i64, as_i64, U64. zcases; divlia. Qed.

Lemma wrap_i64_mod x y : x mod U64 = y mod U64 -> wrap_i64 x = wrap_i64 y.
Proof. unfold wrap_i64. by intros ->. Qed.

Lemma wrap_i64_congr x : wrap_i64 x mod U64 = x mod U64.
Proof. unfold wrap_i64, as_i64, U64. zcases; divlia. Qed.

Lemma as_i64_congr x : as_i64 x mod U64 = x mod U64.
Proof. unfold as_i64, U64. zcases; divlia. Qed.

Lemma wrap_i64_sum s a : wrap_i64 (as_i64 s + a) = wrap_i64 (s + a).
Proof. apply wrap_i64_mod. by rewrite Z.add_mod, as_i64_congr, <- Z.add_mod. Qed.

Lemma wrap_i64_diff x p : wrap_i64 (wrap_i64 x - as_i64 p) = wrap_i64 (x - p).
Proof. apply wrap_i64_mod. by rewrite Zminus_mod, wrap_i64_congr, as_i64_congr, <- Zminus_mod. Qed.

(** A 32-bit signed field takes the values that fit, and holds them in two's
    complement. *)
Lemma reloc_i32_eq x :
  - 2 ^ 63 <= x < 2 ^ 63 ->
  reloc_i32 x = if (- 2 ^ 31 <=? x) && (x <? 2 ^ 31) then Ok (RelocU32 (x mod 2 ^ 32)) else Err RelocOverflow.
Proof.
  intros Hx. unfold reloc_i32, as_i32. destruct (_ && _) eqn:E.
  - apply andb_true_iff in E as [E1%Z.leb_le E2%Z.ltb_lt].
    assert ((if x mod 2 ^ 32 <? 2 ^ 31 then x mod 2 ^ 32 else x mod 2 ^ 32 - 2 ^ 32) = x) as -> by (zcases; divlia).
    by rewrite Z.eqb_refl.
  - rewrite (proj2 (Z.eqb_neq _ _)); [done|]. intros Eq. apply andb_false_iff in E. rewrite Z.leb_gt, Z.ltb_ge in E.
    revert Eq. zcases; divlia.
Qed.

(** The values the processor supplement of the ABI gives for symbol [s],
    addend [a], base [b] and place [p]; [None] where the field is too small. *)
Definition abi_value (ty s a b p : Z) : option RelocValue :=
  let word v := Some (RelocU64 (v mod U64)) in
  let signed v := if (- 2 ^ 31 <=? wrap_i64 v) && (wrap_i64 v <? 2 ^ 31) then Some (RelocU32 (v mod 2 ^ 32)) else None in
  match ty with
  | 1 => word (s + a)
  | 2 | 4 => signed (s + a - p)
  | 6 => word s
  | 8 => word (b + a)
  | 10 => if (s + a) mod U64 <? 2 ^ 32 then Some (RelocU32 ((s + a) mod 2 ^ 32)) else None
  | 11 => signed (s + a)
  | _ => None
  end.

Lemma wrap_i64_low x : wrap_i64 x mod 2 ^ 32 = x mod 2 ^ 32.
Proof. unfold wrap_i64, as_i64, U64. zcases; divlia. Qed.

Definition reloc_types : list Z := [1; 2; 4; 6; 8; 10; 11].

Lemma compute_x86_64_reloc_eq rela s b p :
  is_u64 s -> r_type rela ∈ reloc_types ->
  match compute_x86_64_reloc rela s b p with
  | Ok (o, v) => o = r_offset rela /\ abi_value (r_type rela) s (r_addend rela) b p = Some v
  | Err e => e = RelocOverflow /\ abi_value (r_type rela) s (r_addend rela) b p = None
  end.
Proof.
  intros Hs Hty. unfold compute_x86_64_reloc, abi_value, wrapping_add64. unfold reloc_types in Hty.
  rewrite !elem_of_cons, elem_of_nil in Hty.
  destruct Hty as [-> | [-> | [-> | [-> | [-> | [-> | [-> | []]]]]]]].
  - by rewrite Z.add_mod_idemp_r by done.
  - rewrite wrap_i64_sum, wrap_i64_diff, reloc_i32_eq by apply wrap_i64_range.
    destruct (_ && _); [|done]. split; [done|]. by rewrite wrap_i64_low.
  - rewrite wrap_i64_sum, wrap_i64_diff, reloc_i32_eq by apply wrap_i64_range.
    destruct (_ && _); [|done]. split; [done|]. by rewrite wrap_i64_low.
  - by rewrite Z.mod_small.
  - by rewrite Z.add_mod_idemp_r by done.
  - rewrite Z.add_mod_idemp_r by done. destruct (Z.ltb_spec (2 ^ 32 - 1) ((s + r_addend rela) mod U64)).
    + by rewrite (proj2 (Z.ltb_ge _ _)) by lia.
    + rewrite (proj2 (Z.ltb_lt _ _)) by lia. split; [done|]. do 2 f_equal. unfold U64. divlia.
  - rewrite wrap_i64_sum, reloc_i32_eq by apply wrap_i64_range.
    destruct (_ && _); [|done]. split; [done|]. by rewrite wrap_i64_low.
Qed.

(** ** Properties *)


(** A file of one segment: a header, a program header and four bytes. *)
Definition example_elf : list Z :=
  [0x7f; 0x45; 0x4c; 0x46; 2; 1; 1; 0] ++ replicate 8 0 ++ to_le_bytes 2 2 ++ to_le_bytes 2 62 ++ to_le_bytes 4 1 ++
  to_le_bytes 8 0x401000 ++ to_le_bytes 8 64 ++ to_le_bytes 8 0 ++ to_le_bytes 4 0 ++ to_le_bytes 2 64 ++
  to_le_bytes 2 56 ++ to_le_bytes 2 1 ++ to_le_bytes 2 64 ++ to_le_bytes 2 0 ++ to_le_bytes 2 0 ++
  to_le_bytes 4 1 ++ to_le_bytes 4 5 ++ to_le_bytes 8 120 ++ to_le_bytes 8 0x401000 ++ to_le_bytes 8 0 ++
  to_le_bytes 8 4 ++ to_le_bytes 8 8 ++ to_le_bytes 8 4096 ++ [0xde; 0xad; 0xbe; 0xef].

Lemma example_elf_file : is_file example_elf.
Proof. split; [|by vm_compute]. apply (bool_decide_unpack _). by vm_compute. Qed.

