(* ===== verification/Extern.v ===== *)
(** * Third-party crates, as interfaces

    The kernel uses containers of the crate [planck-noalloc] and the flag sets
    of the crate [bitflags], whose code is
    not part of the repository.  Each is a class: its operations, and what its
    documentation promises of them.  A concrete instance over lists shows that
    the promises can be kept. *)

From S2P Require Import Prelude.

(** ** [planck_noalloc::vec::ArrayVec]: a vector with a fixed capacity *)

Class ArrayVec (A V : Type) (N : Z) : Type := {
  av_new : V;
  (** [as_slice], also reached through [Deref] and indexing. *)
  av_as_slice : V -> list A;
  (** [IndexMut], [remove] and [insert] panic out of range; [insert] panics
      when the vector is full. *)
  av_set : V -> Z -> A -> exec V;
  av_remove : V -> Z -> exec (V * A);
  av_insert : V -> Z -> A -> exec V;
  av_pop : V -> V * option A;
  (** [push] panics when the vector is full; [swap_remove] takes an element out
      and puts the last one in its place. *)
  av_push : V -> A -> exec V;
  av_swap_remove : V -> Z -> exec (V * A);
  (** [try_push] fails when the vector is full. *)
  av_try_push : V -> A -> option V;

  av_new_spec : av_as_slice av_new = [];
  av_set_spec : forall v i x, 0 <= i < Z.of_nat (length (av_as_slice v)) ->
    wp (av_set v i x) (fun v' => av_as_slice v' = <[Z.to_nat i := x]> (av_as_slice v));
  av_remove_spec : forall v i x, 0 <= i -> av_as_slice v !! Z.to_nat i = Some x ->
    wp (av_remove v i) (fun '(v', y) =>
      y = x /\ av_as_slice v' = delete (Z.to_nat i) (av_as_slice v));
  av_insert_spec : forall v i x,
    0 <= i <= Z.of_nat (length (av_as_slice v)) -> Z.of_nat (length (av_as_slice v)) < N ->
    wp (av_insert v i x) (fun v' =>
      av_as_slice v' = take (Z.to_nat i) (av_as_slice v) ++ x :: drop (Z.to_nat i) (av_as_slice v));
  av_pop_spec : forall v,
    let n := pred (length (av_as_slice v)) in
    av_as_slice (fst (av_pop v)) = take n (av_as_slice v) /\
    snd (av_pop v) = av_as_slice v !! n;
  av_push_spec : forall v x, Z.of_nat (length (av_as_slice v)) < N ->
    wp (av_push v x) (fun v' => av_as_slice v' = av_as_slice v ++ [x]);
  av_swap_remove_spec : forall v i x z, 0 <= i -> av_as_slice v !! Z.to_nat i = Some x ->
    last (av_as_slice v) = Some z ->
    wp (av_swap_remove v i) (fun '(v', y) =>
      y = x /\ av_as_slice v' =
        take (pred (length (av_as_slice v))) (<[Z.to_nat i := z]> (av_as_slice v)));
  av_try_push_spec : forall v x,
    match av_try_push v x with
    | Some v' => Z.of_nat (length (av_as_slice v)) < N /\ av_as_slice v' = av_as_slice v ++ [x]
    | None => N <= Z.of_nat (length (av_as_slice v))
    end;
}.

Definition av_len {A V N} `{ArrayVec A V N} (v : V) : Z := Z.of_nat (length (av_as_slice v)).

Definition av_is_full {A V N} `{ArrayVec A V N} (v : V) : bool := N <=? av_len v.

(** The promises are kept by a list with bounds checks. *)
Section ListArrayVec.
Context {A : Type} (N : Z).

Definition list_remove (l : list A) (i : Z) : exec (list A * A) :=
  x ← idx l i; Ret (delete (Z.to_nat i) l, x).

Definition list_insert (l : list A) (i : Z) (x : A) : exec (list A) :=
  if (0 <=? i) && (i <=? Z.of_nat (length l)) && (Z.of_nat (length l) <? N)
  then Ret (take (Z.to_nat i) l ++ x :: drop (Z.to_nat i) l) else Panic.

Definition list_push (l : list A) (x : A) : exec (list A) :=
  if Z.of_nat (length l) <? N then Ret (l ++ [x]) else Panic.

Definition list_swap_remove (l : list A) (i : Z) : exec (list A * A) :=
  x ← idx l i;
  z ← expect (last l);
  Ret (take (pred (length l)) (<[Z.to_nat i := z]> l), x).

#[export, refine] Instance list_ArrayVec : ArrayVec A (list A) N := {|
  av_new := [];
  av_as_slice := fun l => l;
  av_set := upd;
  av_remove := list_remove;
  av_insert := list_insert;
  av_pop := fun l => (take (pred (length l)) l, l !! pred (length l));
  av_push := list_push;
  av_swap_remove := list_swap_remove;
  av_try_push := fun l x => if Z.of_nat (length l) <? N then Some (l ++ [x]) else None;
|}.
Proof.
  - done.
  - intros l i x Hi. by apply wp_upd.
  - intros l i x Hi Hx. unfold list_remove. wp_step. by eapply wp_idx.
  - intros l i x Hi HN. unfold list_insert.
    rewrite (proj2 (Z.leb_le _ _)), (proj2 (Z.leb_le _ _)), (proj2 (Z.ltb_lt _ _)) by lia. done.
  - done.
  - intros l x HN. unfold list_push. by rewrite (proj2 (Z.ltb_lt _ _)).
  - intros l i x z Hi Hx Hz. unfold list_swap_remove. wp_step. eapply wp_idx; [done|done|].
    wp_step. by eapply wp_expect.
  - intros l x. by zcases.
Defined.
End ListArrayVec.

(** ** [planck_noalloc::ringbuf::RingBuf]: a queue over an array of [N] slots

    One slot stays empty, so [N - 1] elements fit. *)

Class RingBuf (A V : Type) (N : Z) : Type := {
  rb_new : V;
  (** [try_push] gives the element back when the buffer is full. *)
  rb_try_push : V -> A -> V * result unit A;
  rb_pop : V -> V * option A;
  rb_is_empty : V -> bool;
  (** The elements, the oldest first. *)
  rb_contents : V -> list A;

  rb_new_spec : rb_contents rb_new = [];
  rb_try_push_spec : forall v x,
    if Z.of_nat (length (rb_contents v)) <? N - 1
    then rb_contents (rb_try_push v x).1 = rb_contents v ++ [x] /\ (rb_try_push v x).2 = Ok tt
    else rb_contents (rb_try_push v x).1 = rb_contents v /\ (rb_try_push v x).2 = Err x;
  rb_pop_spec : forall v,
    rb_contents (rb_pop v).1 = tail (rb_contents v) /\ (rb_pop v).2 = head (rb_contents v);
  rb_is_empty_spec : forall v, rb_is_empty v = true <-> rb_contents v = [];
}.

#[export, refine] Instance list_RingBuf {A} (N : Z) : RingBuf A (list A) N := {|
  rb_new := [];
  rb_try_push := fun l x => if Z.of_nat (length l) <? N - 1 then (l ++ [x], Ok tt) else (l, Err x);
  rb_pop := fun l => (tail l, head l);
  rb_is_empty := fun l => match l with [] => true | _ => false end;
  rb_contents := fun l => l;
|}.
Proof.
  - done.
  - intros l x. by destruct (_ <? _).
  - done.
  - by intros [|].
Defined.

(** ** [bitflags]: a set of flags over a [u64] or a narrower word

    [all] has the bits the type declares. *)

Class BitFlags (all : Z) (F : Type) : Type := {
  bf_bits : F -> Z;
  bf_from_bits_retain : Z -> F;
  bf_from_bits_truncate : Z -> F;
  bf_contains : F -> F -> bool;
  bf_eqb : F -> F -> bool;
  bf_union : F -> F -> F;
  bf_intersection : F -> F -> F;
  bf_complement : F -> F;
  bf_difference : F -> F -> F;

  bf_bits_u64 : forall f, is_u64 (bf_bits f);
  bf_retain_bits : forall x, is_u64 x -> bf_bits (bf_from_bits_retain x) = x;
  bf_truncate_bits : forall x, is_u64 x -> bf_bits (bf_from_bits_truncate x) = Z.land x all;
  bf_contains_spec : forall f g,
    bf_contains f g = (Z.land (bf_bits f) (bf_bits g) =? bf_bits g);
  bf_eqb_spec : forall f g, bf_eqb f g = (bf_bits f =? bf_bits g);
  bf_union_bits : forall f g, bf_bits (bf_union f g) = Z.lor (bf_bits f) (bf_bits g);
  bf_intersection_bits : forall f g, bf_bits (bf_intersection f g) = Z.land (bf_bits f) (bf_bits g);
  bf_complement_bits : forall f, bf_bits (bf_complement f) = Z.land (not64 (bf_bits f)) all;
  bf_difference_bits : forall f g,
    bf_bits (bf_difference f g) = Z.land (bf_bits f) (not64 (bf_bits g));
}.

(** A flag type whose values are the words themselves. *)
Record word64 : Type := mkWord64 { w64_bits : Z }.

Section WordFlags.
Context (all : Z).

Definition w64 (x : Z) : word64 := mkWord64 (x mod U64).

Lemma w64_small x : is_u64 x -> w64_bits (w64 x) mod U64 = x.
Proof. intros Hx. simpl. rewrite Zmod_mod. by apply Z.mod_small. Qed.

Lemma mod_u64 x : is_u64 (x mod U64).
Proof. apply Z.mod_pos_bound. ulia. Qed.

#[export, refine] Instance word_BitFlags : BitFlags all word64 := {|
  bf_bits := fun f => w64_bits f mod U64;
  bf_from_bits_retain := w64;
  bf_from_bits_truncate := fun x => w64 (Z.land x all);
  bf_contains := fun f g => Z.land (w64_bits f mod U64) (w64_bits g mod U64) =? w64_bits g mod U64;
  bf_eqb := fun f g => w64_bits f mod U64 =? w64_bits g mod U64;
  bf_union := fun f g => w64 (Z.lor (w64_bits f mod U64) (w64_bits g mod U64));
  bf_intersection := fun f g => w64 (Z.land (w64_bits f mod U64) (w64_bits g mod U64));
  bf_complement := fun f => w64 (Z.land (not64 (w64_bits f mod U64)) all);
  bf_difference := fun f g => w64 (Z.land (w64_bits f mod U64) (not64 (w64_bits g mod U64)));
|}.
Proof.
  - intros. apply mod_u64.
  - intros. by apply w64_small.
  - intros. by apply w64_small, land_u64_l.
  - done.
  - done.
  - intros. apply w64_small, lor_u64; apply mod_u64.
  - intros. apply w64_small, land_u64_l, mod_u64.
  - intros. apply w64_small, land_u64_l, not64_u64.
  - intros. apply w64_small, land_u64_l, mod_u64.
Defined.
End WordFlags.
