(* ===== verification/Region.v ===== *)
(** * Virtual address region allocators (kernel/mm/src/region.rs)

    The bump allocator of the kernel heap and the free-list allocator of
    stacks, MMIO and user mappings.  The free-list allocator is proved against
    the set of allocated addresses: [allocate] adds a fresh interval to it and
    fails only when no interval of the size is free, [deallocate] removes the
    interval. *)

From S2P Require Import Prelude Addr Layout Std Extern.

Definition PAGE_SIZE : Z := 4096.
Definition PAGE_MASK : Z := 0xFFF.

Definition page_align_up (size : Z) : exec Z :=
  s ← add64 size PAGE_MASK;
  Ret (Z.land s (not64 PAGE_MASK)).

(** ** [RegionAllocator] *)

Record RegionAllocator : Type := mkRegionAllocator { ra_region : VirtRegion; ra_next : Z }.

Definition RegionAllocator_new (region : VirtRegion) : RegionAllocator :=
  mkRegionAllocator region (vr_base region).

Definition RegionAllocator_allocate (self : RegionAllocator) (size : Z)
    : exec (RegionAllocator * option VirtAddr) :=
  aligned_size ← page_align_up size;
  end_ ← add64 (ra_next self) aligned_size;
  region_end ← add64 (vr_base (ra_region self)) (vr_max_size (ra_region self));
  if region_end <? end_ then Ret (self, None) else
  let base := ra_next self in
  Ret (mkRegionAllocator (ra_region self) end_, Some (VirtAddr_new_truncate base)).

Definition RegionAllocator_current (self : RegionAllocator) : VirtAddr :=
  VirtAddr_new_truncate (ra_next self).

Definition RegionAllocator_used (self : RegionAllocator) : exec Z :=
  sub64 (ra_next self) (vr_base (ra_region self)).

(** ** [FreeRegionAllocator] *)

Inductive RegionAllocError : Type := FreeListFull.

Record FreeRange : Type := mkFreeRange { fr_base : Z; fr_size : Z }.

Section Defs.
Context {V : Type} {N : Z} `{AV : ArrayVec FreeRange V N}.

Record FreeRegionAllocator : Type := mkFreeRegionAllocator {
  fra_region : VirtRegion;
  fra_free_list : V;
  fra_watermark : Z;
}.

Definition FreeRegionAllocator_new (region : VirtRegion) : FreeRegionAllocator :=
  mkFreeRegionAllocator region av_new (vr_base region).

(** The first-fit scan of [allocate], from index [i], [n] entries left. *)
Fixpoint first_fit (free_list : V) (aligned_size i : Z) (n : nat) : exec (option (V * Z)) :=
  match n with
  | O => Ret None
  | S n =>
      entry ← idx (av_as_slice free_list) i;
      if aligned_size <=? fr_size entry then
        let base := fr_base entry in
        if fr_size entry =? aligned_size then
          '(free_list', _) ← av_remove free_list i;
          Ret (Some (free_list', base))
        else
          b ← add64 (fr_base entry) aligned_size;
          s ← sub64 (fr_size entry) aligned_size;
          free_list' ← av_set free_list i (mkFreeRange b s);
          Ret (Some (free_list', base))
      else first_fit free_list aligned_size (i + 1) n
  end.

Definition FreeRegionAllocator_allocate (self : FreeRegionAllocator) (size : Z)
    : exec (FreeRegionAllocator * option VirtAddr) :=
  aligned_size ← page_align_up size;
  if aligned_size =? 0 then Ret (self, Some (VirtAddr_new_truncate (fra_watermark self))) else
  fit ← first_fit (fra_free_list self) aligned_size 0 (Z.to_nat (av_len (fra_free_list self)));
  match fit with
  | Some (fl, base) =>
      Ret (mkFreeRegionAllocator (fra_region self) fl (fra_watermark self),
           Some (VirtAddr_new_truncate base))
  | None =>
      end_ ← add64 (fra_watermark self) aligned_size;
      region_end ← add64 (vr_base (fra_region self)) (vr_max_size (fra_region self));
      if region_end <? end_ then Ret (self, None) else
      let base := fra_watermark self in
      Ret (mkFreeRegionAllocator (fra_region self) (fra_free_list self) end_,
           Some (VirtAddr_new_truncate base))
  end.

Definition insertion_index (self : FreeRegionAllocator) (addr : Z) : exec Z :=
  r ← binary_search_by_key fr_base addr (av_as_slice (fra_free_list self));
  match r with Ok i => Ret i | Err i => Ret i end.

(** The loop of [retract_watermark] pops one entry per round, so a fuel of one
    more than the entries is enough; running out counts as a panic. *)
Fixpoint retract_loop (fuel : nat) (self : FreeRegionAllocator) : exec FreeRegionAllocator :=
  match fuel with
  | O => Panic
  | S fuel =>
      let (fl', last) := av_pop (fra_free_list self) in
      match last with
      | Some last =>
          e ← add64 (fr_base last) (fr_size last);
          if e =? fra_watermark self then
            retract_loop fuel (mkFreeRegionAllocator (fra_region self) fl' (fr_base last))
          else Ret self
      | None => Ret self
      end
  end.

Definition retract_watermark (self : FreeRegionAllocator) : exec FreeRegionAllocator :=
  retract_loop (S (Z.to_nat (av_len (fra_free_list self)))) self.

(** [idx == 0 || { let prev = self.free_list[idx - 1]; ... }] and the like. *)
Definition prev_end (fl : V) (i : Z) : exec Z :=
  j ← sub64 i 1;
  prev ← idx (av_as_slice fl) j;
  add64 (fr_base prev) (fr_size prev).

Definition add_size (fl : V) (i n : Z) : exec V :=
  e ← idx (av_as_slice fl) i;
  s ← add64 (fr_size e) n;
  av_set fl i (mkFreeRange (fr_base e) s).

(** The [match (merge_prev, merge_next)] of [deallocate]. *)
Definition merge_range (fl : V) (i base aligned_size : Z) (merge_prev merge_next : bool)
    : exec (result V RegionAllocError) :=
  match merge_prev, merge_next with
  | true, true =>
      '(fl', succ) ← av_remove fl i;
      j ← sub64 i 1;
      n ← add64 aligned_size (fr_size succ);
      fl'' ← add_size fl' j n;
      Ret (Ok fl'')
  | true, false =>
      j ← sub64 i 1;
      fl' ← add_size fl j aligned_size;
      Ret (Ok fl')
  | false, true =>
      e ← idx (av_as_slice fl) i;
      fl' ← av_set fl i (mkFreeRange base (fr_size e));
      fl'' ← add_size fl' i aligned_size;
      Ret (Ok fl'')
  | false, false =>
      if av_is_full fl then Ret (Err FreeListFull) else
      fl' ← av_insert fl i (mkFreeRange base aligned_size);
      Ret (Ok fl')
  end.

Definition FreeRegionAllocator_deallocate (self : FreeRegionAllocator) (addr : VirtAddr) (size : Z)
    : exec (FreeRegionAllocator * result unit RegionAllocError) :=
  let base := addr in
  aligned_size ← page_align_up size;
  if aligned_size =? 0 then Ret (self, Ok tt) else
  range_end ← add64 base aligned_size;
  _ ← assert (vr_base (fra_region self) <=? base);
  region_end ← add64 (vr_base (fra_region self)) (vr_max_size (fra_region self));
  _ ← assert (range_end <=? region_end);
  _ ← assert (range_end <=? fra_watermark self);
  if range_end =? fra_watermark self then
    self' ← retract_watermark (mkFreeRegionAllocator (fra_region self) (fra_free_list self) base);
    Ret (self', Ok tt)
  else
  let fl := fra_free_list self in
  i ← insertion_index self base;
  prev_ok ← (if i =? 0 then Ret true else e ← prev_end fl i; Ret (e <=? base));
  _ ← assert prev_ok;
  next_ok ← (if av_len fl <=? i then Ret true
             else e ← idx (av_as_slice fl) i; Ret (range_end <=? fr_base e));
  _ ← assert next_ok;
  merge_prev ← (if 0 <? i then e ← prev_end fl i; Ret (e =? base) else Ret false);
  merge_next ← (if i <? av_len fl then e ← idx (av_as_slice fl) i; Ret (fr_base e =? range_end)
                else Ret false);
  r ← merge_range fl i base aligned_size merge_prev merge_next;
  match r with
  | Err e => Ret (self, Err e)
  | Ok fl' =>
      self' ← retract_watermark (mkFreeRegionAllocator (fra_region self) fl' (fra_watermark self));
      Ret (self', Ok tt)
  end.

Definition FreeRegionAllocator_watermark (self : FreeRegionAllocator) : VirtAddr :=
  VirtAddr_new_truncate (fra_watermark self).

Definition watermark_used (self : FreeRegionAllocator) : exec Z :=
  sub64 (fra_watermark self) (vr_base (fra_region self)).

Definition free_list_len (self : FreeRegionAllocator) : Z := av_len (fra_free_list self).

(** [iter().map(|r| r.size).sum()]. *)
Fixpoint sum_sizes (l : list FreeRange) (acc : Z) : exec Z :=
  match l with
  | [] => Ret acc
  | r :: l => s ← add64 acc (fr_size r); sum_sizes l s
  end.

Definition free_bytes (self : FreeRegionAllocator) : exec Z :=
  sum_sizes (av_as_slice (fra_free_list self)) 0.
End Defs.

Arguments FreeRegionAllocator V : clear implicits.

(** ** Sorted, coalesced lists of ranges *)

Definition fr_end (r : FreeRange) : Z := fr_base r + fr_size r.

(** The ranges lie strictly between [lo] and [hi] in increasing order, none
    is empty, and no two of them touch. *)
Fixpoint gaps (lo : Z) (l : list FreeRange) (hi : Z) : Prop :=
  match l with
  | [] => lo < hi
  | r :: l => lo < fr_base r /\ 0 < fr_size r /\ gaps (fr_end r) l hi
  end.

Definition in_ranges (l : list FreeRange) (a : Z) : Prop :=
  Exists (fun r => fr_base r <= a < fr_end r) l.

Definition range_aligned (r : FreeRange) : Prop :=
  fr_base r mod PAGE_SIZE = 0 /\ fr_size r mod PAGE_SIZE = 0.

Lemma gaps_lt lo l hi : gaps lo l hi -> lo < hi.
Proof.
  revert lo. induction l as [|r l IH]; simpl; intros lo; [done|].
  intros (? & ? & H). apply IH in H. unfold fr_end in *. lia.
Qed.

Lemma gaps_mono lo lo' l hi hi' :
  gaps lo l hi -> lo' <= lo -> hi <= hi' -> gaps lo' l hi'.
Proof.
  revert lo lo'. induction l as [|r l IH]; simpl; intros lo lo' H ??; [lia|].
  destruct H as (? & ? & H). split_and!; try lia. apply (IH (fr_end r)); done || lia.
Qed.

Lemma gaps_mid lo l1 r l2 hi :
  gaps lo (l1 ++ r :: l2) hi <-> gaps lo l1 (fr_base r) /\ 0 < fr_size r /\ gaps (fr_end r) l2 hi.
Proof. revert lo. induction l1 as [|s l1 IH]; simpl; intros lo; [tauto|]. rewrite IH. tauto. Qed.

Lemma gaps_join lo l1 m l2 hi :
  gaps lo l1 m -> gaps m l2 hi -> gaps lo (l1 ++ l2) hi.
Proof.
  revert lo. induction l1 as [|s l1 IH]; simpl; intros lo H1 H2.
  - eapply gaps_mono; [done|lia|lia].
  - destruct H1 as (? & ? & ?). auto.
Qed.

Lemma gaps_in lo l hi r : gaps lo l hi -> r ∈ l -> lo < fr_base r /\ 0 < fr_size r /\ fr_end r < hi.
Proof.
  intros H (l1 & l2 & ->)%list_elem_of_split. apply gaps_mid in H as (H1 & ? & H2).
  apply gaps_lt in H1, H2. lia.
Qed.

Lemma in_ranges_app l1 l2 a : in_ranges (l1 ++ l2) a <-> in_ranges l1 a \/ in_ranges l2 a.
Proof. apply Exists_app. Qed.

Lemma in_ranges_cons r l a :
  in_ranges (r :: l) a <-> fr_base r <= a < fr_end r \/ in_ranges l a.
Proof. apply Exists_cons. Qed.

Lemma in_ranges_nil a : in_ranges [] a <-> False.
Proof. apply Exists_nil. Qed.

Lemma in_ranges_bounds lo l hi a : gaps lo l hi -> in_ranges l a -> lo < a < hi.
Proof.
  intros H (r & Hr & Ha)%Exists_exists. pose proof (gaps_in lo l hi r H Hr). lia.
Qed.

Lemma gaps_sorted lo l hi i j r s :
  gaps lo l hi -> (i < j)%nat -> l !! i = Some r -> l !! j = Some s -> fr_end r < fr_base s.
Proof.
  intros H Hij Hi Hj. apply list_elem_of_split_length in Hi as (l1 & l2 & -> & ->).
  apply gaps_mid in H as (_ & _ & H).
  rewrite lookup_app_r in Hj by lia. destruct (j - length l1)%nat as [|k] eqn:E; [lia|].
  simpl in Hj. apply list_elem_of_lookup_2 in Hj. apply (gaps_in _ _ _ _ H) in Hj. lia.
Qed.

(** ** Rounding up to pages *)

(** The number of bytes a request of [size] bytes takes. *)
Definition page_round (size : Z) : Z := PAGE_SIZE * ((size + PAGE_MASK) / PAGE_SIZE).

Lemma page_round_spec size :
  size <= page_round size < size + PAGE_SIZE /\ page_round size mod PAGE_SIZE = 0.
Proof.
  unfold page_round, PAGE_SIZE, PAGE_MASK. split; [Z.to_euclidean_division_equations; lia|].
  rewrite Z.mul_comm. apply Z.mod_mul. lia.
Qed.

Lemma wp_page_align_up size (Q : Z -> Prop) :
  0 <= size -> size + PAGE_MASK < U64 -> Q (page_round size) -> wp (page_align_up size) Q.
Proof.
  intros H0 H1 HQ. unfold page_align_up. wp_steps.
  change PAGE_MASK with (2 ^ 12 - 1) at 2. rewrite land_not_mask; [exact HQ| |lia].
  unfold PAGE_MASK in *. ulia.
Qed.

(** ** Regions *)

(** A region with canonical, page-aligned bounds on one side of the hole. *)
Definition region_ok (r : VirtRegion) : Prop :=
  vr_base r mod PAGE_SIZE = 0 /\ 0 <= vr_max_size r /\
  (0 <= vr_base r /\ vr_base r + vr_max_size r < 2 ^ 47 \/
   U64 - 2 ^ 47 <= vr_base r /\ vr_base r + vr_max_size r < U64).

Definition region_end (r : VirtRegion) : Z := vr_base r + vr_max_size r.

Lemma region_canonical r a : region_ok r -> vr_base r <= a <= region_end r -> canonical a.
Proof. unfold region_ok, region_end, canonical. lia. Qed.

Lemma region_end_u64 r : region_ok r -> 0 <= vr_base r <= region_end r /\ region_end r < U64.
Proof. unfold region_ok, region_end, U64. lia. Qed.

(** ** The contract of a range allocator

    Both allocators of the file keep it; the virtual memory manager relies on
    nothing else.  [inv] is the allocator's invariant and [allocated] the set
    of addresses it has handed out. *)

Definition alloc_contract {S : Type} (inv : S -> Prop) (region : S -> VirtRegion)
    (allocated : S -> Z -> Prop) (s : S) (n : Z) (s' : S) (o : option VirtAddr) : Prop :=
  inv s' /\ region s' = region s /\
  match o with
  | Some a =>
      a mod PAGE_SIZE = 0 /\ vr_base (region s) <= a /\ a + n <= region_end (region s) /\
      (forall x, a <= x < a + n -> ~ allocated s x) /\
      (forall x, allocated s' x <-> allocated s x \/ a <= x < a + n)
  | None =>
      s' = s /\
      (forall a, vr_base (region s) <= a -> a + n <= region_end (region s) ->
        exists x, a <= x < a + n /\ allocated s x)
  end.

Class RangeAllocator (S : Type) : Type := {
  range_allocate : S -> Z -> exec (S * option VirtAddr);
  range_inv : S -> Prop;
  range_region : S -> VirtRegion;
  range_allocated : S -> Z -> Prop;
  range_region_ok : forall s, range_inv s -> region_ok (range_region s);
  range_allocate_spec : forall s size,
    range_inv s -> 0 < size -> region_end (range_region s) + size + PAGE_MASK < U64 ->
    wp (range_allocate s size) (fun '(s', o) =>
      alloc_contract range_inv range_region range_allocated s (page_round size) s' o);
}.

(** ** The bump allocator *)

Definition ra_inv (s : RegionAllocator) : Prop :=
  region_ok (ra_region s) /\ ra_next s mod PAGE_SIZE = 0 /\
  vr_base (ra_region s) <= ra_next s <= region_end (ra_region s).

Definition ra_allocated (s : RegionAllocator) (a : Z) : Prop :=
  vr_base (ra_region s) <= a < ra_next s.

Lemma wp_bump_allocate s size :
  ra_inv s -> 0 < size -> region_end (ra_region s) + size + PAGE_MASK < U64 ->
  wp (RegionAllocator_allocate s size) (fun '(s', o) =>
    alloc_contract ra_inv ra_region ra_allocated s (page_round size) s' o).
Proof.
  intros Hinv Hs Hov. pose proof Hinv as (Hr & Hm & Hn).
  pose proof (region_end_u64 _ Hr) as Hre.
  pose proof (page_round_spec size) as [Hsz Hszm]. set (n := page_round size) in *.
  assert (n <= size + PAGE_MASK) by (unfold PAGE_SIZE, PAGE_MASK in *; lia).
  unfold RegionAllocator_allocate. wp_step. apply wp_page_align_up; [lia|lia|]. fold n.
  wp_steps; [unfold region_end in *; lia|]. fold (region_end (ra_region s)).
  unfold alloc_contract, ra_inv, ra_allocated.
  destruct (Z.ltb_spec (region_end (ra_region s)) (ra_next s + n)); wp_step.
  - split_and!; try done; try lia. intros a Ha1 Ha2. exists a. lia.
  - rewrite new_truncate_id by (apply (region_canonical (ra_region s)); [done|lia]). simpl.
    split_and!; try done; try lia.
    + rewrite Zplus_mod, Hm, Hszm. done.
Qed.

#[export] Instance bump_RangeAllocator : RangeAllocator RegionAllocator := {|
  range_allocate := RegionAllocator_allocate;
  range_inv := ra_inv;
  range_region := ra_region;
  range_allocated := ra_allocated;
  range_region_ok := fun s H => proj1 H;
  range_allocate_spec := wp_bump_allocate;
|}.

(** ** The free-list allocator *)

Section Proofs.
Context {V : Type} {N : Z} `{AV : ArrayVec FreeRange V N}.
Implicit Types (s : FreeRegionAllocator V) (l : list FreeRange).

Definition ranges s : list FreeRange := av_as_slice (fra_free_list s).

Definition fra_inv s : Prop :=
  region_ok (fra_region s) /\
  gaps (vr_base (fra_region s) - 1) (ranges s) (fra_watermark s) /\
  Forall range_aligned (ranges s) /\
  fra_watermark s mod PAGE_SIZE = 0 /\
  fra_watermark s <= region_end (fra_region s).

(** The addresses handed out and not returned. *)
Definition allocated s (a : Z) : Prop :=
  vr_base (fra_region s) <= a < fra_watermark s /\ ~ in_ranges (ranges s) a.

Lemma fra_new_inv r : region_ok r -> fra_inv (FreeRegionAllocator_new r).
Proof using.
  intros Hr. pose proof (region_end_u64 r Hr). unfold fra_inv, ranges. simpl.
  rewrite av_new_spec. split_and!; try done; simpl; [lia|apply Hr|lia].
Qed.

(** *** The scan *)

Lemma first_fit_spec (v : V) n i k :
  0 < n -> 0 <= i -> i + Z.of_nat k = av_len v ->
  Forall (fun r => 0 <= fr_base r /\ 0 < fr_size r /\ fr_end r < U64) (av_as_slice v) ->
  wp (first_fit v n i k) (fun o =>
    match o with
    | None => Forall (fun r => fr_size r < n) (drop (Z.to_nat i) (av_as_slice v))
    | Some (v', base) => exists l1 r l2,
        av_as_slice v = l1 ++ r :: l2 /\ n <= fr_size r /\ base = fr_base r /\
        av_as_slice v' = l1 ++ (if fr_size r =? n then []
                                else [mkFreeRange (fr_base r + n) (fr_size r - n)]) ++ l2
    end).
Proof using.
  unfold av_len. intros Hn. revert i. induction k as [|k IH]; intros i Hi Hk Hall; simpl.
  { wp_step. by rewrite drop_ge by lia. }
  destruct (av_as_slice v !! Z.to_nat i) as [r|] eqn:Hr;
    [|apply lookup_ge_None in Hr; lia].
  pose proof (Forall_lookup_1 _ _ _ _ Hall Hr) as (Hb & Hs & He). unfold fr_end in He.
  wp_step. eapply wp_idx; [done|done|].
  pose proof (take_drop_middle _ _ _ Hr) as Hsplit.
  destruct (Z.leb_spec n (fr_size r)).
  - destruct (Z.eqb_spec (fr_size r) n) as [Heq|Hne]; wp_step.
    + eapply wp_mono; [by apply av_remove_spec|].
      intros [v' y] [-> Hv']. wp_step. eexists _, r, _. split_and!; [done|lia|done|].
      rewrite Hv', (proj2 (Z.eqb_eq _ _)) by done. by rewrite delete_take_drop.
    + wp_steps. eapply wp_mono; [apply av_set_spec; lia|].
      intros v' Hv'. wp_step. eexists _, r, _. split_and!; [done|lia|done|].
      rewrite Hv', (proj2 (Z.eqb_neq _ _)) by done.
      apply lookup_lt_Some in Hr. by rewrite insert_take_drop.
  - eapply wp_mono; [apply IH; [lia|lia|done]|].
    intros [[v' b]|]; [done|]. intros HF.
    replace (Z.to_nat (i + 1)) with (S (Z.to_nat i)) in HF by lia.
    erewrite drop_S by done. by constructor.
Qed.

Lemma inv_ranges_bounds s :
  fra_inv s ->
  Forall (fun r => 0 <= fr_base r /\ 0 < fr_size r /\ fr_end r < U64) (ranges s).
Proof using.
  intros (Hr & Hg & _ & _ & Hw). apply Forall_forall. intros r Hin.
  apply (gaps_in _ _ _ _ Hg) in Hin as (? & ? & ?).
  pose proof (region_end_u64 _ Hr). lia.
Qed.

(** Taking [n] bytes from the front of the range [r]. *)
Lemma gaps_take lo l1 r l2 hi n :
  gaps lo (l1 ++ r :: l2) hi -> 0 < n <= fr_size r ->
  gaps lo (l1 ++ (if fr_size r =? n then []
                  else [mkFreeRange (fr_base r + n) (fr_size r - n)]) ++ l2) hi.
Proof.
  intros (H1 & H2 & H3)%gaps_mid Hn. unfold fr_end in *.
  destruct (Z.eqb_spec (fr_size r) n); simpl.
  - eapply gaps_join; [done|]. eapply gaps_mono; [done|lia|lia].
  - apply gaps_mid. simpl. unfold fr_end. simpl. split_and!; [|lia|].
    + eapply gaps_mono; [done|lia|lia].
    + by replace (fr_base r + n + (fr_size r - n)) with (fr_base r + fr_size r) by lia.
Qed.

Lemma in_ranges_take lo l1 r l2 hi n a :
  gaps lo (l1 ++ r :: l2) hi -> 0 < n <= fr_size r ->
  in_ranges (l1 ++ (if fr_size r =? n then []
                    else [mkFreeRange (fr_base r + n) (fr_size r - n)]) ++ l2) a <->
  in_ranges (l1 ++ r :: l2) a /\ ~ (fr_base r <= a < fr_base r + n).
Proof.
  intros (H1 & H2 & H3)%gaps_mid Hn. rewrite !in_ranges_app, in_ranges_cons.
  assert (in_ranges l1 a -> a < fr_base r) by (intros Hx; by apply (in_ranges_bounds _ _ _ _ H1)).
  assert (in_ranges l2 a -> fr_end r < a) by (intros Hx; by apply (in_ranges_bounds _ _ _ _ H3)).
  unfold fr_end in *.
  destruct (Z.eqb_spec (fr_size r) n).
  - rewrite in_ranges_nil. intuition lia.
  - rewrite in_ranges_cons, in_ranges_nil. unfold fr_end. simpl. intuition lia.
Qed.

Lemma range_aligned_take l1 r l2 n :
  Forall range_aligned (l1 ++ r :: l2) -> n mod PAGE_SIZE = 0 ->
  Forall range_aligned (l1 ++ (if fr_size r =? n then []
                  else [mkFreeRange (fr_base r + n) (fr_size r - n)]) ++ l2).
Proof.
  intros (H1 & (H2 & H3)%Forall_cons)%Forall_app Hn. apply Forall_app. split; [done|].
  apply Forall_app. split; [|done]. destruct (fr_size r =? n); constructor; [|done].
  destruct H2 as [Hb Hs]. split; simpl.
  - rewrite Zplus_mod, Hb, Hn. done.
  - rewrite Zminus_mod, Hs, Hn. done.
Qed.

(** *** [allocate] *)

(** What a call of [allocate] promises. *)
Definition alloc_post s (n : Z) s' (o : option VirtAddr) : Prop :=
  alloc_contract fra_inv fra_region allocated s n s' o.

Lemma alloc_from_list s n l1 r l2 v' :
  fra_inv s -> 0 < n <= fr_size r -> n mod PAGE_SIZE = 0 ->
  ranges s = l1 ++ r :: l2 ->
  av_as_slice v' = l1 ++ (if fr_size r =? n then []
                          else [mkFreeRange (fr_base r + n) (fr_size r - n)]) ++ l2 ->
  alloc_post s n (mkFreeRegionAllocator (fra_region s) v' (fra_watermark s)) (Some (fr_base r)).
Proof using.
  intros (Hr & Hg & Hal & Hw & Hwe) Hn Hna Hl Hv'. rewrite Hl in Hg, Hal.
  assert (r ∈ l1 ++ r :: l2) as Hin by set_solver.
  pose proof (gaps_in _ _ _ _ Hg Hin) as (? & ? & ?). unfold fr_end in *.
  unfold alloc_post, alloc_contract, fra_inv, allocated, ranges in *. simpl. rewrite Hv', Hl.
  split_and!; try done; try lia.
  - by apply gaps_take.
  - by apply range_aligned_take.
  - apply (proj1 (Forall_forall _ _) Hal r Hin).
  - intros x Hx [_ Hni]. apply Hni. apply in_ranges_app. right.
    apply in_ranges_cons. left. unfold fr_end. lia.
  - intros x. rewrite (in_ranges_take _ _ _ _ _ n x Hg Hn). split.
    + intros [Hx Hni]. destruct (decide (fr_base r <= x < fr_base r + n)); [by right|].
      left. split; [done|]. tauto.
    + intros [[Hx Hni]|Hx]; [tauto|]. split; [lia|tauto].
Qed.

Lemma alloc_bump s n :
  fra_inv s -> 0 < n -> n mod PAGE_SIZE = 0 ->
  fra_watermark s + n <= region_end (fra_region s) ->
  alloc_post s n (mkFreeRegionAllocator (fra_region s) (fra_free_list s) (fra_watermark s + n))
    (Some (fra_watermark s)).
Proof using.
  intros (Hr & Hg & Hal & Hw & Hwe) Hn Hna Hend.
  pose proof (gaps_lt _ _ _ Hg).
  unfold alloc_post, alloc_contract, fra_inv, allocated, ranges in *. simpl. split_and!; try done; try lia.
  - eapply gaps_mono; [done|lia|lia].
  - rewrite Zplus_mod, Hw, Hna. done.
  - intros x. split.
    + intros [Hx Hni]. destruct (decide (x < fra_watermark s)); [left|right]; [split; [lia|done]|lia].
    + intros [[Hx Hni]|Hx]; (split; [lia|]); [done|].
      intros Hin. apply (in_ranges_bounds _ _ _ _ Hg) in Hin. lia.
Qed.

(** Between two addresses of free memory that does not fit in a range lies an
    allocated one. *)
Lemma gaps_no_fit lo l hi n a :
  gaps lo l hi -> 0 < n -> Forall (fun r => fr_size r < n) l ->
  lo < a -> a + n <= hi -> exists x, a <= x < a + n /\ x < hi /\ ~ in_ranges l x.
Proof.
  revert lo. induction l as [|r l IH]; intros lo Hg Hn HF Hlo Hhi.
  { exists a. rewrite in_ranges_nil. split_and!; try lia. }
  destruct Hg as (Hb & Hs & Hg). apply Forall_cons in HF as [Hsz HF].
  pose proof (gaps_lt _ _ _ Hg). unfold fr_end in *.
  assert (forall x, x <= fr_base r + fr_size r -> ~ in_ranges l x) as Hbelow.
  { intros x Hx Hin. apply (in_ranges_bounds _ _ _ _ Hg) in Hin. lia. }
  destruct (decide (a < fr_base r)).
  - exists a. rewrite in_ranges_cons. unfold fr_end. split_and!; try lia.
    intros [?|Hin]; [lia|]. apply (Hbelow a); [lia|done].
  - destruct (decide (a <= fr_base r + fr_size r)).
    + exists (fr_base r + fr_size r). rewrite in_ranges_cons. unfold fr_end. split_and!; try lia.
      intros [?|Hin]; [lia|]. by apply (Hbelow (fr_base r + fr_size r)).
    + destruct (IH (fr_base r + fr_size r)) as (x & ? & ? & Hx); try done; [lia|].
      exists x. rewrite in_ranges_cons. unfold fr_end. split_and!; try lia.
      intros [?|Hin]; [lia|done].
Qed.

Lemma alloc_none s n :
  fra_inv s -> 0 < n -> Forall (fun r => fr_size r < n) (ranges s) ->
  region_end (fra_region s) < fra_watermark s + n -> alloc_post s n s None.
Proof using.
  intros Hinv Hn HF Hend. pose proof Hinv as (Hr & Hg & _ & _ & Hwe).
  split_and!; [done|done|done|]. intros a Ha1 Ha2.
  destruct (decide (a + n <= fra_watermark s)).
  - destruct (gaps_no_fit _ _ _ n a Hg) as (x & ? & ? & Hx); try done; [lia|].
    exists x. split; [done|]. split; [lia|done].
  - (* the last byte below the watermark is allocated *)
    exists (fra_watermark s - 1). split; [lia|]. split; [lia|].
    intros (r & Hin & Hb)%Exists_exists.
    apply (gaps_in _ _ _ _ Hg) in Hin. unfold fr_end in *. lia.
Qed.

Lemma wp_allocate s size :
  fra_inv s -> 0 < size -> region_end (fra_region s) + size + PAGE_MASK < U64 ->
  wp (FreeRegionAllocator_allocate s size) (fun '(s', o) => alloc_post s (page_round size) s' o).
Proof using.
  intros Hinv Hs Hov. pose proof Hinv as (Hr & Hg & Hal & Hw & Hwe).
  pose proof (region_end_u64 _ Hr) as Hre. pose proof (gaps_lt _ _ _ Hg).
  pose proof (page_round_spec size) as [Hsz Hszm]. set (n := page_round size) in *.
  unfold PAGE_MASK, PAGE_SIZE in *.
  unfold FreeRegionAllocator_allocate. wp_step. apply wp_page_align_up; [lia|unfold PAGE_MASK; lia|].
  fold n. rewrite (proj2 (Z.eqb_neq n 0)) by lia.
  wp_step. eapply wp_mono.
  { apply first_fit_spec; [lia|lia|unfold av_len; lia|by apply inv_ranges_bounds]. }
  intros [[v' base]|].
  - intros (l1 & r & l2 & Hl & Hn & -> & Hv'). wp_step.
    assert (r ∈ ranges s) as Hin by (unfold ranges; rewrite Hl; set_solver).
    apply (gaps_in _ _ _ _ Hg) in Hin. unfold fr_end in *.
    rewrite new_truncate_id by (apply (region_canonical (fra_region s)); [done|lia]).
    eapply alloc_from_list; try done. lia.
  - simpl. intros HF. wp_step. wp_step. wp_step. wp_step; [unfold region_end in *; ulia|].
    fold (region_end (fra_region s)).
    destruct (Z.ltb_spec (region_end (fra_region s)) (fra_watermark s + n)); wp_step.
    + apply alloc_none; try done. lia.
    + rewrite new_truncate_id by (apply (region_canonical (fra_region s)); [done|lia]).
      apply alloc_bump; try done. lia.
Qed.

(** *** [retract_watermark] *)

Definition same_allocated s s' : Prop := forall x, allocated s' x <-> allocated s x.

Lemma retract_loop_spec fuel s :
  region_ok (fra_region s) ->
  gaps (vr_base (fra_region s) - 1) (ranges s) (fra_watermark s + 1) ->
  vr_base (fra_region s) <= fra_watermark s ->
  Forall range_aligned (ranges s) -> fra_watermark s mod PAGE_SIZE = 0 ->
  fra_watermark s <= region_end (fra_region s) ->
  (length (ranges s) < fuel)%nat ->
  wp (retract_loop fuel s) (fun s' =>
    fra_inv s' /\ fra_region s' = fra_region s /\ same_allocated s s').
Proof using.
  revert s. induction fuel as [|fuel IH]; intros s Hr Hg Hlo Hal Hw Hwe Hf; [lia|]. simpl.
  pose proof (av_pop_spec (fra_free_list s)) as [Hp1 Hp2].
  destruct (av_pop (fra_free_list s)) as [fl' o]. simpl in Hp1, Hp2. fold (ranges s) in Hp1, Hp2.
  destruct o as [r|].
  - symmetry in Hp2. pose proof (take_drop_middle _ _ _ Hp2) as Hsplit.
    rewrite drop_ge in Hsplit by (apply lookup_lt_Some in Hp2; lia).
    rewrite <- Hp1 in Hsplit. clear Hp1.
    set (l' := av_as_slice fl') in *. rewrite <- Hsplit in Hg, Hal.
    apply gaps_mid in Hg as (Hg1 & Hs & Hg2). simpl in Hg2.
    pose proof (gaps_lt _ _ _ Hg1). pose proof (region_end_u64 _ Hr). unfold fr_end in *.
    apply Forall_app in Hal as [Hal1 [Hr1 _]%Forall_cons].
    wp_step. wp_step. destruct (Z.eqb_spec (fr_base r + fr_size r) (fra_watermark s)) as [E|E].
    + eapply wp_mono; [apply IH|]; simpl; try done.
      * eapply gaps_mono; [done|lia|lia].
      * lia.
      * apply Hr1.
      * lia.
      * unfold ranges. simpl. fold l'.
        rewrite <- Hsplit, length_app in Hf. simpl in Hf. lia.
      * intros s' (? & ? & Hsame). split_and!; [done|done|]. intros x. rewrite (Hsame x).
        unfold allocated, ranges. simpl. fold l'. fold (ranges s). rewrite <- Hsplit.
        rewrite in_ranges_app, in_ranges_cons, in_ranges_nil. unfold fr_end. split.
        -- intros [Hx Hni]. split; [lia|]. intros [?|[?|[]]]; [done|lia].
        -- intros [Hx Hni]. split; [|tauto].
           destruct (decide (x < fr_base r)); [lia|]. exfalso. apply Hni. right. left. lia.
    + wp_step. split_and!; try done. unfold fra_inv. rewrite <- Hsplit. split_and!; try done.
      * apply gaps_mid. split_and!; try done. simpl. unfold fr_end. lia.
      * by apply Forall_app, conj, Forall_cons.
  - wp_step. symmetry in Hp2. apply lookup_ge_None in Hp2.
    assert (ranges s = []) as Hnil by (destruct (ranges s); [done|simpl in Hp2; lia]).
    split_and!; try done. unfold fra_inv. rewrite Hnil. split_and!; try done. simpl. lia.
Qed.

Lemma wp_retract s (Q : FreeRegionAllocator V -> Prop) :
  region_ok (fra_region s) ->
  gaps (vr_base (fra_region s) - 1) (ranges s) (fra_watermark s + 1) ->
  vr_base (fra_region s) <= fra_watermark s ->
  Forall range_aligned (ranges s) -> fra_watermark s mod PAGE_SIZE = 0 ->
  fra_watermark s <= region_end (fra_region s) ->
  (forall s', fra_inv s' -> fra_region s' = fra_region s -> same_allocated s s' -> Q s') ->
  wp (retract_watermark s) Q.
Proof using.
  intros. eapply wp_mono; [apply retract_loop_spec; try done; unfold av_len, ranges; lia|].
  naive_solver.
Qed.

(** *** [deallocate] *)

(** The free ranges [l1] below and [l2] above a range that is being freed. *)
Definition around lo l1 base n l2 hi : Prop :=
  gaps lo (l1 ++ l2) hi /\ lo < base /\ 0 < n /\ base + n < hi /\
  Forall (fun r => fr_end r <= base) l1 /\ Forall (fun r => base + n <= fr_base r) l2.

Definition last_touches l1 base : bool :=
  match last l1 with Some p => fr_end p =? base | None => false end.

Definition head_touches l2 e : bool :=
  match head l2 with Some q => fr_base q =? e | None => false end.

(** The list after the freed range is merged with its neighbours. *)
Definition merged l1 base n l2 l' : Prop :=
  match last_touches l1 base, head_touches l2 (base + n) with
  | true, true => exists l1' p q l2', l1 = l1' ++ [p] /\ l2 = q :: l2' /\
      l' = l1' ++ mkFreeRange (fr_base p) (fr_size p + (n + fr_size q)) :: l2'
  | true, false => exists l1' p, l1 = l1' ++ [p] /\
      l' = l1' ++ mkFreeRange (fr_base p) (fr_size p + n) :: l2
  | false, true => exists q l2', l2 = q :: l2' /\
      l' = l1 ++ mkFreeRange base (fr_size q + n) :: l2'
  | false, false => l' = l1 ++ mkFreeRange base n :: l2
  end.

Lemma around_left lo l1 base n l2 hi :
  around lo l1 base n l2 hi -> last_touches l1 base = false -> gaps lo l1 base.
Proof.
  intros (Hg & Hlo & Hn & Hhi & H1 & H2) Hl. unfold last_touches in Hl.
  destruct l1 as [|p l1' _] using rev_ind; [done|]. rewrite last_snoc in Hl.
  apply Z.eqb_neq in Hl. apply Forall_app in H1 as [_ [Hp _]%Forall_cons].
  rewrite <- app_assoc in Hg. apply gaps_mid in Hg as (? & ? & ?).
  apply gaps_mid. split_and!; try done. simpl. lia.
Qed.

Lemma around_right lo l1 base n l2 hi :
  around lo l1 base n l2 hi -> head_touches l2 (base + n) = false -> gaps (base + n) l2 hi.
Proof.
  intros (Hg & Hlo & Hn & Hhi & H1 & H2) Hl. unfold head_touches in Hl.
  destruct l2 as [|q l2']; [done|]. simpl in *. apply Z.eqb_neq in Hl.
  apply Forall_cons in H2 as [Hq _]. apply gaps_mid in Hg as (? & ? & ?).
  split_and!; try done. lia.
Qed.

Lemma last_touches_true l1 base :
  last_touches l1 base = true -> exists l1' p, l1 = l1' ++ [p] /\ fr_end p = base.
Proof.
  unfold last_touches. destruct l1 as [|p l1' _] using rev_ind; [done|].
  rewrite last_snoc. intros ?%Z.eqb_eq. eauto.
Qed.

Lemma head_touches_true l2 e :
  head_touches l2 e = true -> exists q l2', l2 = q :: l2' /\ fr_base q = e.
Proof. destruct l2 as [|q l2']; [done|]. simpl. intros ?%Z.eqb_eq. eauto. Qed.

Lemma aligned_add a b : a mod PAGE_SIZE = 0 -> b mod PAGE_SIZE = 0 -> (a + b) mod PAGE_SIZE = 0.
Proof. intros Ha Hb. by rewrite Zplus_mod, Ha, Hb. Qed.

Lemma merged_gaps lo l1 a n l2 hi l' :
  around lo l1 a n l2 hi -> merged l1 a n l2 l' ->
  gaps lo l' hi /\ forall x, in_ranges l' x <-> in_ranges (l1 ++ l2) x \/ a <= x < a + n.
Proof.
  intros Har Hm. pose proof Har as (Hg & Hlo & Hn & Hhi & _ & _). unfold merged in Hm.
  destruct (last_touches l1 a) eqn:E1, (head_touches l2 (a + n)) eqn:E2.
  - destruct Hm as (l1' & p & q & l2' & -> & -> & ->).
    apply last_touches_true in E1 as (? & ? & [-> [= ->]]%app_inj_tail & Hp).
    apply head_touches_true in E2 as (? & ? & [= <- <-] & Hq).
    rewrite <- app_assoc in *. simpl in *. apply gaps_mid in Hg as (? & ? & ? & ? & ?).
    unfold fr_end in *. split.
    + apply gaps_mid. simpl. split_and!; [done|lia|]. eapply gaps_mono; [done| |done].
      unfold fr_end; simpl; lia.
    + intros y. rewrite !in_ranges_app, !in_ranges_cons. unfold fr_end; simpl. intuition lia.
  - destruct Hm as (l1' & p & -> & ->).
    apply last_touches_true in E1 as (? & ? & [-> [= ->]]%app_inj_tail & Hp).
    pose proof (around_right _ _ _ _ _ _ Har E2).
    rewrite <- app_assoc in *. simpl in *. apply gaps_mid in Hg as (? & ? & ?).
    unfold fr_end in *. split.
    + apply gaps_mid. simpl. split_and!; [done|lia|]. eapply gaps_mono; [done| |done].
      unfold fr_end; simpl; lia.
    + intros y. rewrite !in_ranges_app, !in_ranges_cons. unfold fr_end; simpl. intuition lia.
  - destruct Hm as (q & l2' & -> & ->).
    apply head_touches_true in E2 as (? & ? & [= <- <-] & Hq).
    pose proof (around_left _ _ _ _ _ _ Har E1).
    apply gaps_mid in Hg as (? & ? & ?). unfold fr_end in *. split.
    + apply gaps_mid. simpl. split_and!; [done|lia|]. eapply gaps_mono; [done| |done].
      unfold fr_end; simpl; lia.
    + intros y. rewrite !in_ranges_app, !in_ranges_cons. unfold fr_end; simpl. intuition lia.
  - subst l'. pose proof (around_left _ _ _ _ _ _ Har E1).
    pose proof (around_right _ _ _ _ _ _ Har E2). split.
    + apply gaps_mid. simpl. auto.
    + intros y. rewrite !in_ranges_app, !in_ranges_cons. unfold fr_end; simpl. intuition lia.
Qed.

(** A property of bases and one of sizes that survive merging. *)
Lemma merged_Forall (A B : Z -> Prop) l1 base n l2 l' :
  (forall x y, B x -> B y -> B (x + y)) ->
  merged l1 base n l2 l' -> Forall (fun r => A (fr_base r) /\ B (fr_size r)) (l1 ++ l2) ->
  A base -> B n -> Forall (fun r => A (fr_base r) /\ B (fr_size r)) l'.
Proof.
  intros HB Hm [H1 H2]%Forall_app Ha Hn. unfold merged in Hm.
  destruct (last_touches l1 base), (head_touches l2 (base + n)).
  - destruct Hm as (l1' & p & q & l2' & -> & -> & ->).
    apply Forall_app in H1 as [? [[? ?] _]%Forall_cons]. apply Forall_cons in H2 as [[? ?] ?].
    apply Forall_app. split; [done|]. constructor; simpl; auto.
  - destruct Hm as (l1' & p & -> & ->). apply Forall_app in H1 as [? [[? ?] _]%Forall_cons].
    apply Forall_app. split; [done|]. constructor; simpl; auto.
  - destruct Hm as (q & l2' & -> & ->). apply Forall_cons in H2 as [[? ?] ?].
    apply Forall_app. split; [done|]. constructor; simpl; auto.
  - subst. apply Forall_app. split; [done|]. by constructor.
Qed.

Lemma merged_spec lo l1 base n l2 hi l' :
  around lo l1 base n l2 hi -> merged l1 base n l2 l' ->
  Forall range_aligned (l1 ++ l2) -> base mod PAGE_SIZE = 0 -> n mod PAGE_SIZE = 0 ->
  gaps lo l' hi /\ Forall range_aligned l' /\
  forall a, in_ranges l' a <-> in_ranges (l1 ++ l2) a \/ base <= a < base + n.
Proof.
  intros Har Hm Hal Hb Hna. destruct (merged_gaps _ _ _ _ _ _ _ Har Hm) as [? ?].
  split_and!; try done.
  apply (merged_Forall (fun x => x mod PAGE_SIZE = 0) (fun x => x mod PAGE_SIZE = 0) l1 base n l2);
    auto using aligned_add.
Qed.

(** *** The pieces of the code of [deallocate] *)

Lemma wp_prev_end (fl : V) l1 p l2 (Q : Z -> Prop) :
  av_as_slice fl = (l1 ++ [p]) ++ l2 -> fr_end p < U64 -> Q (fr_end p) ->
  wp (prev_end fl (Z.of_nat (length (l1 ++ [p])))) Q.
Proof using.
  intros Hl Hp HQ. unfold prev_end, fr_end in *. rewrite length_app. simpl. wp_step. wp_step.
  wp_step. eapply wp_idx; [lia| |by wp_steps].
  rewrite Hl, <- app_assoc. replace (Z.to_nat _) with (length l1) by lia.
  simpl. by rewrite list_lookup_middle.
Qed.

Lemma wp_add_size (fl : V) l1 r l2 n (Q : V -> Prop) :
  av_as_slice fl = l1 ++ r :: l2 -> fr_size r + n < U64 ->
  (forall fl', av_as_slice fl' = l1 ++ mkFreeRange (fr_base r) (fr_size r + n) :: l2 -> Q fl') ->
  wp (add_size fl (Z.of_nat (length l1)) n) Q.
Proof using.
  intros Hl Hn HQ. unfold add_size. wp_step. eapply wp_idx; [lia| |].
  { rewrite Hl. rewrite Nat2Z.id. by rewrite list_lookup_middle. }
  wp_steps. eapply wp_mono; [apply av_set_spec|].
  { rewrite Hl, length_app. simpl. lia. }
  intros fl' Hfl'. apply HQ. rewrite Hfl', Hl, Nat2Z.id. by rewrite list_insert_mid.
Qed.

Lemma wp_merge_range (fl : V) lo l1 base n l2 hi :
  av_as_slice fl = l1 ++ l2 -> around lo l1 base n l2 hi -> 0 <= lo + 1 -> hi < U64 ->
  let merge_prev := last_touches l1 base in
  let merge_next := head_touches l2 (base + n) in
  wp (merge_range fl (Z.of_nat (length l1)) base n merge_prev merge_next) (fun r =>
    match r with
    | Ok fl' => merged l1 base n l2 (av_as_slice fl')
    | Err FreeListFull =>
        merge_prev = false /\ merge_next = false /\ N <= Z.of_nat (length (l1 ++ l2))
    end).
Proof using.
  intros Hl Har Hlo Hhi. cbv zeta.
  pose proof Har as (Hg & Hlob & Hn & Hhib & _ & _). unfold merged.
  assert (forall r, r ∈ l1 ++ l2 -> 0 < fr_size r /\ 0 <= fr_base r /\ fr_end r < hi) as Hin.
  { intros r Hr. apply (gaps_in _ _ _ _ Hg) in Hr. lia. }
  unfold fr_end in Hin.
  destruct (last_touches l1 base) eqn:E1, (head_touches l2 (base + n)) eqn:E2; simpl.
  - apply last_touches_true in E1 as (l1' & p & -> & Hp).
    apply head_touches_true in E2 as (q & l2' & -> & Hq). unfold fr_end in *.
    pose proof (Hin p ltac:(set_solver)). pose proof (Hin q ltac:(set_solver)).
    wp_step. eapply wp_mono.
    { apply av_remove_spec; [lia|]. rewrite Hl, Nat2Z.id. by rewrite list_lookup_middle. }
    intros [fl' y] [-> Hfl']. rewrite Hl, Nat2Z.id, list_delete_mid, <- app_assoc in Hfl'.
    simpl in Hfl'. rewrite length_app. simpl. wp_steps.
    replace (_ - 1) with (Z.of_nat (length l1')) by lia.
    eapply wp_add_size; [done|lia|]. intros fl'' H''. wp_step.
    exists l1', p, q, l2'. done.
  - apply last_touches_true in E1 as (l1' & p & -> & Hp).
    pose proof (Hin p ltac:(set_solver)). unfold fr_end in *.
    rewrite length_app. simpl. wp_steps.
    replace (_ - 1) with (Z.of_nat (length l1')) by lia.
    eapply wp_add_size; [by rewrite Hl, <- app_assoc|lia|]. intros fl'' H''. wp_step.
    exists l1', p. done.
  - apply head_touches_true in E2 as (q & l2' & -> & Hq).
    pose proof (Hin q ltac:(set_solver)).
    wp_step. eapply wp_idx; [lia|rewrite Hl, Nat2Z.id; by rewrite list_lookup_middle|].
    wp_step. eapply wp_mono; [apply av_set_spec; rewrite Hl, length_app; simpl; lia|].
    intros fl' Hfl'. rewrite Hl, Nat2Z.id, list_insert_mid in Hfl'. wp_step.
    eapply wp_add_size; [done|simpl; lia|]. intros fl'' H''. wp_step. exists q, l2'. done.
  - unfold av_is_full, av_len. rewrite Hl.
    destruct (Z.leb_spec N (Z.of_nat (length (l1 ++ l2)))); wp_step; [done|].
    eapply wp_mono; [apply av_insert_spec; rewrite Hl; rewrite ?length_app in *; lia|].
    intros fl' Hfl'. wp_step. rewrite Hfl', Hl, Nat2Z.id.
    by rewrite take_app_length, drop_app_length.
Qed.

(** The two neighbour tests read off the ends of the lists around the index. *)
Lemma wp_merge_prev (fl : V) l1 l2 base :
  av_as_slice fl = l1 ++ l2 -> Forall (fun r => fr_end r < U64) l1 ->
  wp (if 0 <? Z.of_nat (length l1) then e ← prev_end fl (Z.of_nat (length l1)); Ret (e =? base)
      else Ret false) (eq (last_touches l1 base)).
Proof using.
  intros Hl HF. unfold last_touches. destruct l1 as [|p l1' _] using rev_ind; [by simpl; wp_step|].
  apply Forall_app in HF as [_ [Hp _]%Forall_cons]. rewrite last_snoc.
  rewrite (proj2 (Z.ltb_lt _ _)) by (rewrite length_app; simpl; lia).
  wp_step. eapply wp_prev_end; [done|done|]. by wp_step.
Qed.

Lemma wp_merge_next (fl : V) l1 l2 e :
  av_as_slice fl = l1 ++ l2 ->
  wp (if Z.of_nat (length l1) <? av_len fl
      then q ← idx (av_as_slice fl) (Z.of_nat (length l1)); Ret (fr_base q =? e)
      else Ret false) (eq (head_touches l2 e)).
Proof using.
  intros Hl. unfold head_touches, av_len. rewrite Hl, length_app. destruct l2 as [|q l2']; simpl.
  - rewrite (proj2 (Z.ltb_ge _ _)) by lia. by wp_step.
  - rewrite (proj2 (Z.ltb_lt _ _)) by lia. wp_step.
    eapply wp_idx; [lia|rewrite Nat2Z.id; by rewrite list_lookup_middle|]. by wp_step.
Qed.

Lemma wp_insertion_index s base :
  fra_inv s -> ~ in_ranges (ranges s) base ->
  wp (insertion_index s base) (fun i => exists l1 l2,
    ranges s = l1 ++ l2 /\ i = Z.of_nat (length l1) /\
    Forall (fun r => fr_base r < base) l1 /\ Forall (fun r => base < fr_base r) l2).
Proof using.
  intros (_ & Hg & _) Hni. unfold insertion_index, binary_search_by_key. fold (ranges s).
  wp_step. eapply wp_mono; [apply binary_search_by_spec|].
  { intros i j x y Hij Hx Hy. pose proof (gaps_sorted _ _ _ _ _ _ _ Hg Hij Hx Hy).
    pose proof (gaps_in _ _ _ _ Hg (list_elem_of_lookup_2 _ _ _ Hx)). unfold fr_end in *.
    rewrite !Z.compare_gt_iff, !Z.compare_lt_iff. lia. }
  intros [i|i]; simpl.
  - intros (Hi & x & Hx & Hc). exfalso. apply Z.compare_eq in Hc.
    apply list_elem_of_lookup_2 in Hx. pose proof (gaps_in _ _ _ _ Hg Hx). apply Hni.
    apply Exists_exists. exists x. split; [done|]. unfold fr_end. lia.
  - intros (Hi & H1 & H2). wp_step.
    exists (take (Z.to_nat i) (ranges s)), (drop (Z.to_nat i) (ranges s)). split_and!.
    + by rewrite take_drop.
    + rewrite length_take. lia.
    + apply Forall_lookup. intros j x [Hj ?]%lookup_take_Some.
      apply Z.compare_lt_iff, (H1 j); [lia|done].
    + apply Forall_lookup. intros j x Hj. rewrite lookup_drop in Hj.
      apply Z.compare_gt_iff, (H2 (Z.to_nat i + j)%nat); [lia|done].
Qed.

(** An allocated range lies between the free ranges below and above it. *)
Lemma allocated_around s l1 l2 base n :
  fra_inv s -> ranges s = l1 ++ l2 -> 0 < n -> base + n < fra_watermark s ->
  (forall x, base <= x < base + n -> allocated s x) ->
  Forall (fun r => fr_base r < base) l1 -> Forall (fun r => base < fr_base r) l2 ->
  around (vr_base (fra_region s) - 1) l1 base n l2 (fra_watermark s).
Proof using.
  intros (_ & Hg & _) Hl Hn Hw Hall H1 H2. pose proof Hg as Hg0. rewrite Hl in Hg0.
  pose proof (Hall base ltac:(lia)) as [? _].
  split_and!; try done; try lia; rewrite !Forall_forall in *; intros r Hr.
  - specialize (H1 r Hr). destruct (decide (fr_end r <= base)); [done|].
    destruct (Hall base ltac:(lia)) as [_ []]. rewrite Hl. apply in_ranges_app. left.
    apply Exists_exists. exists r. split; [done|lia].
  - specialize (H2 r Hr). destruct (decide (base + n <= fr_base r)); [done|].
    destruct (Hall (fr_base r) ltac:(lia)) as [_ []]. rewrite Hl. apply in_ranges_app. right.
    apply Exists_exists. exists r. split; [done|].
    assert (r ∈ l1 ++ l2) as Hin by set_solver. apply (gaps_in _ _ _ _ Hg0) in Hin.
    unfold fr_end. lia.
Qed.

(** What a call of [deallocate] promises. *)
Definition free_post s (a n : Z) s' (r : result unit RegionAllocError) : Prop :=
  match r with
  | Ok _ =>
      fra_inv s' /\ fra_region s' = fra_region s /\
      forall x, allocated s' x <-> allocated s x /\ ~ (a <= x < a + n)
  | Err FreeListFull =>
      s' = s /\ N <= free_list_len s /\ a + n < fra_watermark s /\
      ~ in_ranges (ranges s) (a - 1) /\ ~ in_ranges (ranges s) (a + n)
  end.

Lemma free_at_watermark s base n :
  fra_inv s -> 0 < n -> base mod PAGE_SIZE = 0 -> base + n = fra_watermark s ->
  (forall x, base <= x < base + n -> allocated s x) ->
  wp (retract_watermark (mkFreeRegionAllocator (fra_region s) (fra_free_list s) base))
     (fun s' => free_post s base n s' (Ok tt)).
Proof using.
  intros (Hr & Hg & Hal & Hw & Hwe) Hn Hb Hend Hall.
  pose proof (Hall base ltac:(lia)) as [Hbase _].
  assert (Forall (fun r => fr_end r <= base) (ranges s)) as HF.
  { apply Forall_forall. intros r Hin. pose proof (gaps_in _ _ _ _ Hg Hin).
    destruct (decide (fr_end r <= base)); [done|]. unfold fr_end in *.
    destruct (Hall (Z.max base (fr_base r)) ltac:(lia)) as [_ []].
    apply Exists_exists. exists r. split; [done|]. unfold fr_end. lia. }
  apply wp_retract; simpl; try done; try lia.
  - unfold ranges in *. simpl. destruct (av_as_slice (fra_free_list s)) as [|p l' _] using rev_ind;
      [simpl; lia|].
    apply gaps_mid in Hg as (? & ? & ?). apply Forall_app in HF as [_ [? _]%Forall_cons].
    apply gaps_mid. split_and!; try done. simpl. lia.
  - intros s' Hinv Hreg Hsame. split_and!; [done|done|]. intros x. rewrite (Hsame x).
    unfold allocated, ranges. simpl. intuition lia.
Qed.

Lemma around_isolated lo l1 base n l2 hi :
  around lo l1 base n l2 hi ->
  last_touches l1 base = false -> head_touches l2 (base + n) = false ->
  ~ in_ranges (l1 ++ l2) (base - 1) /\ ~ in_ranges (l1 ++ l2) (base + n).
Proof.
  intros Har E1 E2. pose proof (around_left _ _ _ _ _ _ Har E1) as Hg1.
  pose proof (around_right _ _ _ _ _ _ Har E2) as Hg2. destruct Har as (_ & ? & ? & _).
  rewrite !in_ranges_app. split; intros [Hin|Hin].
  - apply Exists_exists in Hin as (r & Hr & ?). apply (gaps_in _ _ _ _ Hg1) in Hr. lia.
  - apply (in_ranges_bounds _ _ _ _ Hg2) in Hin. lia.
  - apply (in_ranges_bounds _ _ _ _ Hg1) in Hin. lia.
  - apply Exists_exists in Hin as (r & Hr & ?). apply (gaps_in _ _ _ _ Hg2) in Hr. lia.
Qed.

(** The overlap checks of [deallocate] pass. *)
Lemma wp_prev_check (fl : V) l1 l2 base (Q : bool -> Prop) :
  av_as_slice fl = l1 ++ l2 -> base < U64 -> Forall (fun r => fr_end r <= base) l1 -> Q true ->
  wp (if Z.of_nat (length l1) =? 0 then Ret true
      else e ← prev_end fl (Z.of_nat (length l1)); Ret (e <=? base)) Q.
Proof using.
  intros Hl Hb HF HQ. destruct l1 as [|p l1' _] using rev_ind; [by simpl; wp_step|].
  apply Forall_app in HF as [_ [Hp _]%Forall_cons].
  rewrite (proj2 (Z.eqb_neq _ _)) by (rewrite length_app; simpl; lia).
  wp_step. eapply wp_prev_end; [done|lia|]. wp_step. by rewrite (proj2 (Z.leb_le _ _)).
Qed.

Lemma wp_next_check (fl : V) l1 l2 e (Q : bool -> Prop) :
  av_as_slice fl = l1 ++ l2 -> Forall (fun r => e <= fr_base r) l2 -> Q true ->
  wp (if av_len fl <=? Z.of_nat (length l1) then Ret true
      else q ← idx (av_as_slice fl) (Z.of_nat (length l1)); Ret (e <=? fr_base q)) Q.
Proof using.
  intros Hl HF HQ. unfold av_len. rewrite Hl, length_app. destruct l2 as [|q l2']; simpl.
  - rewrite (proj2 (Z.leb_le _ _)) by lia. by wp_step.
  - apply Forall_cons in HF as [Hq _]. rewrite (proj2 (Z.leb_gt _ _)) by lia. wp_step.
    eapply wp_idx; [lia|rewrite Nat2Z.id; by rewrite list_lookup_middle|]. wp_step.
    by rewrite (proj2 (Z.leb_le _ _)).
Qed.

Lemma free_in_list s l1 l2 base n fl' :
  fra_inv s -> ranges s = l1 ++ l2 -> base mod PAGE_SIZE = 0 -> n mod PAGE_SIZE = 0 ->
  around (vr_base (fra_region s) - 1) l1 base n l2 (fra_watermark s) ->
  merged l1 base n l2 (av_as_slice fl') ->
  wp (retract_watermark (mkFreeRegionAllocator (fra_region s) fl' (fra_watermark s)))
     (fun s' => free_post s base n s' (Ok tt)).
Proof using.
  intros (Hr & Hg & Hal & Hw & Hwe) Hl Hb Hn Har Hm. rewrite Hl in Hal.
  destruct (merged_spec _ _ _ _ _ _ _ Har Hm Hal Hb Hn) as (Hg' & Hal' & Hin).
  pose proof (gaps_lt _ _ _ Hg). apply wp_retract; simpl; try done; try lia.
  - eapply gaps_mono; [done|lia|lia].
  - intros s' Hinv Hreg Hsame. split_and!; [done|done|]. intros x. rewrite (Hsame x).
    unfold allocated, ranges in *. simpl. rewrite Hin, Hl. tauto.
Qed.

Lemma wp_deallocate s base size :
  fra_inv s -> 0 < size -> base mod PAGE_SIZE = 0 ->
  (forall x, base <= x < base + page_round size -> allocated s x) ->
  wp (FreeRegionAllocator_deallocate s base size)
     (fun '(s', r) => free_post s base (page_round size) s' r).
Proof using.
  intros Hinv Hs Hb Hall. pose proof Hinv as (Hr & Hg & Hal & Hw & Hwe).
  pose proof (region_end_u64 _ Hr) as Hre.
  pose proof (page_round_spec size) as [Hsz Hszm]. set (n := page_round size) in *.
  pose proof (Hall base ltac:(lia)) as [Hlo _].
  pose proof (Hall (base + n - 1) ltac:(lia)) as [Hhi _].
  unfold FreeRegionAllocator_deallocate. cbv zeta.
  wp_step. apply wp_page_align_up; [lia| |].
  { clearbody n. unfold PAGE_SIZE, PAGE_MASK, U64 in *.
    apply Z.div_exact in Hszm; [|lia]. lia. }
  fold n. rewrite (proj2 (Z.eqb_neq n 0)) by lia. unfold region_end in *. wp_steps.
  destruct (Z.eqb_spec (base + n) (fra_watermark s)) as [E|E]; wp_step.
  { eapply wp_mono; [apply (free_at_watermark s base n); try done; lia|].
    intros s' Hs'. by wp_step. }
  eapply wp_mono; [apply wp_insertion_index; [done|apply Hall; lia]|].
  intros i (l1 & l2 & Hl & -> & H1 & H2).
  assert (around (vr_base (fra_region s) - 1) l1 base n l2 (fra_watermark s)) as Har
    by (apply allocated_around; try done; lia).
  pose proof Har as (_ & _ & _ & _ & H1' & H2').
  wp_step. eapply wp_prev_check; [done|lia|done|]. wp_step. wp_step.
  wp_step. eapply wp_next_check; [done|done|]. wp_step. wp_step.
  wp_step. eapply wp_mono; [eapply wp_merge_prev; [done|]|].
  { eapply Forall_impl; [done|]. simpl. intros; lia. }
  intros _ <-. wp_step. eapply wp_mono; [by eapply wp_merge_next|]. intros _ <-.
  wp_step. eapply wp_mono; [eapply wp_merge_range; [done|done|lia|lia]|].
  intros [fl'|[]].
  - intros Hm. wp_step. eapply wp_mono; [eapply (free_in_list s l1 l2 base n); try done|]. intros s' Hs'. by wp_step.
  - intros (E1 & E2 & Hfull). wp_step. unfold free_post, free_list_len, av_len.
    fold (ranges s). rewrite Hl.
    destruct (around_isolated _ _ _ _ _ _ Har E1 E2). split_and!; try done. lia.
Qed.

#[export] Instance free_list_RangeAllocator : RangeAllocator (FreeRegionAllocator V) := {|
  range_allocate := FreeRegionAllocator_allocate;
  range_inv := fra_inv;
  range_region := fra_region;
  range_allocated := allocated;
  range_region_ok := fun s H => proj1 H;
  range_allocate_spec := wp_allocate;
|}.
End Proofs.

(** ** Clients: sequences of calls

    A client holds the blocks it was given and returns only those.  A state is
    the allocator together with the live blocks, each a base and a size in
    bytes rounded to pages. *)

Definition block : Type := Z * Z.

Definition covers (x : Z) (b : block) : Prop := fst b <= x < fst b + snd b.

#[export] Instance covers_dec x b : Decision (covers x b).
Proof. unfold covers. apply _. Defined.

(** How many live blocks contain the address [x]. *)
Definition covering (x : Z) (live : list block) : nat := length (filter (covers x) live).

Section Clients.
Context {V : Type} {N : Z} `{AV : ArrayVec FreeRange V N}.
Implicit Types (s : FreeRegionAllocator V) (live : list block).

(** A request the address arithmetic of the region can represent. *)
Definition request_ok s (size : Z) : Prop :=
  0 < size /\ region_end (fra_region s) + size + PAGE_MASK < U64.

Inductive client_step : FreeRegionAllocator V * list block ->
                        FreeRegionAllocator V * list block -> Prop :=
| step_allocate s live size s' a :
    request_ok s size ->
    FreeRegionAllocator_allocate s size = Ret (s', Some a) ->
    client_step (s, live) (s', (a, page_round size) :: live)
| step_exhausted s live size s' :
    request_ok s size ->
    FreeRegionAllocator_allocate s size = Ret (s', None) ->
    client_step (s, live) (s', live)
| step_deallocate s live a size live' s' :
    0 < size -> live ≡ₚ (a, page_round size) :: live' ->
    FreeRegionAllocator_deallocate s a size = Ret (s', Ok tt) ->
    client_step (s, live) (s', live')
| step_list_full s live a size s' e :
    0 < size -> (a, page_round size) ∈ live ->
    FreeRegionAllocator_deallocate s a size = Ret (s', Err e) ->
    client_step (s, live) (s', live).

Definition client_init (r : VirtRegion) : FreeRegionAllocator V * list block :=
  (FreeRegionAllocator_new r, []).

Definition client_inv (c : FreeRegionAllocator V * list block) : Prop :=
  fra_inv (fst c) /\ Forall (fun b => fst b mod PAGE_SIZE = 0) (snd c) /\
  forall x, (covering x (snd c) <= 1)%nat /\ (covering x (snd c) = 1%nat <-> allocated (fst c) x).

Lemma covering_cons x b live :
  covering x (b :: live) = ((if decide (covers x b) then 1 else 0) + covering x live)%nat.
Proof. unfold covering. rewrite filter_cons. destruct (decide (covers x b)); simpl; lia. Qed.

Lemma covering_app x bs bs' : covering x (bs ++ bs') = (covering x bs + covering x bs')%nat.
Proof. unfold covering. by rewrite filter_app, length_app. Qed.

Lemma covering_elem x b bs : b ∈ bs -> covers x b -> (1 <= covering x bs)%nat.
Proof.
  intros (l1 & l2 & ->)%list_elem_of_split Hx. rewrite covering_app, covering_cons.
  destruct (decide (covers x b)); [lia|done].
Qed.

Lemma covering_zero x bs : (forall b, b ∈ bs -> ~ covers x b) -> covering x bs = 0%nat.
Proof.
  induction bs as [|b bs IH]; intros H; [done|]. rewrite covering_cons, IH by set_solver.
  destruct (decide (covers x b)); [|done]. by destruct (H b); [set_solver|].
Qed.

Lemma covering_perm x live live' : live ≡ₚ live' -> covering x live = covering x live'.
Proof. intros H. unfold covering. by rewrite H. Qed.

Lemma live_allocated c b x : client_inv c -> b ∈ snd c -> covers x b -> allocated (fst c) x.
Proof using.
  intros (_ & _ & Hc) (l1 & l2 & Hl)%list_elem_of_split Hx. destruct (Hc x) as [Hle Hiff].
  apply Hiff. rewrite (covering_perm x (snd c) (b :: (l1 ++ l2))) in *
    by (rewrite Hl; by rewrite Permutation_middle).
  rewrite covering_cons in *. destruct (decide (covers x b)); [lia|done].
Qed.

Lemma live_dealloc c a size :
  client_inv c -> 0 < size -> (a, page_round size) ∈ snd c ->
  wp (FreeRegionAllocator_deallocate (fst c) a size)
     (fun '(s', r) => free_post (fst c) a (page_round size) s' r).
Proof using.
  intros Hc Hs Hin. pose proof Hc as (Hinv & Hal & _). apply wp_deallocate; try done.
  - apply (proj1 (Forall_forall _ _) Hal _ Hin).
  - intros x Hx. eapply live_allocated; [done|done|]. exact Hx.
Qed.

Lemma client_step_inv c c' : client_step c c' -> client_inv c -> client_inv c'.
Proof using.
  intros Hstep Hc. pose proof Hc as (Hinv & Hal & Hcov).
  destruct Hstep as [s live size s' a [Hs Hb] E|s live size s' [Hs Hb] E
                    |s live a size live' s' Hs Hp E|s live a size s' e Hs Hin E]; simpl in *.
  - apply (wp_use _ _ _ (wp_allocate s size Hinv Hs Hb)) in E as (Hi' & _ & Ha & _ & _ & Hnew & Hall).
    split_and!; simpl; [done|by constructor|]. intros x. rewrite covering_cons, Hall.
    specialize (Hcov x) as [Hle Hiff]. specialize (Hnew x).
    destruct (decide (covers x (a, page_round size))) as [Hx|Hx]; unfold covers in Hx; simpl in Hx.
    + assert (covering x live = 0%nat) as -> by (apply Hnew in Hx; rewrite <- Hiff in Hx; lia).
      split; [lia|]. split; [by right|lia].
    + simpl. split; [done|]. rewrite Hiff. tauto.
  - by apply (wp_use _ _ _ (wp_allocate s size Hinv Hs Hb)) in E as (_ & _ & -> & _).
  - assert ((a, page_round size) ∈ live) as Hin by (rewrite Hp; set_solver).
    apply (wp_use _ _ _ (live_dealloc (s, live) a size Hc Hs Hin)) in E as (Hi' & _ & Hall).
    simpl in *. split_and!; simpl; [done|rewrite Hp in Hal; by inversion Hal|].
    intros x. specialize (Hcov x). rewrite (covering_perm _ _ _ Hp), covering_cons in Hcov.
    rewrite Hall. destruct Hcov as [Hle Hiff].
    destruct (decide (covers x (a, page_round size))) as [Hx|Hx]; unfold covers in Hx; simpl in *;
      split; try lia; rewrite <- Hiff; intuition lia.
  - by destruct e; apply (wp_use _ _ _ (live_dealloc (s, live) a size Hc Hs Hin)) in E as (-> & _).
Qed.

Lemma client_reachable_inv r c : region_ok r -> rtc client_step (client_init r) c -> client_inv c.
Proof using.
  intros Hr Hreach. assert (client_inv (client_init r)) as H0.
  { split_and!; simpl; [by apply fra_new_inv|done|]. intros x. unfold allocated, covering.
    simpl. lia. }
  revert H0. induction Hreach; [done|]. eauto using client_step_inv.
Qed.
End Clients.

(** ** Properties *)

(** First-fit allocation is sound and complete: on a well-formed allocator,
    [allocate] never panics; it returns a page-aligned address whose whole
    range was unallocated and lies in the region, and adds exactly that range
    to the allocated set; it returns [None] only if every range of the size in
    the region meets an allocated address, and then leaves the state alone. *)
Theorem region_allocate_correct {V N} `{AV : ArrayVec FreeRange V N}
    (s : FreeRegionAllocator V) (size : Z) :
  fra_inv s -> 0 < size -> region_end (fra_region s) + size + PAGE_MASK < U64 ->
  exists s' o, FreeRegionAllocator_allocate s size = Ret (s', o) /\
    alloc_contract fra_inv fra_region allocated s (page_round size) s' o.
Proof.
  intros H1 H2 H3. pose proof (wp_allocate s size H1 H2 H3) as H.
  apply wp_exists in H as ([s' o] & E & H). eauto.
Qed.

(** A state with a hole: three pages allocated, the middle one returned. *)
Definition hole_region : VirtRegion := mkVirtRegion 0x1000 0x10000.
Definition hole_state : FreeRegionAllocator (list FreeRange) :=
  mkFreeRegionAllocator hole_region [mkFreeRange 0x2000 0x1000] 0x4000.

Lemma hole_inv : fra_inv (N := 16) hole_state.
Proof.
  unfold fra_inv, ranges, region_ok, region_end. simpl. split_and!; try done; try lia.
  by repeat constructor.
Qed.

Lemma region_allocate_correct_witness :
  exists s' o, FreeRegionAllocator_allocate (N := 16) hole_state 0x800 = Ret (s', o) /\
    alloc_contract (fra_inv (N := 16)) fra_region (allocated (N := 16)) hole_state
      (page_round 0x800) s' o.
Proof.
  apply (region_allocate_correct (N := 16) hole_state 0x800);
    [exact hole_inv|lia|unfold region_end, PAGE_MASK, U64; simpl; lia].
Defined.

(** Returning an allocated range never panics and removes exactly that range
    from the allocated set, whichever neighbours it is merged with; the only
    failure is a full free list with no free neighbour on either side, which
    leaves the state alone. *)
Theorem region_deallocate_correct {V N} `{AV : ArrayVec FreeRange V N}
    (s : FreeRegionAllocator V) (a size : Z) :
  fra_inv s -> 0 < size -> a mod PAGE_SIZE = 0 ->
  (forall x, a <= x < a + page_round size -> allocated s x) ->
  exists s' r, FreeRegionAllocator_deallocate s a size = Ret (s', r) /\
    match r with
    | Ok _ =>
        fra_inv s' /\ fra_region s' = fra_region s /\
        forall x, allocated s' x <-> allocated s x /\ ~ (a <= x < a + page_round size)
    | Err FreeListFull =>
        s' = s /\ N <= free_list_len s /\ a + page_round size < fra_watermark s /\
        ~ in_ranges (ranges s) (a - 1) /\ ~ in_ranges (ranges s) (a + page_round size)
    end.
Proof.
  intros H1 H2 H3 H4. pose proof (wp_deallocate s a size H1 H2 H3 H4) as H.
  apply wp_exists in H as ([s' r] & E & H). eauto.
Qed.

Lemma region_deallocate_correct_witness :
  exists s' r, FreeRegionAllocator_deallocate (N := 16) hole_state 0x1000 0x1000 = Ret (s', r) /\
    match r with
    | Ok _ =>
        fra_inv (N := 16) s' /\ fra_region s' = fra_region hole_state /\
        forall x, allocated (N := 16) s' x <->
          allocated (N := 16) hole_state x /\ ~ (0x1000 <= x < 0x1000 + page_round 0x1000)
    | Err FreeListFull =>
        s' = hole_state /\ 16 <= free_list_len (N := 16) hole_state /\
        0x1000 + page_round 0x1000 < fra_watermark hole_state /\
        ~ in_ranges (ranges (N := 16) hole_state) (0x1000 - 1) /\
        ~ in_ranges (ranges (N := 16) hole_state) (0x1000 + page_round 0x1000)
    end.
Proof.
  apply (region_deallocate_correct (N := 16) hole_state 0x1000 0x1000);
    [exact hole_inv|lia|reflexivity|].
  intros x Hx. change (page_round 0x1000) with 0x1000 in Hx.
  split; [simpl; lia|]. unfold ranges. simpl. rewrite in_ranges_cons, in_ranges_nil.
  unfold fr_end. simpl. lia.
Defined.



(** The double-free check misses a range that ends at the watermark: with the
    middle page of three already free, returning it again together with the
    last page is accepted, and two later requests get the same address. *)
Theorem dealloc_overlap_undetected :
  exists s1 s2 s3,
    FreeRegionAllocator_deallocate (N := 16) hole_state 0x2000 0x2000 = Ret (s1, Ok tt) /\
    FreeRegionAllocator_allocate (N := 16) s1 0x1000 = Ret (s2, Some 0x2000) /\
    FreeRegionAllocator_allocate (N := 16) s2 0x1000 = Ret (s3, Some 0x2000).
Proof.
  exists (mkFreeRegionAllocator hole_region [mkFreeRange 0x2000 0x1000] 0x2000),
    (mkFreeRegionAllocator hole_region [] 0x2000), (mkFreeRegionAllocator hole_region [] 0x3000).
  split_and!; reflexivity.
Qed.

(** A request so large that the watermark plus its size exceeds 64 bits
    panics (and wraps in a release build) instead of returning [None]. *)
Theorem allocate_huge_panics :
  FreeRegionAllocator_allocate (N := 16) hole_state (U64 - 0x2000) = Panic /\
  RegionAllocator_allocate (RegionAllocator_new (mkVirtRegion 0xFFFFC00000000000 0x10000))
    (2 ^ 62) = Panic.
Proof. split; vm_compute; reflexivity. Qed.
