(* ===== verification/Pmm.v ===== *)
(** * The physical frame allocator (kernel/mm/src/pmm.rs, kernel/mm/src/lib.rs)

    One bit per 4 KiB frame, set when the frame is in use.  The bitmap is a
    list of words; the pages the allocator poisons are in the byte memory,
    reached through the direct map.  [poison] is the build option
    [hadron_debug_pmm_poison].  The allocator is proved against the set of
    free frame numbers. *)

From S2P Require Import Prelude Bitmap Mem Addr Paging.

Definition FRAME_SIZE : Z := 4096.
Definition PAGE_POISON_PATTERN : Z := 0xDEADDEAD.

Record PhysMemoryRegion : Type := mkPhysMemoryRegion {
  pmr_start : PhysAddr;
  pmr_size : Z;
  pmr_usable : bool;
}.

Inductive PmmError : Type := OutOfMemory | InvalidFrame | AlreadyInitialized | NoBitmapRegion.

Record BitmapAllocator : Type := mkBitmapAllocator {
  bitmap : list Z;
  total_frames : Z;
  free_count : Z;
  search_hint : Z;
  pmm_hhdm_offset : VirtAddr;
}.

(** ** Poisoning *)

Definition poison_page (self : BitmapAllocator) (m : mem) (phys_addr : PhysAddr) : exec mem :=
  let virt := VirtAddr_add (pmm_hhdm_offset self) phys_addr in
  for_range 0 (Z.to_nat (FRAME_SIZE / 4))
    (fun i m => Ret (store32 m (virt + 4 * i) PAGE_POISON_PATTERN)) m.

(** The words of the page from [i] on, [n] of them, all carry the pattern. *)
Fixpoint check_words (m : mem) (virt i : Z) (n : nat) : bool :=
  match n with
  | O => true
  | S n => if load32 m (virt + 4 * i) =? PAGE_POISON_PATTERN then check_words m virt (i + 1) n
           else false
  end.

Definition check_page_poison (self : BitmapAllocator) (m : mem) (phys_addr : PhysAddr) : bool :=
  let virt := VirtAddr_add (pmm_hhdm_offset self) phys_addr in
  if negb (load32 m virt =? PAGE_POISON_PATTERN) then true else
  check_words m virt 1 (Z.to_nat (FRAME_SIZE / 4 - 1)).

(** ** Construction *)

(** The highest end of a usable region, 0 if there is none. *)
Fixpoint max_usable_end (regions : list PhysMemoryRegion) (acc : Z) : exec Z :=
  match regions with
  | [] => Ret acc
  | r :: rs =>
      if pmr_usable r then
        e ← add64 (pmr_start r) (pmr_size r);
        max_usable_end rs (Z.max acc e)
      else max_usable_end rs acc
  end.

(** The first usable region of at least [bytes] bytes. *)
Fixpoint find_bitmap_region (regions : list PhysMemoryRegion) (bytes : Z) : option PhysAddr :=
  match regions with
  | [] => None
  | r :: rs =>
      if pmr_usable r && (bytes <=? pmr_size r) then Some (pmr_start r)
      else find_bitmap_region rs bytes
  end.

(** Step 5: clear the bits of one usable region. *)
Definition free_region (total : Z) (r : PhysMemoryRegion) (st : list Z * Z)
    : exec (list Z * Z) :=
  let region_start_frame := pmr_start r / FRAME_SIZE in
  let region_frame_count := pmr_size r / FRAME_SIZE in
  for_range 0 (Z.to_nat region_frame_count) (fun i '(bm, free_count) =>
    frame_idx ← add64 region_start_frame i;
    if frame_idx <? total then
      let word_idx := frame_idx / BITS_PER_WORD in
      let bit_idx := frame_idx mod BITS_PER_WORD in
      bm' ← bitmap_and_not bm word_idx bit_idx;
      fc ← add64 free_count 1;
      Ret (bm', fc)
    else Ret (bm, free_count)) st.

Fixpoint free_regions (total : Z) (regions : list PhysMemoryRegion) (st : list Z * Z)
    : exec (list Z * Z) :=
  match regions with
  | [] => Ret st
  | r :: rs =>
      st' ← (if pmr_usable r then free_region total r st else Ret st);
      free_regions total rs st'
  end.

(** Step 6: mark the frames of the bitmap itself as used. *)
Definition reserve_bitmap (total bitmap_start_frame bitmap_frame_count : Z) (st : list Z * Z)
    : exec (list Z * Z) :=
  for_range 0 (Z.to_nat bitmap_frame_count) (fun i '(bm, free_count) =>
    frame_idx ← add64 bitmap_start_frame i;
    if frame_idx <? total then
      let word_idx := frame_idx / BITS_PER_WORD in
      let bit_idx := frame_idx mod BITS_PER_WORD in
      clear ← bitmap_is_clear bm word_idx bit_idx;
      if clear : bool then
        bm' ← bitmap_or bm word_idx bit_idx;
        fc ← sub64 free_count 1;
        Ret (bm', fc)
      else Ret (bm, free_count)
    else Ret (bm, free_count)) st.

Definition BitmapAllocator_new (regions : list PhysMemoryRegion) (hhdm_offset : VirtAddr)
    : exec (result BitmapAllocator PmmError) :=
  max_phys ← max_usable_end regions 0;
  if max_phys =? 0 then Ret (Err OutOfMemory) else
  let total_frames := max_phys / FRAME_SIZE in
  t ← add64 total_frames BITS_PER_WORD;
  let bitmap_words := (t - 1) / BITS_PER_WORD in
  bitmap_bytes ← mul64 bitmap_words 8;
  b ← add64 bitmap_bytes FRAME_SIZE;
  let bitmap_frame_count := (b - 1) / FRAME_SIZE in
  match find_bitmap_region regions bitmap_bytes with
  | None => Ret (Err NoBitmapRegion)
  | Some bitmap_phys_start =>
      let bm := replicate (Z.to_nat bitmap_words) (U64 - 1) in
      st ← free_regions total_frames regions (bm, 0);
      let bitmap_start_frame := bitmap_phys_start / FRAME_SIZE in
      '(bm', free_count) ← reserve_bitmap total_frames bitmap_start_frame bitmap_frame_count st;
      Ret (Ok (mkBitmapAllocator bm' total_frames free_count 0 hhdm_offset))
  end.

(** ** Allocation *)

Section Poison.
Context (poison : bool).

(** The scan of [allocate_frame] at [offset], with [n] words left to visit. *)
Fixpoint allocate_loop (self : BitmapAllocator) (m : mem) (start offset : Z) (n : nat)
    : exec (BitmapAllocator * option Z) :=
  match n with
  | O => Ret (self, None)
  | S n =>
      let words := Z.of_nat (length (bitmap self)) in
      p ← add64 start offset;
      let word_idx := p mod words in
      word ← idx (bitmap self) word_idx;
      if word =? U64 - 1 then allocate_loop self m start (offset + 1) n else
      let bit_idx := trailing_zeros64 (not64 word) in
      q ← mul64 word_idx BITS_PER_WORD;
      frame_idx ← add64 q bit_idx;
      if total_frames self <=? frame_idx then allocate_loop self m start (offset + 1) n else
      bm ← bitmap_or (bitmap self) word_idx bit_idx;
      fc ← sub64 (free_count self) 1;
      let self' := mkBitmapAllocator bm (total_frames self) fc word_idx (pmm_hhdm_offset self) in
      phys_addr ← mul64 frame_idx FRAME_SIZE;
      _ ← (if poison then
             a ← PhysAddr_new phys_addr;
             assert (check_page_poison self' m a)
           else Ret tt);
      a ← PhysAddr_new phys_addr;
      f ← PhysFrame_containing_address Size4KiB a;
      Ret (self', Some f)
  end.

Definition allocate_frame (self : BitmapAllocator) (m : mem) : exec (BitmapAllocator * option Z) :=
  if free_count self =? 0 then Ret (self, None) else
  allocate_loop self m (search_hint self) 0 (length (bitmap self)).

(** The loop over the bits of a partly used word; it leaves at the end of the
    word, past the last frame, or when the run is long enough. *)
Fixpoint bit_loop (word word_idx total count bit : Z) (n : nat) (run_start run_len : Z)
    : exec (Z * Z) :=
  match n with
  | O => Ret (run_start, run_len)
  | S n =>
      base ← mul64 word_idx BITS_PER_WORD;
      fi ← add64 base bit;
      if total <=? fi then Ret (run_start, run_len) else
      if negb (Z.land word (Z.shiftl 1 bit) =? 0) then
        run_start ← add64 fi 1;
        bit_loop word word_idx total count (bit + 1) n run_start 0
      else
        let run_start := if run_len =? 0 then fi else run_start in
        run_len ← add64 run_len 1;
        if count <=? run_len then Ret (run_start, run_len)
        else bit_loop word word_idx total count (bit + 1) n run_start run_len
  end.

(** [(word_idx + 1) * BITS_PER_WORD]. *)
Definition next_word (word_idx : Z) : exec Z :=
  w ← add64 word_idx 1;
  mul64 w BITS_PER_WORD.

(** The word-by-word scan of [allocate_frames]; every round moves to the next
    word, so one more round than words is enough. *)
Fixpoint run_loop (fuel : nat) (self : BitmapAllocator) (count run_start run_len frame_idx : Z)
    : exec (Z * Z) :=
  if total_frames self <=? frame_idx then Ret (run_start, run_len) else
  match fuel with
  | O => Panic
  | S fuel =>
      let word_idx := frame_idx / BITS_PER_WORD in
      word ← idx (bitmap self) word_idx;
      if word =? U64 - 1 then
        next ← next_word word_idx;
        run_loop fuel self count next 0 next
      else if word =? 0 then
        base ← mul64 word_idx BITS_PER_WORD;
        rest ← sub64 (total_frames self) base;
        let extend := Z.min BITS_PER_WORD rest in
        let run_start := if run_len =? 0 then base else run_start in
        run_len ← add64 run_len extend;
        if count <=? run_len then Ret (run_start, run_len) else
        next ← next_word word_idx;
        run_loop fuel self count run_start run_len next
      else
        let bit_start := frame_idx mod BITS_PER_WORD in
        '(run_start, run_len) ← bit_loop word word_idx (total_frames self) count bit_start
                                  (Z.to_nat (BITS_PER_WORD - bit_start)) run_start run_len;
        if count <=? run_len then Ret (run_start, run_len) else
        next ← next_word word_idx;
        run_loop fuel self count run_start run_len next
  end.

(** Marking the run as used. *)
Definition mark_run (self : BitmapAllocator) (m : mem) (run_start count : Z)
    : exec BitmapAllocator :=
  for_range 0 (Z.to_nat count) (fun i self =>
    fi ← add64 run_start i;
    let word_idx := fi / BITS_PER_WORD in
    let bit_idx := fi mod BITS_PER_WORD in
    bm ← bitmap_or (bitmap self) word_idx bit_idx;
    let self := mkBitmapAllocator bm (total_frames self) (free_count self) (search_hint self)
                  (pmm_hhdm_offset self) in
    _ ← (if poison then
           phys_addr ← mul64 fi FRAME_SIZE;
           a ← PhysAddr_new phys_addr;
           assert (check_page_poison self m a)
         else Ret tt);
    Ret self) self.

Definition allocate_frames (self : BitmapAllocator) (m : mem) (count : Z)
    : exec (BitmapAllocator * option Z) :=
  if count =? 0 then Ret (self, None) else
  if count =? 1 then allocate_frame self m else
  if free_count self <? count then Ret (self, None) else
  '(run_start, run_len) ← run_loop (length (bitmap self)) self count 0 0 0;
  if run_len <? count then Ret (self, None) else
  self' ← mark_run self m run_start count;
  fc ← sub64 (free_count self') count;
  e ← add64 run_start count;
  let self' := mkBitmapAllocator (bitmap self') (total_frames self') fc (e / BITS_PER_WORD)
                 (pmm_hhdm_offset self') in
  p ← mul64 run_start FRAME_SIZE;
  phys ← PhysAddr_new p;
  f ← PhysFrame_containing_address Size4KiB phys;
  Ret (self', Some f).

(** ** Deallocation *)

Definition deallocate_frame (self : BitmapAllocator) (m : mem) (frame : Z)
    : exec (BitmapAllocator * mem * result unit PmmError) :=
  let frame_idx := frame / FRAME_SIZE in
  if total_frames self <=? frame_idx then Ret (self, m, Err InvalidFrame) else
  let word_idx := frame_idx / BITS_PER_WORD in
  let bit_idx := frame_idx mod BITS_PER_WORD in
  clear ← bitmap_is_clear (bitmap self) word_idx bit_idx;
  _ ← assert (negb clear);
  bm ← bitmap_and_not (bitmap self) word_idx bit_idx;
  fc ← add64 (free_count self) 1;
  let self := mkBitmapAllocator bm (total_frames self) fc (search_hint self)
                (pmm_hhdm_offset self) in
  m ← (if poison then poison_page self m frame else Ret m);
  let hint := if word_idx <? search_hint self then word_idx else search_hint self in
  Ret (mkBitmapAllocator bm (total_frames self) fc hint (pmm_hhdm_offset self), m, Ok tt).

(** One round of [deallocate_frames]. *)
Definition deallocate_round (start_idx i : Z) (st : BitmapAllocator * mem)
    : exec (BitmapAllocator * mem) :=
  let (self, m) := st in
  fi ← add64 start_idx i;
  let word_idx := fi / BITS_PER_WORD in
  let bit_idx := fi mod BITS_PER_WORD in
  clear ← bitmap_is_clear (bitmap self) word_idx bit_idx;
  _ ← assert (negb clear);
  bm ← bitmap_and_not (bitmap self) word_idx bit_idx;
  fc ← add64 (free_count self) 1;
  let self := mkBitmapAllocator bm (total_frames self) fc (search_hint self)
                (pmm_hhdm_offset self) in
  m ← (if poison then
         p ← mul64 fi FRAME_SIZE;
         a ← PhysAddr_new p;
         poison_page self m a
       else Ret m);
  Ret (self, m).

Definition deallocate_frames (self : BitmapAllocator) (m : mem) (frame count : Z)
    : exec (BitmapAllocator * mem * result unit PmmError) :=
  let start_idx := frame / FRAME_SIZE in
  e ← add64 start_idx count;
  if total_frames self <? e then Ret (self, m, Err InvalidFrame) else
  '(self, m) ← for_range 0 (Z.to_nat count) (deallocate_round start_idx) (self, m);
  let hint_word := start_idx / BITS_PER_WORD in
  let hint := if hint_word <? search_hint self then hint_word else search_hint self in
  Ret (mkBitmapAllocator (bitmap self) (total_frames self) (free_count self) hint
         (pmm_hhdm_offset self), m, Ok tt).
End Poison.

(** ** The global instance *)

Definition pmm_init (PMM : option BitmapAllocator) (regions : list PhysMemoryRegion)
    (hhdm_offset : VirtAddr) : exec (option BitmapAllocator) :=
  r ← BitmapAllocator_new regions hhdm_offset;
  match r with
  | Err _ => Panic
  | Ok allocator =>
      _ ← assert (match PMM with None => true | Some _ => false end);
      Ret (Some allocator)
  end.

Definition pmm_with {R} (PMM : option BitmapAllocator)
    (f : BitmapAllocator -> exec (BitmapAllocator * R)) : exec (option BitmapAllocator * R) :=
  pmm ← expect PMM;
  '(pmm, r) ← f pmm;
  Ret (Some pmm, r).

(** ** Facts: the bitmap as a set *)

Definition free_set (bm : list Z) (total : Z) : gset Z :=
  list_to_set (filter (fun f => used bm f = false) (seqZ 0 total)).

Lemma elem_of_free_set bm total f :
  f ∈ free_set bm total <-> 0 <= f < total /\ used bm f = false.
Proof.
  unfold free_set. rewrite elem_of_list_to_set, list_elem_of_filter, elem_of_seqZ, Z.add_0_l. tauto.
Qed.

(** ** The invariant *)

Definition bm_ok (bm : list Z) (total : Z) : Prop :=
  0 <= total <= bits_len bm /\ bits_len bm < total + BITS_PER_WORD /\ Forall is_u64 bm /\
  forall f, total <= f -> used bm f = true.

Definition pmm_free (s : BitmapAllocator) : gset Z := free_set (bitmap s) (total_frames s).

Definition pmm_inv (s : BitmapAllocator) : Prop :=
  bm_ok (bitmap s) (total_frames s) /\
  free_count s = Z.of_nat (size (pmm_free s)) /\
  total_frames s * FRAME_SIZE <= 2 ^ 47 /\
  0 <= search_hint s <= Z.of_nat (length (bitmap s)) /\
  U64 - 2 ^ 47 <= pmm_hhdm_offset s /\
  pmm_hhdm_offset s + total_frames s * FRAME_SIZE < U64.

Lemma bitmap_set_remove bm bm' f total :
  bitmap_set bm bm' f true -> free_set bm' total = free_set bm total ∖ {[f]}.
Proof.
  intros (_ & _ & Hu). apply set_eq. intros g.
  rewrite elem_of_difference, elem_of_singleton, !elem_of_free_set. split.
  - intros [Hg Hf]. rewrite Hu in Hf by lia. destruct (Z.eqb_spec g f); [done|tauto].
  - intros [[Hg Hf] Hne]. rewrite Hu, (proj2 (Z.eqb_neq _ _)) by (done || lia). done.
Qed.

Lemma bitmap_set_add bm bm' f total :
  bitmap_set bm bm' f false -> 0 <= f < total -> free_set bm' total = {[f]} ∪ free_set bm total.
Proof.
  intros (_ & _ & Hu) Hf. apply set_eq. intros g.
  rewrite elem_of_union, elem_of_singleton, !elem_of_free_set. split.
  - intros [Hg Hg']. rewrite Hu in Hg' by lia. destruct (Z.eqb_spec g f); [by left|by right].
  - intros [->|[Hg Hg']]; (split; [done|]); rewrite Hu by lia.
    + by rewrite Z.eqb_refl.
    + by destruct (g =? f).
Qed.

Lemma bitmap_set_ok bm bm' f b total :
  bitmap_set bm bm' f b -> bm_ok bm total -> (b = false -> f < total) -> bm_ok bm' total.
Proof.
  intros (Hl & Hu64 & Hu) (Ht & Ht' & _ & Htail) Hb. unfold bm_ok, bits_len in *. rewrite Hl.
  split_and!; try done; try lia. intros g Hg. rewrite Hu by lia.
  destruct (Z.eqb_spec g f) as [->|]; [|auto]. destruct b; [done|]. specialize (Hb eq_refl). lia.
Qed.

Lemma size_remove (X : gset Z) f : f ∈ X -> Z.of_nat (size (X ∖ {[f]})) = Z.of_nat (size X) - 1.
Proof.
  intros Hf. rewrite size_difference by set_solver. rewrite size_singleton.
  assert (size X <> 0)%nat by (intros Hs; apply size_empty_inv in Hs; set_solver). lia.
Qed.

Lemma size_add (X : gset Z) f : f ∉ X -> Z.of_nat (size ({[f]} ∪ X)) = Z.of_nat (size X) + 1.
Proof. intros Hf. rewrite size_union by set_solver. rewrite size_singleton. lia. Qed.

Lemma free_set_bound bm total : 0 <= total -> Z.of_nat (size (free_set bm total)) <= total.
Proof.
  intros Ht. transitivity (Z.of_nat (size (list_to_set (seqZ 0 total) : gset Z))).
  - apply inj_le, subseteq_size. intros f. rewrite elem_of_free_set, elem_of_list_to_set, elem_of_seqZ. lia.
  - rewrite size_list_to_set by apply NoDup_seqZ. rewrite length_seqZ. lia.
Qed.

(** ** Poison *)

Definition page_virt (s : BitmapAllocator) (f : Z) : Z := pmm_hhdm_offset s + f * FRAME_SIZE.

Lemma page_virt_add s f :
  pmm_inv s -> 0 <= f < total_frames s ->
  VirtAddr_add (pmm_hhdm_offset s) (f * FRAME_SIZE) = page_virt s f.
Proof.
  intros (_ & _ & _ & _ & Ho & He) Hf. unfold page_virt, FRAME_SIZE in *.
  unfold VirtAddr_add, wrapping_add64. rewrite Z.mod_small by ulia.
  apply new_truncate_id. right. ulia.
Qed.

Lemma poison_page_spec s m a :
  let v := VirtAddr_add (pmm_hhdm_offset s) a in
  wp (poison_page s m a) (fun m' =>
    changed_only v (v + FRAME_SIZE) m m' /\
    forall i, 0 <= i < FRAME_SIZE / 4 -> load32 m' (v + 4 * i) = PAGE_POISON_PATTERN).
Proof.
  cbv zeta. unfold poison_page. set (v := VirtAddr_add _ _).
  change (FRAME_SIZE / 4) with 1024. change FRAME_SIZE with 4096.
  eapply wp_mono.
  - apply (wp_for_range (fun k m' => changed_only v (v + 4096) m m' /\
      forall i, 0 <= i < k -> load32 m' (v + 4 * i) = PAGE_POISON_PATTERN)).
    + split; [apply changed_only_refl|]. lia.
    + intros i m' Hi [Hc Hl]. wp_step. split.
      * eapply changed_only_trans; [done|]. eapply changed_only_weaken, store_changed; lia.
      * intros j Hj. destruct (decide (j = i)) as [->|Hne].
        -- by rewrite load_store_eq.
        -- rewrite load_store_ne by lia. apply Hl. lia.
  - intros m' [Hc Hl]. split; [done|]. intros i Hi. apply Hl. lia.
Qed.

Lemma check_words_spec m v i n :
  check_words m v i n = true <->
  forall j, i <= j < i + Z.of_nat n -> load32 m (v + 4 * j) = PAGE_POISON_PATTERN.
Proof.
  revert i. induction n as [|n IH]; intros i; cbn [check_words]; [split; [lia|done]|].
  destruct (Z.eqb_spec (load32 m (v + 4 * i)) PAGE_POISON_PATTERN) as [E|E].
  - rewrite IH. split; intros H j Hj; [|apply H; lia].
    destruct (decide (j = i)) as [->|]; [done|apply H; lia].
  - split; [done|]. intros H. destruct E. apply H. lia.
Qed.

Lemma check_page_poison_spec s m a :
  let v := VirtAddr_add (pmm_hhdm_offset s) a in
  check_page_poison s m a = true <->
  load32 m v <> PAGE_POISON_PATTERN \/
  forall j, 0 <= j < FRAME_SIZE / 4 -> load32 m (v + 4 * j) = PAGE_POISON_PATTERN.
Proof.
  cbv zeta. unfold check_page_poison. set (v := VirtAddr_add _ _).
  change (FRAME_SIZE / 4) with 1024. change (Z.to_nat (1024 - 1)) with 1023%nat.
  destruct (Z.eqb_spec (load32 m v) PAGE_POISON_PATTERN) as [E|E]; cbn [negb].
  - rewrite check_words_spec. split.
    + intros H. right. intros j Hj. destruct (decide (j = 0)) as [->|]; [by rewrite Z.add_0_r|].
      apply H. lia.
    + intros [?|H]; [done|]. intros j Hj. apply H. lia.
  - split; [by left|done].
Qed.

Lemma check_page_poison_ext s s' m m' a :
  pmm_hhdm_offset s' = pmm_hhdm_offset s ->
  let v := VirtAddr_add (pmm_hhdm_offset s) a in
  (forall x, v <= x < v + FRAME_SIZE -> m' x = m x) ->
  check_page_poison s m a = true -> check_page_poison s' m' a = true.
Proof.
  intros Ho. cbv zeta. rewrite !check_page_poison_spec, Ho. set (v := VirtAddr_add _ _).
  change (FRAME_SIZE / 4) with 1024. change FRAME_SIZE with 4096. intros Hm.
  assert (forall j, 0 <= j < 1024 -> load32 m' (v + 4 * j) = load32 m (v + 4 * j)) as Hl.
  { intros j Hj. apply load_ext. intros x Hx. apply Hm. lia. }
  intros [H|H]; [left|right].
  - specialize (Hl 0 ltac:(lia)). rewrite Z.mul_0_r, Z.add_0_r in Hl. congruence.
  - intros j Hj. rewrite Hl by done. auto.
Qed.

(** ** Allocation of one frame *)

Section PoisonFacts.
Context (poison : bool).

(** Every free page is either untouched since boot or carries the pattern. *)
Definition poison_ok (s : BitmapAllocator) (m : mem) : Prop :=
  poison = true -> forall f, f ∈ pmm_free s -> check_page_poison s m (f * FRAME_SIZE) = true.

Definition same_config (s s' : BitmapAllocator) : Prop :=
  total_frames s' = total_frames s /\ pmm_hhdm_offset s' = pmm_hhdm_offset s.

(** What a caller of [allocate_frame] gets: a free frame, now used; or nothing
    when no frame is free. *)
Definition frame_taken (s s' : BitmapAllocator) (o : option Z) : Prop :=
  pmm_inv s' /\ same_config s s' /\
  match o with
  | Some a => exists f, a = f * FRAME_SIZE /\ f ∈ pmm_free s /\ pmm_free s' = pmm_free s ∖ {[f]}
  | None => s' = s /\ pmm_free s = ∅
  end.

Lemma wp_frame_address f (Q : Z -> Prop) :
  0 <= f -> f * FRAME_SIZE < 2 ^ 47 -> Q (f * FRAME_SIZE) ->
  wp (a ← PhysAddr_new (f * FRAME_SIZE); PhysFrame_containing_address Size4KiB a) Q.
Proof.
  intros H0 Hf HQ. unfold FRAME_SIZE in *. wp_step. apply wp_PhysAddr_new; [unfold is_phys; lia|].
  apply wp_PhysFrame_containing_aligned; [unfold is_phys; lia| |done].
  simpl. apply Z.mod_mul. lia.
Qed.

(** The first clear bit of a word that is not full. *)
Lemma first_clear_bit bm w word :
  Forall is_u64 bm -> 0 <= w -> bm !! Z.to_nat w = Some word -> word <> U64 - 1 ->
  let b := trailing_zeros64 (not64 word) in
  0 <= b < 64 /\ used bm (w * BITS_PER_WORD + b) = false.
Proof.
  intros Hu Hw Hx Hne. cbv zeta.
  assert (is_u64 word) as Hword by (by eapply Forall_lookup_1).
  destruct (trailing_zeros64_spec (not64 word)) as [Hb Ht].
  { apply not64_u64. } { rewrite not64_zero_iff; done. }
  split; [done|]. rewrite not64_testbit in Ht by done.
  unfold used, BITS_PER_WORD. set (b := trailing_zeros64 _) in *.
  replace ((w * 64 + b) / 64) with w by (Z.to_euclidean_division_equations; lia).
  replace ((w * 64 + b) mod 64) with b by (Z.to_euclidean_division_equations; lia).
  rewrite Hx. by destruct (Z.testbit word b).
Qed.

(** The tail of a full word holds no free frame. *)
Lemma full_word_used bm w :
  bm !! Z.to_nat w = Some (U64 - 1) -> 0 <= w ->
  forall f, w * BITS_PER_WORD <= f < (w + 1) * BITS_PER_WORD -> used bm f = true.
Proof.
  intros Hw Hw0 f Hf. unfold used, BITS_PER_WORD in *.
  replace (f / 64) with w by (Z.to_euclidean_division_equations; lia). rewrite Hw.
  change (U64 - 1) with (Z.ones 64). apply Z.ones_spec_low.
  apply Z.mod_pos_bound. lia.
Qed.

Lemma zero_word_free bm w :
  bm !! Z.to_nat w = Some 0 -> 0 <= w ->
  forall f, w * BITS_PER_WORD <= f < (w + 1) * BITS_PER_WORD -> used bm f = false.
Proof.
  intros Hw Hw0 f Hf. unfold used, BITS_PER_WORD in *.
  replace (f / 64) with w by (Z.to_euclidean_division_equations; lia). rewrite Hw.
  apply Z.testbit_0_l.
Qed.

Lemma take_one_inv s bm w f :
  pmm_inv s -> f ∈ pmm_free s -> bitmap_set (bitmap s) bm f true ->
  0 <= w < Z.of_nat (length (bitmap s)) ->
  frame_taken s (mkBitmapAllocator bm (total_frames s) (free_count s - 1) w (pmm_hhdm_offset s))
    (Some (f * FRAME_SIZE)).
Proof using.
  intros (Hok & Hfc & Hmax & Hh & Ho & He) Hf Hset Hw.
  assert (pmm_free (mkBitmapAllocator bm (total_frames s) (free_count s - 1) w (pmm_hhdm_offset s))
          = pmm_free s ∖ {[f]}) as Hfree by (by apply bitmap_set_remove).
  pose proof (proj1 Hset) as Hlen.
  unfold frame_taken, pmm_inv, same_config. simpl. split_and!; try done; try lia.
  - eapply bitmap_set_ok; [done|done|done].
  - rewrite Hfree, size_remove by done. lia.
  - eauto.
Qed.

Lemma allocate_loop_spec s m start offset n :
  pmm_inv s -> poison_ok s m -> 0 <= start <= Z.of_nat (length (bitmap s)) -> 0 <= offset ->
  offset + Z.of_nat n <= Z.of_nat (length (bitmap s)) ->
  wp (allocate_loop poison s m start offset n) (fun '(s', o) =>
    match o with
    | Some a => frame_taken s s' (Some a)
    | None => s' = s /\ forall k, offset <= k < offset + Z.of_nat n ->
        bitmap s !! Z.to_nat ((start + k) mod Z.of_nat (length (bitmap s))) = Some (U64 - 1)
    end).
Proof using.
  intros Hinv Hp Hs. pose proof Hinv as (Hok & Hfc & Hmax & _ & Ho & He).
  pose proof Hok as (Ht & Ht' & Hu & Htail). unfold bits_len in *.
  revert offset. induction n as [|n IH]; intros offset Hoff Hn; cbn [allocate_loop];
    [wp_step; split; [done|lia]|].
  set (words := Z.of_nat (length (bitmap s))) in *.
  assert (words <= 2 ^ 47) by (unfold FRAME_SIZE, BITS_PER_WORD in *; lia).
  wp_step. wp_step. wp_step. set (w := (start + offset) mod words).
  assert (0 <= w < words) as Hw by (apply Z.mod_pos_bound; lia).
  destruct (bitmap s !! Z.to_nat w) as [word|] eqn:Hword;
    [|apply lookup_ge_None in Hword; unfold words in *; lia].
  eapply wp_idx; [lia|done|].
  destruct (Z.eqb_spec word (U64 - 1)) as [->|Hne].
  { eapply wp_mono; [apply IH; lia|]. intros [s' [a|]]; [done|]. intros [-> HF]. split; [done|].
    intros k Hk. destruct (decide (k = offset)) as [->|]; [done|]. apply HF. lia. }
  destruct (first_clear_bit (bitmap s) w word) as [Hb Hfree]; try done; [lia|].
  set (b := trailing_zeros64 (not64 word)) in *. unfold BITS_PER_WORD in Hfree.
  assert (w * 64 + b < total_frames s) as Hlt.
  { destruct (Z.lt_ge_cases (w * 64 + b) (total_frames s)) as [|Hge]; [done|].
    rewrite Htail in Hfree; done. }
  unfold BITS_PER_WORD. unfold FRAME_SIZE, BITS_PER_WORD in *. wp_steps.
  rewrite (proj2 (Z.leb_gt _ _)) by done. set (f := w * 64 + b) in *.
  assert (f ∈ pmm_free s) as Hin by (apply elem_of_free_set; split; [lia|done]).
  wp_step. replace w with (f / 64) by (unfold f; Z.to_euclidean_division_equations; lia).
  replace b with (f mod 64) at 1 by (unfold f; Z.to_euclidean_division_equations; lia).
  apply wp_bitmap_or; [done|unfold bits_len, BITS_PER_WORD; lia|].
  intros bm Hset.
  assert (0 < free_count s).
  { rewrite Hfc. pose proof (size_remove _ _ Hin). lia. }
  replace (f / 64) with w by (unfold f; Z.to_euclidean_division_equations; lia).
  wp_steps. pose proof (take_one_inv s bm w f Hinv Hin Hset ltac:(unfold words in *; lia)) as Htk.
  assert (is_phys (f * 4096)) by (unfold is_phys; lia).
  apply (wp_mono _ (fun _ => True)).
  { destruct poison eqn:Ep; [|by wp_step]. wp_step. apply wp_PhysAddr_new; [done|].
    wp_step; [|done]. eapply (check_page_poison_ext s); [done|done|]. by apply Hp. }
  intros _ _. wp_step. apply wp_PhysAddr_new; [done|]. wp_step.
  apply wp_PhysFrame_containing_aligned; [done|apply Z.mod_mul; simpl; lia|].
  by wp_step.
Qed.

Lemma wp_pmm_allocate_frame s m :
  pmm_inv s -> poison_ok s m ->
  wp (allocate_frame poison s m) (fun '(s', o) => frame_taken s s' o).
Proof using.
  intros Hinv Hp. pose proof Hinv as (Hok & Hfc & _ & Hh & _). unfold allocate_frame.
  assert (size (pmm_free s) = 0%nat -> pmm_free s = ∅) as Hemp
    by (intros; by apply leibniz_equiv, size_empty_inv).
  destruct (Z.eqb_spec (free_count s) 0) as [E|E].
  { wp_step. split_and!; try done. apply Hemp. lia. }
  eapply wp_mono; [apply allocate_loop_spec; try done; lia|].
  intros [s' [a|]]; [done|]. intros [-> HF]. exfalso.
  assert (exists f, f ∈ pmm_free s) as [f [Hf Hfree]%elem_of_free_set].
  { apply set_choose_L. intros He. rewrite He, size_empty in Hfc. lia. }
  destruct Hok as (Ht & _ & _). unfold bits_len, BITS_PER_WORD in *.
  set (words := Z.of_nat (length (bitmap s))) in *.
  assert (0 <= f / 64 < words) as Hfw by (Z.to_euclidean_division_equations; lia).
  set (k := (f / 64 - search_hint s) mod words).
  assert (0 <= k < words) as Hk by (apply Z.mod_pos_bound; lia).
  assert ((search_hint s + k) mod words = f / 64) as Hmod.
  { unfold k. rewrite Zplus_mod_idemp_r. replace (_ + _) with (f / 64) by lia.
    by apply Z.mod_small. }
  specialize (HF k ltac:(lia)). rewrite Hmod in HF.
  rewrite (full_word_used (bitmap s) (f / 64)) in Hfree; try done; [lia|].
  unfold BITS_PER_WORD. Z.to_euclidean_division_equations; lia.
Qed.

(** ** Allocation of contiguous frames *)

(** No [count] consecutive frames below [e] are free. *)
Definition no_run (bm : list Z) (count e : Z) : Prop :=
  forall x, 0 <= x -> x + count <= e -> exists i, x <= i < x + count /\ used bm i = true.

(** The state of the scan at frame [e]: the last [run_len] frames before [e]
    are free, the one before them is not, and no long enough run has ended. *)
Definition scan_inv (bm : list Z) (count e run_start run_len : Z) : Prop :=
  0 <= run_len <= e /\ run_len < count /\
  (forall i, e - run_len <= i < e -> used bm i = false) /\
  (e = run_len \/ used bm (e - run_len - 1) = true) /\
  (0 < run_len -> run_start = e - run_len) /\
  no_run bm count e.

Definition run_found (bm : list Z) (total count run_start run_len : Z) : Prop :=
  count <= run_len /\ 0 <= run_start /\ run_start + run_len <= total /\
  forall i, run_start <= i < run_start + run_len -> used bm i = false.

Lemma scan_used bm count e k rs rl rs' :
  scan_inv bm count e rs rl -> 1 <= k -> (forall i, e <= i < e + k -> used bm i = true) ->
  scan_inv bm count (e + k) rs' 0.
Proof.
  intros (H1 & H2 & _ & _ & _ & Hno) Hk Hu. split_and!; try lia.
  - right. apply Hu. lia.
  - intros x Hx He. destruct (decide (x + count <= e)) as [Hle|Hgt]; [by apply Hno|].
    exists (x + count - 1). split; [lia|]. apply Hu. lia.
Qed.

Lemma scan_free bm count e k rs rl :
  scan_inv bm count e rs rl -> 1 <= k -> (forall i, e <= i < e + k -> used bm i = false) ->
  rl + k < count ->
  scan_inv bm count (e + k) (if rl =? 0 then e else rs) (rl + k).
Proof.
  intros (H1 & H2 & Hf & Hp & Hs & Hno) Hk Hu Hc. split_and!; try lia.
  - intros i Hi. destruct (decide (i < e)); [apply Hf; lia|apply Hu; lia].
  - destruct Hp as [->|Hp]; [by left|right].
    by replace (e + k - (rl + k) - 1) with (e - rl - 1) by lia.
  - intros _. destruct (Z.eqb_spec rl 0); lia.
  - intros x Hx He. destruct (decide (x + count <= e)) as [Hle|Hgt]; [by apply Hno|].
    destruct Hp as [->|Hp]; [lia|]. exists (e - rl - 1). split; [lia|done].
Qed.

Lemma scan_found bm total count e k rs rl :
  scan_inv bm count e rs rl -> 1 <= k -> (forall i, e <= i < e + k -> used bm i = false) ->
  count <= rl + k -> e + k <= total ->
  run_found bm total count (if rl =? 0 then e else rs) (rl + k).
Proof.
  intros (H1 & H2 & Hf & Hp & Hs & Hno) Hk Hu Hc Ht.
  assert ((if rl =? 0 then e else rs) = e - rl) as -> by (destruct (Z.eqb_spec rl 0); lia).
  split_and!; try lia. intros i Hi.
  destruct (decide (i < e)); [apply Hf; lia|apply Hu; lia].
Qed.

(** What a scan that stops at frame [e] knows. *)
Definition scan_result (bm : list Z) (total count e : Z) (r : Z * Z) : Prop :=
  run_found bm total count (fst r) (snd r) \/ scan_inv bm count e (fst r) (snd r).

Lemma used_word bm w word b :
  0 <= w -> 0 <= b < 64 -> bm !! Z.to_nat w = Some word ->
  used bm (w * BITS_PER_WORD + b) = Z.testbit word b.
Proof.
  intros Hw Hb Hword. unfold used, BITS_PER_WORD.
  replace ((w * 64 + b) / 64) with w by (Z.to_euclidean_division_equations; lia).
  replace ((w * 64 + b) mod 64) with b by (Z.to_euclidean_division_equations; lia).
  by rewrite Hword.
Qed.

Lemma bit_loop_spec bm w word total count n bit rs rl :
  0 <= w -> bm !! Z.to_nat w = Some word -> total < 2 ^ 48 -> 0 <= bit ->
  bit + Z.of_nat n = 64 -> w * 64 + bit <= total ->
  scan_inv bm count (w * 64 + bit) rs rl ->
  wp (bit_loop word w total count bit n rs rl)
     (scan_result bm total count (Z.min total ((w + 1) * 64))).
Proof.
  intros Hw Hword Ht. revert bit rs rl.
  induction n as [|n IH]; intros bit rs rl Hb Hn Hle Hinv; cbn [bit_loop].
  { wp_step. right. simpl. replace (Z.min _ _) with (w * 64 + bit) by lia. done. }
  unfold BITS_PER_WORD. wp_steps.
  destruct (Z.leb_spec total (w * 64 + bit)).
  { wp_step. right. simpl. replace (Z.min _ _) with (w * 64 + bit) by lia. done. }
  rewrite land_bit_eqb, negb_involutive by lia.
  pose proof (used_word bm w word bit Hw ltac:(lia) Hword) as Hu. unfold BITS_PER_WORD in Hu.
  pose proof Hinv as ((? & ?) & _).
  assert (forall b, Z.testbit word bit = b ->
            forall i, w * 64 + bit <= i < w * 64 + bit + 1 -> used bm i = b) as Hone.
  { intros b Hbit i Hi. replace i with (w * 64 + bit) by lia. congruence. }
  destruct (Z.testbit word bit) eqn:Hbit.
  - wp_steps. apply IH; [lia|lia|lia|]. rewrite Z.add_assoc.
    eapply scan_used; [done|lia|by apply Hone].
  - wp_steps. destruct (Z.leb_spec count (rl + 1)).
    + wp_step. left. eapply scan_found; [done|lia|by apply Hone|done|lia].
    + apply IH; [lia|lia|lia|]. rewrite Z.add_assoc.
      eapply scan_free; [done|lia|by apply Hone|lia].
Qed.

Lemma run_loop_spec s count fuel j rs rl :
  pmm_inv s -> 0 < count ->
  let e := Z.min (total_frames s) (j * 64) in
  0 <= j -> Z.of_nat (length (bitmap s)) <= j + Z.of_nat fuel ->
  scan_inv (bitmap s) count e rs rl ->
  wp (run_loop fuel s count rs rl (j * 64))
     (scan_result (bitmap s) (total_frames s) count (total_frames s)).
Proof.
  intros Hinv Hc. pose proof Hinv as ((Ht & Ht' & Hu & Htail) & _ & Hmax & _).
  unfold bits_len, BITS_PER_WORD, FRAME_SIZE in *. cbv zeta.
  revert j rs rl. induction fuel as [|fuel IH]; intros j rs rl Hj Hf Hscan; cbn [run_loop].
  { rewrite (proj2 (Z.leb_le _ _)) by lia. wp_step. right. simpl.
    by replace (total_frames s) with (Z.min (total_frames s) (j * 64)) by lia. }
  destruct (Z.leb_spec (total_frames s) (j * 64)) as [Hend|Hmore].
  { wp_step. right. simpl. by replace (total_frames s) with (Z.min (total_frames s) (j * 64)) by lia. }
  unfold BITS_PER_WORD. rewrite Z.div_mul, Z.mod_mul by lia.
  replace (Z.min (total_frames s) (j * 64)) with (j * 64) in Hscan by lia.
  pose proof Hscan as ((? & ?) & ? & _).
  wp_step. destruct (bitmap s !! Z.to_nat j) as [word|] eqn:Hword;
    [|apply lookup_ge_None in Hword; lia].
  eapply wp_idx; [lia|done|].
  set (k := Z.min 64 (total_frames s - j * 64)).
  assert (Z.min (total_frames s) ((j + 1) * 64) = j * 64 + k) as Hk by (unfold k; lia).
  assert (1 <= k <= 64) by (unfold k; lia).
  assert (forall rs' rl', scan_inv (bitmap s) count (j * 64 + k) rs' rl' ->
    wp (next ← next_word j; run_loop fuel s count rs' rl' next)
       (scan_result (bitmap s) (total_frames s) count (total_frames s))) as Hnext.
  { intros rs' rl' H'. unfold next_word, BITS_PER_WORD. wp_steps.
    apply IH; [lia|lia|]. by rewrite Hk. }
  destruct (Z.eqb_spec word (U64 - 1)) as [->|Hnf]; [|destruct (Z.eqb_spec word 0) as [->|Hnz]].
  - unfold next_word, BITS_PER_WORD. wp_steps.
    apply IH; [lia|lia|]. rewrite Hk. eapply scan_used; [done|lia|].
    intros i Hi. eapply full_word_used; [done|lia|unfold BITS_PER_WORD; lia].
  - wp_steps. fold k.
    assert (forall i, j * 64 <= i < j * 64 + k -> used (bitmap s) i = false) as Hfree
      by (intros i Hi; eapply zero_word_free; [done|lia|unfold BITS_PER_WORD; lia]).
    destruct (Z.leb_spec count (rl + k)).
    + wp_step. left. eapply scan_found; [done|lia|done|done|lia].
    + apply Hnext. eapply scan_free; [done|lia|done|lia].
  - wp_step. eapply wp_mono; [eapply (bit_loop_spec (bitmap s) j word); try done; try lia|].
    { by rewrite Z.add_0_r. }
    rewrite Hk. intros [rs' rl'] [Hfound|Hs]; cbn [fst snd] in *.
    + pose proof Hfound as (Hle & _). rewrite (proj2 (Z.leb_le _ _)) by done. wp_step. by left.
    + pose proof Hs as (_ & Hlt & _). rewrite (proj2 (Z.leb_gt _ _)) by done. by apply Hnext.
Qed.

(** A run of frames as a set, and the bitmap changed on a run. *)
Definition run_set (lo n : Z) : gset Z := list_to_set (seqZ lo n).

Lemma elem_of_run_set lo n f : f ∈ run_set lo n <-> lo <= f < lo + n.
Proof. unfold run_set. by rewrite elem_of_list_to_set, elem_of_seqZ. Qed.

Lemma size_run_set lo n : 0 <= n -> Z.of_nat (size (run_set lo n)) = n.
Proof. intros. unfold run_set. rewrite size_list_to_set by apply NoDup_seqZ. rewrite length_seqZ. lia. Qed.

Definition bitmap_range (bm bm' : list Z) (lo hi : Z) (b : bool) : Prop :=
  length bm' = length bm /\ Forall is_u64 bm' /\
  forall g, 0 <= g -> used bm' g = if (lo <=? g) && (g <? hi) then b else used bm g.

Lemma bitmap_range_refl bm lo b : Forall is_u64 bm -> bitmap_range bm bm lo lo b.
Proof.
  intros Hu. split_and!; [done|done|]. intros g Hg.
  destruct (Z.leb_spec lo g), (Z.ltb_spec g lo); simpl; try done; lia.
Qed.

Lemma bitmap_range_step bm bm1 bm2 lo hi b :
  lo <= hi -> bitmap_range bm bm1 lo hi b -> bitmap_set bm1 bm2 hi b ->
  bitmap_range bm bm2 lo (hi + 1) b.
Proof.
  intros Hle (H1 & H2 & H3) (H4 & H5 & H6). split_and!; [congruence|done|].
  intros g Hg. rewrite H6, H3 by done.
  destruct (Z.eqb_spec g hi), (Z.leb_spec lo g), (Z.ltb_spec g hi), (Z.ltb_spec g (hi + 1));
    simpl; try done; lia.
Qed.

Lemma bitmap_range_used bm bm' lo hi b g :
  bitmap_range bm bm' lo hi b -> hi <= g -> 0 <= g -> used bm' g = used bm g.
Proof.
  intros (_ & _ & H) Hg H0. rewrite H by done.
  destruct (Z.leb_spec lo g), (Z.ltb_spec g hi); simpl; try done; lia.
Qed.

Lemma bitmap_range_remove bm bm' lo n total :
  bitmap_range bm bm' lo (lo + n) true -> free_set bm' total = free_set bm total ∖ run_set lo n.
Proof.
  intros (_ & _ & Hu). apply set_eq. intros g.
  rewrite elem_of_difference, elem_of_run_set, !elem_of_free_set. split.
  - intros [Hg Hf]. rewrite Hu in Hf by lia.
    destruct (Z.leb_spec lo g), (Z.ltb_spec g (lo + n)); simpl in Hf; (done || (split; [done|lia])).
  - intros [[Hg Hf] Hne]. split; [done|]. rewrite Hu by lia.
    destruct (Z.leb_spec lo g), (Z.ltb_spec g (lo + n)); simpl; (done || lia).
Qed.

Lemma bitmap_range_add bm bm' lo n total :
  bitmap_range bm bm' lo (lo + n) false -> 0 <= lo -> lo + n <= total ->
  free_set bm' total = run_set lo n ∪ free_set bm total.
Proof.
  intros (_ & _ & Hu) Hlo Hn. apply set_eq. intros g.
  rewrite elem_of_union, elem_of_run_set, !elem_of_free_set. split.
  - intros [Hg Hf]. rewrite Hu in Hf by lia.
    destruct (Z.leb_spec lo g), (Z.ltb_spec g (lo + n)); simpl in Hf; [left; lia|right..]; done.
  - intros [Hg|[Hg Hf]]; (split; [lia|]); rewrite Hu by lia.
    + by rewrite (proj2 (Z.leb_le _ _)), (proj2 (Z.ltb_lt _ _)) by lia.
    + by destruct ((lo <=? g) && (g <? lo + n)).
Qed.

Lemma bitmap_range_ok bm bm' lo hi b total :
  bitmap_range bm bm' lo hi b -> bm_ok bm total -> hi <= total -> bm_ok bm' total.
Proof.
  intros Hr (Ht & Ht' & _ & Htail) Hhi. pose proof Hr as (Hl & Hu64 & _).
  unfold bm_ok, bits_len in *. rewrite Hl. split_and!; try done; try lia.
  intros g Hg. rewrite (bitmap_range_used _ _ _ _ _ _ Hr) by lia. auto.
Qed.

(** Two states that differ in the bitmap only. *)
Definition with_bitmap (s : BitmapAllocator) (bm : list Z) (fc hint : Z) : BitmapAllocator :=
  mkBitmapAllocator bm (total_frames s) fc hint (pmm_hhdm_offset s).

Lemma mark_run_spec s m rs count :
  pmm_inv s -> poison_ok s m -> 0 <= rs -> 0 <= count -> rs + count <= total_frames s ->
  run_set rs count ⊆ pmm_free s ->
  wp (mark_run poison s m rs count) (fun s' => exists bm,
    s' = with_bitmap s bm (free_count s) (search_hint s) /\
    bitmap_range (bitmap s) bm rs (rs + count) true).
Proof using.
  intros Hinv Hp Hrs Hc Ht Hsub. pose proof Hinv as ((Htot & _ & Hu & _) & _ & Hmax & _).
  unfold mark_run. eapply wp_mono.
  { apply (wp_for_range (fun i s' => exists bm,
      s' = with_bitmap s bm (free_count s) (search_hint s) /\
      bitmap_range (bitmap s) bm rs (rs + i) true)).
    - exists (bitmap s). split; [by destruct s|]. rewrite Z.add_0_r. by apply bitmap_range_refl.
    - intros i s' Hi (bm & -> & Hr). pose proof Hr as (Hl & Hu' & _). simpl.
      unfold FRAME_SIZE in *. wp_steps. apply wp_bitmap_or; [done|unfold bits_len in *; rewrite Hl; lia|].
      intros bm' Hset. wp_step. apply (wp_mono _ (fun _ => True)).
      { destruct poison eqn:Ep; [|by wp_step]. wp_steps.
        apply wp_PhysAddr_new; [unfold is_phys; lia|]. wp_step; [|done].
        eapply (check_page_poison_ext s); [done|done|]. apply (Hp Ep), Hsub.
        apply elem_of_run_set. lia. }
      intros _ _. wp_step. exists bm'. split; [done|]. rewrite Z.add_assoc.
      eapply bitmap_range_step; [lia|done|done]. }
  intros s' H. by replace (0 + Z.of_nat (Z.to_nat count)) with count in H by lia.
Qed.

(** What a caller of [allocate_frames] gets. *)
Definition run_taken (s s' : BitmapAllocator) (count : Z) (o : option Z) : Prop :=
  pmm_inv s' /\ same_config s s' /\
  match o with
  | Some a => exists f, a = f * FRAME_SIZE /\
      run_set f count ⊆ pmm_free s /\ pmm_free s' = pmm_free s ∖ run_set f count
  | None => s' = s /\ forall f, ~ run_set f count ⊆ pmm_free s
  end.

Lemma run_set_1 f : run_set f 1 = {[f]}.
Proof. apply set_eq. intros g. rewrite elem_of_run_set, elem_of_singleton. lia. Qed.

Lemma wp_pmm_allocate_frames s m count :
  pmm_inv s -> poison_ok s m -> 0 < count ->
  wp (allocate_frames poison s m count) (fun '(s', o) => run_taken s s' count o).
Proof using.
  intros Hinv Hp Hc. unfold allocate_frames. rewrite (proj2 (Z.eqb_neq _ _)) by lia.
  pose proof Hinv as (Hok & Hfc & Hmax & Hh & Ho & He). pose proof Hok as (Ht & _ & _ & Htail).
  destruct (Z.eqb_spec count 1) as [->|Hne].
  { eapply wp_mono; [by apply wp_pmm_allocate_frame|]. intros [s' [a|]]; intros (H1 & H2 & H3).
    - destruct H3 as (f & -> & Hf & H3). split_and!; try done. exists f. rewrite run_set_1.
      split_and!; [done|set_solver|done].
    - destruct H3 as (-> & H3). split_and!; try done. intros f. rewrite run_set_1, H3. set_solver. }
  destruct (Z.ltb_spec (free_count s) count) as [Hlt|Hge].
  { wp_step. split_and!; try done. intros f Hsub. apply subseteq_size in Hsub.
    pose proof (size_run_set f count ltac:(lia)). lia. }
  wp_step. eapply wp_mono.
  { apply (run_loop_spec s count (length (bitmap s)) 0 0 0); try done; try lia.
    replace (Z.min _ _) with 0 by lia. split_and!; try lia. intros x Hx Hx'. lia. }
  intros [rs rl] [(H1 & H2 & H3 & H4)|(_ & H2 & _ & _ & _ & Hno)]; cbn [fst snd] in *.
  - rewrite (proj2 (Z.ltb_ge _ _)) by lia.
    assert (run_set rs count ⊆ pmm_free s) as Hsub.
    { intros f Hf%elem_of_run_set. apply elem_of_free_set. split; [lia|]. apply H4. lia. }
    wp_step. eapply wp_mono; [apply mark_run_spec; try done; lia|].
    intros s' (bm & -> & Hr). unfold FRAME_SIZE, BITS_PER_WORD, with_bitmap in *.
    cbn [bitmap total_frames free_count pmm_hhdm_offset]. wp_steps.
    apply wp_PhysAddr_new; [unfold is_phys; lia|]. wp_step.
    apply wp_PhysFrame_containing_aligned; [unfold is_phys; lia|apply Z.mod_mul; simpl; lia|].
    wp_step. pose proof (bitmap_range_remove _ _ _ _ (total_frames s) Hr) as Hfree.
    pose proof (proj1 Hr) as Hlen. unfold run_taken, pmm_inv, pmm_free, same_config. simpl.
    unfold FRAME_SIZE. split_and!; try done; try lia.
    + eapply bitmap_range_ok; [done|done|lia].
    + rewrite Hfree, size_difference by done.
      pose proof (size_run_set rs count ltac:(lia)). apply subseteq_size in Hsub.
      unfold pmm_free in *. lia.
    + apply Z.div_pos; lia.
    + rewrite Hlen. unfold bits_len, BITS_PER_WORD in *. Z.to_euclidean_division_equations. lia.
    + exists rs. rewrite Hfree. done.
  - rewrite (proj2 (Z.ltb_lt _ _)) by done. wp_step. split_and!; try done. intros f Hsub.
    assert (forall g, f <= g < f + count -> 0 <= g < total_frames s /\ used (bitmap s) g = false) as Hall.
    { intros g Hg. apply elem_of_free_set, Hsub, elem_of_run_set. done. }
    destruct (Hno f) as (i & Hi & Hui).
    + apply (Hall f). lia.
    + pose proof (Hall (f + count - 1)). lia.
    + destruct (Hall i Hi). congruence.
Qed.

(** ** Deallocation *)

(** Poisoning page [f] keeps the other free pages intact. *)
Lemma poison_one s s' m f :
  pmm_inv s -> 0 <= f < total_frames s -> same_config s s' -> poison_ok s m ->
  pmm_free s' ⊆ {[f]} ∪ pmm_free s ->
  wp (if poison then poison_page s' m (f * FRAME_SIZE) else Ret m) (fun m' =>
    poison_ok s' m' /\ changed_only (page_virt s f) (page_virt s f + FRAME_SIZE) m m').
Proof using.
  intros Hinv Hf [Ht Ho] Hp Hsub. destruct poison eqn:Ep.
  2: { wp_step. split; [intros ?; congruence|apply changed_only_refl]. }
  eapply wp_mono; [apply poison_page_spec|]. rewrite Ho, page_virt_add by done.
  intros m' [Hc Hl]. split; [|done]. intros _ g Hg.
  assert (0 <= g < total_frames s') as Hgt by (by apply elem_of_free_set in Hg as [? _]).
  rewrite Ht in Hgt. destruct (decide (g = f)) as [->|Hne].
  - apply check_page_poison_spec. right. rewrite Ho, page_virt_add by done. done.
  - apply (check_page_poison_ext s s' m m'); [done| |].
    + rewrite page_virt_add by done. intros x Hx. apply Hc.
      unfold page_virt, FRAME_SIZE in *. lia.
    + apply (Hp Ep). set_solver.
Qed.

Lemma add_one_inv s bm f hint :
  pmm_inv s -> 0 <= f < total_frames s -> used (bitmap s) f = true ->
  bitmap_set (bitmap s) bm f false -> 0 <= hint <= Z.of_nat (length (bitmap s)) ->
  let s' := with_bitmap s bm (free_count s + 1) hint in
  pmm_inv s' /\ pmm_free s' = {[f]} ∪ pmm_free s.
Proof using.
  intros (Hok & Hfc & Hmax & Hh & Ho & He) Hf Hu Hset Hhint. cbv zeta.
  assert (pmm_free (with_bitmap s bm (free_count s + 1) hint) = {[f]} ∪ pmm_free s) as Hfree
    by (by apply bitmap_set_add).
  split; [|done]. pose proof (proj1 Hset) as Hlen.
  unfold pmm_inv. rewrite Hfree. simpl. split_and!; try done; try lia.
  - eapply bitmap_set_ok; [done|done|]. intros _. lia.
  - rewrite size_add; [lia|]. intros [_ ?]%elem_of_free_set. congruence.
Qed.

Lemma free_count_bound s : pmm_inv s -> free_count s <= total_frames s < 2 ^ 36.
Proof.
  intros ((Ht & _) & Hfc & Hmax & _). unfold FRAME_SIZE in *.
  pose proof (free_set_bound (bitmap s) (total_frames s) ltac:(lia)). unfold pmm_free in *. lia.
Qed.

(** What a caller of [deallocate_frame] or [deallocate_frames] gets. *)
Definition run_returned (s : BitmapAllocator) (m : mem) (f count : Z)
    (s' : BitmapAllocator) (m' : mem) : Prop :=
  pmm_inv s' /\ same_config s s' /\ pmm_free s' = run_set f count ∪ pmm_free s /\
  poison_ok s' m' /\ changed_only (page_virt s f) (page_virt s f + count * FRAME_SIZE) m m'.

Lemma wp_pmm_deallocate_frame s m f :
  pmm_inv s -> poison_ok s m -> 0 <= f < total_frames s -> f ∉ pmm_free s ->
  wp (deallocate_frame poison s m (f * FRAME_SIZE)) (fun '(s', m', r) =>
    r = Ok tt /\ run_returned s m f 1 s' m').
Proof using.
  intros Hinv Hp Hf Hnf. pose proof Hinv as ((Ht & _ & Hu & _) & _ & _ & Hh & _).
  pose proof (free_count_bound s Hinv).
  assert (used (bitmap s) f = true) as Hused.
  { destruct (used (bitmap s) f) eqn:E; [done|]. destruct Hnf. by apply elem_of_free_set. }
  unfold deallocate_frame. rewrite Z.div_mul by (unfold FRAME_SIZE; lia).
  rewrite (proj2 (Z.leb_gt _ _)) by lia. cbv zeta.
  wp_step. apply wp_bitmap_is_clear; [lia|]. rewrite Hused. wp_step. wp_step.
  wp_step. apply wp_bitmap_and_not; [done|lia|]. intros bm Hset. wp_step. wp_step.
  set (w := f / BITS_PER_WORD). set (hint := if w <? search_hint s then w else search_hint s).
  assert (0 <= hint <= Z.of_nat (length (bitmap s))).
  { unfold hint, w. pose proof (frame_div_mod f ltac:(lia)). destruct (Z.ltb_spec (f / BITS_PER_WORD) (search_hint s)); lia. }
  destruct (add_one_inv s bm f hint) as [Hinv' Hfree]; try done.
  wp_step. cbn [search_hint total_frames pmm_hhdm_offset]. eapply wp_mono.
  { apply (poison_one s); try done. intros g Hg. rewrite <- Hfree. exact Hg. }
  intros m' [Hp' Hc]. wp_step. split; [done|]. fold hint. split_and!; try done.
  by rewrite run_set_1.
Qed.

Lemma deallocate_frame_invalid s m f :
  0 <= f -> total_frames s <= f ->
  deallocate_frame poison s m (f * FRAME_SIZE) = Ret (s, m, Err InvalidFrame).
Proof using.
  intros H0 Hf. unfold deallocate_frame. rewrite Z.div_mul by (unfold FRAME_SIZE; lia).
  by rewrite (proj2 (Z.leb_le _ _)).
Qed.

(** The double-free check. *)
Lemma deallocate_frame_double s m f :
  pmm_inv s -> f ∈ pmm_free s -> deallocate_frame poison s m (f * FRAME_SIZE) = Panic.
Proof using.
  intros Hinv [Hf Hu]%elem_of_free_set. pose proof Hinv as ((Ht & _) & _).
  unfold deallocate_frame. rewrite Z.div_mul by (unfold FRAME_SIZE; lia).
  rewrite (proj2 (Z.leb_gt _ _)) by lia. cbv zeta.
  assert (bitmap_is_clear (bitmap s) (f / BITS_PER_WORD) (f mod BITS_PER_WORD) = Ret true) as ->.
  { apply wp_eq, wp_bitmap_is_clear; [lia|]. by rewrite Hu. }
  done.
Qed.

Lemma run_set_S f k : 0 <= k -> run_set f (k + 1) = {[f + k]} ∪ run_set f k.
Proof.
  intros. apply set_eq. intros g. rewrite elem_of_union, elem_of_singleton, !elem_of_run_set. lia.
Qed.

Lemma wp_pmm_deallocate_frames s m f count :
  pmm_inv s -> poison_ok s m -> 0 <= f -> 0 <= count -> f + count <= total_frames s ->
  (forall g, f <= g < f + count -> g ∉ pmm_free s) ->
  wp (deallocate_frames poison s m (f * FRAME_SIZE) count) (fun '(s', m', r) =>
    r = Ok tt /\ run_returned s m f count s' m').
Proof using.
  intros Hinv Hp Hf Hc Ht Hnf. pose proof (free_count_bound s Hinv).
  unfold deallocate_frames. rewrite Z.div_mul by (unfold FRAME_SIZE; lia). cbv zeta.
  wp_steps. rewrite (proj2 (Z.ltb_ge _ _)) by lia. wp_step. eapply wp_mono.
  { apply (wp_for_range (fun k st =>
      run_returned s m f k (fst st) (snd st) /\ search_hint (fst st) = search_hint s /\
      length (bitmap (fst st)) = length (bitmap s))).
    - unfold run_returned. split_and!; try done; cbn [fst snd].
      apply set_eq. intros g. rewrite elem_of_union, elem_of_run_set. split; [auto|]. intros [?|?]; [lia|done].
    - intros k [s1 m1] Hk [(Hi1 & [Ht1 Ho1] & Hfr1 & Hp1 & Hch1) [Hh1 Hl1]]. cbn [fst snd] in *.
      pose proof Hi1 as ((Htb & _ & Hu & _) & _ & Hmax & Hhint & _).
      pose proof (free_count_bound s1 Hi1).
      assert (used (bitmap s1) (f + k) = true) as Hused.
      { destruct (used (bitmap s1) (f + k)) eqn:E; [done|].
        assert (f + k ∈ pmm_free s1) as Hin by (apply elem_of_free_set; split; [lia|done]).
        rewrite Hfr1, elem_of_union, elem_of_run_set in Hin.
        destruct Hin as [?|Hin]; [lia|]. destruct (Hnf (f + k)); [lia|done]. }
      unfold deallocate_round. wp_steps. apply wp_bitmap_is_clear; [lia|]. rewrite Hused.
      wp_step. wp_step. wp_step. apply wp_bitmap_and_not; [done|lia|]. intros bm Hset.
      wp_step. wp_step.
      destruct (add_one_inv s1 bm (f + k) (search_hint s1)) as [Hinv' Hfree]; try done; [lia|].
      wp_step. eapply (wp_mono _ (fun m' => poison_ok (with_bitmap s1 bm (free_count s1 + 1) (search_hint s1)) m' /\
        changed_only (page_virt s1 (f + k)) (page_virt s1 (f + k) + FRAME_SIZE) m1 m')).
      { assert (0 <= (f + k) * FRAME_SIZE < 2 ^ 47) by (unfold FRAME_SIZE in *; lia).
        pose proof (poison_one s1 (with_bitmap s1 bm (free_count s1 + 1) (search_hint s1)) m1 (f + k)
          Hi1 ltac:(lia) (conj eq_refl eq_refl) Hp1 ltac:(by rewrite Hfree)) as Hpo.
        destruct poison; [|exact Hpo]. wp_steps.
        apply wp_PhysAddr_new; [unfold is_phys; lia|exact Hpo]. }
      intros m' [Hp' Hch']. wp_step. cbn [fst snd]. unfold run_returned.
      split_and!; try done; try (simpl; congruence).
      + etransitivity; [exact Hfree|]. rewrite Hfr1, run_set_S by lia. set_solver.
      + eapply changed_only_trans; (eapply changed_only_weaken; [| |done]);
          unfold page_virt, FRAME_SIZE in *; rewrite ?Ho1; lia.
      + simpl. rewrite (proj1 Hset). done. }
  intros [s' m'] [(Hi & [Hts Hos] & Hfr & Hp' & Hch) [Hh Hl]]. cbn [fst snd] in *.
  replace (0 + Z.of_nat (Z.to_nat count)) with count in * by lia.
  wp_step. split; [done|]. destruct Hi as (Hok & Hfc & Hmax & Hhint & Hrest).
  split_and!; try done. split_and!; try done; simpl.
  - pose proof (frame_div_mod f Hf). destruct (Z.ltb_spec (f / BITS_PER_WORD) (search_hint s')); lia.
  - destruct (Z.ltb_spec (f / BITS_PER_WORD) (search_hint s')); lia.
  - lia. - lia.
Qed.
End PoisonFacts.

(** ** Construction *)

(** The frames that lie wholly in a usable region. *)
Definition region_frames (r : PhysMemoryRegion) : gset Z :=
  if pmr_usable r then run_set (pmr_start r / FRAME_SIZE) (pmr_size r / FRAME_SIZE) else ∅.

Definition usable_frames (rs : list PhysMemoryRegion) : gset Z := ⋃ (map region_frames rs).

Definition pmr_end (r : PhysMemoryRegion) : Z := pmr_start r + pmr_size r.

(** A sane memory map: usable regions start on a page, end below [limit] and
    do not overlap. *)
Definition map_region_ok (limit : Z) (r : PhysMemoryRegion) : Prop :=
  pmr_usable r = true ->
  0 <= pmr_start r /\ pmr_start r mod FRAME_SIZE = 0 /\ 0 <= pmr_size r /\ pmr_end r <= limit.

Fixpoint regions_disjoint (rs : list PhysMemoryRegion) : Prop :=
  match rs with
  | [] => True
  | r :: rs => Forall (fun r' => region_frames r ## region_frames r') rs /\ regions_disjoint rs
  end.

Lemma max_usable_end_spec rs limit acc :
  Forall (map_region_ok limit) rs -> 0 <= acc <= limit -> limit < U64 ->
  wp (max_usable_end rs acc) (fun e => acc <= e <= limit /\
    Forall (fun r => pmr_usable r = true -> pmr_end r <= e) rs /\
    (e = acc \/ Exists (fun r => pmr_usable r = true /\ pmr_end r = e) rs)).
Proof.
  intros HF Hacc Hlim. revert acc Hacc. induction HF as [|r rs Hr HF IH]; intros acc Hacc; simpl.
  { wp_step. split_and!; try lia; first [done|by left]. }
  unfold map_region_ok, pmr_end in Hr. destruct (pmr_usable r) eqn:Hu.
  - specialize (Hr eq_refl). wp_steps. eapply wp_mono; [apply IH; lia|].
    intros e (He & HFe & Hex). split_and!; try lia.
    + constructor; [|done]. unfold pmr_end. lia.
    + destruct Hex as [->|Hex]; [|right; by apply Exists_cons_tl].
      destruct (Z.max_spec acc (pmr_start r + pmr_size r)) as [[? ->]|[? ->]]; [|by left].
      right. apply Exists_cons_hd. done.
  - eapply wp_mono; [apply IH; lia|]. intros e (He & HFe & Hex). split_and!; try lia.
    + constructor; [|done]. congruence.
    + destruct Hex as [->|Hex]; [by left|right; by apply Exists_cons_tl].
Qed.

Lemma find_bitmap_region_spec rs bytes :
  match find_bitmap_region rs bytes with
  | Some b => exists r, r ∈ rs /\ pmr_usable r = true /\ bytes <= pmr_size r /\ b = pmr_start r
  | None => Forall (fun r => pmr_usable r = true -> pmr_size r < bytes) rs
  end.
Proof.
  induction rs as [|r rs IH]; simpl; [done|].
  destruct (pmr_usable r) eqn:Hu, (Z.leb_spec bytes (pmr_size r)); simpl.
  - exists r. split_and!; try done. set_solver.
  - destruct (find_bitmap_region rs bytes); [|by constructor].
    destruct IH as (r' & ? & ?). exists r'. split; [set_solver|done].
  - destruct (find_bitmap_region rs bytes); [|constructor; [congruence|done]].
    destruct IH as (r' & ? & ?). exists r'. split; [set_solver|done].
  - destruct (find_bitmap_region rs bytes); [|constructor; [congruence|done]].
    destruct IH as (r' & ? & ?). exists r'. split; [set_solver|done].
Qed.

(** A bitmap and its count of free frames. *)
Definition counted (total : Z) (st : list Z * Z) (F : gset Z) : Prop :=
  bm_ok (fst st) total /\ free_set (fst st) total = F /\ snd st = Z.of_nat (size F).

Lemma counted_bound total st F : counted total st F -> 0 <= snd st <= total.
Proof.
  intros ((Ht & _) & <- & ->). pose proof (free_set_bound (fst st) total ltac:(lia)). lia.
Qed.

Lemma free_region_spec total r st F :
  counted total st F -> total < 2 ^ 48 -> 0 <= pmr_start r / FRAME_SIZE -> 0 <= pmr_size r / FRAME_SIZE ->
  pmr_start r / FRAME_SIZE + pmr_size r / FRAME_SIZE <= total ->
  run_set (pmr_start r / FRAME_SIZE) (pmr_size r / FRAME_SIZE) ## F ->
  wp (free_region total r st) (fun st' =>
    counted total st' (run_set (pmr_start r / FRAME_SIZE) (pmr_size r / FRAME_SIZE) ∪ F)).
Proof.
  intros Hst Htot H0 Hn Hle Hdisj. unfold free_region.
  set (lo := pmr_start r / FRAME_SIZE) in *. set (n := pmr_size r / FRAME_SIZE) in *.
  eapply wp_mono.
  { apply (wp_for_range (fun k st' => counted total st' (run_set lo k ∪ F))).
    - replace (run_set lo 0 ∪ F) with F; [done|]. apply set_eq. intros g.
      rewrite elem_of_union, elem_of_run_set. split; [auto|]. intros [?|?]; [lia|done].
    - intros k [bm fc] Hk Hc. pose proof (counted_bound _ _ _ Hc) as Hb.
      destruct Hc as (Hok & Hfs & Hfc). cbn [fst snd] in *. wp_steps.
      rewrite (proj2 (Z.ltb_lt _ _)) by lia. cbv zeta. pose proof Hok as (Ht & _ & Hu & _).
      wp_step. apply wp_bitmap_and_not; [done|lia|]. intros bm' Hset. wp_steps.
      assert (lo + k ∉ run_set lo k ∪ F) as Hnin.
      { rewrite elem_of_union, elem_of_run_set. intros [?|Hin]; [lia|].
        apply (Hdisj (lo + k)); [apply elem_of_run_set; lia|done]. }
      split_and!; cbn [fst snd].
      + eapply bitmap_set_ok; [done|done|]. lia.
      + rewrite (bitmap_set_add _ _ _ _ Hset), Hfs, run_set_S by lia. set_solver.
      + rewrite run_set_S, <- union_assoc_L, size_add by (done || lia). lia. }
  intros st' H. by replace (0 + Z.of_nat (Z.to_nat n)) with n in H by lia.
Qed.

Lemma reserve_bitmap_spec total lo n st F :
  counted total st F -> total < 2 ^ 48 -> 0 <= lo -> 0 <= n -> lo + n < U64 ->
  wp (reserve_bitmap total lo n st) (fun st' => counted total st' (F ∖ run_set lo n)).
Proof.
  intros Hst Htot H0 Hn Hle. unfold reserve_bitmap. eapply wp_mono.
  { apply (wp_for_range (fun k st' => counted total st' (F ∖ run_set lo k))).
    - replace (F ∖ run_set lo 0) with F; [done|]. apply set_eq. intros g.
      rewrite elem_of_difference, elem_of_run_set. split; [|tauto]. intros; split; [done|lia].
    - intros k [bm fc] Hk Hc. destruct Hc as (Hok & Hfs & Hfc). cbn [fst snd] in *. wp_steps.
      assert (F ∖ run_set lo (k + 1) = (F ∖ run_set lo k) ∖ {[lo + k]}) as Heq
        by (rewrite run_set_S by lia; set_solver).
      assert (lo + k ∉ F ∖ run_set lo k -> counted total (bm, fc) (F ∖ run_set lo (k + 1))) as Hsame.
      { intros Hnin. rewrite Heq. replace ((F ∖ run_set lo k) ∖ {[lo + k]}) with (F ∖ run_set lo k)
          by set_solver. done. }
      destruct (Z.ltb_spec (lo + k) total) as [Hlt|Hge].
      + cbv zeta. pose proof Hok as (Ht & _ & Hu & _).
        wp_step. apply wp_bitmap_is_clear; [lia|]. destruct (used bm (lo + k)) eqn:Hused; simpl.
        * wp_step. apply Hsame. rewrite <- Hfs, elem_of_free_set. intros [_ ?]. congruence.
        * assert (lo + k ∈ F ∖ run_set lo k) as Hin
            by (rewrite <- Hfs; apply elem_of_free_set; split; [lia|done]).
          pose proof (size_remove _ _ Hin).
          wp_step. apply wp_bitmap_or; [done|lia|]. intros bm' Hset. wp_step. wp_step.
          wp_step. split_and!; cbn [fst snd].
          -- eapply bitmap_set_ok; [done|done|done].
          -- rewrite (bitmap_set_remove _ _ _ _ Hset), Hfs. done.
          -- rewrite Heq. lia.
      + wp_step. apply Hsame. rewrite <- Hfs, elem_of_free_set. lia. }
  intros st' H. by replace (0 + Z.of_nat (Z.to_nat n)) with n in H by lia.
Qed.

(** The frames of a region of a sane map, below the total. *)
Lemma region_frames_bound r limit e :
  map_region_ok limit r -> pmr_usable r = true -> pmr_end r <= e ->
  0 <= pmr_start r / FRAME_SIZE /\ 0 <= pmr_size r / FRAME_SIZE /\
  pmr_start r / FRAME_SIZE + pmr_size r / FRAME_SIZE <= e / FRAME_SIZE.
Proof.
  intros Hr Hu He. destruct (Hr Hu) as (? & ? & ? & ?). unfold pmr_end, FRAME_SIZE in *.
  Z.to_euclidean_division_equations. lia.
Qed.

Lemma free_regions_spec limit e rs st F :
  counted (e / FRAME_SIZE) st F -> e / FRAME_SIZE < 2 ^ 48 ->
  Forall (map_region_ok limit) rs ->
  Forall (fun r => pmr_usable r = true -> pmr_end r <= e) rs ->
  regions_disjoint rs -> Forall (fun r => region_frames r ## F) rs ->
  wp (free_regions (e / FRAME_SIZE) rs st) (fun st' =>
    counted (e / FRAME_SIZE) st' (usable_frames rs ∪ F)).
Proof.
  intros Hst He. revert st F Hst. induction rs as [|r rs IH]; intros st F Hst Hok Hend Hd HF;
    cbn [free_regions].
  { wp_step. unfold usable_frames; simpl; by rewrite (left_id_L ∅ (∪)). }
  apply Forall_cons in Hok as [Hr Hok], Hend as [Hre Hend], HF as [HrF HF].
  destruct Hd as [Hrd Hd]. wp_step.
  apply (wp_mono _ (fun st' => counted (e / FRAME_SIZE) st' (region_frames r ∪ F))).
  - unfold region_frames in *. destruct (pmr_usable r) eqn:Hu.
    + destruct (region_frames_bound r limit e Hr Hu (Hre eq_refl)) as (? & ? & ?).
      by apply free_region_spec.
    + wp_step. by replace (∅ ∪ F) with F by set_solver.
  - intros st' Hst'. eapply wp_mono; [apply (IH _ _ Hst'); try done|].
    + rewrite Forall_forall in *. intros r' Hr'. specialize (Hrd r' Hr'). specialize (HF r' Hr').
      set_solver.
    + intros st'' H. replace (usable_frames (r :: rs) ∪ F)
        with (usable_frames rs ∪ (region_frames r ∪ F)); [done|].
      unfold usable_frames. simpl. set_solver.
Qed.

Lemma used_replicate n f : 0 <= f -> used (replicate n (U64 - 1)) f = true.
Proof.
  intros Hf. unfold used. destruct (replicate n (U64 - 1) !! _) as [w|] eqn:E; [|done].
  apply lookup_replicate in E as [-> _]. change (U64 - 1) with (Z.ones 64).
  apply Z.ones_spec_low, Z.mod_pos_bound. unfold BITS_PER_WORD. lia.
Qed.

Lemma counted_full total :
  0 <= total ->
  counted total (replicate (Z.to_nat ((total + BITS_PER_WORD - 1) / BITS_PER_WORD)) (U64 - 1), 0) ∅.
Proof.
  intros Ht. set (n := Z.to_nat _). assert (forall f, 0 <= f -> used (replicate n (U64 - 1)) f = true)
    as Hu by (intros; by apply used_replicate).
  split_and!; cbn [fst snd].
  - split_and!.
    + done.
    + unfold bits_len, n, BITS_PER_WORD. rewrite length_replicate.
      Z.to_euclidean_division_equations. lia.
    + unfold bits_len, n, BITS_PER_WORD. rewrite length_replicate.
      Z.to_euclidean_division_equations. lia.
    + apply Forall_replicate. ulia.
    + intros f Hf. apply Hu. lia.
  - apply set_eq. intros g. rewrite elem_of_free_set. split; [|set_solver].
    intros [Hg Hf]. rewrite Hu in Hf by lia. done.
  - done.
Qed.

(** The number of words and of pages the bitmap takes. *)
Definition words_for (total : Z) : Z := (total + BITS_PER_WORD - 1) / BITS_PER_WORD.
Definition pages_for (bytes : Z) : Z := (bytes + FRAME_SIZE - 1) / FRAME_SIZE.

Definition new_post (regions : list PhysMemoryRegion) (off : Z)
    (r : result BitmapAllocator PmmError) : Prop :=
  match r with
  | Ok s => pmm_inv s /\ pmm_hhdm_offset s = off /\
      exists b : PhysMemoryRegion, b ∈ regions /\ pmr_usable b = true /\
        8 * Z.of_nat (length (bitmap s)) <= pmr_size b /\
        pmm_free s = usable_frames regions ∖
          run_set (pmr_start b / FRAME_SIZE) (pages_for (8 * Z.of_nat (length (bitmap s))))
  | Err OutOfMemory => Forall (fun r => pmr_usable r = true -> pmr_end r = 0) regions
  | Err NoBitmapRegion => exists top : Z,
      Exists (fun r => pmr_usable r = true /\ pmr_end r = top) regions /\
      Forall (fun r => pmr_usable r = true -> pmr_size r < 8 * words_for (top / FRAME_SIZE)) regions
  | Err _ => False
  end.

Lemma wp_pmm_new regions off limit :
  Forall (map_region_ok limit) regions -> regions_disjoint regions ->
  0 <= limit <= 2 ^ 46 -> U64 - 2 ^ 47 <= off -> off + limit < U64 ->
  wp (BitmapAllocator_new regions off) (new_post regions off).
Proof.
  intros Hok Hd Hlim Ho1 Ho2. unfold BitmapAllocator_new. wp_step.
  eapply wp_mono; [apply (max_usable_end_spec regions limit 0); (done || ulia)|].
  intros e (He & Hend & Hex). destruct (Z.eqb_spec e 0) as [->|Hne].
  { wp_step. simpl. rewrite Forall_forall in *. intros r Hr Hu. specialize (Hend r Hr Hu).
    destruct (Hok r Hr Hu) as (? & ? & ? & ?). unfold pmr_end in *. lia. }
  destruct Hex as [?|Hex]; [lia|].
  set (total := e / FRAME_SIZE).
  assert (0 <= total <= 2 ^ 34 /\ total * FRAME_SIZE <= e) as [Htot Htot']
    by (unfold total, FRAME_SIZE; Z.to_euclidean_division_equations; lia).
  cbv zeta. wp_step. wp_step; [unfold BITS_PER_WORD; ulia|]. fold (words_for total).
  assert (0 <= words_for total <= 2 ^ 34) as Hw
    by (unfold words_for, BITS_PER_WORD; Z.to_euclidean_division_equations; lia).
  wp_step. wp_step. wp_step. wp_step; [unfold FRAME_SIZE; ulia|].
  fold (pages_for (words_for total * 8)).
  pose proof (find_bitmap_region_spec regions (words_for total * 8)) as Hfind.
  destruct (find_bitmap_region regions (words_for total * 8)) as [b|].
  2: { wp_step. exists e. split; [done|]. fold total. by rewrite Z.mul_comm. }
  destruct Hfind as (br & Hbin & Hbu & Hbs & ->).
  wp_step. eapply wp_mono.
  { apply (free_regions_spec limit e regions _ ∅); try done.
    - apply counted_full. fold total. lia.
    - fold total. lia.
    - apply Forall_forall. set_solver. }
  intros st Hst. fold total in Hst. wp_step.
  assert (0 <= pages_for (words_for total * 8) <= 2 ^ 34) as Hpages
    by (unfold pages_for, FRAME_SIZE in *; Z.to_euclidean_division_equations; lia).
  assert (0 <= pmr_start br / FRAME_SIZE <= 2 ^ 46) as Hbst.
  { rewrite Forall_forall in Hok. destruct (Hok br Hbin Hbu) as (? & ? & ? & ?).
    unfold pmr_end, FRAME_SIZE in *. Z.to_euclidean_division_equations. lia. }
  eapply wp_mono; [apply reserve_bitmap_spec; [exact Hst|lia|lia|lia|ulia]|].
  intros [bm fc] (Hbm & Hfs & Hfc). cbn [fst snd] in *. wp_step.
  assert (Z.of_nat (length bm) = words_for total) as Hlen.
  { destruct Hbm as (Hb1 & Hb2 & _). unfold bits_len, words_for, BITS_PER_WORD in *.
    Z.to_euclidean_division_equations. lia. }
  split_and!; simpl; try done; try lia.
  - unfold pmm_inv, pmm_free. simpl. rewrite Hfs. split_and!; try done; lia.
  - exists br. rewrite Hlen. split_and!; try done; [lia|]. unfold pmm_free. simpl.
    rewrite Hfs. f_equal; [set_solver|]. f_equal. f_equal. lia.
Qed.

(** ** The frame allocator interface

    The trait [FrameAllocator<Size4KiB>] as its clients see it: an allocator
    over the byte memory, the set of its free frames, and the pages of those
    frames through the direct map.  Writing to pages that are not free never
    disturbs it. *)

Class FrameAllocator (A : Type) : Type := {
  fa_allocate : A -> mem -> exec (A * option Z);
  fa_inv : A -> mem -> Prop;
  fa_free : A -> gset Z;
  fa_offset : A -> Z;
  fa_allocate_spec : forall a m, fa_inv a m ->
    wp (fa_allocate a m) (fun '(a', o) =>
      fa_inv a' m /\ fa_offset a' = fa_offset a /\
      match o with
      | Some p => exists f, p = f * FRAME_SIZE /\ f ∈ fa_free a /\ fa_free a' = fa_free a ∖ {[f]}
      | None => a' = a /\ fa_free a = ∅
      end);
  fa_frame_bound : forall a m f, fa_inv a m -> f ∈ fa_free a ->
    0 <= f /\ (f + 1) * FRAME_SIZE <= 2 ^ 47 /\
    U64 - 2 ^ 47 <= fa_offset a /\ fa_offset a + (f + 1) * FRAME_SIZE < U64;
  fa_inv_mem : forall a m m', fa_inv a m ->
    (forall f x, f ∈ fa_free a ->
       fa_offset a + f * FRAME_SIZE <= x < fa_offset a + (f + 1) * FRAME_SIZE -> m' x = m x) ->
    fa_inv a m';
}.

Section Instance.
Context (poison : bool).

Definition bitmap_inv (s : BitmapAllocator) (m : mem) : Prop := pmm_inv s /\ poison_ok poison s m.

Lemma poison_ok_sub s s' m :
  same_config s s' -> pmm_free s' ⊆ pmm_free s -> poison_ok poison s m -> poison_ok poison s' m.
Proof.
  intros [_ Ho] Hsub Hp E f Hf. eapply (check_page_poison_ext s); [done|done|]. apply (Hp E). set_solver.
Qed.

Lemma bitmap_allocate_spec s m : bitmap_inv s m ->
  wp (allocate_frame poison s m) (fun '(s', o) =>
    bitmap_inv s' m /\ pmm_hhdm_offset s' = pmm_hhdm_offset s /\
    match o with
    | Some p => exists f, p = f * FRAME_SIZE /\ f ∈ pmm_free s /\ pmm_free s' = pmm_free s ∖ {[f]}
    | None => s' = s /\ pmm_free s = ∅
    end).
Proof.
  intros [Hi Hp]. eapply wp_mono; [by apply wp_pmm_allocate_frame|].
  intros [s' o] (Hi' & Hcfg & Ho). split_and!; [|apply Hcfg|done].
  split; [done|]. eapply poison_ok_sub; [done| |done]. destruct o as [p|].
  - destruct Ho as (f & _ & _ & ->). set_solver.
  - by destruct Ho as [-> _].
Qed.

Lemma bitmap_frame_bound s m f : bitmap_inv s m -> f ∈ pmm_free s ->
  0 <= f /\ (f + 1) * FRAME_SIZE <= 2 ^ 47 /\
  U64 - 2 ^ 47 <= pmm_hhdm_offset s /\ pmm_hhdm_offset s + (f + 1) * FRAME_SIZE < U64.
Proof.
  intros [(_ & _ & ? & _ & ? & ?) _] [? _]%elem_of_free_set. unfold FRAME_SIZE in *. lia.
Qed.

Lemma bitmap_inv_mem s m m' : bitmap_inv s m ->
  (forall f x, f ∈ pmm_free s ->
     pmm_hhdm_offset s + f * FRAME_SIZE <= x < pmm_hhdm_offset s + (f + 1) * FRAME_SIZE ->
     m' x = m x) ->
  bitmap_inv s m'.
Proof.
  intros [Hi Hp] Hm. split; [done|]. intros E f Hf.
  assert (0 <= f < total_frames s) by (by apply elem_of_free_set in Hf as [? _]).
  apply (check_page_poison_ext s s m m'); [done| |by apply Hp].
  rewrite page_virt_add by done. intros x Hx. apply (Hm f); [done|].
  unfold page_virt, FRAME_SIZE in *. lia.
Qed.

#[export] Instance bitmap_FrameAllocator : FrameAllocator BitmapAllocator := {|
  fa_allocate := allocate_frame poison;
  fa_inv := bitmap_inv;
  fa_free := pmm_free;
  fa_offset := pmm_hhdm_offset;
  fa_allocate_spec := bitmap_allocate_spec;
  fa_frame_bound := bitmap_frame_bound;
  fa_inv_mem := bitmap_inv_mem;
|}.
End Instance.

(** ** Returning frames

    [FrameDeallocator]: a frame that the allocator manages and that is not free
    becomes free; its content may change. *)
Class FrameDeallocator (A : Type) `{FA : FrameAllocator A} : Type := {
  fd_deallocate : A -> mem -> Z -> exec (A * mem);
  fd_managed : Z -> Prop;
  fd_free_managed : forall a m f, fa_inv a m -> f ∈ fa_free a -> fd_managed f;
  fd_deallocate_spec : forall a m f, fa_inv a m -> fd_managed f -> f ∉ fa_free a ->
    wp (fd_deallocate a m (f * FRAME_SIZE)) (fun '(a', m') =>
      fa_inv a' m' /\ fa_offset a' = fa_offset a /\ fa_free a' = {[f]} ∪ fa_free a /\
      forall x, ~ (fa_offset a + f * FRAME_SIZE <= x < fa_offset a + (f + 1) * FRAME_SIZE) -> m' x = m x);
}.

(** The bitmap allocator of a machine with [limit] frames.  The result of
    [deallocate_frame] is dropped, as [BitmapFrameAllocRef] does. *)
Section Bounded.
Context (poison : bool) (limit : Z).

Definition bounded_inv (s : BitmapAllocator) (m : mem) : Prop := bitmap_inv poison s m /\ total_frames s = limit.

Definition drop_frame (s : BitmapAllocator) (m : mem) (frame : Z) : exec (BitmapAllocator * mem) :=
  '(s, m, _) ← deallocate_frame poison s m frame;
  Ret (s, m).

Lemma bounded_allocate_spec s m : bounded_inv s m ->
  wp (allocate_frame poison s m) (fun '(s', o) =>
    bounded_inv s' m /\ pmm_hhdm_offset s' = pmm_hhdm_offset s /\
    match o with
    | Some p => exists f, p = f * FRAME_SIZE /\ f ∈ pmm_free s /\ pmm_free s' = pmm_free s ∖ {[f]}
    | None => s' = s /\ pmm_free s = ∅
    end).
Proof.
  intros [[Hi Hp] Hl]. pose proof (bitmap_allocate_spec poison s m (conj Hi Hp)) as Hb.
  pose proof (wp_pmm_allocate_frame poison s m Hi Hp) as Ht.
  apply wp_exists in Hb as ([s' o] & E & Hb). rewrite E in Ht |- *. destruct Ht as (_ & [Hc _] & _).
  destruct Hb as (Hb & Ho & Hr). apply wp_ret. split; [|by split]. split; [done|by rewrite Hc].
Qed.

Lemma bounded_frame_bound s m f : bounded_inv s m -> f ∈ pmm_free s ->
  0 <= f /\ (f + 1) * FRAME_SIZE <= 2 ^ 47 /\
  U64 - 2 ^ 47 <= pmm_hhdm_offset s /\ pmm_hhdm_offset s + (f + 1) * FRAME_SIZE < U64.
Proof. intros [Hi _]. by apply (bitmap_frame_bound poison s m). Qed.

Lemma bounded_inv_mem s m m' : bounded_inv s m ->
  (forall f x, f ∈ pmm_free s ->
     pmm_hhdm_offset s + f * FRAME_SIZE <= x < pmm_hhdm_offset s + (f + 1) * FRAME_SIZE ->
     m' x = m x) ->
  bounded_inv s m'.
Proof. intros [Hi Hl] Hm. split; [|done]. by apply (bitmap_inv_mem poison s m). Qed.

Definition bounded_FrameAllocator : FrameAllocator BitmapAllocator := {|
  fa_allocate := allocate_frame poison;
  fa_inv := bounded_inv;
  fa_free := pmm_free;
  fa_offset := pmm_hhdm_offset;
  fa_allocate_spec := bounded_allocate_spec;
  fa_frame_bound := bounded_frame_bound;
  fa_inv_mem := bounded_inv_mem;
|}.

Lemma drop_frame_spec s m f : bounded_inv s m -> 0 <= f < limit -> f ∉ pmm_free s ->
  wp (drop_frame s m (f * FRAME_SIZE)) (fun '(s', m') =>
    bounded_inv s' m' /\ pmm_hhdm_offset s' = pmm_hhdm_offset s /\ pmm_free s' = {[f]} ∪ pmm_free s /\
    forall x, ~ (pmm_hhdm_offset s + f * FRAME_SIZE <= x < pmm_hhdm_offset s + (f + 1) * FRAME_SIZE) -> m' x = m x).
Proof.
  intros [[Hi Hp] Hl] Hf Hn. unfold drop_frame. wp_step.
  eapply wp_mono; [apply (wp_pmm_deallocate_frame poison s m f); [done|done|by rewrite Hl|done]|].
  intros [[s' m'] r] (_ & Hi' & [Hc Ho] & Hfree & Hp' & Hch). wp_step. split; [by split; [|rewrite Hc]|].
  split; [done|]. split; [by rewrite Hfree, run_set_1|]. intros x Hx. apply Hch. unfold page_virt, FRAME_SIZE in *. lia.
Qed.

Lemma bounded_free_managed s m f : bounded_inv s m -> f ∈ pmm_free s -> 0 <= f < limit.
Proof. intros [_ <-] [? _]%elem_of_free_set. done. Qed.

Definition bounded_FrameDeallocator : FrameDeallocator BitmapAllocator (FA := bounded_FrameAllocator) :=
  Build_FrameDeallocator BitmapAllocator bounded_FrameAllocator drop_frame (fun f => 0 <= f < limit)
    bounded_free_managed drop_frame_spec.
End Bounded.

(** ** Properties *)

(** Allocation of a frame is sound and complete: it never panics on a
    well-formed allocator, hands out a frame that was free and only that one,
    whatever the search hint, and reports exhaustion only when no frame is
    free. *)
Theorem pmm_allocate_frame_correct (poison : bool) (s : BitmapAllocator) (m : mem) :
  pmm_inv s -> poison_ok poison s m ->
  exists s' o, allocate_frame poison s m = Ret (s', o) /\
    pmm_inv s' /\ poison_ok poison s' m /\ same_config s s' /\
    match o with
    | Some a => exists f, a = f * FRAME_SIZE /\ f ∈ pmm_free s /\ pmm_free s' = pmm_free s ∖ {[f]}
    | None => s' = s /\ pmm_free s = ∅
    end.
Proof.
  intros Hi Hp. pose proof (wp_and _ _ _ (wp_pmm_allocate_frame poison s m Hi Hp)
    (bitmap_allocate_spec poison s m (conj Hi Hp))) as H.
  apply wp_exists in H as ([s' o] & E & (? & ? & ?) & ([_ ?] & _)). eauto 10.
Qed.

(** A small machine: 272 frames, 64 of them reserved. *)
Definition example_map : list PhysMemoryRegion :=
  [mkPhysMemoryRegion 0 0x1000 false; mkPhysMemoryRegion 0x1000 0x9F000 true;
   mkPhysMemoryRegion 0x100000 0x10000 true].
Definition example_pmm : BitmapAllocator :=
  mkBitmapAllocator [3; 0; 0xFFFFFFFF00000000; 0xFFFFFFFFFFFFFFFF; 0xFFFFFFFFFFFF0000]
    272 174 0 0xFFFF800000000000.

Lemma example_map_ok : Forall (map_region_ok (2 ^ 46)) example_map /\ regions_disjoint example_map.
Proof.
  split.
  - unfold example_map. repeat (constructor; [unfold map_region_ok, pmr_end; simpl; try done;
      intros _; split_and!; try done; lia|]). constructor.
  - assert (forall g, g ∈ run_set 1 159 -> g ∈ run_set 256 16 -> False) as Hd
      by (intros g; rewrite !elem_of_run_set; lia).
    simpl. split_and!; repeat constructor; unfold region_frames; simpl; set_solver.
Qed.

Lemma example_pmm_inv : pmm_inv example_pmm.
Proof.
  assert (BitmapAllocator_new example_map 0xFFFF800000000000 = Ret (Ok example_pmm)) as E
    by (vm_compute; reflexivity).
  destruct example_map_ok as [H1 H2].
  pose proof (wp_pmm_new example_map 0xFFFF800000000000 (2 ^ 46) H1 H2
    ltac:(lia) ltac:(unfold U64; lia) ltac:(unfold U64; lia)) as H.
  apply (wp_use _ _ _ H) in E as [Hi _]. exact Hi.
Qed.

Definition zero_mem : mem := fun _ => 0.

Lemma example_poison_ok s : poison_ok true s zero_mem.
Proof. intros _ f _. apply check_page_poison_spec. left. by vm_compute. Qed.

Lemma pmm_allocate_frame_correct_witness :
  exists s' o, allocate_frame true example_pmm zero_mem = Ret (s', o) /\
    pmm_inv s' /\ poison_ok true s' zero_mem /\ same_config example_pmm s' /\
    match o with
    | Some a => exists f, a = f * FRAME_SIZE /\ f ∈ pmm_free example_pmm /\
        pmm_free s' = pmm_free example_pmm ∖ {[f]}
    | None => s' = example_pmm /\ pmm_free example_pmm = ∅
    end.
Proof.
  apply (pmm_allocate_frame_correct true example_pmm zero_mem example_pmm_inv).
  apply example_poison_ok.
Defined.

(** Contiguous allocation finds a run whenever one exists: the word-wise scan
    returns the first frame of [count] consecutive free frames and takes
    exactly those, or reports that no such run exists anywhere in memory. *)
Theorem pmm_allocate_frames_correct (poison : bool) (s : BitmapAllocator) (m : mem) (count : Z) :
  pmm_inv s -> poison_ok poison s m -> 0 < count ->
  exists s' o, allocate_frames poison s m count = Ret (s', o) /\
    pmm_inv s' /\ same_config s s' /\
    match o with
    | Some a => exists f, a = f * FRAME_SIZE /\
        run_set f count ⊆ pmm_free s /\ pmm_free s' = pmm_free s ∖ run_set f count
    | None => s' = s /\ forall f, ~ run_set f count ⊆ pmm_free s
    end.
Proof.
  intros Hi Hp Hc. pose proof (wp_pmm_allocate_frames poison s m count Hi Hp Hc) as H.
  apply wp_exists in H as ([s' o] & E & ?). eauto.
Qed.

Lemma pmm_allocate_frames_correct_witness :
  exists s' o, allocate_frames true example_pmm zero_mem 100 = Ret (s', o) /\
    pmm_inv s' /\ same_config example_pmm s' /\
    match o with
    | Some a => exists f, a = f * FRAME_SIZE /\
        run_set f 100 ⊆ pmm_free example_pmm /\
        pmm_free s' = pmm_free example_pmm ∖ run_set f 100
    | None => s' = example_pmm /\ forall f, ~ run_set f 100 ⊆ pmm_free example_pmm
    end.
Proof.
  apply (pmm_allocate_frames_correct true example_pmm zero_mem 100 example_pmm_inv);
    [apply example_poison_ok|lia].
Defined.

(** Returning frames: a run of used frames becomes free, its pages (and no
    other byte of memory) are poisoned, and the count, the hint and the
    poison invariant are kept. *)
Theorem pmm_deallocate_frames_correct (poison : bool) (s : BitmapAllocator) (m : mem) (f count : Z) :
  pmm_inv s -> poison_ok poison s m -> 0 <= f -> 0 <= count -> f + count <= total_frames s ->
  (forall g, f <= g < f + count -> g ∉ pmm_free s) ->
  exists s' m', deallocate_frames poison s m (f * FRAME_SIZE) count = Ret (s', m', Ok tt) /\
    pmm_inv s' /\ same_config s s' /\ pmm_free s' = run_set f count ∪ pmm_free s /\
    poison_ok poison s' m' /\
    changed_only (page_virt s f) (page_virt s f + count * FRAME_SIZE) m m'.
Proof.
  intros H1 H2 H3 H4 H5 H6.
  pose proof (wp_pmm_deallocate_frames poison s m f count H1 H2 H3 H4 H5 H6) as H.
  apply wp_exists in H as ([[s' m'] r] & E & -> & ?). eauto 10.
Qed.

Lemma pmm_deallocate_frames_correct_witness :
  exists s' m', deallocate_frames true example_pmm zero_mem (160 * FRAME_SIZE) 2 = Ret (s', m', Ok tt) /\
    pmm_inv s' /\ same_config example_pmm s' /\
    pmm_free s' = run_set 160 2 ∪ pmm_free example_pmm /\ poison_ok true s' m' /\
    changed_only (page_virt example_pmm 160) (page_virt example_pmm 160 + 2 * FRAME_SIZE) zero_mem m'.
Proof.
  apply (pmm_deallocate_frames_correct true example_pmm zero_mem 160 2 example_pmm_inv);
    [apply example_poison_ok|lia|lia|simpl; lia|].
  intros g Hg. intros [_ Hu]%elem_of_free_set.
  assert (g = 160 \/ g = 161) as [-> | ->] by lia; vm_compute in Hu; discriminate.
Defined.

(** [deallocate_frame] on any page: out of range it reports [InvalidFrame]
    and changes nothing; on a frame that is already free it panics (the
    double free is caught); on a used frame it frees exactly that frame. *)
Theorem pmm_deallocate_frame_cases (poison : bool) (s : BitmapAllocator) (m : mem) (f : Z) :
  pmm_inv s -> poison_ok poison s m -> 0 <= f ->
  (total_frames s <= f ->
     deallocate_frame poison s m (f * FRAME_SIZE) = Ret (s, m, Err InvalidFrame)) /\
  (f ∈ pmm_free s -> deallocate_frame poison s m (f * FRAME_SIZE) = Panic) /\
  (f < total_frames s -> f ∉ pmm_free s ->
     exists s' m', deallocate_frame poison s m (f * FRAME_SIZE) = Ret (s', m', Ok tt) /\
       pmm_inv s' /\ same_config s s' /\ pmm_free s' = {[f]} ∪ pmm_free s /\
       poison_ok poison s' m' /\
       changed_only (page_virt s f) (page_virt s f + FRAME_SIZE) m m').
Proof.
  intros Hi Hp Hf. split_and!.
  - by apply deallocate_frame_invalid.
  - by apply deallocate_frame_double.
  - intros Ht Hn. pose proof (wp_pmm_deallocate_frame poison s m f Hi Hp (conj Hf Ht) Hn) as H.
    apply wp_exists in H as ([[s' m'] r] & E & -> & ? & ? & Hfr & ? & ?).
    rewrite run_set_1 in Hfr. eauto 10.
Qed.

Lemma pmm_deallocate_frame_cases_witness :
  deallocate_frame true example_pmm zero_mem (2 * FRAME_SIZE) = Panic /\
  deallocate_frame true example_pmm zero_mem (500 * FRAME_SIZE) =
    Ret (example_pmm, zero_mem, Err InvalidFrame).
Proof.
  pose proof (fun f H => pmm_deallocate_frame_cases true example_pmm zero_mem f example_pmm_inv
    (example_poison_ok _) H) as H.
  split.
  - apply (proj1 (proj2 (H 2 ltac:(lia)))). apply elem_of_free_set. split; [simpl; lia|reflexivity].
  - apply (proj1 (H 500 ltac:(lia))). simpl. lia.
Defined.

(** Building the allocator from the boot memory map never panics.  On success
    the free frames are exactly the frames of the usable regions minus the
    pages of the bitmap, and the free count is their number; the two failures
    say that there is no usable memory, or no region that holds the bitmap. *)
Theorem pmm_new_correct (regions : list PhysMemoryRegion) (off limit : Z) :
  Forall (map_region_ok limit) regions -> regions_disjoint regions ->
  0 <= limit <= 2 ^ 46 -> U64 - 2 ^ 47 <= off -> off + limit < U64 ->
  exists r, BitmapAllocator_new regions off = Ret r /\ new_post regions off r.
Proof.
  intros H1 H2 H3 H4 H5. pose proof (wp_pmm_new regions off limit H1 H2 H3 H4 H5) as H.
  by apply wp_exists in H.
Qed.

Lemma pmm_new_correct_witness :
  exists r, BitmapAllocator_new example_map 0xFFFF800000000000 = Ret r /\
    new_post example_map 0xFFFF800000000000 r.
Proof.
  apply (pmm_new_correct example_map 0xFFFF800000000000 (2 ^ 46));
    [apply example_map_ok|apply example_map_ok|lia|unfold U64; lia|unfold U64; lia].
Defined.

(** What the poison check detects: on a page that was poisoned when freed,
    it passes exactly if the page is untouched or its first word was
    overwritten; every write that spares the first word is caught. *)
Theorem poison_check_exact (s : BitmapAllocator) (m m' : mem) (a : PhysAddr) :
  let v := VirtAddr_add (pmm_hhdm_offset s) a in
  exists m1, poison_page s m a = Ret m1 /\
    changed_only v (v + FRAME_SIZE) m m1 /\
    (check_page_poison s m' a = true <->
     load32 m' v <> load32 m1 v \/
     forall j, 0 <= j < FRAME_SIZE / 4 -> load32 m' (v + 4 * j) = load32 m1 (v + 4 * j)).
Proof.
  cbv zeta. pose proof (poison_page_spec s m a) as H. cbv zeta in H.
  set (c := poison_page s m a) in *. clearbody c.
  apply wp_exists in H as (m1 & E & Hc & Hl). exists m1. split_and!; [done|done|].
  rewrite check_page_poison_spec.
  assert (0 <= 0 < FRAME_SIZE / 4) as Hz by done. pose proof (Hl 0 Hz) as H0. rewrite Z.mul_0_r, Z.add_0_r in H0. rewrite H0.
  split; (intros [?|Hj]; [by left|right]); intros j Hb; specialize (Hj j Hb);
    rewrite ?Hl in * by done; done.
Qed.
