(* ===== verification/Heap.v ===== *)
(** * The kernel heap (kernel/mm/src/heap.rs)

    A first-fit free list kept in the free memory itself: each free block
    starts with its size and the address of the next block, 0 for none.  All
    pointers are 64-bit addresses into the byte memory.  The loops over the
    list take a fuel; a list of [n] blocks needs a fuel above [n], and running
    out counts as a panic.  [heap_poison] and [alloc_track] are the build
    options [hadron_debug_heap_poison] and [hadron_debug_alloc_track]. *)

From S2P Require Import Prelude Mem Addr Layout Std Extern Region.

Definition MIN_BLOCK_SIZE : Z := 32.
Definition BLOCK_ALIGN : Z := 16.

Definition heap_align_up (addr align : Z) : exec Z :=
  s ← add64 addr align;
  s ← sub64 s 1;
  k ← sub64 align 1;
  Ret (Z.land s (not64 k)).

(** ** Poisoning and red zones *)

Definition ALLOC_FILL : Z := 0xCD.
Definition FREE_FILL : Z := 0xDD.
Definition REDZONE_FILL : Z := 0xFD.
Definition REDZONE_SIZE : Z := 16.
Definition REDZONE_MAGIC : Z := 0xFDFDFDFD.

(** The [RedZoneHeader] at [h]: the size at [h], the magic number at [h + 8]
    and four bytes of padding at [h + 12]. *)
Definition write_header (m : mem) (h user_size : Z) : mem :=
  let m := store64 m h user_size in
  let m := store32 m (h + 8) REDZONE_MAGIC in
  write_bytes m (h + 12) REDZONE_FILL 4.

Definition fill_alloc (m : mem) (block_addr user_size front_pad : Z) : exec (mem * Z) :=
  user_ptr ← add64 block_addr front_pad;
  m ← (if REDZONE_SIZE <? front_pad then
         n ← sub64 front_pad REDZONE_SIZE;
         Ret (write_bytes m block_addr REDZONE_FILL n)
       else Ret m);
  header_ptr ← sub64 user_ptr REDZONE_SIZE;
  let m := write_header m header_ptr user_size in
  let m := write_bytes m user_ptr ALLOC_FILL user_size in
  back ← add64 user_ptr user_size;
  let m := write_bytes m back REDZONE_FILL REDZONE_SIZE in
  Ret (m, user_ptr).

(** [n] bytes from [a] on all equal [v]. *)
Fixpoint bytes_are (m : mem) (a v : Z) (n : nat) : bool :=
  match n with
  | O => true
  | S n => if load 1 m a =? v then bytes_are m (a + 1) v n else false
  end.

Definition check_and_fill_dealloc (m : mem) (user_ptr user_size front_pad : Z) : exec mem :=
  let user_addr := user_ptr in
  block_addr ← sub64 user_addr front_pad;
  header_ptr ← sub64 user_addr REDZONE_SIZE;
  _ ← assert (load32 m (header_ptr + 8) =? REDZONE_MAGIC);
  _ ← assert (load64 m header_ptr =? user_size);
  _ ← assert (bytes_are m (header_ptr + 12) REDZONE_FILL 4);
  _ ← (if REDZONE_SIZE <? front_pad then
         n ← sub64 front_pad REDZONE_SIZE;
         assert (bytes_are m block_addr REDZONE_FILL (Z.to_nat n))
       else Ret tt);
  back_start ← add64 user_addr user_size;
  _ ← assert (bytes_are m back_start REDZONE_FILL (Z.to_nat REDZONE_SIZE));
  Ret (write_bytes m user_ptr FREE_FILL user_size).

(** ** The free list *)

(** The two fields of a [FreeBlock]. *)
Definition block_size (m : mem) (b : Z) : Z := load64 m b.
Definition block_next (m : mem) (b : Z) : Z := load64 m (b + 8).
Definition set_size (m : mem) (b v : Z) : mem := store64 m b v.
Definition set_next (m : mem) (b v : Z) : mem := store64 m (b + 8) v.

Record LinkedListAllocatorInner : Type := mkHeap {
  hp_head : Z;
  hp_heap_start : Z;
  hp_heap_end : Z;
  hp_allocated_bytes : Z;
}.

Definition with_head (inner : LinkedListAllocatorInner) (head : Z) : LinkedListAllocatorInner :=
  mkHeap head (hp_heap_start inner) (hp_heap_end inner) (hp_allocated_bytes inner).

Definition heap_new : LinkedListAllocatorInner := mkHeap 0 0 0 0.

Definition heap_init (inner : LinkedListAllocatorInner) (m : mem) (heap_start heap_size : Z)
    : exec (LinkedListAllocatorInner * mem) :=
  _ ← assert (hp_head inner =? 0);
  _ ← assert (MIN_BLOCK_SIZE <=? heap_size);
  e ← add64 heap_start heap_size;
  let block := heap_start in
  let m := set_next (set_size m block heap_size) block 0 in
  Ret (mkHeap block heap_start e (hp_allocated_bytes inner), m).

(** The search for the insertion point: the last block below [block_addr]
    and the first one at or above it. *)
Fixpoint insertion_point (fuel : nat) (m : mem) (block_addr prev current : Z) : exec (Z * Z) :=
  if negb (current =? 0) && (current <? block_addr) then
    match fuel with
    | O => Panic
    | S fuel => insertion_point fuel m block_addr current (block_next m current)
    end
  else Ret (prev, current).

Definition insert_and_coalesce (fuel : nat) (inner : LinkedListAllocatorInner) (m : mem) (block : Z)
    : exec (LinkedListAllocatorInner * mem) :=
  let block_addr := block in
  let bsize := block_size m block in
  '(prev, current) ← insertion_point fuel m block_addr 0 (hp_head inner);
  (* Try coalesce with predecessor. *)
  touches ← (if prev =? 0 then Ret false
             else prev_end ← add64 prev (block_size m prev); Ret (prev_end =? block_addr));
  if touches : bool then
    s ← add64 (block_size m prev) bsize;
    let m := set_size m prev s in
    merged_end ← add64 prev (block_size m prev);
    if negb (current =? 0) && (merged_end =? current) then
      s ← add64 (block_size m prev) (block_size m current);
      let m := set_size m prev s in
      let m := set_next m prev (block_next m current) in
      Ret (inner, m)
    else Ret (inner, m)
  else
  (* Try coalesce with successor. *)
  m ← (if negb (current =? 0) then
         block_end ← add64 block_addr bsize;
         if block_end =? current then
           s ← add64 (block_size m block) (block_size m current);
           let m := set_size m block s in
           Ret (set_next m block (block_next m current))
         else Ret (set_next m block current)
       else Ret (set_next m block 0));
  (* Link from predecessor. *)
  if prev =? 0 then Ret (with_head inner block, m)
  else Ret (inner, set_next m prev block).

Definition add_free_region (fuel : nat) (inner : LinkedListAllocatorInner) (m : mem) (addr size : Z)
    : exec (LinkedListAllocatorInner * mem) :=
  _ ← assert (MIN_BLOCK_SIZE <=? size);
  _ ← assert (addr mod BLOCK_ALIGN =? 0);
  let m := set_next (set_size m addr size) addr 0 in
  insert_and_coalesce fuel inner m addr.

(** Unlinking the block that fits and returning what is left of it. *)
Definition take_block (fuel : nat) (inner : LinkedListAllocatorInner) (m : mem)
    (prev current alloc_start size : Z) : exec (LinkedListAllocatorInner * mem) :=
  let block_addr := current in
  let bsize := block_size m current in
  let next := block_next m current in
  let '(inner, m) := if prev =? 0 then (with_head inner next, m)
                     else (inner, set_next m prev next) in
  front_padding ← sub64 alloc_start block_addr;
  '(inner, m) ← (if MIN_BLOCK_SIZE <=? front_padding then
                   let m := set_next (set_size m block_addr front_padding) block_addr 0 in
                   insert_and_coalesce fuel inner m block_addr
                 else Ret (inner, m));
  d ← sub64 alloc_start block_addr;
  used_size ← add64 d size;
  remainder ← sub64 bsize used_size;
  if MIN_BLOCK_SIZE <=? remainder then
    rem_addr ← add64 alloc_start size;
    rem_aligned ← heap_align_up rem_addr BLOCK_ALIGN;
    e ← add64 block_addr bsize;
    rem_size ← sub64 e rem_aligned;
    if MIN_BLOCK_SIZE <=? rem_size then add_free_region fuel inner m rem_aligned rem_size
    else Ret (inner, m)
  else Ret (inner, m).

Fixpoint first_fit_loop (fuel0 fuel : nat) (inner : LinkedListAllocatorInner) (m : mem)
    (size align prev current : Z) : exec (LinkedListAllocatorInner * mem * option (Z * Z)) :=
  if current =? 0 then Ret (inner, m, None) else
  match fuel with
  | O => Panic
  | S fuel =>
      let block_addr := current in
      let bsize := block_size m current in
      alloc_start ← heap_align_up block_addr align;
      match checked_add64 alloc_start size with
      | None => Ret (inner, m, None)
      | Some alloc_end =>
          e ← add64 block_addr bsize;
          if alloc_end <=? e then
            '(inner, m) ← take_block fuel0 inner m prev current alloc_start size;
            Ret (inner, m, Some (alloc_start, size))
          else first_fit_loop fuel0 fuel inner m size align current (block_next m current)
      end
  end.

Definition find_first_fit (fuel : nat) (inner : LinkedListAllocatorInner) (m : mem) (size align : Z)
    : exec (LinkedListAllocatorInner * mem * option (Z * Z)) :=
  first_fit_loop fuel fuel inner m size align 0 (hp_head inner).

(** ** Allocation statistics *)

Record AllocStats : Type := mkAllocStats {
  total_allocs : Z;
  total_frees : Z;
  current_live : Z;
  current_bytes : Z;
  peak_live : Z;
  peak_bytes : Z;
}.

Definition AllocStats_new : AllocStats := mkAllocStats 0 0 0 0 0 0.

Definition record_alloc (self : AllocStats) (user_size : Z) : exec AllocStats :=
  ta ← add64 (total_allocs self) 1;
  cl ← add64 (current_live self) 1;
  cb ← add64 (current_bytes self) user_size;
  let pl := if peak_live self <? cl then cl else peak_live self in
  let pb := if peak_bytes self <? cb then cb else peak_bytes self in
  Ret (mkAllocStats ta (total_frees self) cl cb pl pb).

Definition record_free (self : AllocStats) (user_size : Z) : exec AllocStats :=
  tf ← add64 (total_frees self) 1;
  cl ← sub64 (current_live self) 1;
  cb ← sub64 (current_bytes self) user_size;
  Ret (mkAllocStats (total_allocs self) tf cl cb (peak_live self) (peak_bytes self)).

(** ** [GlobalAlloc] *)

Section Global.
Context (heap_poison alloc_track : bool).
(** The growth callback: it may change its own state [G] and map memory. *)
Context {G : Type} (grow : G -> mem -> Z -> exec (G * mem * option (Z * Z))).

Record HeapState : Type := mkHeapState {
  hs_inner : LinkedListAllocatorInner;
  hs_stats : AllocStats;
  hs_grow_registered : bool;
  hs_grow : G;
}.

Definition heap_register_grow_fn (st : HeapState) : HeapState :=
  mkHeapState (hs_inner st) (hs_stats st) true (hs_grow st).

(** The bytes to take from the list for [user_size] bytes, and the offset of
    the user's pointer in them. *)
Definition padded_size (user_size align : Z) : exec (Z * Z) :=
  if heap_poison then
    fp ← heap_align_up REDZONE_SIZE align;
    s ← add64 fp user_size;
    s ← add64 s REDZONE_SIZE;
    Ret (s, fp)
  else Ret (user_size, 0).

(** The common tail of a successful allocation. *)
Definition finish_alloc (st : HeapState) (inner : LinkedListAllocatorInner) (m : mem)
    (addr size user_size front_pad : Z) : exec (HeapState * mem * Z) :=
  ab ← add64 (hp_allocated_bytes inner) size;
  let inner := mkHeap (hp_head inner) (hp_heap_start inner) (hp_heap_end inner) ab in
  stats ← (if alloc_track then record_alloc (hs_stats st) user_size else Ret (hs_stats st));
  let st := mkHeapState inner stats (hs_grow_registered st) (hs_grow st) in
  if heap_poison then
    '(m, p) ← fill_alloc m addr user_size front_pad;
    Ret (st, m, p)
  else Ret (st, m, addr).

Definition heap_alloc (fuel : nat) (st : HeapState) (m : mem) (lsize lalign : Z)
    : exec (HeapState * mem * Z) :=
  let user_size := Z.max lsize MIN_BLOCK_SIZE in
  let align := Z.max lalign BLOCK_ALIGN in
  '(alloc_size, front_pad) ← padded_size user_size align;
  '(inner, m, fit) ← find_first_fit fuel (hs_inner st) m alloc_size align;
  match fit with
  | Some (addr, size) => finish_alloc st inner m addr size user_size front_pad
  | None =>
      let st := mkHeapState inner (hs_stats st) (hs_grow_registered st) (hs_grow st) in
      if hs_grow_registered st then
        let min_grow := Z.max alloc_size (64 * 1024) in
        '(g, m, grown) ← grow (hs_grow st) m min_grow;
        let st := mkHeapState (hs_inner st) (hs_stats st) (hs_grow_registered st) g in
        match grown with
        | Some (ptr, actual_size) =>
            '(inner, m) ← add_free_region fuel (hs_inner st) m ptr actual_size;
            e ← add64 ptr actual_size;
            let inner := mkHeap (hp_head inner) (hp_heap_start inner)
                           (Z.max (hp_heap_end inner) e) (hp_allocated_bytes inner) in
            '(inner, m, fit) ← find_first_fit fuel inner m alloc_size align;
            match fit with
            | Some (addr, size) => finish_alloc st inner m addr size user_size front_pad
            | None => Ret (mkHeapState inner (hs_stats st) (hs_grow_registered st) (hs_grow st), m, 0)
            end
        | None => Ret (st, m, 0)
        end
      else Ret (st, m, 0)
  end.

Definition heap_dealloc (fuel : nat) (st : HeapState) (m : mem) (ptr lsize lalign : Z)
    : exec (HeapState * mem) :=
  let user_size := Z.max lsize MIN_BLOCK_SIZE in
  let align := Z.max lalign BLOCK_ALIGN in
  '(m, block_addr, bsize) ←
    (if heap_poison then
       front_pad ← heap_align_up REDZONE_SIZE align;
       m ← check_and_fill_dealloc m ptr user_size front_pad;
       base ← sub64 ptr front_pad;
       s ← add64 front_pad user_size;
       s ← add64 s REDZONE_SIZE;
       Ret (m, base, s)
     else Ret (m, ptr, user_size));
  stats ← (if alloc_track then record_free (hs_stats st) user_size else Ret (hs_stats st));
  let inner := hs_inner st in
  ab ← sub64 (hp_allocated_bytes inner) bsize;
  let inner := mkHeap (hp_head inner) (hp_heap_start inner) (hp_heap_end inner) ab in
  '(inner, m) ← add_free_region fuel inner m block_addr bsize;
  Ret (mkHeapState inner stats (hs_grow_registered st) (hs_grow st), m).
End Global.

Arguments HeapState G : clear implicits.

(** ** Facts: the free list in memory *)

(** A free block is aligned and holds at least its header. *)
Definition blk_ok (r : FreeRange) : Prop :=
  fr_base r mod BLOCK_ALIGN = 0 /\ MIN_BLOCK_SIZE <= fr_size r.

(** The address of the first block, [nxt] if there is none. *)
Definition addr_of (l : list FreeRange) (nxt : Z) : Z :=
  match l with [] => nxt | r :: _ => fr_base r end.

Definition last_addr (l : list FreeRange) (prev : Z) : Z :=
  match last l with Some r => fr_base r | None => prev end.

(** The headers of the blocks [l] are in memory, chained, and the last one
    points to [nxt]. *)
Fixpoint blocks (m : mem) (l : list FreeRange) (nxt : Z) : Prop :=
  match l with
  | [] => True
  | r :: l => block_size m (fr_base r) = fr_size r /\
              block_next m (fr_base r) = addr_of l nxt /\ blocks m l nxt
  end.

Definition heap_rep (m : mem) (head : Z) (l : list FreeRange) : Prop :=
  head = addr_of l 0 /\ blocks m l 0 /\ gaps 0 l U64 /\ Forall blk_ok l.

Lemma addr_of_app l1 l2 nxt : addr_of (l1 ++ l2) nxt = addr_of l1 (addr_of l2 nxt).
Proof. by destruct l1. Qed.

Lemma blocks_app m l1 l2 nxt :
  blocks m (l1 ++ l2) nxt <-> blocks m l1 (addr_of l2 nxt) /\ blocks m l2 nxt.
Proof. induction l1 as [|r l1 IH]; simpl; [tauto|]. rewrite IH, addr_of_app. tauto. Qed.

Lemma blocks_frame m m' l nxt :
  Forall blk_ok l -> (forall x, in_ranges l x -> m' x = m x) -> blocks m l nxt -> blocks m' l nxt.
Proof.
  induction l as [|r l IH]; simpl; [done|]. intros [[_ Hr] Hok]%Forall_cons Hm (H1 & H2 & H3).
  unfold MIN_BLOCK_SIZE in Hr.
  assert (forall x, fr_base r <= x < fr_base r + 16 -> m' x = m x) as Hhdr.
  { intros x Hx. apply Hm, in_ranges_cons. left. unfold fr_end. lia. }
  split_and!.
  - rewrite <- H1. apply load_ext. intros; apply Hhdr; lia.
  - rewrite <- H2. apply load_ext. intros; apply Hhdr; lia.
  - apply IH; [done| |done]. intros x Hx. apply Hm, in_ranges_cons. by right.
Qed.

(** A store outside the blocks leaves the list alone. *)
Lemma blocks_store m l nxt b v :
  Forall blk_ok l -> (forall x, in_ranges l x -> x < b \/ b + 8 <= x) ->
  blocks m l nxt -> blocks (store64 m b v) l nxt.
Proof.
  intros Hok Hout. apply blocks_frame; [done|]. intros x Hx. apply store_changed.
  specialize (Hout x Hx). lia.
Qed.

Lemma gaps_app_l lo l1 l2 hi : gaps lo (l1 ++ l2) hi -> gaps lo l1 hi.
Proof.
  revert lo. induction l1 as [|r l1 IH]; simpl; intros lo; [apply gaps_lt|].
  intros (? & ? & ?). auto.
Qed.

Lemma gaps_app_r lo l1 l2 hi : gaps lo (l1 ++ l2) hi -> gaps lo l2 hi.
Proof.
  revert lo. induction l1 as [|r l1 IH]; simpl; intros lo; [done|].
  intros (? & ? & H%IH). unfold fr_end in *. eapply gaps_mono; [done|lia|lia].
Qed.

(** Redirecting the last block of a segment. *)
Lemma blocks_relink m lo l p hi nxt v :
  Forall blk_ok (l ++ [p]) -> gaps lo (l ++ [p]) hi -> is_u64 v ->
  blocks m (l ++ [p]) nxt -> blocks (set_next m (fr_base p) v) (l ++ [p]) v.
Proof.
  intros [Hl [[_ Hp] _]%Forall_cons]%Forall_app [Hg [Hs _]]%gaps_mid Hv
    [H1 (H2 & H3 & _)]%blocks_app. unfold MIN_BLOCK_SIZE in Hp. simpl in H1.
  apply blocks_app. split.
  - simpl. apply blocks_store; [done| |done].
    intros x Hx. apply (in_ranges_bounds _ _ _ _ Hg) in Hx. lia.
  - simpl. unfold block_size, block_next, set_next in *. split_and!; [|by apply load64_store64_eq|done].
    rewrite load_store_ne by lia. done.
Qed.

Lemma insertion_point_spec fuel m a prev l :
  gaps 0 l U64 -> blocks m l 0 -> (length l <= fuel)%nat ->
  wp (insertion_point fuel m a prev (addr_of l 0)) (fun '(p, c) => exists l1 l2,
    l = l1 ++ l2 /\ p = last_addr l1 prev /\ c = addr_of l2 0 /\
    Forall (fun r => fr_base r < a) l1 /\ Forall (fun r => a <= fr_base r) l2).
Proof.
  revert prev l. induction fuel as [|fuel IH]; intros prev l Hg Hb Hf.
  - destruct l as [|r l]; [|simpl in Hf; lia]. simpl. wp_step. exists [], []. by split_and!.
  - destruct l as [|r l]; simpl; [wp_step; exists [], []; by split_and!|].
    pose proof Hg as (Hr & Hs & Hg'). rewrite (proj2 (Z.eqb_neq _ _)) by lia. simpl.
    destruct (Z.ltb_spec (fr_base r) a) as [Hlt|Hge].
    + destruct Hb as (Hb1 & Hb2 & Hb3). rewrite Hb2.
      eapply wp_mono; [apply IH; [|done|simpl in Hf; lia]|].
      { eapply gaps_mono; [done|unfold fr_end; lia|lia]. }
      intros [p c] (l1 & l2 & -> & -> & -> & H1 & H2). exists (r :: l1), l2.
      split_and!; try done; [|by constructor].
      unfold last_addr. rewrite last_cons. by destruct (last l1).
    + wp_step. exists [], (r :: l). split_and!; try done. apply Forall_forall. intros s Hs'.
      apply elem_of_cons in Hs' as [->|Hin]; [done|].
      apply (gaps_in _ _ _ _ Hg') in Hin. unfold fr_end in *. lia.
Qed.

(** ** Insertion *)

Lemma merged_blk_ok l1 a n l2 l' :
  merged l1 a n l2 l' -> Forall blk_ok (l1 ++ l2) -> a mod BLOCK_ALIGN = 0 -> MIN_BLOCK_SIZE <= n ->
  Forall blk_ok l'.
Proof.
  apply (merged_Forall (fun x => x mod BLOCK_ALIGN = 0) (fun x => MIN_BLOCK_SIZE <= x)).
  unfold MIN_BLOCK_SIZE. lia.
Qed.

(** The result of inserting the block [a], [n] between [l1] and [l2]. *)
Definition inserted (inner : LinkedListAllocatorInner) (m : mem) (a n : Z) (l1 l2 : list FreeRange)
    (inner' : LinkedListAllocatorInner) (m' : mem) : Prop :=
  exists l', merged l1 a n l2 l' /\ inner' = with_head inner (addr_of l' 0) /\
    blocks m' l' 0 /\
    forall x, ~ in_ranges (l1 ++ l2) x -> ~ (a <= x < a + n) -> m' x = m x.

Lemma with_head_id inner : with_head inner (hp_head inner) = inner.
Proof. by destruct inner. Qed.

Lemma store64_out m b v x : x < b \/ b + 8 <= x -> store64 m b v x = m x.
Proof. intros. apply store_changed. lia. Qed.

(** Extending the predecessor [p] up to [e]. *)
Lemma grow_pred m lo l1 p l2 s nxt :
  gaps lo (l1 ++ p :: l2) U64 -> Forall blk_ok (l1 ++ p :: l2) -> 0 <= fr_base p -> is_u64 s ->
  blocks m (l1 ++ p :: l2) nxt ->
  blocks (set_size m (fr_base p) s) l1 (fr_base p) /\
  block_size (set_size m (fr_base p) s) (fr_base p) = s /\
  block_next (set_size m (fr_base p) s) (fr_base p) = addr_of l2 nxt /\
  blocks (set_size m (fr_base p) s) l2 nxt.
Proof.
  intros (Hg1 & Hs & Hg2)%gaps_mid (Hok1 & ([_ Hp] & Hok2)%Forall_cons)%Forall_app Hp0 Hsz
    (Hb1 & Hb2 & Hb3 & Hb4)%blocks_app.
  unfold MIN_BLOCK_SIZE in Hp. unfold block_size, block_next, set_size, fr_end in *. split_and!.
  - apply blocks_store; [done| |done]. intros x Hx. apply (in_ranges_bounds _ _ _ _ Hg1) in Hx. lia.
  - by apply load64_store64_eq.
  - rewrite load_store_ne by lia. done.
  - apply blocks_store; [done| |done]. intros x Hx. apply (in_ranges_bounds _ _ _ _ Hg2) in Hx. lia.
Qed.

Lemma last_addr_snoc l p prev : last_addr (l ++ [p]) prev = fr_base p.
Proof. unfold last_addr. by rewrite last_snoc. Qed.

Lemma insert_at_pred fuel inner m a n l1 p l2 :
  around 0 (l1 ++ [p]) a n l2 U64 -> Forall blk_ok ((l1 ++ [p]) ++ l2) ->
  blocks m ((l1 ++ [p]) ++ l2) 0 -> hp_head inner = addr_of ((l1 ++ [p]) ++ l2) 0 ->
  block_size m a = n -> fr_end p = a ->
  insertion_point fuel m a 0 (hp_head inner) = Ret (fr_base p, addr_of l2 0) ->
  wp (insert_and_coalesce fuel inner m a) (fun '(inner', m') =>
    inserted inner m a n (l1 ++ [p]) l2 inner' m').
Proof.
  intros Har Hok Hb Hhead Hn Hp Hip. pose proof Har as (Hg & _ & Hn0 & Hhi & _ & _).
  assert (last_touches (l1 ++ [p]) a = true) as Ht
    by (unfold last_touches; rewrite last_snoc; by apply Z.eqb_eq).
  rewrite <- app_assoc in Hg, Hok, Hb. simpl in Hg, Hok, Hb.
  pose proof Hg as (Hg1 & Hs & Hg2)%gaps_mid. pose proof (gaps_lt _ _ _ Hg1).
  pose proof Hok as (Hok1 & ([_ Hps] & Hok2)%Forall_cons)%Forall_app.
  pose proof Hb as (Hb1 & Hb2 & Hb3 & Hb4)%blocks_app.
  unfold MIN_BLOCK_SIZE, fr_end in *.
  unfold insert_and_coalesce. rewrite Hip, Hn. cbv zeta. do 3 wp_step. rewrite Hb2.
  rewrite (proj2 (Z.eqb_neq _ _)) by lia. wp_steps. rewrite Hp, Z.eqb_refl. do 2 wp_step.
  destruct (grow_pred m 0 l1 p l2 (fr_size p + n) 0) as (Hc1 & Hc2 & Hc3 & Hc4); try done;
    [lia|unfold is_u64; lia|].
  rewrite Hc2. set (m1 := set_size m (fr_base p) (fr_size p + n)) in *. wp_steps.
  replace (fr_base p + (fr_size p + n)) with (a + n) by lia.
  destruct l2 as [|q l2]; simpl addr_of in *.
  { simpl. wp_steps. exists (l1 ++ [mkFreeRange (fr_base p) (fr_size p + n)]). split_and!.
    - unfold merged. rewrite Ht. simpl. exists l1, p. done.
    - rewrite <- with_head_id at 1. f_equal. rewrite Hhead. by destruct l1.
    - apply blocks_app. split; [done|]. simpl. auto.
    - intros x Hx _. apply store64_out. rewrite !in_ranges_app, in_ranges_cons in Hx.
      unfold fr_end in Hx. lia. }
  apply Forall_cons in Hok2 as [[_ Hqs] Hok2]. pose proof Hg2 as (Hq1 & Hq2 & Hg3).
  pose proof (gaps_lt _ _ _ Hg3) as Hq3. unfold MIN_BLOCK_SIZE, fr_end in *. destruct Hc4 as (Hc4 & Hc5 & Hc6).
  rewrite (proj2 (Z.eqb_neq (fr_base q) 0)) by lia. simpl negb.
  destruct (Z.eqb_spec (a + n) (fr_base q)) as [E|E]; simpl.
  - rewrite Hc4. wp_steps. set (s := fr_size p + n + fr_size q).
    assert (fr_base q = fr_base p + fr_size p + n) as Hqb by lia.
    set (m2 := set_size m1 (fr_base p) s).
    assert (block_next m2 (fr_base q) = addr_of l2 0) as ->.
    { unfold block_next, m2, set_size. rewrite load_store_ne by lia. done. }
    exists (l1 ++ mkFreeRange (fr_base p) (fr_size p + (n + fr_size q)) :: l2). split_and!.
    + unfold merged. rewrite Ht. unfold head_touches. simpl.
      rewrite (proj2 (Z.eqb_eq _ _)) by lia. exists l1, p, q, l2. done.
    + rewrite <- with_head_id at 1. f_equal. rewrite Hhead. by destruct l1.
    + apply blocks_app. cbn [addr_of fr_base fr_size blocks].
      assert (is_u64 (addr_of l2 0)) as Hu.
      { destruct l2 as [|r l2]; [unfold is_u64, U64; simpl; lia|]. destruct Hg3 as (? & ? & Hg3).
        apply gaps_lt in Hg3. unfold is_u64, fr_end in *. simpl. lia. }
      assert (forall l nx, Forall blk_ok l -> (forall x, in_ranges l x -> x < fr_base p \/ a <= x) ->
                blocks m1 l nx -> blocks (set_next m2 (fr_base p) (addr_of l2 0)) l nx) as Hfr.
      { intros l nx Hl Hout Hbl. apply blocks_store; [done| |apply blocks_store; [done| |done]];
          intros x Hx; specialize (Hout x Hx); lia. }
      split_and!.
      * apply Hfr; try done. intros x Hx. apply (in_ranges_bounds _ _ _ _ Hg1) in Hx. lia.
      * unfold block_size, set_next, m2, set_size. rewrite load_store_ne by lia.
        rewrite load64_store64_eq; [unfold s; lia|unfold is_u64, s; lia].
      * unfold block_next, set_next. rewrite load64_store64_eq; done.
      * apply Hfr; try done. intros x Hx. apply (in_ranges_bounds _ _ _ _ Hg3) in Hx. lia.
    + intros x Hx _. rewrite !in_ranges_app, in_ranges_cons in Hx. unfold fr_end in Hx.
      unfold set_next, m2, set_size. rewrite !store64_out by lia. apply store64_out. lia.
  - wp_steps. exists (l1 ++ mkFreeRange (fr_base p) (fr_size p + n) :: q :: l2). split_and!.
    + unfold merged. rewrite Ht. unfold head_touches. simpl.
      rewrite (proj2 (Z.eqb_neq _ _)) by lia. exists l1, p. done.
    + rewrite <- with_head_id at 1. f_equal. rewrite Hhead. by destruct l1.
    + apply blocks_app. cbn [addr_of fr_base fr_size blocks]. by split_and!.
    + intros x Hx _. apply store64_out. rewrite !in_ranges_app, in_ranges_cons in Hx.
      unfold fr_end in Hx. lia.
Qed.

Lemma addr_of_u64 lo l hi : gaps lo l hi -> 0 <= lo -> hi <= U64 -> is_u64 (addr_of l 0).
Proof.
  destruct l as [|r l]; simpl; [unfold is_u64, U64; lia|]. intros (? & ? & H%gaps_lt) ??.
  unfold is_u64, fr_end in *. lia.
Qed.

(** Linking a prepared block [a] behind [l1] and before [l2]. *)
Lemma link_block inner m l1 a s l2 nxt :
  gaps 0 l1 a -> gaps (a + s) l2 U64 -> is_u64 a -> 16 <= s ->
  Forall blk_ok l1 -> Forall blk_ok l2 ->
  hp_head inner = addr_of l1 nxt ->
  blocks m l1 nxt -> block_size m a = s -> block_next m a = addr_of l2 0 -> blocks m l2 0 ->
  wp (if last_addr l1 0 =? 0 then Ret (with_head inner a, m)
      else Ret (inner, set_next m (last_addr l1 0) a)) (fun '(inner', m') =>
    inner' = with_head inner (addr_of (l1 ++ mkFreeRange a s :: l2) 0) /\
    blocks m' (l1 ++ mkFreeRange a s :: l2) 0 /\
    forall x, ~ in_ranges l1 x -> m' x = m x).
Proof.
  intros Hg1 Hg2 Ha Hs Hok1 Hok2 Hhead Hb1 Hsz Hnx Hb2.
  destruct l1 as [|p l1 _] using rev_ind.
  - simpl. wp_step. split_and!; try done. 
  - rewrite last_addr_snoc. pose proof Hg1 as (Hg3 & Hps & Hg4)%gaps_mid.
    pose proof (gaps_lt _ _ _ Hg3). simpl in Hg4.
    assert (MIN_BLOCK_SIZE <= fr_size p) as Hpm
      by (by apply Forall_app in Hok1 as [_ [[_ ?] _]%Forall_cons]).
    unfold MIN_BLOCK_SIZE, fr_end in *.
    rewrite (proj2 (Z.eqb_neq _ _)) by lia. wp_step. split_and!.
    + rewrite <- with_head_id at 1. f_equal. rewrite Hhead. by destruct l1.
    + apply blocks_app. split; [by eapply blocks_relink|]. cbn [blocks fr_base fr_size].
      split_and!.
      * unfold block_size, set_next in *. rewrite load_store_ne by lia. done.
      * unfold block_next, set_next in *. rewrite load_store_ne by lia. done.
      * apply blocks_store; [done| |done]. intros x Hx.
        apply (in_ranges_bounds _ _ _ _ Hg2) in Hx. lia.
    + intros x Hx. apply store64_out. rewrite in_ranges_app, in_ranges_cons in Hx.
      unfold fr_end in Hx. lia.
Qed.

(** Setting the size and the next pointer of a block outside the list. *)
Lemma prepare_block m l1 n1 l2 n2 a s v :
  Forall blk_ok l1 -> Forall blk_ok l2 ->
  (forall x, in_ranges l1 x -> x < a) -> (forall x, in_ranges l2 x -> a + 16 <= x) ->
  is_u64 s -> is_u64 v -> blocks m l1 n1 -> blocks m l2 n2 ->
  let m' := set_next (set_size m a s) a v in
  blocks m' l1 n1 /\ blocks m' l2 n2 /\ block_size m' a = s /\ block_next m' a = v /\
  (forall x, ~ (a <= x < a + 16) -> m' x = m x).
Proof.
  intros Ho1 Ho2 H1 H2 Hs Hv Hb1 Hb2. cbv zeta.
  assert (forall x, ~ (a <= x < a + 16) -> set_next (set_size m a s) a v x = m x) as Hfr.
  { intros x Hx. unfold set_next, set_size. rewrite !store64_out by lia. done. }
  split_and!; try done.
  - eapply blocks_frame; [done| |done]. intros x Hx. apply Hfr. specialize (H1 x Hx). lia.
  - eapply blocks_frame; [done| |done]. intros x Hx. apply Hfr. specialize (H2 x Hx). lia.
  - unfold block_size, set_next, set_size. rewrite load_store_ne by lia. by apply load64_store64_eq.
  - unfold block_next, set_next. by apply load64_store64_eq.
Qed.

(** Setting only the next pointer. *)
Lemma prepare_next m l1 n1 l2 n2 a v :
  Forall blk_ok l1 -> Forall blk_ok l2 ->
  (forall x, in_ranges l1 x -> x < a) -> (forall x, in_ranges l2 x -> a + 16 <= x) ->
  is_u64 v -> blocks m l1 n1 -> blocks m l2 n2 ->
  let m' := set_next m a v in
  blocks m' l1 n1 /\ blocks m' l2 n2 /\ block_size m' a = block_size m a /\ block_next m' a = v /\
  (forall x, ~ (a <= x < a + 16) -> m' x = m x).
Proof.
  intros Ho1 Ho2 H1 H2 Hv Hb1 Hb2. cbv zeta.
  assert (forall x, ~ (a <= x < a + 16) -> set_next m a v x = m x) as Hfr.
  { intros x Hx. apply store64_out. lia. }
  split_and!; try done.
  - eapply blocks_frame; [done| |done]. intros x Hx. apply Hfr. specialize (H1 x Hx). lia.
  - eapply blocks_frame; [done| |done]. intros x Hx. apply Hfr. specialize (H2 x Hx). lia.
  - unfold block_size, set_next. by rewrite load_store_ne by lia.
  - unfold block_next, set_next. by apply load64_store64_eq.
Qed.

Lemma insert_no_pred fuel inner m a n l1 l2 :
  around 0 l1 a n l2 U64 -> Forall blk_ok (l1 ++ l2) -> MIN_BLOCK_SIZE <= n ->
  blocks m (l1 ++ l2) 0 -> hp_head inner = addr_of (l1 ++ l2) 0 ->
  block_size m a = n -> last_touches l1 a = false ->
  insertion_point fuel m a 0 (hp_head inner) = Ret (last_addr l1 0, addr_of l2 0) ->
  wp (insert_and_coalesce fuel inner m a) (fun '(inner', m') => inserted inner m a n l1 l2 inner' m').
Proof.
  intros Har Hok Hmin Hb Hhead Hn Ht Hip. pose proof Har as (Hg & Ha & Hn0 & Hhi & HF1 & HF2).
  pose proof (around_left _ _ _ _ _ _ Har Ht) as Hg1.
  pose proof (gaps_app_r _ _ _ _ Hg) as Hg2.
  pose proof Hok as (Hok1 & Hok2)%Forall_app. pose proof Hb as (Hb1 & Hb2)%blocks_app.
  rewrite addr_of_app in Hhead.
  assert (forall x, in_ranges l1 x -> x < a) as Hin1
    by (intros x Hx; apply (in_ranges_bounds _ _ _ _ Hg1) in Hx; lia).
  assert (forall x, in_ranges l2 x -> a + n <= x) as Hin2.
  { intros x (r & Hr & Hx)%Exists_exists. rewrite Forall_forall in HF2. specialize (HF2 r Hr). lia. }
  unfold MIN_BLOCK_SIZE in Hmin.
  unfold insert_and_coalesce. rewrite Hip, Hn. cbv zeta. do 3 wp_step.
  assert (wp (if last_addr l1 0 =? 0 then Ret false
              else prev_end ← add64 (last_addr l1 0) (block_size m (last_addr l1 0));
                   Ret (prev_end =? a)) (eq false)) as Hfalse.
  { destruct l1 as [|p l1 _] using rev_ind; [by simpl; wp_step|].
    unfold last_touches in Ht. rewrite last_snoc in Ht. unfold fr_end in Ht. rewrite last_addr_snoc.
    apply blocks_app in Hb1 as [_ (Hbp & _)].
    pose proof (gaps_in _ _ _ p Hg1 ltac:(set_solver)) as (? & ? & ?). unfold fr_end in *.
    rewrite (proj2 (Z.eqb_neq _ _)) by lia. rewrite Hbp. wp_steps. by rewrite Ht. }
  eapply wp_mono; [exact Hfalse|]. intros _ <-. wp_step.
  destruct (head_touches l2 (a + n)) eqn:Eh.
  - apply head_touches_true in Eh as Hq. destruct Hq as (q & l2' & -> & Hq). simpl addr_of in *.
    pose proof Hg2 as (Hq1 & Hq2 & Hg3). pose proof (gaps_lt _ _ _ Hg3) as Hq3.
    apply Forall_cons in Hok2 as [[_ Hqs] Hok2].
    destruct Hb2 as (Hbq & Hbqn & Hb2). unfold MIN_BLOCK_SIZE, fr_end in *.
    rewrite (proj2 (Z.eqb_neq (fr_base q) 0)) by lia. simpl negb. cbv iota. wp_steps.
    rewrite (proj2 (Z.eqb_eq _ _)) by lia. rewrite Hbq. wp_steps.
    replace (block_next (set_size m a (n + fr_size q)) (fr_base q)) with (addr_of l2' 0).
    2: { unfold block_next, set_size. rewrite load_store_ne by lia. done. }
    destruct (prepare_block m l1 (fr_base q) l2' 0 a (n + fr_size q) (addr_of l2' 0))
      as (Hc1 & Hc2 & Hc3 & Hc4 & Hfr); try done.
    { intros x Hx. apply (in_ranges_bounds _ _ _ _ Hg3) in Hx. lia. }
    { unfold is_u64. lia. } { by eapply addr_of_u64; [exact Hg3|lia|]. }
    set (m1 := set_next _ _ _) in *.
    eapply wp_mono; [apply (link_block inner m1 l1 a (n + fr_size q) l2' (fr_base q)); try done|].
    { eapply gaps_mono; [exact Hg3|lia|lia]. } { unfold is_u64. lia. } { lia. }
    intros [inner' m'] (-> & Hb' & Hfr'). exists (l1 ++ mkFreeRange a (n + fr_size q) :: l2').
    split_and!; try done.
    + unfold merged. rewrite Ht, Eh. exists q, l2'. by rewrite (Z.add_comm (fr_size q)).
    + intros x Hx Hx'. rewrite in_ranges_app in Hx. rewrite Hfr' by tauto. apply Hfr. lia.
  - pose proof (around_right _ _ _ _ _ _ Har Eh) as Hg3.
    assert (is_u64 (addr_of l2 0)) as Hu by (by eapply addr_of_u64; [exact Hg2|lia|]).
    assert (wp (if negb (addr_of l2 0 =? 0) then
         block_end ← add64 a n;
         if block_end =? addr_of l2 0 then
           s ← add64 n (block_size m (addr_of l2 0));
           Ret (set_next (set_size m a s) a (block_next (set_size m a s) (addr_of l2 0)))
         else Ret (set_next m a (addr_of l2 0))
       else Ret (set_next m a 0)) (eq (set_next m a (addr_of l2 0)))) as Hset.
    { destruct l2 as [|q l2']; [by simpl; wp_step|]. simpl. unfold head_touches in Eh. simpl in Eh.
      destruct Hg2 as (? & _). rewrite (proj2 (Z.eqb_neq _ _)) by lia. simpl negb. cbv iota.
      wp_steps. rewrite Z.eqb_sym, Eh. by wp_step. }
    eapply wp_mono; [exact Hset|]. intros _ <-.
    destruct (prepare_next m l1 (addr_of l2 0) l2 0 a (addr_of l2 0))
      as (Hc1 & Hc2 & Hc3 & Hc4 & Hfr); try done.
    { intros x Hx. specialize (Hin2 x Hx). lia. }
    set (m1 := set_next _ _ _) in *.
    eapply wp_mono; [apply (link_block inner m1 l1 a n l2 (addr_of l2 0)); try done|].
    { unfold is_u64. lia. } { lia. } { congruence. }
    intros [inner' m'] (-> & Hb' & Hfr'). exists (l1 ++ mkFreeRange a n :: l2).
    split_and!; try done.
    + unfold merged. by rewrite Ht, Eh.
    + intros x Hx Hx'. rewrite in_ranges_app in Hx. rewrite Hfr' by tauto. apply Hfr. lia.
Qed.

Lemma disjoint_around lo l1 l2 a n hi :
  gaps lo (l1 ++ l2) hi -> lo < a -> 0 < n -> a + n < hi ->
  (forall x, a <= x < a + n -> ~ in_ranges (l1 ++ l2) x) ->
  Forall (fun r => fr_base r < a) l1 -> Forall (fun r => a <= fr_base r) l2 ->
  around lo l1 a n l2 hi.
Proof.
  intros Hg Hlo Hn Hhi Hd H1 H2. split_and!; try done; apply Forall_forall; intros r Hr;
    assert (r ∈ l1 ++ l2) as Hin by set_solver; pose proof (gaps_in _ _ _ _ Hg Hin).
  - rewrite Forall_forall in H1. specialize (H1 r Hr).
    destruct (decide (fr_end r <= a)); [done|]. destruct (Hd a); [lia|].
    apply Exists_exists. exists r. split; [done|lia].
  - rewrite Forall_forall in H2. specialize (H2 r Hr).
    destruct (decide (a + n <= fr_base r)); [done|]. destruct (Hd (fr_base r)); [lia|].
    apply Exists_exists. exists r. split; [done|]. unfold fr_end. lia.
Qed.

Lemma merged_length l1 a n l2 l' :
  merged l1 a n l2 l' -> (length l' <= S (length (l1 ++ l2)))%nat.
Proof.
  unfold merged. destruct (last_touches l1 a), (head_touches l2 (a + n)).
  - intros (l1' & p & q & l2' & -> & -> & ->). rewrite !length_app. simpl. rewrite ?length_app. simpl. lia.
  - intros (l1' & p & -> & ->). rewrite !length_app. simpl. lia.
  - intros (q & l2' & -> & ->). rewrite !length_app. simpl. lia.
  - intros ->. rewrite !length_app. simpl. lia.
Qed.

(** The effect of putting the block [a], [n] into the free list [l]. *)
Definition block_added (inner : LinkedListAllocatorInner) (m : mem) (l : list FreeRange) (a n : Z)
    (inner' : LinkedListAllocatorInner) (m' : mem) (l' : list FreeRange) : Prop :=
  inner' = with_head inner (hp_head inner') /\ heap_rep m' (hp_head inner') l' /\
  (forall x, in_ranges l' x <-> in_ranges l x \/ a <= x < a + n) /\
  (forall x, ~ in_ranges l x -> ~ (a <= x < a + n) -> m' x = m x) /\
  (length l' <= S (length l))%nat.

Lemma wp_insert fuel inner m a n l :
  heap_rep m (hp_head inner) l -> block_size m a = n ->
  a mod BLOCK_ALIGN = 0 -> MIN_BLOCK_SIZE <= n -> 0 < a -> a + n < U64 ->
  (forall x, a <= x < a + n -> ~ in_ranges l x) -> (length l <= fuel)%nat ->
  wp (insert_and_coalesce fuel inner m a) (fun '(inner', m') =>
    exists l', block_added inner m l a n inner' m' l').
Proof.
  intros (Hhead & Hb & Hg & Hok) Hn Ha Hmin H0 Hhi Hd Hf.
  pose proof (insertion_point_spec fuel m a 0 l Hg Hb Hf) as Hip. rewrite <- Hhead in Hip.
  apply wp_exists in Hip as ([p c] & Hip & l1 & l2 & -> & -> & -> & H1 & H2).
  assert (around 0 l1 a n l2 U64) as Har
    by (apply disjoint_around; try done; unfold MIN_BLOCK_SIZE in *; lia).
  apply (wp_mono _ (fun '(inner', m') => inserted inner m a n l1 l2 inner' m')).
  - destruct (last_touches l1 a) eqn:Ht; [|by apply insert_no_pred].
    apply last_touches_true in Ht as (l1' & p & -> & Hp). rewrite last_addr_snoc in Hip.
    by eapply insert_at_pred.
  - intros [inner' m'] (l' & Hm & -> & Hb' & Hfr). exists l'.
    destruct (merged_gaps _ _ _ _ _ _ _ Har Hm) as [Hg' Hin].
    split_and!; try done; [|by eapply merged_length].
    split_and!; try done. by eapply merged_blk_ok.
Qed.

(** Writing the header of a block that is outside the list. *)
Lemma rep_header m head l a n v :
  heap_rep m head l -> (forall x, a <= x < a + 16 -> ~ in_ranges l x) -> is_u64 n -> is_u64 v ->
  let m' := set_next (set_size m a n) a v in
  heap_rep m' head l /\ block_size m' a = n /\ (forall x, ~ (a <= x < a + 16) -> m' x = m x).
Proof.
  intros (Hh & Hb & Hg & Hok) Hd Hn Hv. cbv zeta.
  assert (forall x, ~ (a <= x < a + 16) -> set_next (set_size m a n) a v x = m x) as Hfr.
  { intros x Hx. unfold set_next, set_size. rewrite !store64_out by lia. done. }
  split_and!; try done.
  - split_and!; try done. eapply blocks_frame; [done| |done]. intros x Hx. apply Hfr.
    intros Hx'. by apply (Hd x).
  - unfold block_size, set_next, set_size. rewrite load_store_ne by lia. by apply load64_store64_eq.
Qed.

Lemma wp_insert_fresh fuel inner m a n l :
  heap_rep m (hp_head inner) l ->
  a mod BLOCK_ALIGN = 0 -> MIN_BLOCK_SIZE <= n -> 0 < a -> a + n < U64 ->
  (forall x, a <= x < a + n -> ~ in_ranges l x) -> (length l <= fuel)%nat ->
  wp (insert_and_coalesce fuel inner (set_next (set_size m a n) a 0) a) (fun '(inner', m') =>
    exists l', block_added inner m l a n inner' m' l').
Proof.
  intros Hrep Ha Hmin H0 Hhi Hd Hf. unfold MIN_BLOCK_SIZE in Hmin.
  destruct (rep_header m (hp_head inner) l a n 0) as (Hrep' & Hn & Hfr); try done.
  { intros x Hx. apply Hd. lia. } { unfold is_u64. lia. }
  eapply wp_mono; [by apply (wp_insert fuel inner _ a n l)|].
  intros [inner' m'] (l' & ? & ? & ? & Hfr' & ?). exists l'. split_and!; try done.
  intros x Hx Hx'. rewrite Hfr' by done. apply Hfr. lia.
Qed.

Lemma wp_add_free_region fuel inner m a n l :
  heap_rep m (hp_head inner) l ->
  a mod BLOCK_ALIGN = 0 -> MIN_BLOCK_SIZE <= n -> 0 < a -> a + n < U64 ->
  (forall x, a <= x < a + n -> ~ in_ranges l x) -> (length l <= fuel)%nat ->
  wp (add_free_region fuel inner m a n) (fun '(inner', m') =>
    exists l', block_added inner m l a n inner' m' l').
Proof.
  intros. unfold add_free_region. wp_step. wp_step. wp_step.
  wp_step. by apply wp_insert_fresh.
Qed.

(** ** First fit *)

Definition round_up (a n : Z) : Z := n * ((a + n - 1) / n).

Lemma round_up_spec a n : 0 < n -> a <= round_up a n < a + n /\ round_up a n mod n = 0.
Proof.
  intros Hn. unfold round_up. split.
  - pose proof (Z.div_mod (a + n - 1) n ltac:(lia)).
    pose proof (Z.mod_pos_bound (a + n - 1) n Hn). lia.
  - rewrite Z.mul_comm. apply Z.mod_mul. lia.
Qed.

Lemma round_up_id a n : 0 < n -> a mod n = 0 -> round_up a n = a.
Proof.
  intros Hn Ha. unfold round_up. apply Z.div_exact in Ha; [|lia]. rewrite Ha at 1.
  replace (n * (a / n) + n - 1) with ((n - 1) + (a / n) * n) by lia.
  rewrite Z.div_add, Z.div_small by lia. lia.
Qed.

Lemma wp_heap_align_up a k (Q : Z -> Prop) :
  0 <= k <= 63 -> 0 <= a -> a + 2 ^ k < U64 -> Q (round_up a (2 ^ k)) ->
  wp (heap_align_up a (2 ^ k)) Q.
Proof.
  intros Hk Ha Hu HQ. assert (0 < 2 ^ k) by (apply Z.pow_pos_nonneg; lia).
  unfold heap_align_up. wp_steps. rewrite land_not_mask; [done| |lia]. unfold is_u64. lia.
Qed.

Lemma mod_pow2_le a j k : 0 <= j <= k -> a mod 2 ^ k = 0 -> a mod 2 ^ j = 0.
Proof.
  intros Hj Ha. assert (2 ^ k = 2 ^ j * 2 ^ (k - j)) as E
    by (rewrite <- Z.pow_add_r by lia; f_equal; lia).
  apply Z.div_exact in Ha; [|lia]. rewrite Ha, E, <- Z.mul_assoc, Z.mul_comm.
  apply Z.mod_mul. lia.
Qed.

(** Taking [r] out of the list. *)
Lemma unlink_rep inner m l1 r l2 :
  heap_rep m (hp_head inner) (l1 ++ r :: l2) ->
  let '(inner', m') := if last_addr l1 0 =? 0 then (with_head inner (block_next m (fr_base r)), m)
                       else (inner, set_next m (last_addr l1 0) (block_next m (fr_base r))) in
  inner' = with_head inner (hp_head inner') /\ heap_rep m' (hp_head inner') (l1 ++ l2) /\
  (forall x, ~ in_ranges l1 x -> m' x = m x).
Proof.
  intros (Hh & Hb & Hg & Hok). pose proof Hg as (Hg1 & Hr & Hg2)%gaps_mid.
  pose proof (gaps_lt _ _ _ Hg1). pose proof (gaps_lt _ _ _ Hg2).
  assert (gaps 0 (l1 ++ l2) U64) as Hg'.
  { eapply gaps_join; [exact Hg1|]. eapply gaps_mono; [done|unfold fr_end; lia|lia]. }
  apply Forall_app in Hok as [Hok1 [Hokr Hok2]%Forall_cons].
  apply blocks_app in Hb as [Hb1 (Hbr & Hbn & Hb2)]. rewrite Hbn.
  destruct l1 as [|p l1 _] using rev_ind.
  - simpl. by split_and!.
  - rewrite last_addr_snoc. pose proof Hg1 as (Hg3 & Hps & Hg4)%gaps_mid.
    pose proof (gaps_lt _ _ _ Hg3). simpl in Hg4.
    assert (MIN_BLOCK_SIZE <= fr_size p) as Hpm
      by (by apply Forall_app in Hok1 as [_ [[_ ?] _]%Forall_cons]).
    rewrite (proj2 (Z.eqb_neq _ _)) by lia. unfold MIN_BLOCK_SIZE, fr_end in *.
    assert (is_u64 (addr_of l2 0)) by (eapply addr_of_u64; [exact Hg2|lia|done]).
    split_and!; [by destruct inner|split_and!| ].
    + rewrite Hh. by destruct l1.
    + apply blocks_app. split; [by eapply blocks_relink|].
      apply blocks_store; [done| |done]. intros x Hx.
      apply (in_ranges_bounds _ _ _ _ Hg2) in Hx. lia.
    + done.
    + by apply Forall_app.
    + intros x Hx. apply store64_out. rewrite in_ranges_app, in_ranges_cons in Hx.
      unfold fr_end in Hx. lia.
Qed.

(** What remains free when [size] bytes at [start] are cut out of [r]. *)
Definition kept (r : FreeRange) (start size x : Z) : Prop :=
  (MIN_BLOCK_SIZE <= start - fr_base r /\ fr_base r <= x < start) \/
  (MIN_BLOCK_SIZE <= fr_end r - round_up (start + size) BLOCK_ALIGN /\
   round_up (start + size) BLOCK_ALIGN <= x < fr_end r).

Definition block_taken (inner : LinkedListAllocatorInner) (m : mem) (l1 : list FreeRange)
    (r : FreeRange) (l2 : list FreeRange) (start size : Z)
    (inner' : LinkedListAllocatorInner) (m' : mem) (l' : list FreeRange) : Prop :=
  inner' = with_head inner (hp_head inner') /\ heap_rep m' (hp_head inner') l' /\
  (forall x, in_ranges l' x <-> in_ranges (l1 ++ l2) x \/ kept r start size x) /\
  (forall x, ~ in_ranges (l1 ++ r :: l2) x -> m' x = m x) /\
  (length l' <= 2 + length (l1 ++ l2))%nat.

Lemma wp_take_block fuel inner m l1 r l2 start size :
  heap_rep m (hp_head inner) (l1 ++ r :: l2) -> (length (l1 ++ r :: l2) <= fuel)%nat ->
  fr_base r <= start -> start mod BLOCK_ALIGN = 0 -> 0 < size -> start + size <= fr_end r ->
  wp (take_block fuel inner m (last_addr l1 0) (fr_base r) start size) (fun '(inner', m') =>
    exists l', block_taken inner m l1 r l2 start size inner' m' l').
Proof.
  intros Hrep Hf Hs Hal Hsz He. pose proof (unlink_rep inner m l1 r l2 Hrep) as Hun.
  pose proof Hrep as (_ & Hb & Hg & Hok). pose proof Hg as (Hg1 & Hr & Hg2)%gaps_mid.
  pose proof (gaps_lt _ _ _ Hg1). pose proof (gaps_lt _ _ _ Hg2).
  apply Forall_app in Hok as [_ [[Hra Hrs] _]%Forall_cons].
  apply blocks_app in Hb as [_ (Hbr & _ & _)].
  assert (forall x, in_ranges (l1 ++ l2) x -> ~ (fr_base r <= x < fr_end r)) as Hout.
  { intros x [Hx|Hx]%in_ranges_app Hx'.
    - apply (in_ranges_bounds _ _ _ _ Hg1) in Hx. lia.
    - apply (in_ranges_bounds _ _ _ _ Hg2) in Hx. lia. }
  assert (forall x, ~ in_ranges (l1 ++ r :: l2) x -> ~ in_ranges (l1 ++ l2) x /\ ~ (fr_base r <= x < fr_end r))
    as Hsplit by (intros x; rewrite !in_ranges_app, in_ranges_cons; tauto).
  rewrite length_app in Hf. simpl in Hf.
  unfold take_block. cbv zeta. rewrite Hbr. unfold block_taken, kept, MIN_BLOCK_SIZE, fr_end in *.
  destruct (if last_addr l1 0 =? 0 then _ else _) as [inner1 m1].
  destruct Hun as (Hi1 & Hrep1 & Hfr1). wp_step. wp_step.
  set (e := fr_base r + fr_size r) in *.
  set (rem := round_up (start + size) BLOCK_ALIGN).
  pose proof (round_up_spec (start + size) BLOCK_ALIGN ltac:(done)) as [Hrem Hremal]. fold rem in Hrem, Hremal.
  unfold BLOCK_ALIGN in Hrem.
  (* the part in front *)
  wp_step. apply (wp_mono _ (fun '(inner2, m2) => exists l2',
    inner2 = with_head inner (hp_head inner2) /\ heap_rep m2 (hp_head inner2) l2' /\
    (forall x, in_ranges l2' x <-> in_ranges (l1 ++ l2) x \/ (32 <= start - fr_base r /\ fr_base r <= x < start)) /\
    (forall x, ~ in_ranges (l1 ++ r :: l2) x -> m2 x = m x) /\
    (length l2' <= 1 + length (l1 ++ l2))%nat)).
  { destruct (Z.leb_spec 32 (start - fr_base r)).
    - eapply wp_mono; [apply (wp_insert_fresh fuel inner1 m1 (fr_base r) (start - fr_base r) (l1 ++ l2)); try done|].
      + lia. + intros x Hx Hin. apply (Hout x Hin). lia.
      + rewrite length_app. lia.
      + intros [inner2 m2] (l' & -> & Hrep2 & Hin2 & Hfr2 & Hlen2). exists l'. split_and!; try done.
        * rewrite Hi1. by destruct inner.
        * intros x. rewrite Hin2. intuition lia.
        * intros x Hx. destruct (Hsplit x Hx) as [Hx1 Hx2]. rewrite Hfr2 by (done || lia).
          apply Hfr1. rewrite in_ranges_app in Hx1. tauto.
    - wp_step. exists (l1 ++ l2). split_and!; try done; [|intros x Hx|lia].
      + intros x. intuition lia.
      + destruct (Hsplit x Hx) as [Hx1 Hx2]. apply Hfr1. rewrite in_ranges_app in Hx1. tauto. }
  intros [inner2 m2] (l2' & Hi2 & Hrep2 & Hin2 & Hfr2 & Hlen2). wp_steps.
  destruct (Z.leb_spec 32 (fr_size r - (start - fr_base r + size))).
  - wp_step. wp_step. wp_step. change BLOCK_ALIGN with (2 ^ 4). apply wp_heap_align_up; [lia|lia|lia|].
    change (2 ^ 4) with BLOCK_ALIGN. fold rem. wp_step. wp_step. wp_step. fold e. wp_step.
    destruct (Z.leb_spec 32 (e - rem)).
    + eapply wp_mono; [apply (wp_add_free_region fuel inner2 m2 rem (e - rem) l2'); try done|].
      * lia. * lia.
      * intros x Hx [Hin|Hin]%Hin2; [|lia]. apply (Hout x Hin). lia.
      * rewrite length_app in Hlen2. lia.
      * intros [inner3 m3] (l' & -> & Hrep3 & Hin3 & Hfr3 & Hlen3). exists l'. split_and!; try done.
        -- rewrite Hi2. by destruct inner.
        -- intros x. rewrite Hin3, Hin2. intuition lia.
        -- intros x Hx. destruct (Hsplit x Hx) as [Hx1 Hx2]. rewrite Hfr3; [by apply Hfr2| |lia].
           rewrite Hin2. intros [?|?]; [done|lia].
        -- lia.
    + wp_step. exists l2'. split_and!; try done; [|lia]. intros x. rewrite Hin2. intuition lia.
  - wp_step. exists l2'. split_and!; try done; [|lia]. intros x. rewrite Hin2. intuition lia.
Qed.

(** The block [r] has room for [size] bytes at a multiple of [align]. *)
Definition fits (size align : Z) (r : FreeRange) : Prop :=
  round_up (fr_base r) align + size <= fr_end r.

Lemma round_up_mono a b n : 0 < n -> a <= b -> round_up a n <= round_up b n.
Proof. intros Hn Hab. unfold round_up. apply Z.mul_le_mono_nonneg_l; [lia|]. apply Z.div_le_mono; lia. Qed.

(** Every block leaves room to round its address up. *)
Definition headroom (align : Z) (l : list FreeRange) : Prop :=
  Forall (fun r => fr_base r + align < U64) l.

Definition fit_post (inner : LinkedListAllocatorInner) (m : mem) (l : list FreeRange) (size align : Z)
    (inner' : LinkedListAllocatorInner) (m' : mem) (o : option (Z * Z)) : Prop :=
  match o with
  | None => inner' = inner /\ m' = m /\ Forall (fun r => ~ fits size align r) l
  | Some (a, n) => exists l1 r l2 l', l = l1 ++ r :: l2 /\ Forall (fun r => ~ fits size align r) l1 /\
      fits size align r /\ a = round_up (fr_base r) align /\ n = size /\
      block_taken inner m l1 r l2 a size inner' m' l'
  end.

Lemma first_fit_loop_spec fuel0 fuel inner m size k l1 l2 :
  heap_rep m (hp_head inner) (l1 ++ l2) -> (length (l1 ++ l2) <= fuel0)%nat ->
  (length l2 <= fuel)%nat -> 4 <= k <= 63 -> 0 < size -> headroom (2 ^ k) l2 ->
  Forall (fun r => ~ fits size (2 ^ k) r) l1 ->
  wp (first_fit_loop fuel0 fuel inner m size (2 ^ k) (last_addr l1 0) (addr_of l2 0))
     (fun '(inner', m', o) => fit_post inner m (l1 ++ l2) size (2 ^ k) inner' m' o).
Proof.
  intros Hrep Hf0 Hf Hk Hsz. revert l1 l2 Hrep Hf0 Hf.
  assert (0 < 2 ^ k) as Hpow by (apply Z.pow_pos_nonneg; lia).
  induction fuel as [|fuel IH]; intros l1 l2 Hrep Hf0 Hf Hroom Hno.
  { destruct l2; [|simpl in Hf; lia]. simpl. wp_step. split_and!; try done. by rewrite app_nil_r. }
  destruct l2 as [|r l2]; cbn [first_fit_loop addr_of].
  { simpl. wp_step. split_and!; try done. by rewrite app_nil_r. }
  pose proof Hrep as (_ & Hb & Hg & Hok). pose proof Hg as (Hg1 & Hr & Hg2)%gaps_mid.
  pose proof (gaps_lt _ _ _ Hg1). pose proof (gaps_lt _ _ _ Hg2).
  apply blocks_app in Hb as [_ (Hbr & Hbn & _)]. apply Forall_cons in Hroom as [Hrr Hroom].
  rewrite (proj2 (Z.eqb_neq _ _)) by lia. cbv zeta. wp_step.
  apply wp_heap_align_up; [lia|lia|done|].
  destruct (round_up_spec (fr_base r) (2 ^ k) Hpow) as [Hru Hrum].
  set (start := round_up (fr_base r) (2 ^ k)) in *. unfold checked_add64.
  destruct (Z.ltb_spec (start + size) U64) as [Hlt|Hge].
  - rewrite Hbr. wp_step. unfold fr_end in *. wp_step.
    destruct (Z.leb_spec (start + size) (fr_base r + fr_size r)) as [Hfit|Hnofit].
    + wp_step. eapply wp_mono.
      { apply (wp_take_block fuel0 inner m l1 r l2 start size); try done; [lia|].
        apply (mod_pow2_le start 4 k); [lia|done]. }
      intros [inner' m'] (l' & Ht). wp_step. exists l1, r, l2, l'. done.
    + rewrite Hbn. rewrite (cons_middle r l1 l2), app_assoc.
      replace (fr_base r) with (last_addr (l1 ++ [r]) 0) by apply last_addr_snoc.
      apply IH; try (rewrite <- app_assoc; done); [simpl in Hf; lia|done|].
      apply Forall_app. split; [done|]. constructor; [|done]. unfold fits, fr_end. fold start. lia.
  - wp_step. split_and!; try done. apply Forall_app. split; [done|]. apply Forall_forall.
    intros q Hq. unfold fits.
    assert (fr_base r <= fr_base q /\ fr_end q < U64) as [Hle Hq'].
    { apply elem_of_cons in Hq as [->|Hq]; [unfold fr_end in *; lia|].
      apply (gaps_in _ _ _ _ Hg2) in Hq. unfold fr_end in *. lia. }
    pose proof (round_up_mono _ _ (2 ^ k) Hpow Hle). fold start in H1. lia.
Qed.

Lemma wp_find_first_fit fuel inner m size k l :
  heap_rep m (hp_head inner) l -> (length l <= fuel)%nat -> 4 <= k <= 63 -> 0 < size ->
  headroom (2 ^ k) l ->
  wp (find_first_fit fuel inner m size (2 ^ k))
     (fun '(inner', m', o) => fit_post inner m l size (2 ^ k) inner' m' o).
Proof.
  intros Hrep Hf Hk Hs Hroom. unfold find_first_fit.
  pose proof (proj1 Hrep) as ->. by apply (first_fit_loop_spec fuel fuel inner m size k [] l).
Qed.

(** ** Red zones *)

Lemma bytes_are_spec m a v n :
  bytes_are m a v n = true <-> forall i, 0 <= i < Z.of_nat n -> load 1 m (a + i) = v.
Proof.
  revert a. induction n as [|n IH]; intros a; cbn [bytes_are]; [split; [lia|done]|].
  destruct (Z.eqb_spec (load 1 m a) v) as [E|E].
  - rewrite IH. split; intros H i Hi.
    + destruct (decide (i = 0)) as [->|]; [by rewrite Z.add_0_r|].
      specialize (H (i - 1) ltac:(lia)). by replace (a + 1 + (i - 1)) with (a + i) in H by lia.
    + specialize (H (i + 1) ltac:(lia)). by replace (a + (i + 1)) with (a + 1 + i) in H by lia.
  - split; [done|]. intros H. destruct E. specialize (H 0 ltac:(lia)). by rewrite Z.add_0_r in H.
Qed.

Lemma bytes_are_ext m m' a v n :
  (forall x, a <= x < a + Z.of_nat n -> m' x = m x) ->
  bytes_are m a v n = true -> bytes_are m' a v n = true.
Proof.
  rewrite !bytes_are_spec. intros Hm H i Hi. rewrite <- (H i Hi). apply load_ext.
  intros x Hx. apply Hm. lia.
Qed.

Lemma bytes_are_write m a v k b n :
  b <= a -> a + Z.of_nat n <= b + k -> 0 <= v < 256 ->
  bytes_are (write_bytes m b v k) a v n = true.
Proof.
  intros H1 H2 Hv. apply bytes_are_spec. intros i Hi. rewrite load1. unfold write_bytes.
  rewrite (proj2 (Z.leb_le _ _)), (proj2 (Z.ltb_lt _ _)) by lia. simpl.
  by rewrite Z.mod_small by lia.
Qed.

(** The red zones around the user's bytes [p], [us] with [fp] bytes in front. *)
Definition zones_ok (m : mem) (p us fp : Z) : Prop :=
  load32 m (p - 16 + 8) = REDZONE_MAGIC /\ load64 m (p - 16) = us /\
  bytes_are m (p - 16 + 12) REDZONE_FILL 4 = true /\
  bytes_are m (p - fp) REDZONE_FILL (Z.to_nat (fp - 16)) = true /\
  bytes_are m (p + us) REDZONE_FILL 16 = true.

Lemma zones_ok_ext m m' p us fp :
  16 <= fp -> (forall x, p - fp <= x < p \/ p + us <= x < p + us + 16 -> m' x = m x) ->
  zones_ok m p us fp -> zones_ok m' p us fp.
Proof.
  intros Hfp Hm (H1 & H2 & H3 & H4 & H5). split_and!.
  - rewrite <- H1. apply load_ext. intros x Hx. apply Hm. lia.
  - rewrite <- H2. apply load_ext. intros x Hx. apply Hm. lia.
  - eapply bytes_are_ext; [|done]. intros x Hx. apply Hm. lia.
  - eapply bytes_are_ext; [|done]. intros x Hx. apply Hm. lia.
  - eapply bytes_are_ext; [|done]. intros x Hx. apply Hm. lia.
Qed.

Lemma wp_fill_alloc m b us fp :
  0 <= b -> 16 <= fp -> 0 <= us -> b + fp + us + 16 < U64 ->
  wp (fill_alloc m b us fp) (fun '(m', p) =>
    p = b + fp /\ zones_ok m' p us fp /\ changed_only b (b + fp + us + 16) m m').
Proof.
  intros Hb Hfp Hus Hu. unfold fill_alloc, REDZONE_SIZE. do 3 wp_step.
  apply (wp_mono _ (fun m1 => changed_only b (b + fp - 16) m m1 /\
    bytes_are m1 b REDZONE_FILL (Z.to_nat (fp - 16)) = true)).
  { destruct (Z.ltb_spec 16 fp).
    - wp_steps. split; [eapply changed_only_weaken; [| |apply write_bytes_changed]; lia|].
      apply bytes_are_write; (lia || done).
    - wp_step. split; [apply changed_only_refl|]. by replace (Z.to_nat (fp - 16)) with 0%nat by lia. }
  intros m1 [Hc1 Hf1]. wp_steps. replace (b + fp - 16) with (b + fp - 16) by lia.
  set (p := b + fp) in *. split_and!; [done| |].
  - unfold write_header. split_and!.
    + rewrite !load_write_bytes_ne by lia. by apply load_store_eq.
    + rewrite !load_write_bytes_ne by lia. rewrite load_store_ne by lia.
      apply load64_store64_eq. unfold is_u64. lia.
    + eapply bytes_are_ext;
        [|apply (bytes_are_write (store32 (store64 m1 (p - 16) us) (p - 16 + 8) REDZONE_MAGIC)
                   (p - 16 + 12) REDZONE_FILL 4 (p - 16 + 12)); (lia || done)].
      intros x Hx. rewrite (write_bytes_changed _ (p + us) _ 16) by lia.
      rewrite (write_bytes_changed _ p _ us) by lia. reflexivity.
    + replace (p - fp) with b by (unfold p; lia). eapply bytes_are_ext; [|exact Hf1]. intros x Hx.
      rewrite (write_bytes_changed _ (p + us) _ 16), (write_bytes_changed _ p _ us) by lia.
      rewrite (write_bytes_changed _ (p - 16 + 12) _ 4) by lia.
      rewrite (store_changed 4 _ (p - 16 + 8)), (store_changed 8 _ (p - 16)) by lia. done.
    + apply (bytes_are_write _ (p + us) REDZONE_FILL 16); (lia || done).
  - intros x Hx. rewrite (write_bytes_changed _ (p + us) _ 16), (write_bytes_changed _ p _ us) by lia.
    unfold write_header. rewrite (write_bytes_changed _ (p - 16 + 12) _ 4) by lia.
    rewrite (store_changed 4 _ (p - 16 + 8)), (store_changed 8 _ (p - 16)) by lia. apply Hc1. lia.
Qed.

Lemma wp_check_dealloc m p us fp :
  0 <= us -> 16 <= fp <= p -> p + us + 16 < U64 -> zones_ok m p us fp ->
  wp (check_and_fill_dealloc m p us fp) (fun m' => changed_only p (p + us) m m').
Proof.
  intros Hus Hfp Hu (H1 & H2 & H3 & H4 & H5). unfold check_and_fill_dealloc, REDZONE_SIZE.
  do 4 wp_step. rewrite H1, H2, H3. wp_steps. apply (wp_mono _ (fun _ => True)).
  { destruct (Z.ltb_spec 16 fp); [|by wp_step]. wp_steps; done. }
  intros _ _. wp_steps; [done|]. apply write_bytes_changed.
Qed.

(** ** Clients of the heap *)

(** Addresses handed to the heap stay below this limit, so that rounding up to
    the alignments a client may ask for cannot overflow. *)
Definition HEAP_LIMIT : Z := U64 - 2 ^ 32.

(** What the heap needs of its growth callback: the regions it returns are
    aligned, large enough and new, and it leaves the memory it has already
    given to the heap alone. *)
Class HeapGrower (G : Type) : Type := {
  hg_grow : G -> mem -> Z -> exec (G * mem * option (Z * Z));
  hg_inv : G -> Prop;
  hg_owned : G -> Z -> Prop;
  hg_bound : forall g x, hg_inv g -> hg_owned g x -> 0 < x < HEAP_LIMIT;
  hg_grow_spec : forall g m n, hg_inv g -> 0 < n < 2 ^ 63 ->
    wp (hg_grow g m n) (fun '(g', m', o) =>
      hg_inv g' /\ (forall x, hg_owned g x -> m' x = m x) /\
      match o with
      | Some (p, s) => p mod BLOCK_ALIGN = 0 /\ n <= s /\ 0 < p /\
          (forall x, p <= x < p + s -> ~ hg_owned g x) /\
          (forall x, hg_owned g' x <-> hg_owned g x \/ p <= x < p + s)
      | None => forall x, hg_owned g' x <-> hg_owned g x
      end);
}.

(** A live allocation: the pointer and the layout it was requested with. *)
Record allocation : Type := mkAllocation { al_ptr : Z; al_size : Z; al_align : Z }.

#[export] Instance allocation_eq_dec : EqDecision allocation.
Proof. solve_decision. Defined.

Definition layout_ok (lsize lalign : Z) : Prop :=
  0 <= lsize <= 2 ^ 62 /\ exists k, 0 <= k <= 31 /\ lalign = 2 ^ k.

Fixpoint total_len (bs : list block) : Z :=
  match bs with [] => 0 | b :: bs => snd b + total_len bs end.

Section Measure.
Context (L : Z).

Lemma interval_count a n :
  0 <= a -> 0 <= n -> a + n <= L ->
  Z.of_nat (sum_list_with (fun x => if decide (covers x (a, n)) then 1%nat else 0%nat) (seqZ 0 L)) = n.
Proof using.
  intros Ha Hn Hl. set (f := fun x => _).
  assert (forall k lo m, Z.of_nat k = m -> (forall x, lo <= x < lo + m -> f x = 0%nat) ->
            sum_list_with f (seqZ lo m) = 0%nat) as Hzero.
  { induction k as [|k IH]; intros lo m Hk Hx; [by rewrite seqZ_nil by lia|].
    rewrite seqZ_cons by lia. simpl. rewrite Hx, IH by (try lia; intros; apply Hx; lia). done. }
  assert (forall k lo m, Z.of_nat k = m -> (forall x, lo <= x < lo + m -> f x = 1%nat) ->
            sum_list_with f (seqZ lo m) = k) as Hone.
  { induction k as [|k IH]; intros lo m Hk Hx; [by rewrite seqZ_nil by lia|].
    rewrite seqZ_cons by lia. simpl. rewrite Hx, IH by (try lia; intros; apply Hx; lia). done. }
  replace L with (a + (n + (L - a - n))) by lia.
  rewrite (seqZ_app 0 a), (seqZ_app _ n) by lia. rewrite !sum_list_with_app, Z.add_0_l.
  rewrite (Hzero (Z.to_nat a)), (Hone (Z.to_nat n)), (Hzero (Z.to_nat (L - a - n))); try lia;
    intros x Hx; unfold f, covers; simpl; case_decide; (done || lia).
Qed.

(** Disjoint blocks below [L] have at most [L] bytes. *)
Lemma covering_total bs :
  Forall (fun b => 0 <= fst b /\ 0 <= snd b /\ fst b + snd b <= L) bs ->
  Z.of_nat (sum_list_with (fun x => covering x bs) (seqZ 0 L)) = total_len bs.
Proof using.
  induction bs as [|[a n] bs IH]; intros Hb; cbn [total_len snd].
  - transitivity (Z.of_nat 0); [|done]. f_equal. induction (seqZ 0 L); [done|]. simpl. by rewrite IHl.
  - apply Forall_cons in Hb as [(? & ? & ?) Hb]. rewrite <- (IH Hb).
    pose proof (interval_count a n ltac:(done) ltac:(done) ltac:(done)) as Hn.
    enough (forall xs, sum_list_with (fun x => covering x ((a, n) :: bs)) xs =
      (sum_list_with (fun x => if decide (covers x (a, n)) then 1%nat else 0%nat) xs +
       sum_list_with (fun x => covering x bs) xs)%nat) as -> by lia.
    induction xs as [|x xs IHx]; [done|]. simpl. rewrite IHx, covering_cons. lia.
Qed.

Lemma disjoint_total bs :
  0 <= L -> Forall (fun b => 0 <= fst b /\ 0 <= snd b /\ fst b + snd b <= L) bs ->
  (forall x, (covering x bs <= 1)%nat) -> total_len bs <= L.
Proof using.
  intros HL Hb Hc. rewrite <- (covering_total bs Hb).
  assert (sum_list_with (fun x => covering x bs) (seqZ 0 L) <= length (seqZ 0 L))%nat as H.
  { induction (seqZ 0 L) as [|x xs IH]; simpl; [lia|]. specialize (Hc x). lia. }
  rewrite length_seqZ in H. lia.
Qed.
End Measure.

Lemma total_len_perm bs bs' : bs ≡ₚ bs' -> total_len bs = total_len bs'.
Proof. induction 1; simpl; lia. Qed.

Section Client.
Context (heap_poison alloc_track : bool) {G : Type} `{HG : HeapGrower G}.
Implicit Types (st : HeapState G) (live : list allocation) (l : list FreeRange).

Definition user_size (lsize : Z) : Z := Z.max lsize MIN_BLOCK_SIZE.
Definition user_align (lalign : Z) : Z := Z.max lalign BLOCK_ALIGN.
Definition front_pad (lalign : Z) : Z :=
  if heap_poison then round_up REDZONE_SIZE (user_align lalign) else 0.
Definition block_len (lsize lalign : Z) : Z :=
  if heap_poison then front_pad lalign + user_size lsize + REDZONE_SIZE else user_size lsize.

(** The bytes of the heap an allocation occupies, red zones included. *)
Definition block_of (e : allocation) : block :=
  (al_ptr e - front_pad (al_align e), block_len (al_size e) (al_align e)).

Definition allocation_ok (m : mem) (g : G) (e : allocation) : Prop :=
  layout_ok (al_size e) (al_align e) /\ al_ptr e mod user_align (al_align e) = 0 /\
  (forall x, covers x (block_of e) -> hg_owned g x) /\
  (heap_poison = true ->
   zones_ok m (al_ptr e) (user_size (al_size e)) (front_pad (al_align e))).

Definition stats_ok (s : AllocStats) (live : list allocation) : Prop :=
  alloc_track = true ->
  current_live s = Z.of_nat (length live) /\
  current_bytes s = total_len (map (fun e => (0, user_size (al_size e))) live) /\
  0 <= total_frees s /\ total_allocs s = total_frees s + current_live s /\
  current_live s <= peak_live s /\ current_bytes s <= peak_bytes s.

Definition heap_inv (c : HeapState G * mem * list allocation) (l : list FreeRange) : Prop :=
  let '(st, m, live) := c in
  heap_rep m (hp_head (hs_inner st)) l /\ hg_inv (hs_grow st) /\
  (forall x, in_ranges l x -> hg_owned (hs_grow st) x) /\
  Forall (allocation_ok m (hs_grow st)) live /\
  (forall x, (covering x (map block_of live) <= 1)%nat /\
             (in_ranges l x -> covering x (map block_of live) = 0%nat)) /\
  hp_allocated_bytes (hs_inner st) = total_len (map block_of live) /\
  stats_ok (hs_stats st) live.

(** *** Layouts *)

Lemma user_align_pow lsize lalign :
  layout_ok lsize lalign -> exists k, 4 <= k <= 31 /\ user_align lalign = 2 ^ k.
Proof using.
  intros (_ & k & Hk & ->). unfold user_align, BLOCK_ALIGN. exists (Z.max k 4). split; [lia|].
  destruct (Z.max_spec k 4) as [[? ->]|[? ->]].
  - assert (2 ^ k <= 2 ^ 4) by (apply Z.pow_le_mono_r; lia). lia.
  - assert (2 ^ 4 <= 2 ^ k) by (apply Z.pow_le_mono_r; lia). lia.
Qed.

Lemma user_align_mod lsize lalign p :
  layout_ok lsize lalign -> p mod user_align lalign = 0 ->
  p mod lalign = 0 /\ p mod BLOCK_ALIGN = 0.
Proof using.
  intros Hl Hp. pose proof Hl as (_ & k & Hk & ->). unfold user_align, BLOCK_ALIGN in *.
  destruct (Z.max_spec (2 ^ k) 16) as [[H E]|[H E]]; rewrite E in Hp.
  - split; [|done]. apply (mod_pow2_le p k 4); [|done]. split; [lia|].
    apply (Z.pow_lt_mono_r_iff 2 k 4) in H; lia.
  - split; [done|]. apply (mod_pow2_le p 4 k); [|done]. split; [lia|].
    apply (Z.pow_le_mono_r_iff 2 4 k) in H; lia.
Qed.

Lemma user_size_bound lsize : 0 <= lsize <= 2 ^ 62 -> 32 <= user_size lsize <= 2 ^ 62 /\ lsize <= user_size lsize.
Proof using. unfold user_size, MIN_BLOCK_SIZE. lia. Qed.

Lemma front_pad_spec lsize lalign :
  layout_ok lsize lalign ->
  0 <= front_pad lalign < 2 ^ 32 /\ front_pad lalign mod user_align lalign = 0 /\
  (heap_poison = true -> 16 <= front_pad lalign).
Proof using.
  intros (k & Hk & Hu)%user_align_pow. unfold front_pad. rewrite Hu.
  assert (2 ^ k <= 2 ^ 31) by (apply Z.pow_le_mono_r; lia).
  assert (0 < 2 ^ k) by (apply Z.pow_pos_nonneg; lia).
  destruct heap_poison; [|split_and!; (done || lia)].
  pose proof (round_up_spec REDZONE_SIZE (2 ^ k)). unfold REDZONE_SIZE in *. split_and!; try lia.
Qed.

Lemma block_len_spec lsize lalign :
  layout_ok lsize lalign ->
  32 <= block_len lsize lalign < 2 ^ 63 /\
  front_pad lalign + user_size lsize <= block_len lsize lalign.
Proof using.
  intros Hl. destruct (front_pad_spec _ _ Hl) as (? & _ & _). destruct Hl as [Hs _].
  pose proof (user_size_bound lsize Hs). unfold block_len, front_pad, REDZONE_SIZE in *.
  destruct heap_poison; lia.
Qed.

Lemma wp_padded_size lsize lalign (Q : Z * Z -> Prop) :
  layout_ok lsize lalign -> Q (block_len lsize lalign, front_pad lalign) ->
  wp (padded_size heap_poison (user_size lsize) (user_align lalign)) Q.
Proof using.
  intros Hl HQ. destruct (front_pad_spec _ _ Hl) as (Hf & _ & _).
  destruct (user_align_pow _ _ Hl) as (k & Hk & Hu). pose proof (user_size_bound lsize (proj1 Hl)).
  unfold padded_size, block_len, front_pad in *. destruct heap_poison; [|by wp_step].
  rewrite Hu in *. assert (2 ^ k <= 2 ^ 31) by (apply Z.pow_le_mono_r; lia).
  wp_step. apply wp_heap_align_up; [lia|done|unfold REDZONE_SIZE; ulia|].
  unfold REDZONE_SIZE in *. wp_steps. done.
Qed.

(** *** Blocks *)

Lemma block_bounds m g e :
  hg_inv g -> allocation_ok m g e ->
  0 < fst (block_of e) /\ 32 <= snd (block_of e) /\ fst (block_of e) + snd (block_of e) <= HEAP_LIMIT.
Proof using.
  intros Hg (Hl & _ & Ho & _). pose proof (block_len_spec _ _ Hl).
  assert (0 < fst (block_of e) < HEAP_LIMIT).
  { apply (hg_bound g _ Hg), Ho. unfold covers, block_of. simpl. lia. }
  assert (0 < fst (block_of e) + snd (block_of e) - 1 < HEAP_LIMIT).
  { apply (hg_bound g _ Hg), Ho. unfold covers, block_of in *. simpl in *. lia. }
  unfold block_of in *. simpl in *. lia.
Qed.

Lemma live_total m g live :
  hg_inv g -> Forall (allocation_ok m g) live ->
  (forall x, (covering x (map block_of live) <= 1)%nat) -> total_len (map block_of live) <= HEAP_LIMIT.
Proof using.
  intros Hg Hok Hc. apply disjoint_total; [unfold HEAP_LIMIT, U64; lia| |done].
  apply Forall_map. eapply Forall_impl; [exact Hok|]. intros e He.
  pose proof (block_bounds m g e Hg He). lia.
Qed.

Lemma block_in_covering x e live : e ∈ live -> covers x (block_of e) -> (1 <= covering x (map block_of live))%nat.
Proof using.
  intros (l1 & l2 & ->)%list_elem_of_split Hx. rewrite map_app. simpl.
  rewrite (covering_perm x _ (block_of e :: map block_of l1 ++ map block_of l2))
    by (by rewrite Permutation_middle).
  rewrite covering_cons. destruct (decide (covers x (block_of e))); [lia|done].
Qed.

(** The red zones of live blocks survive changes elsewhere. *)
Lemma allocation_ok_frame m m' g g' e :
  (forall x, covers x (block_of e) -> m' x = m x) -> (forall x, hg_owned g x -> hg_owned g' x) ->
  allocation_ok m g e -> allocation_ok m' g' e.
Proof using.
  intros Hm Ho (Hl & Hp & Hown & Hz). split_and!; try done; [auto|].
  intros E. specialize (Hz E). destruct (front_pad_spec _ _ Hl) as (_ & _ & Hf).
  pose proof (user_size_bound _ (proj1 Hl)).
  specialize (Hf E). eapply zones_ok_ext; [done| |done]. intros x Hx. apply Hm.
  unfold covers, block_of, block_len. simpl. rewrite E. unfold REDZONE_SIZE. lia.
Qed.

Lemma user_bytes_le m g live :
  Forall (allocation_ok m g) live ->
  0 <= total_len (map (fun e => (0, user_size (al_size e))) live) <= total_len (map block_of live).
Proof using.
  induction 1 as [|e live (Hl & _) _ IH]; simpl; [lia|]. pose proof (block_len_spec _ _ Hl).
  destruct (front_pad_spec _ _ Hl) as (? & _). pose proof (user_size_bound _ (proj1 Hl)). lia.
Qed.

(** Room in the allocation counter of the tracker. *)
Definition stats_room st : Prop := alloc_track = true -> total_allocs (hs_stats st) + 1 < U64.

Lemma wp_record_alloc st m g live e :
  Forall (allocation_ok m g) live -> 0 <= user_size (al_size e) ->
  total_len (map block_of live) + user_size (al_size e) < U64 ->
  stats_room st -> stats_ok (hs_stats st) live ->
  wp (if alloc_track then record_alloc (hs_stats st) (user_size (al_size e)) else Ret (hs_stats st))
     (fun s => stats_ok s (e :: live)).
Proof using.
  intros Hok Hu Ht Hroom Hst. unfold stats_ok, stats_room in *.
  destruct alloc_track eqn:E; [|wp_step; congruence].
  destruct (Hst eq_refl) as (H1 & H2 & H3 & H4 & H5 & H6). specialize (Hroom eq_refl).
  pose proof (user_bytes_le m g live Hok).
  unfold record_alloc. wp_steps. intros _. simpl. split_and!; try lia.
  - destruct (Z.ltb_spec (peak_live (hs_stats st)) (current_live (hs_stats st) + 1)); lia.
  - destruct (Z.ltb_spec (peak_bytes (hs_stats st)) (current_bytes (hs_stats st) + user_size (al_size e))); lia.
Qed.

(** A block cut out of the free list becomes a live allocation. *)
Definition alloc_done st m live l (lsize lalign : Z) st' m' (p : Z) l' : Prop :=
  p <> 0 /\ p mod lalign = 0 /\
  heap_inv (st', m', mkAllocation p lsize lalign :: live) l' /\
  hs_grow st' = hs_grow st /\ hs_grow_registered st' = hs_grow_registered st /\
  (forall x, covers x (block_of (mkAllocation p lsize lalign)) -> in_ranges l x) /\
  (forall x, ~ in_ranges l x -> m' x = m x).

(** *** Cutting a block out of the list *)

Section Cut.
Context (st : HeapState G) (m : mem) (live : list allocation) (lsize lalign : Z).
Context (l1 : list FreeRange) (r : FreeRange) (l2 l' : list FreeRange).
Context (inner' : LinkedListAllocatorInner) (m' : mem).
Hypothesis Hinv : heap_inv (st, m, live) (l1 ++ r :: l2).
Hypothesis Hl : layout_ok lsize lalign.
Hypothesis Hfit : fits (block_len lsize lalign) (user_align lalign) r.
Definition cut_addr : Z := round_up (fr_base r) (user_align lalign).
Hypothesis Htaken :
  block_taken (hs_inner st) m l1 r l2 cut_addr (block_len lsize lalign) inner' m' l'.
Definition cut_alloc : allocation := mkAllocation (cut_addr + front_pad lalign) lsize lalign.

Lemma cut_block : block_of cut_alloc = (cut_addr, block_len lsize lalign).
Proof. unfold block_of, cut_alloc. simpl. f_equal. lia. Qed.

Lemma cut_addr_spec :
  fr_base r <= cut_addr /\ cut_addr mod user_align lalign = 0 /\
  cut_addr + block_len lsize lalign <= fr_end r.
Proof.
  destruct (user_align_pow _ _ Hl) as (k & Hk & Hu). unfold cut_addr, fits in *. rewrite Hu in *.
  assert (0 < 2 ^ k) as Hp by (apply Z.pow_pos_nonneg; lia).
  destruct (round_up_spec (fr_base r) (2 ^ k) Hp). lia.
Qed.

Lemma cut_ptr_mod : (cut_addr + front_pad lalign) mod user_align lalign = 0.
Proof.
  destruct cut_addr_spec as (_ & Ha & _). destruct (front_pad_spec _ _ Hl) as (_ & Hf & _).
  rewrite Zplus_mod, Ha, Hf. apply Zmod_0_l.
Qed.

Lemma cut_in_free x : covers x (block_of cut_alloc) -> in_ranges (l1 ++ r :: l2) x.
Proof.
  destruct cut_addr_spec as (? & _ & ?). rewrite cut_block. unfold covers. simpl. intros Hx.
  apply in_ranges_app. right. apply in_ranges_cons. left. lia.
Qed.

Lemma cut_bounds : 0 < cut_addr /\ cut_addr + block_len lsize lalign <= HEAP_LIMIT.
Proof.
  destruct Hinv as (_ & Hgi & Hown & _). destruct (block_len_spec _ _ Hl) as (Hlen & _).
  assert (forall x, cut_addr <= x < cut_addr + block_len lsize lalign -> 0 < x < HEAP_LIMIT) as H.
  { intros x Hx. apply (hg_bound _ _ Hgi), Hown, cut_in_free. rewrite cut_block. exact Hx. }
  pose proof (H cut_addr). pose proof (H (cut_addr + block_len lsize lalign - 1)). lia.
Qed.

(** What is left free does not meet the block that was cut out. *)
Lemma cut_rest x : in_ranges l' x -> in_ranges (l1 ++ r :: l2) x /\ ~ covers x (block_of cut_alloc).
Proof.
  destruct Htaken as (_ & _ & Hin & _). destruct Hinv as ((_ & _ & Hg & _) & _).
  apply gaps_mid in Hg as (Hg1 & _ & Hg2). destruct cut_addr_spec as (? & _ & ?).
  pose proof (round_up_spec (cut_addr + block_len lsize lalign) BLOCK_ALIGN ltac:(done)) as [Hrem _].
  assert (in_ranges l1 x -> x < fr_base r)
    by (intros Hx; apply (in_ranges_bounds _ _ _ _ Hg1) in Hx; lia).
  assert (in_ranges l2 x -> fr_end r < x)
    by (intros Hx; apply (in_ranges_bounds _ _ _ _ Hg2) in Hx; lia).
  destruct (block_len_spec _ _ Hl) as (Hlen & _).
  rewrite Hin, cut_block. unfold covers, kept. simpl. rewrite !in_ranges_app, in_ranges_cons.
  intuition lia.
Qed.

Lemma cut_covering x :
  (covering x (map block_of (cut_alloc :: live)) <= 1)%nat /\
  (in_ranges l' x -> covering x (map block_of (cut_alloc :: live)) = 0%nat).
Proof.
  cbn [map]. rewrite covering_cons. destruct Hinv as (_ & _ & _ & _ & Hcov & _).
  destruct (Hcov x) as [Hc1 Hc2]. pose proof (cut_in_free x) as Hf. pose proof (cut_rest x) as Hr.
  destruct (decide (covers x (block_of cut_alloc))) as [Hx|Hx].
  - rewrite (Hc2 (Hf Hx)). split; [lia|]. intros Hx'. by destruct (Hr Hx') as [_ []].
  - split; [done|]. intros Hx'. by apply Hc2, Hr.
Qed.

(** Writing into the new block leaves the list and the other blocks alone. *)
Lemma cut_frame m'' :
  (forall x, ~ covers x (block_of cut_alloc) -> m'' x = m' x) ->
  (heap_poison = true ->
   zones_ok m'' (cut_addr + front_pad lalign) (user_size lsize) (front_pad lalign)) ->
  heap_rep m'' (hp_head inner') l' /\ Forall (allocation_ok m'' (hs_grow st)) (cut_alloc :: live) /\
  (forall x, ~ in_ranges (l1 ++ r :: l2) x -> m'' x = m x).
Proof.
  intros Hm'' Hz. pose proof Hinv as (_ & _ & Hown & Hok & Hcov & _).
  pose proof Htaken as (_ & (Hh' & Hb' & Hg' & Hok') & _ & Hfr' & _).
  assert (forall x, ~ in_ranges (l1 ++ r :: l2) x -> m'' x = m x) as Hfr.
  { intros x Hx. rewrite Hm'' by (intros Hx'; by apply Hx, cut_in_free). by apply Hfr'. }
  split_and!; [split_and!; try done| |done].
  - eapply blocks_frame; [done| |done]. intros x Hx. apply Hm''. by apply cut_rest.
  - constructor.
    + split_and!; simpl; [done|apply cut_ptr_mod| |done]. intros x Hx. by apply Hown, cut_in_free.
    + apply Forall_forall. intros q Hq. apply (allocation_ok_frame m m'' (hs_grow st));
        [|done|by apply (proj1 (Forall_forall _ _) Hok)].
      intros x Hx. pose proof (block_in_covering x q live Hq Hx). apply Hfr.
      intros Hx'. apply Hcov in Hx'. lia.
Qed.

Lemma cut_total : total_len (map block_of live) + block_len lsize lalign <= HEAP_LIMIT.
Proof.
  pose proof Hinv as (_ & Hgi & _ & Hok & _). pose proof cut_bounds.
  destruct (block_len_spec _ _ Hl) as (Hlen & _).
  transitivity (total_len (map block_of (cut_alloc :: live))).
  { cbn [map total_len]. rewrite cut_block. simpl. lia. }
  apply disjoint_total; [unfold HEAP_LIMIT, U64; lia| |intros x; apply cut_covering].
  cbn [map]. constructor; [rewrite cut_block; simpl; lia|]. apply Forall_map.
  eapply Forall_impl; [exact Hok|]. intros q Hq. pose proof (block_bounds _ _ _ Hgi Hq). lia.
Qed.

Lemma cut_total_len :
  total_len (map block_of (cut_alloc :: live)) = block_len lsize lalign + total_len (map block_of live).
Proof. cbn [map total_len]. by rewrite cut_block. Qed.

Lemma wp_finish_alloc :
  stats_room st ->
  wp (finish_alloc heap_poison alloc_track st inner' m' cut_addr (block_len lsize lalign)
        (user_size lsize) (front_pad lalign))
     (fun '(st', m'', p) => alloc_done st m live (l1 ++ r :: l2) lsize lalign st' m'' p l').
Proof.
  intros Hroom. pose proof Hinv as (_ & Hgi & Hown & Hok & Hcov & Hab & Hst).
  pose proof Htaken as (Hi' & _). pose proof cut_total as Ht. pose proof cut_bounds as [Hb1 Hb2].
  destruct (front_pad_spec _ _ Hl) as (Hfp & _ & Hfp16). destruct (block_len_spec _ _ Hl) as (Hlen & Hlen').
  pose proof (user_size_bound _ (proj1 Hl)). unfold HEAP_LIMIT in Ht, Hb2.
  assert (hp_allocated_bytes inner' = hp_allocated_bytes (hs_inner st)) as Hsame by (by rewrite Hi').
  (* the state of the heap once the block is filled *)
  assert (forall stats m'',
    (forall x, ~ covers x (block_of cut_alloc) -> m'' x = m' x) ->
    (heap_poison = true ->
     zones_ok m'' (cut_addr + front_pad lalign) (user_size lsize) (front_pad lalign)) ->
    stats_ok stats (cut_alloc :: live) ->
    alloc_done st m live (l1 ++ r :: l2) lsize lalign
      (mkHeapState (mkHeap (hp_head inner') (hp_heap_start inner') (hp_heap_end inner')
         (hp_allocated_bytes inner' + block_len lsize lalign)) stats (hs_grow_registered st) (hs_grow st))
      m'' (cut_addr + front_pad lalign) l') as Hdone.
  { intros stats m'' Hm'' Hz Hstats. destruct (cut_frame m'' Hm'' Hz) as (Hrep & Hok' & Hfr).
    split_and!; try done; [lia|by apply (user_align_mod lsize); [|apply cut_ptr_mod]| |apply cut_in_free].
    split_and!; try done.
    - intros x Hx. by apply Hown, cut_rest.
    - apply cut_covering.
    - cbn [hs_inner hp_allocated_bytes]. rewrite Hsame, Hab.
      etransitivity; [|symmetry; exact cut_total_len]. lia. }
  unfold finish_alloc. rewrite Hsame, Hab in *. wp_step. wp_step. wp_step.
  eapply wp_mono.
  { apply (wp_record_alloc st m (hs_grow st) live cut_alloc); try done; simpl; lia. }
  intros stats Hstats. destruct heap_poison eqn:E.
  - wp_step. eapply wp_mono; [apply wp_fill_alloc|].
    + lia. + by apply Hfp16. + lia. + unfold block_len, REDZONE_SIZE in *. rewrite E in *. lia.
    + intros [m'' p] (-> & Hz & Hc). wp_step. apply Hdone; [|done|done].
      intros x Hx. apply Hc. rewrite cut_block in Hx. unfold covers, block_len, REDZONE_SIZE in Hx.
      simpl in Hx. rewrite E in Hx. lia.
  - wp_step. assert (front_pad lalign = 0) as Hfp0 by (unfold front_pad; by rewrite E).
    rewrite Hfp0, Z.add_0_r in Hdone. apply Hdone; done.
Qed.
End Cut.

(** *** The operations *)

Lemma inv_headroom st m live l k :
  heap_inv (st, m, live) l -> 4 <= k <= 31 -> headroom (2 ^ k) l.
Proof using.
  intros ((_ & _ & Hg & _) & Hgi & Hown & _) Hk. apply Forall_forall. intros r Hr.
  pose proof (gaps_in _ _ _ _ Hg Hr) as (? & ? & ?).
  assert (2 ^ k <= 2 ^ 31) by (apply Z.pow_le_mono_r; lia).
  assert (0 < fr_base r < HEAP_LIMIT); [|unfold HEAP_LIMIT in *; ulia].
  apply (hg_bound _ _ Hgi), Hown, Exists_exists. exists r. split; [done|]. unfold fr_end. lia.
Qed.

Lemma inv_live_not_free st m live l x :
  heap_inv (st, m, live) l -> (1 <= covering x (map block_of live))%nat -> ~ in_ranges l x.
Proof using. intros (_ & _ & _ & _ & Hc & _) Hx Hin. apply Hc in Hin. lia. Qed.

Lemma inv_live_owned st m live l x :
  heap_inv (st, m, live) l -> (1 <= covering x (map block_of live))%nat -> hg_owned (hs_grow st) x.
Proof using.
  intros (_ & _ & _ & Hok & _) Hx. unfold covering in Hx.
  destruct (filter (covers x) (map block_of live)) as [|b bs] eqn:E; [simpl in Hx; lia|].
  assert (b ∈ filter (covers x) (map block_of live)) as Hin by (rewrite E; set_solver).
  apply list_elem_of_filter in Hin as [Hc (e & -> & He)%list_elem_of_fmap].
  rewrite Forall_forall in Hok. destruct (Hok e He) as (_ & _ & Ho & _). by apply Ho.
Qed.

(** Growing: the new region joins the free list. *)
Lemma inv_grown st m live l g' m1 p s inner' m2 l' e' :
  heap_inv (st, m, live) l -> hg_inv g' -> (forall x, hg_owned (hs_grow st) x -> m1 x = m x) ->
  (forall x, p <= x < p + s -> ~ hg_owned (hs_grow st) x) ->
  (forall x, hg_owned g' x <-> hg_owned (hs_grow st) x \/ p <= x < p + s) ->
  block_added (hs_inner st) m1 l p s inner' m2 l' ->
  heap_inv (mkHeapState (mkHeap (hp_head inner') (hp_heap_start inner') e'
              (hp_allocated_bytes inner')) (hs_stats st) (hs_grow_registered st) g', m2, live) l' /\
  (forall x, (1 <= covering x (map block_of live))%nat -> m2 x = m x).
Proof using.
  intros Hinv Hg' Hm1 Hnew Hown' (Hi' & Hrep' & Hin' & Hfr' & _).
  pose proof Hinv as (Hrep & Hgi & Hown & Hok & Hcov & Hab & Hst).
  assert (forall x, (1 <= covering x (map block_of live))%nat -> m2 x = m x) as Hfr.
  { intros x Hx. pose proof (inv_live_owned _ _ _ _ _ Hinv Hx).
    rewrite Hfr'; [by apply Hm1|by eapply inv_live_not_free|]. intros Hx'. by apply (Hnew x). }
  split; [|done]. split_and!; try done.
  - intros x. simpl. rewrite Hin', Hown'. intros [?|?]; auto.
  - apply Forall_forall. intros q Hq. apply (allocation_ok_frame m m2 (hs_grow st)).
    + intros x Hx. by apply Hfr, (block_in_covering x q).
    + intros x Hx. apply Hown'. by left.
    + by apply (proj1 (Forall_forall _ _) Hok).
  - intros x. split; [apply Hcov|]. rewrite Hin'. intros [Hx|Hx]; [by apply Hcov|].
    destruct (decide (covering x (map block_of live) = 0)%nat); [done|].
    exfalso. apply (Hnew x Hx). eapply inv_live_owned; [done|lia].
  - cbn [hs_inner hp_allocated_bytes]. by rewrite Hi'.
Qed.

Lemma inv_grow_failed st m live l g' m1 :
  heap_inv (st, m, live) l -> hg_inv g' -> (forall x, hg_owned (hs_grow st) x -> m1 x = m x) ->
  (forall x, hg_owned g' x <-> hg_owned (hs_grow st) x) ->
  heap_inv (mkHeapState (hs_inner st) (hs_stats st) (hs_grow_registered st) g', m1, live) l /\
  (forall x, (1 <= covering x (map block_of live))%nat -> m1 x = m x).
Proof using.
  intros Hinv Hg' Hm1 Ho.
  pose proof Hinv as ((Hh & Hb & Hg & Hbk) & _ & Hown & Hok & Hcov & Hab & Hst).
  split; [split_and!; try done|].
  - split_and!; try done. eapply blocks_frame; [done| |done]. intros x Hx. by apply Hm1, Hown.
  - intros x Hx. apply Ho. by apply Hown.
  - apply Forall_forall. intros q Hq. rewrite Forall_forall in Hok.
    apply (allocation_ok_frame m m1 (hs_grow st)); [|intros x Hx; by apply Ho|by apply Hok].
    intros x Hx. apply Hm1. destruct (Hok q Hq) as (_ & _ & Hq' & _). auto.
  - intros x Hx. by apply Hm1, (inv_live_owned st m live l).
Qed.

(** What [alloc] returns: a new live block, or null.  Without a growth
    callback null means that no free block has room. *)
Definition alloc_outcome st m live l (lsize lalign : Z) st' m' (p : Z) : Prop :=
  (forall x, (1 <= covering x (map block_of live))%nat -> m' x = m x) /\
  hs_grow_registered st' = hs_grow_registered st /\
  if decide (p = 0) then
    (exists l', heap_inv (st', m', live) l') /\
    (hs_grow_registered st = false ->
     Forall (fun r => ~ fits (block_len lsize lalign) (user_align lalign) r) l)
  else
    p mod lalign = 0 /\ exists l', heap_inv (st', m', mkAllocation p lsize lalign :: live) l'.

Lemma wp_heap_alloc fuel st m live l lsize lalign :
  heap_inv (st, m, live) l -> (S (length l) <= fuel)%nat -> layout_ok lsize lalign -> stats_room st ->
  wp (heap_alloc heap_poison alloc_track hg_grow fuel st m lsize lalign)
     (fun '(st', m', p) => alloc_outcome st m live l lsize lalign st' m' p).
Proof using.
  intros Hinv Hf Hl Hroom. destruct (user_align_pow _ _ Hl) as (k & Hk & Hu).
  destruct (block_len_spec _ _ Hl) as (Hlen & _). pose proof Hinv as (Hrep & Hgi & _).
  assert (forall st1 m1 l1, heap_inv (st1, m1, live) l1 ->
    hs_grow_registered st1 = hs_grow_registered st -> stats_room st1 ->
    (forall x, (1 <= covering x (map block_of live))%nat -> m1 x = m x) ->
    forall st' m' p l', alloc_done st1 m1 live l1 lsize lalign st' m' p l' ->
      alloc_outcome st m live l lsize lalign st' m' p) as Hfinish.
  { intros st1 m1 l1 Hi1 Hr1 _ Hm1 st' m' p l' (Hp & Hpm & Hi' & _ & Hr' & _ & Hfr').
    split_and!; [|congruence|rewrite decide_False by done; eauto].
    intros x Hx. rewrite Hfr' by (by eapply inv_live_not_free). auto. }
  unfold heap_alloc. fold (user_size lsize) (user_align lalign). cbv zeta.
  wp_step. apply wp_padded_size; [done|]. wp_step. rewrite Hu.
  eapply wp_mono; [apply (wp_find_first_fit fuel _ m _ k l); try done; try lia|].
  { by eapply inv_headroom; [done|lia]. }
  intros [[inner' m'] [[a n]|]] Hfit; cbv beta iota zeta.
  { destruct Hfit as (l1 & r & l2 & l' & -> & _ & Hfit & -> & -> & Ht). rewrite <- Hu in *.
    eapply wp_mono; [by eapply (wp_finish_alloc st m live lsize lalign l1 r l2 l')|].
    intros [[st' m''] p] Hd. by eapply Hfinish. }
  destruct Hfit as (-> & -> & Hno). rewrite <- Hu in Hno. cbn [hs_grow_registered hs_grow hs_inner hs_stats].
  destruct (hs_grow_registered st) eqn:Hreg.
  2: { wp_step. split_and!; try done. rewrite decide_True by done. split; [|done].
       exists l. destruct st. simpl in *. by subst. }
  wp_step. eapply wp_mono; [apply (hg_grow_spec (hs_grow st) m); [done|lia]|].
  intros [[g' m1] [[p s]|]] (Hg' & Hm1 & Ho); cbv beta iota zeta; wp_step.
  2: { destruct (inv_grow_failed st m live l g' m1 Hinv Hg' Hm1 Ho) as [Hi1 Hfr1].
       split_and!; try done. rewrite decide_True by done. split; [eauto|done]. }
  destruct Ho as (Hp16 & Hs & Hp & Hnew & Hown').
  assert (p + s <= HEAP_LIMIT) as Hps.
  { assert (0 < p + s - 1 < HEAP_LIMIT); [|lia]. apply (hg_bound g' _ Hg'), Hown'. right. lia. }
  unfold HEAP_LIMIT in Hps.
  eapply wp_mono; [apply (wp_add_free_region fuel (hs_inner st) m1 p s l); try done|].
  { destruct Hrep as (Hh & Hb & Hg & Hbk). split_and!; try done. eapply blocks_frame; [done| |done].
    intros x Hx. apply Hm1. destruct Hinv as (_ & _ & Hown & _). by apply Hown. }
  { unfold MIN_BLOCK_SIZE. lia. } { lia. }
  { intros x Hx Hin. destruct Hinv as (_ & _ & Hown & _). by apply (Hnew x), Hown. } { lia. }
  intros [inner' m2] (l' & Hadd). cbv beta iota zeta. wp_steps.
  destruct (inv_grown st m live l g' m1 p s inner' m2 l' (hp_heap_end inner' `max` (p + s))
              Hinv Hg' Hm1 Hnew Hown' Hadd) as [Hi1 Hfr1].
  rewrite Hreg in Hi1. set (inner1 := mkHeap _ _ _ _) in *.
  set (st1 := mkHeapState inner1 (hs_stats st) true g') in *.
  eapply wp_mono; [apply (wp_find_first_fit fuel inner1 m2 _ k l'); try done; try lia|].
  { by destruct Hi1 as [? _]. } { destruct Hadd as (_ & _ & _ & _ & ?). lia. }
  { by eapply inv_headroom; [done|lia]. }
  intros [[inner3 m3] [[a n]|]] Hfit; cbv beta iota zeta.
  - destruct Hfit as (l1 & r & l2 & l3 & -> & _ & Hfit & -> & -> & Ht). rewrite <- Hu in *.
    change (finish_alloc heap_poison alloc_track _ inner3) with
      (finish_alloc heap_poison alloc_track st1 inner3).
    eapply wp_mono; [by eapply (wp_finish_alloc st1 m2 live lsize lalign l1 r l2 l3)|].
    intros [[st' m''] q] Hd. by eapply (Hfinish st1 m2 _ Hi1).
  - destruct Hfit as (-> & -> & _). wp_step. split_and!; try done.
    rewrite decide_True by done. split; [by exists l'|done].
Qed.

Lemma wp_record_free st live e :
  stats_ok (hs_stats st) (e :: live) -> 0 <= user_size (al_size e) ->
  0 <= total_len (map (fun e => (0, user_size (al_size e))) live) ->
  (alloc_track = true -> total_allocs (hs_stats st) < U64) ->
  wp (if alloc_track then record_free (hs_stats st) (user_size (al_size e)) else Ret (hs_stats st))
     (fun s => stats_ok s live).
Proof using.
  intros Hst Hu Ht Htot. unfold stats_ok in *. destruct alloc_track; [|wp_step; congruence].
  destruct (Hst eq_refl) as (H1 & H2 & H3 & H4 & H5 & H6). specialize (Htot eq_refl).
  simpl in H1, H2. unfold record_free. wp_steps. intros _. simpl. split_and!; lia.
Qed.

(** The first half of [dealloc]: check the red zones and find the block. *)
Lemma wp_unpad m g e :
  hg_inv g -> allocation_ok m g e ->
  wp (if heap_poison then
        fp ← heap_align_up REDZONE_SIZE (user_align (al_align e));
        m ← check_and_fill_dealloc m (al_ptr e) (user_size (al_size e)) fp;
        base ← sub64 (al_ptr e) fp;
        s ← add64 fp (user_size (al_size e));
        s ← add64 s REDZONE_SIZE;
        Ret (m, base, s)
      else Ret (m, al_ptr e, user_size (al_size e)))
     (fun '(m', b, n) => (b, n) = block_of e /\ forall x, ~ covers x (block_of e) -> m' x = m x).
Proof using.
  intros Hg Hok. pose proof (block_bounds _ _ _ Hg Hok) as (Hb1 & Hb2 & Hb3).
  pose proof Hok as (Hl & _ & _ & Hz). destruct (front_pad_spec _ _ Hl) as (Hfp & _ & Hfp16).
  destruct (user_align_pow _ _ Hl) as (k & Hk & Hu). pose proof (user_size_bound _ (proj1 Hl)).
  assert (2 ^ k <= 2 ^ 31) by (apply Z.pow_le_mono_r; lia).
  unfold block_of, block_len, front_pad, REDZONE_SIZE, HEAP_LIMIT in *. simpl in *.
  destruct heap_poison eqn:E.
  - rewrite Hu in *. set (fp := round_up 16 (2 ^ k)) in *.
    wp_step. apply wp_heap_align_up; [lia|lia|ulia|]. fold fp. wp_step.
    eapply wp_mono; [apply wp_check_dealloc|]; [lia|split; [by apply Hfp16|lia]|lia|by apply Hz|].
    intros m' Hc. wp_steps. split; [done|]. intros x Hx. apply Hc. unfold covers in Hx. simpl in Hx. lia.
  - wp_step. split; [|done]. by rewrite Z.sub_0_r.
Qed.

Definition dealloc_outcome st m l (e : allocation) (live' : list allocation) st' m' : Prop :=
  (forall x, (1 <= covering x (map block_of live'))%nat -> m' x = m x) /\
  hs_grow_registered st' = hs_grow_registered st /\ hs_grow st' = hs_grow st /\
  exists l', heap_inv (st', m', live') l' /\
    forall x, in_ranges l' x <-> in_ranges l x \/ covers x (block_of e).

Lemma wp_heap_dealloc fuel st m live l e live' :
  heap_inv (st, m, live) l -> (length l <= fuel)%nat -> live ≡ₚ e :: live' ->
  (alloc_track = true -> total_allocs (hs_stats st) < U64) ->
  wp (heap_dealloc heap_poison alloc_track fuel st m (al_ptr e) (al_size e) (al_align e))
     (fun '(st', m') => dealloc_outcome st m l e live' st' m').
Proof using.
  intros (Hrep & Hgi & Hown & Hok & Hcov & Hab & Hst) Hf Hp Htot.
  assert (forall x, covering x (map block_of live) =
    ((if decide (covers x (block_of e)) then 1 else 0) + covering x (map block_of live'))%nat) as Hc.
  { intros x. rewrite <- covering_cons. apply covering_perm. by rewrite Hp. }
  assert (stats_ok (hs_stats st) (e :: live')) as Hst'.
  { intros E. destruct (Hst E) as (H1 & H2 & ?). split_and!; try lia.
    - rewrite <- Hp. done.
    - rewrite H2. apply total_len_perm. by rewrite Hp. }
  rewrite Hp in Hok. apply Forall_cons in Hok as [He Hok].
  rewrite (total_len_perm _ (block_of e :: map block_of live')) in Hab by (by rewrite Hp).
  pose proof (block_bounds _ _ _ Hgi He) as (Hb1 & Hb2 & Hb3). unfold HEAP_LIMIT in Hb3.
  pose proof (user_bytes_le m _ live' Hok) as Hub. pose proof He as (Hl & Halign & Heo & _).
  unfold heap_dealloc. fold (user_size (al_size e)) (user_align (al_align e)). cbv zeta.
  wp_step. eapply wp_mono; [by apply (wp_unpad m (hs_grow st))|].
  intros [[m1 b] n] [Hbn Hfr1]. cbv beta iota zeta. wp_step. eapply wp_mono.
  { apply (wp_record_free st live' e); try done; [|lia]. pose proof (user_size_bound _ (proj1 Hl)). lia. }
  intros stats Hstats. cbn [total_len] in Hab.
  assert (snd (block_of e) = n /\ fst (block_of e) = b) as [Hn Hb] by (by rewrite <- Hbn). rewrite Hn, Hb in *.
  wp_step. wp_step. wp_step.
  assert (b mod BLOCK_ALIGN = 0) as Hbm.
  { rewrite <- Hb. unfold block_of. simpl. destruct (front_pad_spec _ _ Hl) as (_ & Hfm & _).
    apply (user_align_mod (al_size e) (al_align e)); [done|]. by rewrite Zminus_mod, Halign, Hfm. }
  assert (forall x, covers x (block_of e) -> ~ in_ranges l x) as Hdis.
  { intros x Hx Hin. apply Hcov in Hin. rewrite Hc in Hin. rewrite decide_True in Hin by done. lia. }
  eapply wp_mono.
  { apply (wp_add_free_region fuel _ m1 b n l); try done; try lia.
    - destruct Hrep as (Hh & Hbk & Hg & Hbl). split_and!; try done. eapply blocks_frame; [done| |done].
      intros x Hx. apply Hfr1. intros Hx'. by apply (Hdis x).
    - intros x Hx. apply Hdis. unfold covers. rewrite Hn, Hb. done. }
  intros [inner' m2] (l' & Hi' & Hrep' & Hin' & Hfr' & _). wp_step.
  assert (forall x, (1 <= covering x (map block_of live'))%nat -> m2 x = m x) as Hfr.
  { intros x Hx. destruct (Hcov x) as [Hc1 Hc2]. rewrite Hc in Hc1, Hc2.
    assert (~ covers x (block_of e)) as Hne by (intros Hx'; rewrite decide_True in Hc1 by done; lia).
    rewrite Hfr'; [by apply Hfr1|intros Hin; specialize (Hc2 Hin); lia|].
    intros Hx'. apply Hne. unfold covers. rewrite Hn, Hb. done. }
  split_and!; try done. exists l'. split; [split_and!; try done|].
  - intros x. simpl. rewrite Hin'. intros [Hx|Hx]; [by apply Hown|]. apply Heo. unfold covers. by rewrite Hn, Hb.
  - apply Forall_forall. intros q Hq. apply (allocation_ok_frame m m2 (hs_grow st)); [|done|].
    + intros x Hx. by apply Hfr, (block_in_covering x q).
    + by apply (proj1 (Forall_forall _ _) Hok).
  - intros x. destruct (Hcov x) as [Hc1 Hc2]. rewrite Hc in Hc1, Hc2. split; [lia|].
    rewrite Hin'. intros [Hx|Hx]; [specialize (Hc2 Hx); lia|].
    rewrite decide_True in Hc1 by (unfold covers; by rewrite Hn, Hb). lia.
  - cbn [hs_inner]. rewrite Hi'. simpl. rewrite Hab. lia.
  - intros x. rewrite Hin'. unfold covers. by rewrite Hn, Hb.
Qed.
End Client.

(** ** Sequences of heap operations *)

Lemma heap_rep_unique_gen m l l' lo :
  0 <= lo -> gaps lo l U64 -> gaps lo l' U64 -> addr_of l 0 = addr_of l' 0 ->
  blocks m l 0 -> blocks m l' 0 -> l = l'.
Proof.
  revert l' lo. induction l as [|[b n] l IH]; intros [|[b' n'] l'] lo Hlo Hg Hg' Ha Hb Hb'; simpl in *;
    [done|lia|lia|]. subst b'. destruct Hb as (Hn & Hx & Hb), Hb' as (Hn' & Hx' & Hb').
  assert (n = n') as <- by congruence. f_equal. destruct Hg as (? & ? & Hg), Hg' as (_ & _ & Hg').
  unfold fr_end in *. simpl in *. eapply (IH l' (b + n)); try done; [lia|congruence].
Qed.

Lemma heap_rep_unique m head l l' : heap_rep m head l -> heap_rep m head l' -> l = l'.
Proof.
  intros (H1 & H2 & H3 & _) (H1' & H2' & H3' & _).
  eapply (heap_rep_unique_gen m l l' 0); try done. congruence.
Qed.

Section Steps.
Context (heap_poison alloc_track : bool) {G : Type} `{HG : HeapGrower G}.

Definition enough_fuel (st : HeapState G) (m : mem) (fuel : nat) : Prop :=
  exists l, heap_rep m (hp_head (hs_inner st)) l /\ (S (length l) <= fuel)%nat.

Inductive heap_step : HeapState G * mem * list allocation ->
                      HeapState G * mem * list allocation -> Prop :=
| hstep_alloc st m live fuel lsize lalign st' m' p :
    layout_ok lsize lalign -> stats_room alloc_track st -> enough_fuel st m fuel ->
    heap_alloc heap_poison alloc_track hg_grow fuel st m lsize lalign = Ret (st', m', p) ->
    heap_step (st, m, live)
      (st', m', if decide (p = 0) then live else mkAllocation p lsize lalign :: live)
| hstep_dealloc st m live fuel e live' st' m' :
    live ≡ₚ e :: live' -> stats_room alloc_track st -> enough_fuel st m fuel ->
    heap_dealloc heap_poison alloc_track fuel st m (al_ptr e) (al_size e) (al_align e)
      = Ret (st', m') ->
    heap_step (st, m, live) (st', m', live')
| hstep_write st m live e m' :
    e ∈ live -> changed_only (al_ptr e) (al_ptr e + al_size e) m m' ->
    heap_step (st, m, live) (st, m', live).

Definition heap_ok (c : HeapState G * mem * list allocation) : Prop :=
  exists l, heap_inv heap_poison alloc_track c l.

Lemma user_in_block m g e x :
  allocation_ok heap_poison m g e -> al_ptr e <= x < al_ptr e + al_size e ->
  covers x (block_of heap_poison e).
Proof using.
  intros (Hl & _) Hx. destruct (front_pad_spec heap_poison _ _ Hl) as (? & _).
  destruct (block_len_spec heap_poison _ _ Hl) as (_ & ?). pose proof (user_size_bound _ (proj1 Hl)).
  unfold covers, block_of. simpl. lia.
Qed.

Lemma heap_write_ok st m live e m' :
  heap_ok (st, m, live) -> e ∈ live -> changed_only (al_ptr e) (al_ptr e + al_size e) m m' ->
  heap_ok (st, m', live).
Proof using.
  intros (l & (Hh & Hb & Hg & Hbk) & Hgi & Hown & Hok & Hcov & Hab & Hst) He Hc. exists l.
  pose proof Hok as Hok0. rewrite Forall_forall in Hok0.
  assert (forall x, al_ptr e <= x < al_ptr e + al_size e -> covers x (block_of heap_poison e)) as Hu
    by (intros x; by apply (user_in_block m (hs_grow st)), Hok0).
  split_and!; try done.
  - split_and!; try done. eapply blocks_frame; [done| |done]. intros x Hx. apply Hc. intros Hx'.
    pose proof (block_in_covering heap_poison x e live He (Hu x Hx')). apply Hcov in Hx. lia.
  - apply Forall_forall. intros q Hq. destruct (Hok0 q Hq) as (Hl & Hp & Ho & Hz). split_and!; try done.
    intros E. destruct (front_pad_spec heap_poison _ _ Hl) as (Hfp & _ & Hfp16).
    pose proof (user_size_bound _ (proj1 Hl)).
    eapply zones_ok_ext; [by apply Hfp16| |by apply Hz]. intros x Hx. apply Hc. intros Hx'.
    assert (covers x (block_of heap_poison q)) as Hxq.
    { unfold covers, block_of, block_len, REDZONE_SIZE. simpl. rewrite E. rewrite E in Hfp, Hx. lia. }
    destruct (decide (q = e)) as [->|Hne]; [lia|].
    (* another live block covers the same byte *)
    apply list_elem_of_split in Hq as (l1 & l2 & ->).
    assert (e ∈ l1 ++ l2) as He' by set_solver.
    pose proof (block_in_covering heap_poison x e (l1 ++ l2) He' (Hu x Hx')) as H1.
    destruct (Hcov x) as [H2 _].
    rewrite (covering_perm x _ (block_of heap_poison q :: map (block_of heap_poison) (l1 ++ l2))) in H2
      by (rewrite !map_app; simpl; by rewrite Permutation_middle).
    rewrite covering_cons, decide_True in H2 by done. lia.
Qed.

Lemma heap_step_ok c c' : heap_step c c' -> heap_ok c -> heap_ok c'.
Proof using.
  intros Hstep (l & Hinv).
  destruct Hstep as [st m live fuel lsize lalign st' m' p Hl Hroom (l0 & Hrep & Hf) E
                    |st m live fuel e live' st' m' Hp Hroom (l0 & Hrep & Hf) E
                    |st m live e m' He Hc].
  - pose proof (heap_rep_unique _ _ _ _ Hrep (proj1 Hinv)) as ->.
    apply (wp_use _ _ _ (wp_heap_alloc _ _ fuel st m live l lsize lalign Hinv Hf Hl Hroom)) in E
      as (_ & _ & E). destruct (decide (p = 0)); [by destruct E as [? _]|by destruct E as [_ ?]].
  - pose proof (heap_rep_unique _ _ _ _ Hrep (proj1 Hinv)) as ->.
    eapply (wp_use _ _ _ (wp_heap_dealloc _ _ fuel st m live l e live' Hinv ltac:(lia) Hp _)) in E.
    destruct E as (_ & _ & _ & l' & ? & _). by exists l'.
    Unshelve. intros Et. specialize (Hroom Et). lia.
  - eapply heap_write_ok; [by exists l|done|done].
Qed.

Lemma heap_reachable_ok c c' : heap_ok c -> rtc heap_step c c' -> heap_ok c'.
Proof using. induction 2; eauto using heap_step_ok. Qed.

(** [init] puts the whole region on the free list. *)
Lemma wp_heap_init g m start size :
  hg_inv g -> (forall x, hg_owned g x <-> start <= x < start + size) ->
  start mod BLOCK_ALIGN = 0 -> 0 < start -> MIN_BLOCK_SIZE <= size ->
  wp (heap_init heap_new m start size) (fun '(inner, m') =>
    heap_ok (mkHeapState inner AllocStats_new true g, m', []) /\
    changed_only start (start + 16) m m').
Proof using.
  intros Hg Hown Hal H0 Hs.
  assert (start + size <= HEAP_LIMIT) as Hlim.
  { unfold MIN_BLOCK_SIZE in *. assert (0 < start + size - 1 < HEAP_LIMIT); [|lia].
    apply (hg_bound g _ Hg), Hown. lia. }
  unfold HEAP_LIMIT in Hlim. unfold heap_init. simpl hp_head. wp_step. wp_step. wp_step. wp_step.
  wp_step. wp_step. wp_step. unfold MIN_BLOCK_SIZE in Hs.
  destruct (rep_header m 0 [] start size 0) as (_ & Hn & Hfr).
  { split_and!; try done. } { intros x _ Hx. by apply in_ranges_nil in Hx. } { unfold is_u64. lia. } { ulia. }
  split; [|intros x Hx; by apply Hfr].
  exists [mkFreeRange start size]. split_and!; try done.
  - split_and!; try done.
    + simpl. split_and!; try done. unfold block_next, set_next. apply load64_store64_eq. ulia.
    + simpl. unfold fr_end. simpl. lia.
    + by repeat constructor.
  - intros x [Hx|[]%in_ranges_nil]%in_ranges_cons. apply Hown. exact Hx.
  - intros x. unfold covering. simpl. lia.
Qed.
End Steps.

(** ** A growth callback for the examples: a bump region from 4096 on *)

Definition bump_grow (g : Z) (m : mem) (n : Z) : exec (Z * mem * option (Z * Z)) :=
  let s := round_up n BLOCK_ALIGN in
  if g + s <=? 2 ^ 40 then Ret (g + s, m, Some (g, s)) else Ret (g, m, None).

Definition bump_ok (g : Z) : Prop := 4096 <= g <= 2 ^ 40 /\ g mod BLOCK_ALIGN = 0.

#[export, refine] Instance bump_HeapGrower : HeapGrower Z := {|
  hg_grow := bump_grow;
  hg_inv := bump_ok;
  hg_owned := fun g x => 4096 <= x < g;
|}.
Proof.
  - unfold bump_ok, HEAP_LIMIT, U64. lia.
  - intros g m n [Hg Hm] Hn. unfold bump_grow.
    destruct (round_up_spec n BLOCK_ALIGN ltac:(done)) as [Hr Hrm].
    destruct (Z.leb_spec (g + round_up n BLOCK_ALIGN) (2 ^ 40)); wp_step; split_and!; try done; try lia.
    + split; [lia|]. by rewrite Zplus_mod, Hm, Hrm.
Defined.

(** ** Properties *)


(** A heap of one page at 4096, and the heap after one request of 40 bytes. *)
Definition example_mem : mem := set_next (set_size (fun _ => 0) 4096 4096) 4096 0.
Definition example_heap : HeapState Z :=
  mkHeapState (mkHeap 4096 4096 8192 0) AllocStats_new true 8192.


(** One call of [alloc] on a well-formed heap: it never panics and leaves the
    bytes of every live block unchanged; a non-null result is aligned and a
    new live block; without a growth callback, null means that no free block
    has room for the request at that alignment. *)
Theorem heap_alloc_correct (heap_poison alloc_track : bool) {G} `{HG : HeapGrower G}
    (fuel : nat) (st : HeapState G) (m : mem) (live : list allocation) (l : list FreeRange)
    (lsize lalign : Z) :
  heap_inv heap_poison alloc_track (st, m, live) l -> (S (length l) <= fuel)%nat ->
  layout_ok lsize lalign -> stats_room alloc_track st ->
  exists st' m' p, heap_alloc heap_poison alloc_track hg_grow fuel st m lsize lalign = Ret (st', m', p) /\
    (forall x, (1 <= covering x (map (block_of heap_poison) live))%nat -> m' x = m x) /\
    if decide (p = 0) then
      (exists l', heap_inv heap_poison alloc_track (st', m', live) l') /\
      (hs_grow_registered st = false ->
       Forall (fun r => ~ fits (block_len heap_poison lsize lalign) (user_align lalign) r) l)
    else
      p mod lalign = 0 /\
      exists l', heap_inv heap_poison alloc_track (st', m', mkAllocation p lsize lalign :: live) l'.
Proof.
  intros H1 H2 H3 H4.
  pose proof (wp_heap_alloc heap_poison alloc_track fuel st m live l lsize lalign H1 H2 H3 H4) as H.
  apply wp_exists in H as ([[st' m'] p] & E & Hm & _ & Hp). eauto 10.
Qed.

Lemma example_inv : heap_inv true true (example_heap, example_mem, []) [mkFreeRange 4096 4096].
Proof.
  split_and!; try done.
  - split_and!; try done. by repeat constructor.
  - intros x [Hx|[]%in_ranges_nil]%in_ranges_cons. exact Hx.
  - intros x. unfold covering. simpl. lia.
Qed.

Lemma heap_alloc_correct_witness :
  exists st' m' p, heap_alloc true true hg_grow 2 example_heap example_mem 100 64 = Ret (st', m', p) /\
    (forall x, (1 <= covering x (map (block_of true) []))%nat -> m' x = example_mem x) /\
    if decide (p = 0) then
      (exists l', heap_inv true true (st', m', []) l') /\
      (hs_grow_registered example_heap = false ->
       Forall (fun r => ~ fits (block_len true 100 64) (user_align 64) r) [mkFreeRange 4096 4096])
    else
      p mod 64 = 0 /\ exists l', heap_inv true true (st', m', [mkAllocation p 100 64]) l'.
Proof.
  apply (heap_alloc_correct true true 2 example_heap example_mem [] [mkFreeRange 4096 4096] 100 64);
    [exact example_inv|simpl; lia| |].
  - split; [lia|]. exists 6. split; [lia|reflexivity].
  - intros _. unfold U64. simpl. lia.
Defined.

(** One call of [dealloc] on a live block: it never panics, the free bytes
    become exactly the old ones plus the block, and the bytes of the other
    live blocks are unchanged. *)
Theorem heap_dealloc_correct (heap_poison alloc_track : bool) {G} `{HG : HeapGrower G}
    (fuel : nat) (st : HeapState G) (m : mem) (e : allocation) (live : list allocation)
    (l : list FreeRange) :
  heap_inv heap_poison alloc_track (st, m, e :: live) l -> (length l <= fuel)%nat ->
  stats_room alloc_track st ->
  exists st' m', heap_dealloc heap_poison alloc_track fuel st m (al_ptr e) (al_size e) (al_align e)
                 = Ret (st', m') /\
    (forall x, (1 <= covering x (map (block_of heap_poison) live))%nat -> m' x = m x) /\
    exists l', heap_inv heap_poison alloc_track (st', m', live) l' /\
      forall x, in_ranges l' x <-> in_ranges l x \/ covers x (block_of heap_poison e).
Proof.
  intros H1 H2 H3.
  assert (alloc_track = true -> total_allocs (hs_stats st) < U64) as H4
    by (intros Et; specialize (H3 Et); lia).
  pose proof (wp_heap_dealloc heap_poison alloc_track fuel st m (e :: live) l e live H1 H2
    (Permutation_refl _) H4) as H.
  apply wp_exists in H as ([st' m'] & E & Hm & _ & _ & l' & ? & ?). eauto 10.
Qed.

(** A whole page handed out: nothing is free. *)
Definition full_heap : HeapState Z :=
  mkHeapState (mkHeap 0 4096 8192 4096) AllocStats_new true 8192.

Lemma heap_dealloc_correct_witness :
  exists st' m', heap_dealloc false false 1 full_heap example_mem 4096 4096 16 = Ret (st', m') /\
    (forall x, (1 <= covering x (map (block_of false) []))%nat -> m' x = example_mem x) /\
    exists l', heap_inv false false (st', m', []) l' /\
      forall x, in_ranges l' x <-> in_ranges [] x \/ covers x (block_of false (mkAllocation 4096 4096 16)).
Proof.
  apply (heap_dealloc_correct false false 1 full_heap example_mem (mkAllocation 4096 4096 16) [] []);
    [|simpl; lia|done].
  split_and!; try done.
  - intros x Hx. by apply in_ranges_nil in Hx.
  - constructor; [|done]. split_and!; try done.
    + split; [simpl; lia|]. exists 4. split; [lia|reflexivity].
  - intros x. split; [|intros Hx; by apply in_ranges_nil in Hx].
    unfold covering. simpl. rewrite filter_cons. case_decide; simpl; lia.
Defined.

(** *** Red zones *)

Lemma bytes_are_inj m m' a v n :
  bytes_are m a v n = true -> bytes_are m' a v n = true ->
  forall x, a <= x < a + Z.of_nat n -> m x mod 256 = m' x mod 256.
Proof.
  rewrite !bytes_are_spec. intros H H' x Hx. apply (load_inj 1 m m' x); [|lia].
  specialize (H (x - a) ltac:(lia)). specialize (H' (x - a) ltac:(lia)).
  replace (a + (x - a)) with x in * by lia. congruence.
Qed.

Lemma zones_ok_inj m m' p us fp :
  16 <= fp -> zones_ok m p us fp -> zones_ok m' p us fp ->
  forall x, p - fp <= x < p \/ p + us <= x < p + us + 16 -> m x mod 256 = m' x mod 256.
Proof.
  intros Hfp (A1 & A2 & A3 & A4 & A5) (B1 & B2 & B3 & B4 & B5) x Hx.
  assert (p - fp <= x < p - 16 \/ p - 16 <= x < p - 8 \/ p - 8 <= x < p - 4 \/ p - 4 <= x < p \/
          p + us <= x < p + us + 16) as [?|[?|[?|[?|?]]]] by lia.
  - apply (bytes_are_inj m m' _ _ _ A4 B4). lia.
  - apply (load_inj 8 m m' (p - 16)); [congruence|lia].
  - apply (load_inj 4 m m' (p - 16 + 8)); [congruence|lia].
  - apply (bytes_are_inj m m' _ _ _ A3 B3). lia.
  - apply (bytes_are_inj m m' _ _ _ A5 B5). lia.
Qed.

(** The check accepts only intact red zones. *)
Lemma check_dealloc_sound m p us fp m' :
  16 <= fp -> check_and_fill_dealloc m p us fp = Ret m' -> zones_ok m p us fp.
Proof.
  intros Hfp E. unfold check_and_fill_dealloc, REDZONE_SIZE in E.
  apply bind_Ret_inv in E as (b & ->%sub64_Ret_inv & E).
  apply bind_Ret_inv in E as (h & ->%sub64_Ret_inv & E).
  apply bind_Ret_inv in E as (? & H1%assert_Ret_inv & E).
  apply bind_Ret_inv in E as (? & H2%assert_Ret_inv & E).
  apply bind_Ret_inv in E as (? & H3%assert_Ret_inv & E).
  apply bind_Ret_inv in E as (? & H4 & E).
  apply bind_Ret_inv in E as (? & ->%add64_Ret_inv & E).
  apply bind_Ret_inv in E as (? & H5%assert_Ret_inv & _).
  apply Z.eqb_eq in H1, H2. split_and!; try done.
  destruct (Z.ltb_spec 16 fp); [|by replace (Z.to_nat (fp - 16)) with 0%nat by lia].
  by apply bind_Ret_inv in H4 as (? & ->%sub64_Ret_inv & ?%assert_Ret_inv).
Qed.

(** Buffer overflows and underflows are caught: if any byte of the red zones
    around a live allocation has changed, freeing it panics. *)
Theorem heap_corruption_detected (alloc_track : bool) {G} `{HG : HeapGrower G}
    (fuel : nat) (st : HeapState G) (m m' : mem) (e : allocation) (x : Z) :
  allocation_ok true m (hs_grow st) e ->
  al_ptr e - front_pad true (al_align e) <= x < al_ptr e \/
  al_ptr e + user_size (al_size e) <= x < al_ptr e + user_size (al_size e) + REDZONE_SIZE ->
  m' x mod 256 <> m x mod 256 ->
  heap_dealloc true alloc_track fuel st m' (al_ptr e) (al_size e) (al_align e) = Panic.
Proof.
  intros (Hl & _ & _ & Hz) Hx Hne.
  destruct (heap_dealloc true alloc_track fuel st m' _ _ _) as [r|] eqn:E; [exfalso|done].
  destruct (front_pad_spec true _ _ Hl) as (Hf & _ & Hf16).
  destruct (user_align_pow _ _ Hl) as (k & Hk & Hu).
  assert (2 ^ k <= 2 ^ 31) by (apply Z.pow_le_mono_r; lia).
  unfold heap_dealloc in E. fold (user_size (al_size e)) (user_align (al_align e)) in E.
  apply bind_Ret_inv in E as (? & E & _). apply bind_Ret_inv in E as (fp & Hfp & E).
  apply bind_Ret_inv in E as (m1 & E & _). unfold front_pad in *. rewrite Hu in *.
  assert (fp = round_up REDZONE_SIZE (2 ^ k)) as ->.
  { enough (heap_align_up REDZONE_SIZE (2 ^ k) = Ret (round_up REDZONE_SIZE (2 ^ k))) by congruence.
    apply wp_eq, wp_heap_align_up; (done || unfold REDZONE_SIZE; ulia). }
  specialize (Hf16 eq_refl). apply check_dealloc_sound in E; [|done].
  apply Hne. symmetry. by apply (zones_ok_inj m m' _ _ _ Hf16 (Hz eq_refl) E).
Qed.

Lemma heap_corruption_detected_witness :
  exists e st m,
    allocation_ok true m (hs_grow st) e /\
    heap_dealloc true true 3 st (write_bytes m (al_ptr e + 40) 0 1) (al_ptr e) (al_size e) (al_align e)
    = Panic.
Proof.
  pose (m := match fill_alloc (fun _ => 0) 4096 40 16 with Ret (m, _) => m | Panic => fun _ => 0 end).
  exists (mkAllocation 4112 40 8), example_heap, m.
  assert (allocation_ok true m 8192 (mkAllocation 4112 40 8)) as Hok.
  { split_and!; try done.
    - split; [simpl; lia|]. exists 3. split; [lia|reflexivity].
    - intros x Hx. unfold covers in Hx.
      change (block_of true (mkAllocation 4112 40 8)) with (4096, 72) in Hx. simpl in *. lia. }
  split; [exact Hok|].
  apply (heap_corruption_detected true 3 example_heap m _ (mkAllocation 4112 40 8) 4152 Hok).
  - right. unfold user_size, MIN_BLOCK_SIZE, REDZONE_SIZE. simpl. lia.
  - vm_compute. discriminate.
Defined.

(** Freed memory is not always reusable: block sizes are not rounded to the
    block alignment, so the bytes between a freed block and the next aligned
    address are lost for good and keep the neighbours from being merged.  On
    a fresh heap of one page a request of a page succeeds; after a request of
    40 bytes has been made and returned it fails. *)
Theorem heap_free_loses_bytes :
  let run (c : exec (HeapState Z * mem * Z)) :=
    match c with Ret (_, _, p) => Some p | Panic => None end in
  let fresh := mkHeapState (mkHeap 4096 4096 8192 0) AllocStats_new false 8192 in
  run (heap_alloc false false bump_grow 5 fresh example_mem 4096 16) = Some 4096 /\
  run ('(st, m, p) ← heap_alloc false false bump_grow 5 fresh example_mem 40 16;
       '(st, m) ← heap_dealloc false false 5 st m p 40 16;
       heap_alloc false false bump_grow 5 st m 4096 16) = Some 0.
Proof. cbv zeta. split; vm_compute; reflexivity. Qed.
