(* ===== verification/Zone.v ===== *)
(** * The zone allocator (kernel/mm/src/zone.rs)

    Eight size classes, each with an intrusive free list threaded through its
    free blocks.  A class that runs dry takes a frame from the frame
    allocator, zeroes it through the direct map and carves it into blocks.
    The frame allocator is the interface [FrameAllocator]; [off] is the offset
    of the direct map.  The lock of each zone serialises its operations, so a
    zone is its plain state. *)

From S2P Require Import Prelude Mem Addr Layout Std Extern Region Pmm Heap.

Definition ZONE_SIZES : list Z := [32; 64; 128; 256; 512; 1024; 2048; 4096].

Inductive ZoneAllocError : Type := ZoneTooLarge | ZoneOutOfMemory.

Record Zone : Type := mkZone {
  zn_block_size : Z;
  zn_free_head : Z;
  zn_pages_allocated : Z;
}.

Definition Zone_new (bs : Z) : Zone := mkZone bs 0 0.

(** [ZoneAllocator]: one zone for each size. *)
Definition ZoneAllocator_new : list Zone := map Zone_new [32; 64; 128; 256; 512; 1024; 2048; 4096].

Definition zone_index (size : Z) : option Z := position (fun s => size <=? s) ZONE_SIZES.

(** [for i in (0..k).rev()]: link the block [i] in front of the list. *)
Fixpoint carve (page_ptr bs : Z) (k : nat) (head : Z) (m : mem) : exec (Z * mem) :=
  match k with
  | O => Ret (head, m)
  | S i =>
      o ← mul64 (Z.of_nat i) bs;
      block ← add64 page_ptr o;
      carve page_ptr bs i block (store64 m block head)
  end.

Section Ops.
Context {A : Type} `{FA : FrameAllocator A} (off : Z).

Definition Zone_grow (self : Zone) (pmm : A) (m : mem)
    : exec (Zone * A * mem * result unit ZoneAllocError) :=
  '(pmm, o) ← fa_allocate pmm m;
  match o with
  | None => Ret (self, pmm, m, Err ZoneOutOfMemory)
  | Some frame =>
      page_ptr ← hhdm_phys_to_virt off frame;
      let m := write_bytes m page_ptr 0 PAGE_SIZE in
      _ ← assert (negb (zn_block_size self =? 0));
      let blocks_per_page := PAGE_SIZE / zn_block_size self in
      '(head, m) ← carve page_ptr (zn_block_size self) (Z.to_nat blocks_per_page)
                     (zn_free_head self) m;
      pages ← add64 (zn_pages_allocated self) 1;
      Ret (mkZone (zn_block_size self) head pages, pmm, m, Ok tt)
  end.

(** The end of [Zone::alloc]: pop the head of the list. *)
Definition zone_pop (self : Zone) (m : mem) : Zone * Z :=
  let block := zn_free_head self in
  (mkZone (zn_block_size self) (load64 m block) (zn_pages_allocated self), block).

Definition Zone_alloc (self : Zone) (pmm : A) (m : mem)
    : exec (Zone * A * mem * result Z ZoneAllocError) :=
  '(self, pmm, m, r) ← (if zn_free_head self =? 0 then Zone_grow self pmm m
                        else Ret (self, pmm, m, Ok tt));
  match r with
  | Err e => Ret (self, pmm, m, Err e)
  | Ok _ => let '(self, p) := zone_pop self m in Ret (self, pmm, m, Ok p)
  end.

Definition Zone_dealloc (self : Zone) (m : mem) (ptr : Z) : Zone * mem :=
  (mkZone (zn_block_size self) ptr (zn_pages_allocated self),
   store64 m ptr (zn_free_head self)).

Definition zone_alloc (zones : list Zone) (pmm : A) (m : mem) (lsize lalign : Z)
    : exec (list Zone * A * mem * result Z ZoneAllocError) :=
  let size := Z.max (Z.max lsize lalign) 32 in
  match zone_index size with
  | None => Ret (zones, pmm, m, Err ZoneTooLarge)
  | Some i =>
      z ← idx zones i;
      '(z, pmm, m, r) ← Zone_alloc z pmm m;
      zones ← upd zones i z;
      Ret (zones, pmm, m, r)
  end.
End Ops.

Definition zone_dealloc (zones : list Zone) (m : mem) (ptr lsize lalign : Z)
    : exec (list Zone * mem) :=
  let size := Z.max (Z.max lsize lalign) 32 in
  match zone_index size with
  | None => Ret (zones, m)
  | Some i =>
      z ← idx zones i;
      let '(z, m) := Zone_dealloc z m ptr in
      zones ← upd zones i z;
      Ret (zones, m)
  end.

(** ** The free lists *)

(** The blocks [l] form the list that starts at [head]. *)
Fixpoint zone_list (m : mem) (head : Z) (l : list Z) : Prop :=
  match l with
  | [] => head = 0
  | b :: l => head = b /\ b <> 0 /\ zone_list m (load64 m b) l
  end.

(** The blocks of a free list, as address and size. *)
Definition zblocks (bs : Z) (l : list Z) : list block := map (fun b => (b, bs)) l.

Definition zblock_ok (b : block) : Prop :=
  0 < fst b /\ fst b + snd b <= U64 /\ fst b mod snd b = 0 /\ snd b ∈ ZONE_SIZES.

Lemma ZONE_SIZES_spec s : s ∈ ZONE_SIZES -> 32 <= s <= 4096 /\ PAGE_SIZE mod s = 0.
Proof.
  unfold ZONE_SIZES, PAGE_SIZE. rewrite !elem_of_cons, elem_of_nil.
  intros H. repeat destruct H as [->|H]; try done; split; (lia || reflexivity).
Qed.

Lemma zone_list_frame m m' head l :
  (forall b x, b ∈ l -> b <= x < b + 8 -> m' x = m x) ->
  zone_list m head l -> zone_list m' head l.
Proof.
  revert head. induction l as [|b l IH]; intros head Hm; simpl; [done|].
  intros (-> & Hb & Hl). split_and!; [done|done|].
  rewrite (load_ext 8 m m' b) by (intros; apply (Hm b); [set_solver|done]).
  apply IH; [|done]. intros b' x Hb' Hx. apply (Hm b'); [set_solver|done].
Qed.

Lemma elem_of_zblocks b bs l : b ∈ l -> (b, bs) ∈ zblocks bs l.
Proof. intros Hb. apply list_elem_of_fmap. eauto. Qed.

(** The blocks cut from [k] slots of a page. *)
Definition slots (page bs : Z) (k : nat) : list Z :=
  map (fun i => page + i * bs) (seqZ 0 (Z.of_nat k)).

Lemma slots_S page bs k : slots page bs (S k) = slots page bs k ++ [page + Z.of_nat k * bs].
Proof.
  unfold slots. replace (Z.of_nat (S k)) with (Z.of_nat k + 1) by lia.
  rewrite seqZ_app, Z.add_0_l, (seqZ_cons (Z.of_nat k) 1), (seqZ_nil _ (Z.pred 1)) by lia.
  by rewrite map_app.
Qed.

Lemma elem_of_slots page bs k b :
  b ∈ slots page bs k <-> exists i, 0 <= i < Z.of_nat k /\ b = page + i * bs.
Proof.
  unfold slots. rewrite list_elem_of_fmap. setoid_rewrite elem_of_seqZ.
  split; intros (i & H1 & H2); exists i; split; try done; lia.
Qed.

Lemma covering_slots x page bs k :
  0 < bs ->
  covering x (zblocks bs (slots page bs k)) =
  if decide (page <= x < page + Z.of_nat k * bs) then 1%nat else 0%nat.
Proof.
  intros Hbs. induction k as [|k IH].
  - rewrite decide_False by lia. done.
  - rewrite slots_S. unfold zblocks in *. rewrite map_app, covering_app, IH. simpl.
    rewrite covering_cons. change (covering x []) with 0%nat. unfold covers. simpl fst. simpl snd.
    repeat case_decide; lia.
Qed.

Lemma wp_carve page bs k head m l :
  0 < page -> 8 <= bs -> page + Z.of_nat k * bs <= U64 -> Z.of_nat k * bs < U64 -> is_u64 head ->
  zone_list m head l ->
  (forall b, b ∈ l -> b + 8 <= page \/ page + Z.of_nat k * bs <= b) ->
  wp (carve page bs k head m) (fun '(head', m') =>
    zone_list m' head' (slots page bs k ++ l) /\ is_u64 head' /\
    changed_only page (page + Z.of_nat k * bs) m m').
Proof.
  intros Hp Hbs. revert head m l. induction k as [|k IH]; intros head m l Hu Hu' Hh Hl Hd.
  - simpl. apply wp_ret. split_and!; done.
  - assert (Z.of_nat (S k) * bs = Z.of_nat k * bs + bs) as HS by lia.
    assert (0 <= Z.of_nat k * bs) as H0 by nia. rewrite HS in *.
    simpl carve. wp_steps. set (b := page + Z.of_nat k * bs) in *.
    eapply wp_mono; [apply (IH b (store64 m b head) (b :: l)); try ulia|].
    + split_and!; [done|lia|]. rewrite load64_store64_eq by done.
      eapply zone_list_frame; [|done]. intros b' x Hb' Hx. apply store_changed.
      destruct (Hd b' Hb'); lia.
    + intros b' [->|Hb']%elem_of_cons; [right; lia|]. destruct (Hd b' Hb'); [by left|right; lia].
    + intros [head' m'] (H1 & H2 & H3). rewrite slots_S, <- app_assoc. split_and!; [done|done|].
      intros x Hx. rewrite H3 by lia. apply store_changed. lia.
Qed.

(** ** Zones over a frame allocator *)

Section Facts.
Context {A : Type} `{FA : FrameAllocator A} (off : Z).

Definition in_page (f x : Z) : Prop := off + f * FRAME_SIZE <= x < off + (f + 1) * FRAME_SIZE.

(** The blocks [bs] are the memory the zones manage: pairwise disjoint,
    aligned to their size, and apart from the frames still free. *)
Definition arena (pmm : A) (m : mem) (bs : list block) : Prop :=
  fa_inv pmm m /\ fa_offset pmm = off /\ Forall zblock_ok bs /\
  (forall x, (covering x bs <= 1)%nat) /\
  (forall f x, f ∈ fa_free pmm -> in_page f x -> covering x bs = 0%nat).

Lemma arena_perm pmm m bs bs' : bs ≡ₚ bs' -> arena pmm m bs -> arena pmm m bs'.
Proof using.
  intros Hp (H1 & H2 & H3 & H4 & H5). split_and!; [done|done|by rewrite <- Hp| |];
    intros; rewrite <- (covering_perm _ _ _ Hp); eauto.
Qed.

(** Writing inside the blocks of the arena keeps it. *)
Lemma arena_mem pmm m m' bs :
  (forall x, covering x bs = 0%nat -> m' x = m x) -> arena pmm m bs -> arena pmm m' bs.
Proof using.
  intros Hm (H1 & H2 & H3 & H4 & H5). split_and!; [|done..].
  apply (fa_inv_mem pmm m m' H1). intros f x Hf Hx. apply Hm, (H5 f x Hf). unfold in_page.
  by rewrite <- H2.
Qed.

(** Memory the blocks [R] do not cover can be added to the arena. *)
Lemma arena_blocks_apart pmm m b R x : arena pmm m (b :: R) -> covers x b -> covering x R = 0%nat.
Proof using.
  intros (_ & _ & _ & H & _) Hx. specialize (H x). rewrite covering_cons in H.
  destruct (decide (covers x b)); [lia|done].
Qed.

(** An operation on a zone took it from [z], [pmm], [m] to [z'], [pmm'], [m']:
    its free list is now [l'], the blocks [out] left it, and the bytes of the
    other blocks [R] are as before. *)
Definition zone_grown (z : Zone) (pmm : A) (m : mem) (R : list block)
    (z' : Zone) (pmm' : A) (m' : mem) (out : list block) (l' : list Z) : Prop :=
  arena pmm' m' (out ++ zblocks (zn_block_size z) l' ++ R) /\
  zone_list m' (zn_free_head z') l' /\ zn_block_size z' = zn_block_size z /\
  zn_pages_allocated z' + Z.of_nat (size (fa_free pmm')) <=
    zn_pages_allocated z + Z.of_nat (size (fa_free pmm)) /\
  fa_free pmm' ⊆ fa_free pmm /\
  (forall x, (1 <= covering x R)%nat -> m' x = m x).

Lemma frame_page pmm m f :
  fa_inv pmm m -> fa_offset pmm = off -> f ∈ fa_free pmm ->
  0 <= f * FRAME_SIZE /\ 0 <= off < HHDM_UNINIT /\ canonical (off + f * FRAME_SIZE) /\
  0 < off + f * FRAME_SIZE /\ off + (f + 1) * FRAME_SIZE < U64.
Proof using.
  intros Hi Ho Hf. destruct (fa_frame_bound _ _ _ Hi Hf) as (H0 & Hb & Hlo & Hhi). rewrite Ho in *.
  unfold FRAME_SIZE, HHDM_UNINIT, canonical in *. ulia.
Qed.

Lemma arena_grow pmm pmm' m m' bs R f :
  arena pmm m R -> off mod PAGE_SIZE = 0 -> bs ∈ ZONE_SIZES -> fa_inv pmm' m ->
  fa_offset pmm' = off -> f ∈ fa_free pmm -> fa_free pmm' = fa_free pmm ∖ {[f]} ->
  (forall x, ~ in_page f x -> m' x = m x) ->
  arena pmm' m' (zblocks bs (slots (off + f * FRAME_SIZE) bs (Z.to_nat (PAGE_SIZE / bs))) ++ R).
Proof using.
  intros (Hi & Ho & Hok & Hc & Hf) Hoff Hbs Hi' Ho' Hin Hfree Hm.
  destruct (ZONE_SIZES_spec _ Hbs) as (Hb & Hdiv). apply Z.mod_divide in Hdiv as [q Hq]; [|lia].
  rewrite Hq, Z.div_mul by lia. assert (0 < q) by (unfold PAGE_SIZE in Hq; nia).
  destruct (frame_page _ _ _ Hi Ho Hin) as (Hf0 & _ & _ & Hpos & Hend).
  assert (Z.of_nat (Z.to_nat q) * bs = FRAME_SIZE) as Hq' by (rewrite Z2Nat.id by lia; done).
  split_and!.
  - apply (fa_inv_mem pmm' m m' Hi'). rewrite Ho', Hfree. intros g x Hg Hx.
    apply Hm. unfold in_page, FRAME_SIZE in *. assert (g <> f) by set_solver. lia.
  - done.
  - apply Forall_app. split; [|done]. apply Forall_fmap, Forall_forall.
    intros b (i & Hi1 & ->)%elem_of_slots. unfold zblock_ok. simpl.
    unfold FRAME_SIZE, PAGE_SIZE in *. split_and!; [nia|nia| |done].
    apply Z.mod_divide in Hoff as [k Hk]; [|lia]. apply Z.mod_divide; [lia|].
    exists (k * q + f * q + i). rewrite Hk, Hq. lia.
  - intros x. rewrite covering_app, covering_slots, Hq' by lia. specialize (Hc x).
    case_decide as Hx; [|lia]. rewrite (Hf f x Hin); [lia|]. unfold in_page, FRAME_SIZE in *. lia.
  - intros g x Hg Hx. rewrite covering_app, covering_slots, Hq', (Hf g x) by (lia || set_solver).
    rewrite decide_False; [done|]. assert (g <> f) by set_solver.
    unfold in_page, FRAME_SIZE in *. lia.
Qed.

Lemma slots_pos page bs k : (0 < k)%nat -> exists l, slots page bs k = page :: l.
Proof using.
  intros Hk. unfold slots. rewrite seqZ_cons by lia. simpl. rewrite Z.add_0_r. eauto.
Qed.

Lemma blocks_per_page_spec bs :
  bs ∈ ZONE_SIZES ->
  Z.of_nat (Z.to_nat (PAGE_SIZE / bs)) * bs = FRAME_SIZE /\ (0 < Z.to_nat (PAGE_SIZE / bs))%nat.
Proof using.
  intros Hbs. destruct (ZONE_SIZES_spec _ Hbs) as (Hb & Hdiv).
  apply Z.mod_divide in Hdiv as [q Hq]; [|lia].
  assert (0 < q) by (unfold PAGE_SIZE in Hq; nia).
  rewrite Hq, Z.div_mul, Z2Nat.id by lia. split; [by rewrite <- Hq|lia].
Qed.

Lemma wp_Zone_grow z pmm m R :
  arena pmm m R -> off mod PAGE_SIZE = 0 -> zn_block_size z ∈ ZONE_SIZES -> zn_free_head z = 0 ->
  zn_pages_allocated z + Z.of_nat (size (fa_free pmm)) < U64 ->
  wp (Zone_grow off z pmm m) (fun '(z', pmm', m', r) =>
    match r with
    | Ok _ => exists p l', zone_grown z pmm m R z' pmm' m' [] (p :: l')
    | Err e => e = ZoneOutOfMemory /\ z' = z /\ pmm' = pmm /\ m' = m /\ fa_free pmm = ∅
    end).
Proof using.
  intros Har Hoff Hbs Hhead Hpages. pose proof Har as (Hi & Ho & _ & _ & Hapart).
  destruct (ZONE_SIZES_spec _ Hbs) as (Hb & _), (blocks_per_page_spec _ Hbs) as (Hk & Hk0).
  unfold Zone_grow. wp_step. eapply wp_mono; [by apply fa_allocate_spec|].
  intros [pmm' [frame|]] (Hi' & Ho' & Hr); [|destruct Hr as [-> Hr]; by apply wp_ret].
  destruct Hr as (f & -> & Hin & Hfree). rewrite Ho in Ho'.
  destruct (frame_page _ _ _ Hi Ho Hin) as (Hf0 & Hoff0 & Hcan & Hpos & Hend).
  cbn beta iota. wp_step. apply wp_phys_to_virt; [done|done|]. wp_step.
  apply wp_assert; [by destruct (Z.eqb_spec (zn_block_size z) 0); [lia|]|]. wp_step. rewrite Hhead.
  pose proof (size_take_out _ _ Hin) as Hsize. rewrite <- Hfree in Hsize.
  pose proof (arena_grow pmm pmm' m) as Hgrow.
  set (page := off + f * FRAME_SIZE) in *. set (bs := zn_block_size z) in *.
  set (k := Z.to_nat (PAGE_SIZE / bs)) in *.
  eapply wp_mono; [apply (wp_carve page bs k 0 (write_bytes m page 0 PAGE_SIZE) []); try done;
    rewrite ?Hk; unfold FRAME_SIZE in *; try ulia; by intros b ?%elem_of_nil|].
  intros [head m'] (Hl & _ & Hch). rewrite app_nil_r in Hl. rewrite Hk in Hch.
  assert (forall x, ~ in_page f x -> m' x = m x) as Hm.
  { intros x Hx. unfold in_page, FRAME_SIZE in Hx. rewrite Hch, write_bytes_changed; [done|..];
      unfold page, FRAME_SIZE, PAGE_SIZE in *; lia. }
  wp_steps. destruct (slots_pos page bs k Hk0) as (l' & Hl'). rewrite Hl' in Hl.
  exists page, l'. split_and!; [|done|done|cbn; lia|rewrite Hfree; clear; set_solver|].
  - rewrite <- Hl'. by apply (Hgrow m' bs R f).
  - intros x Hx. apply Hm. intros Hp. rewrite (Hapart f x) in Hx by done. lia.
Qed.

(** *** One zone *)

Lemma wp_Zone_alloc z pmm m l R :
  arena pmm m (zblocks (zn_block_size z) l ++ R) -> zone_list m (zn_free_head z) l ->
  off mod PAGE_SIZE = 0 -> zn_block_size z ∈ ZONE_SIZES ->
  zn_pages_allocated z + Z.of_nat (size (fa_free pmm)) < U64 ->
  wp (Zone_alloc off z pmm m) (fun '(z', pmm', m', r) =>
    match r with
    | Ok p => exists l',
        zone_grown z pmm m R z' pmm' m' [(p, zn_block_size z)] l' /\
        (l <> [] -> l = p :: l' /\ pmm' = pmm /\ m' = m)
    | Err e => e = ZoneOutOfMemory /\ z' = z /\ pmm' = pmm /\ m' = m /\ fa_free pmm = ∅ /\ l = []
    end).
Proof using.
  intros Har Hl Hoff Hbs Hpages. unfold Zone_alloc. wp_step.
  destruct l as [|b l]; simpl in Hl.
  - rewrite Hl. simpl. eapply wp_mono; [by apply wp_Zone_grow|].
    intros [[[z' pmm'] m'] [[]|e]].
    + intros (p & l' & Ha & Hl' & Hs & Hp & Hsz & Hm). wp_steps. simpl in Hl'.
      destruct Hl' as (-> & Hp0 & Hl'). exists l'. split; [by split_and!|done].
    + intros (-> & -> & -> & -> & He). by wp_steps.
  - destruct Hl as (Hh & Hb0 & Hl). rewrite Hh.
    rewrite (proj2 (Z.eqb_neq b 0)) by done. wp_steps. unfold zone_pop.
    rewrite Hh. wp_steps. exists l. split; [|done]. by split_and!.
Qed.

Lemma zone_free z pmm m p l R :
  arena pmm m ((p, zn_block_size z) :: zblocks (zn_block_size z) l ++ R) ->
  zone_list m (zn_free_head z) l ->
  let '(z', m') := Zone_dealloc z m p in
  arena pmm m' (zblocks (zn_block_size z) (p :: l) ++ R) /\
  zone_list m' (zn_free_head z') (p :: l) /\
  changed_only p (p + zn_block_size z) m m'.
Proof using.
  intros Har Hl. unfold Zone_dealloc. pose proof Har as (_ & _ & Hok & _ & _).
  apply Forall_cons in Hok as [(H0 & Hend & _ & Hbs) Hok]. simpl in *.
  destruct (ZONE_SIZES_spec _ Hbs) as (Hb & _). set (bs := zn_block_size z) in *.
  assert (changed_only p (p + bs) m (store64 m p (zn_free_head z))) as Hch
    by (eapply changed_only_weaken; [..|apply store_changed]; lia).
  split; [|split; [|done]].
  - eapply arena_mem; [|exact Har]. intros x Hx. apply Hch. intros Hp.
    rewrite covering_cons, decide_True in Hx; [lia|]. unfold covers. simpl. lia.
  - split_and!; [done|lia|]. assert (is_u64 (zn_free_head z)) as Hu.
    { destruct l as [|b l]; simpl in Hl; [rewrite Hl; ulia|]. destruct Hl as (-> & _).
      apply Forall_cons in Hok as [(? & ? & _) _]. simpl in *. unfold is_u64. lia. }
    rewrite load64_store64_eq by done. eapply zone_list_frame; [|done].
    intros b x Hb' Hx. apply store_changed. intros Hp.
    pose proof (arena_blocks_apart _ _ _ _ x Har) as Hap. unfold covers in Hap. simpl in Hap.
    rewrite covering_app in Hap.
    pose proof (covering_elem x (b, bs) (zblocks bs l) (elem_of_zblocks _ _ _ Hb')) as Hel.
    unfold covers in Hel. simpl in Hel. lia.
Qed.

(** *** All zones *)

Definition zlists (m : mem) : list Zone -> list (list Z) -> Prop :=
  Forall2 (fun z l => zone_list m (zn_free_head z) l).

Definition zfree (zs : list Zone) (ls : list (list Z)) : list block :=
  concat (zip_with (fun z l => zblocks (zn_block_size z) l) zs ls).

Lemma zfree_mid z1 z z2 l1 l l2 :
  length z1 = length l1 ->
  zfree (z1 ++ z :: z2) (l1 ++ l :: l2) ≡ₚ
  zblocks (zn_block_size z) l ++ zfree z1 l1 ++ zfree z2 l2.
Proof using.
  intros Hlen. unfold zfree. rewrite zip_with_app by done. simpl. rewrite concat_app. simpl.
  rewrite !app_assoc. apply Permutation_app_tail, Permutation_app_comm.
Qed.

Lemma zlists_frame m m' zs ls :
  zlists m zs ls -> Forall (fun z => 8 <= zn_block_size z) zs ->
  (forall x, (1 <= covering x (zfree zs ls))%nat -> m' x = m x) -> zlists m' zs ls.
Proof using.
  intros H. induction H as [|z l zs ls Hl _ IH]; intros Hs Hm; [constructor|].
  apply Forall_cons in Hs as [Hs Hss]. constructor.
  - eapply zone_list_frame; [|exact Hl]. intros b x Hb Hx. apply Hm.
    unfold zfree. simpl. rewrite covering_app.
    pose proof (covering_elem x (b, zn_block_size z) _ (elem_of_zblocks _ _ _ Hb)) as Hc.
    unfold covers in Hc. simpl in Hc. lia.
  - apply IH; [done|]. intros x Hx. apply Hm. unfold zfree in *. simpl. rewrite covering_app. lia.
Qed.

(** The layouts the allocator accepts, and the block each one gets. *)
Definition zlayout_ok (lsize lalign : Z) : Prop :=
  0 <= lsize /\ exists k, 0 <= k < 63 /\ lalign = 2 ^ k.

Definition class_size (lsize lalign : Z) : option Z :=
  i ← zone_index (Z.max (Z.max lsize lalign) 32); ZONE_SIZES !! Z.to_nat i.

Definition zblock_of (e : allocation) : block :=
  (al_ptr e, default 0 (class_size (al_size e) (al_align e))).

Lemma zone_index_spec s :
  match zone_index s with
  | Some i => exists bs, 0 <= i /\ ZONE_SIZES !! Z.to_nat i = Some bs /\ s <= bs
  | None => 4096 < s
  end.
Proof using.
  unfold zone_index. pose proof (position_spec (fun z => s <=? z) ZONE_SIZES) as H.
  destruct (position _ _) as [i|].
  - destruct H as (l1 & x & l2 & -> & -> & Hx%Z.leb_le & _). exists x.
    rewrite Nat2Z.id, list_lookup_middle by done. split_and!; [lia|done|done].
  - unfold ZONE_SIZES in H. rewrite Forall_forall in H.
    specialize (H 4096 ltac:(set_solver)). lia.
Qed.

Lemma class_align p bs lsize lalign :
  zlayout_ok lsize lalign -> class_size lsize lalign = Some bs -> p mod bs = 0 ->
  lsize <= bs /\ p mod lalign = 0.
Proof using.
  intros (Hs & k & Hk & ->) Hc Hp. unfold class_size in Hc.
  pose proof (zone_index_spec (Z.max (Z.max lsize (2 ^ k)) 32)) as Hz.
  destruct (zone_index _) as [i|]; [|done]. destruct Hz as (bs' & _ & Hi & Hle).
  simpl in Hc. rewrite Hi in Hc. injection Hc as ->. split; [lia|].
  assert (exists j, 0 <= j /\ bs = 2 ^ j) as (j & Hj & ->).
  { apply list_elem_of_lookup_2 in Hi. unfold ZONE_SIZES in Hi.
    rewrite !elem_of_cons, elem_of_nil in Hi.
    repeat destruct Hi as [->|Hi]; try done;
      [exists 5|exists 6|exists 7|exists 8|exists 9|exists 10|exists 11|exists 12]; done. }
  apply (mod_pow2_le p k j); [|done]. split; [lia|]. apply (Z.pow_le_mono_r_iff 2); lia.
Qed.

Definition zone_inv (c : list Zone * A * mem * list allocation) (ls : list (list Z)) : Prop :=
  let '(zs, pmm, m, live) := c in
  map zn_block_size zs = ZONE_SIZES /\ zlists m zs ls /\
  Forall (fun z => zn_pages_allocated z + Z.of_nat (size (fa_free pmm)) <= 2 ^ 36) zs /\
  Forall (fun e => zlayout_ok (al_size e) (al_align e) /\
                   class_size (al_size e) (al_align e) <> None) live /\
  arena pmm m (zfree zs ls ++ map zblock_of live).

(** The zone of a size class, and the rest of the state. *)
Lemma zone_split zs pmm m live ls i bs :
  zone_inv (zs, pmm, m, live) ls -> 0 <= i -> ZONE_SIZES !! Z.to_nat i = Some bs ->
  exists z1 z z2 l1 l l2, zs = z1 ++ z :: z2 /\ ls = l1 ++ l :: l2 /\
    i = Z.of_nat (length z1) /\ length z1 = length l1 /\ zn_block_size z = bs /\
    bs ∈ ZONE_SIZES /\ zlists m z1 l1 /\ zlists m z2 l2 /\ zone_list m (zn_free_head z) l /\
    Forall (fun z => 8 <= zn_block_size z) (z1 ++ z2) /\
    arena pmm m (zblocks bs l ++ zfree z1 l1 ++ zfree z2 l2 ++ map zblock_of live).
Proof using.
  intros (Hs & Hl & _ & _ & Har) Hi Hbs. rewrite <- Hs in Hbs.
  apply list_lookup_fmap_Some in Hbs as (z & Hbs & Hz). pose proof Hz as Hz'.
  apply list_elem_of_split_length in Hz as (z1 & z2 & -> & Hlen).
  apply Forall2_app_inv_l in Hl as (l1 & [|l l2] & H1 & H2 & ->); [by inversion H2|].
  apply Forall2_cons in H2 as [H2 H3]. pose proof (Forall2_length _ _ _ H1) as Hlen'.
  exists z1, z, z2, l1, l, l2. split_and!; try done; [lia| | |].
  - rewrite <- Hs. apply list_elem_of_fmap. exists z. split; [done|]. set_solver.
  - apply Forall_forall. intros z' Hz0.
    enough (zn_block_size z' ∈ ZONE_SIZES) as H%ZONE_SIZES_spec by lia.
    rewrite <- Hs. apply list_elem_of_fmap. exists z'. split; [done|]. set_solver.
  - eapply arena_perm; [|exact Har]. rewrite zfree_mid, Hbs by done. by rewrite <- !app_assoc.
Qed.

Lemma zone_join z1 z z' z2 pmm pmm' m m' live live' l1 l l2 ls :
  zone_inv (z1 ++ z :: z2, pmm, m, live) ls -> length z1 = length l1 ->
  zlists m z1 l1 -> zlists m z2 l2 -> zone_list m' (zn_free_head z') l ->
  zn_block_size z' = zn_block_size z ->
  zn_pages_allocated z' + Z.of_nat (size (fa_free pmm')) <=
    zn_pages_allocated z + Z.of_nat (size (fa_free pmm)) ->
  fa_free pmm' ⊆ fa_free pmm ->
  (forall x, (1 <= covering x (zfree z1 l1 ++ zfree z2 l2))%nat -> m' x = m x) ->
  Forall (fun e => zlayout_ok (al_size e) (al_align e) /\
                   class_size (al_size e) (al_align e) <> None) live' ->
  arena pmm' m' (zblocks (zn_block_size z) l ++ zfree z1 l1 ++ zfree z2 l2 ++ map zblock_of live') ->
  zone_inv (z1 ++ z' :: z2, pmm', m', live') (l1 ++ l :: l2).
Proof using.
  intros (Hs & _ & Hpg & _ & _) Hlen H1 H2 Hl Hbs Hp Hsz%subseteq_size Hm Hlv Har.
  assert (Forall (fun z => 8 <= zn_block_size z) (z1 ++ z :: z2)) as H8.
  { apply Forall_forall. intros y Hy. enough (zn_block_size y ∈ ZONE_SIZES) as H%ZONE_SIZES_spec by lia.
    rewrite <- Hs. apply list_elem_of_fmap. by exists y. }
  rewrite Forall_app, Forall_cons in H8. destruct H8 as (H81 & _ & H82).
  rewrite Forall_app, Forall_cons in Hpg. destruct Hpg as (Hp1 & Hp0 & Hp2).
  split_and!.
  - rewrite map_app in *. simpl in *. by rewrite Hbs.
  - apply Forall2_app; [|constructor; [done|]];
      (eapply zlists_frame; [done|done|]; intros x Hx; apply Hm; rewrite covering_app; lia).
  - apply Forall_app. split; [|constructor; [lia|]];
      [eapply Forall_impl; [exact Hp1|]|eapply Forall_impl; [exact Hp2|]]; simpl; lia.
  - done.
  - eapply arena_perm; [|exact Har]. rewrite zfree_mid, Hbs by done. by rewrite <- !app_assoc.
Qed.

Definition zone_outcome zs pmm m live (lsize lalign : Z) zs' pmm' m' (r : result Z ZoneAllocError)
    : Prop :=
  match r with
  | Ok p => exists ls', zone_inv (zs', pmm', m', mkAllocation p lsize lalign :: live) ls' /\
      (forall x, (1 <= covering x (map zblock_of live))%nat -> m' x = m x) /\
      fa_free pmm' ⊆ fa_free pmm
  | Err ZoneTooLarge => 4096 < Z.max lsize lalign /\ zs' = zs /\ pmm' = pmm /\ m' = m
  | Err ZoneOutOfMemory => fa_free pmm = ∅ /\ zs' = zs /\ pmm' = pmm /\ m' = m
  end.

Lemma wp_zone_alloc zs pmm m live ls lsize lalign :
  zone_inv (zs, pmm, m, live) ls -> off mod PAGE_SIZE = 0 -> zlayout_ok lsize lalign ->
  wp (zone_alloc off zs pmm m lsize lalign) (fun '(zs', pmm', m', r) =>
    zone_outcome zs pmm m live lsize lalign zs' pmm' m' r).
Proof using.
  intros Hinv Hoff Hlay. unfold zone_alloc.
  pose proof (zone_index_spec (Z.max (Z.max lsize lalign) 32)) as Hz.
  destruct (zone_index _) as [i|] eqn:Ei; [|wp_step; simpl; split_and!; (done || lia)].
  destruct Hz as (bs & Hi & Hbs & Hle).
  assert (class_size lsize lalign = Some bs) as Hcl by (unfold class_size; by rewrite Ei).
  pose proof Hinv as (_ & _ & Hpg & Hlv & _).
  destruct (zone_split _ _ _ _ _ _ _ Hinv Hi Hbs)
    as (z1 & z & z2 & l1 & l & l2 & -> & -> & -> & Hlen & Hsz & Hin & H1 & H2 & Hl & H8 & Har).
  wp_step. eapply wp_idx; [lia|by rewrite Nat2Z.id, list_lookup_middle|].
  rewrite Forall_app, Forall_cons in Hpg. destruct Hpg as (_ & Hp0 & _).
  wp_step. subst bs. eapply wp_mono; [eapply wp_Zone_alloc; try done; ulia|].
  intros [[[z' pmm'] m'] r] Hr. wp_step. apply wp_upd; [rewrite length_app; simpl; lia|].
  rewrite Nat2Z.id, list_insert_mid. wp_step. destruct r as [p|e]; simpl.
  - destruct Hr as (l' & (Ha & Hl' & Hs' & Hp' & Hsz' & Hm) & Hfr). exists (l1 ++ l' :: l2).
    split; [|split].
    + eapply (zone_join z1 z z' z2 pmm pmm' m m' live (mkAllocation p lsize lalign :: live)); try done.
      * intros x Hx. apply Hm. rewrite !covering_app in *. lia.
      * constructor; [simpl; by rewrite Hcl|exact Hlv].
      * eapply arena_perm; [|exact Ha]. cbn [map]. unfold zblock_of at 2. cbn [al_ptr al_size al_align].
        rewrite Hcl. simpl. by rewrite !app_assoc, <- Permutation_middle.
    + intros x Hx. apply Hm. rewrite !covering_app. lia.
    + done.
  - destruct Hr as (-> & -> & -> & -> & He & ->). done.
Qed.

Lemma wp_zone_dealloc zs pmm m live ls e live' :
  zone_inv (zs, pmm, m, live) ls -> live ≡ₚ e :: live' ->
  wp (zone_dealloc zs m (al_ptr e) (al_size e) (al_align e)) (fun '(zs', m') =>
    exists ls', zone_inv (zs', pmm, m', live') ls' /\
      (forall x, (1 <= covering x (map zblock_of live'))%nat -> m' x = m x)).
Proof using.
  intros Hinv Hperm. pose proof Hinv as (_ & _ & _ & Hlv & _). rewrite Hperm in Hlv.
  apply Forall_cons in Hlv as [[_ Hc] Hlv]. unfold zone_dealloc. unfold class_size in Hc.
  pose proof (zone_index_spec (Z.max (Z.max (al_size e) (al_align e)) 32)) as Hz.
  destruct (zone_index _) as [i|] eqn:Ei; [|done]. destruct Hz as (bs & Hi & Hbs & _).
  assert (zblock_of e = (al_ptr e, bs)) as Hcl
    by (unfold zblock_of, class_size; rewrite Ei; simpl; by rewrite Hbs).
  destruct (zone_split _ _ _ _ _ _ _ Hinv Hi Hbs)
    as (z1 & z & z2 & l1 & l & l2 & -> & -> & -> & Hlen & <- & Hin & H1 & H2 & Hl & H8 & Har).
  wp_step. eapply wp_idx; [lia|by rewrite Nat2Z.id, list_lookup_middle|].
  set (R := zfree z1 l1 ++ zfree z2 l2 ++ map zblock_of live').
  assert (arena pmm m ((al_ptr e, zn_block_size z) :: zblocks (zn_block_size z) l ++ R)) as Har'.
  { eapply arena_perm; [|exact Har]. rewrite Hperm. cbn [map]. rewrite Hcl. unfold R.
    by rewrite !app_assoc, <- Permutation_middle. }
  pose proof (zone_free z pmm m (al_ptr e) l R Har' Hl) as Hfree.
  destruct (Zone_dealloc z m (al_ptr e)) as [z' m'] eqn:Ez.
  assert (zn_block_size z' = zn_block_size z /\ zn_pages_allocated z' = zn_pages_allocated z)
    as [Hzs Hzp] by (injection Ez as <- _; done).
  destruct Hfree as (Ha & Hl' & Hch).
  assert (forall x, (1 <= covering x R)%nat -> m' x = m x) as Hm.
  { intros x Hx. apply Hch. intros Hp. pose proof (arena_blocks_apart pmm m _ _ x Har') as Hap.
    rewrite covering_app in Hap. unfold covers in Hap. simpl in Hap. lia. }
  wp_step. apply wp_upd; [rewrite length_app; simpl; lia|].
  rewrite Nat2Z.id, list_insert_mid. wp_step. exists (l1 ++ (al_ptr e :: l) :: l2). split.
  - eapply (zone_join z1 z z' z2 pmm pmm m m' live live'); try done; [by rewrite Hzp|].
    intros x Hx. apply Hm. unfold R. rewrite !covering_app in *. lia.
  - intros x Hx. apply Hm. unfold R. rewrite !covering_app. lia.
Qed.

(** ** Clients

    Every way to use the zone allocator: requests, returns of live blocks,
    writes to live blocks, and frames taken by others. *)

Inductive zone_step : list Zone * A * mem * list allocation ->
                      list Zone * A * mem * list allocation -> Prop :=
| zstep_alloc zs pmm m live lsize lalign zs' pmm' m' r :
    zlayout_ok lsize lalign ->
    zone_alloc off zs pmm m lsize lalign = Ret (zs', pmm', m', r) ->
    zone_step (zs, pmm, m, live)
      (zs', pmm', m', match r with Ok p => mkAllocation p lsize lalign :: live | Err _ => live end)
| zstep_dealloc zs pmm m live e live' zs' m' :
    live ≡ₚ e :: live' ->
    zone_dealloc zs m (al_ptr e) (al_size e) (al_align e) = Ret (zs', m') ->
    zone_step (zs, pmm, m, live) (zs', pmm, m', live')
| zstep_write zs pmm m live e m' :
    e ∈ live -> changed_only (al_ptr e) (al_ptr e + al_size e) m m' ->
    zone_step (zs, pmm, m, live) (zs, pmm, m', live)
| zstep_frame zs pmm m live pmm' o :
    fa_allocate pmm m = Ret (pmm', o) ->
    zone_step (zs, pmm, m, live) (zs, pmm', m, live).

Definition zone_ok (c : list Zone * A * mem * list allocation) : Prop := exists ls, zone_inv c ls.

Lemma live_block_ok zs pmm m live ls e :
  zone_inv (zs, pmm, m, live) ls -> e ∈ live ->
  al_ptr e mod al_align e = 0 /\ al_size e <= snd (zblock_of e) /\
  Z.max (al_size e) (al_align e) <= 4096.
Proof using.
  intros (_ & _ & _ & Hlv & Har) He. rewrite Forall_forall in Hlv.
  destruct (Hlv e He) as [Hlay Hc]. destruct Har as (_ & _ & Hok & _).
  apply Forall_app in Hok as [_ Hok]. rewrite Forall_forall in Hok.
  specialize (Hok (zblock_of e) ltac:(apply list_elem_of_fmap; eauto)) as (_ & _ & Hmod & Hin).
  unfold zblock_of in *. destruct (class_size _ _) as [bs|] eqn:Ec; [|done]. simpl in *.
  destruct (class_align _ _ _ _ Hlay Ec Hmod) as [? ?]. split_and!; [done|done|].
  unfold class_size in Ec. pose proof (zone_index_spec (Z.max (Z.max (al_size e) (al_align e)) 32)) as Hz.
  destruct (zone_index _) as [i|]; [|done]. destruct Hz as (bs' & _ & Hi & Hle).
  apply list_elem_of_lookup_2, ZONE_SIZES_spec in Hi. lia.
Qed.

Lemma fresh_block_ok zs pmm m live ls p lsize lalign :
  zone_inv (zs, pmm, m, mkAllocation p lsize lalign :: live) ls ->
  Z.max lsize lalign <= 4096 /\ p mod lalign = 0 /\
  forall x, p <= x < p + lsize -> covering x (map zblock_of live) = 0%nat.
Proof using.
  intros Hinv. destruct (live_block_ok _ _ _ _ _ (mkAllocation p lsize lalign) Hinv ltac:(set_solver))
    as (H1 & H2 & H3). split_and!; [done|done|]. intros x Hx.
  destruct Hinv as (_ & _ & _ & _ & _ & _ & _ & Hc & _). specialize (Hc x).
  rewrite covering_app in Hc. cbn [map] in Hc. rewrite covering_cons in Hc.
  rewrite decide_True in Hc; [lia|]. unfold covers.
  change (fst (zblock_of (mkAllocation p lsize lalign))) with p. cbn [al_size] in H2. lia.
Qed.

Lemma zone_write_ok zs pmm m live e m' :
  zone_ok (zs, pmm, m, live) -> e ∈ live -> changed_only (al_ptr e) (al_ptr e + al_size e) m m' ->
  zone_ok (zs, pmm, m', live).
Proof using.
  intros (ls & Hs & Hl & Hp & Hlv & Har) He Hch. exists ls.
  assert (forall x, ~ covers x (zblock_of e) -> m' x = m x) as Hm.
  { intros x Hx. apply Hch. intros Hr. apply Hx. rewrite Forall_forall in Hlv.
    destruct (Hlv e He) as [Hlay Hc]. unfold covers, zblock_of.
    destruct (class_size _ _) as [bs|] eqn:Ec; [|done].
    destruct (class_align 0 bs _ _ Hlay Ec eq_refl). simpl. lia. }
  assert (zblock_of e ∈ map zblock_of live) as He' by (apply list_elem_of_fmap; eauto).
  split_and!; [done| |done|done|].
  - eapply zlists_frame; [done|..].
    + apply Forall_forall. intros y Hy.
      enough (zn_block_size y ∈ ZONE_SIZES) as H%ZONE_SIZES_spec by lia.
      rewrite <- Hs. apply list_elem_of_fmap. by exists y.
    + intros x Hx. apply Hm. intros Hc. destruct Har as (_ & _ & _ & H1 & _). specialize (H1 x).
      rewrite covering_app in H1. pose proof (covering_elem _ _ _ He' Hc). lia.
  - eapply arena_mem; [|exact Har]. intros x Hx. apply Hm. intros Hc.
    rewrite covering_app in Hx. pose proof (covering_elem _ _ _ He' Hc). lia.
Qed.

Lemma zone_frame_ok zs pmm m live pmm' o :
  zone_ok (zs, pmm, m, live) -> fa_allocate pmm m = Ret (pmm', o) -> zone_ok (zs, pmm', m, live).
Proof using.
  intros (ls & Hs & Hl & Hp & Hlv & Hi & Ho & Hok & Hc & Hf) E.
  pose proof (wp_use _ _ _ (fa_allocate_spec pmm m Hi) E) as (Hi' & Ho' & Hr).
  assert (fa_free pmm' ⊆ fa_free pmm) as Hsub.
  { destruct o as [p|]; [|by destruct Hr as [-> _]]. destruct Hr as (f & _ & _ & ->). set_solver. }
  exists ls. split_and!; try done.
  - pose proof (subseteq_size _ _ Hsub). eapply Forall_impl; [exact Hp|]. simpl. lia.
  - split_and!; [done|by rewrite Ho'|done|done|]. intros f x Hf'. apply Hf. set_solver.
Qed.

Lemma zone_step_ok c c' : off mod PAGE_SIZE = 0 -> zone_step c c' -> zone_ok c -> zone_ok c'.
Proof using.
  intros Hoff Hst Hok. destruct Hst as [zs pmm m live lsize lalign zs' pmm' m' r Hlay E
    |zs pmm m live e live' zs' m' Hp E|zs pmm m live e m' He Hch|zs pmm m live pmm' o E].
  - destruct Hok as (ls & Hinv).
    pose proof (wp_use _ _ _ (wp_zone_alloc _ _ _ _ _ _ _ Hinv Hoff Hlay) E) as H.
    destruct r as [p|[]]; simpl in H.
    + destruct H as (ls' & H & _). by exists ls'.
    + destruct H as (_ & -> & -> & ->). by exists ls.
    + destruct H as (_ & -> & -> & ->). by exists ls.
  - destruct Hok as (ls & Hinv).
    pose proof (wp_use _ _ _ (wp_zone_dealloc _ _ _ _ _ _ _ Hinv Hp) E) as (ls' & H & _). by exists ls'.
  - by eapply zone_write_ok.
  - by eapply zone_frame_ok.
Qed.

Lemma zone_reachable_ok c c' :
  off mod PAGE_SIZE = 0 -> zone_ok c -> rtc zone_step c c' -> zone_ok c'.
Proof using. intros Hoff Hc H. induction H; eauto using zone_step_ok. Qed.

Lemma zone_new_ok pmm m :
  fa_inv pmm m -> fa_offset pmm = off -> zone_ok (ZoneAllocator_new, pmm, m, []).
Proof using.
  intros Hi Ho. exists (replicate 8 []). split_and!; try done.
  - repeat constructor.
  - assert (Z.of_nat (size (fa_free pmm)) <= 2 ^ 36) as Hsz.
    { transitivity (Z.of_nat (size (list_to_set (seqZ 0 (2 ^ 36)) : gset Z))).
      - apply inj_le, subseteq_size. intros f Hf. apply elem_of_list_to_set, elem_of_seqZ.
        destruct (fa_frame_bound _ _ _ Hi Hf) as (? & ? & _). unfold FRAME_SIZE in *. lia.
      - rewrite size_list_to_set by apply NoDup_seqZ. rewrite length_seqZ. lia. }
    apply Forall_map, Forall_forall. intros bs _. simpl. lia.
  - split_and!; try done. intros x. apply Nat.le_0_l.
Qed.
End Facts.

(** ** Properties *)

(** C26: The zone allocator is safe for every client and every frame allocator:
    after any sequence of requests, returns, writes to live blocks and frames
    taken by others, no two live blocks overlap and every live block is
    aligned and large enough; the next request never panics, gives a block
    apart from all live ones without touching their bytes, and fails only
    for a layout above 4096 bytes or when no frame is left; returning a live
    block never panics and touches no other live block. *)
Theorem zone_client_safe {A} `{FA : FrameAllocator A} (pmm0 pmm : A) (m0 m : mem)
    (zs : list Zone) (live : list allocation) :
  fa_inv pmm0 m0 -> fa_offset pmm0 mod PAGE_SIZE = 0 ->
  rtc (zone_step (fa_offset pmm0)) (ZoneAllocator_new, pmm0, m0, []) (zs, pmm, m, live) ->
  (forall x, (covering x (map zblock_of live) <= 1)%nat) /\
  (forall e, e ∈ live -> al_ptr e mod al_align e = 0 /\ al_size e <= snd (zblock_of e)) /\
  (forall lsize lalign, zlayout_ok lsize lalign ->
     exists zs' pmm' m' r, zone_alloc (fa_offset pmm0) zs pmm m lsize lalign = Ret (zs', pmm', m', r) /\
       match r with
       | Ok p => Z.max lsize lalign <= 4096 /\ p mod lalign = 0 /\
           forall x, p <= x < p + lsize -> covering x (map zblock_of live) = 0%nat
       | Err ZoneTooLarge => 4096 < Z.max lsize lalign
       | Err ZoneOutOfMemory => fa_free pmm = ∅
       end /\
       forall x, (1 <= covering x (map zblock_of live))%nat -> m' x = m x) /\
  (forall e live', live ≡ₚ e :: live' ->
     exists zs' m', zone_dealloc zs m (al_ptr e) (al_size e) (al_align e) = Ret (zs', m') /\
       forall x, (1 <= covering x (map zblock_of live'))%nat -> m' x = m x).
Proof.
  intros Hi Hoff Hreach.
  destruct (zone_reachable_ok _ _ _ Hoff (zone_new_ok _ _ _ Hi eq_refl) Hreach) as (ls & Hinv).
  pose proof Hinv as (_ & _ & _ & Hlv & Har). rewrite Forall_forall in Hlv.
  split_and!.
  - intros x. destruct Har as (_ & _ & _ & Hc & _). specialize (Hc x). rewrite covering_app in Hc. lia.
  - intros e He. destruct (live_block_ok _ _ _ _ _ _ _ Hinv He) as (? & ? & _). done.
  - intros lsize lalign Hlay.
    pose proof (wp_zone_alloc _ _ _ _ _ _ _ _ Hinv Hoff Hlay) as H.
    apply wp_exists in H as ([[[zs' pmm'] m'] r] & E & Hr). exists zs', pmm', m', r. split; [done|].
    destruct r as [p|[]]; simpl in Hr.
    + destruct Hr as (ls' & Hinv' & Hm & _). split; [|done].
      by eapply fresh_block_ok.
    + destruct Hr as (? & _ & _ & ->). done.
    + destruct Hr as (? & _ & _ & ->). done.
  - intros e live' Hp. pose proof (wp_zone_dealloc _ _ _ _ _ _ _ _ Hinv Hp) as H.
    apply wp_exists in H as ([zs' m'] & E & ls' & _ & Hm). eauto.
Qed.

Definition example_zone_alloc : exec (list Zone * BitmapAllocator * mem * result Z ZoneAllocError) :=
  zone_alloc (FA := bitmap_FrameAllocator false) 0xFFFF800000000000 ZoneAllocator_new example_pmm
    zero_mem 100 8.

(** After a request of 100 bytes, which takes the frame 2 and its first block
    of 128 bytes, a second one gets a block apart from the first. *)
Lemma zone_client_safe_witness :
  exists zs pmm m, example_zone_alloc = Ret (zs, pmm, m, Ok 0xFFFF800000002000) /\
    exists zs' pmm' m' r,
      zone_alloc (FA := bitmap_FrameAllocator false) 0xFFFF800000000000 zs pmm m 100 8
        = Ret (zs', pmm', m', r) /\
      match r with
      | Ok p => forall x, p <= x < p + 100 ->
          covering x (map zblock_of [mkAllocation 0xFFFF800000002000 100 8]) = 0%nat
      | Err e => e = ZoneOutOfMemory
      end.
Proof.
  assert (match example_zone_alloc with Ret (_, _, _, Ok p) => p | _ => 0 end = 0xFFFF800000002000) as E
    by (vm_compute; reflexivity).
  destruct example_zone_alloc as [[[[zs pmm] m] [p|e]]|] eqn:Eq;
    [subst p|discriminate E..].
  exists zs, pmm, m. split; [done|].
  destruct (zone_client_safe (FA := bitmap_FrameAllocator false) example_pmm pmm zero_mem m zs
    [mkAllocation 0xFFFF800000002000 100 8]) as (_ & _ & H & _).
  - split; [exact example_pmm_inv|]. intros E. discriminate E.
  - reflexivity.
  - eapply rtc_once, (zstep_alloc (FA := bitmap_FrameAllocator false) _ ZoneAllocator_new example_pmm
      zero_mem [] 100 8 zs pmm m (Ok _)); [|exact Eq].
    split; [lia|]. exists 3. split; [lia|reflexivity].
  - destruct (H 100 8) as (zs' & pmm' & m' & r & E2 & Hr & _).
    + split; [lia|]. exists 3. split; [lia|reflexivity].
    + exists zs', pmm', m', r. split; [exact E2|].
      destruct r as [p|[]]; [apply Hr|exfalso; lia|done].
Defined.
