(* ===== verification/PageTable.v ===== *)
(** * x86_64 page tables
    (kernel/kernel/src/arch/x86_64/structures/paging.rs and paging/mapper.rs)

    The tables live in the byte memory, reached through the direct map at
    [off], the [hhdm_offset] of the mapper.  An entry is a 64-bit word.  [F]
    and [G] are the flag types [PageTableFlags] and [MapFlags]; [alloc] is the
    frame-allocating closure the mapping functions receive. *)

From S2P Require Import Prelude Mem Addr Paging Layout Std Extern Region Pmm.

Definition ADDR_MASK : Z := 0x000FFFFFFFFFF000.

(** The bits [PageTableFlags] declares: 0 to 4, 7, 8, 12 and 63. *)
Definition PTF_ALL : Z := 0x800000000000119F.

(** The bits [MapFlags] declares: 0 to 5. *)
Definition MF_ALL : Z := 0x3F.

Section Flags.
Context {F : Type} `{BF : BitFlags PTF_ALL F}.

Definition PTF_PRESENT : F := bf_from_bits_retain (Z.shiftl 1 0).
Definition PTF_WRITABLE : F := bf_from_bits_retain (Z.shiftl 1 1).
Definition PTF_USER : F := bf_from_bits_retain (Z.shiftl 1 2).
Definition PTF_WRITE_THROUGH : F := bf_from_bits_retain (Z.shiftl 1 3).
Definition PTF_CACHE_DISABLE : F := bf_from_bits_retain (Z.shiftl 1 4).
Definition PTF_PAT_4K : F := bf_from_bits_retain (Z.shiftl 1 7).
Definition PTF_HUGE_PAGE : F := bf_from_bits_retain (Z.shiftl 1 7).
Definition PTF_GLOBAL : F := bf_from_bits_retain (Z.shiftl 1 8).
Definition PTF_PAT_HUGE : F := bf_from_bits_retain (Z.shiftl 1 12).
Definition PTF_NO_EXECUTE : F := bf_from_bits_retain (Z.shiftl 1 63).
End Flags.

Section MapFlags.
Context {G : Type} `{BG : BitFlags MF_ALL G}.

Definition MF_WRITABLE : G := bf_from_bits_retain (Z.shiftl 1 0).
Definition MF_EXECUTABLE : G := bf_from_bits_retain (Z.shiftl 1 1).
Definition MF_USER : G := bf_from_bits_retain (Z.shiftl 1 2).
Definition MF_GLOBAL : G := bf_from_bits_retain (Z.shiftl 1 3).
Definition MF_CACHE_DISABLE : G := bf_from_bits_retain (Z.shiftl 1 4).
Definition MF_WRITE_COMBINE : G := bf_from_bits_retain (Z.shiftl 1 5).
End MapFlags.

(** [mapper::UnmapError] of the architecture-independent interface and the
    mapper's own [UnmapError]. *)
Inductive UnmapError : Type := NotMapped | SizeMismatch.
Inductive ArchUnmapError : Type := ArchNotMapped | ArchHugePage.

(** ** Entries *)

Definition PageTableEntry_empty : Z := 0.

Definition is_present (e : Z) : bool := negb (Z.land e 1 =? 0).

Definition entry_address (e : Z) : PhysAddr := Z.land e ADDR_MASK.

Section Mapper.
Context {F : Type} `{BF : BitFlags PTF_ALL F}.
Context {G : Type} `{BG : BitFlags MF_ALL G}.

Definition PageTableEntry_new (phys_addr : PhysAddr) (flags : F) : Z :=
  Z.lor (Z.land phys_addr ADDR_MASK) (bf_bits flags).

Definition entry_flags (e : Z) : F := bf_from_bits_truncate (Z.land e (not64 ADDR_MASK)).

Inductive TranslateResult : Type :=
| Page4KiB (frame : Z) (flags : F)
| Page2MiB (phys_start : Z) (flags : F)
| Page1GiB (phys_start : Z) (flags : F)
| TNotMapped.

(** [PageTable::entries[i]], with the bounds check. *)
Definition get_entry (m : mem) (table i : Z) : exec Z :=
  _ ← assert (i <? 512); Ret (load64 m (table + 8 * i)).

Definition set_entry (m : mem) (table i e : Z) : exec mem :=
  _ ← assert (i <? 512); Ret (store64 m (table + 8 * i) e).

(** [entry.flags().contains(PageTableFlags::HUGE_PAGE)]. *)
Definition is_huge (e : Z) : bool := bf_contains (entry_flags e) PTF_HUGE_PAGE.

Definition intermediate_flags_for (leaf_flags : F) : F :=
  let flags := bf_union PTF_PRESENT PTF_WRITABLE in
  if bf_contains leaf_flags PTF_USER then bf_union flags PTF_USER else flags.

Definition map_flags_to_native (flags : G) : F :=
  let native := PTF_PRESENT in
  let native := if bf_contains flags MF_WRITABLE then bf_union native PTF_WRITABLE else native in
  let native :=
    if negb (bf_contains flags MF_EXECUTABLE) then bf_union native PTF_NO_EXECUTE else native in
  let native := if bf_contains flags MF_USER then bf_union native PTF_USER else native in
  let native := if bf_contains flags MF_GLOBAL then bf_union native PTF_GLOBAL else native in
  let native :=
    if bf_contains flags MF_CACHE_DISABLE then bf_union native PTF_CACHE_DISABLE else native in
  if bf_contains flags MF_WRITE_COMBINE then
    let native := bf_union native (bf_union PTF_PAT_4K PTF_PAT_HUGE) in
    bf_intersection native (bf_complement (bf_union PTF_CACHE_DISABLE PTF_WRITE_THROUGH))
  else native.

Section At.
Context (off : VirtAddr).

Definition phys_to_virt (phys : PhysAddr) : exec VirtAddr :=
  _ ← assert (phys <=? U64 - 1 - off);
  Ret (VirtAddr_add off phys).

Definition table_at (phys : PhysAddr) : exec VirtAddr :=
  a ← PhysAddr_is_aligned phys 4096;
  _ ← assert a;
  phys_to_virt phys.

(** ** Mapping *)

Section Alloc.
Context {A : Type} (alloc : A -> mem -> exec (A * Z)).

Definition ensure_table (a : A) (m : mem) (table_phys : PhysAddr) (index : Z)
    (intermediate_flags : F) : exec (A * mem * PhysAddr) :=
  table ← table_at table_phys;
  entry ← get_entry m table index;
  if is_present entry then
    let combined := bf_union (entry_flags entry) intermediate_flags in
    m ← (if negb (bf_eqb combined (entry_flags entry))
         then set_entry m table index (PageTableEntry_new (entry_address entry) combined)
         else Ret m);
    Ret (a, m, entry_address entry)
  else
    '(a, new_frame) ← alloc a m;
    p ← phys_to_virt new_frame;
    let m := write_bytes m p 0 PAGE_SIZE in
    m ← set_entry m table index (PageTableEntry_new new_frame intermediate_flags);
    Ret (a, m, new_frame).

Definition map_2mib (a : A) (m : mem) (pml4_phys : PhysAddr) (virt_addr : VirtAddr)
    (phys_addr : PhysAddr) (flags : F) : exec (A * mem) :=
  al ← PhysAddr_is_aligned phys_addr 0x200000;
  _ ← assert al;
  let pml4_idx := VirtAddr_pml4_index virt_addr in
  let pdpt_idx := VirtAddr_pdpt_index virt_addr in
  let pd_idx := VirtAddr_pd_index virt_addr in
  let intermediate := intermediate_flags_for flags in
  '(a, m, pdpt_phys) ← ensure_table a m pml4_phys pml4_idx intermediate;
  '(a, m, pd_phys) ← ensure_table a m pdpt_phys pdpt_idx intermediate;
  pd ← table_at pd_phys;
  m ← set_entry m pd pd_idx (PageTableEntry_new phys_addr (bf_union flags PTF_HUGE_PAGE));
  Ret (a, m).

Definition map_1gib (a : A) (m : mem) (pml4_phys : PhysAddr) (virt_addr : VirtAddr)
    (phys_addr : PhysAddr) (flags : F) : exec (A * mem) :=
  al ← PhysAddr_is_aligned phys_addr 0x40000000;
  _ ← assert al;
  let pml4_idx := VirtAddr_pml4_index virt_addr in
  let pdpt_idx := VirtAddr_pdpt_index virt_addr in
  let intermediate := intermediate_flags_for flags in
  '(a, m, pdpt_phys) ← ensure_table a m pml4_phys pml4_idx intermediate;
  pdpt ← table_at pdpt_phys;
  m ← set_entry m pdpt pdpt_idx (PageTableEntry_new phys_addr (bf_union flags PTF_HUGE_PAGE));
  Ret (a, m).

Definition map_4k (a : A) (m : mem) (pml4_phys : PhysAddr) (virt_addr : VirtAddr)
    (phys_addr : PhysAddr) (flags : F) : exec (A * mem) :=
  al ← PhysAddr_is_aligned phys_addr 4096;
  _ ← assert al;
  let pml4_idx := VirtAddr_pml4_index virt_addr in
  let pdpt_idx := VirtAddr_pdpt_index virt_addr in
  let pd_idx := VirtAddr_pd_index virt_addr in
  let pt_idx := VirtAddr_pt_index virt_addr in
  let intermediate := intermediate_flags_for flags in
  '(a, m, pdpt_phys) ← ensure_table a m pml4_phys pml4_idx intermediate;
  '(a, m, pd_phys) ← ensure_table a m pdpt_phys pdpt_idx intermediate;
  '(a, m, pt_phys) ← ensure_table a m pd_phys pd_idx intermediate;
  pt ← table_at pt_phys;
  m ← set_entry m pt pt_idx (PageTableEntry_new phys_addr flags);
  Ret (a, m).
End Alloc.

(** ** Unmapping, translation and protection *)

Definition unmap_4k (m : mem) (pml4_phys : PhysAddr) (virt_addr : VirtAddr)
    : exec (mem * result Z ArchUnmapError) :=
  let pml4_idx := VirtAddr_pml4_index virt_addr in
  let pdpt_idx := VirtAddr_pdpt_index virt_addr in
  let pd_idx := VirtAddr_pd_index virt_addr in
  let pt_idx := VirtAddr_pt_index virt_addr in
  pml4 ← table_at pml4_phys;
  pml4e ← get_entry m pml4 pml4_idx;
  if negb (is_present pml4e) then Ret (m, Err ArchNotMapped) else
  pdpt ← table_at (entry_address pml4e);
  pdpte ← get_entry m pdpt pdpt_idx;
  if negb (is_present pdpte) then Ret (m, Err ArchNotMapped) else
  if is_huge pdpte then Ret (m, Err ArchHugePage) else
  pd ← table_at (entry_address pdpte);
  pde ← get_entry m pd pd_idx;
  if negb (is_present pde) then Ret (m, Err ArchNotMapped) else
  if is_huge pde then Ret (m, Err ArchHugePage) else
  pt ← table_at (entry_address pde);
  pte ← get_entry m pt pt_idx;
  if negb (is_present pte) then Ret (m, Err ArchNotMapped) else
  frame ← PhysFrame_containing_address Size4KiB (entry_address pte);
  m ← set_entry m pt pt_idx PageTableEntry_empty;
  Ret (m, Ok frame).

Definition translate (m : mem) (pml4_phys : PhysAddr) (virt_addr : VirtAddr)
    : exec TranslateResult :=
  let pml4_idx := VirtAddr_pml4_index virt_addr in
  let pdpt_idx := VirtAddr_pdpt_index virt_addr in
  let pd_idx := VirtAddr_pd_index virt_addr in
  let pt_idx := VirtAddr_pt_index virt_addr in
  pml4 ← table_at pml4_phys;
  pml4e ← get_entry m pml4 pml4_idx;
  if negb (is_present pml4e) then Ret TNotMapped else
  pdpt ← table_at (entry_address pml4e);
  pdpte ← get_entry m pdpt pdpt_idx;
  if negb (is_present pdpte) then Ret TNotMapped else
  if is_huge pdpte then Ret (Page1GiB (entry_address pdpte) (entry_flags pdpte)) else
  pd ← table_at (entry_address pdpte);
  pde ← get_entry m pd pd_idx;
  if negb (is_present pde) then Ret TNotMapped else
  if is_huge pde then Ret (Page2MiB (entry_address pde) (entry_flags pde)) else
  pt ← table_at (entry_address pde);
  pte ← get_entry m pt pt_idx;
  if negb (is_present pte) then Ret TNotMapped else
  frame ← PhysFrame_containing_address Size4KiB (entry_address pte);
  Ret (Page4KiB frame (entry_flags pte)).

Definition translate_addr (m : mem) (pml4_phys : PhysAddr) (virt_addr : VirtAddr)
    : exec (option PhysAddr) :=
  r ← translate m pml4_phys virt_addr;
  match r with
  | Page4KiB frame _ => p ← PhysAddr_add frame (VirtAddr_page_offset virt_addr); Ret (Some p)
  | Page2MiB phys_start _ =>
      let offset := Z.land virt_addr 0x1FFFFF in
      p ← PhysAddr_add phys_start offset; Ret (Some p)
  | Page1GiB phys_start _ =>
      let offset := Z.land virt_addr 0x3FFFFFFF in
      p ← PhysAddr_add phys_start offset; Ret (Some p)
  | TNotMapped => Ret None
  end.

Definition update_flags_4k (m : mem) (pml4_phys : PhysAddr) (virt_addr : VirtAddr) (new_flags : F)
    : exec (mem * result unit ArchUnmapError) :=
  let pml4_idx := VirtAddr_pml4_index virt_addr in
  let pdpt_idx := VirtAddr_pdpt_index virt_addr in
  let pd_idx := VirtAddr_pd_index virt_addr in
  let pt_idx := VirtAddr_pt_index virt_addr in
  pml4 ← table_at pml4_phys;
  pml4e ← get_entry m pml4 pml4_idx;
  if negb (is_present pml4e) then Ret (m, Err ArchNotMapped) else
  pdpt ← table_at (entry_address pml4e);
  pdpte ← get_entry m pdpt pdpt_idx;
  if negb (is_present pdpte) then Ret (m, Err ArchNotMapped) else
  if is_huge pdpte then Ret (m, Err ArchHugePage) else
  pd ← table_at (entry_address pdpte);
  pde ← get_entry m pd pd_idx;
  if negb (is_present pde) then Ret (m, Err ArchNotMapped) else
  if is_huge pde then Ret (m, Err ArchHugePage) else
  pt ← table_at (entry_address pde);
  pte ← get_entry m pt pt_idx;
  if negb (is_present pte) then Ret (m, Err ArchNotMapped) else
  m ← set_entry m pt pt_idx (PageTableEntry_new (entry_address pte) new_flags);
  Ret (m, Ok tt).

Definition unmap_2mib (m : mem) (pml4_phys : PhysAddr) (virt_addr : VirtAddr)
    : exec (mem * result Z ArchUnmapError) :=
  let pml4_idx := VirtAddr_pml4_index virt_addr in
  let pdpt_idx := VirtAddr_pdpt_index virt_addr in
  let pd_idx := VirtAddr_pd_index virt_addr in
  pml4 ← table_at pml4_phys;
  pml4e ← get_entry m pml4 pml4_idx;
  if negb (is_present pml4e) then Ret (m, Err ArchNotMapped) else
  pdpt ← table_at (entry_address pml4e);
  pdpte ← get_entry m pdpt pdpt_idx;
  if negb (is_present pdpte) then Ret (m, Err ArchNotMapped) else
  if is_huge pdpte then Ret (m, Err ArchHugePage) else
  pd ← table_at (entry_address pdpte);
  pde ← get_entry m pd pd_idx;
  if negb (is_present pde) then Ret (m, Err ArchNotMapped) else
  if negb (is_huge pde) then Ret (m, Err ArchHugePage) else
  frame ← PhysFrame_containing_address Size2MiB (entry_address pde);
  m ← set_entry m pd pd_idx PageTableEntry_empty;
  Ret (m, Ok frame).

Definition unmap_1gib (m : mem) (pml4_phys : PhysAddr) (virt_addr : VirtAddr)
    : exec (mem * result Z ArchUnmapError) :=
  let pml4_idx := VirtAddr_pml4_index virt_addr in
  let pdpt_idx := VirtAddr_pdpt_index virt_addr in
  pml4 ← table_at pml4_phys;
  pml4e ← get_entry m pml4 pml4_idx;
  if negb (is_present pml4e) then Ret (m, Err ArchNotMapped) else
  pdpt ← table_at (entry_address pml4e);
  pdpte ← get_entry m pdpt pdpt_idx;
  if negb (is_present pdpte) then Ret (m, Err ArchNotMapped) else
  if negb (is_huge pdpte) then Ret (m, Err ArchHugePage) else
  frame ← PhysFrame_containing_address Size1GiB (entry_address pdpte);
  m ← set_entry m pdpt pdpt_idx PageTableEntry_empty;
  Ret (m, Ok frame).

Definition update_flags_2mib (m : mem) (pml4_phys : PhysAddr) (virt_addr : VirtAddr) (new_flags : F)
    : exec (mem * result unit ArchUnmapError) :=
  let pml4_idx := VirtAddr_pml4_index virt_addr in
  let pdpt_idx := VirtAddr_pdpt_index virt_addr in
  let pd_idx := VirtAddr_pd_index virt_addr in
  pml4 ← table_at pml4_phys;
  pml4e ← get_entry m pml4 pml4_idx;
  if negb (is_present pml4e) then Ret (m, Err ArchNotMapped) else
  pdpt ← table_at (entry_address pml4e);
  pdpte ← get_entry m pdpt pdpt_idx;
  if negb (is_present pdpte) then Ret (m, Err ArchNotMapped) else
  if is_huge pdpte then Ret (m, Err ArchHugePage) else
  pd ← table_at (entry_address pdpte);
  pde ← get_entry m pd pd_idx;
  if negb (is_present pde) then Ret (m, Err ArchNotMapped) else
  if negb (is_huge pde) then Ret (m, Err ArchHugePage) else
  m ← set_entry m pd pd_idx
        (PageTableEntry_new (entry_address pde) (bf_union new_flags PTF_HUGE_PAGE));
  Ret (m, Ok tt).

Definition update_flags_1gib (m : mem) (pml4_phys : PhysAddr) (virt_addr : VirtAddr) (new_flags : F)
    : exec (mem * result unit ArchUnmapError) :=
  let pml4_idx := VirtAddr_pml4_index virt_addr in
  let pdpt_idx := VirtAddr_pdpt_index virt_addr in
  pml4 ← table_at pml4_phys;
  pml4e ← get_entry m pml4 pml4_idx;
  if negb (is_present pml4e) then Ret (m, Err ArchNotMapped) else
  pdpt ← table_at (entry_address pml4e);
  pdpte ← get_entry m pdpt pdpt_idx;
  if negb (is_present pdpte) then Ret (m, Err ArchNotMapped) else
  if negb (is_huge pdpte) then Ret (m, Err ArchHugePage) else
  m ← set_entry m pdpt pdpt_idx
        (PageTableEntry_new (entry_address pdpte) (bf_union new_flags PTF_HUGE_PAGE));
  Ret (m, Ok tt).

(** ** The [PageMapper<S>] implementations *)

Definition map_err {T} (r : result T ArchUnmapError) : result T UnmapError :=
  match r with
  | Ok t => Ok t
  | Err ArchNotMapped => Err NotMapped
  | Err ArchHugePage => Err SizeMismatch
  end.

Section AllocMapper.
Context {A : Type} (alloc : A -> mem -> exec (A * Z)).

(** [PageMapper::map] for each page size.  The [MapFlush] it returns holds
    the page's address. *)
Definition mapper_map (S : PageSize) (a : A) (m : mem) (root page frame : Z) (flags : G)
    : exec (A * mem) :=
  let native := map_flags_to_native flags in
  match S with
  | Size4KiB => map_4k alloc a m root page frame native
  | Size2MiB => map_2mib alloc a m root page frame native
  | Size1GiB => map_1gib alloc a m root page frame native
  end.
End AllocMapper.

Definition mapper_unmap (S : PageSize) (m : mem) (root page : Z)
    : exec (mem * result Z UnmapError) :=
  '(m, r) ← match S with
            | Size4KiB => unmap_4k m root page
            | Size2MiB => unmap_2mib m root page
            | Size1GiB => unmap_1gib m root page
            end;
  Ret (m, map_err r).

Definition mapper_update_flags (S : PageSize) (m : mem) (root page : Z) (flags : G)
    : exec (mem * result unit UnmapError) :=
  let native := map_flags_to_native flags in
  '(m, r) ← match S with
            | Size4KiB => update_flags_4k m root page native
            | Size2MiB => update_flags_2mib m root page native
            | Size1GiB => update_flags_1gib m root page native
            end;
  Ret (m, map_err r).
End At.
End Mapper.
Arguments TranslateResult F : clear implicits.
