(* ===== verification/PageWalk.v ===== *)
(** * Page-table trees

    The abstract side of the page tables: entries as a function of a table
    and an index, the walk along a list of indices, and the translation of an
    index path.  The lemmas say how one changed entry changes the walks and
    the translations of a tree without sharing. *)

From S2P Require Import Prelude Mem Addr Paging Layout Std Extern Region Pmm PageTable.

Definition entries : Type := Z -> Z -> Z.

Definition present (e : Z) : bool := Z.testbit e 0.
Definition huge (e : Z) : bool := Z.testbit e 7.
Definition hw_flags (e : Z) : Z := Z.land (Z.land e (not64 ADDR_MASK)) PTF_ALL.

(** What a page maps to: its size, its physical address and its flags. *)
Definition mapping : Type := PageSize * Z * Z.

(** An entry of a table at depth [d] (0 is the root) that is itself a page. *)
Definition leaf_at (d : nat) (e : Z) : bool := (0 <? d)%nat && huge e.

Definition leaf_size (d : nat) : PageSize :=
  match d with 1%nat => Size1GiB | 2%nat => Size2MiB | _ => Size4KiB end.

(** The table reached from the table [t] at depth [d]. *)
Fixpoint follow (E : entries) (d : nat) (t : Z) (l : list Z) : option Z :=
  match l with
  | [] => Some t
  | i :: l =>
      let e := E t i in
      if present e && negb (leaf_at d e) then follow E (S d) (entry_address e) l else None
  end.

(** The page found along a path from the table [t] at depth [d]. *)
Fixpoint lookup_page (E : entries) (d : nat) (t : Z) (l : list Z) : option mapping :=
  match l with
  | [] => None
  | i :: l =>
      let e := E t i in
      if present e then
        match l with
        | [] => Some (Size4KiB, entry_address e, hw_flags e)
        | _ => if leaf_at d e then Some (leaf_size d, entry_address e, hw_flags e)
               else lookup_page E (S d) (entry_address e) l
        end
      else None
  end.

Definition index_ok (i : Z) : Prop := 0 <= i < 512.

Definition path_ok (p : list Z) : Prop := (length p <= 3)%nat /\ Forall index_ok p.

(** A tree of tables: no table is reached along two paths. *)
Definition tree (E : entries) (root : Z) : Prop :=
  forall p q t, path_ok p -> path_ok q ->
    follow E 0 root p = Some t -> follow E 0 root q = Some t -> p = q.

Lemma path_ok_app p q : path_ok (p ++ q) -> path_ok p.
Proof. intros [H1 H2]. rewrite length_app in H1. apply Forall_app in H2 as [? ?]. split; [lia|done]. Qed.

Lemma path_ok_snoc p i : path_ok p -> (length p <= 2)%nat -> index_ok i -> path_ok (p ++ [i]).
Proof.
  intros [_ H] Hl Hi. split; [rewrite length_app; simpl; lia|].
  apply Forall_app. split; [done|]. constructor; [done|constructor].
Qed.

Lemma follow_app E d t p q :
  follow E d t (p ++ q) = match follow E d t p with
                          | Some u => follow E (d + length p) u q
                          | None => None
                          end.
Proof.
  revert d t. induction p as [|i p IH]; intros d t; simpl; [by rewrite Nat.add_0_r|].
  destruct (present _ && negb _); [|done]. rewrite IH.
  by replace (S d + length p)%nat with (d + S (length p))%nat by lia.
Qed.

Lemma lookup_app E d t u p q :
  follow E d t p = Some u -> q <> [] ->
  lookup_page E d t (p ++ q) = lookup_page E (d + length p) u q.
Proof.
  intros Hf Hq. revert d t Hf. induction p as [|i p IH]; intros d t Hf; simpl in *.
  - injection Hf as ->. by rewrite Nat.add_0_r.
  - destruct (present (E t i)); simpl in Hf; [|done].
    destruct (leaf_at d (E t i)); simpl in Hf; [done|].
    destruct (p ++ q) as [|j r] eqn:Epq; [by destruct p|]. rewrite (IH (S d)) by done.
    by replace (S d + length p)%nat with (d + S (length p))%nat by lia.
Qed.

(** ** One changed entry *)

Section Agree.
Context (E E' : entries) (t0 i0 : Z).

(** [E'] differs from [E] along the path at most in the entry [i0] of [t0]. *)
Definition agree_along (d : nat) (t : Z) (l : list Z) : Prop :=
  forall q j r u, l = q ++ j :: r -> follow E d t q = Some u -> (u, j) <> (t0, i0) ->
    E' u j = E u j.

Lemma agree_tail d t i l :
  agree_along d t (i :: l) -> present (E t i) && negb (leaf_at d (E t i)) = true ->
  agree_along (S d) (entry_address (E t i)) l.
Proof using.
  intros Ha Hp q j r u -> Hf. apply (Ha (i :: q) j r u); [done|]. simpl. by rewrite Hp.
Qed.

Lemma follow_agree d t l :
  agree_along d t l ->
  (forall q r, l = q ++ i0 :: r -> follow E d t q = Some t0 ->
     follow E' (d + length q) t0 (i0 :: r) = follow E (d + length q) t0 (i0 :: r)) ->
  follow E' d t l = follow E d t l.
Proof using.
  revert d t. induction l as [|i l IH]; intros d t Ha Hs; [done|].
  destruct (decide ((t, i) = (t0, i0))) as [[= -> ->]|Hne].
  - specialize (Hs [] l eq_refl eq_refl). by rewrite Nat.add_0_r in Hs.
  - simpl. rewrite (Ha [] i l t eq_refl eq_refl Hne).
    destruct (present (E t i) && negb (leaf_at d (E t i))) eqn:Ep; [|done].
    apply IH; [by apply agree_tail|]. intros q r -> Hf.
    specialize (Hs (i :: q) r eq_refl). simpl length in Hs.
    replace (d + S (length q))%nat with (S d + length q)%nat in Hs by lia.
    apply Hs. simpl. by rewrite Ep.
Qed.

Lemma lookup_agree d t l :
  agree_along d t l ->
  (forall q r, l = q ++ i0 :: r -> follow E d t q = Some t0 ->
     lookup_page E' (d + length q) t0 (i0 :: r) = lookup_page E (d + length q) t0 (i0 :: r)) ->
  lookup_page E' d t l = lookup_page E d t l.
Proof using.
  revert d t. induction l as [|i l IH]; intros d t Ha Hs; [done|].
  destruct (decide ((t, i) = (t0, i0))) as [[= -> ->]|Hne].
  - specialize (Hs [] l eq_refl eq_refl). by rewrite Nat.add_0_r in Hs.
  - simpl. rewrite (Ha [] i l t eq_refl eq_refl Hne).
    destruct (present (E t i)) eqn:Ep; [|done].
    destruct l as [|j l]; [done|]. destruct (leaf_at d (E t i)) eqn:El; [done|].
    apply IH; [apply agree_tail; [done|by rewrite Ep, El]|]. intros q r Hq Hf.
    specialize (Hs (i :: q) r). simpl length in Hs.
    replace (d + S (length q))%nat with (S d + length q)%nat in Hs by lia.
    apply Hs; [by rewrite Hq|]. simpl. by rewrite Ep, El.
Qed.
End Agree.

Section Slot.
Context (E E' : entries) (root : Z) (p : list Z) (t0 i0 : Z).
Hypothesis (Htree : tree E root) (Hp : path_ok p) (Hslot : follow E 0 root p = Some t0).
Hypothesis (Hi0 : index_ok i0).
Hypothesis (Hagree : forall q u j, path_ok q -> follow E 0 root q = Some u -> index_ok j ->
  (u, j) <> (t0, i0) -> E' u j = E u j).

Definition full_path (l : list Z) : Prop := (length l <= 4)%nat /\ Forall index_ok l.

Lemma path_full l : path_ok l -> full_path l.
Proof using. intros [? ?]. split; [lia|done]. Qed.

Lemma full_prefix q j r : full_path (q ++ j :: r) -> path_ok q /\ index_ok j.
Proof using.
  intros [Hl Hf]. rewrite length_app in Hl. simpl in Hl. apply Forall_app in Hf as [? Hf].
  apply Forall_cons in Hf as [? _]. split; [split; [lia|done]|done].
Qed.

Lemma agree_root l : full_path l -> agree_along E E' t0 i0 0 root l.
Proof using Hagree.
  intros Hl q j r u -> Hf Hne. apply full_prefix in Hl as [? ?]. by apply (Hagree q).
Qed.

(** Only the path [p] leads to the slot. *)
Lemma slot_unique q r : full_path (q ++ i0 :: r) -> follow E 0 root q = Some t0 -> q = p.
Proof using Htree Hp Hslot. intros [Hq _]%full_prefix Hf. by apply (Htree q p t0). Qed.

Lemma elsewhere l :
  full_path l -> (forall r, l <> p ++ i0 :: r) ->
  follow E' 0 root l = follow E 0 root l /\ lookup_page E' 0 root l = lookup_page E 0 root l.
Proof using Htree Hp Hslot Hagree.
  intros Hl Hno. pose proof (agree_root l Hl) as Ha.
  split; [apply (follow_agree _ _ _ _ _ _ _ Ha)|apply (lookup_agree _ _ _ _ _ _ _ Ha)];
    intros q r -> Hf; pose proof (slot_unique q r Hl Hf) as ->; by destruct (Hno r).
Qed.

Lemma to_slot : follow E' 0 root p = Some t0.
Proof using Htree Hp Hslot Hagree.
  rewrite <- Hslot. apply elsewhere; [by apply path_full|].
  intros r Hr. apply (f_equal length) in Hr. rewrite length_app in Hr. simpl in Hr. lia.
Qed.

Lemma through_slot r :
  follow E' 0 root (p ++ i0 :: r) = follow E' (length p) t0 (i0 :: r) /\
  lookup_page E' 0 root (p ++ i0 :: r) = lookup_page E' (length p) t0 (i0 :: r).
Proof using Htree Hp Hslot Hagree.
  split; [by rewrite follow_app, to_slot|]. by rewrite (lookup_app _ _ _ _ _ _ to_slot).
Qed.

Lemma through_old r :
  follow E 0 root (p ++ i0 :: r) = follow E (length p) t0 (i0 :: r) /\
  lookup_page E 0 root (p ++ i0 :: r) = lookup_page E (length p) t0 (i0 :: r).
Proof using Hslot.
  split; [by rewrite follow_app, Hslot|]. by rewrite (lookup_app _ _ _ _ _ _ Hslot).
Qed.

Lemma pass_dec l : (exists r, l = p ++ i0 :: r) \/ (forall r, l <> p ++ i0 :: r).
Proof using.
  destruct (decide (take (length p) l = p /\ l !! length p = Some i0)) as [[H1 H2]|Hno].
  - left. exists (drop (S (length p)) l). etrans; [symmetry; exact (take_drop_middle l _ i0 H2)|].
    by rewrite H1.
  - right. intros r ->. apply Hno. rewrite take_app_length, list_lookup_middle; done.
Qed.

(** *** The entry keeps pointing to the same table *)

Lemma retag l :
  present (E t0 i0) = true -> leaf_at (length p) (E t0 i0) = false ->
  present (E' t0 i0) = true -> leaf_at (length p) (E' t0 i0) = false ->
  entry_address (E' t0 i0) = entry_address (E t0 i0) -> (length p <= 2)%nat -> full_path l ->
  follow E' 0 root l = follow E 0 root l /\
  (length l = 4%nat -> lookup_page E' 0 root l = lookup_page E 0 root l).
Proof using Htree Hp Hslot Hagree Hi0.
  intros H1 H2 H3 H4 Ha Hlen Hl. destruct (pass_dec l) as [[r ->]|Hno]; [|by destruct (elsewhere l Hl Hno)].
  destruct (through_slot r) as [-> ->], (through_old r) as [-> ->].
  simpl. rewrite H1, H2, H3, H4, Ha. simpl.
  assert (follow E 0 root (p ++ [i0]) = Some (entry_address (E t0 i0))) as Hn
    by (rewrite follow_app, Hslot; simpl; by rewrite H1, H2).
  assert (agree_along E E' t0 i0 (S (length p)) (entry_address (E t0 i0)) r) as Hag.
  { intros q j r' u -> Hf Hne.
    assert (full_path ((p ++ i0 :: q) ++ j :: r')) as Hl' by (by rewrite <- app_assoc).
    apply full_prefix in Hl' as [? ?]. apply (Hagree (p ++ i0 :: q)); [done| |done|done].
    rewrite follow_app, Hslot. simpl. by rewrite H1, H2. }
  assert (forall q r', r = q ++ i0 :: r' ->
    follow E (S (length p)) (entry_address (E t0 i0)) q = Some t0 -> False) as Hnp.
  { intros q r' -> Hf. assert (full_path ((p ++ i0 :: q) ++ i0 :: r')) as Hl' by (by rewrite <- app_assoc).
    assert (p ++ i0 :: q = p) as Hbad.
    { apply (slot_unique _ r' Hl'). rewrite follow_app, Hslot. simpl. by rewrite H1, H2. }
    apply (f_equal length) in Hbad. rewrite length_app in Hbad. simpl in Hbad. lia. }
  split.
  - apply (follow_agree _ _ _ _ _ _ _ Hag). intros q r' Hq Hf. by destruct (Hnp q r').
  - intros Hl4. rewrite length_app in Hl4. simpl in Hl4. destruct r as [|j r]; [simpl in Hl4; lia|].
    apply (lookup_agree _ _ _ _ _ _ _ Hag). intros q r' Hq Hf. by destruct (Hnp q r').
Qed.

(** *** A new empty table *)

Lemma new_table f l :
  present (E t0 i0) = false -> present (E' t0 i0) = true -> leaf_at (length p) (E' t0 i0) = false ->
  entry_address (E' t0 i0) = f -> (forall j, index_ok j -> E' f j = 0) -> (length p <= 2)%nat ->
  full_path l ->
  (follow E' 0 root l = if decide (l = p ++ [i0]) then Some f else follow E 0 root l) /\
  (length l = 4%nat -> lookup_page E' 0 root l = lookup_page E 0 root l).
Proof using Htree Hp Hslot Hagree Hi0.
  intros H1 H2 H3 Ha Hz Hlen Hl. destruct (pass_dec l) as [[r ->]|Hno].
  - destruct (through_slot r) as [-> ->], (through_old r) as [-> ->].
    simpl. rewrite H1, H2, H3, Ha. simpl. destruct r as [|j r].
    + rewrite decide_True by done. split; [done|]. rewrite length_app. simpl. lia.
    + rewrite decide_False by (by intros ?%app_inv_head).
      assert (index_ok j) as Hj
        by (destruct Hl as [_ Hl]; rewrite Forall_app, !Forall_cons in Hl; tauto).
      simpl. rewrite !(Hz j) by done. simpl. done.
  - destruct (elsewhere l Hl Hno) as [-> ->]. rewrite decide_False; [done|]. by apply Hno.
Qed.

(** *** The entry becomes a page or is cleared *)

Lemma leaf_follow l :
  path_ok l ->
  (length p = 3%nat \/ present (E' t0 i0) && negb (leaf_at (length p) (E' t0 i0)) = false) ->
  follow E' 0 root l = follow E 0 root l \/ follow E' 0 root l = None.
Proof using Htree Hp Hslot Hagree.
  intros Hl Hleaf. destruct (pass_dec l) as [[r ->]|Hno].
  - destruct Hleaf as [Hlen|Hleaf].
    + destruct Hl as [Hl _]. rewrite length_app in Hl. simpl in Hl. lia.
    + destruct (through_slot r) as [-> _]. right. simpl. by rewrite Hleaf.
  - left. by apply elsewhere; [apply path_full|].
Qed.
End Slot.
