(* ===== verification/PageTableSpec.v ===== *)
(** * Correctness of the page-table code

    The code of [PageTable] against the trees of [PageWalk].  [ent] reads the
    entries from the byte memory; the invariant [pt_inv] says that the tables
    reached from a root form a tree of valid frames apart from the free ones. *)

From S2P Require Import Prelude Mem Addr Paging Layout Std Extern Region Pmm PageTable PageWalk.

(** ** The bits of an entry *)

Lemma ADDR_MASK_testbit i : 0 <= i -> Z.testbit ADDR_MASK i = (12 <=? i) && (i <? 52).
Proof.
  intros Hi. change ADDR_MASK with (Z.shiftl (Z.ones 40) 12). rewrite Z.shiftl_spec by done.
  destruct (Z.leb_spec 12 i); [|by rewrite Z.testbit_neg_r by lia].
  destruct (Z.ltb_spec i 52); [by rewrite Z.ones_spec_low by lia|by rewrite Z.ones_spec_high by lia].
Qed.

Lemma ADDR_MASK_eq x : Z.land x ADDR_MASK = 4096 * (x / 4096 mod 2 ^ 40).
Proof.
  apply Z.bits_inj'. intros i Hi. rewrite Z.land_spec, ADDR_MASK_testbit by done.
  change 4096 with (2 ^ 12). rewrite (Z.mul_comm (2 ^ 12)), Z.mul_pow2_bits by lia.
  destruct (Z.leb_spec 12 i); [|by rewrite (Z.testbit_neg_r _ (i - 12)), andb_false_r by lia].
  rewrite <- Z.shiftr_div_pow2 by lia. destruct (Z.ltb_spec i 52).
  - rewrite Z.mod_pow2_bits_low, Z.shiftr_spec by lia. simpl. rewrite andb_true_r. f_equal. lia.
  - rewrite Z.mod_pow2_bits_high by lia. by rewrite andb_false_r.
Qed.

Definition frame_ok (p : Z) : Prop := is_phys p /\ p mod 4096 = 0.

Lemma entry_address_ok e : frame_ok (entry_address e).
Proof.
  unfold entry_address, frame_ok, is_phys. rewrite ADDR_MASK_eq.
  pose proof (Z.mod_pos_bound (e / 4096) (2 ^ 40) ltac:(lia)). split; [lia|].
  rewrite Z.mul_comm. by apply Z_mod_mult.
Qed.

Lemma frame_mask p : frame_ok p -> Z.land p ADDR_MASK = p.
Proof.
  intros [Hp Hm]. rewrite ADDR_MASK_eq. unfold is_phys in Hp. rewrite Z.mod_small.
  - pose proof (Z_div_mod_eq_full p 4096). lia.
  - split; [apply Z.div_pos; lia|]. apply Z.div_lt_upper_bound; lia.
Qed.

Lemma is_present_bit e : is_present e = present e.
Proof.
  unfold is_present, present. change 1 with (Z.shiftl 1 0) at 1. rewrite land_bit_eqb by lia.
  by rewrite negb_involutive.
Qed.

Lemma land_bit_full x n : 0 <= n -> (Z.land x (Z.shiftl 1 n) =? Z.shiftl 1 n) = Z.testbit x n.
Proof.
  intros Hn. destruct (Z.testbit x n) eqn:E.
  - apply Z.eqb_eq, Z.bits_inj'. intros i Hi. rewrite Z.land_spec, bit_mask_testbit by done.
    destruct (Z.eqb_spec i n) as [->|]; [by rewrite E|]. apply andb_false_r.
  - apply Z.eqb_neq. intros H. apply (f_equal (fun y => Z.testbit y n)) in H.
    rewrite Z.land_spec, E, bit_mask_testbit, Z.eqb_refl in H by done. done.
Qed.

Section FlagBits.
Context {F : Type} `{BF : BitFlags PTF_ALL F}.

Definition clean (f : F) : Prop := Z.land (bf_bits f) ADDR_MASK = 0.

Lemma retain_bit n : 0 <= n < 64 -> bf_bits (bf_from_bits_retain (Z.shiftl 1 n) : F) = Z.shiftl 1 n.
Proof using. intros Hn. by apply bf_retain_bits, bit_mask_u64. Qed.

Lemma contains_bit (f : F) n :
  0 <= n < 64 -> bf_contains f (bf_from_bits_retain (Z.shiftl 1 n)) = Z.testbit (bf_bits f) n.
Proof using. intros Hn. rewrite bf_contains_spec, retain_bit by done. apply land_bit_full. lia. Qed.

Lemma union_bit (f g : F) i :
  Z.testbit (bf_bits (bf_union f g)) i = Z.testbit (bf_bits f) i || Z.testbit (bf_bits g) i.
Proof using. by rewrite bf_union_bits, Z.lor_spec. Qed.

Lemma clean_bit (f : F) i : clean f -> 12 <= i < 52 -> Z.testbit (bf_bits f) i = false.
Proof using.
  intros Hf Hi. apply (f_equal (fun y => Z.testbit y i)) in Hf.
  rewrite Z.land_spec, ADDR_MASK_testbit, Z.testbit_0_l in Hf by lia.
  rewrite (proj2 (Z.leb_le _ _)), (proj2 (Z.ltb_lt _ _)), andb_true_r in Hf by lia. done.
Qed.

Lemma clean_bits (f : F) : (forall i, 12 <= i < 52 -> Z.testbit (bf_bits f) i = false) -> clean f.
Proof using.
  intros H. apply Z.bits_inj'. intros i Hi. rewrite Z.land_spec, ADDR_MASK_testbit, Z.testbit_0_l by done.
  destruct (Z.leb_spec 12 i), (Z.ltb_spec i 52); simpl; try apply andb_false_r. by rewrite H by lia.
Qed.

Lemma entry_flags_bits e : is_u64 e -> bf_bits (entry_flags e : F) = hw_flags e.
Proof using. intros He. apply bf_truncate_bits. by apply land_u64_l. Qed.

Lemma hw_flags_testbit e i :
  0 <= i < 64 ->
  Z.testbit (hw_flags e) i =
  Z.testbit e i && negb ((12 <=? i) && (i <? 52)) && Z.testbit PTF_ALL i.
Proof using.
  intros Hi. unfold hw_flags. rewrite !Z.land_spec, not64_testbit by done.
  by rewrite ADDR_MASK_testbit by lia.
Qed.

Lemma is_huge_bit e : is_u64 e -> is_huge (F := F) e = huge e.
Proof using.
  intros He. unfold is_huge, PTF_HUGE_PAGE. rewrite contains_bit, entry_flags_bits by (done || lia).
  rewrite hw_flags_testbit by lia. simpl. by rewrite !andb_true_r.
Qed.

Lemma new_entry_testbit p (f : F) i :
  frame_ok p -> Z.testbit (PageTableEntry_new p f) i = Z.testbit p i || Z.testbit (bf_bits f) i.
Proof using. intros Hp. unfold PageTableEntry_new. by rewrite frame_mask, Z.lor_spec. Qed.

Lemma frame_low_bit p i : frame_ok p -> 0 <= i < 12 -> Z.testbit p i = false.
Proof using.
  intros Hp Hi. rewrite <- (frame_mask p Hp), Z.land_spec, ADDR_MASK_testbit by lia.
  rewrite (proj2 (Z.leb_gt 12 i)) by lia. apply andb_false_r.
Qed.

Lemma frame_high_bit p i : frame_ok p -> 52 <= i -> Z.testbit p i = false.
Proof using.
  intros Hp Hi. rewrite <- (frame_mask p Hp), Z.land_spec, ADDR_MASK_testbit by lia.
  rewrite (proj2 (Z.ltb_ge i 52)), andb_false_r by lia. apply andb_false_r.
Qed.

Lemma new_entry_u64 p (f : F) : frame_ok p -> is_u64 (PageTableEntry_new p f).
Proof using.
  intros Hp. unfold PageTableEntry_new. rewrite frame_mask by done.
  apply lor_u64; [|apply bf_bits_u64]. destruct Hp as [Hp _]. unfold is_phys in Hp. ulia.
Qed.

Lemma new_entry_address p (f : F) : frame_ok p -> clean f -> entry_address (PageTableEntry_new p f) = p.
Proof using.
  intros Hp Hf. unfold entry_address, PageTableEntry_new. rewrite (frame_mask p) by done.
  by rewrite Z.land_lor_distr_l, Hf, (frame_mask p), Z.lor_0_r.
Qed.

Lemma new_entry_present p (f : F) :
  frame_ok p -> present (PageTableEntry_new p f) = Z.testbit (bf_bits f) 0.
Proof using. intros Hp. unfold present. by rewrite new_entry_testbit, frame_low_bit by (done || lia). Qed.

Lemma new_entry_huge p (f : F) :
  frame_ok p -> huge (PageTableEntry_new p f) = Z.testbit (bf_bits f) 7.
Proof using. intros Hp. unfold huge. by rewrite new_entry_testbit, frame_low_bit by (done || lia). Qed.

Lemma new_entry_flags p (f : F) :
  frame_ok p -> clean f -> hw_flags (PageTableEntry_new p f) = Z.land (bf_bits f) PTF_ALL.
Proof using.
  intros Hp Hf. apply Z.bits_inj'. intros i Hi. destruct (Z.lt_ge_cases i 64).
  - rewrite hw_flags_testbit, new_entry_testbit, Z.land_spec by (done || lia).
    destruct (Z.leb_spec 12 i), (Z.ltb_spec i 52); simpl; rewrite ?andb_false_r, ?andb_true_r.
    + by rewrite clean_bit by (done || lia).
    + by rewrite frame_high_bit by (done || lia).
    + by rewrite frame_low_bit by (done || lia).
    + lia.
  - unfold hw_flags. rewrite !Z.land_spec.
    rewrite (testbit_high PTF_ALL 64 i) by (unfold PTF_ALL; lia). by rewrite !andb_false_r.
Qed.

Lemma intermediate_bits (f : F) :
  clean (intermediate_flags_for f) /\
  Z.testbit (bf_bits (intermediate_flags_for f)) 0 = true /\
  Z.testbit (bf_bits (intermediate_flags_for f)) 7 = false /\
  Z.land (bf_bits (intermediate_flags_for f)) PTF_ALL = bf_bits (intermediate_flags_for f).
Proof using.
  unfold intermediate_flags_for, PTF_PRESENT, PTF_WRITABLE, PTF_USER, clean.
  destruct (bf_contains _ _); rewrite !bf_union_bits, !retain_bit by lia; done.
Qed.

(** The flags [ensure_table] writes to an entry that is already present. *)
Lemma combined_bits e (f : F) :
  is_u64 e -> present e = true ->
  let c := bf_union (entry_flags e) (intermediate_flags_for f) in
  clean c /\ Z.testbit (bf_bits c) 0 = true /\ Z.testbit (bf_bits c) 7 = huge e.
Proof using.
  intros He Hpr c. destruct (intermediate_bits f) as (H1 & H2 & H3 & _). subst c. split_and!.
  - apply clean_bits. intros i Hi. rewrite union_bit, entry_flags_bits, hw_flags_testbit by (done || lia).
    rewrite (clean_bit _ _ H1), orb_false_r by done.
    rewrite (proj2 (Z.leb_le _ _)), (proj2 (Z.ltb_lt _ _)) by lia. simpl. by rewrite andb_false_r.
  - by rewrite union_bit, H2, orb_true_r.
  - rewrite union_bit, H3, orb_false_r, entry_flags_bits, hw_flags_testbit by (done || lia).
    simpl. by rewrite !andb_true_r.
Qed.
End FlagBits.

(** ** The entries in memory *)

Section Memory.
Context (off : Z).

Definition ent (m : mem) : entries := fun t i => load64 m (off + t + 8 * i).

(** A frame that can hold a table: mapped by the direct map. *)
Definition table_ok (t : Z) : Prop :=
  frame_ok t /\ U64 - 2 ^ 47 <= off /\ off + t + 4096 < U64.

Lemma ent_u64 m t i : is_u64 (ent m t i).
Proof using. apply load64_u64. Qed.

Lemma ent_store m t i e u j :
  is_u64 e -> t mod 4096 = 0 -> u mod 4096 = 0 -> index_ok i -> index_ok j ->
  ent (store64 m (off + t + 8 * i) e) u j = if decide ((u, j) = (t, i)) then e else ent m u j.
Proof using.
  intros He Ht Hu Hi Hj. unfold ent, index_ok in *. case_decide as H.
  - injection H as -> ->. by apply load64_store64_eq.
  - apply load_store_ne. apply Z.mod_divide in Ht as [a ->]; [|lia].
    apply Z.mod_divide in Hu as [b ->]; [|lia].
    destruct (decide (a = b)) as [->|]; [|lia]. assert (i <> j) by congruence. lia.
Qed.

Lemma ent_zero m f u j :
  f mod 4096 = 0 -> u mod 4096 = 0 -> index_ok j ->
  ent (write_bytes m (off + f) 0 PAGE_SIZE) u j = if decide (u = f) then 0 else ent m u j.
Proof using.
  intros Hf Hu Hj. unfold ent, index_ok, PAGE_SIZE in *. case_decide as H.
  - subst. apply load_zeroed; lia.
  - apply load_write_bytes_ne. apply Z.mod_divide in Hf as [a ->]; [|lia].
    apply Z.mod_divide in Hu as [b ->]; [|lia]. lia.
Qed.

Lemma wp_page_to_virt p (Q : Z -> Prop) : table_ok p -> Q (off + p) -> wp (phys_to_virt off p) Q.
Proof using.
  intros ([Hp _] & Ho & Hb) HQ. unfold is_phys in Hp. unfold phys_to_virt. wp_steps.
  unfold VirtAddr_add, wrapping_add64.
  rewrite Z.mod_small, new_truncate_id by (unfold canonical; ulia). done.
Qed.

Lemma wp_is_aligned p k (Q : bool -> Prop) :
  0 <= k < 64 -> Q (p mod 2 ^ k =? 0) -> wp (PhysAddr_is_aligned p (2 ^ k)) Q.
Proof using.
  intros Hk HQ. assert (0 < 2 ^ k) by (apply Z.pow_pos_nonneg; lia).
  unfold PhysAddr_is_aligned. wp_step. apply wp_assert; [apply is_power_of_two_pow; lia|].
  wp_steps. by rewrite land_mask by lia.
Qed.

Lemma wp_table_at t (Q : Z -> Prop) : table_ok t -> Q (off + t) -> wp (table_at off t) Q.
Proof using.
  intros Ht HQ. unfold table_at. wp_step. apply (wp_is_aligned _ 12); [lia|].
  change (2 ^ 12) with 4096. rewrite (proj2 (proj1 Ht)). wp_steps. by apply wp_page_to_virt.
Qed.

Lemma wp_get_entry m t i (Q : Z -> Prop) :
  index_ok i -> Q (ent m t i) -> wp (get_entry m (off + t) i) Q.
Proof using. unfold index_ok. intros Hi HQ. unfold get_entry. wp_steps. done. Qed.

Lemma wp_set_entry m t i e (Q : mem -> Prop) :
  index_ok i -> Q (store64 m (off + t + 8 * i) e) -> wp (set_entry m (off + t) i e) Q.
Proof using. unfold index_ok. intros Hi HQ. unfold set_entry. wp_steps. done. Qed.
End Memory.

(** ** The invariant *)

(** The closure the callers pass: take a frame, panic when there is none. *)
Definition fa_expect {A} `{FA : FrameAllocator A} (a : A) (m : mem) : exec (A * Z) :=
  '(a, o) ← fa_allocate a m;
  f ← expect o;
  Ret (a, f).

Section Spec.
Context {F : Type} `{BF : BitFlags PTF_ALL F}.
Context {A : Type} `{FA : FrameAllocator A} (off root : Z).

Definition reach (m : mem) (t : Z) : Prop :=
  exists p, path_ok p /\ follow (ent off m) 0 root p = Some t.

Definition pt_inv (a : A) (m : mem) : Prop :=
  fa_inv a m /\ fa_offset a = off /\ tree (ent off m) root /\
  forall t, reach m t -> table_ok off t /\ t / 4096 ∉ fa_free a.

Definition in_frame (t x : Z) : Prop := off + t <= x < off + t + 4096.

(** The byte [x] belongs to one of the entries a walk along [l] reads. *)
Definition on_path (m : mem) (l : list Z) (x : Z) : Prop := exists q j r t,
  l = q ++ j :: r /\ follow (ent off m) 0 root q = Some t /\ off + t + 8 * j <= x < off + t + 8 * j + 8.

Lemma on_path_app m l r x : on_path m l x -> on_path m (l ++ r) x.
Proof using. intros (q & j & r' & t & -> & H). exists q, j, (r' ++ r), t. by rewrite <- app_assoc. Qed.

Lemma on_path_entry m p t i x :
  follow (ent off m) 0 root p = Some t -> ~ on_path m (p ++ [i]) x ->
  ~ (off + t + 8 * i <= x < off + t + 8 * i + 8).
Proof using. intros Ht Hx Hin. apply Hx. by exists p, i, [], t. Qed.

Lemma store_off_entry m t i e x :
  ~ (off + t + 8 * i <= x < off + t + 8 * i + 8) -> store64 m (off + t + 8 * i) e x = m x.
Proof using. intros Hx. by apply store_changed. Qed.

(** From [a], [m] to [a'], [m'] some tables may have been added along [l], made
    of frames that were free; no translation changed, and no other memory. *)
Definition grown (l : list Z) (a : A) (m : mem) (a' : A) (m' : mem) : Prop :=
  fa_free a' ⊆ fa_free a /\
  (forall p t, path_ok p -> follow (ent off m) 0 root p = Some t ->
     follow (ent off m') 0 root p = Some t) /\
  (forall l, length l = 4%nat -> Forall index_ok l ->
     lookup_page (ent off m') 0 root l = lookup_page (ent off m) 0 root l) /\
  (forall t, reach m' t -> reach m t \/ exists f, f ∈ fa_free a ∖ fa_free a' /\ t = f * 4096) /\
  (forall x, ~ on_path m l x ->
     (forall f, f ∈ fa_free a ∖ fa_free a' -> ~ in_frame (f * 4096) x) -> m' x = m x).

Lemma grown_refl l a m : grown l a m a m.
Proof using. split_and!; auto. Qed.

Lemma grown_app l r a m a' m' : grown l a m a' m' -> grown (l ++ r) a m a' m'.
Proof using.
  intros (H1 & H2 & H3 & H4 & H5). split_and!; try done.
  intros x Hx Hf. apply H5; [|done]. intros Hl. by apply Hx, on_path_app.
Qed.

(** A table on a path was there before, on the same path, or is new. *)
Lemma path_back l a m a' m' q t :
  grown l a m a' m' -> tree (ent off m') root -> path_ok q -> follow (ent off m') 0 root q = Some t ->
  follow (ent off m) 0 root q = Some t \/ exists f, f ∈ fa_free a ∖ fa_free a' /\ t = f * 4096.
Proof using.
  intros (_ & B & _ & D & _) Htree Hq Ht. destruct (D t) as [(p & Hp & Hpt)|?]; [by exists q| |by right].
  left. by rewrite (Htree q p t Hq Hp Ht (B p t Hp Hpt)).
Qed.

Lemma path_ok_prefix q j r : full_path (q ++ j :: r) -> path_ok q.
Proof using.
  intros [Hl Ho]. rewrite length_app in Hl. simpl in Hl. apply Forall_app in Ho as [Ho _]. split; [lia|done].
Qed.

Lemma on_path_back l a m a' m' x :
  grown l a m a' m' -> tree (ent off m') root -> full_path l -> on_path m' l x ->
  on_path m l x \/ exists f, f ∈ fa_free a ∖ fa_free a' /\ in_frame (f * 4096) x.
Proof using.
  intros Hg Htree Hl (q & j & r & t & -> & Ht & Hx).
  destruct (path_back _ _ _ _ _ q t Hg Htree (path_ok_prefix _ _ _ Hl) Ht) as [Ht'|(f & Hf & ->)].
  - left. by exists q, j, r, t.
  - right. exists f. split; [done|]. destruct Hl as [_ Ho]. apply Forall_app in Ho as [_ Ho].
    apply Forall_cons in Ho as [Hj _]. unfold in_frame, index_ok in *. lia.
Qed.

Lemma grown_trans l a1 m1 a2 m2 a3 m3 :
  tree (ent off m2) root -> full_path l ->
  grown l a1 m1 a2 m2 -> grown l a2 m2 a3 m3 -> grown l a1 m1 a3 m3.
Proof using.
  intros Htree Hl G1 (A2 & B2 & C2 & D2 & E2). pose proof G1 as (A1 & B1 & C1 & D1 & E1). split_and!.
  - by etrans.
  - eauto.
  - intros l' H1 H2. by rewrite C2, C1.
  - intros t [[?|(f & ? & ->)]%D1|(f & ? & ->)]%D2; [by left|right; exists f; set_solver..].
  - intros x Hx Hf. rewrite E2, E1; [done|done| | |].
    + intros f Hf'. apply Hf. set_solver.
    + intros Hx2. destruct (on_path_back l a1 m1 a2 m2 x G1 Htree Hl Hx2) as [?|(f & Hff & Hin)]; [done|].
      apply (Hf f); [|done]. clear -Hff A2. set_solver.
    + intros f Hf'. apply Hf. set_solver.
Qed.

Lemma pt_inv_reach a m t : pt_inv a m -> reach m t -> table_ok off t.
Proof using. intros (_ & _ & _ & H) Ht. by apply H. Qed.

Lemma reach_path m p t : path_ok p -> follow (ent off m) 0 root p = Some t -> reach m t.
Proof using. intros. by exists p. Qed.

(** A store to an entry of a reachable table leaves the other entries of
    reachable tables and the frame allocator alone. *)
Lemma store_agree a m t i e q u j :
  pt_inv a m -> reach m t -> index_ok i -> is_u64 e ->
  path_ok q -> follow (ent off m) 0 root q = Some u -> index_ok j -> (u, j) <> (t, i) ->
  ent off (store64 m (off + t + 8 * i) e) u j = ent off m u j.
Proof using.
  intros Hinv Ht Hi He Hq Hu Hj Hne.
  pose proof (pt_inv_reach _ _ _ Hinv Ht) as ([_ Ht'] & _).
  pose proof (pt_inv_reach _ _ _ Hinv (reach_path _ _ _ Hq Hu)) as ([_ Hu'] & _).
  rewrite ent_store by done. by rewrite decide_False.
Qed.

Lemma store_slot a m t i e :
  pt_inv a m -> reach m t -> index_ok i -> is_u64 e ->
  ent off (store64 m (off + t + 8 * i) e) t i = e.
Proof using.
  intros Hinv Ht Hi He. pose proof (pt_inv_reach _ _ _ Hinv Ht) as ([_ Ht'] & _).
  rewrite ent_store by done. by rewrite decide_True.
Qed.

Lemma frame_div f : (f * 4096) / 4096 = f.
Proof using. by apply Z.div_mul. Qed.

Lemma table_frame t : table_ok off t -> t = t / 4096 * 4096.
Proof using. intros ([_ H] & _). pose proof (Z_div_mod_eq_full t 4096). lia. Qed.

Lemma store_fa_inv a m t x i :
  pt_inv a m -> reach m t -> index_ok i -> fa_inv a (store64 m (off + t + 8 * i) x).
Proof using.
  intros Hinv Ht Hi. pose proof Hinv as (Hfa & Ho & _ & Hr). destruct (Hr t Ht) as [Hok Hnf].
  apply (fa_inv_mem a m _ Hfa). intros f y Hf Hy. apply store_changed.
  rewrite Ho in Hy. unfold FRAME_SIZE, index_ok in *. pose proof (table_frame t Hok).
  assert (f <> t / 4096) by (by intros ->). lia.
Qed.

Lemma store_frame m t i e x :
  index_ok i -> ~ in_frame t x -> store64 m (off + t + 8 * i) e x = m x.
Proof using. intros Hi Hx. apply store_changed. unfold in_frame, index_ok in *. lia. Qed.

(** *** Adding flags to an entry that points to a table *)

Lemma retag_grown a m p t i e :
  pt_inv a m -> path_ok p -> (length p <= 2)%nat -> follow (ent off m) 0 root p = Some t ->
  index_ok i -> is_u64 e ->
  present (ent off m t i) = true -> leaf_at (length p) (ent off m t i) = false ->
  present e = true -> leaf_at (length p) e = false ->
  entry_address e = entry_address (ent off m t i) ->
  let m' := store64 m (off + t + 8 * i) e in
  pt_inv a m' /\ grown (p ++ [i]) a m a m' /\
  follow (ent off m') 0 root (p ++ [i]) = Some (entry_address (ent off m t i)).
Proof using.
  intros Hinv Hp Hlen Ht Hi He P1 L1 P2 L2 Ha m'.
  pose proof (reach_path _ _ _ Hp Ht) as Hr. pose proof Hinv as (Hfa & Ho & Htree & Hok).
  assert (forall l, full_path l -> follow (ent off m') 0 root l = follow (ent off m) 0 root l /\
    (length l = 4%nat -> lookup_page (ent off m') 0 root l = lookup_page (ent off m) 0 root l)) as Hsame.
  { pose proof (store_slot a m t i e Hinv Hr Hi He) as Hs. fold m' in Hs.
    intros l Hl. apply (retag _ _ _ p t i); try done; try (by rewrite Hs).
    intros. by eapply store_agree. }
  assert (forall u, reach m' u <-> reach m u) as Hreach.
  { intros u. split; intros (q & Hq & Hu); exists q; (split; [done|]);
      destruct (Hsame q (path_full q Hq)) as [Hs _]; congruence. }
  split; [|split].
  - split_and!; [by apply store_fa_inv|done| |].
    + intros q1 q2 u H1 H2. destruct (Hsame q1 (path_full q1 H1)) as [-> _].
      destruct (Hsame q2 (path_full q2 H2)) as [-> _]. by apply Htree.
    + intros u ?%Hreach. by apply Hok.
  - split_and!; [done| | | |].
    + intros q u Hq Hu. by destruct (Hsame q (path_full q Hq)) as [-> _].
    + intros l H4 Hl. apply Hsame; [split; [lia|done]|done].
    + intros u ?%Hreach. by left.
    + intros x Hx _. apply store_off_entry. by apply (on_path_entry m p).
  - destruct (Hsame (p ++ [i]) (path_full _ (path_ok_snoc _ _ Hp Hlen Hi))) as [-> _].
    rewrite follow_app, Ht. simpl. by rewrite P1, L1.
Qed.

(** *** Adding a table *)

Lemma new_table_grown a m p t i a1 f e :
  pt_inv a m -> path_ok p -> (length p <= 2)%nat -> follow (ent off m) 0 root p = Some t ->
  index_ok i -> is_u64 e -> present (ent off m t i) = false ->
  fa_inv a1 m -> fa_offset a1 = off -> f ∈ fa_free a -> fa_free a1 = fa_free a ∖ {[f]} ->
  table_ok off (f * 4096) ->
  present e = true -> leaf_at (length p) e = false -> entry_address e = f * 4096 ->
  let m' := store64 (write_bytes m (off + f * 4096) 0 PAGE_SIZE) (off + t + 8 * i) e in
  pt_inv a1 m' /\ grown (p ++ [i]) a m a1 m' /\ follow (ent off m') 0 root (p ++ [i]) = Some (f * 4096).
Proof using.
  intros Hinv Hp Hlen Ht Hi He P1 Hfa1 Ho1 Hf Hfree Hfok P2 L2 Ha m'.
  pose proof (reach_path _ _ _ Hp Ht) as Hr. pose proof Hinv as (Hfa & Ho & Htree & Hok).
  assert (forall u, reach m u -> u <> f * 4096) as Hfresh.
  { intros u Hu ->. destruct (Hok _ Hu) as [_ Hn]. by rewrite frame_div in Hn. }
  assert (forall u j, table_ok off u -> index_ok j ->
    ent off m' u j = if decide ((u, j) = (t, i)) then e else
                     if decide (u = f * 4096) then 0 else ent off m u j) as Hent.
  { intros u j ([_ Hu] & _) Hj. destruct (pt_inv_reach _ _ _ Hinv Hr) as ([_ Ht'] & _).
    destruct Hfok as ([_ Hf'] & _). unfold m'. rewrite ent_store by done. by rewrite ent_zero. }
  assert (forall l, full_path l ->
    (follow (ent off m') 0 root l = if decide (l = p ++ [i]) then Some (f * 4096)
                                    else follow (ent off m) 0 root l) /\
    (length l = 4%nat -> lookup_page (ent off m') 0 root l = lookup_page (ent off m) 0 root l)) as Hsame.
  { pose proof (Hok t Hr) as [Htok _]. intros l Hl. apply (new_table _ _ _ p t i); try done.
    - intros q u j Hq Hu Hj Hne. pose proof (reach_path _ _ _ Hq Hu) as Hu'.
      rewrite Hent by (done || by apply Hok). rewrite decide_False by done.
      by rewrite decide_False by (by apply Hfresh).
    - rewrite Hent by done. by rewrite decide_True.
    - rewrite Hent by done. by rewrite decide_True.
    - rewrite Hent by done. by rewrite decide_True.
    - intros j Hj. rewrite Hent by done.
      rewrite decide_False by (intros [= E _]; by apply (Hfresh t)). by rewrite decide_True. }
  pose proof (path_ok_snoc _ _ Hp Hlen Hi) as Hpi.
  assert (follow (ent off m) 0 root (p ++ [i]) = None) as Hnone
    by (rewrite follow_app, Ht; simpl; by rewrite P1).
  split; [|split].
  - split_and!; [|done| |].
    + apply (fa_inv_mem a1 m _ Hfa1). rewrite Ho1, Hfree. intros g x Hg Hx. unfold FRAME_SIZE in Hx.
      pose proof (Hok t Hr) as [Htok Hnt]. pose proof (table_frame t Htok).
      assert (g <> t / 4096) by (intros ->; set_solver). assert (g <> f) by set_solver.
      unfold m'. rewrite store_frame by (done || unfold in_frame; lia).
      apply write_bytes_changed. unfold PAGE_SIZE. lia.
    + intros q1 q2 u H1 H2. destruct (Hsame q1 (path_full q1 H1)) as [-> _].
      destruct (Hsame q2 (path_full q2 H2)) as [-> _].
      case_decide as D1; case_decide as D2; [by subst| | |by apply Htree].
      * intros [= <-] Hu. by destruct (Hfresh _ (reach_path _ _ _ H2 Hu)).
      * intros Hu [= <-]. by destruct (Hfresh _ (reach_path _ _ _ H1 Hu)).
    + intros u (q & Hq & Hu). rewrite (proj1 (Hsame q (path_full q Hq))) in Hu. case_decide.
      * injection Hu as <-. split; [done|]. rewrite frame_div, Hfree. set_solver.
      * destruct (Hok u (reach_path _ _ _ Hq Hu)). split; [done|]. rewrite Hfree. set_solver.
  - split_and!.
    + rewrite Hfree. set_solver.
    + intros q u Hq Hu. rewrite (proj1 (Hsame q (path_full q Hq))).
      rewrite decide_False; [done|]. intros ->. congruence.
    + intros l H4 Hl. apply Hsame; [split; [lia|done]|done].
    + intros u (q & Hq & Hu). rewrite (proj1 (Hsame q (path_full q Hq))) in Hu. case_decide.
      * injection Hu as <-. right. exists f. rewrite Hfree. split; [|done]. clear -Hf. set_solver.
      * left. by exists q.
    + intros x Hx Hfx. unfold m'. rewrite store_off_entry by (by apply (on_path_entry m p)).
      apply write_bytes_changed. specialize (Hfx f ltac:(rewrite Hfree; clear -Hf; set_solver)).
      unfold in_frame, PAGE_SIZE in *. lia.
  - rewrite (proj1 (Hsame _ (path_full _ Hpi))). by rewrite decide_True.
Qed.

(** *** [ensure_table] *)

Lemma wp_fa_expect a m :
  fa_inv a m -> fa_free a <> ∅ -> fa_offset a = off ->
  wp (fa_expect a m) (fun '(a', p) => exists f, p = f * 4096 /\ f ∈ fa_free a /\
    fa_inv a' m /\ fa_offset a' = off /\ fa_free a' = fa_free a ∖ {[f]} /\ table_ok off p).
Proof using.
  intros Hi Hne Ho. unfold fa_expect. wp_step. eapply wp_mono; [by apply fa_allocate_spec|].
  intros [a' [p|]] (Hi' & Ho' & Hr); [|by destruct Hr].
  destruct Hr as (f & -> & Hf & Hfree). wp_steps. apply (wp_expect _ _ _ eq_refl). wp_steps.
  exists f. destruct (fa_frame_bound _ _ _ Hi Hf) as (H0 & Hb & Hlo & Hhi).
  unfold FRAME_SIZE in *. rewrite Ho in *. split_and!; try done.
  split; [split; [unfold is_phys; lia|by apply Z_mod_mult]|split; [done|lia]].
Qed.

Definition no_page_at (m : mem) (p : list Z) (t i : Z) : Prop :=
  present (ent off m t i) = true -> leaf_at (length p) (ent off m t i) = false.

Lemma wp_ensure_table a m p t i (fl : F) :
  pt_inv a m -> path_ok p -> (length p <= 2)%nat -> follow (ent off m) 0 root p = Some t ->
  index_ok i -> no_page_at m p t i -> fa_free a <> ∅ ->
  wp (ensure_table off fa_expect a m t i (intermediate_flags_for fl)) (fun '(a', m', t') =>
    pt_inv a' m' /\ grown (p ++ [i]) a m a' m' /\ follow (ent off m') 0 root (p ++ [i]) = Some t' /\
    (size (fa_free a) <= S (size (fa_free a')))%nat).
Proof using.
  intros Hinv Hp Hlen Ht Hi Hnp Hne. pose proof (reach_path _ _ _ Hp Ht) as Hr.
  pose proof (pt_inv_reach _ _ _ Hinv Hr) as Htok. pose proof (ent_u64 off m t i) as Hu.
  unfold ensure_table. wp_step. apply wp_table_at; [done|]. wp_step. apply wp_get_entry; [done|].
  rewrite is_present_bit. destruct (present (ent off m t i)) eqn:P1.
  - specialize (Hnp P1). destruct (combined_bits _ fl Hu P1) as (Hc & Hc0 & Hc7).
    set (c := bf_union _ _) in *. pose proof (entry_address_ok (ent off m t i)) as Hao.
    wp_step. destruct (negb (bf_eqb c _)).
    + apply wp_set_entry; [done|]. wp_steps.
      destruct (retag_grown a m p t i (PageTableEntry_new (entry_address (ent off m t i)) c))
        as (H1 & H2 & H3); try done.
      * by apply new_entry_u64.
      * by rewrite new_entry_present.
      * unfold leaf_at in *. by rewrite new_entry_huge, Hc7.
      * by apply new_entry_address.
      * split_and!; [done|done|done|lia].
    + wp_steps. split_and!; [done|apply grown_refl| |lia].
      rewrite follow_app, Ht. simpl. by rewrite P1, Hnp.
  - destruct Hinv as (Hfa & Ho & Hrest). wp_step.
    eapply wp_mono; [by apply wp_fa_expect|]. intros [a1 f'] (f & -> & Hf & Hi1 & Ho1 & Hfree & Hfok).
    wp_steps. apply wp_page_to_virt; [done|]. wp_step. apply wp_set_entry; [done|]. wp_steps.
    destruct (intermediate_bits fl) as (Hc & Hc0 & Hc7 & _).
    destruct (new_table_grown a m p t i a1 f
      (PageTableEntry_new (f * 4096) (intermediate_flags_for fl))) as (H1 & H2 & H3);
      try done; try (by split_and!).
    + apply new_entry_u64, Hfok.
    + by rewrite new_entry_present by apply Hfok.
    + unfold leaf_at. rewrite new_entry_huge, Hc7 by apply Hfok. apply andb_false_r.
    + by apply new_entry_address; [apply Hfok|].
    + split_and!; [done|done|done|]. pose proof (size_take_out _ _ Hf) as Hs. rewrite Hfree. lia.
Qed.

(** *** Writing a page entry *)

Definition leaf_value (d : nat) (e : Z) : option mapping :=
  if present e then Some (leaf_size d, entry_address e, hw_flags e) else None.

Definition page_entry (d : nat) (e : Z) : Prop := d = 3%nat \/ present e = false \/ huge e = true.

Lemma lookup_leaf (E : entries) d t i r :
  (1 <= d)%nat -> (d + length r = 3)%nat -> page_entry d (E t i) ->
  lookup_page E d t (i :: r) = leaf_value d (E t i).
Proof using.
  intros Hd Hr He. simpl. unfold leaf_value. destruct (present (E t i)) eqn:P; [|done].
  destruct r as [|j r].
  - simpl in Hr. by replace d with 3%nat by lia.
  - simpl in Hr. destruct He as [->|[?|Hh]]; [lia|congruence|]. unfold leaf_at. rewrite Hh, andb_true_r.
    by rewrite (proj2 (Nat.ltb_lt 0 d)) by lia.
Qed.

Lemma leaf_written a m p t i e :
  pt_inv a m -> path_ok p -> (1 <= length p)%nat -> follow (ent off m) 0 root p = Some t ->
  index_ok i -> is_u64 e -> page_entry (length p) e ->
  let m' := store64 m (off + t + 8 * i) e in
  pt_inv a m' /\ (forall u, reach m' u -> reach m u) /\
  forall l, length l = 4%nat -> Forall index_ok l ->
    lookup_page (ent off m') 0 root l =
    if decide (take (S (length p)) l = p ++ [i]) then leaf_value (length p) e
    else lookup_page (ent off m) 0 root l.
Proof using.
  intros Hinv Hp Hlen Ht Hi He Hpe m'.
  pose proof (reach_path _ _ _ Hp Ht) as Hr. pose proof Hinv as (Hfa & Ho & Htree & Hok).
  pose proof (store_slot a m t i e Hinv Hr Hi He) as Hs. fold m' in Hs.
  assert (forall q u j, path_ok q -> follow (ent off m) 0 root q = Some u -> index_ok j ->
    (u, j) <> (t, i) -> ent off m' u j = ent off m u j) as Hag by (intros; by eapply store_agree).
  assert (forall q u, path_ok q -> follow (ent off m') 0 root q = Some u ->
    follow (ent off m) 0 root q = Some u) as Hsub.
  { intros q u Hq Hu. destruct (leaf_follow _ _ root p t i Htree Hp Ht Hag q Hq) as [E|E]; [|congruence..].
    rewrite Hs. destruct Hpe as [->|[->|Hh]]; [by left|by right|]. right. unfold leaf_at. rewrite Hh.
    rewrite (proj2 (Nat.ltb_lt 0 (length p))) by lia. simpl. apply andb_false_r. }
  assert (forall u, reach m' u -> reach m u) as Hsubr by (intros u (q & ? & ?); exists q; auto).
  split_and!; [|done|].
  - split_and!; [by apply store_fa_inv|done| |].
    + intros q1 q2 u H1 H2 E1 E2. apply (Htree q1 q2 u); auto.
    + intros u Hu. apply Hok. auto.
  - intros l H4 Hl. case_decide as Hd.
    + assert (l = p ++ i :: drop (S (length p)) l) as El.
      { rewrite <- (take_drop (S (length p)) l) at 1. rewrite Hd, <- app_assoc. done. }
      set (r := drop (S (length p)) l) in *. rewrite El.
      destruct (through_slot _ _ root p t i Htree Hp Ht Hag r) as [_ ->].
      rewrite El, length_app in H4. simpl in H4. rewrite lookup_leaf; [by rewrite Hs|done|lia|by rewrite Hs].
    + apply (elsewhere _ _ root p t i Htree Hp Ht Hag l); [split; [lia|done]|].
      intros r ->. apply Hd. change (p ++ i :: r) with (p ++ [i] ++ r). rewrite app_assoc.
      by rewrite take_app_length' by (rewrite length_app; simpl; lia).
Qed.

(** *** Walking down, adding tables *)

Definition at_table (a : A) (m : mem) (p : list Z) (a' : A) (m' : mem) (t : Z) : Prop :=
  pt_inv a' m' /\ grown p a m a' m' /\ follow (ent off m') 0 root p = Some t /\
  (size (fa_free a) <= length p + size (fa_free a'))%nat.

(** No page larger than those of depth [n] covers the path. *)
Definition no_larger (m : mem) (l : list Z) (n : nat) : Prop :=
  match lookup_page (ent off m) 0 root l with
  | Some (s, _, _) => SIZE s <= SIZE (leaf_size n)
  | None => True
  end.

Lemma SIZE_leaf d n : (1 <= d < n)%nat -> (n <= 3)%nat -> SIZE (leaf_size n) < SIZE (leaf_size d).
Proof using. intros Hd Hn. destruct d as [|[|[|]]], n as [|[|[|[|]]]]; try lia; done. Qed.

Lemma wp_walk_down a m p i r n a1 m1 t (fl : F) :
  at_table a m p a1 m1 t -> length (p ++ i :: r) = 4%nat -> Forall index_ok (p ++ i :: r) ->
  no_larger m (p ++ i :: r) n -> (length p < n)%nat -> (n <= 3)%nat -> (n <= size (fa_free a))%nat ->
  wp (ensure_table off fa_expect a1 m1 t i (intermediate_flags_for fl)) (fun '(a2, m2, t2) =>
    at_table a m (p ++ [i]) a2 m2 t2).
Proof using.
  intros (Hinv & Hgr & Ht & Hsz) H4 Hl Hno Hlen Hn Hfr.
  assert (path_ok p /\ index_ok i) as [Hp Hi] by (apply (full_prefix p i r); split; [lia|done]).
  eapply wp_mono; [apply (wp_ensure_table a1 m1 p t i fl Hinv Hp)|].
  - lia. - done. - done.
  - intros P. destruct (leaf_at (length p) (ent off m1 t i)) eqn:L; [exfalso|done].
    destruct Hgr as (_ & _ & Hlk & _). unfold no_larger in Hno.
    rewrite <- (Hlk _ H4 Hl), (lookup_app _ _ _ _ _ _ Ht) in Hno by done.
    simpl in Hno. rewrite P in Hno. destruct r as [|j r]; [rewrite length_app in H4; simpl in H4; lia|].
    rewrite L in Hno. unfold leaf_at in L. apply andb_prop in L as [L%Nat.ltb_lt _].
    pose proof (SIZE_leaf (length p) n ltac:(lia) Hn). lia.
  - intros E. rewrite E, size_empty in Hsz. lia.
  - intros [[a2 m2] t2] (H1 & H2 & H3 & H5). split_and!; [done| |done|rewrite length_app; simpl; lia].
    eapply grown_trans; [apply Hinv| |by apply grown_app|done].
    apply path_full, path_ok_snoc; [done|lia|done].
Qed.

(** What a mapping operation at depth [length p] does: the pages below the
    slot become the new one and every other translation is kept; only the
    entries on the way to the slot and frames that were free are written. *)
Definition mapped (a : A) (m : mem) (s : list Z) (v : option mapping) (a' : A) (m' : mem) : Prop :=
  pt_inv a' m' /\ fa_free a' ⊆ fa_free a /\ (size (fa_free a) <= 3 + size (fa_free a'))%nat /\
  (forall l, length l = 4%nat -> Forall index_ok l ->
     lookup_page (ent off m') 0 root l =
     if decide (take (length s) l = s) then v else lookup_page (ent off m) 0 root l) /\
  (forall t, reach m' t -> reach m t \/ exists f, f ∈ fa_free a ∖ fa_free a' /\ t = f * 4096) /\
  (forall x, ~ on_path m s x ->
     (forall f, f ∈ fa_free a ∖ fa_free a' -> ~ in_frame (f * 4096) x) -> m' x = m x).

Lemma wp_write_page a m p i a1 m1 t pa (fl : F) :
  at_table a m p a1 m1 t -> path_ok p -> index_ok i -> (1 <= length p)%nat -> frame_ok pa -> clean fl ->
  Z.testbit (bf_bits fl) 0 = true -> page_entry (length p) (PageTableEntry_new pa fl) ->
  wp (pt ← table_at off t; m ← set_entry m1 pt i (PageTableEntry_new pa fl); Ret (a1, m))
    (fun '(a', m') =>
       mapped a m (p ++ [i]) (Some (leaf_size (length p), pa, Z.land (bf_bits fl) PTF_ALL)) a' m').
Proof using.
  intros (Hinv & Hgr & Ht & Hsz) Hp Hi Hlen Hpa Hcl Hpr Hpe. pose proof Hgr as (G1 & G2 & G3 & G4 & G5).
  pose proof (reach_path _ _ _ Hp Ht) as Hr. pose proof (pt_inv_reach _ _ _ Hinv Hr) as Htok.
  wp_step. apply wp_table_at; [done|]. wp_step. apply wp_set_entry; [done|]. wp_steps.
  destruct (leaf_written a1 m1 p t i (PageTableEntry_new pa fl)) as (H1 & H2 & H3); try done.
  { by apply new_entry_u64. }
  split_and!; [done|done|destruct Hp; lia| | |].
  - intros l H4 Hl. rewrite H3, G3 by done. rewrite length_app, Nat.add_1_r. case_decide; [|done].
    unfold leaf_value. by rewrite new_entry_present, Hpr, new_entry_address, new_entry_flags.
  - intros u Hu. apply G4, H2, Hu.
  - intros x Hx Hf. rewrite store_off_entry, G5; [done|by intros H; apply Hx, on_path_app|done|].
    destruct (path_back _ _ _ _ _ p t Hgr (proj1 (proj2 (proj2 Hinv))) Hp Ht) as [Ht'|(f & Hff & ->)].
    + by apply (on_path_entry m p).
    + specialize (Hf f Hff). unfold in_frame, index_ok in *. lia.
Qed.

(** *** Virtual addresses *)

Definition va_path (v : Z) : list Z :=
  [VirtAddr_pml4_index v; VirtAddr_pdpt_index v; VirtAddr_pd_index v; VirtAddr_pt_index v].

Lemma index_range v k : index_ok (PageTableIndex_new_truncate (as_u16 (Z.shiftr v k))).
Proof using.
  unfold as_u16, index_ok. rewrite PageTableIndex_truncate_eq by (apply Z.mod_pos_bound; lia).
  apply Z.mod_pos_bound. lia.
Qed.

Lemma va_path_ok v : length (va_path v) = 4%nat /\ Forall index_ok (va_path v).
Proof using. split; [done|]. repeat (constructor; [apply index_range|]). constructor. Qed.

(** The page a virtual address is mapped to. *)
Definition page_of (m : mem) (v : Z) : option mapping := lookup_page (ent off m) 0 root (va_path v).

Lemma page_path v : path_ok [] /\ path_ok [VirtAddr_pml4_index v] /\
  path_ok [VirtAddr_pml4_index v; VirtAddr_pdpt_index v] /\
  path_ok [VirtAddr_pml4_index v; VirtAddr_pdpt_index v; VirtAddr_pd_index v].
Proof using.
  assert (forall l, (length l <= 3)%nat -> (exists r, va_path v = l ++ r) -> path_ok l) as H.
  { intros l Hl [r Hr]. split; [done|]. destruct (va_path_ok v) as [_ Hv]. rewrite Hr in Hv.
    by apply Forall_app in Hv as [? _]. }
  split_and!; apply H; try (simpl; lia); eexists; done.
Qed.

Lemma at_root a m : pt_inv a m -> at_table a m [] a m root.
Proof using. intros Hinv. split_and!; [done|apply grown_refl|done|simpl; lia]. Qed.

Lemma wp_map_4k a m v pa (fl : F) :
  pt_inv a m -> (3 <= size (fa_free a))%nat -> frame_ok pa -> clean fl ->
  Z.testbit (bf_bits fl) 0 = true -> no_larger m (va_path v) 3 ->
  wp (map_4k off fa_expect a m root v pa fl) (fun '(a', m') =>
    mapped a m (va_path v) (Some (Size4KiB, pa, Z.land (bf_bits fl) PTF_ALL)) a' m').
Proof using.
  intros Hinv Hsz Hpa Hcl Hpr Hno. destruct (va_path_ok v) as [H4 Hl].
  destruct (page_path v) as (_ & _ & _ & Hp3).
  unfold map_4k. wp_step. change 4096 with (2 ^ 12). apply wp_is_aligned; [lia|].
  change (2 ^ 12) with 4096. rewrite (proj2 Hpa). wp_step. wp_step. wp_step.
  eapply wp_mono; [apply (wp_walk_down a m [] _ (tail (va_path v)) 3); try done; [by apply at_root|simpl; lia]|].
  intros [[a1 m1] t1] H1. wp_step.
  eapply wp_mono; [apply (wp_walk_down a m _ _ (tail (tail (va_path v))) 3 _ _ _ _ H1); try done; simpl; lia|].
  intros [[a2 m2] t2] H2. wp_step.
  eapply wp_mono; [apply (wp_walk_down a m _ _ [VirtAddr_pt_index v] 3 _ _ _ _ H2); try done; simpl; lia|].
  intros [[a3 m3] t3] H3.
  apply (wp_write_page a m _ _ a3 m3 t3 pa fl H3); try done; [apply index_range|simpl; lia|by left].
Qed.

Lemma huge_flags (fl : F) :
  clean fl -> Z.testbit (bf_bits fl) 0 = true ->
  let g := bf_union fl PTF_HUGE_PAGE in
  clean g /\ Z.testbit (bf_bits g) 0 = true /\ Z.testbit (bf_bits g) 7 = true.
Proof using.
  intros Hc Hp g. unfold g, PTF_HUGE_PAGE. rewrite !union_bit, !retain_bit, Hp by lia.
  split_and!; [|done|by rewrite orb_true_r]. apply clean_bits. intros i Hi.
  rewrite union_bit, retain_bit, bit_mask_testbit, (clean_bit fl) by (done || lia). simpl.
  apply Z.eqb_neq. lia.
Qed.

Lemma frame_ok_aligned pa k : 12 <= k -> is_phys pa -> pa mod 2 ^ k = 0 -> frame_ok pa.
Proof using.
  intros Hk Hp Hm. split; [done|]. apply Z.mod_divide in Hm as [q ->]; [|apply Z.pow_nonzero; lia].
  replace k with (k - 12 + 12) by lia. rewrite Z.pow_add_r by lia. rewrite Z.mul_assoc.
  by apply Z_mod_mult.
Qed.

Lemma wp_map_2mib a m v pa (fl : F) :
  pt_inv a m -> (2 <= size (fa_free a))%nat -> is_phys pa -> pa mod 2 ^ 21 = 0 -> clean fl ->
  Z.testbit (bf_bits fl) 0 = true -> no_larger m (va_path v) 2 ->
  wp (map_2mib off fa_expect a m root v pa fl) (fun '(a', m') =>
    mapped a m (take 3 (va_path v))
      (Some (Size2MiB, pa, Z.land (Z.lor (bf_bits fl) (2 ^ 7)) PTF_ALL)) a' m').
Proof using.
  intros Hinv Hsz Hpa Hal Hcl Hpr Hno. destruct (va_path_ok v) as [H4 Hl].
  destruct (page_path v) as (_ & _ & Hp2 & _). destruct (huge_flags fl Hcl Hpr) as (G1 & G2 & G3).
  pose proof (frame_ok_aligned pa 21 ltac:(lia) Hpa Hal) as Hfr.
  unfold map_2mib. wp_step. change 0x200000 with (2 ^ 21). apply wp_is_aligned; [lia|].
  rewrite Hal. wp_step. wp_step. wp_step.
  eapply wp_mono; [apply (wp_walk_down a m [] _ (tail (va_path v)) 2); try done;
    [by apply at_root|simpl; lia|lia]|].
  intros [[a1 m1] t1] H1. wp_step.
  eapply wp_mono; [apply (wp_walk_down a m _ _ (tail (tail (va_path v))) 2 _ _ _ _ H1); try done; simpl; lia|].
  intros [[a2 m2] t2] H2.
  pose proof (bf_union_bits fl PTF_HUGE_PAGE) as Hb. unfold PTF_HUGE_PAGE in Hb at 2.
  rewrite retain_bit in Hb by lia. change (Z.shiftl 1 7) with (2 ^ 7) in Hb. rewrite <- Hb.
  apply (wp_write_page a m _ _ a2 m2 t2 pa _ H2); try done; [apply index_range|simpl; lia|].
  right. right. by rewrite new_entry_huge.
Qed.

Lemma wp_map_1gib a m v pa (fl : F) :
  pt_inv a m -> (1 <= size (fa_free a))%nat -> is_phys pa -> pa mod 2 ^ 30 = 0 -> clean fl ->
  Z.testbit (bf_bits fl) 0 = true ->
  wp (map_1gib off fa_expect a m root v pa fl) (fun '(a', m') =>
    mapped a m (take 2 (va_path v))
      (Some (Size1GiB, pa, Z.land (Z.lor (bf_bits fl) (2 ^ 7)) PTF_ALL)) a' m').
Proof using.
  intros Hinv Hsz Hpa Hal Hcl Hpr. destruct (va_path_ok v) as [H4 Hl].
  destruct (page_path v) as (_ & Hp1 & _). destruct (huge_flags fl Hcl Hpr) as (G1 & G2 & G3).
  pose proof (frame_ok_aligned pa 30 ltac:(lia) Hpa Hal) as Hfr.
  unfold map_1gib. wp_step. change 0x40000000 with (2 ^ 30). apply wp_is_aligned; [lia|].
  rewrite Hal. wp_step. wp_step. wp_step.
  eapply wp_mono; [apply (wp_walk_down a m [] _ (tail (va_path v)) 1); try done;
    [by apply at_root| |simpl; lia..]|].
  { unfold no_larger. destruct (lookup_page _ _ _ _) as [[[[] ?] ?]|]; simpl; lia. }
  intros [[a1 m1] t1] H1.
  pose proof (bf_union_bits fl PTF_HUGE_PAGE) as Hb. unfold PTF_HUGE_PAGE in Hb at 2.
  rewrite retain_bit in Hb by lia. change (Z.shiftl 1 7) with (2 ^ 7) in Hb. rewrite <- Hb.
  apply (wp_write_page a m _ _ a1 m1 t1 pa _ H1); try done; [apply index_range|].
  right. right. by rewrite new_entry_huge.
Qed.

(** *** Reading walks *)

Lemma next_table a m p t i :
  pt_inv a m -> path_ok (p ++ [i]) -> follow (ent off m) 0 root p = Some t ->
  present (ent off m t i) = true -> leaf_at (length p) (ent off m t i) = false ->
  follow (ent off m) 0 root (p ++ [i]) = Some (entry_address (ent off m t i)) /\
  table_ok off (entry_address (ent off m t i)).
Proof using.
  intros Hinv Hp Ht P L.
  assert (follow (ent off m) 0 root (p ++ [i]) = Some (entry_address (ent off m t i))) as Hn
    by (rewrite follow_app, Ht; simpl; by rewrite P, L).
  split; [done|]. eapply pt_inv_reach; [done|]. by eapply reach_path.
Qed.

(** Where the walk of [v] ends, level by level: the table and entry of each
    level, and the page it finds. *)
Inductive walk (m : mem) (v : Z) : Prop :=
| walk_1 : present (ent off m root (VirtAddr_pml4_index v)) = false -> page_of m v = None -> walk m v
| walk_2 t2 :
    present (ent off m root (VirtAddr_pml4_index v)) = true ->
    entry_address (ent off m root (VirtAddr_pml4_index v)) = t2 ->
    follow (ent off m) 0 root (take 1 (va_path v)) = Some t2 -> table_ok off t2 ->
    present (ent off m t2 (VirtAddr_pdpt_index v)) = false \/ huge (ent off m t2 (VirtAddr_pdpt_index v)) = true ->
    page_of m v = leaf_value 1 (ent off m t2 (VirtAddr_pdpt_index v)) -> walk m v
| walk_3 t2 t3 :
    present (ent off m root (VirtAddr_pml4_index v)) = true ->
    entry_address (ent off m root (VirtAddr_pml4_index v)) = t2 -> table_ok off t2 ->
    present (ent off m t2 (VirtAddr_pdpt_index v)) = true ->
    huge (ent off m t2 (VirtAddr_pdpt_index v)) = false ->
    entry_address (ent off m t2 (VirtAddr_pdpt_index v)) = t3 -> table_ok off t3 ->
    follow (ent off m) 0 root (take 2 (va_path v)) = Some t3 ->
    present (ent off m t3 (VirtAddr_pd_index v)) = false \/ huge (ent off m t3 (VirtAddr_pd_index v)) = true ->
    page_of m v = leaf_value 2 (ent off m t3 (VirtAddr_pd_index v)) -> walk m v
| walk_4 t2 t3 t4 :
    present (ent off m root (VirtAddr_pml4_index v)) = true ->
    entry_address (ent off m root (VirtAddr_pml4_index v)) = t2 -> table_ok off t2 ->
    present (ent off m t2 (VirtAddr_pdpt_index v)) = true ->
    huge (ent off m t2 (VirtAddr_pdpt_index v)) = false ->
    entry_address (ent off m t2 (VirtAddr_pdpt_index v)) = t3 -> table_ok off t3 ->
    present (ent off m t3 (VirtAddr_pd_index v)) = true ->
    huge (ent off m t3 (VirtAddr_pd_index v)) = false ->
    entry_address (ent off m t3 (VirtAddr_pd_index v)) = t4 -> table_ok off t4 ->
    follow (ent off m) 0 root (take 3 (va_path v)) = Some t4 ->
    page_of m v = leaf_value 3 (ent off m t4 (VirtAddr_pt_index v)) -> walk m v.

Lemma walk_cases a m v : pt_inv a m -> walk m v.
Proof using.
  intros Hinv. destruct (page_path v) as (Hp0 & Hp1 & Hp2 & Hp3).
  assert (follow (ent off m) 0 root [] = Some root) as F0 by done.
  destruct (present (ent off m root (VirtAddr_pml4_index v))) eqn:P1.
  2: { apply walk_1; [done|]. unfold page_of. simpl. by rewrite P1. }
  destruct (next_table a m [] root (VirtAddr_pml4_index v) Hinv Hp1 F0 P1 eq_refl) as [F1 T1].
  set (t2 := entry_address (ent off m root (VirtAddr_pml4_index v))) in *.
  assert (page_of m v = lookup_page (ent off m) 1 t2 (tail (va_path v))) as L1
    by exact (lookup_app _ 0 root t2 _ (tail (va_path v)) F1 ltac:(done)).
  destruct (present (ent off m t2 (VirtAddr_pdpt_index v))) eqn:P2,
    (huge (ent off m t2 (VirtAddr_pdpt_index v))) eqn:U2;
    try (eapply (walk_2 m v t2); try done; [by auto|]; rewrite L1; apply lookup_leaf; [lia|done|];
         unfold page_entry; auto).
  destruct (next_table a m [VirtAddr_pml4_index v] t2 (VirtAddr_pdpt_index v) Hinv Hp2 F1 P2 U2) as [F2 T2].
  set (t3 := entry_address (ent off m t2 (VirtAddr_pdpt_index v))) in *.
  assert (page_of m v = lookup_page (ent off m) 2 t3 (tail (tail (va_path v)))) as L2
    by exact (lookup_app _ 0 root t3 _ (tail (tail (va_path v))) F2 ltac:(done)).
  destruct (present (ent off m t3 (VirtAddr_pd_index v))) eqn:P3,
    (huge (ent off m t3 (VirtAddr_pd_index v))) eqn:U3;
    try (eapply (walk_3 m v t2 t3); try done; [by auto|]; rewrite L2; apply lookup_leaf; [lia|done|];
         unfold page_entry; auto).
  destruct (next_table a m (take 2 (va_path v)) t3 (VirtAddr_pd_index v) Hinv Hp3 F2 P3 U3) as [F3 T3].
  eapply (walk_4 m v t2 t3); try done.
  rewrite (lookup_app _ 0 root _ _ [VirtAddr_pt_index v] F3 ltac:(done) : page_of m v = _).
  apply lookup_leaf; [simpl; lia|done|by left].
Qed.

Lemma leaf_mapped a m p t i e :
  pt_inv a m -> path_ok p -> (1 <= length p)%nat -> follow (ent off m) 0 root p = Some t ->
  index_ok i -> is_u64 e -> page_entry (length p) e ->
  mapped a m (p ++ [i]) (leaf_value (length p) e) a (store64 m (off + t + 8 * i) e).
Proof using.
  intros Hinv Hp Hlen Ht Hi He Hpe.
  destruct (leaf_written a m p t i e) as (H1 & H2 & H3); try done. split_and!; [done|done|lia| | |].
  - intros l H4 Hl. rewrite H3, length_app, Nat.add_1_r by done. done.
  - intros u Hu. left. auto.
  - intros x Hx _. apply store_off_entry. by apply (on_path_entry m p).
Qed.

Lemma root_ok a m : pt_inv a m -> table_ok off root.
Proof using. intros Hinv. apply (pt_inv_reach a m); [done|].
  exists []. split; [|done]. apply (page_path 0). Qed.

Definition view_of (r : TranslateResult F) : option mapping :=
  match r with
  | Page4KiB f fl => Some (Size4KiB, f, bf_bits fl)
  | Page2MiB p fl => Some (Size2MiB, p, bf_bits fl)
  | Page1GiB p fl => Some (Size1GiB, p, bf_bits fl)
  | TNotMapped => None
  end.

Lemma wp_frame_of S pa (Q : Z -> Prop) :
  is_phys pa -> Q (SIZE S * (pa / SIZE S)) -> wp (PhysFrame_containing_address S pa) Q.
Proof using.
  intros Hp HQ. unfold PhysFrame_containing_address, PhysAddr_align_down.
  assert (exists k, 0 <= k <= 30 /\ SIZE S = 2 ^ k) as (k & Hk & HS)
    by (destruct S; [exists 12|exists 21|exists 30]; done).
  rewrite HS in *. assert (0 < 2 ^ k) by (apply Z.pow_pos_nonneg; lia).
  wp_step. apply wp_assert; [apply is_power_of_two_pow; lia|]. wp_steps.
  rewrite land_not_mask; [done| |lia]. unfold is_phys in Hp. ulia.
Qed.

Lemma page_frame_id e : 4096 * (entry_address e / 4096) = entry_address e.
Proof using. destruct (entry_address_ok e) as [_ H]. pose proof (Z_div_mod_eq_full (entry_address e) 4096). lia. Qed.
End Spec.

(** One level of a reading walk. *)
Ltac walk_level :=
  wp_step; apply wp_table_at; [done|]; wp_step; apply wp_get_entry; [apply index_range|];
  rewrite ?is_present_bit, ?is_huge_bit by apply ent_u64;
  repeat match goal with
  | H : present ?e = _ |- context [present ?e] => rewrite H
  | H : huge ?e = _ |- context [huge ?e] => rewrite H
  | H : entry_address ?e = _ |- context [entry_address ?e] => rewrite H
  end; cbn [negb].

(** The last level: is the entry present? *)
Ltac last_level :=
  unfold leaf_value;
  lazymatch goal with
  | |- context [negb (present ?e)] => destruct (present e) eqn:P
  end; cbn [negb].

Section Walks.
Context {F : Type} `{BF : BitFlags PTF_ALL F}.
Context {A : Type} `{FA : FrameAllocator A} (off root : Z).

Lemma wp_translate (a : A) m v :
  pt_inv off root a m -> wp (translate off m root v) (fun r => view_of r = page_of off root m v).
Proof using.
  intros Hinv. pose proof (root_ok _ _ _ _ Hinv) as Hroot. unfold translate.
  destruct (walk_cases _ _ _ _ v Hinv) as
    [P1 ->|t2 P1 A2 F2 T2 Hend ->|t2 t3 P1 A2 T2 P2 U2 A3 T3 F3 Hend ->
    |t2 t3 t4 P1 A2 T2 P2 U2 A3 T3 P3 U3 A4 T4 F4 ->];
    walk_level; [by wp_steps|..]; walk_level; [|walk_level|walk_level; walk_level];
    (last_level; [|by wp_steps]).
  - destruct Hend as [?|Hh]; [congruence|]. rewrite Hh. wp_steps. simpl. by rewrite entry_flags_bits by apply ent_u64.
  - destruct Hend as [?|Hh]; [congruence|]. rewrite Hh. wp_steps. simpl. by rewrite entry_flags_bits by apply ent_u64.
  - wp_step. apply wp_frame_of; [apply entry_address_ok|]. wp_steps. simpl.
    by rewrite page_frame_id, entry_flags_bits by apply ent_u64.
Qed.

(** What an unmapping of size [S] does. *)
Definition unmapped (S : PageSize) (a : A) m v (s : list Z) m' (r : result Z ArchUnmapError) : Prop :=
  match r with
  | Ok f => exists pa fl, page_of off root m v = Some (S, pa, fl) /\ f = SIZE S * (pa / SIZE S) /\
      mapped off root a m s None a m'
  | Err ArchNotMapped => page_of off root m v = None /\ m' = m
  | Err ArchHugePage => (forall pa fl, page_of off root m v <> Some (S, pa, fl)) /\
      (S = Size4KiB -> page_of off root m v <> None) /\ m' = m
  end.

Lemma wp_unmap_4k (a : A) m v :
  pt_inv off root a m ->
  wp (unmap_4k off m root v) (fun '(m', r) => unmapped Size4KiB a m v (va_path v) m' r).
Proof using.
  intros Hinv. pose proof (root_ok _ _ _ _ Hinv) as Hroot. unfold unmap_4k, unmapped.
  destruct (walk_cases _ _ _ _ v Hinv) as
    [P1 ->|t2 P1 A2 F2 T2 Hend ->|t2 t3 P1 A2 T2 P2 U2 A3 T3 F3 Hend ->
    |t2 t3 t4 P1 A2 T2 P2 U2 A3 T3 P3 U3 A4 T4 F4 ->];
    walk_level; [by wp_steps|..]; walk_level; [|walk_level|walk_level; walk_level];
    (last_level; [|by wp_steps]).
  - destruct Hend as [?|Hh]; [congruence|]. rewrite Hh. by wp_steps.
  - destruct Hend as [?|Hh]; [congruence|]. rewrite Hh. by wp_steps.
  - wp_step. apply wp_frame_of; [apply entry_address_ok|]. wp_step.
    apply wp_set_entry; [apply index_range|]. wp_steps. eexists _, _. split_and!; [done|done|].
    apply (leaf_mapped off root a m _ _ _ 0 Hinv (proj2 (proj2 (proj2 (page_path v)))));
      [simpl; lia|done|apply index_range|ulia|by left].
Qed.

(** What a change of the flags of a page of size [S] does. *)
Definition reflagged (S : PageSize) (a : A) m v (s : list Z) (fl : Z) m'
    (r : result unit ArchUnmapError) : Prop :=
  match r with
  | Ok _ => exists pa fl0, page_of off root m v = Some (S, pa, fl0) /\
      mapped off root a m s (Some (S, pa, fl)) a m'
  | Err ArchNotMapped => page_of off root m v = None /\ m' = m
  | Err ArchHugePage => (forall pa fl, page_of off root m v <> Some (S, pa, fl)) /\
      (S = Size4KiB -> page_of off root m v <> None) /\ m' = m
  end.

Lemma leaf_new (d : nat) e (fl : F) :
  clean fl -> Z.testbit (bf_bits fl) 0 = true ->
  leaf_value d (PageTableEntry_new (entry_address e) fl) =
  Some (leaf_size d, entry_address e, Z.land (bf_bits fl) PTF_ALL).
Proof using.
  intros Hc Hp. pose proof (entry_address_ok e) as He. unfold leaf_value.
  by rewrite new_entry_present, Hp, new_entry_address, new_entry_flags.
Qed.

Lemma wp_update_flags_4k (a : A) m v (fl : F) :
  pt_inv off root a m -> clean fl -> Z.testbit (bf_bits fl) 0 = true ->
  wp (update_flags_4k off m root v fl) (fun '(m', r) =>
    reflagged Size4KiB a m v (va_path v) (Z.land (bf_bits fl) PTF_ALL) m' r).
Proof using.
  intros Hinv Hcl Hpr. pose proof (root_ok _ _ _ _ Hinv) as Hroot. unfold update_flags_4k, reflagged.
  destruct (walk_cases _ _ _ _ v Hinv) as
    [P1 ->|t2 P1 A2 F2 T2 Hend ->|t2 t3 P1 A2 T2 P2 U2 A3 T3 F3 Hend ->
    |t2 t3 t4 P1 A2 T2 P2 U2 A3 T3 P3 U3 A4 T4 F4 Hpg];
    walk_level; [by wp_steps|..]; walk_level; [|walk_level|walk_level; walk_level; rewrite Hpg];
    (last_level; [|by wp_steps]).
  - destruct Hend as [?|Hh]; [congruence|]. rewrite Hh. by wp_steps.
  - destruct Hend as [?|Hh]; [congruence|]. rewrite Hh. by wp_steps.
  - wp_step. apply wp_set_entry; [apply index_range|]. wp_steps. eexists _, _. split; [done|].
    rewrite <- (leaf_new 3) by done.
    apply (leaf_mapped off root a m _ _ _ _ Hinv (proj2 (proj2 (proj2 (page_path v)))));
      [simpl; lia|done|apply index_range|apply new_entry_u64, entry_address_ok|by left].
Qed.

Lemma huge_bits (fl : F) :
  bf_bits (bf_union fl PTF_HUGE_PAGE) = Z.lor (bf_bits fl) (2 ^ 7).
Proof using. unfold PTF_HUGE_PAGE. by rewrite bf_union_bits, retain_bit by lia. Qed.

Lemma leaf_not d e S pa fl : S <> leaf_size d -> leaf_value d e <> Some (S, pa, fl).
Proof using. intros HS. unfold leaf_value. destruct (present e); [|done]. congruence. Qed.

Lemma wp_unmap_2mib (a : A) m v :
  pt_inv off root a m ->
  wp (unmap_2mib off m root v) (fun '(m', r) =>
    unmapped Size2MiB a m v (take 3 (va_path v)) m' r).
Proof using.
  intros Hinv. pose proof (root_ok _ _ _ _ Hinv) as Hroot. unfold unmap_2mib, unmapped.
  destruct (walk_cases _ _ _ _ v Hinv) as
    [P1 ->|t2 P1 A2 F2 T2 Hend ->|t2 t3 P1 A2 T2 P2 U2 A3 T3 F3 Hend Hpg
    |t2 t3 t4 P1 A2 T2 P2 U2 A3 T3 P3 U3 A4 T4 F4 Hpg];
    walk_level; [by wp_steps|..]; walk_level; [|walk_level|walk_level].
  - last_level; [|by wp_steps]. destruct Hend as [?|Hh]; [congruence|]. rewrite Hh. by wp_steps.
  - rewrite Hpg. last_level; [|by wp_steps]. destruct Hend as [?|Hh]; [congruence|]. rewrite Hh. cbn [negb].
    wp_step. apply wp_frame_of; [apply entry_address_ok|]. wp_step.
    apply wp_set_entry; [apply index_range|]. wp_steps. eexists _, _. split_and!; [done|done|].
    apply (leaf_mapped off root a m (take 2 (va_path v)) _ _ 0 Hinv (proj1 (proj2 (proj2 (page_path v)))));
      [simpl; lia|done|apply index_range|ulia|by right; left].
  - wp_steps. rewrite Hpg. split_and!; [|done|done]. intros. by apply leaf_not.
Qed.

Lemma wp_update_flags_2mib (a : A) m v (fl : F) :
  pt_inv off root a m -> clean fl -> Z.testbit (bf_bits fl) 0 = true ->
  wp (update_flags_2mib off m root v fl) (fun '(m', r) =>
    reflagged Size2MiB a m v (take 3 (va_path v)) (Z.land (Z.lor (bf_bits fl) (2 ^ 7)) PTF_ALL) m' r).
Proof using.
  intros Hinv Hcl Hpr. pose proof (root_ok _ _ _ _ Hinv) as Hroot. unfold update_flags_2mib, reflagged.
  destruct (walk_cases _ _ _ _ v Hinv) as
    [P1 ->|t2 P1 A2 F2 T2 Hend ->|t2 t3 P1 A2 T2 P2 U2 A3 T3 F3 Hend Hpg
    |t2 t3 t4 P1 A2 T2 P2 U2 A3 T3 P3 U3 A4 T4 F4 Hpg];
    walk_level; [by wp_steps|..]; walk_level; [|walk_level|walk_level].
  - last_level; [|by wp_steps]. destruct Hend as [?|Hh]; [congruence|]. rewrite Hh. by wp_steps.
  - rewrite Hpg. last_level; [|by wp_steps]. destruct Hend as [?|Hh]; [congruence|]. rewrite Hh. cbn [negb].
    destruct (huge_flags fl Hcl Hpr) as (G1 & G2 & G3).
    wp_step. apply wp_set_entry; [apply index_range|]. wp_steps. eexists _, _. split; [done|].
    rewrite <- huge_bits, <- (leaf_new 2) by done. pose proof (entry_address_ok (ent off m t3 (VirtAddr_pd_index v))).
    apply (leaf_mapped off root a m (take 2 (va_path v)) _ _ _ Hinv (proj1 (proj2 (proj2 (page_path v)))));
      [simpl; lia|done|apply index_range|by apply new_entry_u64|right; right; by rewrite new_entry_huge].
  - wp_steps. rewrite Hpg. split_and!; [|done|done]. intros. by apply leaf_not.
Qed.

Lemma wp_unmap_1gib (a : A) m v :
  pt_inv off root a m ->
  wp (unmap_1gib off m root v) (fun '(m', r) =>
    unmapped Size1GiB a m v (take 2 (va_path v)) m' r).
Proof using.
  intros Hinv. pose proof (root_ok _ _ _ _ Hinv) as Hroot. unfold unmap_1gib, unmapped.
  destruct (walk_cases _ _ _ _ v Hinv) as
    [P1 ->|t2 P1 A2 F2 T2 Hend ->|t2 t3 P1 A2 T2 P2 U2 A3 T3 F3 Hend Hpg
    |t2 t3 t4 P1 A2 T2 P2 U2 A3 T3 P3 U3 A4 T4 F4 Hpg];
    walk_level; [by wp_steps|..]; walk_level.
  - last_level; [|by wp_steps]. destruct Hend as [?|Hh]; [congruence|]. rewrite Hh. cbn [negb].
    wp_step. apply wp_frame_of; [apply entry_address_ok|]. wp_step.
    apply wp_set_entry; [apply index_range|]. wp_steps. eexists _, _. split_and!; [done|done|].
    apply (leaf_mapped off root a m (take 1 (va_path v)) _ _ 0 Hinv (proj1 (proj2 (page_path v))));
      [simpl; lia|done|apply index_range|ulia|by right; left].
  - wp_steps. rewrite Hpg. split_and!; [|done|done]. intros. by apply leaf_not.
  - wp_steps. rewrite Hpg. split_and!; [|done|done]. intros. by apply leaf_not.
Qed.

Lemma wp_update_flags_1gib (a : A) m v (fl : F) :
  pt_inv off root a m -> clean fl -> Z.testbit (bf_bits fl) 0 = true ->
  wp (update_flags_1gib off m root v fl) (fun '(m', r) =>
    reflagged Size1GiB a m v (take 2 (va_path v)) (Z.land (Z.lor (bf_bits fl) (2 ^ 7)) PTF_ALL) m' r).
Proof using.
  intros Hinv Hcl Hpr. pose proof (root_ok _ _ _ _ Hinv) as Hroot. unfold update_flags_1gib, reflagged.
  destruct (walk_cases _ _ _ _ v Hinv) as
    [P1 ->|t2 P1 A2 F2 T2 Hend ->|t2 t3 P1 A2 T2 P2 U2 A3 T3 F3 Hend Hpg
    |t2 t3 t4 P1 A2 T2 P2 U2 A3 T3 P3 U3 A4 T4 F4 Hpg];
    walk_level; [by wp_steps|..]; walk_level.
  - last_level; [|by wp_steps]. destruct Hend as [?|Hh]; [congruence|]. rewrite Hh. cbn [negb].
    destruct (huge_flags fl Hcl Hpr) as (G1 & G2 & G3).
    wp_step. apply wp_set_entry; [apply index_range|]. wp_steps. eexists _, _. split; [done|].
    rewrite <- huge_bits, <- (leaf_new 1) by done. pose proof (entry_address_ok (ent off m t2 (VirtAddr_pdpt_index v))).
    apply (leaf_mapped off root a m (take 1 (va_path v)) _ _ _ Hinv (proj1 (proj2 (page_path v))));
      [simpl; lia|done|apply index_range|by apply new_entry_u64|right; right; by rewrite new_entry_huge].
  - wp_steps. rewrite Hpg. split_and!; [|done|done]. intros. by apply leaf_not.
  - wp_steps. rewrite Hpg. split_and!; [|done|done]. intros. by apply leaf_not.
Qed.
End Walks.
