(* ===== verification/PageMap.v ===== *)
(** * Address spaces

    The abstract view of the page tables, a map from virtual addresses to
    pages, and the refinement: every operation of the x86_64 [PageMapper]
    implementations changes that map, and nothing else, the way its
    documentation says. *)

From S2P Require Import Prelude Mem Addr Paging Layout Std Extern Region Pmm PageTable PageWalk PageTableSpec.
Lemma div_step v k : 0 <= k -> v / 2 ^ (k + 9) = v / 2 ^ k / 512.
Proof. intros Hk. rewrite Z.pow_add_r by lia. rewrite Z.div_div; [done|apply Z.pow_nonzero; lia|lia]. Qed.

Definition slot_len (S : PageSize) : nat := match S with Size4KiB => 4 | Size2MiB => 3 | Size1GiB => 2 end.

Lemma canonical_top v w :
  canonical v -> canonical w -> v / 2 ^ 39 mod 512 = w / 2 ^ 39 mod 512 -> v / 2 ^ 39 = w / 2 ^ 39.
Proof.
  unfold canonical, U64. intros Hv Hw H.
  assert (forall x, canonical x -> 0 <= x / 2 ^ 39 < 2 ^ 8 \/ 2 ^ 25 - 2 ^ 8 <= x / 2 ^ 39 < 2 ^ 25) as Hb.
  { intros x Hx. unfold canonical, U64 in Hx. Z.to_euclidean_division_equations; lia. }
  pose proof (Hb v Hv). pose proof (Hb w Hw). Z.to_euclidean_division_equations; lia.
Qed.

Lemma digit_eq x y : x = y <-> x / 512 = y / 512 /\ x mod 512 = y mod 512.
Proof. split; [by intros ->|]. intros [H1 H2]. rewrite (Z_div_mod_eq_full x 512), (Z_div_mod_eq_full y 512). lia. Qed.

Lemma same_page S v w :
  canonical v -> canonical w ->
  take (slot_len S) (va_path v) = take (slot_len S) (va_path w) <-> v / SIZE S = w / SIZE S.
Proof.
  intros Hv Hw. pose proof (canonical_u64 _ Hv) as [? _]. pose proof (canonical_u64 _ Hw) as [? _].
  assert (v / 2 ^ 39 = w / 2 ^ 39 <-> v / 2 ^ 39 mod 512 = w / 2 ^ 39 mod 512) as H4
    by (split; [by intros ->|by apply canonical_top]).
  pose proof (digit_eq (v / 2 ^ 30) (w / 2 ^ 30)) as H3. rewrite <- !(div_step _ 30) in H3 by lia.
  pose proof (digit_eq (v / 2 ^ 21) (w / 2 ^ 21)) as H2. rewrite <- !(div_step _ 21) in H2 by lia.
  pose proof (digit_eq (v / 2 ^ 12) (w / 2 ^ 12)) as H1. rewrite <- !(div_step _ 12) in H1 by lia.
  unfold va_path. rewrite !pml4_index_eq, !pdpt_index_eq, !pd_index_eq, !pt_index_eq by done.
  change (30 + 9) with 39 in *. change (21 + 9) with 30 in *. change (12 + 9) with 21 in *.
  destruct S; cbn [slot_len take]; [change (SIZE Size4KiB) with (2 ^ 12)|change (SIZE Size2MiB) with (2 ^ 21)|
    change (SIZE Size1GiB) with (2 ^ 30)]; rewrite ?H1, ?H2, ?H3, ?H4; clear;
    (split; [intros [=]; tauto|intros H; destruct_and?; congruence]).
Qed.

(** ** Flags *)

Section Native.
Context {F : Type} `{BF : BitFlags PTF_ALL F}.
Context {G : Type} `{BG : BitFlags MF_ALL G}.

Lemma map_contains_bit (g : G) n :
  0 <= n < 64 -> bf_contains g (bf_from_bits_retain (Z.shiftl 1 n)) = Z.testbit (bf_bits g) n.
Proof using.
  intros Hn. rewrite bf_contains_spec, bf_retain_bits by (by apply bit_mask_u64). apply land_bit_full. lia.
Qed.

(** The bits of [map_flags_to_native], one for each flag. *)
Definition native_bits (g : Z) : Z :=
  let w := Z.testbit g 5 in
  let bit (b : bool) n := if b then Z.shiftl 1 n else 0 in
  Z.lor 1 (Z.lor (bit (Z.testbit g 0) 1) (Z.lor (bit (negb (Z.testbit g 1)) 63)
    (Z.lor (bit (Z.testbit g 2) 2) (Z.lor (bit (Z.testbit g 3) 8)
    (Z.lor (bit (Z.testbit g 4 && negb w) 4) (Z.lor (bit w 7) (bit w 12))))))).

Lemma map_flags_to_native_bits (g : G) :
  bf_bits (map_flags_to_native g : F) = native_bits (bf_bits g).
Proof using.
  unfold map_flags_to_native, native_bits, MF_WRITABLE, MF_EXECUTABLE, MF_USER, MF_GLOBAL,
    MF_CACHE_DISABLE, MF_WRITE_COMBINE.
  rewrite !map_contains_bit by lia.
  unfold PTF_PRESENT, PTF_WRITABLE, PTF_USER, PTF_WRITE_THROUGH, PTF_CACHE_DISABLE, PTF_PAT_4K,
    PTF_GLOBAL, PTF_PAT_HUGE, PTF_NO_EXECUTE.
  destruct (Z.testbit _ 0), (Z.testbit _ 1), (Z.testbit _ 2), (Z.testbit _ 3), (Z.testbit _ 4),
    (Z.testbit _ 5); cbn [negb andb];
    rewrite ?bf_intersection_bits, ?bf_complement_bits, ?bf_union_bits, ?retain_bit by lia; reflexivity.
Qed.

(** Without write-combining the flags fit every page size. *)
Lemma native_clean (g : G) :
  Z.testbit (bf_bits g) 5 = false ->
  clean (map_flags_to_native g : F) /\ Z.testbit (native_bits (bf_bits g)) 0 = true /\
  Z.land (native_bits (bf_bits g)) PTF_ALL = native_bits (bf_bits g) /\
  Z.land (Z.lor (native_bits (bf_bits g)) (2 ^ 7)) PTF_ALL = Z.lor (native_bits (bf_bits g)) (2 ^ 7).
Proof using.
  intros H5. unfold clean. rewrite map_flags_to_native_bits. unfold native_bits. rewrite H5.
  destruct (Z.testbit _ 0), (Z.testbit _ 1), (Z.testbit _ 2), (Z.testbit _ 3), (Z.testbit _ 4);
    by split_and!.
Qed.
End Native.

(** ** The abstract address space *)

(** The page of each virtual address. *)
Definition aspace : Type := Z -> option mapping.

(** Every address of the page of size [S] at [page] now maps to [x]. *)
Definition set_pages (S : PageSize) (page : Z) (x : option mapping) (σ : aspace) : aspace :=
  fun v => if decide (v / SIZE S = page / SIZE S) then x else σ v.

Inductive vm_op (G : Type) : Type :=
| VMap (S : PageSize) (page frame : Z) (flags : G)
| VUnmap (S : PageSize) (page : Z)
| VProtect (S : PageSize) (page : Z) (flags : G).
Arguments VMap {G} S page frame flags.
Arguments VUnmap {G} S page.
Arguments VProtect {G} S page flags.

Inductive vm_out : Type :=
| OutDone
| OutFrame (frame : Z)
| OutErr (e : UnmapError).

Section Refine.
Context {F : Type} `{BF : BitFlags PTF_ALL F}.
Context {G : Type} `{BG : BitFlags MF_ALL G}.
Context {A : Type} `{FA : FrameAllocator A} (off root : Z).

(** The flags a page of size [S] gets: large pages have bit 7 set. *)
Definition page_bits (S : PageSize) (g : G) : Z :=
  match S with
  | Size4KiB => native_bits (bf_bits g)
  | _ => Z.lor (native_bits (bf_bits g)) (2 ^ 7)
  end.

(** Why an unmapping or a change of protection may be refused. *)
Definition refused (σ : aspace) (S : PageSize) (page : Z) (e : UnmapError) : Prop :=
  (forall pa fl, σ page <> Some (S, pa, fl)) /\
  match e with
  | NotMapped => σ page = None
  | SizeMismatch => S = Size4KiB -> σ page <> None
  end.

(** What the operations promise. *)
Inductive vm_spec (σ : aspace) : vm_op G -> vm_out -> aspace -> Prop :=
| spec_map S page frame g :
    vm_spec σ (VMap S page frame g) OutDone
      (set_pages S page (Some (S, frame, page_bits S g)) σ)
| spec_unmap S page pa fl :
    σ page = Some (S, pa, fl) ->
    vm_spec σ (VUnmap S page) (OutFrame (SIZE S * (pa / SIZE S))) (set_pages S page None σ)
| spec_unmap_err S page e :
    refused σ S page e -> vm_spec σ (VUnmap S page) (OutErr e) σ
| spec_protect S page g pa fl :
    σ page = Some (S, pa, fl) ->
    vm_spec σ (VProtect S page g) OutDone (set_pages S page (Some (S, pa, page_bits S g)) σ)
| spec_protect_err S page g e :
    refused σ S page e -> vm_spec σ (VProtect S page g) (OutErr e) σ.

(** When an operation may be used: the address is canonical, the frame is
    aligned, the flags do not ask for write-combining, and no larger page is in
    the way; the frame allocator has the three frames the tables may need. *)
Definition op_pre (σ : aspace) (a : A) (op : vm_op G) : Prop :=
  match op with
  | VMap sz page frame g =>
      canonical page /\ is_phys frame /\ frame mod SIZE sz = 0 /\
      Z.testbit (bf_bits g) 5 = false /\ (3 <= size (fa_free a))%nat /\
      match σ page with Some (sz', _, _) => SIZE sz' <= SIZE sz | None => True end
  | VUnmap sz page => canonical page
  | VProtect sz page g => canonical page /\ Z.testbit (bf_bits g) 5 = false
  end.

(** The page an operation is about. *)
Definition op_page (op : vm_op G) : Z :=
  match op with VMap _ page _ _ => page | VUnmap _ page => page | VProtect _ page _ => page end.

(** The implementation. *)
Definition out_of {T} (f : T -> vm_out) (r : result T UnmapError) : vm_out :=
  match r with Ok t => f t | Err e => OutErr e end.

Definition run_op (a : A) (m : mem) (op : vm_op G) : exec (A * mem * vm_out) :=
  match op with
  | VMap sz page frame g =>
      '(a, m) ← mapper_map (F := F) off fa_expect sz a m root page frame g; Ret (a, m, OutDone)
  | VUnmap sz page =>
      '(m, r) ← mapper_unmap (F := F) off sz m root page; Ret (a, m, out_of OutFrame r)
  | VProtect sz page g =>
      '(m, r) ← mapper_update_flags (F := F) off sz m root page g; Ret (a, m, out_of (fun _ => OutDone) r)
  end.

(** The tables implement the address space [σ]. *)
Definition refines (a : A) (m : mem) (σ : aspace) : Prop :=
  pt_inv off root a m /\ forall v, canonical v -> page_of off root m v = σ v.

(** An operation on [page] kept the rest of memory: new tables are made of
    frames that were free, and it wrote only to the entries of the walk to the
    page and to such frames. *)
Definition only_tables (page : Z) (a : A) (m : mem) (a' : A) (m' : mem) : Prop :=
  fa_free a' ⊆ fa_free a /\ (size (fa_free a) <= 3 + size (fa_free a'))%nat /\
  (forall t, reach off root m' t ->
     reach off root m t \/ exists f, f ∈ fa_free a ∖ fa_free a' /\ t = f * 4096) /\
  forall x, ~ on_path off root m (va_path page) x ->
    (forall f, f ∈ fa_free a ∖ fa_free a' -> ~ in_frame off (f * 4096) x) -> m' x = m x.

Lemma only_tables_refl page a m : only_tables page a m a m.
Proof using. split_and!; auto; lia. Qed.

Lemma mapped_refines a m S page x a' m' σ :
  refines a m σ -> canonical page ->
  mapped off root a m (take (slot_len S) (va_path page)) x a' m' ->
  refines a' m' (set_pages S page x σ) /\ only_tables page a m a' m'.
Proof using.
  intros [_ Hv] Hp (H1 & H2 & Hsz & H3 & H4 & H5). split; [split; [done|]|].
  2:{ split_and!; try done. intros y Hy Hf. apply H5; [|done]. intros Hin. apply Hy.
      rewrite <- (take_drop (slot_len S) (va_path page)). by apply on_path_app. }
  intros v Hc. unfold page_of, set_pages. destruct (va_path_ok v) as [Hl4 Hlo].
  rewrite H3 by done. destruct (va_path_ok page) as [Hp4 _].
  rewrite length_take, Hp4. replace (slot_len S `min` 4)%nat with (slot_len S) by (by destruct S).
  pose proof (same_page S v page Hc Hp) as Hs.
  destruct (decide (take _ _ = _)) as [E|E], (decide (v / _ = _)) as [D|D]; try tauto. by apply Hv.
Qed.

Lemma take4 v : take (slot_len Size4KiB) (va_path v) = va_path v.
Proof using. done. Qed.

Lemma wp_map a m σ S page frame (g : G) :
  refines a m σ -> op_pre σ a (VMap S page frame g) ->
  wp (mapper_map (F := F) off fa_expect S a m root page frame g) (fun '(a', m') =>
    refines a' m' (set_pages S page (Some (S, frame, page_bits S g)) σ) /\ only_tables page a m a' m').
Proof using.
  intros Href (Hc & Hph & Hal & H5 & Hsz & Hno). pose proof Href as [Hinv Hv].
  destruct (native_clean (F := F) g H5) as (Hcl & H0 & Hall & Hallh).
  rewrite <- (map_flags_to_native_bits (F := F)) in *.
  assert (no_larger off root m (va_path page) (slot_len S - 1)) as Hnl.
  { unfold no_larger. change (lookup_page _ _ _ _) with (page_of off root m page).
    rewrite Hv by done. destruct (σ page) as [[[S' ?] ?]|]; [|done]. by destruct S. }
  unfold mapper_map, page_bits. rewrite <- (map_flags_to_native_bits (F := F)).
  destruct S; [rewrite <- Hall|rewrite <- Hallh..].
  - eapply wp_mono; [by apply wp_map_4k|]. intros [a' m'] Hm.
    by apply (mapped_refines _ _ Size4KiB).
  - eapply wp_mono; [apply wp_map_2mib; try done; lia|]. intros [a' m'] Hm.
    by apply (mapped_refines _ _ Size2MiB).
  - eapply wp_mono; [apply wp_map_1gib; try done; lia|]. intros [a' m'] Hm.
    by apply (mapped_refines _ _ Size1GiB).
Qed.

Lemma wp_unmap a m σ S page :
  refines a m σ -> canonical page ->
  wp (mapper_unmap (F := F) off S m root page) (fun '(m', r) => exists σ',
    vm_spec σ (VUnmap S page) (out_of OutFrame r) σ' /\ refines a m' σ' /\ only_tables page a m a m').
Proof using.
  intros Href Hc. pose proof Href as [Hinv Hv].
  assert (forall m' r, unmapped off root S a m page (take (slot_len S) (va_path page)) m' r ->
    exists σ', vm_spec σ (VUnmap S page) (out_of OutFrame (map_err r)) σ' /\ refines a m' σ' /\
      only_tables page a m a m') as Hpost.
  { intros m' [f|[]] H; cbn [unmapped map_err out_of] in *; rewrite (Hv page Hc) in H.
    - destruct H as (pa & fl & Hp & -> & Hm). exists (set_pages S page None σ).
      split; [by eapply spec_unmap|]. by apply mapped_refines.
    - destruct H as [Hp ->]. exists σ. split; [|split; [done|apply only_tables_refl]].
      apply spec_unmap_err. split; [by rewrite Hp|done].
    - destruct H as (Hp & H4 & ->). exists σ. split; [|split; [done|apply only_tables_refl]].
      by apply spec_unmap_err. }
  unfold mapper_unmap. wp_step. destruct S; eapply wp_mono;
    [by apply wp_unmap_4k| |by apply wp_unmap_2mib| |by apply wp_unmap_1gib|];
    intros [m' r] Hm; apply wp_ret; by apply Hpost.
Qed.

Lemma wp_protect a m σ S page (g : G) :
  refines a m σ -> canonical page -> Z.testbit (bf_bits g) 5 = false ->
  wp (mapper_update_flags (F := F) off S m root page g) (fun '(m', r) => exists σ',
    vm_spec σ (VProtect S page g) (out_of (fun _ => OutDone) r) σ' /\ refines a m' σ' /\
    only_tables page a m a m').
Proof using.
  intros Href Hc H5. pose proof Href as [Hinv Hv].
  destruct (native_clean (F := F) g H5) as (Hcl & H0 & Hall & Hallh).
  assert (forall m' r, reflagged off root S a m page (take (slot_len S) (va_path page)) (page_bits S g) m' r ->
    exists σ', vm_spec σ (VProtect S page g) (out_of (fun _ => OutDone) (map_err r)) σ' /\
      refines a m' σ' /\ only_tables page a m a m') as Hpost.
  { intros m' [[]|[]] H; cbn [reflagged map_err out_of] in *; rewrite (Hv page Hc) in H.
    - destruct H as (pa & fl & Hp & Hm). exists (set_pages S page (Some (S, pa, page_bits S g)) σ).
      split; [by eapply spec_protect|]. by apply mapped_refines.
    - destruct H as [Hp ->]. exists σ. split; [|split; [done|apply only_tables_refl]].
      apply spec_protect_err. split; [by rewrite Hp|done].
    - destruct H as (Hp & H4 & ->). exists σ. split; [|split; [done|apply only_tables_refl]].
      by apply spec_protect_err. }
  rewrite <- (map_flags_to_native_bits (F := F)) in *.
  unfold mapper_update_flags. wp_step. destruct S; unfold page_bits in Hpost;
    rewrite <- (map_flags_to_native_bits (F := F)) in Hpost; [rewrite <- Hall in Hpost|rewrite <- Hallh in Hpost..];
    eapply wp_mono;
    [by apply wp_update_flags_4k| |by apply wp_update_flags_2mib| |by apply wp_update_flags_1gib|];
    intros [m' r] Hm; apply wp_ret; by apply Hpost.
Qed.

(** One operation is simulated by its specification. *)
Lemma wp_run_op a m σ op :
  refines a m σ -> op_pre σ a op ->
  wp (run_op a m op) (fun '(a', m', out) => exists σ',
    vm_spec σ op out σ' /\ refines a' m' σ' /\ only_tables (op_page op) a m a' m').
Proof using.
  intros Href Hpre. destruct op as [sz page frame g|sz page|sz page g]; unfold run_op; wp_step.
  - eapply wp_mono; [by apply wp_map|]. intros [a' m'] [H1 H2]. wp_steps.
    eexists. split; [apply spec_map|done].
  - eapply wp_mono; [by apply wp_unmap|]. intros [m' r] H. by wp_steps.
  - destruct Hpre as [H1 H2]. eapply wp_mono; [by apply wp_protect|]. intros [m' r] H. by wp_steps.
Qed.

(** Runs of operations, of the implementation and of the specification. *)
Inductive vm_run : A * mem -> list (vm_op G * vm_out) -> A * mem -> Prop :=
| run_nil c : vm_run c [] c
| run_cons a m op out a1 m1 tr c :
    op_pre (page_of off root m) a op -> run_op a m op = Ret (a1, m1, out) ->
    vm_run (a1, m1) tr c -> vm_run (a, m) ((op, out) :: tr) c.

Inductive vm_spec_run : aspace -> list (vm_op G * vm_out) -> aspace -> Prop :=
| srun_nil σ : vm_spec_run σ [] σ
| srun_cons σ op out σ1 tr σ2 :
    vm_spec σ op out σ1 -> vm_spec_run σ1 tr σ2 -> vm_spec_run σ ((op, out) :: tr) σ2.

Lemma op_pre_refines a m σ op : refines a m σ -> op_pre (page_of off root m) a op -> op_pre σ a op.
Proof using.
  intros [_ Hv] Hpre. destruct op as [sz page frame g|sz page|sz page g]; [|done|done].
  destruct Hpre as (Hc & H). simpl. rewrite <- (Hv page Hc). done.
Qed.

Lemma vm_run_refines c tr c' σ :
  vm_run c tr c' -> refines (fst c) (snd c) σ ->
  exists σ', vm_spec_run σ tr σ' /\ refines (fst c') (snd c') σ'.
Proof using.
  intros Hr. revert σ. induction Hr as [c|a m op out a1 m1 tr c Hpre E _ IH]; intros σ Href.
  - exists σ. split; [constructor|done].
  - simpl in *. pose proof (op_pre_refines _ _ _ _ Href Hpre) as Hpre'.
    apply (wp_use _ _ _ (wp_run_op _ _ _ _ Href Hpre')) in E as (σ1 & Hs & Href1 & _).
    destruct (IH σ1 Href1) as (σ2 & Hs2 & Href2). exists σ2. split; [by econstructor|done].
Qed.

Lemma map_run a m σ S page frame (g : G) :
  refines a m σ -> op_pre σ a (VMap S page frame g) ->
  exists a' m', vm_run (a, m) [(VMap S page frame g, OutDone)] (a', m').
Proof using.
  intros Href Hpre. pose proof (wp_map _ _ _ _ _ _ _ Href Hpre) as H.
  apply wp_exists in H as ([a' m'] & E & _). exists a', m'. eapply run_cons; [|simpl; by rewrite E|apply run_nil].
  destruct Href as [_ Hv], Hpre as [Hc Hpre]. split; [done|]. by rewrite (Hv page Hc).
Qed.

(** A root table without entries is the empty address space. *)
Lemma empty_root a m :
  fa_inv a m -> fa_offset a = off -> table_ok off root -> root / 4096 ∉ fa_free a ->
  (forall i, index_ok i -> ent off m root i = 0) -> refines a m (fun _ => None).
Proof using.
  intros Hi Ho Hok Hnf Hz.
  assert (forall p t, path_ok p -> follow (ent off m) 0 root p = Some t -> p = [] /\ t = root) as Hf.
  { intros [|i p] t [_ Hp] Ht; simpl in Ht; [by injection Ht as ->|].
    apply Forall_cons in Hp as [Hp _]. by rewrite Hz in Ht. }
  split; [split_and!; [done|done| |]|].
  - intros p q t Hp Hq [-> _]%Hf [-> _]%Hf; done.
  - intros t (p & Hp & [_ ->]%Hf); done.
  - intros v Hv. unfold page_of. simpl. rewrite Hz by apply index_range. done.
Qed.
End Refine.

Lemma page_of_phys off root m v :
  match page_of off root m v with Some (_, pa, _) => is_phys pa | None => True end.
Proof.
  unfold page_of. generalize 0%nat root. generalize (va_path v). intros l.
  induction l as [|i l IH]; intros d t; simpl; [done|]. destruct (present _); [|done].
  destruct l as [|j l]; [apply entry_address_ok|]. destruct (leaf_at _ _); [apply entry_address_ok|apply IH].
Qed.

Lemma translate_page_of {F A} `{BF : BitFlags PTF_ALL F} `{FA : FrameAllocator A}
    (off root : Z) (a : A) (m : mem) (v : Z) :
  pt_inv off root a m -> canonical v ->
  match page_of off root m v with Some (sz, pa, _) => pa mod SIZE sz = 0 | None => True end ->
  translate_addr (F := F) off m root v =
  Ret match page_of off root m v with
      | Some (sz, pa, _) => Some (pa + v mod SIZE sz)
      | None => None
      end.
Proof.
  intros Hinv Hc Hal. apply wp_eq. unfold translate_addr. wp_step.
  eapply wp_mono; [by apply (wp_translate off root a)|]. intros r Hr.
  pose proof (page_of_phys off root m v) as Hph. rewrite <- Hr in *.
  assert (forall pa k, 12 <= k <= 52 -> is_phys pa -> pa mod 2 ^ k = 0 -> is_phys (pa + v mod 2 ^ k)) as Hsum.
  { intros pa k Hk Hp Hm. pose proof (Z.mod_pos_bound v (2 ^ k) ltac:(apply Z.pow_pos_nonneg; lia)).
    apply Z.mod_divide in Hm as [q ->]; [|apply Z.pow_nonzero; lia]. unfold is_phys in *.
    assert (2 ^ 52 = 2 ^ (52 - k) * 2 ^ k) as E by (rewrite <- Z.pow_add_r by lia; f_equal; lia).
    assert (q < 2 ^ (52 - k)) by nia. nia. }
  destruct r as [pa fl|pa fl|pa fl|]; cbn [view_of] in *; wp_steps; try done.
  - rewrite page_offset_eq. apply wp_PhysAddr_add; [|done]. by apply (Hsum pa 12).
  - change 0x1FFFFF with (2 ^ 21 - 1). rewrite land_mask by lia.
    apply wp_PhysAddr_add; [|done]. by apply (Hsum pa 21).
  - change 0x3FFFFFFF with (2 ^ 30 - 1). rewrite land_mask by lia.
    apply wp_PhysAddr_add; [|done]. by apply (Hsum pa 30).
Qed.

(** ** Properties *)


(** An empty root table in the frame 0, below the free frames of the example
    memory map. *)
Definition example_off : Z := 0xFFFF800000000000.

#[local] Instance example_fa : FrameAllocator BitmapAllocator := bitmap_FrameAllocator false.

Lemma example_refines : refines (A := BitmapAllocator) example_off 0 example_pmm zero_mem (fun _ => None).
Proof.
  apply empty_root.
  - split; [exact example_pmm_inv|]. intros E. discriminate E.
  - done.
  - split; [split; [unfold is_phys; lia|done]|]. unfold example_off, U64. lia.
  - change (0 / 4096) with 0. change (fa_free example_pmm) with (pmm_free example_pmm).
    unfold pmm_free. rewrite elem_of_free_set. vm_compute. intuition discriminate.
  - intros i _. reflexivity.
Qed.

Lemma example_frames : (3 <= size (fa_free example_pmm))%nat.
Proof.
  destruct example_pmm_inv as (_ & H & _). change (fa_free example_pmm) with (pmm_free example_pmm).
  change (free_count example_pmm) with 174 in H. lia.
Qed.

Definition example_map_op : vm_op word64 := VMap Size4KiB 0x400000 0x7000 (w64 5).

Lemma example_map_pre : op_pre (fun _ => None) example_pmm example_map_op.
Proof.
  pose proof example_frames. split_and!; try done; unfold is_phys, canonical; lia.
Qed.


(** Mapping a page of any size succeeds on well-formed tables and is seen by
    every later translation: the addresses of that page translate to the new
    frame with exactly the requested rights, all others translate as before,
    and no memory outside the page tables and the frames they took changes. *)
Theorem mapper_map_correct {F G A} `{BF : BitFlags PTF_ALL F} `{BG : BitFlags MF_ALL G}
    `{FA : FrameAllocator A} (off root : Z) (a : A) (m : mem) (S : PageSize) (page frame : Z) (g : G) :
  pt_inv off root a m -> op_pre (page_of off root m) a (VMap S page frame g) ->
  exists a' m', mapper_map (F := F) off fa_expect S a m root page frame g = Ret (a', m') /\
    pt_inv off root a' m' /\ only_tables off root page a m a' m' /\
    forall v, canonical v -> exists r r',
      translate (F := F) off m root v = Ret r /\ translate (F := F) off m' root v = Ret r' /\
      view_of r' = if decide (v / SIZE S = page / SIZE S) then Some (S, frame, page_bits S g)
                   else view_of r.
Proof.
  intros Hinv Hpre. assert (refines off root a m (page_of off root m)) as Href by (by split).
  pose proof (wp_map (F := F) _ _ _ _ _ _ _ _ _ Href Hpre) as H.
  apply wp_exists in H as ([a' m'] & E & [Hinv' Hv'] & Ht). exists a', m'.
  split; [done|split; [done|split; [done|]]]. intros v Hc.
  pose proof (wp_translate (F := F) off root a m v Hinv) as H1.
  pose proof (wp_translate (F := F) off root a' m' v Hinv') as H2.
  apply wp_exists in H1 as (r & Er & Hr). apply wp_exists in H2 as (r' & Er' & Hr').
  exists r, r'. split; [done|split; [done|]]. rewrite Hr', Hr, Hv' by done. done.
Qed.

Lemma mapper_map_correct_witness :
  exists a' m', mapper_map (F := word64) example_off fa_expect Size4KiB example_pmm zero_mem 0
      0x400000 0x7000 (w64 5) = Ret (a', m') /\
    exists r', translate (F := word64) example_off m' 0 0x400123 = Ret r' /\
      view_of r' = Some (Size4KiB, 0x7000, 0x8000000000000007).
Proof.
  destruct (mapper_map_correct (F := word64) example_off 0 example_pmm zero_mem Size4KiB 0x400000 0x7000 (w64 5))
    as (a' & m' & E & _ & _ & Hv).
  - exact (proj1 example_refines).
  - destruct example_map_pre as (H1 & H2 & H3 & H4 & H5 & _).
    unfold op_pre. rewrite (proj2 example_refines _ H1). by split_and!.
  - exists a', m'. split; [exact E|]. destruct (Hv 0x400123) as (r & r' & _ & E' & Hr'); [left; lia|].
    exists r'. split; [exact E'|]. rewrite Hr'. rewrite decide_True by done. by vm_compute.
Defined.

(** Address translation follows the tables: it never panics on well-formed
    tables, finds nothing exactly when the address is not mapped, and for a
    page of any size gives the frame plus the offset in the page. *)
Theorem translate_addr_correct {F A} `{BF : BitFlags PTF_ALL F} `{FA : FrameAllocator A}
    (off root : Z) (a : A) (m : mem) (v : Z) :
  pt_inv off root a m -> canonical v ->
  match page_of off root m v with Some (sz, pa, _) => pa mod SIZE sz = 0 | None => True end ->
  translate_addr (F := F) off m root v =
  Ret match page_of off root m v with
      | Some (sz, pa, _) => Some (pa + v mod SIZE sz)
      | None => None
      end.
Proof. apply (translate_page_of (F := F) off root a). Qed.

Lemma translate_addr_correct_witness :
  exists m', translate_addr (F := word64) example_off m' 0 0x400123 = Ret (Some 0x7123).
Proof.
  destruct (map_run (F := word64) _ _ _ _ _ _ _ _ _ example_refines example_map_pre) as (a' & m' & Hrun).
  destruct (vm_run_refines _ _ _ _ _ _ Hrun example_refines) as (σ' & Hs & Hinv & Hv). simpl in Hinv, Hv.
  exists m'. assert (page_of example_off 0 m' 0x400123 = Some (Size4KiB, 0x7000, 0x8000000000000007)) as Hp.
  { rewrite Hv by (left; lia). inversion Hs as [|? ? ? ? ? ? H1 H2]; subst. inversion H1; subst.
    inversion H2; subst. unfold set_pages. rewrite decide_True by done. by vm_compute. }
  rewrite (translate_addr_correct (F := word64) example_off 0 a' m' 0x400123 Hinv);
    [by rewrite Hp|left; lia|by rewrite Hp].
Defined.

(** The write-combining flag corrupts 4 KiB mappings: it sets bit 12, which
    in a 4 KiB entry is the lowest bit of the frame number.  Mapping the frame
    0x6000 write-combined maps the frame 0x7000. *)
Theorem write_combine_wrong_frame :
  let flags : word64 := bf_union (all := MF_ALL) (bf_union (all := MF_ALL) MF_WRITABLE MF_GLOBAL)
    MF_WRITE_COMBINE in
  match mapper_map (F := word64) (G := word64) example_off fa_expect Size4KiB example_pmm zero_mem 0
          0x400000 0x6000 flags with
  | Ret (_, m') => translate_addr (F := word64) example_off m' 0 0x400000
  | Panic => Panic
  end = Ret (Some 0x7000).
Proof. vm_compute. reflexivity. Qed.
