(* ===== verification/Mapper.v ===== *)
(** * The page mapper interface

    The traits [PageMapper] and [PageTranslator] of [kernel/mm/src/mapper.rs]
    for 4 KiB pages, as a class: the operations, the abstract address space
    behind them, and what the operations promise.  The x86_64 page tables are
    an instance.  The virtual memory manager and the user address spaces are
    proved against the class only. *)

From S2P Require Import Prelude Mem Addr Paging Layout Std Extern Region Pmm PageTable PageWalk PageTableSpec PageMap.

(** Frames taken between two states of the allocator. *)
Definition taken {A} `{FA : FrameAllocator A} (a a' : A) (f : Z) : Prop := f ∈ fa_free a ∖ fa_free a'.

(** An operation on tables, whose bytes are those in [table], kept the rest of
    memory: new tables are made of frames it took from the allocator, and it
    wrote only to tables and to frames it took. *)
Definition kept {A} `{FA : FrameAllocator A} (off : Z) (table : mem -> Z -> Prop)
    (a : A) (m : mem) (a' : A) (m' : mem) : Prop :=
  fa_free a' ⊆ fa_free a /\
  (forall x, table m' x -> table m x \/ exists f, taken a a' f /\ in_frame off (f * 4096) x) /\
  (forall x, ~ table m x -> (forall f, taken a a' f -> ~ in_frame off (f * 4096) x) -> m' x = m x).

Section Kept.
Context {A : Type} `{FA : FrameAllocator A} (off : Z) (table : mem -> Z -> Prop).

Lemma taken_sub a a1 a2 f : fa_free a1 ⊆ fa_free a -> taken a1 a2 f -> taken a a2 f.
Proof using. unfold taken. set_solver. Qed.

Lemma taken_more a a1 a2 f : fa_free a2 ⊆ fa_free a1 -> taken a a1 f -> taken a a2 f.
Proof using. unfold taken. set_solver. Qed.

Lemma kept_refl a m : kept off table a m a m.
Proof using. split_and!; auto. Qed.

Lemma kept_trans a m a1 m1 a2 m2 :
  kept off table a m a1 m1 -> kept off table a1 m1 a2 m2 -> kept off table a m a2 m2.
Proof using.
  intros (H1 & H2 & H3) (K1 & K2 & K3). split_and!; [by trans (fa_free a1)| |].
  - intros x Hx. destruct (K2 x Hx) as [Hx1|(f & Hf & Hx1)].
    + destruct (H2 x Hx1) as [?|(f & Hf & Hx2)]; [by left|right]. exists f. split; [by eapply taken_more|done].
    + right. exists f. split; [by eapply taken_sub|done].
  - intros x Hx Hf. rewrite K3.
    + apply H3; [done|]. intros f Hff. apply Hf. by eapply taken_more.
    + intros Hx1. destruct (H2 x Hx1) as [?|(f & Hff & Hx2)]; [done|]. apply (Hf f); [by eapply taken_more|done].
    + intros f Hff. apply Hf. by eapply taken_sub.
Qed.

(** Two frames share no byte. *)
Lemma in_frame_inj f g x : in_frame off (f * 4096) x -> in_frame off (g * 4096) x -> f = g.
Proof using. unfold in_frame. lia. Qed.
End Kept.

(** Two descriptions of an address space agree where there are addresses. *)
Definition same_space (σ σ' : aspace) : Prop := forall v, canonical v -> σ v = σ' v.

#[export] Instance same_space_equiv : Equivalence same_space.
Proof. split; [by intros σ v|by intros σ σ' H v Hc; symmetry; apply H|]. intros σ σ' σ'' H H' v Hc. by rewrite H, H'. Qed.

Class PageMapper (G A : Type) `{BG : BitFlags MF_ALL G} `{FA : FrameAllocator A} (off : Z) : Type := {
  pm_map : A -> mem -> Z -> Z -> Z -> G -> exec (A * mem);
  pm_unmap : mem -> Z -> Z -> exec (mem * result Z UnmapError);
  pm_update_flags : mem -> Z -> Z -> G -> exec (mem * result unit UnmapError);
  pm_translate_addr : mem -> Z -> Z -> exec (option Z);

  (** The tables at [root] implement an address space; a byte is part of one
      of them; the rights a flag set stands for. *)
  pm_inv : A -> mem -> Z -> aspace -> Prop;
  pm_table : Z -> mem -> Z -> Prop;
  pm_flags : G -> Z;

  pm_map_spec : forall a m root σ page frame g,
    pm_inv a m root σ -> canonical page -> is_phys frame -> frame mod 4096 = 0 ->
    Z.testbit (bf_bits g) 5 = false -> (3 <= size (fa_free a))%nat -> σ page = None ->
    wp (pm_map a m root page frame g) (fun '(a', m') =>
      pm_inv a' m' root (set_pages Size4KiB page (Some (Size4KiB, frame, pm_flags g)) σ) /\
      (size (fa_free a) <= size (fa_free a') + 3)%nat /\ kept off (pm_table root) a m a' m');
  pm_unmap_spec : forall a m root σ page,
    pm_inv a m root σ -> canonical page ->
    wp (pm_unmap m root page) (fun '(m', r) =>
      match r with
      | Ok f => exists pa fl, σ page = Some (Size4KiB, pa, fl) /\ f = 4096 * (pa / 4096) /\
          pm_inv a m' root (set_pages Size4KiB page None σ)
      | Err e => pm_inv a m' root σ /\ refused σ Size4KiB page e
      end /\ kept off (pm_table root) a m a m');
  pm_update_flags_spec : forall a m root σ page g,
    pm_inv a m root σ -> canonical page -> Z.testbit (bf_bits g) 5 = false ->
    wp (pm_update_flags m root page g) (fun '(m', r) =>
      match r with
      | Ok _ => exists pa fl, σ page = Some (Size4KiB, pa, fl) /\
          pm_inv a m' root (set_pages Size4KiB page (Some (Size4KiB, pa, pm_flags g)) σ)
      | Err e => pm_inv a m' root σ /\ refused σ Size4KiB page e
      end /\ kept off (pm_table root) a m a m');
  pm_translate_spec : forall a m root σ v,
    pm_inv a m root σ -> canonical v ->
    match σ v with Some (sz, pa, _) => pa mod SIZE sz = 0 | None => True end ->
    pm_translate_addr m root v =
    Ret match σ v with Some (sz, pa, _) => Some (pa + v mod SIZE sz) | None => None end;

  (** Memory that is not part of a table does not matter, tables are not free
      frames, and the allocator may take frames meanwhile. *)
  pm_inv_same : forall a m root σ σ', same_space σ σ' -> pm_inv a m root σ -> pm_inv a m root σ';
  pm_inv_fa : forall a m root σ, pm_inv a m root σ -> fa_inv a m /\ fa_offset a = off;
  pm_inv_mem : forall a m root σ m',
    pm_inv a m root σ -> (forall x, pm_table root m x -> m' x = m x) -> fa_inv a m' ->
    pm_inv a m' root σ /\ forall x, pm_table root m' x -> pm_table root m x;
  pm_inv_free : forall a m root σ x f,
    pm_inv a m root σ -> pm_table root m x -> f ∈ fa_free a -> ~ in_frame off (f * 4096) x;
  pm_inv_alloc : forall a a' m root σ,
    pm_inv a m root σ -> fa_inv a' m -> fa_offset a' = off -> fa_free a' ⊆ fa_free a -> pm_inv a' m root σ;
  pm_inv_frames : forall a a' m m' root σ,
    pm_inv a m root σ -> fa_inv a' m' -> fa_offset a' = off -> (forall x, pm_table root m x -> m' x = m x) ->
    (forall f x, f ∈ fa_free a' -> in_frame off (f * 4096) x -> ~ pm_table root m x) ->
    pm_inv a' m' root σ /\ forall x, pm_table root m' x -> pm_table root m x;
}.

#[export] Instance pm_inv_proper {G A} `{PageMapper G A} a m root :
  Proper (same_space ==> iff) (pm_inv (off := off) a m root).
Proof. intros σ σ' Hs. split; apply pm_inv_same; [done|by symmetry]. Qed.

(** ** The x86_64 instance *)

Section Walks.
Context (E E' : entries).

Lemma follow_same d t l :
  (forall q j r u, l = q ++ j :: r -> follow E d t q = Some u -> E' u j = E u j) ->
  follow E' d t l = follow E d t l.
Proof using.
  revert d t. induction l as [|i l IH]; intros d t Ha; [done|]. simpl. rewrite (Ha [] i l t) by done.
  destruct (present (E t i) && negb (leaf_at d (E t i))) eqn:Ep; [|done]. apply IH.
  intros q j r u -> Hf. apply (Ha (i :: q) j r u); [done|]. simpl. by rewrite Ep.
Qed.

Lemma lookup_same d t l :
  (forall q j r u, l = q ++ j :: r -> follow E d t q = Some u -> E' u j = E u j) ->
  lookup_page E' d t l = lookup_page E d t l.
Proof using.
  revert d t. induction l as [|i l IH]; intros d t Ha; [done|]. simpl. rewrite (Ha [] i l t) by done.
  destruct (present (E t i)) eqn:Ep; [|done]. destruct l as [|k l]; [done|].
  destruct (leaf_at d (E t i)) eqn:El; [done|]. apply IH.
  intros q j r u Hq Hf. apply (Ha (i :: q) j r u); [by rewrite Hq|]. simpl. by rewrite Ep, El.
Qed.
End Walks.

Section X86.
Context {F : Type} `{BF : BitFlags PTF_ALL F}.
Context {G : Type} `{BG : BitFlags MF_ALL G}.
Context {A : Type} `{FA : FrameAllocator A} (off : Z).

Definition x86_table (root : Z) (m : mem) (x : Z) : Prop := exists t, reach off root m t /\ in_frame off t x.

Lemma ent_same m m' root t i :
  reach off root m t -> index_ok i -> (forall x, x86_table root m x -> m' x = m x) ->
  ent off m' t i = ent off m t i.
Proof using.
  intros Ht Hi Hm. unfold ent. apply load_ext. intros x Hx. apply Hm. exists t. split; [done|].
  unfold in_frame, index_ok in *. lia.
Qed.

(** Walks depend on the tables only. *)
Lemma walks_same m root m' :
  (forall x, x86_table root m x -> m' x = m x) ->
  (forall p, path_ok p -> follow (ent off m') 0 root p = follow (ent off m) 0 root p) /\
  (forall v, page_of off root m' v = page_of off root m v).
Proof using.
  intros Hm. split.
  - intros p Hp. apply follow_same. intros q j r u -> Hq.
    pose proof (path_ok_app _ _ Hp) as Hpq. apply (ent_same m m' root); [by exists q| |done].
    destruct Hp as [_ Hp]. apply Forall_app in Hp as [_ Hp]. by apply Forall_cons in Hp as [? _].
  - intros v. unfold page_of. apply lookup_same. intros q j r u Hl Hq.
    destruct (va_path_ok v) as [H4 Ho4]. rewrite Hl in H4, Ho4. rewrite length_app in H4. simpl in H4.
    apply Forall_app in Ho4 as [Hoq Hoj]. apply Forall_cons in Hoj as [Hoj _].
    apply (ent_same m m' root); [exists q; split; [split; [lia|done]|done]|done|done].
Qed.

Lemma refines_mem a a' m root σ m' :
  refines off root a m σ -> (forall x, x86_table root m x -> m' x = m x) ->
  fa_inv a' m' -> fa_offset a' = off -> fa_free a' ⊆ fa_free a ->
  refines off root a' m' σ.
Proof using.
  intros [(Hi & Ho & Ht & Hr) Hv] Hm Hi' Ho' Hsub. destruct (walks_same m root m' Hm) as [Hf Hp].
  split; [split_and!; [done|done| |]|intros v Hc; by rewrite Hp, Hv].
  - intros p q t Hp' Hq. rewrite !Hf by done. by apply Ht.
  - intros t (p & Hpp & Hft). rewrite Hf in Hft by done. destruct (Hr t) as [? Hn]; [by exists p|].
    split; [done|]. intros Hin. by apply Hn, Hsub.
Qed.

Lemma on_path_table root m page x : on_path off root m (va_path page) x -> x86_table root m x.
Proof using.
  intros (q & j & r & t & Hl & Ht & Hx). destruct (va_path_ok page) as [H4 Ho].
  rewrite Hl in H4, Ho. rewrite length_app in H4. simpl in H4. apply Forall_app in Ho as [Hq Hj].
  apply Forall_cons in Hj as [Hj _]. exists t. split; [exists q; split; [split; [lia|done]|done]|].
  unfold in_frame, index_ok in *. lia.
Qed.

Lemma only_tables_kept root page a m a' m' :
  only_tables off root page a m a' m' -> kept off (x86_table root) a m a' m'.
Proof using.
  intros (H1 & H2 & H3 & H4). split_and!; [done| |].
  - intros x (t & Ht & Hx). destruct (H3 t Ht) as [?|(f & Hf & ->)]; [left; by exists t|right]. by exists f.
  - intros x Hx Hf. apply H4; [|by apply Hf]. intros Hin. by apply Hx, (on_path_table root m page).
Qed.

Lemma x86_map_spec (a : A) m root σ page frame (g : G) :
  refines off root a m σ -> canonical page -> is_phys frame -> frame mod 4096 = 0 ->
  Z.testbit (bf_bits g) 5 = false -> (3 <= size (fa_free a))%nat -> σ page = None ->
  wp (mapper_map (F := F) off fa_expect Size4KiB a m root page frame g) (fun '(a', m') =>
    refines off root a' m' (set_pages Size4KiB page (Some (Size4KiB, frame, page_bits Size4KiB g)) σ) /\
    (size (fa_free a) <= size (fa_free a') + 3)%nat /\ kept off (x86_table root) a m a' m').
Proof using.
  intros Hr Hc Hp Hal H5 Hsz Hno. eapply wp_mono; [apply (wp_map (F := F) off root a m σ); [done|]|].
  - split_and!; try done. by rewrite Hno.
  - intros [a' m'] [H1 H2]. split; [done|]. split; [destruct H2 as (_ & H2 & _); lia|]. by eapply only_tables_kept.
Qed.

Lemma x86_unmap_spec (a : A) m root σ page :
  refines off root a m σ -> canonical page ->
  wp (mapper_unmap (F := F) off Size4KiB m root page) (fun '(m', r) =>
    match r with
    | Ok f => exists pa fl, σ page = Some (Size4KiB, pa, fl) /\ f = 4096 * (pa / 4096) /\
        refines off root a m' (set_pages Size4KiB page None σ)
    | Err e => refines off root a m' σ /\ refused σ Size4KiB page e
    end /\ kept off (x86_table root) a m a m').
Proof using G BG.
  intros Hr Hc. eapply wp_mono; [by apply (wp_unmap (G := G) off root a m σ)|].
  intros [m' r] (σ' & Hs & Hr' & Hot). split; [|by eapply only_tables_kept].
  destruct r as [f|e]; inversion Hs; subst; [by eexists _, _|done].
Qed.

Lemma x86_update_spec (a : A) m root σ page (g : G) :
  refines off root a m σ -> canonical page -> Z.testbit (bf_bits g) 5 = false ->
  wp (mapper_update_flags (F := F) off Size4KiB m root page g) (fun '(m', r) =>
    match r with
    | Ok _ => exists pa fl, σ page = Some (Size4KiB, pa, fl) /\
        refines off root a m' (set_pages Size4KiB page (Some (Size4KiB, pa, page_bits Size4KiB g)) σ)
    | Err e => refines off root a m' σ /\ refused σ Size4KiB page e
    end /\ kept off (x86_table root) a m a m').
Proof using.
  intros Hr Hc H5. eapply wp_mono; [by apply (wp_protect (F := F) off root a m σ)|].
  intros [m' r] (σ' & Hs & Hr' & Hot). split; [|by eapply only_tables_kept].
  destruct r as [[]|e]; inversion Hs; subst; [by eexists _, _|done].
Qed.

Lemma x86_same_spec (a : A) m root σ σ' :
  same_space σ σ' -> refines off root a m σ -> refines off root a m σ'.
Proof using. intros Hs [Hi Hv]. split; [done|]. intros v Hc. rewrite Hv by done. by apply Hs. Qed.

Lemma tables_same m m' root x :
  (forall x, x86_table root m x -> m' x = m x) -> x86_table root m' x -> x86_table root m x.
Proof using.
  intros Hm (t & (p & Hp & Ht) & Hx). exists t. split; [|done]. exists p. split; [done|].
  by rewrite <- (proj1 (walks_same m root m' Hm) p Hp).
Qed.

Lemma x86_mem_spec (a : A) m root σ m' :
  refines off root a m σ -> (forall x, x86_table root m x -> m' x = m x) -> fa_inv a m' ->
  refines off root a m' σ /\ forall x, x86_table root m' x -> x86_table root m x.
Proof using.
  intros Hr Hm Hi. split; [by apply (refines_mem a a m); [..|apply Hr|]|]. intros x. by apply tables_same.
Qed.

Lemma x86_translate_spec (a : A) m root σ v :
  refines off root a m σ -> canonical v ->
  match σ v with Some (sz, pa, _) => pa mod SIZE sz = 0 | None => True end ->
  translate_addr (F := F) off m root v =
  Ret match σ v with Some (sz, pa, _) => Some (pa + v mod SIZE sz) | None => None end.
Proof using.
  intros [Hi Hv] Hc Hal. rewrite <- (Hv v Hc) in *. by apply (translate_page_of off root a).
Qed.

Lemma x86_fa_spec (a : A) m root σ : refines off root a m σ -> fa_inv a m /\ fa_offset a = off.
Proof using. intros [(H1 & H2 & _) _]. done. Qed.

Lemma x86_free_spec (a : A) m root σ x f :
  refines off root a m σ -> x86_table root m x -> f ∈ fa_free a -> ~ in_frame off (f * 4096) x.
Proof using.
  intros [(_ & _ & _ & Hr) _] (t & Ht & Hx) Hf Hin. destruct (Hr t Ht) as [Hok Hn]. apply Hn.
  replace (t / 4096) with f; [done|]. destruct Hok as [[_ Hok] _]. unfold in_frame in *.
  assert (t = 4096 * (t / 4096)) by (rewrite <- Z_div_exact_2; lia). lia.
Qed.

Lemma x86_alloc_spec (a a' : A) m root σ :
  refines off root a m σ -> fa_inv a' m -> fa_offset a' = off -> fa_free a' ⊆ fa_free a ->
  refines off root a' m σ.
Proof using.
  intros Hr H Ho Hs. by apply (refines_mem a a' m).
Qed.

Lemma x86_frames_spec (a a' : A) m m' root σ :
  refines off root a m σ -> fa_inv a' m' -> fa_offset a' = off -> (forall x, x86_table root m x -> m' x = m x) ->
  (forall f x, f ∈ fa_free a' -> in_frame off (f * 4096) x -> ~ x86_table root m x) ->
  refines off root a' m' σ /\ forall x, x86_table root m' x -> x86_table root m x.
Proof using.
  intros [(Hi & Ho & Ht & Hr) Hv] Hi' Ho' Hm Hn. split; [|intros x; by apply tables_same].
  destruct (walks_same m root m' Hm) as [Hf Hp].
  split; [split_and!; [done|done| |]|intros v Hc; by rewrite Hp, Hv].
  - intros p q t Hp' Hq. rewrite !Hf by done. by apply Ht.
  - intros t (p & Hpp & Hft). rewrite Hf in Hft by done. assert (reach off root m t) as Hrt by (by exists p).
    destruct (Hr t Hrt) as [Hok _]. split; [done|]. intros Hin. pose proof (table_frame _ _ Hok) as Et.
    apply (Hn (t / 4096) (off + t) Hin); [unfold in_frame; lia|]. exists t. split; [done|]. unfold in_frame. lia.
Qed.

#[export] Instance x86_PageMapper : PageMapper G A off := {
  pm_map a m root page frame g := mapper_map (F := F) off fa_expect Size4KiB a m root page frame g;
  pm_unmap m root page := mapper_unmap (F := F) off Size4KiB m root page;
  pm_update_flags m root page g := mapper_update_flags (F := F) off Size4KiB m root page g;
  pm_translate_addr m root v := translate_addr (F := F) off m root v;
  pm_inv a m root σ := refines off root a m σ;
  pm_table := x86_table;
  pm_flags g := page_bits Size4KiB g;
  pm_map_spec := x86_map_spec;
  pm_unmap_spec := x86_unmap_spec;
  pm_update_flags_spec := x86_update_spec;
  pm_translate_spec := x86_translate_spec;
  pm_inv_same := x86_same_spec;
  pm_inv_fa := x86_fa_spec;
  pm_inv_mem := x86_mem_spec;
  pm_inv_free := x86_free_spec;
  pm_inv_alloc := x86_alloc_spec;
  pm_inv_frames := x86_frames_spec;
}.

End X86.
