(* ===== verification/Vmm.v ===== *)
(** * The virtual memory manager (kernel/mm/src/vmm.rs, kernel/kernel/src/mm/vmm.rs)

    The kernel's heap, stacks and MMIO windows: address ranges from the region
    allocators, backed page by page through a page mapper and a frame
    allocator.  [Vmm] is the generic manager, [Glue] the global one with its
    MMIO cleanup callback.  Everything is proved against the interfaces
    [PageMapper], [FrameAllocator] and the contracts of the region
    allocators; the x86_64 page tables and the bitmap allocator appear only in
    the examples. *)

From S2P Require Import Prelude Mem Addr Paging Layout Std Extern Region Pmm PageTable PageWalk PageTableSpec PageMap Mapper.

Definition KERNEL_STACK_SIZE : Z := 64 * 1024.
Definition GUARD_PAGE_SIZE : Z := PAGE_SIZE.
Definition STACKS_FREE_LIST_CAP : Z := 256.
Definition MMIO_FREE_LIST_CAP : Z := 128.

Inductive CacheMode : Type := Uncacheable | WriteCombine.

Inductive VmmError : Type :=
| VmmRegionExhausted
| VmmOutOfMemory
| VmmNotMapped
| VmmAlreadyMapped
| VmmSizeMismatch.

(** The [map_err] of [unmap_page]. *)
Definition vmm_unmap_error (e : UnmapError) : VmmError :=
  match e with NotMapped => VmmNotMapped | SizeMismatch => VmmSizeMismatch end.

(** ** Guards with a cleanup callback

    [W] is the state the callbacks change. *)
Section Guards.
Context {W : Type}.

Definition StackCleanupFn : Type := VirtAddr -> VirtAddr -> VirtAddr -> W -> exec W.
Definition MmioCleanupFn : Type := VirtAddr -> Z -> W -> exec W.

Record KernelStack : Type := mkKernelStack {
  ks_top : VirtAddr;
  ks_bottom : VirtAddr;
  ks_guard : VirtAddr;
  ks_cleanup : option StackCleanupFn;
}.

Definition KernelStack_drop (self : KernelStack) (w : W) : exec W :=
  match ks_cleanup self with
  | Some cleanup => cleanup (ks_guard self) (ks_bottom self) (ks_top self) w
  | None => Ret w
  end.

Record MmioMapping : Type := mkMmioMapping {
  mm_virt_base : VirtAddr;
  mm_phys_base : PhysAddr;
  mm_size : Z;
  mm_cleanup : option MmioCleanupFn;
}.

Definition MmioMapping_drop (self : MmioMapping) (w : W) : exec W :=
  match mm_cleanup self with
  | Some cleanup => cleanup (mm_virt_base self) (mm_size self) w
  | None => Ret w
  end.
End Guards.
Arguments KernelStack W : clear implicits.
Arguments MmioMapping W : clear implicits.
Arguments StackCleanupFn W : clear implicits.
Arguments MmioCleanupFn W : clear implicits.

(** ** The manager *)
Section Defs.
Context {G : Type} `{BG : BitFlags MF_ALL G} {A : Type} `{FA : FrameAllocator A}.
Context {off : Z} `{PM : !PageMapper G A off}.
Context {Vs : Type} `{AVs : ArrayVec FreeRange Vs STACKS_FREE_LIST_CAP}.
Context {Vm : Type} `{AVm : ArrayVec FreeRange Vm MMIO_FREE_LIST_CAP}.
Context {W : Type}.

Record Vmm : Type := mkVmm {
  vmm_root_phys : PhysAddr;
  vmm_layout : MemoryLayout;
  vmm_heap_alloc : RegionAllocator;
  vmm_stacks_alloc : FreeRegionAllocator Vs;
  vmm_mmio_alloc : FreeRegionAllocator Vm;
}.

Definition Vmm_new (root_phys : PhysAddr) (hhdm_offset : VirtAddr) (max_phys : Z) : Vmm :=
  let layout := MemoryLayout_new hhdm_offset max_phys in
  {| vmm_root_phys := root_phys;
     vmm_layout := layout;
     vmm_heap_alloc := RegionAllocator_new (ml_heap layout);
     vmm_stacks_alloc := FreeRegionAllocator_new (ml_stacks layout);
     vmm_mmio_alloc := FreeRegionAllocator_new (ml_mmio layout) |}.

Definition Vmm_heap_watermark (self : Vmm) : VirtAddr := RegionAllocator_current (vmm_heap_alloc self).

Definition Vmm_stacks_watermark (self : Vmm) : VirtAddr := FreeRegionAllocator_watermark (vmm_stacks_alloc self).

Definition with_heap (self : Vmm) (h : RegionAllocator) : Vmm :=
  mkVmm (vmm_root_phys self) (vmm_layout self) h (vmm_stacks_alloc self) (vmm_mmio_alloc self).
Definition with_stacks (self : Vmm) (s : FreeRegionAllocator Vs) : Vmm :=
  mkVmm (vmm_root_phys self) (vmm_layout self) (vmm_heap_alloc self) s (vmm_mmio_alloc self).
Definition with_mmio (self : Vmm) (s : FreeRegionAllocator Vm) : Vmm :=
  mkVmm (vmm_root_phys self) (vmm_layout self) (vmm_heap_alloc self) (vmm_stacks_alloc self) s.

(** [write_bytes] through a virtual address, inside one page: the processor
    translates the address with the tables at [root] and faults without a
    mapping. *)
Definition virt_write_bytes (m : mem) (root virt v n : Z) : exec mem :=
  p ← pm_translate_addr (G := G) (A := A) (off := off) m root virt;
  match p with
  | Some p => Ret (write_bytes m (off + p) v n)
  | None => Panic
  end.

(** The loop of [grow_heap] and of [alloc_kernel_stack], from page [i] on,
    [n] pages left: back the page with a frame and zero it. *)
Fixpoint map_zeroed_pages (root base : Z) (flags : G) (a : A) (m : mem) (i : Z) (n : nat)
    : exec (A * mem * result unit VmmError) :=
  match n with
  | O => Ret (a, m, Ok tt)
  | S n' =>
      d ← mul64 i PAGE_SIZE;
      let virt := VirtAddr_add base d in
      page ← Page_containing_address Size4KiB virt;
      '(a, o) ← fa_allocate a m;
      match o with
      | None => Ret (a, m, Err VmmOutOfMemory)
      | Some frame =>
          '(a, m) ← pm_map a m root page frame flags;
          m ← virt_write_bytes m root virt 0 PAGE_SIZE;
          map_zeroed_pages root base flags a m (i + 1) n'
      end
  end.

Definition RAM_FLAGS : G := bf_union MF_WRITABLE MF_GLOBAL.

Definition grow_heap (self : Vmm) (bytes : Z) (a : A) (m : mem)
    : exec (Vmm * A * mem * result (VirtAddr * Z) VmmError) :=
  s ← add64 bytes PAGE_SIZE;
  s ← sub64 s 1;
  let page_count := s / PAGE_SIZE in
  actual_bytes ← mul64 page_count PAGE_SIZE;
  '(h, o) ← RegionAllocator_allocate (vmm_heap_alloc self) actual_bytes;
  let self := with_heap self h in
  match o with
  | None => Ret (self, a, m, Err VmmRegionExhausted)
  | Some base =>
      '(a, m, r) ← map_zeroed_pages (vmm_root_phys self) base RAM_FLAGS a m 0 (Z.to_nat page_count);
      match r with
      | Ok _ => Ret (self, a, m, Ok (base, actual_bytes))
      | Err e => Ret (self, a, m, Err e)
      end
  end.

Definition map_initial_heap (self : Vmm) (a : A) (m : mem)
    : exec (Vmm * A * mem * result (VirtAddr * Z) VmmError) :=
  grow_heap self INITIAL_HEAP_SIZE a m.

Definition alloc_kernel_stack (self : Vmm) (a : A) (m : mem) (cleanup : option (StackCleanupFn W))
    : exec (Vmm * A * mem * result (KernelStack W) VmmError) :=
  total_size ← add64 GUARD_PAGE_SIZE KERNEL_STACK_SIZE;
  '(st, o) ← FreeRegionAllocator_allocate (vmm_stacks_alloc self) total_size;
  let self := with_stacks self st in
  match o with
  | None => Ret (self, a, m, Err VmmRegionExhausted)
  | Some base =>
      let stack_bottom := VirtAddr_add base GUARD_PAGE_SIZE in
      let stack_top := VirtAddr_add stack_bottom KERNEL_STACK_SIZE in
      let stack_pages := KERNEL_STACK_SIZE / PAGE_SIZE in
      '(a, m, r) ← map_zeroed_pages (vmm_root_phys self) stack_bottom RAM_FLAGS a m 0 (Z.to_nat stack_pages);
      match r with
      | Ok _ => Ret (self, a, m, Ok (mkKernelStack stack_top stack_bottom base cleanup))
      | Err e => Ret (self, a, m, Err e)
      end
  end.

Definition map_mmio_with_cache (self : Vmm) (phys : PhysAddr) (size : Z) (cache : CacheMode)
    (a : A) (m : mem) (cleanup : option (MmioCleanupFn W))
    : exec (Vmm * A * mem * result (MmioMapping W) VmmError) :=
  s ← add64 size PAGE_SIZE;
  s ← sub64 s 1;
  let page_count := s / PAGE_SIZE in
  actual_size ← mul64 page_count PAGE_SIZE;
  '(mm, o) ← FreeRegionAllocator_allocate (vmm_mmio_alloc self) actual_size;
  let self := with_mmio self mm in
  match o with
  | None => Ret (self, a, m, Err VmmRegionExhausted)
  | Some virt_base =>
      let cache_flag := match cache with
                        | Uncacheable => MF_CACHE_DISABLE
                        | WriteCombine => MF_WRITE_COMBINE
                        end in
      let flags := bf_union (bf_union MF_WRITABLE MF_GLOBAL) cache_flag in
      '(a, m) ← for_range 0 (Z.to_nat page_count) (fun i '(a, m) =>
        d ← mul64 i PAGE_SIZE;
        let virt := VirtAddr_add virt_base d in
        page ← Page_containing_address Size4KiB virt;
        p ← PhysAddr_add phys d;
        phys_page ← PhysFrame_containing_address Size4KiB p;
        pm_map a m (vmm_root_phys self) page phys_page flags) (a, m);
      Ret (self, a, m, Ok (mkMmioMapping virt_base phys actual_size cleanup))
  end.

Definition map_mmio (self : Vmm) (phys : PhysAddr) (size : Z) (a : A) (m : mem)
    (cleanup : option (MmioCleanupFn W)) : exec (Vmm * A * mem * result (MmioMapping W) VmmError) :=
  map_mmio_with_cache self phys size Uncacheable a m cleanup.

(** The [MapFlush] of [map_page] is the page's address, left to the caller. *)
Definition map_page (self : Vmm) (page frame : Z) (flags : G) (a : A) (m : mem)
    : exec (A * mem * result Z VmmError) :=
  '(a, m) ← pm_map a m (vmm_root_phys self) page frame flags;
  Ret (a, m, Ok page).

Definition unmap_page (self : Vmm) (page : Z) (m : mem) : exec (mem * result Z VmmError) :=
  '(m, r) ← pm_unmap m (vmm_root_phys self) page;
  match r with
  | Ok frame => Ret (m, Ok frame)
  | Err e => Ret (m, Err (vmm_unmap_error e))
  end.

Definition Vmm_translate (self : Vmm) (m : mem) (virt : VirtAddr) : exec (option PhysAddr) :=
  pm_translate_addr m (vmm_root_phys self) virt.

Definition dealloc_stack_region (self : Vmm) (guard_addr : VirtAddr) : exec (Vmm * result unit VmmError) :=
  total_size ← add64 GUARD_PAGE_SIZE KERNEL_STACK_SIZE;
  '(st, r) ← FreeRegionAllocator_deallocate (vmm_stacks_alloc self) guard_addr total_size;
  Ret (with_stacks self st, match r with Ok _ => Ok tt | Err _ => Err VmmRegionExhausted end).

Definition dealloc_mmio_region (self : Vmm) (virt_base : VirtAddr) (size : Z) : exec (Vmm * result unit VmmError) :=
  '(mm, r) ← FreeRegionAllocator_deallocate (vmm_mmio_alloc self) virt_base size;
  Ret (with_mmio self mm, match r with Ok _ => Ok tt | Err _ => Err VmmRegionExhausted end).
End Defs.
Arguments Vmm Vs Vm : clear implicits.

(** ** The global manager *)
Section Glue.
Context {G : Type} `{BG : BitFlags MF_ALL G} {A : Type} `{FA : FrameAllocator A}.
Context {off : Z} `{PM : !PageMapper G A off}.
Context {Vs : Type} `{AVs : ArrayVec FreeRange Vs STACKS_FREE_LIST_CAP}.
Context {Vm : Type} `{AVm : ArrayVec FreeRange Vm MMIO_FREE_LIST_CAP}.

(** The globals [VMM] and [PMM], and memory. *)
Record MmState : Type := mkMm { g_VMM : option (Vmm Vs Vm); g_PMM : A; g_mem : mem }.

(** [init]: the offset and the root table come from the boot information, as
    do the regions of the memory map, each a start and a size. *)
Definition vmm_init (boot_hhdm_offset page_table_root : Z) (memory_map : list (Z * Z)) (w : MmState)
    : exec MmState :=
  hhdm_offset ← VirtAddr_new boot_hhdm_offset;
  ends ← mapM (fun '(start, size) => add64 start size) memory_map;
  let max_phys := foldr Z.max 0 ends in
  let vmm := Vmm_new page_table_root hhdm_offset max_phys in
  _ ← assert (match g_VMM w with None => true | Some _ => false end);
  Ret (mkMm (Some vmm) (g_PMM w) (g_mem w)).

Definition vmm_with {R} (w : MmState) (f : Vmm Vs Vm -> A -> mem -> exec (Vmm Vs Vm * A * mem * R))
    : exec (MmState * R) :=
  vmm ← expect (g_VMM w);
  '(vmm, a, m, r) ← f vmm (g_PMM w) (g_mem w);
  Ret (mkMm (Some vmm) a m, r).

Definition expect_ok {T E} (r : result T E) : exec T :=
  match r with Ok t => Ret t | Err _ => Panic end.

Definition kernel_map_initial_heap (w : MmState) : exec (MmState * (Z * Z)) :=
  '(w, r) ← vmm_with w (fun vmm a m => map_initial_heap vmm a m);
  r ← expect_ok r;
  Ret (w, r).

Definition kernel_grow_heap (min_bytes : Z) (w : MmState) : exec (MmState * option (Z * Z)) :=
  match g_VMM w with
  | None => Ret (w, None)
  | Some vmm =>
      '(vmm, a, m, r) ← grow_heap vmm min_bytes (g_PMM w) (g_mem w);
      Ret (mkMm (Some vmm) a m, match r with Ok p => Some p | Err _ => None end)
  end.

Definition default_mmio_cleanup : MmioCleanupFn MmState := fun virt_base size w =>
  '(w, _) ← vmm_with w (fun vmm a m =>
    let page_count := size / PAGE_SIZE in
    m ← for_range 0 (Z.to_nat page_count) (fun i m =>
      d ← mul64 i PAGE_SIZE;
      let virt := VirtAddr_add virt_base d in
      page ← Page_containing_address Size4KiB virt;
      '(m, _) ← unmap_page vmm page m;
      Ret m) m;
    '(vmm, _) ← dealloc_mmio_region vmm virt_base size;
    Ret (vmm, a, m, tt));
  Ret w.

Definition map_mmio_region_with_cache (phys : PhysAddr) (size : Z) (cache : CacheMode) (w : MmState)
    : exec (MmState * MmioMapping MmState) :=
  '(w, r) ← vmm_with w (fun vmm a m =>
    map_mmio_with_cache vmm phys size cache a m (Some default_mmio_cleanup));
  mapping ← expect_ok r;
  Ret (w, mapping).

Definition map_mmio_region (phys : PhysAddr) (size : Z) (w : MmState) : exec (MmState * MmioMapping MmState) :=
  map_mmio_region_with_cache phys size Uncacheable w.
End Glue.
Arguments MmState A Vs Vm : clear implicits.

(** ** Address spaces *)

(** The pages from [base] on mapped to the given frames, in order. *)
Definition map_range (base : Z) (frames : list Z) (fl : Z) (σ : aspace) : aspace := fun v =>
  if base <=? v then
    match frames !! Z.to_nat ((v - base) / 4096) with
    | Some pa => Some (Size4KiB, pa, fl)
    | None => σ v
    end
  else σ v.

(** The pages of an address range, unmapped. *)
Definition unmap_range (base n : Z) (σ : aspace) : aspace := fun v =>
  if (base <=? v) && (v <? base + n) then None else σ v.

Section Spaces.
Implicit Types (σ : aspace) (base : Z).

Lemma map_range_in base frames fl σ v :
  base <= v < base + 4096 * Z.of_nat (length frames) ->
  exists pa, frames !! Z.to_nat ((v - base) / 4096) = Some pa /\
    map_range base frames fl σ v = Some (Size4KiB, pa, fl).
Proof using.
  intros Hv. destruct (lookup_lt_is_Some_2 frames (Z.to_nat ((v - base) / 4096))) as [pa Hpa]; [divlia|].
  exists pa. split; [done|]. unfold map_range. zcases. by rewrite Hpa.
Qed.

Lemma map_range_out base frames fl σ v :
  ~ (base <= v < base + 4096 * Z.of_nat (length frames)) -> map_range base frames fl σ v = σ v.
Proof using.
  intros Hv. unfold map_range. destruct (Z.leb_spec base v); [|done].
  by rewrite (lookup_ge_None_2 frames) by divlia.
Qed.

Lemma map_range_nil base fl σ v : map_range base [] fl σ v = σ v.
Proof using. unfold map_range. by destruct (base <=? v). Qed.

Lemma map_range_cons base pa frames fl σ v :
  base mod 4096 = 0 ->
  map_range (base + 4096) frames fl (set_pages Size4KiB base (Some (Size4KiB, pa, fl)) σ) v =
  map_range base (pa :: frames) fl σ v.
Proof using.
  intros Hb. apply Z.mod_divide in Hb as [q ->]; [|lia]. unfold map_range, set_pages. simpl SIZE.
  rewrite Z.div_mul by lia.
  destruct (Z.leb_spec (q * 4096 + 4096) v) as [H|H]; [|destruct (Z.leb_spec (q * 4096) v) as [H'|H']].
  - rewrite (proj2 (Z.leb_le _ _)) by lia. rewrite decide_False by divlia.
    replace (Z.to_nat ((v - q * 4096) / 4096)) with (S (Z.to_nat ((v - (q * 4096 + 4096)) / 4096))) by divlia.
    done.
  - rewrite decide_True by divlia. by replace (Z.to_nat ((v - q * 4096) / 4096)) with 0%nat by divlia.
  - by rewrite decide_False by divlia.
Qed.

Lemma map_range_ext base frames fl σ σ' v :
  σ v = σ' v -> map_range base frames fl σ v = map_range base frames fl σ' v.
Proof using. intros H. unfold map_range. by rewrite H. Qed.

Lemma map_range_step base pa frames fl σ v :
  base mod 4096 = 0 ->
  map_range (base + 4096) frames fl (map_range base [pa] fl σ) v = map_range base (pa :: frames) fl σ v.
Proof using.
  intros Hb. rewrite <- map_range_cons by done. apply map_range_ext.
  rewrite <- map_range_cons by done. by rewrite map_range_nil.
Qed.

Lemma map_range_snoc base frames pa fl σ v :
  base mod 4096 = 0 ->
  set_pages Size4KiB (base + 4096 * Z.of_nat (length frames)) (Some (Size4KiB, pa, fl))
    (map_range base frames fl σ) v =
  map_range base (frames ++ [pa]) fl σ v.
Proof using.
  intros Hb. apply Z.mod_divide in Hb as [q ->]; [|lia]. unfold map_range, set_pages. simpl SIZE.
  set (n := length frames). replace ((q * 4096 + 4096 * Z.of_nat n) / 4096) with (q + Z.of_nat n) by divlia.
  case_decide as Hd.
  - rewrite (proj2 (Z.leb_le _ _)) by divlia. rewrite lookup_app_r by divlia.
    by replace (Z.to_nat ((v - q * 4096) / 4096) - length frames)%nat with 0%nat by divlia.
  - destruct (Z.leb_spec (q * 4096) v); [|done].
    destruct (decide (Z.to_nat ((v - q * 4096) / 4096) < n)%nat).
    + by rewrite lookup_app_l.
    + rewrite !lookup_ge_None_2; [done| |]; rewrite ?length_app; simpl; divlia.
Qed.

Lemma unmap_range_snoc base n σ v :
  base mod 4096 = 0 -> 0 <= n ->
  set_pages Size4KiB (base + 4096 * n) None (unmap_range base (4096 * n) σ) v =
  unmap_range base (4096 * (n + 1)) σ v.
Proof using.
  intros Hb Hn. apply Z.mod_divide in Hb as [q ->]; [|lia]. unfold unmap_range, set_pages. simpl SIZE.
  replace ((q * 4096 + 4096 * n) / 4096) with (q + n) by divlia.
  case_decide; zcases; try done; divlia.
Qed.
End Spaces.

(** ** Mapping fresh pages *)
Section Fresh.
Context {G : Type} `{BG : BitFlags MF_ALL G} {A : Type} `{FA : FrameAllocator A}.
Context {off : Z} `{PM : !PageMapper G A off}.

(** Frame [f] holds data: zeroes, and no part of a table. *)
Definition zeroed_frame (root : Z) (m : mem) (f : Z) : Prop :=
  forall x, in_frame off (f * 4096) x -> m x = 0 /\ ~ pm_table root m x.

(** The pages from [base] on were mapped to the frames [fs], fresh and zeroed. *)
Definition mapped_fresh (root fl : Z) (a : A) (m : mem) (σ : aspace) (base : Z) (fs : list Z)
    (a' : A) (m' : mem) : Prop :=
  pm_inv a' m' root (map_range base ((fun f => f * 4096) <$> fs) fl σ) /\
  kept off (pm_table root) a m a' m' /\
  (size (fa_free a) <= size (fa_free a') + 4 * length fs)%nat /\
  NoDup fs /\ Forall (fun f => taken a a' f /\ zeroed_frame root m' f) fs.

(** A frame that was taken before an operation is left alone by it. *)
Lemma zeroed_kept root a m a' m' f :
  kept off (pm_table root) a m a' m' -> f ∉ fa_free a -> zeroed_frame root m f -> zeroed_frame root m' f.
Proof using.
  intros (H1 & H2 & H3) Hf Hz x Hx. destruct (Hz x Hx) as [Hz0 Hnt].
  assert (forall g, taken a a' g -> ~ in_frame off (g * 4096) x) as Hg.
  { intros g Hg Hgx. rewrite (in_frame_inj off f g x Hx Hgx) in Hf. unfold taken in Hg. clear -Hf Hg. set_solver. }
  split; [by rewrite H3|]. intros Ht. destruct (H2 x Ht) as [?|(g & ? & ?)]; [done|by apply (Hg g)].
Qed.

Lemma write_frame a m root σ f :
  pm_inv a m root σ -> f ∉ fa_free a -> (forall x, in_frame off (f * 4096) x -> ~ pm_table root m x) ->
  let m' := write_bytes m (off + f * 4096) 0 PAGE_SIZE in
  pm_inv a m' root σ /\ zeroed_frame root m' f /\
  (forall x, pm_table root m' x -> pm_table root m x) /\
  (forall x, ~ in_frame off (f * 4096) x -> m' x = m x).
Proof using.
  intros Hi Hf Hnt m'. destruct (pm_inv_fa _ _ _ _ Hi) as [Hfa Ho].
  assert (forall x, ~ in_frame off (f * 4096) x -> m' x = m x) as Hout.
  { intros x Hx. apply (write_bytes_changed m (off + f * 4096) 0 PAGE_SIZE). unfold in_frame, PAGE_SIZE in *. lia. }
  destruct (pm_inv_mem a m root σ m' Hi) as [Hi' Ht].
  - intros x Hx. apply Hout. intros Hin. by apply (Hnt x).
  - apply (fa_inv_mem a m m' Hfa). intros g x Hg Hx. apply Hout. intros Hin.
    assert (g = f) as -> by (unfold in_frame, FRAME_SIZE in *; rewrite Ho in Hx; lia). done.
  - split_and!; try done. intros x Hx. split; [|by intros H; apply (Hnt x Hx), Ht].
    unfold m', write_bytes, in_frame, PAGE_SIZE in *. by zcases.
Qed.

(** What it means that an address range is free in the address space. *)
Definition unmapped_at (σ : aspace) (lo n : Z) : Prop :=
  forall v, lo <= v < lo + n -> canonical v /\ σ v = None.

Section Step.
Context (root : Z) (g : G) (Hg : Z.testbit (bf_bits g) 5 = false).

(** One page: the frame is taken, mapped and cleared. *)
Lemma wp_fresh_page a m σ virt (k : A -> mem -> exec (A * mem * result unit VmmError)) Q :
  pm_inv a m root σ -> virt mod 4096 = 0 -> unmapped_at σ virt 4096 -> (4 <= size (fa_free a))%nat ->
  (forall a' m' f, mapped_fresh root (pm_flags g) a m σ virt [f] a' m' -> wp (k a' m') Q) ->
  wp ('(a, o) ← fa_allocate a m;
      match o with
      | None => Ret (a, m, Err VmmOutOfMemory)
      | Some frame =>
          '(a, m) ← pm_map a m root virt frame g;
          m ← virt_write_bytes (G := G) (A := A) (off := off) m root virt 0 PAGE_SIZE;
          k a m
      end) Q.
Proof using Hg.
  intros Hi Hal Hun Hsz HQ. destruct (pm_inv_fa _ _ _ _ Hi) as [Hfa Ho].
  destruct (Hun virt ltac:(lia)) as [Hc Hnone].
  wp_step. eapply wp_mono; [by apply fa_allocate_spec|].
  intros [a1 [p|]] (Hfa1 & Ho1 & Hr); [|destruct Hr as [_ Hr]; rewrite Hr, size_empty in Hsz; lia].
  destruct Hr as (f & -> & Hf & Hfree). destruct (fa_frame_bound _ _ _ Hfa Hf) as (H0 & Hb & _ & _).
  unfold FRAME_SIZE in *. pose proof (size_take_out _ _ Hf) as Hs1.
  assert (fa_free a1 ⊆ fa_free a /\ f ∉ fa_free a1) as [Hsub Hf1] by (rewrite Hfree; clear; set_solver).
  assert (pm_inv a1 m root σ) as Hi1 by (apply (pm_inv_alloc a); [done|done|by rewrite Ho1|done]).
  wp_steps. eapply wp_mono; [apply (pm_map_spec a1 m root σ virt (f * 4096) g)|]; try done.
  { unfold is_phys. lia. } { by apply Z_mod_mult. } { rewrite Hfree. lia. }
  intros [a2 m2] (Hi2 & Hsz2 & Hk). pose proof Hk as (Hk1 & Hk2 & Hk3).
  assert (f ∉ fa_free a2) as Hf2 by (clear -Hf1 Hk1; set_solver).
  assert (taken a a2 f) as Htf by (unfold taken; clear -Hf Hf2; set_solver).
  assert (forall x, in_frame off (f * 4096) x -> ~ pm_table root m2 x) as Hnt.
  { intros x Hx Ht. destruct (Hk2 x Ht) as [Ht'|(h & Hh & Hx')]; [by apply (pm_inv_free _ _ _ _ _ _ Hi Ht' Hf)|].
    rewrite (in_frame_inj off f h x Hx Hx') in Hf1. unfold taken in Hh. clear -Hh Hf1. set_solver. }
  wp_step. unfold virt_write_bytes. wp_step. erewrite pm_translate_spec; [|exact Hi2|exact Hc|].
  2:{ unfold set_pages. rewrite decide_True by done. by apply Z_mod_mult. }
  unfold set_pages at 1. rewrite decide_True by done. apply wp_ret. simpl SIZE. rewrite Hal, Z.add_0_r. wp_step.
  destruct (write_frame a2 m2 root _ f Hi2) as (Hi3 & Hz & Ht3 & Hm3); [done|done|].
  set (m3 := write_bytes m2 (off + f * 4096) 0 PAGE_SIZE) in *. apply HQ with f.
  split_and!.
  - eapply pm_inv_same; [|exact Hi3]. intros v _. simpl. rewrite <- map_range_cons by done. by rewrite map_range_nil.
  - split_and!; [by trans (fa_free a1)| |].
    + intros x Hx. destruct (Hk2 x (Ht3 x Hx)) as [?|(h & Hh & Hx')]; [by left|right]. exists h.
      split; [|done]. by eapply taken_sub.
    + intros x Hx Hnf. rewrite Hm3; [|by apply Hnf]. apply Hk3; [done|].
      intros h Hh. apply Hnf. by eapply taken_sub.
  - rewrite Hfree in *. simpl. lia.
  - apply NoDup_singleton.
  - by apply Forall_singleton.
Qed.

Lemma mapped_fresh_cons fl a m σ base f a1 m1 fs a2 m2 :
  base mod 4096 = 0 ->
  mapped_fresh root fl a m σ base [f] a1 m1 ->
  mapped_fresh root fl a1 m1 (map_range base [f * 4096] fl σ) (base + 4096) fs a2 m2 ->
  mapped_fresh root fl a m σ base (f :: fs) a2 m2.
Proof using.
  intros Hb (Hi1 & Hk1 & Hs1 & _ & HF1) (Hi2 & Hk2 & Hs2 & Hnd & HF2).
  apply Forall_singleton in HF1 as [Ht1 Hz1]. pose proof Hk1 as (Hsub1 & _). pose proof Hk2 as (Hsub2 & _).
  split_and!.
  - eapply pm_inv_same; [|exact Hi2]. intros v _. by apply map_range_step.
  - by eapply kept_trans.
  - simpl in *. lia.
  - apply NoDup_cons. split; [|done]. intros Hin. rewrite Forall_forall in HF2.
    destruct (HF2 f Hin) as [Ht2 _]. unfold taken in *. clear -Ht1 Ht2. set_solver.
  - apply Forall_cons. split.
    + split; [by eapply taken_more|]. eapply zeroed_kept; [exact Hk2| |done]. unfold taken in Ht1. clear -Ht1. set_solver.
    + eapply Forall_impl; [exact HF2|]. intros h [Hh Hz]. split; [|done]. by eapply taken_sub.
Qed.

Lemma wp_map_zeroed_pages n a m σ base i :
  pm_inv a m root σ -> 0 <= i -> base mod 4096 = 0 -> canonical (base + 4096 * i) ->
  0 <= base -> 0 <= base + 4096 * i + 4096 * Z.of_nat n <= U64 ->
  unmapped_at σ (base + 4096 * i) (4096 * Z.of_nat n) -> (4 * n <= size (fa_free a))%nat ->
  wp (map_zeroed_pages root base g a m i n) (fun '(a', m', r) => r = Ok tt /\ exists fs,
    length fs = n /\ mapped_fresh root (pm_flags g) a m σ (base + 4096 * i) fs a' m').
Proof using Hg.
  revert a m σ i. induction n as [|n IH]; intros a m σ i Hi Hi0 Hb Hc Hb0 Hu Hun Hsz;
    unfold map_zeroed_pages; fold map_zeroed_pages.
  { wp_step. split; [done|]. exists []. split; [done|]. split_and!; try done; [|apply kept_refl|simpl; lia|by apply NoDup_nil].
    eapply pm_inv_same; [|exact Hi]. intros v _. by rewrite map_range_nil. }
  assert ((base + 4096 * i) mod 4096 = 0) as Hal by (rewrite <- Hb; divlia).
  wp_step. wp_step; [unfold PAGE_SIZE; ulia|]. wp_step. change (i * PAGE_SIZE) with (i * 4096).
  rewrite Z.mul_comm, VirtAddr_add_canonical by done.
  apply wp_Page_containing_aligned; [done|done|]. apply (wp_fresh_page a m σ); try done.
  { intros v Hv. apply Hun. lia. } { lia. }
  intros a1 m1 f Hm1. pose proof Hm1 as (Hi1 & Hk1 & Hs1 & _). simpl in Hs1.
  destruct n as [|n'] eqn:En.
  { clear IH. simpl. wp_step. split; [done|]. by exists [f]. }
  rewrite <- En in *. replace (base + 4096 * i) with (base + 4096 * (i + 1) - 4096) in * by lia.
  eapply wp_mono; [apply (IH a1 m1 _ (i + 1) Hi1); try done; try lia|].
  - apply (proj1 (Hun (base + 4096 * (i + 1)) ltac:(lia))).
  - intros v Hv. rewrite map_range_out by (simpl; lia). apply Hun. lia.
  - intros [[a2 m2] r] (-> & fs & Hl & Hm2). split; [done|]. exists (f :: fs). split; [simpl; lia|].
    eapply mapped_fresh_cons; [done|exact Hm1|]. by replace (base + 4096 * (i + 1) - 4096 + 4096) with (base + 4096 * (i + 1)) by lia.
Qed.
(** The whole loop. *)
Lemma wp_back_range a m σ base k :
  pm_inv a m root σ -> base mod 4096 = 0 -> 0 <= base /\ base + 4096 * k <= U64 /\ canonical base -> 0 <= k ->
  unmapped_at σ base (4096 * k) -> 4 * k <= Z.of_nat (size (fa_free a)) ->
  wp (map_zeroed_pages root base g a m 0 (Z.to_nat k)) (fun '(a', m', r) => r = Ok tt /\ exists fs,
    k = Z.of_nat (length fs) /\ mapped_fresh root (pm_flags g) a m σ base fs a' m').
Proof using Hg.
  intros Hi Hb (H0 & H1 & Hc) Hk Hun Hsz. pose proof (Z2Nat.id k Hk) as Ek.
  eapply wp_mono; [apply (wp_map_zeroed_pages _ a m σ base 0); rewrite ?Z.mul_0_r, ?Z.add_0_r, ?Ek; try done; lia|].
  intros [[a' m'] r] (-> & fs & Hl & Hm). split; [done|]. exists fs. split; [lia|]. by rewrite Z.mul_0_r, Z.add_0_r in Hm.
Qed.
End Step.
End Fresh.

(** ** The invariant of the manager *)

Definition in_region (r : VirtRegion) (v : Z) : Prop := vr_base r <= v < region_end r.

(** An allocator hands out the addresses of [r], and those it did not hand out
    are not mapped. *)
Definition managed {S} `{RangeAllocator S} (r : VirtRegion) (s : S) (σ : aspace) : Prop :=
  range_inv s /\ range_region s = r /\
  forall x, in_region r x -> ~ range_allocated s x -> σ x = None.

Section Managed.
Context {S : Type} `{RA : RangeAllocator S}.
Implicit Types (s : S) (r : VirtRegion) (σ : aspace).

(** No [n] consecutive addresses of [r] are left. *)
Definition no_room r s (n : Z) : Prop :=
  forall b, vr_base r <= b -> b + n <= region_end r -> exists x, b <= x < b + n /\ range_allocated s x.

(** The allocator handed out the [n] addresses from [b] on, which were free. *)
Definition fresh_range s s' (b n : Z) : Prop :=
  (forall x, b <= x < b + n -> ~ range_allocated s x) /\
  (forall x, range_allocated s' x <-> range_allocated s x \/ b <= x < b + n).

Lemma managed_other r s σ σ' :
  managed r s σ -> (forall v, in_region r v -> σ' v = σ v) -> managed r s σ'.
Proof using. intros (H1 & H2 & H3) Hσ. split_and!; [done|done|]. intros x Hx Hn. rewrite Hσ by done. by apply H3. Qed.

Lemma managed_region_ok r s σ : managed r s σ -> region_ok r.
Proof using. intros (H1 & <- & _). by apply range_region_ok. Qed.

Lemma managed_alloc r s σ n s' b σ' :
  managed r s σ ->
  alloc_contract range_inv range_region range_allocated s n s' (Some b) ->
  (forall v, ~ (b <= v < b + n) -> σ' v = σ v) -> managed r s' σ'.
Proof using.
  intros (H1 & H2 & H3) (C1 & C2 & C3 & C4 & C5 & C6 & C7) Hσ.
  split_and!; [done|by rewrite C2|]. intros x Hx Hn. rewrite C7 in Hn. rewrite Hσ by tauto. apply H3; tauto.
Qed.

Lemma managed_fresh r s σ n s' b :
  managed r s σ -> 0 < n ->
  alloc_contract range_inv range_region range_allocated s n s' (Some b) ->
  unmapped_at σ b n /\ b mod 4096 = 0 /\ vr_base r <= b /\ b + n <= region_end r /\
  0 <= b /\ b + n <= U64 /\ canonical b.
Proof using.
  intros (H1 & H2 & H3) Hn (C1 & C2 & C3 & C4 & C5 & C6 & C7).
  pose proof (range_region_ok s H1) as Hok. rewrite H2 in *. pose proof (region_end_u64 _ Hok).
  split_and!; try done; try lia.
  - intros v Hv. split; [apply (region_canonical r); [done|lia]|].
    apply H3; [unfold in_region; lia|]. by apply C6.
  - apply (region_canonical r); [done|lia].
Qed.

Lemma wp_managed_allocate r s σ n :
  managed r s σ -> 0 < n -> page_round n = n -> region_end r + n + PAGE_MASK < U64 ->
  wp (range_allocate s n) (fun '(s', o) =>
    match o with
    | Some b => unmapped_at σ b n /\ b mod 4096 = 0 /\ vr_base r <= b /\ b + n <= region_end r /\
        (0 <= b /\ b + n <= U64 /\ canonical b) /\ fresh_range s s' b n /\
        forall σ', (forall v, ~ (b <= v < b + n) -> σ' v = σ v) -> managed r s' σ'
    | None => s' = s /\ no_room r s n
    end).
Proof using.
  intros Hm Hn Hr Hu. pose proof Hm as (H1 & H2 & _).
  eapply wp_mono; [apply range_allocate_spec; [done|done|by rewrite H2]|]. rewrite Hr.
  intros [s' [b|]] Hc; [|destruct Hc as (_ & _ & ? & ?); split; [done|unfold no_room; by rewrite <- H2]].
  destruct (managed_fresh r s σ n s' b Hm Hn Hc) as (F1 & F2 & F3 & F4 & F5).
  split; [done|]. split; [done|]. split; [done|]. split; [done|]. split; [done|].
  split; [destruct Hc as (_ & _ & _ & _ & _ & ? & ?); done|]. intros σ' Hσ. by eapply managed_alloc.
Qed.
End Managed.

Lemma page_round_pages k : page_round (k * PAGE_SIZE) = k * PAGE_SIZE.
Proof. unfold page_round, PAGE_SIZE, PAGE_MASK. divlia. Qed.

Lemma mod_add_pages b i : b mod 4096 = 0 -> (b + 4096 * i) mod 4096 = 0.
Proof. intros <-. rewrite Z.mul_comm. by apply Z.mod_add. Qed.

Lemma page_count_round size : (size + PAGE_SIZE - 1) / PAGE_SIZE * PAGE_SIZE = page_round size.
Proof. unfold page_round, PAGE_SIZE, PAGE_MASK. rewrite Z.mul_comm. do 2 f_equal. lia. Qed.

Section Inv.
Context {G : Type} `{BG : BitFlags MF_ALL G} {A : Type} `{FA : FrameAllocator A}.
Context {off : Z} `{PM : !PageMapper G A off}.
Context {Vs : Type} `{AVs : ArrayVec FreeRange Vs STACKS_FREE_LIST_CAP}.
Context {Vm : Type} `{AVm : ArrayVec FreeRange Vm MMIO_FREE_LIST_CAP}.

(** The addresses in [R] are backed by frames of their own: no two pages
    share one, none is free, and none holds a page table. *)
Definition ram_area (R : Z -> Prop) (root : Z) (a : A) (m : mem) (σ : aspace) : Prop :=
  (forall v sz pa fl, R v -> σ v = Some (sz, pa, fl) -> sz = Size4KiB /\ exists f, pa = f * 4096 /\
     (f ∉ fa_free a) /\ (forall x, in_frame off (f * 4096) x -> ~ pm_table root m x)) /\
  (forall v w sz sz' pa fl fl', R v -> R w -> σ v = Some (sz, pa, fl) -> σ w = Some (sz', pa, fl') ->
     v / 4096 = w / 4096).

Lemma ram_kept R root a m σ a' m' σ' :
  ram_area R root a m σ -> kept off (pm_table root) a m a' m' ->
  (forall v, R v -> σ' v = σ v) -> ram_area R root a' m' σ'.
Proof using.
  intros [H1 H2] (K1 & K2 & K3) Hσ. split.
  - intros v sz pa fl Hv E. rewrite Hσ in E by done. destruct (H1 v sz pa fl Hv E) as (-> & f & -> & Hf & Ht).
    split; [done|]. exists f. split; [done|]. split; [clear -Hf K1; set_solver|].
    intros x Hx Hx'. destruct (K2 x Hx') as [?|(h & Hh & Hxh)]; [by apply (Ht x)|].
    rewrite <- (in_frame_inj off f h x Hx Hxh) in Hh. unfold taken in Hh. clear -Hh Hf. set_solver.
  - intros v w sz sz' pa fl fl' Hv Hw E E'. rewrite !Hσ in * by done. by eapply H2.
Qed.

(** Mapping fresh frames keeps such an area. *)
Lemma ram_fresh R root fl a m σ b fs a' m' :
  ram_area R root a m σ -> b mod 4096 = 0 -> mapped_fresh root fl a m σ b fs a' m' ->
  ram_area R root a' m' (map_range b ((fun f => f * 4096) <$> fs) fl σ).
Proof using.
  intros Hram Hb (Hi & Hk & _ & Hnd & HF). rewrite Forall_forall in HF.
  destruct (ram_kept R root a m σ a' m' σ Hram Hk ltac:(done)) as [K1 K2]. destruct Hram as [H1 _].
  set (σ' := map_range b _ fl σ).
  set (in_new v := b <= v < b + 4096 * Z.of_nat (length fs)).
  assert (forall v, in_new v -> exists f, fs !! Z.to_nat ((v - b) / 4096) = Some f /\
    f ∈ fs /\ σ' v = Some (Size4KiB, f * 4096, fl)) as Hin.
  { intros v Hv. destruct (map_range_in b ((fun f => f * 4096) <$> fs) fl σ v) as (pa & Hpa & E); [by rewrite length_fmap|].
    rewrite list_lookup_fmap in Hpa. destruct (fs !! _) as [f|] eqn:Ef; [|done]. injection Hpa as <-.
    exists f. split; [done|]. split; [by eapply list_elem_of_lookup_2|done]. }
  assert (forall v, ~ in_new v -> σ' v = σ v) as Hout.
  { intros v Hv. apply map_range_out. by rewrite length_fmap. }
  assert (forall v sz pa fl', R v -> ~ in_new v -> σ' v = Some (sz, pa, fl') ->
    forall f, f ∈ fs -> pa <> f * 4096) as Hold.
  { intros v sz pa fl' Hv Hnv E f Hf ->. rewrite Hout in E by done.
    destruct (H1 _ _ _ _ Hv E) as (_ & g & Hg & Hgf & _). destruct (HF f Hf) as [Ht _].
    assert (g = f) as -> by lia. unfold taken in Ht. clear -Hgf Ht. set_solver. }
  assert (forall v, in_new v \/ ~ in_new v) as Hdec by (intros v; unfold in_new; lia).
  split.
  - intros v sz pa fl' Hv E. destruct (Hdec v) as [Hn|Hn]; [|rewrite Hout in E by done; by eapply K1].
    destruct (Hin v Hn) as (f & _ & Hf & E'). rewrite E' in E. injection E as <- <- <-. split; [done|].
    exists f. split; [done|]. destruct (HF f Hf) as [Ht Hz]. split; [unfold taken in Ht; clear -Ht; set_solver|].
    intros x Hx. by apply Hz.
  - intros v w sz sz' pa fl1 fl2 Hv Hw E E'. destruct (Hdec v) as [Hn|Hn], (Hdec w) as [Hn'|Hn'].
    + destruct (Hin v Hn) as (f & Hl & _ & Ev), (Hin w Hn') as (f' & Hl' & _ & Ew).
      rewrite Ev in E. rewrite Ew in E'. injection E as _ <- _. injection E' as _ Ef _.
      assert (f' = f) as -> by lia. pose proof (NoDup_lookup _ _ _ _ Hnd Hl Hl') as Hij. unfold in_new in *.
      apply Z.mod_divide in Hb as [q ->]; [|lia]. clear -Hij Hn Hn'. divlia.
    + destruct (Hin v Hn) as (f & _ & Hf & Ev). rewrite Ev in E. injection E as _ <- _.
      by destruct (Hold _ _ _ _ Hw Hn' E' f Hf).
    + destruct (Hin w Hn') as (f & _ & Hf & Ew). rewrite Ew in E'. injection E' as _ <- _.
      by destruct (Hold _ _ _ _ Hv Hn E f Hf).
    + rewrite Hout in E, E' by done. by eapply K2.
Qed.

Definition ram_addr (l : MemoryLayout) (v : Z) : Prop := in_region (ml_heap l) v \/ in_region (ml_stacks l) v.

Definition vmm_inv (v : Vmm Vs Vm) (a : A) (m : mem) (σ : aspace) : Prop :=
  pm_inv a m (vmm_root_phys v) σ /\
  (exists h p, vmm_layout v = MemoryLayout_new h p) /\
  managed (ml_heap (vmm_layout v)) (vmm_heap_alloc v) σ /\
  managed (ml_stacks (vmm_layout v)) (vmm_stacks_alloc v) σ /\
  managed (ml_mmio (vmm_layout v)) (vmm_mmio_alloc v) σ /\
  ram_area (ram_addr (vmm_layout v)) (vmm_root_phys v) a m σ.

Lemma layout_regions h p :
  let l := MemoryLayout_new h p in
  ml_heap l = mkVirtRegion DEFAULT_REGIONS_BASE HEAP_MAX_SIZE /\
  ml_stacks l = mkVirtRegion (DEFAULT_REGIONS_BASE + STACKS_OFFSET) STACKS_MAX_SIZE /\
  ml_mmio l = mkVirtRegion (DEFAULT_REGIONS_BASE + MMIO_OFFSET) MMIO_MAX_SIZE.
Proof using. split_and!; reflexivity. Qed.

Lemma layout_disjoint l x :
  (exists h p, l = MemoryLayout_new h p) ->
  (in_region (ml_heap l) x -> ~ in_region (ml_stacks l) x /\ ~ in_region (ml_mmio l) x) /\
  (in_region (ml_stacks l) x -> ~ in_region (ml_mmio l) x).
Proof using.
  intros (h & p & ->). destruct (layout_regions h p) as (-> & -> & ->). unfold in_region, region_end; simpl.
  unfold DEFAULT_REGIONS_BASE, HEAP_MAX_SIZE, STACKS_OFFSET, STACKS_MAX_SIZE, MMIO_OFFSET, MMIO_MAX_SIZE, TiB. lia.
Qed.

(** Mapping inside one region keeps the others. *)
Lemma managed_range {S} `{RangeAllocator S} r r' (s : S) σ b frames fl :
  managed r s σ -> (forall x, in_region r' x -> ~ in_region r x) ->
  vr_base r' <= b -> b + 4096 * Z.of_nat (length frames) <= region_end r' ->
  managed r s (map_range b frames fl σ).
Proof using.
  intros Hm Hd H1 H2. apply (managed_other _ _ σ); [done|]. intros x Hx. apply map_range_out.
  intros Hin. apply (Hd x); [unfold in_region; lia|done].
Qed.

Lemma ram_flags_plain : Z.testbit (bf_bits RAM_FLAGS) 5 = false.
Proof using.
  unfold RAM_FLAGS, MF_WRITABLE, MF_GLOBAL. by rewrite bf_union_bits, !bf_retain_bits by (vm_compute; done).
Qed.

Lemma mmio_flags_plain : Z.testbit (bf_bits (bf_union (bf_union MF_WRITABLE MF_GLOBAL) MF_CACHE_DISABLE)) 5 = false.
Proof using.
  unfold MF_WRITABLE, MF_GLOBAL, MF_CACHE_DISABLE. by rewrite !bf_union_bits, !bf_retain_bits by (vm_compute; done).
Qed.

(** Heap pages, freshly backed: what [grow_heap] promises. *)
Lemma wp_grow_heap (v : Vmm Vs Vm) a m σ bytes :
  vmm_inv v a m σ -> 0 < bytes <= HEAP_MAX_SIZE -> 4 * (page_round bytes / 4096) <= Z.of_nat (size (fa_free a)) ->
  wp (grow_heap v bytes a m) (fun '(v', a', m', r) =>
    match r with
    | Ok (base, n) =>
        n = page_round bytes /\ (exists h, v' = with_heap v h) /\
        vr_base (ml_heap (vmm_layout v)) <= base /\ base + n <= region_end (ml_heap (vmm_layout v)) /\
        unmapped_at σ base n /\
        exists fs, n = 4096 * Z.of_nat (length fs) /\
          mapped_fresh (vmm_root_phys v) (pm_flags RAM_FLAGS) a m σ base fs a' m' /\
          vmm_inv v' a' m' (map_range base ((fun f => f * 4096) <$> fs) (pm_flags RAM_FLAGS) σ)
    | Err e => e = VmmRegionExhausted /\ v' = v /\ a' = a /\ m' = m /\
        no_room (ml_heap (vmm_layout v)) (vmm_heap_alloc v) (page_round bytes)
    end).
Proof using.
  intros Hinv Hb Hfr. pose proof Hinv as (Hi & (h & p & Hl) & Hh & Hs & Hm & Hram).
  destruct (layout_regions h p) as (R1 & R2 & R3). rewrite <- Hl in R1, R2, R3.
  pose proof (page_round_spec bytes) as [Hr1 Hr2]. rewrite <- page_count_round in *.
  unfold grow_heap. wp_step. wp_step; [unfold PAGE_SIZE, HEAP_MAX_SIZE, TiB in *; ulia|]. wp_step. wp_step. cbv zeta.
  set (k := (bytes + PAGE_SIZE - 1) / PAGE_SIZE) in *. unfold PAGE_SIZE, PAGE_MASK, HEAP_MAX_SIZE, TiB in Hr1, Hr2, Hb.
  assert (0 < k) as Hk0 by (unfold PAGE_SIZE in *; lia).
  change 4096 with PAGE_SIZE in Hfr at 1. rewrite Z.div_mul in Hfr by done.
  wp_step. wp_step; [unfold PAGE_SIZE; ulia|]. wp_step.
  eapply wp_mono; [apply (wp_managed_allocate (ml_heap (vmm_layout v)) (vmm_heap_alloc v) σ (k * PAGE_SIZE) Hh)|].
  { unfold PAGE_SIZE. lia. } { apply page_round_pages. }
  { rewrite R1. unfold region_end, DEFAULT_REGIONS_BASE, HEAP_MAX_SIZE, TiB, PAGE_MASK, PAGE_SIZE. simpl. ulia. }
  intros [s' [b|]]; [|intros [-> Hno]; wp_step; by destruct v].
  intros (Hun & Hal & Hb1 & Hb2 & Hb3 & _ & Hman). wp_steps. rewrite (Z.mul_comm k PAGE_SIZE) in *.
  eapply wp_mono; [by apply (wp_back_range (vmm_root_phys v) RAM_FLAGS ram_flags_plain a m σ b k); try done; lia|].
  intros [[a' m'] r] (-> & fs & -> & Hfr'). wp_step. split; [done|]. split; [by exists s'|].
  unfold PAGE_SIZE in *. split; [done|]. split; [done|]. split; [done|]. exists fs. split; [done|]. split; [done|].
  pose proof (fun x => layout_disjoint (vmm_layout v) x (ex_intro _ h (ex_intro _ p Hl))) as Hd.
  split_and!; simpl; [apply Hfr'|by exists h, p| | | |by eapply ram_fresh].
  - apply Hman. intros x Hx. apply map_range_out. by rewrite length_fmap.
  - apply (managed_range _ (ml_heap (vmm_layout v))); rewrite ?length_fmap; try done. intros x Hx. by destruct (proj1 (Hd x) Hx).
  - apply (managed_range _ (ml_heap (vmm_layout v))); rewrite ?length_fmap; try done. intros x Hx. by destruct (proj1 (Hd x) Hx).
Qed.

(** What [alloc_kernel_stack] promises: sixteen fresh pages above an unmapped one. *)
Lemma wp_alloc_kernel_stack {W} (v : Vmm Vs Vm) a m σ (cleanup : option (StackCleanupFn W)) :
  vmm_inv v a m σ -> 64 <= Z.of_nat (size (fa_free a)) ->
  wp (alloc_kernel_stack v a m cleanup) (fun '(v', a', m', r) =>
    match r with
    | Ok ks =>
        ks = mkKernelStack (ks_guard ks + GUARD_PAGE_SIZE + KERNEL_STACK_SIZE) (ks_guard ks + GUARD_PAGE_SIZE)
               (ks_guard ks) cleanup /\
        (exists s, v' = with_stacks v s) /\ vr_base (ml_stacks (vmm_layout v)) <= ks_guard ks /\
        ks_top ks <= region_end (ml_stacks (vmm_layout v)) /\
        unmapped_at σ (ks_guard ks) (GUARD_PAGE_SIZE + KERNEL_STACK_SIZE) /\
        fresh_range (vmm_stacks_alloc v) (vmm_stacks_alloc v') (ks_guard ks) (GUARD_PAGE_SIZE + KERNEL_STACK_SIZE) /\
        exists fs, length fs = 16%nat /\
          mapped_fresh (vmm_root_phys v) (pm_flags RAM_FLAGS) a m σ (ks_bottom ks) fs a' m' /\
          vmm_inv v' a' m' (map_range (ks_bottom ks) ((fun f => f * 4096) <$> fs) (pm_flags RAM_FLAGS) σ)
    | Err e => e = VmmRegionExhausted /\ v' = v /\ a' = a /\ m' = m /\
        no_room (ml_stacks (vmm_layout v)) (vmm_stacks_alloc v) (GUARD_PAGE_SIZE + KERNEL_STACK_SIZE)
    end).
Proof using.
  intros Hinv Hfr. pose proof Hinv as (Hi & (h & p & Hl) & Hh & Hs & Hm & Hram).
  destruct (layout_regions h p) as (R1 & R2 & R3). rewrite <- Hl in R1, R2, R3.
  unfold alloc_kernel_stack. wp_step. wp_step; [done|]. wp_step.
  eapply wp_mono; [apply (wp_managed_allocate (ml_stacks (vmm_layout v)) (vmm_stacks_alloc v) σ _ Hs)|]; [done|done| |].
  { rewrite R2. by vm_compute. }
  intros [s' [b|]]; [|intros [-> Hno]; wp_step; by destruct v].
  intros (Hun & Hal & Hb1 & Hb2 & (Hb3 & Hb4 & Hb5) & Hall & Hman). wp_steps.
  change (GUARD_PAGE_SIZE + KERNEL_STACK_SIZE) with (4096 + 65536) in *.
  assert (canonical (b + 4096)) as Hc by (apply (Hun (b + 4096)); lia).
  assert (canonical (b + 4096 + 65536)) as Hc'.
  { apply (region_canonical (ml_stacks (vmm_layout v))); [|lia]. by apply (managed_region_ok _ _ σ Hs). }
  unfold GUARD_PAGE_SIZE, KERNEL_STACK_SIZE, PAGE_SIZE. change (64 * 1024) with 65536.
  rewrite (VirtAddr_add_canonical b 4096), (VirtAddr_add_canonical (b + 4096) 65536) by done.
  eapply wp_mono; [apply (wp_back_range (vmm_root_phys v) RAM_FLAGS ram_flags_plain a m σ (b + 4096) 16); try done; try lia|].
  - rewrite mod_add_same by lia. done.
  - split_and!; [lia|lia|done].
  - intros x Hx. apply Hun. lia.
  - intros [[a' m'] r] (-> & fs & Hlen & Hfr'). wp_step. simpl.
    pose proof (fun x => layout_disjoint (vmm_layout v) x (ex_intro _ h (ex_intro _ p Hl))) as Hd.
    split; [done|]. split; [by exists s'|]. split; [lia|]. split; [lia|]. split; [done|].
    split; [done|]. exists fs. split; [lia|]. split; [done|].
    split_and!; simpl; [apply Hfr'|by exists h, p| | | |].
    + apply (managed_range _ (ml_stacks (vmm_layout v))); rewrite ?length_fmap; try done; try lia.
      intros x Hx Hx'. by destruct (proj1 (Hd x) Hx').
    + apply Hman. intros x Hx. apply map_range_out. rewrite length_fmap. lia.
    + apply (managed_range _ (ml_stacks (vmm_layout v))); rewrite ?length_fmap; try done; try lia.
      intros x Hx. by apply (proj2 (Hd x)).
    + eapply ram_fresh; [done| |done]. rewrite mod_add_same by lia. done.
Qed.

(** ** MMIO windows *)

(** The frames of a window on [k] pages of device memory. *)
Definition device_frames (phys k : Z) : list Z := (fun i => phys + 4096 * i) <$> seqZ 0 k.

Lemma device_frames_length phys k : 0 <= k -> Z.of_nat (length (device_frames phys k)) = k.
Proof using. intros Hk. unfold device_frames. rewrite length_fmap, length_seqZ. lia. Qed.

Lemma device_frames_snoc phys k : 0 <= k -> device_frames phys (k + 1) = device_frames phys k ++ [phys + 4096 * k].
Proof using. intros Hk. unfold device_frames. by rewrite seqZ_app, fmap_app, Z.add_0_l by lia. Qed.

Definition MMIO_FLAGS : G := bf_union (bf_union MF_WRITABLE MF_GLOBAL) MF_CACHE_DISABLE.

(** The loop of [map_mmio_with_cache]. *)
Lemma wp_map_device root a m σ base phys k :
  pm_inv a m root σ -> base mod 4096 = 0 -> 0 <= base /\ base + 4096 * k <= U64 /\ canonical base -> 0 <= k ->
  unmapped_at σ base (4096 * k) -> 3 * k <= Z.of_nat (size (fa_free a)) ->
  0 <= phys -> phys mod 4096 = 0 -> phys + 4096 * k <= 2 ^ 52 ->
  wp (for_range 0 (Z.to_nat k) (fun i '(a, m) =>
        d ← mul64 i PAGE_SIZE;
        let virt := VirtAddr_add base d in
        page ← Page_containing_address Size4KiB virt;
        p ← PhysAddr_add phys d;
        phys_page ← PhysFrame_containing_address Size4KiB p;
        pm_map a m root page phys_page MMIO_FLAGS) (a, m))
     (fun '(a', m') => pm_inv a' m' root (map_range base (device_frames phys k) (pm_flags MMIO_FLAGS) σ) /\
        kept off (pm_table root) a m a' m').
Proof using.
  intros Hi Hb (Hb0 & Hb1 & Hc) Hk Hun Hsz Hp0 Hp Hp1.
  set (I i (st : A * mem) := let '(a', m') := st in
    pm_inv a' m' root (map_range base (device_frames phys i) (pm_flags MMIO_FLAGS) σ) /\
    kept off (pm_table root) a m a' m' /\ Z.of_nat (size (fa_free a)) <= Z.of_nat (size (fa_free a')) + 3 * i).
  eapply wp_mono; [apply (wp_for_range I)|].
  - split_and!; [|apply kept_refl|lia]. eapply pm_inv_same; [|exact Hi]. intros x _. by rewrite map_range_nil.
  - rewrite Z2Nat.id by lia. intros i [a1 m1] Hik (Hi1 & Hk1 & Hs1).
    pose proof (Hun (base + 4096 * i) ltac:(lia)) as [Hci Hni].
    wp_step. wp_step; [unfold PAGE_SIZE; ulia|]. change (i * PAGE_SIZE) with (i * 4096). rewrite (Z.mul_comm i 4096).
    rewrite VirtAddr_add_canonical by done. cbv zeta. wp_step.
    apply wp_Page_containing_aligned; [done|by apply mod_add_pages|]. wp_step.
    apply wp_PhysAddr_add; [unfold is_phys; lia|]. wp_step.
    apply wp_PhysFrame_containing_aligned; [unfold is_phys; lia|by apply mod_add_pages|].
    eapply wp_mono; [apply (pm_map_spec a1 m1 root _ _ _ MMIO_FLAGS Hi1 Hci)|].
    + unfold is_phys. lia.
    + by apply mod_add_pages.
    + apply mmio_flags_plain.
    + lia.
    + rewrite map_range_out by (rewrite device_frames_length; lia). done.
    + intros [a2 m2] (Hi2 & Hs2 & Hk2). split_and!; [|by eapply kept_trans|lia].
      rewrite device_frames_snoc by lia. eapply pm_inv_same; [|exact Hi2]. intros x _.
      rewrite <- map_range_snoc by done. by rewrite device_frames_length by lia.
  - rewrite Z.add_0_l, Z2Nat.id by lia. intros [a' m'] (H1 & H2 & _). done.
Qed.

Lemma wp_map_mmio {W} (v : Vmm Vs Vm) a m σ phys size (cleanup : option (MmioCleanupFn W)) :
  vmm_inv v a m σ -> 0 < size <= MMIO_MAX_SIZE -> 0 <= phys -> phys mod 4096 = 0 ->
  phys + page_round size <= 2 ^ 52 -> 3 * (page_round size / 4096) <= Z.of_nat (stdpp.base.size (fa_free a)) ->
  wp (map_mmio v phys size a m cleanup) (fun '(v', a', m', r) =>
    match r with
    | Ok mm =>
        let base := mm_virt_base mm in let n := page_round size in
        mm = mkMmioMapping base phys n cleanup /\ (exists s, v' = with_mmio v s) /\
        vr_base (ml_mmio (vmm_layout v)) <= base /\ base + n <= region_end (ml_mmio (vmm_layout v)) /\
        base mod 4096 = 0 /\ unmapped_at σ base n /\
        fresh_range (vmm_mmio_alloc v) (vmm_mmio_alloc v') base n /\
        kept off (pm_table (vmm_root_phys v)) a m a' m' /\
        vmm_inv v' a' m' (map_range base (device_frames phys (n / 4096)) (pm_flags MMIO_FLAGS) σ)
    | Err e => e = VmmRegionExhausted /\ v' = v /\ a' = a /\ m' = m /\
        no_room (ml_mmio (vmm_layout v)) (vmm_mmio_alloc v) (page_round size)
    end).
Proof using.
  intros Hinv Hb Hp0 Hp Hp1 Hfr. pose proof Hinv as (Hi & (h & p & Hl) & Hh & Hs & Hm & Hram).
  destruct (layout_regions h p) as (R1 & R2 & R3). rewrite <- Hl in R1, R2, R3.
  pose proof (page_round_spec size) as [Hr1 Hr2]. rewrite <- page_count_round in *.
  unfold map_mmio, map_mmio_with_cache. wp_step. wp_step; [unfold PAGE_SIZE, MMIO_MAX_SIZE, TiB in *; ulia|].
  wp_step. wp_step. cbv zeta.
  set (k := (size + PAGE_SIZE - 1) / PAGE_SIZE) in *. unfold PAGE_SIZE, PAGE_MASK, MMIO_MAX_SIZE, TiB in Hr1, Hr2, Hb.
  assert (0 < k) as Hk0 by (unfold PAGE_SIZE in *; lia).
  change 4096 with PAGE_SIZE in Hfr at 1. rewrite Z.div_mul in Hfr by done.
  change (k * PAGE_SIZE / 4096) with (k * PAGE_SIZE / PAGE_SIZE). rewrite Z.div_mul by done.
  wp_step. wp_step. wp_step.
  eapply wp_mono; [apply (wp_managed_allocate (ml_mmio (vmm_layout v)) (vmm_mmio_alloc v) σ (k * PAGE_SIZE) Hm)|].
  { unfold PAGE_SIZE. lia. } { apply page_round_pages. }
  { rewrite R3. unfold region_end, DEFAULT_REGIONS_BASE, MMIO_OFFSET, MMIO_MAX_SIZE, TiB, PAGE_MASK, PAGE_SIZE. simpl. ulia. }
  intros [s' [b|]]; [|intros [-> Hno]; wp_step; by destruct v].
  intros (Hun & Hal & Hb1 & Hb2 & Hb3 & Hall & Hman). unfold PAGE_SIZE in *. rewrite (Z.mul_comm k 4096) in *.
  wp_step.
  eapply wp_mono; [apply (wp_map_device (vmm_root_phys v) a m σ b phys k); try done; lia|].
  intros [a' m'] [Hi' Hk']. wp_step. simpl. split; [done|]. split; [by exists s'|]. split_and!; try done.
  pose proof (fun x => layout_disjoint (vmm_layout v) x (ex_intro _ h (ex_intro _ p Hl))) as Hd.
  assert (Z.of_nat (length (device_frames phys k)) = k) as Hlen by (apply device_frames_length; lia).
  split_and!; simpl; [done|by exists h, p| | | |].
  - apply (managed_range _ (ml_mmio (vmm_layout v))); rewrite ?Hlen; try done.
    intros x Hx Hx'. by destruct (proj1 (Hd x) Hx').
  - apply (managed_range _ (ml_mmio (vmm_layout v))); rewrite ?Hlen; try done.
    intros x Hx Hx'. by apply (proj2 (Hd x)).
  - apply Hman. intros x Hx. apply map_range_out. by rewrite Hlen.
  - eapply ram_kept; [done|done|]. intros x Hx. apply map_range_out. rewrite Hlen. intros Hin.
    assert (in_region (ml_mmio (vmm_layout v)) x) as Hx' by (unfold in_region; lia).
    destruct Hx as [Hx|Hx]; [by destruct (proj1 (Hd x) Hx)|by apply (proj2 (Hd x))].
Qed.

(** The loop of [default_mmio_cleanup], on pages that are all mapped. *)
Lemma wp_unmap_pages (v : Vmm Vs Vm) a m σ base k :
  pm_inv a m (vmm_root_phys v) σ -> base mod 4096 = 0 -> 0 <= base /\ base + 4096 * k <= U64 -> 0 <= k ->
  (forall x, base <= x < base + 4096 * k -> canonical x /\ exists pa fl, σ x = Some (Size4KiB, pa, fl)) ->
  wp (for_range 0 (Z.to_nat k) (fun i m =>
      d ← mul64 i PAGE_SIZE;
      let virt := VirtAddr_add base d in
      page ← Page_containing_address Size4KiB virt;
      '(m, _) ← unmap_page v page m;
      Ret m) m)
     (fun m' => pm_inv a m' (vmm_root_phys v) (unmap_range base (4096 * k) σ) /\
        kept off (pm_table (vmm_root_phys v)) a m a m').
Proof using.
  intros Hi Hb [Hb0 Hb1] Hk Hmap. set (root := vmm_root_phys v) in *.
  eapply wp_mono; [apply (wp_for_range (fun i m' => pm_inv a m' root (unmap_range base (4096 * i) σ) /\
    kept off (pm_table root) a m a m'))|].
  - split; [|apply kept_refl]. eapply pm_inv_same; [|exact Hi]. intros x _. unfold unmap_range. zcases; done.
  - rewrite Z2Nat.id by lia. intros i m1 Hik [Hi1 Hk1].
    destruct (Hmap (base + 4096 * i) ltac:(lia)) as (Hci & pa & fl & E).
    wp_step. wp_step; [unfold PAGE_SIZE; ulia|]. change (i * PAGE_SIZE) with (i * 4096). rewrite (Z.mul_comm i 4096).
    rewrite VirtAddr_add_canonical by done. cbv zeta. wp_step.
    apply wp_Page_containing_aligned; [done|by apply mod_add_pages|]. wp_step. unfold unmap_page. wp_step.
    eapply wp_mono; [apply (pm_unmap_spec a m1 root _ _ Hi1 Hci)|].
    assert (unmap_range base (4096 * i) σ (base + 4096 * i) = Some (Size4KiB, pa, fl)) as E'
      by (unfold unmap_range; zcases; done).
    intros [m2 [f|e]] [Hr Hk2]; [|by destruct Hr as [_ [Hr _]]; destruct (Hr pa fl)].
    destruct Hr as (pa' & fl' & _ & _ & Hi2). wp_steps. split; [|by eapply kept_trans].
    eapply pm_inv_same; [|exact Hi2]. intros x _. apply unmap_range_snoc; [done|lia].
  - by rewrite Z.add_0_l, Z2Nat.id by lia.
Qed.

Lemma vmm_inv_unmap (v : Vmm Vs Vm) a m σ m' base n s :
  vmm_inv v a m σ -> pm_inv a m' (vmm_root_phys v) (unmap_range base n σ) ->
  kept off (pm_table (vmm_root_phys v)) a m a m' ->
  vr_base (ml_mmio (vmm_layout v)) <= base -> base + n <= region_end (ml_mmio (vmm_layout v)) ->
  fra_inv s -> fra_region s = ml_mmio (vmm_layout v) ->
  (forall x, ~ (base <= x < base + n) -> ~ allocated s x -> ~ allocated (vmm_mmio_alloc v) x) ->
  vmm_inv (with_mmio v s) a m' (unmap_range base n σ).
Proof using.
  intros (_ & Hl & Hh & Hs & Hm & Hram) Hi Hk Hb1 Hb2 Hs1 Hs2 Hs3.
  pose proof (fun x => layout_disjoint (vmm_layout v) x Hl) as Hd.
  assert (forall x, ~ in_region (ml_mmio (vmm_layout v)) x -> unmap_range base n σ x = σ x) as Hout.
  { intros x Hx. unfold unmap_range. destruct (Z.leb_spec base x), (Z.ltb_spec x (base + n)); try done.
    destruct Hx. unfold in_region. lia. }
  split_and!; simpl; [done|done| | | |].
  - apply (managed_other _ _ σ); [done|]. intros x Hx. apply Hout. by destruct (proj1 (Hd x) Hx).
  - apply (managed_other _ _ σ); [done|]. intros x Hx. apply Hout. by apply (proj2 (Hd x)).
  - split_and!; [done|done|]. intros x Hx Ha. unfold unmap_range.
    destruct (Z.leb_spec base x), (Z.ltb_spec x (base + n)); simpl; try done;
      (apply Hm; [done|]; apply Hs3; [lia|done]).
  - eapply ram_kept; [done|done|]. intros x [Hx|Hx]; apply Hout; [by destruct (proj1 (Hd x) Hx)|by apply (proj2 (Hd x))].
Qed.

(** The cleanup takes the window out of the address space and returns its
    addresses; a free list with no room for them keeps them instead. *)
Lemma wp_mmio_cleanup (v : Vmm Vs Vm) a m σ base n :
  vmm_inv v a m σ -> base mod 4096 = 0 -> 0 < n -> n mod 4096 = 0 ->
  vr_base (ml_mmio (vmm_layout v)) <= base -> base + n <= region_end (ml_mmio (vmm_layout v)) ->
  (forall x, base <= x < base + n -> allocated (vmm_mmio_alloc v) x /\ exists pa fl, σ x = Some (Size4KiB, pa, fl)) ->
  wp (default_mmio_cleanup base n (mkMm (Some v) a m)) (fun w => exists s m',
    w = mkMm (Some (with_mmio v s)) a m' /\ vmm_inv (with_mmio v s) a m' (unmap_range base n σ) /\
    kept off (pm_table (vmm_root_phys v)) a m a m' /\
    ((forall x, allocated s x <-> allocated (vmm_mmio_alloc v) x /\ ~ (base <= x < base + n)) \/
     s = vmm_mmio_alloc v /\ MMIO_FREE_LIST_CAP <= free_list_len s)).
Proof using.
  intros Hinv Hb Hn Hnm Hb1 Hb2 Hall. pose proof Hinv as (Hi & (h & p & Hl) & Hh & Hs & Hm & Hram).
  pose proof (managed_region_ok _ _ _ Hm) as Hok. pose proof (region_end_u64 _ Hok) as Hu.
  apply Z.mod_divide in Hnm as [k ->]; [|lia].
  unfold default_mmio_cleanup, vmm_with. wp_steps. apply (wp_expect _ v); [done|]. wp_steps.
  change (k * 4096) with (k * PAGE_SIZE) at 1. rewrite Z.div_mul by done.
  eapply wp_mono; [apply (wp_unmap_pages v a m σ base k Hi); try done; try lia|].
  { intros x Hx. split; [apply (region_canonical _ _ Hok); lia|apply Hall; lia]. }
  intros m1 [Hi1 Hk1]. wp_steps. unfold dealloc_mmio_region. wp_step.
  assert (page_round (k * 4096) = k * 4096) as Hpr by apply (page_round_pages k).
  eapply wp_mono; [apply (wp_deallocate (vmm_mmio_alloc v) base (k * 4096)); [apply Hm|lia|done|]|].
  { rewrite Hpr. intros x Hx. apply Hall. lia. }
  rewrite Hpr. rewrite (Z.mul_comm k 4096) in *.
  intros [s' r] Hr. destruct r as [u|[]]; wp_steps; simpl; exists s', m1.
  - destruct Hr as (F1 & F2 & F3). split; [done|]. split; [|split; [done|by left]].
    eapply vmm_inv_unmap; try done; [exact (eq_trans F2 (proj1 (proj2 Hm)))|].
    intros x Hx Hx' Ha. apply Hx'. by apply F3.
  - destruct Hr as (-> & Hfull & _). split; [done|]. split; [|split; [done|by right]].
    eapply vmm_inv_unmap; try done; apply Hm.
Qed.
End Inv.
