(* ===== verification/VmmSafe.v ===== *)
(** * The virtual memory manager: theorems

    What the operations of [Vmm] promise to the rest of the kernel, first one
    by one, then for every sequence of them interleaved with writes of the
    kernel to its heap and stacks. *)

From S2P Require Import Prelude Mem Addr Paging Layout Std Extern Region Pmm PageTable PageWalk PageTableSpec PageMap Mapper Vmm.

Section Safe.
Context {G : Type} `{BG : BitFlags MF_ALL G} {A : Type} `{FA : FrameAllocator A}.
Context {off : Z} `{PM : !PageMapper G A off}.
Context {Vs : Type} `{AVs : ArrayVec FreeRange Vs STACKS_FREE_LIST_CAP}.
Context {Vm : Type} `{AVm : ArrayVec FreeRange Vm MMIO_FREE_LIST_CAP}.

Lemma region_ok_const r :
  (vr_base r mod PAGE_SIZE =? 0) && (0 <=? vr_max_size r) && (U64 - 2 ^ 47 <=? vr_base r) &&
  (vr_base r + vr_max_size r <? U64) = true -> region_ok r.
Proof using. rewrite !andb_true_iff. intros [[[H1 H2] H3] H4]. split_and!; lia. Qed.

(** A new manager, on tables that map nothing in its three regions. *)
Lemma vmm_new_inv root h p a m σ :
  pm_inv a m root σ ->
  (forall x, DEFAULT_REGIONS_BASE <= x < KERNEL_IMAGE_BASE -> σ x = None) ->
  vmm_inv (Vmm_new (Vs := Vs) (Vm := Vm) root h p) a m σ.
Proof using.
  intros Hi Hσ. unfold vmm_inv, Vmm_new. set (l := MemoryLayout_new h p).
  destruct (layout_regions h p) as (R1 & R2 & R3). fold l in R1, R2, R3.
  cbn [vmm_root_phys vmm_layout vmm_heap_alloc vmm_stacks_alloc vmm_mmio_alloc].
  assert (forall r x, r = ml_heap l \/ r = ml_stacks l \/ r = ml_mmio l -> region_ok r /\ (in_region r x -> σ x = None)) as Hr.
  { intros r x Hr. rewrite R1, R2, R3 in Hr. split; [destruct Hr as [->|[->| ->]]; apply region_ok_const; vm_compute; done|].
    intros Hx. apply Hσ. unfold in_region, region_end in Hx. destruct Hr as [->|[->| ->]]; simpl in Hx;
    unfold DEFAULT_REGIONS_BASE, KERNEL_IMAGE_BASE, HEAP_MAX_SIZE, STACKS_OFFSET, STACKS_MAX_SIZE,
      MMIO_OFFSET, MMIO_MAX_SIZE, TiB in *; lia. }
  assert (exists h p, l = MemoryLayout_new h p) as Hl by (by exists h, p). clearbody l.
  assert (forall x, ram_addr l x -> σ x = None) as Hram.
  { intros x [Hx|Hx]; [apply (Hr (ml_heap l))|apply (Hr (ml_stacks l))]; tauto. }
  split_and!; [done|done| | | |].
  - split_and!; [|done|intros x Hx _; apply (Hr (ml_heap l)); tauto].
    destruct (Hr (ml_heap l) 0) as [Hok _]; [tauto|]. split_and!; [done|by apply Hok|simpl; lia|].
    pose proof (region_end_u64 _ Hok). simpl. lia.
  - split_and!; [apply fra_new_inv, (Hr _ 0); tauto|done|intros x Hx _; apply (Hr (ml_stacks l)); tauto].
  - split_and!; [apply fra_new_inv, (Hr _ 0); tauto|done|intros x Hx _; apply (Hr (ml_mmio l)); tauto].
  - split; intros x *; [intros Hx E|intros Hx _ E]; by rewrite Hram in E.
Qed.
(** ** Translations *)

Lemma translate_page a m root σ x f fl :
  pm_inv a m root σ -> canonical x -> σ x = Some (Size4KiB, f * 4096, fl) ->
  pm_translate_addr m root x = Ret (Some (f * 4096 + x mod 4096)).
Proof using.
  intros Hi Hc E. rewrite (pm_translate_spec a m root σ x Hi Hc); rewrite E; [done|]. by apply Z_mod_mult.
Qed.

Lemma translate_hole a m root σ x :
  pm_inv a m root σ -> canonical x -> σ x = None -> pm_translate_addr m root x = Ret None.
Proof using. intros Hi Hc E. by rewrite (pm_translate_spec a m root σ x Hi Hc); rewrite E. Qed.

(** The bytes behind freshly mapped pages: zero, in frames that were free. *)
Lemma fresh_translate root fl a m σ b fs a' m' x :
  mapped_fresh root fl a m σ b fs a' m' -> canonical x ->
  b <= x < b + 4096 * Z.of_nat (length fs) ->
  exists p, pm_translate_addr m' root x = Ret (Some p) /\ m' (off + p) = 0 /\ p / 4096 ∈ fa_free a.
Proof using.
  intros (Hi & _ & _ & _ & HF) Hc Hx. rewrite Forall_forall in HF.
  destruct (map_range_in b ((fun f => f * 4096) <$> fs) fl σ x) as (pa & Hpa & E); [by rewrite length_fmap|].
  rewrite list_lookup_fmap in Hpa. destruct (fs !! _) as [f|] eqn:Ef; [|done]. injection Hpa as <-.
  destruct (HF f ltac:(by eapply list_elem_of_lookup_2)) as [Ht Hz].
  pose proof (Z.mod_pos_bound x 4096 ltac:(lia)) as Hm.
  exists (f * 4096 + x mod 4096). split_and!; [by eapply translate_page| |].
  - apply Hz. unfold in_frame. lia.
  - replace ((f * 4096 + x mod 4096) / 4096) with f by (clear -Hm; divlia). unfold taken in Ht. clear -Ht. set_solver.
Qed.

Lemma ram_addr_canonical v a m σ x :
  vmm_inv (Vs := Vs) (Vm := Vm) v a m σ -> ram_addr (vmm_layout v) x -> canonical x.
Proof using.
  intros (_ & _ & Hh & Hs & _) [Hx|Hx]; unfold in_region in Hx.
  - apply (region_canonical _ _ (managed_region_ok _ _ _ Hh)). lia.
  - apply (region_canonical _ _ (managed_region_ok _ _ _ Hs)). lia.
Qed.

(** The translation of a heap or stack address. *)
Lemma ram_translate v a m σ x p :
  vmm_inv (Vs := Vs) (Vm := Vm) v a m σ -> ram_addr (vmm_layout v) x -> Vmm_translate v m x = Ret (Some p) ->
  exists f fl, σ x = Some (Size4KiB, f * 4096, fl) /\ p = f * 4096 + x mod 4096 /\
    (f ∉ fa_free a) /\ forall y, in_frame off (f * 4096) y -> ~ pm_table (vmm_root_phys v) m y.
Proof using.
  intros Hinv Hx Hp. pose proof (ram_addr_canonical _ _ _ _ _ Hinv Hx) as Hc.
  destruct Hinv as (Hi & _ & _ & _ & _ & [Hram _]). unfold Vmm_translate in Hp.
  destruct (σ x) as [[[sz pa] fl]|] eqn:E; [|by rewrite (translate_hole _ _ _ _ _ Hi Hc E) in Hp].
  destruct (Hram x sz pa fl Hx E) as (-> & f & -> & Hf & Ht). exists f, fl.
  rewrite (translate_page _ _ _ _ _ _ _ Hi Hc E) in Hp. split; [done|]. split; [congruence|done].
Qed.
Lemma device_translate base phys k fl σ x :
  0 <= k -> base <= x < base + 4096 * k ->
  map_range base (device_frames phys k) fl σ x = Some (Size4KiB, phys + 4096 * ((x - base) / 4096), fl).
Proof using.
  intros Hk Hx. destruct (map_range_in base (device_frames phys k) fl σ x) as (pa & Hpa & ->);
    [by rewrite device_frames_length by lia|]. do 3 f_equal.
  unfold device_frames in Hpa. apply list_lookup_fmap_Some in Hpa as (j & -> & Hj).
  apply lookup_seqZ in Hj as [-> Hj]. clear -Hx Hj. rewrite Z2Nat.id by divlia. lia.
Qed.

Lemma page_offset_sum phys base i :
  0 <= i -> base mod 4096 = 0 -> phys + 4096 * ((base + i - base) / 4096) + (base + i) mod 4096 = phys + i.
Proof using.
  intros Hi Hb. apply Z.mod_divide in Hb as [q ->]; [|lia].
  rewrite (Z.add_comm (q * 4096) i), Z.mod_add, Z.add_simpl_r by lia. divlia.
Qed.

Lemma vmm_inv_ext (v : Vmm Vs Vm) a m σ σ' : (forall x, σ' x = σ x) -> vmm_inv v a m σ -> vmm_inv v a m σ'.
Proof using.
  intros Hσ (Hi & Hl & Hh & Hs & Hm & Hram). split_and!; [|done|by eapply managed_other..|].
  - eapply pm_inv_same; [|exact Hi]. intros x _. by rewrite Hσ.
  - eapply ram_kept; [done|apply kept_refl|done].
Qed.

Lemma unmap_map_range base frames n fl σ x :
  n = 4096 * Z.of_nat (length frames) -> unmapped_at σ base n ->
  unmap_range base n (map_range base frames fl σ) x = σ x.
Proof using.
  intros Hn Hun. unfold unmap_range. destruct (Z.leb_spec base x), (Z.ltb_spec x (base + n)); simpl.
  { symmetry. by apply Hun. }
  all: apply map_range_out; lia.
Qed.
End Safe.

(** ** Properties of the operations *)

(** Growing the heap by some bytes adds that many bytes, rounded to pages, at
    a range of the heap region that was not mapped.  Each of its addresses
    translates to a zeroed byte of a frame that was free; no other
    translation changes, and no memory but page tables and the frames taken.
    It fails only when the region has no room, and then changes nothing.  With
    four frames for each page it cannot panic. *)
Theorem grow_heap_correct {G A Vs Vm} `{BG : BitFlags MF_ALL G} `{FA : FrameAllocator A} {off : Z}
    `{PM : !PageMapper G A off} `{AVs : ArrayVec FreeRange Vs STACKS_FREE_LIST_CAP}
    `{AVm : ArrayVec FreeRange Vm MMIO_FREE_LIST_CAP} (v : Vmm Vs Vm) (a : A) m σ bytes :
  vmm_inv v a m σ -> 0 < bytes <= HEAP_MAX_SIZE ->
  4 * (page_round bytes / 4096) <= Z.of_nat (size (fa_free a)) ->
  exists v' a' m' r, grow_heap v bytes a m = Ret (v', a', m', r) /\
    match r with
    | Ok (base, n) =>
        n = page_round bytes /\ vr_base (ml_heap (vmm_layout v)) <= base /\
        base + n <= region_end (ml_heap (vmm_layout v)) /\ exists σ',
        vmm_inv v' a' m' σ' /\ (forall x, ~ (base <= x < base + n) -> σ' x = σ x) /\
        (forall x, base <= x < base + n -> σ x = None /\ exists p,
           Vmm_translate v' m' x = Ret (Some p) /\ m' (off + p) = 0 /\ p / 4096 ∈ fa_free a) /\
        (forall x, ~ pm_table (vmm_root_phys v) m x ->
           (forall f, taken a a' f -> ~ in_frame off (f * 4096) x) -> m' x = m x)
    | Err e => e = VmmRegionExhausted /\ v' = v /\ a' = a /\ m' = m /\
        no_room (ml_heap (vmm_layout v)) (vmm_heap_alloc v) (page_round bytes)
    end.
Proof.
  intros Hinv Hb Hfr. destruct (proj1 (wp_exists _ _) (wp_grow_heap v a m σ bytes Hinv Hb Hfr)) as ([[[v' a'] m'] r] & E & Hr).
  exists v', a', m', r. split; [done|]. destruct r as [[base n]|e]; [|done].
  destruct Hr as (-> & (h & ->) & Hb1 & Hb2 & Hun & fs & Hn & Hfresh & Hinv').
  split; [done|]. split; [done|]. split; [done|]. eexists. split; [exact Hinv'|]. split.
  - intros x Hx. apply map_range_out. rewrite length_fmap. by rewrite <- Hn.
  - split; [|apply Hfresh]. intros x Hx. destruct (Hun x Hx) as [Hc Hnone]. split; [done|].
    eapply fresh_translate; [exact Hfresh|done|by rewrite <- Hn].
Qed.

(** C27: A kernel stack is 64 KiB of fresh zeroed memory above a guard page: no
    address of the guard page is mapped, so running off the stack faults.  The
    allocation fails only when the stack region is exhausted. *)
Theorem kernel_stack_guarded {G A Vs Vm W} `{BG : BitFlags MF_ALL G} `{FA : FrameAllocator A} {off : Z}
    `{PM : !PageMapper G A off} `{AVs : ArrayVec FreeRange Vs STACKS_FREE_LIST_CAP}
    `{AVm : ArrayVec FreeRange Vm MMIO_FREE_LIST_CAP} (v : Vmm Vs Vm) (a : A) m σ
    (cleanup : option (StackCleanupFn W)) :
  vmm_inv v a m σ -> 64 <= Z.of_nat (size (fa_free a)) ->
  exists v' a' m' r, alloc_kernel_stack v a m cleanup = Ret (v', a', m', r) /\
    match r with
    | Ok ks =>
        ks_bottom ks = ks_guard ks + 4096 /\ ks_top ks = ks_bottom ks + 65536 /\ exists σ',
        vmm_inv v' a' m' σ' /\ (forall x, ~ (ks_bottom ks <= x < ks_top ks) -> σ' x = σ x) /\
        (forall x, ks_guard ks <= x < ks_bottom ks -> Vmm_translate v' m' x = Ret None) /\
        (forall x, ks_bottom ks <= x < ks_top ks -> exists p,
           Vmm_translate v' m' x = Ret (Some p) /\ m' (off + p) = 0 /\ p / 4096 ∈ fa_free a)
    | Err e => e = VmmRegionExhausted /\ v' = v /\ a' = a /\ m' = m /\
        no_room (ml_stacks (vmm_layout v)) (vmm_stacks_alloc v) (GUARD_PAGE_SIZE + KERNEL_STACK_SIZE)
    end.
Proof.
  intros Hinv Hfr. destruct (proj1 (wp_exists _ _) (wp_alloc_kernel_stack v a m σ cleanup Hinv Hfr)) as ([[[v' a'] m'] r] & E & Hr).
  exists v', a', m', r. split; [done|]. destruct r as [ks|e]; [|done].
  destruct Hr as (Hks & (s & ->) & _ & _ & Hun & _ & fs & Hlen & Hfresh & Hinv').
  assert (ks_bottom ks = ks_guard ks + 4096 /\ ks_top ks = ks_bottom ks + 65536) as [Hb Ht] by (rewrite Hks; done).
  split; [done|]. split; [done|]. eexists. split; [exact Hinv'|].
  assert (forall x, ~ (ks_bottom ks <= x < ks_top ks) ->
    map_range (ks_bottom ks) ((fun f => f * 4096) <$> fs) (pm_flags RAM_FLAGS) σ x = σ x) as Hout.
  { intros x Hx. apply map_range_out. rewrite length_fmap, Hlen. lia. }
  change (GUARD_PAGE_SIZE + KERNEL_STACK_SIZE) with (4096 + 65536) in Hun.
  split; [done|]. split; intros x Hx; destruct (Hun x ltac:(lia)) as [Hc Hnone].
  - apply (translate_hole a' m' _ _ x (proj1 Hinv') Hc). rewrite Hout by lia. done.
  - eapply fresh_translate; [exact Hfresh|done|]. rewrite Hlen. lia.
Qed.


(** ** Sequences of operations *)
Section Runs.
Context {G : Type} `{BG : BitFlags MF_ALL G} {A : Type} `{FA : FrameAllocator A}.
Context {off : Z} `{PM : !PageMapper G A off}.
Context {Vs : Type} `{AVs : ArrayVec FreeRange Vs STACKS_FREE_LIST_CAP}.
Context {Vm : Type} `{AVm : ArrayVec FreeRange Vm MMIO_FREE_LIST_CAP}.

(** The manager, the frame allocator and memory, with the sizes of the live
    MMIO windows by their base addresses. *)
Record vm_state : Type := mkVmState {
  vs_vmm : Vmm Vs Vm;
  vs_alloc : A;
  vs_mem : mem;
  vs_windows : gmap Z Z;
}.

(** The kernel grows its heap, makes stacks, opens and drops windows, and
    writes to heap and stack addresses. *)
Inductive vm_step : vm_state -> vm_state -> Prop :=
| step_grow v a m ws bytes v' a' m' r :
    0 < bytes <= HEAP_MAX_SIZE -> 4 * (page_round bytes / 4096) <= Z.of_nat (size (fa_free a)) ->
    grow_heap v bytes a m = Ret (v', a', m', r) ->
    vm_step (mkVmState v a m ws) (mkVmState v' a' m' ws)
| step_stack v a m ws v' a' m' r :
    64 <= Z.of_nat (size (fa_free a)) ->
    alloc_kernel_stack (W := unit) v a m None = Ret (v', a', m', r) ->
    vm_step (mkVmState v a m ws) (mkVmState v' a' m' ws)
| step_window v a m ws phys n v' a' m' mm :
    0 < n <= MMIO_MAX_SIZE -> 0 <= phys -> phys mod 4096 = 0 -> phys + page_round n <= 2 ^ 52 ->
    3 * (page_round n / 4096) <= Z.of_nat (size (fa_free a)) ->
    map_mmio (W := unit) v phys n a m None = Ret (v', a', m', Ok mm) ->
    vm_step (mkVmState v a m ws) (mkVmState v' a' m' (<[mm_virt_base mm := mm_size mm]> ws))
| step_drop v a m ws base n v' a' m' :
    ws !! base = Some n -> default_mmio_cleanup base n (mkMm (Some v) a m) = Ret (mkMm (Some v') a' m') ->
    vm_step (mkVmState v a m ws) (mkVmState v' a' m' (delete base ws))
| step_write v a m ws x p b :
    ram_addr (vmm_layout v) x -> Vmm_translate v m x = Ret (Some p) ->
    vm_step (mkVmState v a m ws) (mkVmState v a (write_bytes m (off + p) b 1) ws).

(** A live window: inside the region, its pages mapped. *)
Definition window_ok (v : Vmm Vs Vm) (σ : aspace) (base n : Z) : Prop :=
  base mod 4096 = 0 /\ 0 < n /\ n mod 4096 = 0 /\
  vr_base (ml_mmio (vmm_layout v)) <= base /\ base + n <= region_end (ml_mmio (vmm_layout v)) /\
  forall x, base <= x < base + n -> allocated (vmm_mmio_alloc v) x /\ exists pa fl, σ x = Some (Size4KiB, pa, fl).

Definition windows_disjoint (ws : gmap Z Z) : Prop :=
  forall b n b' n', ws !! b = Some n -> ws !! b' = Some n' -> b <> b' -> b + n <= b' \/ b' + n' <= b.

Definition vm_inv (s : vm_state) : Prop := exists σ,
  vmm_inv (vs_vmm s) (vs_alloc s) (vs_mem s) σ /\ windows_disjoint (vs_windows s) /\
  forall b n, vs_windows s !! b = Some n -> window_ok (vs_vmm s) σ b n.

(** A window stays as it is when the manager changes elsewhere. *)
Lemma window_ok_kept v σ v' σ' b n :
  window_ok v σ b n -> vmm_layout v' = vmm_layout v ->
  (forall x, b <= x < b + n -> allocated (vmm_mmio_alloc v) x -> allocated (vmm_mmio_alloc v') x /\ σ' x = σ x) ->
  window_ok v' σ' b n.
Proof using.
  intros (H1 & H2 & H3 & H4 & H5 & H6) Hl Hx. unfold window_ok. rewrite Hl. split_and!; try done.
  intros x Hin. destruct (H6 x Hin) as [Ha Hp]. destruct (Hx x Hin Ha) as [Ha' ->]. done.
Qed.

(** Mapping in the heap or the stacks does not concern the windows. *)
Lemma windows_ram v a m σ (ws : gmap Z Z) v' σ' lo hi r :
  vmm_inv v a m σ -> (forall b n, ws !! b = Some n -> window_ok v σ b n) ->
  vmm_layout v' = vmm_layout v -> vmm_mmio_alloc v' = vmm_mmio_alloc v ->
  r = ml_heap (vmm_layout v) \/ r = ml_stacks (vmm_layout v) -> vr_base r <= lo -> hi <= region_end r ->
  (forall x, ~ (lo <= x < hi) -> σ' x = σ x) ->
  forall b n, ws !! b = Some n -> window_ok v' σ' b n.
Proof using.
  intros (_ & Hl & _) Hws Hlay Hmm Hr Hlo Hhi Hσ b n E. pose proof (Hws b n E) as Hw.
  apply (window_ok_kept v σ); [done|done|]. intros x Hx Ha. rewrite Hmm. split; [done|]. apply Hσ. intros Hin.
  destruct Hw as (_ & _ & _ & H4 & H5 & _). destruct (layout_disjoint (vmm_layout v) x Hl) as [Hd1 Hd2].
  assert (in_region (ml_mmio (vmm_layout v)) x) as Hmx by (unfold in_region; lia).
  assert (in_region r x) as Hrx by (unfold in_region; lia). destruct Hr as [-> | ->]; [by destruct (Hd1 Hrx)|by apply Hd2].
Qed.

(** A write to the heap or to a stack touches no table and no free frame. *)
Lemma write_ram v a m σ x p b :
  vmm_inv (Vs := Vs) (Vm := Vm) v a m σ -> ram_addr (vmm_layout v) x -> Vmm_translate v m x = Ret (Some p) ->
  vmm_inv v a (write_bytes m (off + p) b 1) σ.
Proof using.
  intros Hinv Hx Hp. destruct (ram_translate v a m σ x p Hinv Hx Hp) as (f & fl & E & -> & Hf & Ht).
  pose proof (Z.mod_pos_bound x 4096 ltac:(lia)) as Hm. set (m' := write_bytes _ _ _ _).
  assert (forall y, ~ in_frame off (f * 4096) y -> m' y = m y) as Hout.
  { intros y Hy. apply write_bytes_changed. unfold in_frame in Hy. lia. }
  destruct Hinv as (Hi & Hl & Hh & Hs & Hmm & [H1 H2]). destruct (pm_inv_fa _ _ _ _ Hi) as [Hfa Ho].
  destruct (pm_inv_mem a m _ σ m' Hi) as [Hi' Ht'].
  - intros y Hy. apply Hout. intros Hin. by apply (Ht y).
  - apply (fa_inv_mem a m m' Hfa). intros g y Hg Hy. apply Hout. intros Hin.
    assert (g = f) as -> by (unfold in_frame, FRAME_SIZE in *; rewrite Ho in Hy; lia). done.
  - split_and!; try done. split; [|done]. intros y sz pa fl' Hy Ey.
    destruct (H1 y sz pa fl' Hy Ey) as (-> & g & -> & Hg & Hgt). split; [done|]. exists g. split_and!; try done.
    intros z Hz Htz. apply (Hgt z Hz), Ht', Htz.
Qed.

Lemma grow_keeps v a m ws bytes v' a' m' r :
  vm_inv (mkVmState v a m ws) -> 0 < bytes <= HEAP_MAX_SIZE ->
  4 * (page_round bytes / 4096) <= Z.of_nat (size (fa_free a)) ->
  grow_heap v bytes a m = Ret (v', a', m', r) -> vm_inv (mkVmState v' a' m' ws).
Proof using.
  intros (σ & Hinv & Hd & Hws) Hb Hfr E. simpl in *. pose proof (wp_use _ _ _ (wp_grow_heap v a m σ bytes Hinv Hb Hfr) E) as Hr.
  destruct r as [[base n]|e]; [|destruct Hr as (_ & -> & -> & -> & _); by exists σ].
  destruct Hr as (_ & (h & ->) & Hb1 & Hb2 & Hun & fs & Hn & _ & Hinv').
  eexists. split; [exact Hinv'|]. split; [done|]. simpl.
  apply (windows_ram v a m σ ws _ _ base (base + n) (ml_heap (vmm_layout v))); try done; [by left|].
  intros x Hx. apply map_range_out. rewrite length_fmap. by rewrite <- Hn.
Qed.

Lemma stack_keeps v a m ws v' a' m' r :
  vm_inv (mkVmState v a m ws) -> 64 <= Z.of_nat (size (fa_free a)) ->
  alloc_kernel_stack (W := unit) v a m None = Ret (v', a', m', r) -> vm_inv (mkVmState v' a' m' ws).
Proof using.
  intros (σ & Hinv & Hd & Hws) Hfr E. simpl in *. pose proof (wp_use _ _ _ (wp_alloc_kernel_stack v a m σ None Hinv Hfr) E) as Hr.
  destruct r as [ks|e]; [|destruct Hr as (_ & -> & -> & -> & _); by exists σ].
  destruct Hr as (Hks & (h & ->) & Hb1 & Hb2 & Hun & _ & fs & Hn & _ & Hinv').
  eexists. split; [exact Hinv'|]. split; [done|]. simpl.
  assert (ks_bottom ks = ks_guard ks + 4096 /\ ks_top ks = ks_bottom ks + 65536) as [Hb Ht] by (rewrite Hks; done).
  apply (windows_ram v a m σ ws _ _ (ks_bottom ks) (ks_top ks) (ml_stacks (vmm_layout v))); try done; [by right|lia|].
  intros x Hx. apply map_range_out. rewrite length_fmap, Hn. lia.
Qed.

Lemma window_keeps v a m ws phys n v' a' m' mm :
  vm_inv (mkVmState v a m ws) ->
  0 < n <= MMIO_MAX_SIZE -> 0 <= phys -> phys mod 4096 = 0 -> phys + page_round n <= 2 ^ 52 ->
  3 * (page_round n / 4096) <= Z.of_nat (size (fa_free a)) ->
  map_mmio (W := unit) v phys n a m None = Ret (v', a', m', Ok mm) ->
  vm_inv (mkVmState v' a' m' (<[mm_virt_base mm := mm_size mm]> ws)).
Proof using.
  intros (σ & Hinv & Hd & Hws) Hn Hp0 Hp Hp1 Hfr E. simpl in *.
  destruct (wp_use _ _ _ (wp_map_mmio v a m σ phys n None Hinv Hn Hp0 Hp Hp1 Hfr) E)
    as (Hmm & (s & ->) & Hb1 & Hb2 & Hal & Hun & [Hnew Hall] & _ & Hinv').
  pose proof (page_round_spec n) as [Hr1 Hr2]. change PAGE_SIZE with 4096 in Hr2.
  rewrite Hmm. simpl. set (base := mm_virt_base mm) in *. set (len := page_round n) in *.
  assert (len = 4096 * (len / 4096)) as Hlen by (by apply Z_div_exact_2).
  assert (forall b k, ws !! b = Some k -> b + k <= base \/ base + len <= b) as Hdis.
  { intros b k E'. destruct (Hws b k E') as (H1 & H2 & H3 & H4 & H5 & H6).
    destruct (decide (b + k <= base \/ base + len <= b)) as [?|Hno]; [done|exfalso].
    apply (Hnew (Z.max b base) ltac:(lia)). apply (H6 (Z.max b base)). lia. }
  eexists. split; [exact Hinv'|]. simpl. split.
  - intros b1 n1 b2 n2 E1 E2 Hne. apply lookup_insert_Some in E1, E2.
    destruct E1 as [[<- <-]|[? E1]], E2 as [[<- <-]|[? E2]]; [done| | |by eapply Hd].
    + destruct (Hdis _ _ E2); lia.
    + destruct (Hdis _ _ E1); lia.
  - intros b k E'. apply lookup_insert_Some in E' as [[<- <-]|[Hne E']].
    + split_and!; try done; [lia|]. intros x Hx. split; [apply Hall; by right|]. rewrite device_translate by lia. eauto.
    + apply (window_ok_kept v σ); [by apply Hws|done|]. intros x Hx Ha. split; [apply Hall; by left|].
      apply map_range_out. rewrite device_frames_length by lia. destruct (Hdis _ _ E'); lia.
Qed.

Lemma drop_keeps v a m ws base n v' a' m' :
  vm_inv (mkVmState v a m ws) -> ws !! base = Some n ->
  default_mmio_cleanup base n (mkMm (Some v) a m) = Ret (mkMm (Some v') a' m') ->
  vm_inv (mkVmState v' a' m' (delete base ws)).
Proof using.
  intros (σ & Hinv & Hd & Hws) En E. simpl in *. destruct (Hws base n En) as (H1 & H2 & H3 & H4 & H5 & H6).
  destruct (wp_use _ _ _ (wp_mmio_cleanup v a m σ base n Hinv H1 H2 H3 H4 H5 H6) E)
    as (s & m2 & Ew & Hinv' & _ & Hs). injection Ew as -> -> ->.
  eexists. split; [exact Hinv'|]. simpl. split.
  - intros b1 n1 b2 n2 E1 E2. apply lookup_delete_Some in E1 as [_ E1], E2 as [_ E2]. by eapply Hd.
  - intros b k Ek. apply lookup_delete_Some in Ek as [Hne Ek].
    pose proof (Hd b k base n Ek En ltac:(done)) as Hdis. pose proof (Hws b k Ek) as Hw.
    apply (window_ok_kept v σ); [done|done|]. intros x Hx Ha. split.
    + simpl. destruct Hs as [Hs|[-> _]]; [|done]. rewrite Hs. split; [done|lia].
    + unfold unmap_range. destruct (Z.leb_spec base x), (Z.ltb_spec x (base + n)); try done. lia.
Qed.

Lemma vm_step_inv s s' : vm_step s s' -> vm_inv s -> vm_inv s'.
Proof using.
  intros Hstep Hinv. destruct Hstep.
  - by eapply grow_keeps.
  - by eapply stack_keeps.
  - by eapply window_keeps.
  - by eapply drop_keeps.
  - destruct Hinv as (σ & Hi & Hd & Hw). exists σ. split; [by eapply write_ram|done].
Qed.

Definition vm_init (v : Vmm Vs Vm) (a : A) (m : mem) : vm_state := mkVmState v a m ∅.
End Runs.

(** ** Memory safety *)

(** C4: Whatever sequence of heap growth, stack allocation, opening and dropping
    of windows and writes to its heap and stacks the kernel performs after
    [Vmm::new], heap and stack memory stays private: two different heap or
    stack addresses never share a byte of physical memory, and no such byte
    belongs to a free frame or to a page table. *)
Theorem vmm_memory_safe {G A Vs Vm} `{BG : BitFlags MF_ALL G} `{FA : FrameAllocator A} {off : Z}
    `{PM : !PageMapper G A off} `{AVs : ArrayVec FreeRange Vs STACKS_FREE_LIST_CAP}
    `{AVm : ArrayVec FreeRange Vm MMIO_FREE_LIST_CAP} root h p (a : A) m σ (s : vm_state (Vs := Vs) (Vm := Vm)) :
  pm_inv a m root σ -> (forall x, DEFAULT_REGIONS_BASE <= x < KERNEL_IMAGE_BASE -> σ x = None) ->
  rtc vm_step (vm_init (Vmm_new root h p) a m) s ->
  let v := vs_vmm s in
  forall x y px py, ram_addr (vmm_layout v) x -> ram_addr (vmm_layout v) y ->
    Vmm_translate v (vs_mem s) x = Ret (Some px) -> Vmm_translate v (vs_mem s) y = Ret (Some py) ->
    (px = py -> x = y) /\ (px / 4096 ∉ fa_free (vs_alloc s)) /\ ~ pm_table (vmm_root_phys v) (vs_mem s) (off + px).
Proof.
  intros Hi Hσ Hrun v x y px py Hx Hy Ex Ey.
  assert (vm_inv s) as (σ' & Hinv & _).
  { eapply (rtc_ind_r (fun s => vm_inv s)); [|by intros ? ? _; apply vm_step_inv|exact Hrun].
    exists σ. split; [by apply vmm_new_inv|]. split; [|done]. intros ? ? ? ? E. done. }
  destruct (ram_translate _ _ _ _ _ _ Hinv Hx Ex) as (f & fl & Hf & -> & Hfree & Ht).
  destruct (ram_translate _ _ _ _ _ _ Hinv Hy Ey) as (g & gl & Hg & -> & _).
  pose proof (Z.mod_pos_bound x 4096 ltac:(lia)) as Hmx. pose proof (Z.mod_pos_bound y 4096 ltac:(lia)) as Hmy.
  split_and!.
  - intros E. assert (f = g) as <- by lia. destruct Hinv as (_ & _ & _ & _ & _ & [_ Hinj]).
    pose proof (Hinj x y _ _ _ _ _ Hx Hy Hf Hg) as Hpg. clear -E Hpg. divlia.
  - replace ((f * 4096 + x mod 4096) / 4096) with f by (clear -Hmx; divlia). done.
  - apply Ht. unfold in_frame. lia.
Qed.

(** ** Examples: x86_64 page tables, the bitmap frame allocator *)
Section Example.
#[local] Instance example_alloc : FrameAllocator BitmapAllocator := bitmap_FrameAllocator false.
#[local] Instance example_mapper : PageMapper word64 BitmapAllocator example_off :=
  x86_PageMapper (F := word64) example_off.

Definition example_vmm : Vmm (list FreeRange) (list FreeRange) := Vmm_new 0 example_off 0x110000.

Lemma example_vmm_inv : vmm_inv example_vmm example_pmm zero_mem (fun _ => None).
Proof. apply vmm_new_inv; [exact example_refines|done]. Qed.

Lemma example_free : Z.of_nat (size (fa_free example_pmm)) = 174.
Proof. destruct example_pmm_inv as (_ & H & _). symmetry. exact H. Qed.

Lemma example_heap_room n :
  0 < n <= HEAP_MAX_SIZE -> ~ no_room (ml_heap (vmm_layout example_vmm)) (vmm_heap_alloc example_vmm) n.
Proof.
  intros Hn Hno. destruct (Hno DEFAULT_REGIONS_BASE) as (x & Hx & Ha); [by vm_compute| |].
  - change (region_end _) with (DEFAULT_REGIONS_BASE + HEAP_MAX_SIZE). lia.
  - destruct Ha as [Ha1 Ha2]. change (vr_base _) with DEFAULT_REGIONS_BASE in Ha1.
    change (ra_next _) with DEFAULT_REGIONS_BASE in Ha2. lia.
Qed.

Lemma grow_heap_correct_witness :
  exists v' a' m' base, grow_heap example_vmm 5000 example_pmm zero_mem = Ret (v', a', m', Ok (base, 8192)) /\
    exists p, Vmm_translate v' m' (base + 4096) = Ret (Some p) /\ m' (example_off + p) = 0.
Proof.
  destruct (grow_heap_correct example_vmm example_pmm zero_mem (fun _ => None) 5000 example_vmm_inv)
    as (v' & a' & m' & r & E & Hr); [by vm_compute|rewrite example_free; by vm_compute|].
  destruct r as [[base n]|e].
  - destruct Hr as (-> & _ & _ & σ' & _ & _ & Hp & _). exists v', a', m', base. split; [exact E|].
    destruct (Hp (base + 4096)) as (_ & p & H1 & H2 & _); [change (page_round 5000) with 8192; lia|].
    exists p. split; [exact H1|exact H2].
  - destruct Hr as (_ & _ & _ & _ & Hno). exfalso. revert Hno. apply example_heap_room. clear. by vm_compute.
Defined.

Lemma kernel_stack_guarded_witness :
  exists v' a' m' r, alloc_kernel_stack (W := unit) example_vmm example_pmm zero_mem None = Ret (v', a', m', r) /\
    match r with
    | Ok ks => Vmm_translate v' m' (ks_guard ks) = Ret None
    | Err e => e = VmmRegionExhausted
    end.
Proof.
  destruct (kernel_stack_guarded (W := unit) example_vmm example_pmm zero_mem (fun _ => None) None example_vmm_inv)
    as (v' & a' & m' & r & E & Hr); [rewrite example_free; by vm_compute|].
  exists v', a', m', r. split; [exact E|]. destruct r as [ks|e]; [|apply Hr].
  destruct Hr as (Hb & _ & σ' & _ & _ & Hg & _). apply Hg. lia.
Defined.


Lemma vmm_memory_safe_witness :
  exists s x y px py, rtc vm_step (vm_init example_vmm example_pmm zero_mem) s /\ x <> y /\
    Vmm_translate (vs_vmm s) (vs_mem s) x = Ret (Some px) /\
    Vmm_translate (vs_vmm s) (vs_mem s) y = Ret (Some py) /\ px <> py.
Proof.
  assert (0 < 8192 <= HEAP_MAX_SIZE) as Hb by (by vm_compute).
  assert (4 * (page_round 8192 / 4096) <= Z.of_nat (size (fa_free example_pmm))) as Hfr
    by (rewrite example_free; by vm_compute).
  destruct (proj1 (wp_exists _ _) (wp_grow_heap example_vmm example_pmm zero_mem (fun _ => None) 8192
    example_vmm_inv Hb Hfr)) as ([[[v' a'] m'] r] & E & Hr).
  destruct r as [[base n]|e].
  2:{ destruct Hr as (_ & _ & _ & _ & Hno). exfalso. revert Hno. apply example_heap_room. exact Hb. }
  destruct Hr as (-> & (hp & ->) & Hb1 & Hb2 & Hun & fs & Hn & Hfresh & _).
  change (page_round 8192) with 8192 in *. set (st := mkVmState (with_heap example_vmm hp) a' m' ∅).
  assert (rtc vm_step (vm_init example_vmm example_pmm zero_mem) st) as Hrun
    by (apply rtc_once; exact (step_grow _ _ _ _ _ _ _ _ _ Hb Hfr E)).
  destruct (fresh_translate _ _ _ _ _ _ _ _ _ base Hfresh) as (px & Hpx & _); [apply Hun; lia|lia|].
  destruct (fresh_translate _ _ _ _ _ _ _ _ _ (base + 4096) Hfresh) as (py & Hpy & _); [apply Hun; lia|lia|].
  exists st, base, (base + 4096), px, py. split; [exact Hrun|]. split; [lia|]. split; [exact Hpx|]. split; [exact Hpy|].
  destruct (vmm_memory_safe (off := example_off) (PM := example_mapper) 0 example_off 0x110000 example_pmm zero_mem (fun _ => None) st example_refines
    (fun _ _ => eq_refl) Hrun base (base + 4096) px py) as (Hne & _ & _).
  - left. unfold in_region. split; [exact Hb1|]. simpl in Hb2 |- *. lia.
  - left. unfold in_region. split; [|]; simpl in Hb1, Hb2 |- *; lia.
  - exact Hpx.
  - exact Hpy.
  - intros Hp. apply Hne in Hp. lia.
Defined.
End Example.
