(* ===== verification/AddressSpace.v ===== *)
(** * User address spaces (kernel/mm/src/address_space.rs)

    A process has its own root table: the lower half is private, the upper
    half is copied from the kernel's root.  The operations are modelled over
    any page mapper.  For the x86_64 tables, a set of address spaces beside
    the kernel's is proved isolated: what one does never changes what the
    kernel or another process sees. *)

From S2P Require Import Prelude Mem Addr Paging Layout Std Extern Region Pmm PageTable PageWalk PageTableSpec PageMap Mapper Vmm.

Definition KERNEL_PML4_ENTRIES : Z := 256.

(** ** The operations *)
Section Defs.
Context {G : Type} `{BG : BitFlags MF_ALL G} {A : Type} `{FA : FrameAllocator A}.
Context {off : Z} `{PM : !PageMapper G A off}.
Context {W : Type}.

(** The callback of [Drop] changes a state [W]. *)
Definition FrameDeallocFn : Type := Z -> W -> exec W.

Record AddressSpace : Type := mkAddressSpace {
  as_root_phys : PhysAddr;
  as_dealloc_fn : FrameDeallocFn;
}.

Definition new_user (kernel_root : PhysAddr) (hhdm_offset : VirtAddr) (a : A) (m : mem)
    (dealloc_fn : FrameDeallocFn) : exec (A * mem * result AddressSpace VmmError) :=
  '(a, o) ← fa_allocate a m;
  match o with
  | None => Ret (a, m, Err VmmOutOfMemory)
  | Some new_pml4_phys =>
      let new_pml4 := VirtAddr_add hhdm_offset new_pml4_phys in
      let kernel_pml4 := VirtAddr_add hhdm_offset kernel_root in
      let m := write_bytes m new_pml4 0 (8 * KERNEL_PML4_ENTRIES) in
      let m := copy_nonoverlapping m (kernel_pml4 + 8 * KERNEL_PML4_ENTRIES)
                 (new_pml4 + 8 * KERNEL_PML4_ENTRIES) (8 * KERNEL_PML4_ENTRIES) in
      Ret (a, m, Ok (mkAddressSpace new_pml4_phys dealloc_fn))
  end.

(** The [MapFlush] of [map_user_page] is the page's address. *)
Definition map_user_page (self : AddressSpace) (page frame : Z) (flags : G) (a : A) (m : mem)
    : exec (A * mem * result Z VmmError) :=
  let flags := bf_union flags MF_USER in
  '(a, m) ← pm_map a m (as_root_phys self) page frame flags;
  Ret (a, m, Ok page).

Definition unmap_user_page (self : AddressSpace) (page : Z) (m : mem) : exec (mem * result Z VmmError) :=
  '(m, r) ← pm_unmap m (as_root_phys self) page;
  match r with
  | Ok frame => Ret (m, Ok frame)
  | Err e => Ret (m, Err (vmm_unmap_error e))
  end.

Definition as_translate (self : AddressSpace) (m : mem) (virt : VirtAddr) : exec (option PhysAddr) :=
  pm_translate_addr m (as_root_phys self) virt.

(** The loop of [protect_range], from page [i] on, [n] pages left. *)
Fixpoint protect_pages (root base : Z) (flags : G) (m : mem) (i : Z) (n : nat)
    : exec (mem * result unit unit) :=
  match n with
  | O => Ret (m, Ok tt)
  | S n' =>
      d ← mul64 i 0x1000;
      let vaddr := VirtAddr_add base d in
      page ← Page_containing_address Size4KiB vaddr;
      '(m, r) ← pm_update_flags m root page flags;
      match r with
      | Err _ => Ret (m, Err tt)
      | Ok _ => protect_pages root base flags m (i + 1) n'
      end
  end.

Definition protect_range (self : AddressSpace) (base : VirtAddr) (page_count : Z) (flags : G) (m : mem)
    : exec (mem * result unit unit) :=
  let flags := bf_union flags MF_USER in
  protect_pages (as_root_phys self) base flags m 0 (Z.to_nat page_count).

Definition AddressSpace_drop (self : AddressSpace) (w : W) : exec W :=
  frame ← PhysFrame_containing_address Size4KiB (as_root_phys self);
  as_dealloc_fn self frame w.
End Defs.
Arguments AddressSpace W : clear implicits.
Arguments FrameDeallocFn W : clear implicits.

(** ** Changing the rights of a range *)
Section Protect.
Context {G : Type} `{BG : BitFlags MF_ALL G} {A : Type} `{FA : FrameAllocator A}.
Context {off : Z} `{PM : !PageMapper G A off}.

(** The pages of [\[base, base + n)] with the rights [fl], where they are mapped. *)
Definition reflag (base n fl : Z) (σ : aspace) : aspace := fun v =>
  if (base <=? v) && (v <? base + n) then
    match σ v with Some (sz, pa, _) => Some (sz, pa, fl) | None => None end
  else σ v.

(** Pages are uniform: all the addresses of a 4 KiB page have the same mapping. *)
Definition paged (σ : aspace) : Prop := forall v w, v / 4096 = w / 4096 -> σ v = σ w.

Lemma reflag_step base i fl σ pa fl0 v :
  base mod 4096 = 0 -> 0 <= i -> paged σ -> σ (base + 4096 * i) = Some (Size4KiB, pa, fl0) ->
  set_pages Size4KiB (base + 4096 * i) (Some (Size4KiB, pa, fl)) (reflag base (4096 * i) fl σ) v =
  reflag base (4096 * (i + 1)) fl σ v.
Proof using.
  intros Hb Hi Hp E. apply Z.mod_divide in Hb as [q ->]; [|lia]. unfold set_pages, reflag. simpl SIZE.
  replace ((q * 4096 + 4096 * i) / 4096) with (q + i) by divlia. case_decide as Hd.
  - rewrite (proj2 (Z.leb_le _ _)), (proj2 (Z.ltb_lt _ _)) by (clear -Hd Hi; divlia). simpl.
    rewrite (Hp v (q * 4096 + 4096 * i)); [by rewrite E|]. clear -Hd Hi. divlia.
  - destruct (Z.leb_spec (q * 4096) v), (Z.ltb_spec v (q * 4096 + 4096 * i)),
      (Z.ltb_spec v (q * 4096 + 4096 * (i + 1))); try done; clear -Hd Hi H H0 H1; exfalso; divlia.
Qed.

Lemma wp_protect_pages root (g : G) a m σ base n i :
  Z.testbit (bf_bits g) 5 = false ->
  pm_inv a m root (reflag base (4096 * i) (pm_flags g) σ) -> paged σ ->
  0 <= i -> 0 <= base -> base mod 4096 = 0 ->
  (forall v, base <= v < base + 4096 * (i + Z.of_nat n) -> canonical v) ->
  wp (protect_pages root base g m i n) (fun '(m', r) => exists k, i <= k <= i + Z.of_nat n /\
    pm_inv a m' root (reflag base (4096 * k) (pm_flags g) σ) /\ kept off (pm_table root) a m a m' /\
    (forall j, i <= j < k -> exists pa fl, σ (base + 4096 * j) = Some (Size4KiB, pa, fl)) /\
    match r with
    | Ok _ => k = i + Z.of_nat n
    | Err _ => k < i + Z.of_nat n /\ forall pa fl, σ (base + 4096 * k) <> Some (Size4KiB, pa, fl)
    end).
Proof using.
  intros H5. revert m i. induction n as [|n IH]; intros m i Hi Hp Hi0 Hb0 Hb Hc; unfold protect_pages; fold protect_pages.
  { wp_step. exists i. split_and!; [lia|lia|done|apply kept_refl|intros; lia|lia]. }
  pose proof (Hc (base + 4096 * i) ltac:(lia)) as Hci. pose proof (canonical_u64 _ Hci) as Hu.
  wp_step. wp_step. wp_step. change (i * 0x1000) with (i * 4096). rewrite (Z.mul_comm i 4096).
  rewrite VirtAddr_add_canonical by done.
  apply wp_Page_containing_aligned; [done|by apply mod_add_pages|]. wp_step.
  eapply wp_mono; [apply (pm_update_flags_spec a m root _ _ g Hi Hci H5)|].
  assert (reflag base (4096 * i) (pm_flags g) σ (base + 4096 * i) = σ (base + 4096 * i)) as Ei.
  { unfold reflag. by rewrite (proj2 (Z.ltb_ge _ _)), andb_false_r by lia. }
  intros [m1 [u|e]] [Hr Hk]; cbv beta iota in Hr.
  - destruct Hr as (pa & fl & E & Hi1). rewrite Ei in E.
    eapply wp_mono; [apply (IH m1 (i + 1)); try done; try lia|].
    + eapply pm_inv_same; [|exact Hi1]. intros v _. by eapply reflag_step.
    + intros v Hv. apply Hc. lia.
    + intros [m2 r] (k & Hk1 & Hi2 & Hk2 & Hpre & Hr). exists k. split_and!; [lia|lia|done|by eapply kept_trans| |].
      * intros j Hj. destruct (decide (j = i)) as [->|]; [by exists pa, fl|]. apply Hpre. lia.
      * destruct r; [lia|]. destruct Hr. split; [lia|done].
  - destruct Hr as [Hi1 [Hno _]]. wp_step. exists i. split_and!; [lia|lia|done|done|intros; lia|lia|].
    intros pa fl. rewrite <- Ei. apply Hno.
Qed.
End Protect.

(** ** A root with a copied upper half *)

Definition low (p : list Z) : bool := match p with [] => true | i :: _ => i <? 256 end.

Lemma follow_cons E d t i l :
  follow E d t (i :: l) =
  if present (E t i) && negb (leaf_at d (E t i)) then follow E (S d) (entry_address (E t i)) l else None.
Proof. done. Qed.

Section Half.
Context (E E' : entries) (kroot root : Z).
Context (Hlow : forall i, 0 <= i < 256 -> E' root i = 0).
Context (Hhigh : forall i, 256 <= i < 512 -> E' root i = E kroot i).
Context (Hrest : forall p t j, path_ok p -> p <> [] -> follow E 0 kroot p = Some t -> index_ok j -> E' t j = E t j).

Lemma copied_step i d r :
  (forall q j r', r = q ++ j :: r' -> path_ok (i :: q) /\ index_ok j) ->
  present (E kroot i) && negb (leaf_at 0 (E kroot i)) = true -> d = 1%nat ->
  follow E' d (entry_address (E kroot i)) r = follow E d (entry_address (E kroot i)) r /\
  lookup_page E' d (entry_address (E kroot i)) r = lookup_page E d (entry_address (E kroot i)) r.
Proof using Hrest.
  intros Hp Hpr ->. split; [apply follow_same|apply lookup_same]; intros q j r' u -> Hq;
    destruct (Hp q j r' eq_refl) as [Hpq Hj]; apply (Hrest (i :: q)); try done; by rewrite follow_cons, Hpr.
Qed.

Lemma follow_half i p :
  path_ok (i :: p) -> follow E' 0 root (i :: p) = if i <? 256 then None else follow E 0 kroot (i :: p).
Proof using Hlow Hhigh Hrest.
  intros [Hl Ho]. pose proof Ho as [Hi Hpo]%Forall_cons. unfold index_ok in Hi. rewrite !follow_cons.
  destruct (Z.ltb_spec i 256) as [H|H]; [by rewrite Hlow by lia|].
  rewrite Hhigh by lia. destruct (present (E kroot i) && negb (leaf_at 0 (E kroot i))) eqn:Ep; [|done].
  apply (copied_step i 1 p); [|done|done]. intros q j r ->. apply Forall_app in Hpo as [Hq Hj].
  apply Forall_cons in Hj as [Hj _]. simpl in Hl. rewrite length_app in Hl. simpl in Hl.
  split; [|done]. split; [simpl; lia|by constructor].
Qed.

Lemma lookup_half i p :
  (length p = 3)%nat -> Forall index_ok (i :: p) ->
  lookup_page E' 0 root (i :: p) = if i <? 256 then None else lookup_page E 0 kroot (i :: p).
Proof using Hlow Hhigh Hrest.
  intros Hl Ho. pose proof Ho as [Hi Hpo]%Forall_cons. unfold index_ok in Hi.
  destruct p as [|j p]; [done|]. unfold lookup_page; fold lookup_page.
  destruct (Z.ltb_spec i 256) as [H|H]; [by rewrite Hlow by lia|].
  rewrite Hhigh by lia. destruct (present (E kroot i)) eqn:Ep; [|done]. simpl leaf_at. cbv iota.
  apply (copied_step i 1 (j :: p)); [|by rewrite Ep|done]. intros q j' r Eq. rewrite Eq in Hpo, Hl.
  apply Forall_app in Hpo as [Hq Hj]. apply Forall_cons in Hj as [Hj _]. rewrite length_app in Hl. simpl in Hl.
  split; [|done]. split; [simpl; lia|by constructor].
Qed.
End Half.

Lemma pml4_half v : canonical v -> (VirtAddr_pml4_index v <? 256) = (v <? 2 ^ 47).
Proof.
  intros Hc. pose proof (canonical_u64 _ Hc). rewrite pml4_index_eq by ulia. unfold canonical, U64 in *.
  destruct (Z.ltb_spec v (2 ^ 47)); [apply Z.ltb_lt|apply Z.ltb_ge]; divlia.
Qed.

(** The kernel's half of an address space. *)
Definition kernel_half (σ : aspace) : aspace := fun v => if v <? 2 ^ 47 then None else σ v.

Section NewUser.
Context {F : Type} `{BF : BitFlags PTF_ALL F} {G : Type} `{BG : BitFlags MF_ALL G}.
Context {A : Type} `{FA : FrameAllocator A} (off kroot : Z) {W : Type}.

(** The memory after [new_user]: the frame [f] is the new root. *)
Definition half_copied (m : mem) (f : Z) (m' : mem) : Prop :=
  (forall x, ~ in_frame off (f * 4096) x -> m' x = m x) /\
  (forall i, 0 <= i < 256 -> ent off m' (f * 4096) i = 0) /\
  (forall i, 256 <= i < 512 -> ent off m' (f * 4096) i = ent off m kroot i).

Lemma new_user_mem m f :
  kroot mod 4096 = 0 -> kroot <> f * 4096 ->
  half_copied m f (copy_nonoverlapping (write_bytes m (off + f * 4096) 0 (8 * 256))
    (off + kroot + 8 * 256) (off + f * 4096 + 8 * 256) (8 * 256)).
Proof using.
  intros Hk Hne. unfold half_copied. apply Z.mod_divide in Hk as [q ->]; [|lia]. set (m1 := write_bytes _ _ _ _).
  assert (forall x, ~ in_frame off (f * 4096) x -> m1 x = m x) as H1.
  { intros x Hx. apply write_bytes_changed. unfold in_frame in Hx. lia. }
  split_and!.
  - intros x Hx. rewrite <- H1 by done. apply copy_changed. unfold in_frame in Hx. lia.
  - intros i Hi. unfold ent. erewrite load_changed; [|apply copy_changed|lia]. unfold m1.
    apply load_zeroed; lia.
  - intros i Hi. unfold ent. rewrite load_copy by lia.
    replace (off + q * 4096 + 8 * 256 + (off + f * 4096 + 8 * i - (off + f * 4096 + 8 * 256)))
      with (off + q * 4096 + 8 * i) by lia. apply load_ext. intros x Hx. apply H1. unfold in_frame. lia.
Qed.

Lemma half_refines (a a' : A) m m' σ f :
  refines off kroot a m σ -> f ∈ fa_free a -> fa_free a' = fa_free a ∖ {[f]} -> fa_inv a' m ->
  fa_offset a' = off -> table_ok off (f * 4096) -> half_copied m f m' ->
  refines off kroot a' m' σ /\ refines off (f * 4096) a' m' (kernel_half σ).
Proof using.
  intros Href Hf Hfree Hfa Ho Hfok (Hout & Hlow & Hhigh). pose proof Href as [(Hfa0 & Ho0 & Htree & Hr) Hv].
  assert (forall t, reach off kroot m t -> t <> f * 4096) as Hne.
  { intros t Ht ->. destruct (Hr _ Ht) as [_ Hn]. apply Hn. by rewrite frame_div. }
  assert (forall t j, reach off kroot m t -> index_ok j -> ent off m' t j = ent off m t j) as Hsame.
  { intros t j Ht Hj. unfold ent. apply load_ext. intros x Hx. apply Hout. intros Hin.
    destruct (Hr t Ht) as [Htok _]. pose proof (table_frame _ _ Htok) as Et. specialize (Hne t Ht).
    unfold in_frame, index_ok in *. lia. }
  assert (forall p t j, path_ok p -> p <> [] -> follow (ent off m) 0 kroot p = Some t -> index_ok j ->
    ent off m' t j = ent off m t j) as Hrest by (intros p t j Hp _ Ht; apply Hsame; by exists p).
  assert (fa_free a' ⊆ fa_free a /\ f ∉ fa_free a') as [Hsub Hfn] by (rewrite Hfree; clear; set_solver).
  assert (fa_inv a' m') as Hfa'.
  { apply (fa_inv_mem a' m m' Hfa). intros g x Hg Hx. apply Hout. intros Hin.
    assert (g = f) as -> by (unfold in_frame, FRAME_SIZE in *; rewrite Ho in Hx; lia). done. }
  split.
  - apply (refines_mem off a a' m kroot σ m'); try done.
    intros x (t & Ht & Hx). apply Hout. intros Hin. destruct (Hr t Ht) as [Htok _].
    pose proof (table_frame _ _ Htok). specialize (Hne t Ht). unfold in_frame in *. lia.
  - pose proof (fun i p => follow_half _ _ kroot (f * 4096) Hlow Hhigh Hrest i p) as Hfol.
    assert (forall p t, path_ok p -> p <> [] -> follow (ent off m') 0 (f * 4096) p = Some t ->
      follow (ent off m) 0 kroot p = Some t) as Hback.
    { intros [|i p] t Hp Hnil E; [done|]. rewrite Hfol in E by done. by destruct (i <? 256). }
    split; [split_and!; [done|done| |]|].
    + intros p q t Hp Hq E1 E2. destruct p as [|i p], q as [|j q]; [done|..].
      * injection E1 as <-. by destruct (Hne _ ltac:(exists (j :: q); split; [done|by apply Hback])).
      * injection E2 as <-. by destruct (Hne _ ltac:(exists (i :: p); split; [done|by apply Hback])).
      * apply (Htree (i :: p) (j :: q) t); [done|done|by apply Hback..].
    + intros t (p & Hp & E). destruct p as [|i p].
      * injection E as <-. split; [done|]. by rewrite frame_div.
      * destruct (Hr t) as [Htok Hn]; [exists (i :: p); split; [done|by apply Hback]|].
        split; [done|]. intros Hin. by apply Hn, Hsub.
    + intros v Hc. unfold page_of, kernel_half. destruct (va_path_ok v) as [_ Hvo].
      unfold va_path in *. rewrite (lookup_half _ _ kroot (f * 4096) Hlow Hhigh Hrest) by done.
      rewrite pml4_half by done. destruct (v <? 2 ^ 47); [done|]. by apply Hv.
Qed.

(** [new_user]: an empty lower half, the kernel's upper half, the kernel as before. *)
Lemma wp_new_user (a : A) m σ (dealloc : FrameDeallocFn W) :
  refines off kroot a m σ ->
  wp (new_user kroot off a m dealloc) (fun '(a', m', r) =>
    match r with
    | Ok s => exists f, s = mkAddressSpace (f * 4096) dealloc /\ f ∈ fa_free a /\ fa_free a' = fa_free a ∖ {[f]} /\
        refines off kroot a' m' σ /\ refines off (f * 4096) a' m' (kernel_half σ) /\ half_copied m f m'
    | Err e => e = VmmOutOfMemory /\ fa_free a = ∅ /\ a' = a /\ m' = m
    end).
Proof using.
  intros Href. pose proof Href as [(Hfa & Ho & _ & Hr) _].
  assert (reach off kroot m kroot) as Hrk by (exists []; split; [split; [simpl; lia|constructor]|done]).
  destruct (Hr _ Hrk) as [Hkok Hkn].
  unfold new_user. wp_step. eapply wp_mono; [by apply fa_allocate_spec|].
  intros [a' [p|]] (Hfa' & Ho' & Hres); [|destruct Hres as [-> ?]; by wp_step].
  destruct Hres as (f & -> & Hf & Hfree). destruct (fa_frame_bound _ _ _ Hfa Hf) as (H0 & Hb & Hlo & Hhi).
  unfold FRAME_SIZE in *. rewrite Ho in *.
  assert (table_ok off (f * 4096)) as Hfok
    by (split; [split; [unfold is_phys; lia|by apply Z_mod_mult]|split; [done|lia]]).
  assert (kroot <> f * 4096) as Hkf by (intros E; apply Hkn; rewrite E; by rewrite frame_div).
  pose proof Hkok as ([Hkp Hka] & _ & Hkb). unfold is_phys in Hkp.
  wp_step. cbv zeta. rewrite !VirtAddr_add_canonical by (right; unfold U64 in *; lia). unfold KERNEL_PML4_ENTRIES.
  apply wp_ret. exists f. pose proof (new_user_mem m f Hka Hkf) as Hm.
  destruct (half_refines a a' m _ σ f Href Hf Hfree Hfa' Ho' Hfok Hm) as [R1 R2]. done.
Qed.
End NewUser.

(** ** Isolation *)
Section Isolation.
Context {F : Type} `{BF : BitFlags PTF_ALL F} {G : Type} `{BG : BitFlags MF_ALL G}.
Context {A : Type} `{FA : FrameAllocator A} (off kroot : Z) {W : Type}.

(** The tables of a process that are its own: those of the lower half. *)
Definition private (m : mem) (u t : Z) : Prop :=
  exists p, path_ok p /\ low p = true /\ follow (ent off m) 0 u p = Some t.

(** Processes with the given roots and address spaces beside the kernel's. *)
Record spaces_inv (σk : aspace) (us : gmap Z aspace) (a : A) (m : mem) : Prop := {
  si_kernel : refines off kroot a m σk;
  si_user : forall u σ, us !! u = Some σ -> refines off u a m σ;
  si_shared : forall u σ i, us !! u = Some σ -> 256 <= i < 512 -> ent off m u i = ent off m kroot i;
  si_private : forall u σ t, us !! u = Some σ -> private m u t -> ~ reach off kroot m t;
  si_disjoint : forall u u' σ σ' t, us !! u = Some σ -> us !! u' = Some σ' -> u <> u' ->
    private m u t -> ~ private m u' t;
}.

Lemma low_path page p : canonical page -> page < 2 ^ 47 ->
  (exists j r, va_path page = p ++ j :: r) -> low p = true.
Proof using.
  intros Hc Hp (j & r & E). destruct p as [|i p]; [done|]. unfold va_path in E. injection E as <- _.
  simpl. rewrite pml4_half by done. by apply Z.ltb_lt.
Qed.

Lemma reach_private σk us a m u σ t :
  spaces_inv σk us a m -> us !! u = Some σ -> reach off u m t ->
  private m u t \/ exists i p, path_ok (i :: p) /\ 256 <= i < 512 /\ follow (ent off m) 0 u (i :: p) = Some t /\
    follow (ent off m) 0 kroot (i :: p) = Some t.
Proof using.
  intros Hs Hu (p & Hp & Ht). destruct (low p) eqn:Hl; [left; by exists p|right].
  destruct p as [|i p]; [done|]. simpl in Hl. apply Z.ltb_ge in Hl. pose proof (proj2 Hp) as Ho.
  apply Forall_cons in Ho as [Hi _]. unfold index_ok in Hi. exists i, p. split; [done|]. split; [lia|]. split; [done|].
  rewrite follow_cons in *. by rewrite <- (si_shared _ _ _ _ Hs u σ i Hu) by lia.
Qed.

(** Two tables that share a byte are the same. *)
Lemma table_eq t t' x : table_ok off t -> table_ok off t' -> in_frame off t x -> in_frame off t' x -> t = t'.
Proof using.
  intros Ht%table_frame Ht'%table_frame Hx Hx'. rewrite Ht, Ht' in *. f_equal. by eapply in_frame_inj.
Qed.

(** What an operation of the process [u] leaves alone: every table that is
    not one of its own. *)
Lemma op_keeps_table σk us a m u σ page a' m' t x :
  spaces_inv σk us a m -> us !! u = Some σ -> canonical page -> page < 2 ^ 47 ->
  only_tables off u page a m a' m' -> table_ok off t -> (t / 4096 ∉ fa_free a) -> ~ private m u t ->
  in_frame off t x -> m' x = m x.
Proof using.
  intros Hs Hu Hc Hp (_ & _ & _ & Hw) Htok Hnf Hnp Hx. apply Hw.
  - intros (q & j & r & t' & Hq & Ht' & Hx'). destruct (va_path_ok page) as [H4 Ho]. rewrite Hq in H4, Ho.
    rewrite length_app in H4. simpl in H4. apply Forall_app in Ho as [Hqo Hj]. apply Forall_cons in Hj as [Hj _].
    assert (path_ok q) as Hqp by (split; [lia|done]).
    destruct (proj1 (si_user _ _ _ _ Hs u σ Hu)) as (_ & _ & _ & Hr).
    destruct (Hr t') as [Htok' _]; [by exists q|].
    assert (t = t') as -> by (apply (table_eq t t' x); try done; unfold in_frame, index_ok in *; lia).
    apply Hnp. exists q. split; [done|]. split; [|done]. apply (low_path page); [done|done|by exists j, r].
  - intros f Hf Hxf. apply Hnf. pose proof (table_frame _ _ Htok) as Et. rewrite Et in Hx.
    rewrite <- (in_frame_inj off f (t / 4096) x Hxf Hx). clear -Hf. set_solver.
Qed.

(** A table of the kernel, or of another process, is not touched. *)
Lemma op_keeps_kernel σk us a m u σ page a' m' t x :
  spaces_inv σk us a m -> us !! u = Some σ -> canonical page -> page < 2 ^ 47 ->
  only_tables off u page a m a' m' -> reach off kroot m t -> in_frame off t x -> m' x = m x.
Proof using.
  intros Hs Hu Hc Hp Hot Ht Hx. destruct (proj1 (si_kernel _ _ _ _ Hs)) as (_ & _ & _ & Hr).
  destruct (Hr t Ht) as [Htok Hn]. apply (op_keeps_table σk us a m u σ page a' m' t x); try done.
  intros Hpr. by apply (si_private _ _ _ _ Hs u σ t Hu).
Qed.

Lemma op_keeps_other σk us a m u σ page a' m' u' σ' t x :
  spaces_inv σk us a m -> us !! u = Some σ -> canonical page -> page < 2 ^ 47 ->
  only_tables off u page a m a' m' -> us !! u' = Some σ' -> u <> u' -> reach off u' m t ->
  in_frame off t x -> m' x = m x.
Proof using.
  intros Hs Hu Hc Hp Hot Hu' Hne Ht Hx.
  destruct (reach_private _ _ _ _ _ _ _ Hs Hu' Ht) as [Hpr|(i & p & Hip & _ & _ & Htk)].
  - destruct (proj1 (si_user _ _ _ _ Hs u' σ' Hu')) as (_ & _ & _ & Hr). destruct (Hr t Ht) as [Htok Hn].
    apply (op_keeps_table σk us a m u σ page a' m' t x); try done. intros Hpu. by apply (si_disjoint _ _ _ _ Hs u u' σ σ' t).
  - apply (op_keeps_kernel σk us a m u σ page a' m' t x); try done. by exists (i :: p).
Qed.

Lemma root_private m u : private m u u.
Proof using. exists []. split; [split; [simpl; lia|constructor]|done]. Qed.

Lemma root_reach m u : reach off u m u.
Proof using. exists []. split; [split; [simpl; lia|constructor]|done]. Qed.

(** The upper half of the root of the process that acts is kept as well. *)
Lemma op_keeps_upper σk us a m u σ page a' m' i :
  spaces_inv σk us a m -> us !! u = Some σ -> canonical page -> page < 2 ^ 47 ->
  only_tables off u page a m a' m' -> 256 <= i < 512 -> ent off m' u i = ent off m u i.
Proof using.
  intros Hs Hu Hc Hp (_ & _ & _ & Hw) Hi. destruct (proj1 (si_user _ _ _ _ Hs u σ Hu)) as (_ & _ & Htree & Hr).
  destruct (Hr u (root_reach m u)) as [Hutok Hun].
  unfold ent. apply load_ext. intros x Hx. apply Hw.
  - intros (q & j & r & t & Hq & Ht & Hxt). destruct (va_path_ok page) as [H4 Ho]. rewrite Hq in H4, Ho.
    rewrite length_app in H4. simpl in H4. apply Forall_app in Ho as [Hqo Hj]. apply Forall_cons in Hj as [Hj _].
    assert (path_ok q) as Hqp by (split; [lia|done]). destruct (Hr t) as [Htok _]; [by exists q|].
    assert (t = u) as -> by (apply (table_eq t u x); try done; unfold in_frame, index_ok in *; lia).
    assert (q = []) as -> by (apply (Htree q [] u); [done|split; [simpl; lia|constructor]|done|done]).
    unfold va_path in Hq. injection Hq as <- _. pose proof (pml4_half page Hc) as Hh.
    rewrite (proj2 (Z.ltb_lt _ _) Hp) in Hh. apply Z.ltb_lt in Hh. lia.
  - intros f Hf Hxf. apply Hun. pose proof (table_frame _ _ Hutok) as Et.
    replace (u / 4096) with f; [clear -Hf; set_solver|].
    apply (in_frame_inj off f (u / 4096) x Hxf). rewrite <- Et. unfold in_frame. lia.
Qed.

(** A table of the acting process's lower half was there before or is new. *)
Lemma op_private σk us a m u σ page a' m' σ' t :
  spaces_inv σk us a m -> us !! u = Some σ -> canonical page -> page < 2 ^ 47 ->
  only_tables off u page a m a' m' -> refines off u a' m' σ' -> private m' u t ->
  private m u t \/ exists f, f ∈ fa_free a ∖ fa_free a' /\ t = f * 4096.
Proof using.
  intros Hs Hu Hc Hp Hot Hr' (p & Hpok & Hlow & Ht). pose proof Hot as (_ & _ & Hgrow & _).
  destruct (Hgrow t) as [Hr|?]; [by exists p| |by right].
  destruct (reach_private _ _ _ _ _ _ _ Hs Hu Hr) as [?|(i & q & Hiq & Hi & _ & Htk)]; [by left|exfalso].
  assert (follow (ent off m') 0 u (i :: q) = Some t) as Ht'.
  { rewrite follow_cons. rewrite (op_keeps_upper σk us a m u σ page a' m' i) by done.
    rewrite (si_shared _ _ _ _ Hs u σ i Hu Hi).
    rewrite <- Htk, follow_cons. destruct (_ && _) eqn:Ep; [|done]. apply follow_same. intros q1 j r w Hq Hw.
    unfold ent. apply load_ext. intros x Hx. apply (op_keeps_kernel σk us a m u σ page a' m' w); try done.
    - exists (i :: q1). split; [|by rewrite follow_cons, Ep].
      apply (path_ok_app _ (j :: r)). simpl. by rewrite <- Hq.
    - assert (index_ok j) as Hj.
      { destruct Hiq as [_ Ho]. rewrite Hq in Ho. apply Forall_cons in Ho as [_ Ho].
        apply Forall_app in Ho as [_ Ho]. by apply Forall_cons in Ho as [? _]. }
      unfold in_frame, index_ok in *. lia. }
  destruct (proj1 Hr') as (_ & _ & Htree' & _).
  rewrite (Htree' p (i :: q) t Hpok Hiq Ht Ht') in Hlow. simpl in Hlow. apply Z.ltb_lt in Hlow. lia.
Qed.

(** The operation of a process on a page of its lower half, seen by all. *)
Lemma user_op_isolated σk us a m u σ page a' m' σ' :
  spaces_inv σk us a m -> us !! u = Some σ -> canonical page -> page < 2 ^ 47 ->
  only_tables off u page a m a' m' -> refines off u a' m' σ' ->
  spaces_inv σk (<[u := σ']> us) a' m'.
Proof using.
  intros Hs Hu Hc Hp Hot Hr'. pose proof Hr' as [(Hfa' & Ho' & _ & _) _]. pose proof Hot as (Hsub & _).
  assert (forall x, x86_table off kroot m x -> m' x = m x) as Hk
    by (intros x (t & Ht & Hx); by apply (op_keeps_kernel σk us a m u σ page a' m' t x)).
  assert (forall u' σ2, us !! u' = Some σ2 -> u <> u' -> forall x, x86_table off u' m x -> m' x = m x) as Ho
    by (intros u' σ2 Hu' Hne x (t & Ht & Hx); by apply (op_keeps_other σk us a m u σ page a' m' u' σ2 t x)).
  assert (forall t, reach off kroot m' t -> reach off kroot m t) as Hrk.
  { intros t (p & Hpp & Ht). exists p. split; [done|]. by rewrite <- (proj1 (walks_same off m kroot m' Hk)). }
  assert (forall u' σ2 t, us !! u' = Some σ2 -> u <> u' -> private m' u' t -> private m u' t) as Hpo.
  { intros u' σ2 t Hu' Hne (p & Hpp & Hl & Ht). exists p. split; [done|]. split; [done|].
    by rewrite <- (proj1 (walks_same off m u' m' (Ho u' σ2 Hu' Hne)) p Hpp). }
  assert (forall t, private m' u t -> private m u t \/ exists f, f ∈ fa_free a /\ t = f * 4096) as Hpu.
  { intros t Ht. destruct (op_private _ _ _ _ _ _ _ _ _ _ _ Hs Hu Hc Hp Hot Hr' Ht) as [?|(f & Hf & ->)]; [by left|].
    right. exists f. split; [clear -Hf; set_solver|done]. }
  assert (forall i, 256 <= i < 512 -> ent off m' kroot i = ent off m kroot i) as Hek.
  { intros i Hi. apply (ent_same off m m' kroot); [apply root_reach|unfold index_ok; lia|done]. }
  constructor.
  - apply (refines_mem off a a' m kroot σk m'); try done. apply (si_kernel _ _ _ _ Hs).
  - intros u' σ2 E. apply lookup_insert_Some in E as [[<- <-]|[Hne E]]; [done|].
    apply (refines_mem off a a' m u' σ2 m'); try done; [by apply (si_user _ _ _ _ Hs)|by apply (Ho u' σ2)].
  - intros u' σ2 i E Hi. rewrite Hek by done. apply lookup_insert_Some in E as [[<- <-]|[Hne E]].
    + rewrite (op_keeps_upper σk us a m u σ page a' m' i) by done. by apply (si_shared _ _ _ _ Hs u σ).
    + rewrite (ent_same off m m' u' u' i (root_reach m u')); [by apply (si_shared _ _ _ _ Hs u' σ2)|unfold index_ok; lia|].
      by apply (Ho u' σ2).
  - intros u' σ2 t E Ht Hrt. apply Hrk in Hrt. apply lookup_insert_Some in E as [[<- <-]|[Hne E]].
    + destruct (Hpu t Ht) as [Ht'|(f & Hf & ->)]; [by apply (si_private _ _ _ _ Hs u σ t)|].
      destruct (proj1 (si_kernel _ _ _ _ Hs)) as (_ & _ & _ & Hr). destruct (Hr _ Hrt) as [_ Hn].
      by rewrite frame_div in Hn.
    + apply (si_private _ _ _ _ Hs u' σ2 t); [done|by apply (Hpo u' σ2)|done].
  - assert (forall u' σ2 t, us !! u' = Some σ2 -> u <> u' -> private m' u t -> private m' u' t -> False) as Hd.
    { intros u' σ2 t E Hne Ht Ht'. apply (Hpo u' σ2) in Ht'; [|done|done].
      destruct (Hpu t Ht) as [Hpt|(f & Hf & ->)]; [by apply (si_disjoint _ _ _ _ Hs u u' σ σ2 t)|].
      destruct (proj1 (si_user _ _ _ _ Hs u' σ2 E)) as (_ & _ & _ & Hr).
      destruct Ht' as (p & Hpp & _ & Ht'). destruct (Hr (f * 4096)) as [_ Hn]; [by exists p|].
      by rewrite frame_div in Hn. }
    intros u1 u2 σ1 σ2 t E1 E2 Hne H1 H2.
    apply lookup_insert_Some in E1 as [[<- <-]|[Hn1 E1]], E2 as [[<- <-]|[Hn2 E2]]; [done|by eapply Hd| |].
    + by eapply (Hd u1 σ1 t).
    + apply (si_disjoint _ _ _ _ Hs u1 u2 σ1 σ2 t); [done|done|done|by apply (Hpo u1 σ1)|by apply (Hpo u2 σ2)].
Qed.

(** Bytes of tables are not bytes of a free frame. *)
Lemma table_not_free root a m σ f x :
  refines off root a m σ -> f ∈ fa_free a -> x86_table off root m x -> ~ in_frame off (f * 4096) x.
Proof using. intros Hr Hf Hx. by apply (x86_free_spec off a m root σ x f). Qed.

(** A new process disturbs nobody. *)
Lemma new_user_isolated σk us a m f a' m' :
  spaces_inv σk us a m -> f ∈ fa_free a -> fa_free a' = fa_free a ∖ {[f]} ->
  refines off kroot a' m' σk -> refines off (f * 4096) a' m' (kernel_half σk) -> half_copied off kroot m f m' ->
  spaces_inv σk (<[f * 4096 := kernel_half σk]> us) a' m'.
Proof using.
  intros Hs Hf Hfree Hrk Hrn (Hout & Hlow & Hhigh).
  assert (fa_free a' ⊆ fa_free a) as Hsub by (rewrite Hfree; clear; set_solver).
  pose proof Hrk as [(Hfa' & Ho' & _) _].
  assert (forall x, x86_table off kroot m x -> m' x = m x) as Hk.
  { intros x Hx. apply Hout. by apply (table_not_free kroot a m σk f x (si_kernel _ _ _ _ Hs)). }
  assert (forall u σ, us !! u = Some σ -> forall x, x86_table off u m x -> m' x = m x) as Hu.
  { intros u σ E x Hx. apply Hout. by apply (table_not_free u a m σ f x (si_user _ _ _ _ Hs u σ E)). }
  assert (forall t, reach off kroot m' t -> reach off kroot m t) as Hbk.
  { intros t (p & Hpp & Ht). exists p. split; [done|]. by rewrite <- (proj1 (walks_same off m kroot m' Hk)). }
  assert (forall u σ t, us !! u = Some σ -> private m' u t -> private m u t) as Hbu.
  { intros u σ t E (p & Hpp & Hl & Ht). exists p. split; [done|]. split; [done|].
    by rewrite <- (proj1 (walks_same off m u m' (Hu u σ E)) p Hpp). }
  assert (forall root σ, refines off root a m σ -> ~ reach off root m (f * 4096)) as Hfr.
  { intros root σ [(_ & _ & _ & Hr) _] Ht. destruct (Hr _ Ht) as [_ Hn]. by rewrite frame_div in Hn. }
  assert (forall t, private m' (f * 4096) t -> t = f * 4096) as Hpn.
  { intros t (p & [_ Hpp] & Hl & Ht). destruct p as [|i p]; [by injection Ht as <-|].
    simpl in Hl. apply Z.ltb_lt in Hl. apply Forall_cons in Hpp as [Hi _]. unfold index_ok in Hi.
    by rewrite follow_cons, Hlow in Ht by lia. }
  assert (forall i, 256 <= i < 512 -> ent off m' kroot i = ent off m kroot i) as Hek.
  { intros i Hi. apply (ent_same off m m' kroot); [apply root_reach|unfold index_ok; lia|done]. }
  constructor; [done|..].
  - intros u σ E. apply lookup_insert_Some in E as [[<- <-]|[Hne E]]; [done|].
    apply (refines_mem off a a' m u σ m'); try done; [by apply (si_user _ _ _ _ Hs)|by apply (Hu u σ)].
  - intros u σ i E Hi. rewrite Hek by done. apply lookup_insert_Some in E as [[<- <-]|[Hne E]]; [by apply Hhigh|].
    rewrite (ent_same off m m' u u i (root_reach m u)); [by apply (si_shared _ _ _ _ Hs u σ)|unfold index_ok; lia|].
    by apply (Hu u σ).
  - intros u σ t E Ht Hrt%Hbk. apply lookup_insert_Some in E as [[<- <-]|[Hne E]].
    + rewrite (Hpn t Ht) in Hrt. by apply (Hfr kroot σk (si_kernel _ _ _ _ Hs)).
    + apply (si_private _ _ _ _ Hs u σ t); [done|by apply (Hbu u σ)|done].
  - assert (forall u σ t, us !! u = Some σ -> private m' u t -> ~ private m' (f * 4096) t) as Hd.
    { intros u σ t E Ht Htn. rewrite (Hpn t Htn) in Ht. destruct (Hbu u σ _ E Ht) as (p & Hpp & _ & Hp).
      apply (Hfr u σ (si_user _ _ _ _ Hs u σ E)). by exists p. }
    intros u1 u2 σ1 σ2 t E1 E2 Hne H1 H2.
    apply lookup_insert_Some in E1 as [[<- <-]|[Hn1 E1]], E2 as [[<- <-]|[Hn2 E2]]; [done| | |].
    + by apply (Hd u2 σ2 t).
    + by apply (Hd u1 σ1 t).
    + apply (si_disjoint _ _ _ _ Hs u1 u2 σ1 σ2 t); [done|done|done|by apply (Hbu u1 σ1)|by apply (Hbu u2 σ2)].
Qed.

(** ** Runs of processes *)

Abbreviation mapper := (x86_PageMapper (F := F) (G := G) (A := A) off).

Definition space (u : Z) : AddressSpace unit := mkAddressSpace u (fun _ w => Ret w).

Lemma user_flag_plain (g : G) :
  Z.testbit (bf_bits g) 5 = false ->
  Z.testbit (bf_bits (bf_union g MF_USER)) 5 = false /\ Z.testbit (page_bits Size4KiB (bf_union g MF_USER)) 2 = true.
Proof using.
  intros H5. unfold page_bits. assert (bf_bits (bf_union g MF_USER) = Z.lor (bf_bits g) 4) as E.
  { unfold MF_USER. by rewrite bf_union_bits, bf_retain_bits. }
  rewrite E. split; [by rewrite Z.lor_spec, H5|].
  unfold native_bits. rewrite !(Z.lor_spec (bf_bits g) 4), H5.
  destruct (Z.testbit _ 0), (Z.testbit (bf_bits g) 1), (Z.testbit (bf_bits g) 2), (Z.testbit (bf_bits g) 3),
    (Z.testbit (bf_bits g) 4); reflexivity.
Qed.

(** What the processes do, with the results they get. *)
Inductive user_op : Type :=
| UNew (u : Z)
| UMap (u page frame : Z) (g : G)
| UUnmap (u page : Z) (r : result Z VmmError)
| UProtect (u base n : Z) (g : G) (r : result unit unit).

(** The code, on the allocator, memory and the roots of the processes. *)
Inductive user_step : A * mem * gset Z -> user_op -> A * mem * gset Z -> Prop :=
| ustep_new a m us a' m' s :
    new_user kroot off a m (fun _ w => Ret w) = Ret (a', m', Ok s) ->
    user_step (a, m, us) (UNew (as_root_phys (W := unit) s)) (a', m', {[as_root_phys s]} ∪ us)
| ustep_map a m us u page frame g a' m' r :
    u ∈ us -> 0 <= page < 2 ^ 47 -> is_phys frame -> frame mod 4096 = 0 ->
    Z.testbit (bf_bits g) 5 = false -> (3 <= size (fa_free a))%nat -> page_of off u m page = None ->
    map_user_page (PM := mapper) (space u) page frame g a m = Ret (a', m', r) ->
    user_step (a, m, us) (UMap u page frame g) (a', m', us)
| ustep_unmap a m us u page m' r :
    u ∈ us -> 0 <= page < 2 ^ 47 -> unmap_user_page (PM := mapper) (space u) page m = Ret (m', r) ->
    user_step (a, m, us) (UUnmap u page r) (a, m', us)
| ustep_protect a m us u base n g m' r :
    u ∈ us -> 0 <= base -> base mod 4096 = 0 -> 0 <= n -> base + 4096 * n <= 2 ^ 47 ->
    Z.testbit (bf_bits g) 5 = false ->
    protect_range (PM := mapper) (space u) base n g m = Ret (m', r) ->
    user_step (a, m, us) (UProtect u base n g r) (a, m', us).

Definition small_page (σ : aspace) (page : Z) : Prop := exists pa fl, σ page = Some (Size4KiB, pa, fl).

(** The specification: each operation is about the address space of one
    process. *)
Inductive user_spec (σk : aspace) (us : gmap Z aspace) : user_op -> gmap Z aspace -> Prop :=
| uspec_new u : us !! u = None -> user_spec σk us (UNew u) (<[u := kernel_half σk]> us)
| uspec_map u σ page frame g :
    us !! u = Some σ -> 0 <= page < 2 ^ 47 -> Z.testbit (bf_bits g) 5 = false ->
    user_spec σk us (UMap u page frame g)
      (<[u := set_pages Size4KiB page (Some (Size4KiB, frame, page_bits Size4KiB (bf_union g MF_USER))) σ]> us)
| uspec_unmap u σ page pa fl :
    us !! u = Some σ -> 0 <= page < 2 ^ 47 -> σ page = Some (Size4KiB, pa, fl) ->
    user_spec σk us (UUnmap u page (Ok (4096 * (pa / 4096)))) (<[u := set_pages Size4KiB page None σ]> us)
| uspec_unmap_err u σ page e :
    us !! u = Some σ -> ~ small_page σ page -> user_spec σk us (UUnmap u page (Err e)) us
| uspec_protect u σ base n g :
    us !! u = Some σ -> 0 <= base -> base mod 4096 = 0 -> 0 <= n -> base + 4096 * n <= 2 ^ 47 ->
    Z.testbit (bf_bits g) 5 = false -> (forall i, 0 <= i < n -> small_page σ (base + 4096 * i)) ->
    user_spec σk us (UProtect u base n g (Ok tt))
      (<[u := reflag base (4096 * n) (page_bits Size4KiB (bf_union g MF_USER)) σ]> us)
| uspec_protect_err u σ base n g k :
    us !! u = Some σ -> 0 <= base -> base mod 4096 = 0 -> 0 <= k < n -> base + 4096 * n <= 2 ^ 47 ->
    Z.testbit (bf_bits g) 5 = false -> (forall i, 0 <= i < k -> small_page σ (base + 4096 * i)) ->
    ~ small_page σ (base + 4096 * k) ->
    user_spec σk us (UProtect u base n g (Err tt))
      (<[u := reflag base (4096 * k) (page_bits Size4KiB (bf_union g MF_USER)) σ]> us).

(** The address space of a process: its upper half is the kernel's, its own
    pages carry the user bit. *)
Definition user_space (σk σ : aspace) : Prop :=
  paged σ /\ (forall v, 2 ^ 47 <= v -> σ v = σk v) /\
  (forall v sz pa fl, v < 2 ^ 47 -> σ v = Some (sz, pa, fl) -> Z.testbit fl 2 = true).

Lemma paged_set_pages σ page x : paged σ -> paged (set_pages Size4KiB page x σ).
Proof using. intros Hp v w E. unfold set_pages. simpl SIZE. rewrite E. by rewrite (Hp v w E). Qed.

Lemma paged_reflag σ base n fl : base mod 4096 = 0 -> paged σ -> paged (reflag base (4096 * n) fl σ).
Proof using.
  intros Hb Hp v w E. unfold reflag. rewrite (Hp v w E). apply Z.mod_divide in Hb as [q ->]; [|lia].
  replace (q * 4096 <=? v) with (q * 4096 <=? w) by (clear -E; destruct (Z.leb_spec (q * 4096) v),
    (Z.leb_spec (q * 4096) w); try done; exfalso; divlia).
  replace (v <? q * 4096 + 4096 * n) with (w <? q * 4096 + 4096 * n); [done|].
  clear -E. destruct (Z.ltb_spec v (q * 4096 + 4096 * n)), (Z.ltb_spec w (q * 4096 + 4096 * n)); try done; exfalso; divlia.
Qed.

Lemma set_pages_user σk σ page x :
  user_space σk σ -> 0 <= page < 2 ^ 47 ->
  (forall sz pa fl, x = Some (sz, pa, fl) -> Z.testbit fl 2 = true) ->
  user_space σk (set_pages Size4KiB page x σ).
Proof using.
  intros (H1 & H2 & H3) Hp Hx. split_and!; [by apply paged_set_pages| |]; intros v; unfold set_pages; simpl SIZE.
  - intros Hv. rewrite decide_False by (clear -Hv Hp; divlia). by apply H2.
  - intros sz pa fl Hv. case_decide; [apply Hx|by apply H3].
Qed.

Lemma reflag_user σk σ base n fl :
  user_space σk σ -> 0 <= base -> base mod 4096 = 0 -> base + 4096 * n <= 2 ^ 47 ->
  Z.testbit fl 2 = true -> user_space σk (reflag base (4096 * n) fl σ).
Proof using.
  intros (H1 & H2 & H3) Hb0 Hb Hn Hfl. split_and!; [by apply paged_reflag| |]; intros v; unfold reflag.
  - intros Hv. rewrite (proj2 (Z.ltb_ge _ _)), andb_false_r by lia. by apply H2.
  - intros sz pa fl' Hv E. destruct (_ && _); [|by eapply H3].
    destruct (σ v) as [[[? ?] ?]|]; [|done]. injection E as <- <- <-. done.
Qed.

Lemma user_spec_space σk us op us' :
  paged σk -> user_spec σk us op us' -> map_Forall (fun _ σ => user_space σk σ) us ->
  map_Forall (fun _ σ => user_space σk σ) us'.
Proof using.
  intros Hk Hspec Hus. destruct Hspec; try done; (apply map_Forall_insert_2; [|done]).
  - split_and!.
    + intros v w E. unfold kernel_half. rewrite (Hk v w E).
      destruct (Z.ltb_spec v (2 ^ 47)), (Z.ltb_spec w (2 ^ 47)); try done; exfalso; divlia.
    + intros v Hv. unfold kernel_half. by rewrite (proj2 (Z.ltb_ge _ _)).
    + intros v sz pa fl Hv. unfold kernel_half. by rewrite (proj2 (Z.ltb_lt _ _)).
  - apply set_pages_user; [by eapply Hus|done|]. intros sz pa fl [= <- <- <-]. by apply user_flag_plain.
  - apply set_pages_user; [by eapply Hus|done|done].
  - apply reflag_user; [by eapply Hus|done|done|done|by apply user_flag_plain].
  - apply reflag_user; [by eapply Hus|done|done|lia|by apply user_flag_plain].
Qed.

Lemma spaces_replace σk us a m u σ1 σ2 :
  spaces_inv σk (<[u := σ1]> us) a m -> refines off u a m σ2 -> spaces_inv σk (<[u := σ2]> us) a m.
Proof using.
  intros Hs Hr.
  assert (forall u' σ', <[u := σ2]> us !! u' = Some σ' -> exists σ'', <[u := σ1]> us !! u' = Some σ'') as Hex.
  { intros u' σ' E. apply lookup_insert_Some in E as [[<- _]|[Hne E]]; [exists σ1; by rewrite lookup_insert_eq|].
    exists σ'. by rewrite lookup_insert_ne. }
  constructor; [apply Hs|..].
  - intros u' σ' E. apply lookup_insert_Some in E as [[<- <-]|[Hne E]]; [done|].
    apply (si_user _ _ _ _ Hs). by rewrite lookup_insert_ne.
  - intros u' σ' i [σ'' E]%Hex. by apply (si_shared _ _ _ _ Hs u' σ'').
  - intros u' σ' t [σ'' E]%Hex. by apply (si_private _ _ _ _ Hs u' σ'').
  - intros u1 u2 σ' σ'' t [? E1]%Hex [? E2]%Hex. by eapply (si_disjoint _ _ _ _ Hs).
Qed.

(** Changing rights page by page keeps the others, whatever happens. *)
Lemma protect_spaces σk us a m u σ base g n i :
  spaces_inv σk us a m -> us !! u = Some σ -> 0 <= i -> 0 <= base -> base mod 4096 = 0 ->
  base + 4096 * (i + Z.of_nat n) <= 2 ^ 47 -> Z.testbit (bf_bits g) 5 = false ->
  wp (protect_pages (PM := mapper) u base g m i n) (fun '(m', _) => exists σ', spaces_inv σk (<[u := σ']> us) a m').
Proof using.
  revert us m σ i. induction n as [|n IH]; intros us m σ i Hs Hu Hi Hb0 Hb Hn H5;
    unfold protect_pages; fold (protect_pages (PM := mapper)).
  { wp_step. exists σ. by rewrite insert_id. }
  assert (canonical (base + 4096 * i)) as Hci by (left; lia).
  wp_step. wp_step. wp_step. change (i * 0x1000) with (i * 4096). rewrite (Z.mul_comm i 4096).
  rewrite VirtAddr_add_canonical by done.
  apply wp_Page_containing_aligned; [done|by apply mod_add_pages|]. wp_step.
  change (pm_update_flags m u (base + 4096 * i) g) with (mapper_update_flags (F := F) off Size4KiB m u (base + 4096 * i) g).
  eapply wp_mono; [apply (wp_protect (F := F) off u a m σ Size4KiB (base + 4096 * i) g);
    [by apply (si_user _ _ _ _ Hs)|done|done]|].
  intros [m1 r] (σ1 & _ & Hr1 & Hot).
  assert (spaces_inv σk (<[u := σ1]> us) a m1) as Hs1
    by (apply (user_op_isolated σk us a m u σ (base + 4096 * i) a m1 σ1); try done; lia).
  destruct r as [r|e]; [|wp_step; by exists σ1].
  eapply wp_mono; [apply (IH (<[u := σ1]> us) m1 σ1 (i + 1)); try done; [by rewrite lookup_insert_eq|lia|lia]|].
  intros [m2 _] (σ2 & Hs2). exists σ2. by rewrite insert_insert_eq in Hs2.
Qed.

Lemma canonical_low page : 0 <= page < 2 ^ 47 -> canonical page.
Proof using. intros H. by left. Qed.

(** Each step of the code is a step of the specification. *)
Lemma user_step_sim σk us a m op s' :
  spaces_inv σk us a m -> map_Forall (fun _ σ => user_space σk σ) us ->
  user_step (a, m, dom us) op s' ->
  exists us', user_spec σk us op us' /\ spaces_inv σk us' s'.1.1 s'.1.2 /\ dom us' = s'.2.
Proof using.
  intros Hs Hus Hstep. remember (a, m, dom us) as s0 eqn:E0.
  destruct Hstep as [a0 m0 R a' m' s E|a0 m0 R u page frame g a' m' r Hu Hp Hph Hal H5 Hsz Hno E
    |a0 m0 R u page m' r Hu Hp E|a0 m0 R u base n g m' r Hu Hb0 Hb Hn0 Hn H5 E];
    injection E0 as -> -> ->; simpl.
  - destruct (wp_use _ _ _ (wp_new_user off kroot a m σk _ (si_kernel _ _ _ _ Hs)) E)
      as (f & -> & Hf & Hfree & Hrk & Hru & Hhc). simpl.
    exists (<[f * 4096 := kernel_half σk]> us). split; [|split; [by apply (new_user_isolated σk us a m)|by rewrite dom_insert_L]].
    apply uspec_new. destruct (us !! (f * 4096)) as [σ|] eqn:Eu; [exfalso|done].
    destruct (proj1 (si_user _ _ _ _ Hs _ _ Eu)) as (_ & _ & _ & Hr).
    destruct (Hr _ (root_reach m (f * 4096))) as [_ Hn]. by rewrite frame_div in Hn.
  - apply elem_of_dom in Hu as [σ Eu]. pose proof (canonical_low _ Hp) as Hc.
    pose proof (si_user _ _ _ _ Hs u σ Eu) as Hr. destruct (user_flag_plain g H5) as [H5' _].
    unfold map_user_page in E. apply bind_Ret_inv in E as ([a1 m1] & E & E'). injection E' as -> -> _.
    destruct (wp_use _ _ _ (wp_map (F := F) off u a m σ Size4KiB page frame (bf_union g MF_USER) Hr
      ltac:(split_and!; try done; by rewrite <- (proj2 Hr page Hc), Hno)) E) as [Hr' Hot].
    eexists. split; [by apply uspec_map|]. split; [|by apply dom_insert_lookup_L; eexists].
    apply (user_op_isolated σk us a m u σ page a' m'); try done; lia.
  - apply elem_of_dom in Hu as [σ Eu]. pose proof (canonical_low _ Hp) as Hc.
    pose proof (si_user _ _ _ _ Hs u σ Eu) as Hr.
    unfold unmap_user_page in E. apply bind_Ret_inv in E as ([m1 r1] & E & E').
    destruct (wp_use _ _ _ (wp_unmap (F := F) (G := G) off u a m σ Size4KiB page Hr Hc) E) as (σ' & Hsp & Hr' & Hot).
    assert (spaces_inv σk (<[u := σ']> us) a m1) as Hs'
      by (apply (user_op_isolated σk us a m u σ page a m1); try done; lia).
    destruct r1 as [f|e]; injection E' as -> <-; inversion Hsp; subst.
    + eexists. split; [by eapply uspec_unmap|]. split; [done|by apply dom_insert_lookup_L; eexists].
    + exists us. split; [|split; [by rewrite insert_id in Hs'|done]].
      eapply uspec_unmap_err; [done|]. intros (pa & fl & Ep).
      match goal with H : refused _ _ _ _ |- _ => by apply (proj1 H pa fl) end.
  - apply elem_of_dom in Hu as [σ Eu]. destruct (user_flag_plain g H5) as [H5' _].
    pose proof (si_user _ _ _ _ Hs u σ Eu) as Hr. destruct (Hus u σ Eu) as (Hpg & _).
    unfold protect_range in E. cbv zeta in E. pose proof (Z2Nat.id n Hn0) as En.
    destruct (wp_use _ _ _ (protect_spaces σk us a m u σ base (bf_union g MF_USER) (Z.to_nat n) 0 Hs Eu
      ltac:(lia) Hb0 Hb ltac:(lia) H5') E) as (σ1 & Hs1).
    destruct (wp_use _ _ _ (wp_protect_pages (PM := mapper) u (bf_union g MF_USER) a m σ base (Z.to_nat n) 0 H5'
      ltac:(apply (x86_same_spec off a m u σ); [intros v _; unfold reflag; by zcases|done]) Hpg ltac:(lia) Hb0 Hb
      ltac:(intros v Hv; apply canonical_low; lia)) E) as (k & Hk & Hrk & _ & Hpre & Hres).
    rewrite En, Z.add_0_l in *. pose proof (spaces_replace σk us a m' u σ1 _ Hs1 Hrk) as Hs2.
    eexists. split; [|split; [exact Hs2|by apply dom_insert_lookup_L; eexists]].
    destruct r as [[]|[]].
    + subst k. by apply uspec_protect.
    + destruct Hres as [Hkn Hno]. apply (uspec_protect_err _ _ u σ base n g k); try done; [lia|].
      intros (pa & fl & Ep). by apply (Hno pa fl).
Qed.

Inductive user_run : A * mem * gset Z -> list user_op -> A * mem * gset Z -> Prop :=
| urun_nil s : user_run s [] s
| urun_cons s op s1 ops s2 : user_step s op s1 -> user_run s1 ops s2 -> user_run s (op :: ops) s2.

Inductive user_spec_run (σk : aspace) : gmap Z aspace -> list user_op -> gmap Z aspace -> Prop :=
| usrun_nil us : user_spec_run σk us [] us
| usrun_cons us op us1 ops us2 :
    user_spec σk us op us1 -> user_spec_run σk us1 ops us2 -> user_spec_run σk us (op :: ops) us2.

Lemma user_run_sim σk us s ops s' :
  paged σk -> user_run s ops s' -> dom us = s.2 -> spaces_inv σk us s.1.1 s.1.2 ->
  map_Forall (fun _ σ => user_space σk σ) us ->
  exists us', user_spec_run σk us ops us' /\ dom us' = s'.2 /\ spaces_inv σk us' s'.1.1 s'.1.2 /\
    map_Forall (fun _ σ => user_space σk σ) us'.
Proof using.
  intros Hk Hrun. revert us. induction Hrun as [s|[[a m] R] op s1 ops s2 Hstep Hrun IH]; intros us Hd Hs Hus; simpl in *.
  { exists us. split; [constructor|done]. }
  subst R. destruct (user_step_sim σk us a m op s1 Hs Hus Hstep) as (us1 & Hsp & Hs1 & Hd1).
  destruct (IH us1 Hd1 Hs1) as (us2 & Hr & H2); [by eapply user_spec_space|].
  exists us2. split; [by econstructor|done].
Qed.

Lemma spaces_empty a m : pt_inv off kroot a m -> spaces_inv (page_of off kroot m) ∅ a m.
Proof using. intros Hi. constructor; [by split|..]; intros; by rewrite lookup_empty in *. Qed.

Lemma page_of_paged m : paged (page_of off kroot m).
Proof using.
  intros v w E. unfold page_of. f_equal.
  assert (forall k, 12 <= k -> Z.shiftr v k = Z.shiftr w k) as H.
  { intros k Hk. replace k with (12 + (k - 12)) by lia. rewrite <- !Z.shiftr_shiftr by lia.
    f_equal. by rewrite !Z.shiftr_div_pow2 by lia. }
  unfold va_path, VirtAddr_pml4_index, VirtAddr_pdpt_index, VirtAddr_pd_index, VirtAddr_pt_index.
  by rewrite !H by lia.
Qed.
End Isolation.

(** ** Properties *)

(** C1: Processes are isolated.  Start with any kernel page tables and no process,
    and let processes be created and map, unmap and protect pages of their
    lower halves in any order.  The results they get and their address spaces
    are those of the specification, in which every operation concerns the
    process that makes it only.  The kernel's translations never change; the
    upper half of every process is the kernel's; every page of a lower half
    carries the user bit. *)
Theorem user_spaces_isolated {F G A} `{BF : BitFlags PTF_ALL F} `{BG : BitFlags MF_ALL G}
    `{FA : FrameAllocator A} (off kroot : Z) (a a' : A) (m m' : mem) (roots : gset Z) (ops : list (user_op (G := G))) :
  pt_inv off kroot a m -> user_run (F := F) off kroot (a, m, ∅) ops (a', m', roots) ->
  let kernel := page_of off kroot m in
  (forall v, canonical v -> page_of off kroot m' v = kernel v) /\
  exists us, user_spec_run kernel ∅ ops us /\ dom us = roots /\
    forall u σ, us !! u = Some σ -> forall v, canonical v ->
      page_of off u m' v = σ v /\ (2 ^ 47 <= v -> σ v = kernel v) /\
      (v < 2 ^ 47 -> forall sz pa fl, σ v = Some (sz, pa, fl) -> Z.testbit fl 2 = true).
Proof.
  intros Hi Hrun kernel.
  destruct (user_run_sim (F := F) off kroot kernel ∅ _ _ _ (page_of_paged off kroot m) Hrun dom_empty_L
    (spaces_empty off kroot a m Hi) (map_Forall_empty _)) as (us & Hsp & Hd & Hs & Hus). simpl in *.
  split; [intros v Hc; by apply (si_kernel _ _ _ _ _ _ Hs)|]. exists us. split; [done|]. split; [done|].
  intros u σ E v Hc. destruct (Hus u σ E) as (_ & Hup & Hlo).
  split; [by apply (si_user _ _ _ _ _ _ Hs u σ E)|]. split; [by apply Hup|]. intros Hv sz pa fl. by apply Hlo.
Qed.

Section Example.
#[local] Instance example_frames_fa : FrameAllocator BitmapAllocator := bitmap_FrameAllocator false.

Lemma user_spaces_isolated_witness :
  exists u a' m' us,
    user_run (F := word64) (G := word64) example_off 0 (example_pmm, zero_mem, ∅)
      [UNew u; UMap u 0x400000 0x7000 (w64 1)] (a', m', {[u]}) /\
    user_spec_run (fun v => page_of example_off 0 zero_mem v) ∅ [UNew u; UMap u 0x400000 0x7000 (w64 1)] us /\
    dom us = ({[u]} : gset Z).
Proof.
  destruct (proj1 (wp_exists _ _) (wp_new_user example_off 0 example_pmm zero_mem (fun _ => None)
    (fun (_ : Z) (w : unit) => Ret w) example_refines)) as ([[a1 m1] r] & E1 & Hr).
  destruct r as [s|e].
  2:{ exfalso. destruct Hr as (_ & He & _). pose proof example_frames as Hf.
      change (fa_free example_pmm) with (pmm_free example_pmm) in *. rewrite He, size_empty in Hf. lia. }
  destruct Hr as (f & -> & Hf & Hfree & Hrk & Hru & _).
  assert (3 <= size (pmm_free a1))%nat as Hsz.
  { change (pmm_free a1 = pmm_free example_pmm ∖ {[f]}) in Hfree. change (f ∈ pmm_free example_pmm) in Hf.
    rewrite Hfree. pose proof (size_take_out _ _ Hf). destruct example_pmm_inv as (_ & Hc & _).
    change (free_count example_pmm) with 174 in Hc. lia. }
  assert (canonical 0x400000) as Hcan by (left; lia).
  assert (page_of example_off (f * 4096) m1 0x400000 = None) as Hno by (by rewrite (proj2 Hru)).
  assert (Z.testbit (bf_bits (all := MF_ALL) (w64 1)) 5 = false) as Hg by (by vm_compute).
  destruct (user_flag_plain (G := word64) (w64 1) Hg) as [H5 _].
  destruct (proj1 (wp_exists _ _) (wp_map (F := word64) (G := word64) example_off (f * 4096) a1 m1 _ Size4KiB 0x400000 0x7000
    (bf_union (w64 1) MF_USER) Hru ltac:(split_and!; [left; lia|unfold is_phys; lia|done|exact H5|exact Hsz|done])))
    as ([a2 m2] & E2 & _).
  assert (user_run (F := word64) (G := word64) example_off 0 (example_pmm, zero_mem, ∅)
      [UNew (f * 4096); UMap (f * 4096) 0x400000 0x7000 (w64 1)] (a2, m2, {[f * 4096]} ∪ ∅)) as Hrun.
  { econstructor; [apply (ustep_new example_off 0 example_pmm zero_mem ∅ a1 m1 _ E1)|].
    econstructor; [|constructor]. apply (ustep_map example_off 0 a1 m1 _ (f * 4096) 0x400000 0x7000 (w64 1) a2 m2 (Ok 0x400000)).
    - clear. set_solver.
    - lia.
    - unfold is_phys. lia.
    - done.
    - exact Hg.
    - exact Hsz.
    - exact Hno.
    - exact (f_equal (fun e => '(a, m) ← e; Ret (a, m, Ok 0x400000 : result Z VmmError)) E2). }
  rewrite union_empty_r_L in Hrun.
  destruct (user_spaces_isolated (F := word64) (G := word64) example_off 0 example_pmm a2 zero_mem m2 {[f * 4096]} _
    (proj1 example_refines) Hrun) as (_ & us & Hsp & Hd & _).
  exists (f * 4096), a2, m2, us. split; [exact Hrun|]. split; [exact Hsp|exact Hd].
Defined.
End Example.
