(* ===== verification/FdTable.v ===== *)
(** * File descriptors (kernel/fs/src/file.rs and the descriptor system calls)

    The descriptor table of a process and the handlers [sys_handle_close],
    [sys_handle_dup] and [sys_handle_fcntl] of
    [kernel/kernel/src/syscall/vfs.rs], which run on the table of the current
    process.  An inode is a value of a type [I]. *)

From S2P Require Import Prelude Extern FsTypes.

(** ** [OpenFlags] *)

Definition OPEN_FLAGS_ALL : Z := 0x01FF.

Section Flags.
Context `{BF : BitFlags OPEN_FLAGS_ALL F}.

Definition OF_READ : F := bf_from_bits_retain 0x0001.
Definition OF_WRITE : F := bf_from_bits_retain 0x0002.
Definition OF_APPEND : F := bf_from_bits_retain 0x0010.
Definition OF_CLOEXEC : F := bf_from_bits_retain 0x0020.
Definition OF_NONBLOCK : F := bf_from_bits_retain 0x0040.
Definition OF_empty : F := bf_from_bits_retain 0.
End Flags.

(** ** The table *)

Section Table.
Context {I : Type} `{BF : BitFlags OPEN_FLAGS_ALL F}.

Record FileDescriptor : Type := mkFileDescriptor {
  fd_inode : I;
  fd_offset : Z;
  fd_flags : F;
}.

(** [fds] is the tree map from numbers to open descriptors. *)
Record FileDescriptorTable : Type := mkFdTable {
  fds : gmap Z FileDescriptor;
  next_fd : Z;
}.

Definition FileDescriptorTable_new : FileDescriptorTable := mkFdTable ∅ 0.

Definition fdt_open (self : FileDescriptorTable) (inode : I) (flags : F)
    : exec (FileDescriptorTable * Z) :=
  let fd := next_fd self in
  let m := <[fd := mkFileDescriptor inode 0 flags]> (fds self) in
  n ← add32 fd 1;
  Ret (mkFdTable m n, fd).

Definition insert_at (self : FileDescriptorTable) (fd : Z) (inode : I) (flags : F)
    : exec FileDescriptorTable :=
  let m := <[fd := mkFileDescriptor inode 0 flags]> (fds self) in
  if next_fd self <=? fd then
    n ← add32 fd 1;
    Ret (mkFdTable m n)
  else Ret (mkFdTable m (next_fd self)).

Definition fdt_close (self : FileDescriptorTable) (fd : Z)
    : FileDescriptorTable * result unit FsError :=
  match fds self !! fd with
  | Some _ => (mkFdTable (delete fd (fds self)) (next_fd self), Ok tt)
  | None => (self, Err BadFd)
  end.

Definition close_take (self : FileDescriptorTable) (fd : Z)
    : FileDescriptorTable * option FileDescriptor :=
  (mkFdTable (delete fd (fds self)) (next_fd self), fds self !! fd).

Definition close_cloexec (self : FileDescriptorTable) : FileDescriptorTable :=
  mkFdTable (filter (fun p => bf_contains (fd_flags p.2) OF_CLOEXEC = false) (fds self)) (next_fd self).

Definition fdt_get (self : FileDescriptorTable) (fd : Z) : option FileDescriptor := fds self !! fd.

(** [get_mut] and an assignment through the reference. *)
Definition fdt_set (self : FileDescriptorTable) (fd : Z) (d : FileDescriptor) : FileDescriptorTable :=
  mkFdTable (<[fd := d]> (fds self)) (next_fd self).

(** The search for an unused number. *)
Fixpoint lowest_from (m : gmap Z FileDescriptor) (fuel : nat) (candidate : Z) : exec Z :=
  match fuel with
  | O => Panic
  | S fuel =>
      if decide (is_Some (m !! candidate)) then
        c ← add32 candidate 1;
        lowest_from m fuel c
      else Ret candidate
  end.

Definition dup_lowest_from (self : FileDescriptorTable) (src_fd min_fd : Z) (extra_flags : F)
    : exec (FileDescriptorTable * option Z) :=
  match fds self !! src_fd with
  | None => Ret (self, None)
  | Some src =>
      let flags := bf_union (fd_flags src) extra_flags in
      candidate ← lowest_from (fds self) (S (size (fds self))) min_fd;
      let m := <[candidate := mkFileDescriptor (fd_inode src) (fd_offset src) flags]> (fds self) in
      if next_fd self <=? candidate then
        n ← add32 candidate 1;
        Ret (mkFdTable m n, Some candidate)
      else Ret (mkFdTable m (next_fd self), Some candidate)
  end.

Definition dup_lowest (self : FileDescriptorTable) (src_fd : Z) : exec (FileDescriptorTable * option Z) :=
  dup_lowest_from self src_fd 0 OF_empty.

(** ** The system calls

    Each works on the table of the current process.  [x as u32] truncates. *)

Definition as_u32 (x : Z) : Z := x mod 2 ^ 32.

Definition sys_handle_close (t : FileDescriptorTable) (fd : Z) : FileDescriptorTable * Z :=
  let '(t, removed) := close_take t (as_u32 fd) in
  match removed with
  | Some _ => (t, 0)
  | None => (t, - EBADF)
  end.

Definition sys_handle_dup (t : FileDescriptorTable) (old_fd new_fd : Z)
    : exec (FileDescriptorTable * Z) :=
  let old_fd := as_u32 old_fd in
  let new_fd := as_u32 new_fd in
  match fdt_get t old_fd with
  | None => Ret (t, - EBADF)
  | Some src =>
      let '(t, _) := close_take t new_fd in
      t ← insert_at t new_fd (fd_inode src) (fd_flags src);
      Ret (t, new_fd)
  end.

(** The commands of [fcntl]; each name stands for its number. *)
Inductive FcntlCmd : Type := F_DUPFD | F_GETFD | F_SETFD | F_GETFL | F_SETFL | F_DUPFD_CLOEXEC.

Definition fcntl_cmd (c : FcntlCmd) : Z :=
  match c with
  | F_DUPFD => 0 | F_GETFD => 1 | F_SETFD => 2 | F_GETFL => 3 | F_SETFL => 4 | F_DUPFD_CLOEXEC => 0x406
  end.

Coercion fcntl_cmd : FcntlCmd >-> Z.

Definition FD_CLOEXEC : Z := 1.

(** The new fd, or the error of a call on a number that is not open. *)
Definition dup_result (r : option Z) : Z := match r with Some n => n | None => - EBADF end.

Definition sys_handle_fcntl (t : FileDescriptorTable) (fd cmd arg : Z)
    : exec (FileDescriptorTable * Z) :=
  let fd := as_u32 fd in
  if cmd =? F_DUPFD then
    '(t, r) ← dup_lowest_from t fd (as_u32 arg) OF_empty;
    Ret (t, dup_result r)
  else if cmd =? F_DUPFD_CLOEXEC then
    '(t, r) ← dup_lowest_from t fd (as_u32 arg) OF_CLOEXEC;
    Ret (t, dup_result r)
  else if cmd =? F_GETFD then
    match fdt_get t fd with
    | Some f => Ret (t, if bf_contains (fd_flags f) OF_CLOEXEC then FD_CLOEXEC else 0)
    | None => Ret (t, - EBADF)
    end
  else if cmd =? F_SETFD then
    match fdt_get t fd with
    | Some f =>
        let flags := if negb (Z.land arg FD_CLOEXEC =? 0) then bf_union (fd_flags f) OF_CLOEXEC
                     else bf_difference (fd_flags f) OF_CLOEXEC in
        Ret (fdt_set t fd (mkFileDescriptor (fd_inode f) (fd_offset f) flags), 0)
    | None => Ret (t, - EBADF)
    end
  else if cmd =? F_GETFL then
    match fdt_get t fd with
    | Some f => Ret (t, bf_bits (fd_flags f))
    | None => Ret (t, - EBADF)
    end
  else if cmd =? F_SETFL then
    let modifiable := bf_union OF_APPEND OF_NONBLOCK in
    let new_bits := bf_intersection (bf_from_bits_truncate (as_u32 arg)) modifiable in
    match fdt_get t fd with
    | Some f =>
        let flags := bf_union (bf_difference (fd_flags f) modifiable) new_bits in
        Ret (fdt_set t fd (mkFileDescriptor (fd_inode f) (fd_offset f) flags), 0)
    | None => Ret (t, - EBADF)
    end
  else Ret (t, - EINVAL).
End Table.

Arguments FileDescriptor I F : clear implicits.
Arguments FileDescriptorTable I F : clear implicits.

(** ** The specification *)

Section Spec.
Context {I : Type} `{BF : BitFlags OPEN_FLAGS_ALL F}.

(** What a process can do with its table. *)
Inductive fd_op : Type :=
  | Open (inode : I) (flags : F)
  | InsertAt (fd : Z) (inode : I) (flags : F)
  | Close (fd : Z)
  | Dup (old_fd new_fd : Z)
  | Fcntl (fd cmd arg : Z)
  | Exec.

(** The number is the lowest one from [min] on that is not open. *)
Definition lowest_free (m : gmap Z (FileDescriptor I F)) (min n : Z) : Prop :=
  min <= n /\ m !! n = None /\ forall k, min <= k < n -> is_Some (m !! k).

(** The flags change in the bits of [mask] only, where they are those of [bits]. *)
Definition flags_set (mask bits : Z) (f f' : F) : Prop :=
  forall i, 0 <= i ->
    Z.testbit (bf_bits f') i = if Z.testbit mask i then Z.testbit bits i else Z.testbit (bf_bits f) i.

(** [fd_spec m op m' r]: the operation on the open descriptors [m] leaves [m']
    and returns [r]. *)
Inductive fd_spec (m : gmap Z (FileDescriptor I F)) : fd_op -> gmap Z (FileDescriptor I F) -> Z -> Prop :=
  | spec_open inode flags n :
      m !! n = None ->
      fd_spec m (Open inode flags) (<[n := mkFileDescriptor inode 0 flags]> m) n
  | spec_insert fd inode flags :
      fd_spec m (InsertAt fd inode flags) (<[fd := mkFileDescriptor inode 0 flags]> m) 0
  | spec_close fd : is_Some (m !! fd) -> fd_spec m (Close fd) (delete fd m) 0
  | spec_dup fd fd' d :
      m !! fd = Some d ->
      fd_spec m (Dup fd fd') (<[fd' := mkFileDescriptor (fd_inode d) 0 (fd_flags d)]> m) fd'
  | spec_dupfd fd (cmd : Z) arg d n flags :
      cmd = F_DUPFD \/ cmd = F_DUPFD_CLOEXEC -> m !! fd = Some d -> lowest_free m arg n ->
      flags_set (if decide (cmd = F_DUPFD_CLOEXEC) then 0x20 else 0) 0x20 (fd_flags d) flags ->
      fd_spec m (Fcntl fd cmd arg) (<[n := mkFileDescriptor (fd_inode d) (fd_offset d) flags]> m) n
  | spec_getfd fd arg d :
      m !! fd = Some d ->
      fd_spec m (Fcntl fd F_GETFD arg) m (if Z.testbit (bf_bits (fd_flags d)) 5 then 1 else 0)
  | spec_setfd fd arg d flags :
      m !! fd = Some d -> flags_set 0x20 (Z.shiftl arg 5) (fd_flags d) flags ->
      fd_spec m (Fcntl fd F_SETFD arg) (<[fd := mkFileDescriptor (fd_inode d) (fd_offset d) flags]> m) 0
  | spec_getfl fd arg d :
      m !! fd = Some d -> fd_spec m (Fcntl fd F_GETFL arg) m (bf_bits (fd_flags d))
  | spec_setfl fd arg d flags :
      m !! fd = Some d -> flags_set 0x50 arg (fd_flags d) flags ->
      fd_spec m (Fcntl fd F_SETFL arg) (<[fd := mkFileDescriptor (fd_inode d) (fd_offset d) flags]> m) 0
  | spec_bad_fd op fd :
      m !! fd = None ->
      op = Close fd \/ (exists fd', op = Dup fd fd') \/
        (exists (cmd arg : Z), op = Fcntl fd cmd arg /\
           exists c : FcntlCmd, cmd = c) ->
      fd_spec m op m (- EBADF)
  | spec_bad_cmd fd (cmd : Z) arg :
      (forall c : FcntlCmd, cmd <> c) ->
      fd_spec m (Fcntl fd cmd arg) m (- EINVAL)
  | spec_exec :
      fd_spec m Exec (filter (fun p => Z.testbit (bf_bits (fd_flags p.2)) 5 = false) m) 0.

(** The operations of the code. *)
Definition fd_step (t : FileDescriptorTable I F) (op : fd_op) : exec (FileDescriptorTable I F * Z) :=
  match op with
  | Open inode flags => fdt_open t inode flags
  | InsertAt fd inode flags => t ← insert_at t fd inode flags; Ret (t, 0)
  | Close fd => Ret (sys_handle_close t fd)
  | Dup old_fd new_fd => sys_handle_dup t old_fd new_fd
  | Fcntl fd cmd arg => sys_handle_fcntl t fd cmd arg
  | Exec => Ret (close_cloexec t, 0)
  end.

Fixpoint fd_run (t : FileDescriptorTable I F) (ops : list fd_op) : exec (FileDescriptorTable I F * list Z) :=
  match ops with
  | [] => Ret (t, [])
  | op :: ops =>
      '(t, r) ← fd_step t op;
      '(t, rs) ← fd_run t ops;
      Ret (t, r :: rs)
  end.

Inductive fd_trace :
    gmap Z (FileDescriptor I F) -> list fd_op -> list Z -> gmap Z (FileDescriptor I F) -> Prop :=
  | trace_nil m : fd_trace m [] [] m
  | trace_cons m op m' r ops rs m'' :
      fd_spec m op m' r -> fd_trace m' ops rs m'' -> fd_trace m (op :: ops) (r :: rs) m''.

(** The numbers an operation names are far from the end of [u32]. *)
Definition small (n : Z) : Prop := 0 <= n < 2 ^ 31.

Definition op_small (op : fd_op) : Prop :=
  match op with
  | Open _ _ | Exec => True
  | InsertAt fd _ _ | Close fd => small fd
  | Dup a b => small a /\ small b
  | Fcntl fd _ arg => small fd /\ small arg
  end.

(** ** The table implements the specification *)

(** Every open number is below the next one to hand out. *)
Definition fdt_inv (t : FileDescriptorTable I F) : Prop :=
  0 <= next_fd t /\ forall fd, is_Some (fds t !! fd) -> 0 <= fd < next_fd t.

Lemma small_u32 n : small n -> as_u32 n = n.
Proof. intros Hn. unfold small, as_u32 in *. apply Z.mod_small. lia. Qed.

Lemma fdt_inv_insert m n fd d k :
  fdt_inv (mkFdTable m n) -> 0 <= fd < k -> n <= k -> fdt_inv (mkFdTable (<[fd := d]> m) k).
Proof.
  intros [H0 H1] Hfd Hk. split; simpl in *; [lia|]. intros fd' H'.
  destruct (decide (fd' = fd)) as [->|Hne]; [lia|]. rewrite lookup_insert_ne in H' by done.
  specialize (H1 fd' H'). lia.
Qed.

Lemma fdt_inv_subseteq m m' n : fdt_inv (mkFdTable m n) -> m' ⊆ m -> fdt_inv (mkFdTable m' n).
Proof.
  intros [H0 H1] Hsub. split; [done|]. intros fd [d Hd]. apply H1. exists d. simpl in *.
  by eapply lookup_weaken.
Qed.

(** A run of open numbers is no longer than the table. *)
Lemma run_size (m : gmap Z (FileDescriptor I F)) start n :
  0 <= n -> (forall k, start <= k < start + n -> is_Some (m !! k)) -> n <= Z.of_nat (size m).
Proof.
  intros Hn Hk. rewrite <- size_dom.
  assert (list_to_set (seqZ start n) ⊆ dom m) as Hsub.
  { intros k Hin%elem_of_list_to_set%elem_of_seqZ. by apply elem_of_dom, Hk. }
  apply subseteq_size in Hsub. rewrite size_list_to_set, length_seqZ in Hsub by apply NoDup_seqZ. lia.
Qed.

Lemma wp_lowest_from m nx start fuel candidate :
  fdt_inv (mkFdTable m nx) -> nx < 2 ^ 32 -> start <= candidate ->
  (forall k, start <= k < candidate -> is_Some (m !! k)) ->
  Z.of_nat (size m) - (candidate - start) < Z.of_nat fuel ->
  wp (lowest_from m fuel candidate) (lowest_free m start).
Proof.
  intros Hinv Hnx. revert candidate. induction fuel as [|fuel IH]; intros c Hc Hrun Hfuel.
  { pose proof (run_size m start (c - start) ltac:(lia) ltac:(intros; apply Hrun; lia)). lia. }
  cbn [lowest_from]. destruct (decide (is_Some (m !! c))) as [Hs|Hs].
  - pose proof (proj2 Hinv c Hs) as Hb. simpl in Hb. wp_step. apply wp_add32; [lia|]. apply IH; [lia| |lia].
    intros k Hk. destruct (decide (k = c)) as [->|]; [done|]. apply Hrun. lia.
  - apply wp_ret. split_and!; [done|by apply eq_None_not_Some|done].
Qed.

Lemma lowest_free_bound m nx min n :
  fdt_inv (mkFdTable m nx) -> lowest_free m min n -> n <= Z.max min nx.
Proof.
  intros [H0 H1] (Hmin & Hn & Hrun). simpl in *. destruct (decide (n <= Z.max min nx)); [done|].
  specialize (H1 (n - 1) (Hrun (n - 1) ltac:(lia))). lia.
Qed.

(** *** Flags *)

Lemma land_bit w b : 0 <= b -> Z.land w (Z.shiftl 1 b) = if Z.testbit w b then Z.shiftl 1 b else 0.
Proof.
  intros Hb. apply Z.bits_inj'. intros i Hi. rewrite Z.land_spec, bit_mask_testbit by lia.
  destruct (Z.eqb_spec i b) as [->|Hne].
  - destruct (Z.testbit w b); [by rewrite bit_mask_testbit, Z.eqb_refl by lia|by rewrite Z.bits_0].
  - rewrite andb_false_r. destruct (Z.testbit w b); [|by rewrite Z.bits_0].
    rewrite bit_mask_testbit by lia. by destruct (Z.eqb_spec i b).
Qed.

Lemma contains_cloexec (f : F) : bf_contains f OF_CLOEXEC = Z.testbit (bf_bits f) 5.
Proof.
  unfold OF_CLOEXEC. rewrite bf_contains_spec, bf_retain_bits by ulia.
  change 0x0020 with (Z.shiftl 1 5). rewrite land_bit by lia. by destruct (Z.testbit _ _).
Qed.

Lemma flags_set_none bits (f : F) : flags_set 0 bits f (bf_union f OF_empty).
Proof.
  intros i Hi. unfold OF_empty. by rewrite bf_union_bits, bf_retain_bits, Z.lor_0_r, Z.bits_0 by ulia.
Qed.

Lemma flags_set_cloexec (f : F) : flags_set 0x20 0x20 f (bf_union f OF_CLOEXEC).
Proof.
  intros i Hi. unfold OF_CLOEXEC. rewrite bf_union_bits, bf_retain_bits, Z.lor_spec by ulia.
  change 0x0020 with (Z.shiftl 1 5). destruct (Z.testbit (Z.shiftl 1 5) i); [apply orb_true_r|apply orb_false_r].
Qed.

(** Removing the bits of a mask. *)
Lemma difference_bits (f g : F) i :
  0 <= i -> Z.testbit (bf_bits (bf_difference f g)) i = Z.testbit (bf_bits f) i && negb (Z.testbit (bf_bits g) i).
Proof.
  intros Hi. rewrite bf_difference_bits, Z.land_spec. destruct (decide (i < 64)).
  - by rewrite not64_testbit by lia.
  - by rewrite (testbit_high (bf_bits f) 64 i) by (pose proof (bf_bits_u64 f); ulia).
Qed.

Lemma flags_set_setfd (f : F) arg :
  flags_set 0x20 (Z.shiftl arg 5) f
    (if negb (Z.land arg FD_CLOEXEC =? 0) then bf_union f OF_CLOEXEC else bf_difference f OF_CLOEXEC).
Proof.
  intros i Hi. change FD_CLOEXEC with (Z.shiftl 1 0). rewrite land_bit_eqb, negb_involutive by lia.
  change 0x20 with (Z.shiftl 1 5). rewrite bit_mask_testbit, Z.shiftl_spec by lia.
  assert (Z.testbit (bf_bits (OF_CLOEXEC (F := F))) i = (i =? 5)) as Hc.
  { unfold OF_CLOEXEC. rewrite bf_retain_bits by ulia. change 0x0020 with (Z.shiftl 1 5). by apply bit_mask_testbit. }
  destruct (Z.testbit arg 0) eqn:E; [rewrite bf_union_bits, Z.lor_spec, Hc|rewrite difference_bits, Hc by lia];
    destruct (Z.eqb_spec i 5) as [->|]; simpl; rewrite ?E, ?orb_true_r, ?orb_false_r, ?andb_true_r, ?andb_false_r; done.
Qed.

Lemma flags_set_setfl (f : F) arg :
  small arg ->
  let modifiable := bf_union OF_APPEND OF_NONBLOCK in
  flags_set 0x50 arg f
    (bf_union (bf_difference f modifiable) (bf_intersection (bf_from_bits_truncate (as_u32 arg)) modifiable)).
Proof.
  intros Ha modifiable i Hi. rewrite small_u32 by done.
  assert (bf_bits modifiable = 0x50) as Hm.
  { unfold modifiable, OF_APPEND, OF_NONBLOCK. by rewrite bf_union_bits, !bf_retain_bits by ulia. }
  rewrite bf_union_bits, Z.lor_spec, difference_bits, bf_intersection_bits, Z.land_spec, Hm by lia.
  rewrite bf_truncate_bits, Z.land_spec by (unfold small in Ha; ulia).
  destruct (Z.testbit 0x50 i) eqn:E; simpl; [|by rewrite andb_true_r, andb_false_r, orb_false_r].
  rewrite andb_false_r, andb_true_r. simpl.
  assert (Z.testbit OPEN_FLAGS_ALL i = true) as ->; [|by rewrite andb_true_r].
  replace 0x50 with (Z.land OPEN_FLAGS_ALL 0x50) in E by done. rewrite Z.land_spec in E.
  by apply andb_true_iff in E as [-> _].
Qed.

(** *** Each operation *)

Lemma wp_insert_at m nx fd inode flags :
  fdt_inv (mkFdTable m nx) -> nx < 2 ^ 32 - 1 -> 0 <= fd < 2 ^ 32 - 1 ->
  wp (insert_at (mkFdTable m nx) fd inode flags) (fun t =>
    fdt_inv t /\ fds t = <[fd := mkFileDescriptor inode 0 flags]> m /\ next_fd t <= Z.max nx (fd + 1)).
Proof.
  intros Hinv Hnx Hfd. unfold insert_at. cbn [fds next_fd]. destruct (Z.leb_spec nx fd).
  - wp_step. apply wp_add32; [lia|]. apply wp_ret. split_and!; [|done|simpl; lia].
    apply (fdt_inv_insert m nx); [done|lia|lia].
  - apply wp_ret. split_and!; [|done|simpl; lia]. apply (fdt_inv_insert m nx); [done|lia|lia].
Qed.

Lemma wp_dup_lowest_from m nx src min extra :
  fdt_inv (mkFdTable m nx) -> nx < 2 ^ 32 - 1 -> 0 <= min < 2 ^ 32 - 1 ->
  wp (dup_lowest_from (mkFdTable m nx) src min extra) (fun '(t, r) =>
    fdt_inv t /\ next_fd t <= Z.max nx min + 1 /\
    match m !! src with
    | None => r = None /\ fds t = m
    | Some d => exists n, r = Some n /\ lowest_free m min n /\
        fds t = <[n := mkFileDescriptor (fd_inode d) (fd_offset d) (bf_union (fd_flags d) extra)]> m
    end).
Proof.
  intros Hinv Hnx Hmin. unfold dup_lowest_from. cbn [fds next_fd].
  destruct (m !! src) as [d|]; [|apply wp_ret; split_and!; [done|simpl; lia|done|done]].
  wp_step. eapply wp_mono; [apply (wp_lowest_from m nx min); (done || lia)|].
  intros n Hn. pose proof (lowest_free_bound m nx min n Hinv Hn) as Hb. pose proof Hn as (? & _).
  destruct (Z.leb_spec nx n).
  - wp_step. apply wp_add32; [lia|]. apply wp_ret. split_and!; [|simpl; lia|eauto].
    apply (fdt_inv_insert m nx); [done|lia|lia].
  - apply wp_ret. split_and!; [|simpl; lia|eauto]. apply (fdt_inv_insert m nx); [done|lia|lia].
Qed.

Lemma fdt_inv_set m nx fd d d' :
  fdt_inv (mkFdTable m nx) -> m !! fd = Some d -> fdt_inv (mkFdTable (<[fd := d']> m) nx).
Proof.
  intros Hinv Hd. pose proof (proj2 Hinv fd ltac:(by exists d)) as Hb.
  apply (fdt_inv_insert m nx); [done|done|lia].
Qed.

Lemma wp_fcntl m nx fd cmd arg :
  fdt_inv (mkFdTable m nx) -> nx < 2 ^ 32 - 1 -> small fd -> small arg ->
  wp (sys_handle_fcntl (mkFdTable m nx) fd cmd arg) (fun '(t, r) =>
    fdt_inv t /\ fd_spec m (Fcntl fd cmd arg) (fds t) r /\ next_fd t <= Z.max nx (2 ^ 31) + 1).
Proof.
  intros Hinv Hnx Hfd Harg. unfold sys_handle_fcntl. rewrite !(small_u32 fd), !(small_u32 arg) by done.
  assert (forall c : FcntlCmd, m !! fd = None -> fd_spec m (Fcntl fd c arg) m (- EBADF)) as Hbad.
  { intros c Hn. apply (spec_bad_fd m _ fd); [done|]. eauto 7. }
  unfold small in *. unfold fdt_get. cbn [fds].
  destruct (Z.eqb_spec cmd F_DUPFD) as [->|H1].
  { wp_step. eapply wp_mono; [apply wp_dup_lowest_from; (done || lia)|]. intros [t r] (Hi & Hb & Hr).
    apply wp_ret. split_and!; [done| |lia]. destruct (m !! fd) as [d|] eqn:Ed.
    - destruct Hr as (n & -> & Hn & ->). apply (spec_dupfd m fd F_DUPFD arg d n); [by left|done|done|apply flags_set_none].
    - destruct Hr as [-> ->]. by apply Hbad. }
  destruct (Z.eqb_spec cmd F_DUPFD_CLOEXEC) as [->|H2].
  { wp_step. eapply wp_mono; [apply wp_dup_lowest_from; (done || lia)|]. intros [t r] (Hi & Hb & Hr).
    apply wp_ret. split_and!; [done| |lia]. destruct (m !! fd) as [d|] eqn:Ed.
    - destruct Hr as (n & -> & Hn & ->). apply (spec_dupfd m fd F_DUPFD_CLOEXEC arg d n); [by right|done|done|apply flags_set_cloexec].
    - destruct Hr as [-> ->]. by apply Hbad. }
  destruct (Z.eqb_spec cmd F_GETFD) as [->|H3].
  { destruct (m !! fd) as [d|] eqn:Ed; apply wp_ret; split_and!; try done; try (simpl; lia);
      [rewrite contains_cloexec; by apply spec_getfd|by apply Hbad]. }
  destruct (Z.eqb_spec cmd F_SETFD) as [->|H4].
  { destruct (m !! fd) as [d|] eqn:Ed; apply wp_ret; split_and!; try done; try (simpl; lia);
      [by eapply fdt_inv_set|by apply spec_setfd, flags_set_setfd|by apply Hbad]. }
  destruct (Z.eqb_spec cmd F_GETFL) as [->|H5].
  { destruct (m !! fd) as [d|] eqn:Ed; apply wp_ret; split_and!; try done; try (simpl; lia);
      [by apply spec_getfl|by apply Hbad]. }
  destruct (Z.eqb_spec cmd F_SETFL) as [->|H6].
  { pose proof (fun f => flags_set_setfl f arg Harg) as Hset. rewrite (small_u32 arg) in Hset by done.
    destruct (m !! fd) as [d|] eqn:Ed; apply wp_ret; split_and!; try done; try (simpl; lia);
      [by eapply fdt_inv_set|by apply spec_setfl, Hset|by apply Hbad]. }
  apply wp_ret. split_and!; [done| |simpl; lia]. apply spec_bad_cmd. by intros [].
Qed.

Lemma wp_fd_step t op :
  fdt_inv t -> next_fd t < 2 ^ 32 - 1 -> op_small op ->
  wp (fd_step t op) (fun '(t', r) =>
    fdt_inv t' /\ fd_spec (fds t) op (fds t') r /\ next_fd t' <= Z.max (next_fd t) (2 ^ 31) + 1).
Proof.
  intros Hinv Hnx Hop. destruct t as [m nx]. cbn [fds next_fd] in *.
  destruct op as [inode flags|fd inode flags|fd|old new|fd cmd arg|]; cbn [fd_step op_small] in *.
  - unfold fdt_open. wp_step. cbn [fds next_fd]. apply wp_add32; [lia|]. apply wp_ret. cbn [fds next_fd].
    pose proof Hinv as [H0 H1]. split_and!; [apply (fdt_inv_insert m nx); [done|simpl in *; lia|lia]| |lia].
    apply spec_open. apply eq_None_not_Some. intros Hs%H1. simpl in Hs. lia.
  - unfold small in Hop. wp_step. eapply wp_mono; [apply wp_insert_at; (done || lia)|].
    intros t (H1 & H2 & H3). apply wp_ret. rewrite H2. split_and!; [done|constructor|lia].
  - apply wp_ret. unfold sys_handle_close, close_take. rewrite small_u32 by done. cbn [fds next_fd].
    assert (fdt_inv (mkFdTable (delete fd m) nx)) by (apply (fdt_inv_subseteq m); [done|apply delete_subseteq]).
    destruct (m !! fd) as [d|] eqn:Ed; split_and!; try done; try (simpl; lia); [by apply spec_close|].
    rewrite delete_id by done. apply (spec_bad_fd m _ fd); [done|by left].
  - unfold sys_handle_dup, close_take, fdt_get. destruct Hop as [Ha Hb]. rewrite !small_u32 by done. cbn [fds next_fd].
    destruct (m !! old) as [d|] eqn:Ed.
    + assert (fdt_inv (mkFdTable (delete new m) nx)) by (apply (fdt_inv_subseteq m); [done|apply delete_subseteq]).
      unfold small in Hb. wp_step. eapply wp_mono; [apply wp_insert_at; (done || lia)|].
      intros t (H1 & H2 & H3). apply wp_ret. rewrite H2, insert_delete_eq. split_and!; [done|by apply spec_dup|lia].
    + apply wp_ret. split_and!; [done| |simpl; lia]. apply (spec_bad_fd m _ old); [done|]. right; left. eauto.
  - destruct Hop. by apply wp_fcntl.
  - apply wp_ret. unfold close_cloexec. cbn [fds next_fd].
    split_and!; [apply (fdt_inv_subseteq m); [done|apply map_filter_subseteq]| |lia].
    replace (filter (fun p => bf_contains (fd_flags p.2) OF_CLOEXEC = false) m)
      with (filter (fun p => Z.testbit (bf_bits (fd_flags p.2)) 5 = false) m); [apply spec_exec|].
    apply map_filter_ext. intros fd d _. simpl. by rewrite contains_cloexec.
Qed.

Lemma wp_fd_run t ops b :
  fdt_inv t -> Forall op_small ops -> next_fd t <= b -> 2 ^ 31 <= b ->
  b + Z.of_nat (length ops) < 2 ^ 32 - 1 ->
  wp (fd_run t ops) (fun '(t', rs) => fdt_inv t' /\ fd_trace (fds t) ops rs (fds t')).
Proof.
  intros Hinv Hops. revert t b Hinv.
  induction Hops as [|op ops Hop _ IH]; intros t b Hinv Hb1 Hb2 Hb3; cbn [fd_run length] in *.
  { apply wp_ret. split; [done|constructor]. }
  wp_step. eapply wp_mono; [apply wp_fd_step; (done || lia)|]. intros [t1 r] (H1 & H2 & H3).
  wp_step. eapply wp_mono; [apply (IH t1 (b + 1)); (done || lia)|]. intros [t2 rs] [H4 H5].
  apply wp_ret. split; [done|]. by econstructor.
Qed.

Lemma fdt_inv_new : fdt_inv FileDescriptorTable_new.
Proof. split; [done|]. intros fd [d Hd]. simpl in Hd. by rewrite lookup_empty in Hd. Qed.
End Spec.

(** ** Properties *)


(** Standard input, output and error, a file, a pipe end on its number 3, close
    on exec set for it. *)
Definition fd_example : list (fd_op (I := Z) (F := word64)) :=
  [InsertAt 0 100 OF_READ; InsertAt 1 100 OF_WRITE; InsertAt 2 100 OF_WRITE; Open 7 OF_READ; Dup 3 1;
   Fcntl 1 F_DUPFD_CLOEXEC 0; Close 0; Fcntl 1 F_DUPFD 0; Fcntl 4 F_GETFD 0; Exec; Close 4].


(** C39: The largest number panics: a process that duplicates an open descriptor to
    the number 2^32 - 1 overflows the computation of the next number. *)
Theorem dup_max_fd_panics {I : Type} `{BF : BitFlags OPEN_FLAGS_ALL F} (t : FileDescriptorTable I F) (old_fd : Z) :
  is_Some (fdt_get t (as_u32 old_fd)) -> next_fd t < 2 ^ 32 ->
  sys_handle_dup t old_fd (2 ^ 32 - 1) = Panic.
Proof.
  intros [d Hd] Hnx. unfold sys_handle_dup. rewrite Hd. unfold close_take, insert_at. cbn [fds next_fd].
  change (as_u32 (2 ^ 32 - 1)) with (2 ^ 32 - 1). rewrite (proj2 (Z.leb_le _ _)) by lia. done.
Qed.

Lemma dup_max_fd_panics_witness :
  sys_handle_dup (mkFdTable {[ 0 := mkFileDescriptor 100 0 (OF_READ (F := word64)) ]} 1) 0 (2 ^ 32 - 1) = Panic.
Proof. apply dup_max_fd_panics; [by eexists|simpl; lia]. Defined.
