(* ===== verification/Mmap.v ===== *)
(** * Memory system calls

    [kernel/kernel/src/syscall/memory.rs] and the shared memory objects of
    [kernel/kernel/src/ipc/shm.rs]: anonymous, device and shared mappings, their
    removal, the program break and protection.  A process has an address space,
    an allocator of address ranges, a table of its mappings, a program break and
    a descriptor table; the frame allocator and memory are passed along.  The
    calls run with the locks of the process held one after the other, so they
    are functions of the state. *)

From S2P Require Import Prelude Mem Addr Paging Layout Std FsTypes Extern Region Pmm PageTable PageWalk PageTableSpec PageMap Mapper Vmm AddressSpace FdTable.

Definition PROT_WRITE : Z := 2.
Definition PROT_EXEC : Z := 4.
Definition MAP_ANONYMOUS : Z := 1.
Definition MAP_SHARED : Z := 2.
Definition USER_MMAP_BASE : Z := 0x400000000000.
Definition USER_MMAP_MAX_SIZE : Z := 256 * 1024 * 1024 * 1024 * 1024.
Definition MMAP_FREE_LIST_CAPACITY : Z := 64.

(** [page_align_up] of memory.rs: the sum is computed before one is taken off. *)
Definition mem_page_align_up (size : Z) : exec Z :=
  s ← add64 size PAGE_SIZE;
  s ← sub64 s 1;
  Ret (Z.land s (not64 (PAGE_SIZE - 1))).

Inductive MappingKind : Type :=
| Anonymous (page_count : Z)
| Device (page_count : Z)
| Shared (page_count : Z).

(** A shared memory object: the addresses of its frames, and its size. *)
Record ShmObject : Type := mkShmObject {
  shm_frames : list Z;
  shm_size : Z;
}.

Definition ShmObject_shared_phys_frames (self : ShmObject) : result (list Z) FsError := Ok (shm_frames self).

(** What the memory calls ask of an inode, [dyn Inode]; a shared memory object
    is one. *)
Class MappableInode (I : Type) : Type := {
  mmap_phys : I -> result (Z * Z) FsError;
  mmap_cache_disable : I -> bool;
  shared_phys_frames : I -> result (list Z) FsError;
  shm_inode : ShmObject -> I;
  shm_inode_frames : forall o, shared_phys_frames (shm_inode o) = ShmObject_shared_phys_frames o;
}.

Section Calls.
Context {G : Type} `{BG : BitFlags MF_ALL G} {A : Type} `{FA : FrameAllocator A} `{FD : !FrameDeallocator A}.
Context {off : Z} `{PM : !PageMapper G A off}.
Context {V : Type} `{AV : ArrayVec FreeRange V MMAP_FREE_LIST_CAPACITY}.
Context {W I F : Type} `{MI : MappableInode I} `{BF : BitFlags OPEN_FLAGS_ALL F}.

(** The memory of a process. *)
Record Process : Type := mkProcess {
  pr_space : AddressSpace W;
  pr_mmap : FreeRegionAllocator V;
  pr_mappings : gmap Z MappingKind;
  pr_break : Z;
  pr_fds : FileDescriptorTable I F;
}.

Definition with_mmap (p : Process) (s : FreeRegionAllocator V) : Process :=
  mkProcess (pr_space p) s (pr_mappings p) (pr_break p) (pr_fds p).
Definition with_mappings (p : Process) (t : gmap Z MappingKind) : Process :=
  mkProcess (pr_space p) (pr_mmap p) t (pr_break p) (pr_fds p).
Definition with_break (p : Process) (b : Z) : Process :=
  mkProcess (pr_space p) (pr_mmap p) (pr_mappings p) b (pr_fds p).

Definition with_fds (p : Process) (t : FileDescriptorTable I F) : Process :=
  mkProcess (pr_space p) (pr_mmap p) (pr_mappings p) (pr_break p) t.

Definition Process_new (address_space : AddressSpace W) : Process :=
  mkProcess address_space (FreeRegionAllocator_new (mkVirtRegion USER_MMAP_BASE USER_MMAP_MAX_SIZE)) ∅ 0
    FileDescriptorTable_new.

(** The page table flags of a protection; [PROT_READ] is implied. *)
Definition prot_flags (flags : G) (prot : Z) : G :=
  let flags := if negb (Z.land prot PROT_WRITE =? 0) then bf_union flags MF_WRITABLE else flags in
  if negb (Z.land prot PROT_EXEC =? 0) then bf_union flags MF_EXECUTABLE else flags.

(** The page [i] of a range. *)
Definition page_at (base i : Z) : exec Z :=
  d ← mul64 i PAGE_SIZE;
  page_vaddr ← add64 base d;
  virt ← VirtAddr_new page_vaddr;
  Page_containing_address Size4KiB virt.

(** The loops that map zeroed frames of the allocator, from page [i] on, [n]
    pages left; the error is the number of the page that failed. *)
Fixpoint map_zeroed (space : AddressSpace W) (base : Z) (flags : G) (a : A) (m : mem) (i : Z) (n : nat)
    : exec (A * mem * result unit Z) :=
  match n with
  | O => Ret (a, m, Ok tt)
  | S n =>
      d ← mul64 i PAGE_SIZE;
      page_vaddr ← add64 base d;
      '(a, o) ← fa_allocate a m;
      match o with
      | None => Ret (a, m, Err i)
      | Some frame =>
          virt ← VirtAddr_new page_vaddr;
          page ← Page_containing_address Size4KiB virt;
          '(a, m, r) ← map_user_page (PM := PM) space page frame flags a m;
          match r with
          | Err _ => Ret (a, m, Err i)
          | Ok _ =>
              let frame_ptr := VirtAddr_add off frame in
              map_zeroed space base flags a (write_bytes m frame_ptr 0 PAGE_SIZE) (i + 1) n
          end
      end
  end.

(** The loops that unmap pages and free their frames. *)
Fixpoint unmap_free (space : AddressSpace W) (base : Z) (a : A) (m : mem) (i : Z) (n : nat) : exec (A * mem) :=
  match n with
  | O => Ret (a, m)
  | S n =>
      page ← page_at base i;
      '(m, r) ← unmap_user_page (PM := PM) space page m;
      match r with
      | Ok frame => '(a, m) ← fd_deallocate a m frame; unmap_free space base a m (i + 1) n
      | Err _ => unmap_free space base a m (i + 1) n
      end
  end.

(** The loops that unmap pages and keep their frames. *)
Fixpoint unmap_only (space : AddressSpace W) (base : Z) (m : mem) (i : Z) (n : nat) : exec mem :=
  match n with
  | O => Ret m
  | S n =>
      page ← page_at base i;
      '(m, _) ← unmap_user_page (PM := PM) space page m;
      unmap_only space base m (i + 1) n
  end.

(** The loops that map frames that exist already: [frame_of i] for page [i]. *)
Fixpoint map_frames (space : AddressSpace W) (base : Z) (frame_of : Z -> exec Z) (flags : G)
    (a : A) (m : mem) (i : Z) (n : nat) : exec (A * mem * result unit Z) :=
  match n with
  | O => Ret (a, m, Ok tt)
  | S n =>
      page ← page_at base i;
      frame ← frame_of i;
      '(a, m, r) ← map_user_page (PM := PM) space page frame flags a m;
      match r with
      | Err _ => Ret (a, m, Err i)
      | Ok _ => map_frames space base frame_of flags a m (i + 1) n
      end
  end.

(** [let _ = mmap.deallocate(...)]. *)
Definition return_range (p : Process) (base size : Z) : exec Process :=
  '(s, _) ← FreeRegionAllocator_deallocate (pr_mmap p) base size;
  Ret (with_mmap p s).

Definition sys_mem_map_anonymous (p : Process) (a : A) (m : mem) (length prot : Z) : exec (Process * A * mem * Z) :=
  aligned_length ← mem_page_align_up length;
  let page_count := aligned_length / PAGE_SIZE in
  let map_flags := prot_flags MF_USER prot in
  '(s, vaddr) ← FreeRegionAllocator_allocate (pr_mmap p) aligned_length;
  let p := with_mmap p s in
  match vaddr with
  | None => Ret (p, a, m, - errno EINVAL)
  | Some base_vaddr =>
      '(a, m, r) ← map_zeroed (pr_space p) base_vaddr map_flags a m 0 (Z.to_nat page_count);
      match r with
      | Err mapped_count =>
          '(a, m) ← unmap_free (pr_space p) base_vaddr a m 0 (Z.to_nat mapped_count);
          p ← return_range p base_vaddr aligned_length;
          Ret (p, a, m, - errno ENOMEM)
      | Ok _ =>
          Ret (with_mappings p (<[base_vaddr := Anonymous page_count]> (pr_mappings p)), a, m, base_vaddr)
      end
  end.

(** [fd_table.get(fd).map(|f| f.inode.clone())]. *)
Definition inode_of (t : FileDescriptorTable I F) (fd : Z) : option I :=
  match fdt_get t (as_u32 fd) with Some d => Some (fd_inode d) | None => None end.

Definition sys_mem_map_device (p : Process) (a : A) (m : mem) (length prot fd : Z) : exec (Process * A * mem * Z) :=
  match inode_of (pr_fds p) fd with
  | None => Ret (p, a, m, - errno EBADF)
  | Some inode =>
      match mmap_phys inode with
      | Err e => Ret (p, a, m, - to_errno e)
      | Ok (phys_base, device_size) =>
          aligned_length ← mem_page_align_up length;
          let page_count := aligned_length / PAGE_SIZE in
          if device_size <? aligned_length then Ret (p, a, m, - errno EINVAL) else
          let map_flags := MF_USER in
          let map_flags := if mmap_cache_disable inode then bf_union map_flags MF_CACHE_DISABLE else map_flags in
          let map_flags := prot_flags map_flags prot in
          '(s, vaddr) ← FreeRegionAllocator_allocate (pr_mmap p) aligned_length;
          let p := with_mmap p s in
          match vaddr with
          | None => Ret (p, a, m, - errno EINVAL)
          | Some base_vaddr =>
              let frame_of i :=
                d ← mul64 i PAGE_SIZE;
                phys_addr ← PhysAddr_add phys_base d;
                PhysFrame_containing_address Size4KiB phys_addr in
              '(a, m, r) ← map_frames (pr_space p) base_vaddr frame_of map_flags a m 0 (Z.to_nat page_count);
              match r with
              | Err mapped_count =>
                  m ← unmap_only (pr_space p) base_vaddr m 0 (Z.to_nat mapped_count);
                  p ← return_range p base_vaddr aligned_length;
                  Ret (p, a, m, - errno ENOMEM)
              | Ok _ =>
                  Ret (with_mappings p (<[base_vaddr := Device page_count]> (pr_mappings p)), a, m, base_vaddr)
              end
          end
      end
  end.

Definition sys_mem_map (p : Process) (a : A) (m : mem) (addr_hint length prot flags fd : Z)
    : exec (Process * A * mem * Z) :=
  if length =? 0 then Ret (p, a, m, - errno EINVAL) else
  if negb (Z.land flags MAP_SHARED =? 0) then sys_mem_map_device p a m length prot fd else
  if negb (Z.land flags MAP_ANONYMOUS =? 0) then sys_mem_map_anonymous p a m length prot else
  Ret (p, a, m, - errno ENOSYS).

Definition sys_mem_unmap (p : Process) (a : A) (m : mem) (addr length : Z) : exec (Process * A * mem * Z) :=
  if (length =? 0) || (addr =? 0) then Ret (p, a, m, - errno EINVAL) else
  aligned_length ← mem_page_align_up length;
  base ← VirtAddr_new addr;
  let mapping_kind := pr_mappings p !! base in
  let p := with_mappings p (delete base (pr_mappings p)) in
  let page_count := aligned_length / PAGE_SIZE in
  '(a, m) ← match mapping_kind with
            | Some (Device _) | Some (Shared _) =>
                m ← unmap_only (pr_space p) base m 0 (Z.to_nat page_count); Ret (a, m)
            | _ => unmap_free (pr_space p) base a m 0 (Z.to_nat page_count)
            end;
  p ← return_range p base aligned_length;
  Ret (p, a, m, 0).

Definition sys_mem_brk (p : Process) (a : A) (m : mem) (addr : Z) : exec (Process * A * mem * Z) :=
  let current := pr_break p in
  if addr =? 0 then Ret (p, a, m, current) else
  new_brk ← mem_page_align_up addr;
  old_brk ← mem_page_align_up current;
  if old_brk <? new_brk then
    let pages_needed := (new_brk - old_brk) / PAGE_SIZE in
    '(a, m, result) ← map_zeroed (pr_space p) old_brk (bf_union MF_USER MF_WRITABLE) a m 0 (Z.to_nat pages_needed);
    match result with
    | Err _ => Ret (p, a, m, - errno ENOMEM)
    | Ok _ => Ret (with_break p addr, a, m, addr)
    end
  else if new_brk <? old_brk then
    let pages_to_free := (old_brk - new_brk) / PAGE_SIZE in
    '(a, m) ← unmap_free (pr_space p) new_brk a m 0 (Z.to_nat pages_to_free);
    Ret (with_break p addr, a, m, addr)
  else Ret (with_break p addr, a, m, addr).

(** ** Shared memory *)

Fixpoint free_frames (frames : list Z) (a : A) (m : mem) : exec (A * mem) :=
  match frames with
  | [] => Ret (a, m)
  | f :: frames => '(a, m) ← fd_deallocate a m f; free_frames frames a m
  end.

(** The loop of [new]; [allocated] holds the frames so far. *)
Fixpoint shm_allocate (n : nat) (allocated : list Z) (a : A) (m : mem) : exec (A * mem * option (list Z)) :=
  match n with
  | O => Ret (a, m, Some allocated)
  | S n =>
      '(a, o) ← fa_allocate a m;
      match o with
      | None => '(a, m) ← free_frames allocated a m; Ret (a, m, None)
      | Some frame =>
          let ptr := VirtAddr_add off frame in
          shm_allocate n (allocated ++ [frame]) a (write_bytes m ptr 0 PAGE_SIZE)
      end
  end.

Definition ShmObject_new (size : Z) (a : A) (m : mem) : exec (A * mem * option ShmObject) :=
  if size =? 0 then Ret (a, m, None) else
  aligned ← mem_page_align_up size;
  let page_count := aligned / PAGE_SIZE in
  '(a, m, frames) ← shm_allocate (Z.to_nat page_count) [] a m;
  match frames with
  | None => Ret (a, m, None)
  | Some frames => Ret (a, m, Some (mkShmObject frames size))
  end.

Definition ShmObject_drop (self : ShmObject) (a : A) (m : mem) : exec (A * mem) := free_frames (shm_frames self) a m.

Definition sys_mem_create_shared (p : Process) (a : A) (m : mem) (size : Z) : exec (Process * A * mem * Z) :=
  if size =? 0 then Ret (p, a, m, - errno EINVAL) else
  '(a, m, shm) ← ShmObject_new size a m;
  match shm with
  | None => Ret (p, a, m, - errno ENOMEM)
  | Some shm =>
      '(t, fd) ← fdt_open (pr_fds p) (shm_inode shm) (bf_union OF_READ OF_WRITE);
      Ret (with_fds p t, a, m, fd)
  end.

Definition sys_mem_map_shared (p : Process) (a : A) (m : mem) (fd size prot : Z) : exec (Process * A * mem * Z) :=
  if size =? 0 then Ret (p, a, m, - errno EINVAL) else
  match inode_of (pr_fds p) fd with
  | None => Ret (p, a, m, - errno EBADF)
  | Some inode =>
      match shared_phys_frames inode with
      | Err e => Ret (p, a, m, - to_errno e)
      | Ok phys_addrs =>
          aligned_size ← mem_page_align_up size;
          let page_count := aligned_size / PAGE_SIZE in
          if Z.of_nat (List.length phys_addrs) <? page_count then Ret (p, a, m, - errno EINVAL) else
          let map_flags := prot_flags MF_USER prot in
          '(s, vaddr) ← FreeRegionAllocator_allocate (pr_mmap p) aligned_size;
          let p := with_mmap p s in
          match vaddr with
          | None => Ret (p, a, m, - errno EINVAL)
          | Some base_vaddr =>
              let frame_of i :=
                phys ← idx phys_addrs i;
                PhysFrame_containing_address Size4KiB phys in
              '(a, m, r) ← map_frames (pr_space p) base_vaddr frame_of map_flags a m 0 (Z.to_nat page_count);
              match r with
              | Err _ => Ret (p, a, m, - errno EINVAL)
              | Ok _ =>
                  Ret (with_mappings p (<[base_vaddr := Shared page_count]> (pr_mappings p)), a, m, base_vaddr)
              end
          end
      end
  end.

Definition sys_mem_protect (p : Process) (a : A) (m : mem) (addr length prot : Z) : exec (Process * A * mem * Z) :=
  if (length =? 0) || (addr =? 0) then Ret (p, a, m, - errno EINVAL) else
  if negb (Z.land addr (PAGE_SIZE - 1) =? 0) then Ret (p, a, m, - errno EINVAL) else
  aligned_length ← mem_page_align_up length;
  let page_count := aligned_length / PAGE_SIZE in
  let map_flags := prot_flags (bf_from_bits_retain 0) prot in
  base ← VirtAddr_new addr;
  '(m, result) ← protect_range (PM := PM) (pr_space p) base page_count map_flags m;
  match result with
  | Ok _ => Ret (p, a, m, 0)
  | Err _ => Ret (p, a, m, - errno ENOMEM)
  end.

End Calls.
Arguments Process V W I F : clear implicits.
