(* ===== verification/Loader.v ===== *)
(** * Program loading (kernel/kernel/src/proc/binfmt, kernel/kernel/src/proc/exec.rs)

    From the bytes of a file to an address space a process can run in: the
    registry of binary formats, the segments, the relocation of
    position-independent programs, the user stack, the signal trampoline, and
    the arguments and environment written to the stack.

    The code runs over any page mapper and any frame allocator.  Frames are
    written through the direct map.  Error messages are not modelled. *)

From S2P Require Import Prelude Mem Addr Paging Layout Std FsTypes Elf Extern Region Pmm PageTable PageWalk PageTableSpec PageMap Mapper Vmm AddressSpace.

(** ** Binary formats (binfmt/mod.rs, elf.rs, script.rs) *)

Definition MAX_SEGMENTS : Z := 16.
Definition PF_X : Z := 1.
Definition PF_W : Z := 2.
Definition USER_PIE_BASE : Z := 0x400000.

Record SegmentFlags : Type := mkSegmentFlags {
  sf_writable : bool;
  sf_executable : bool;
}.

Record ExecSegment : Type := mkExecSegment {
  es_vaddr : Z;
  es_data : list Z;
  es_memsz : Z;
  es_flags : SegmentFlags;
}.

Inductive BinaryError : Type :=
| UnrecognizedFormat
| ParseError
| TooManySegments
| Unimplemented
| RelocFailed (e : RelocError).

Definition map_elf_error (e : ElfError) : BinaryError := ParseError.

Section Formats.
Context {V : Type} `{AV : ArrayVec ExecSegment V MAX_SEGMENTS}.

Record ExecImage : Type := mkExecImage {
  im_entry_point : Z;
  im_base_addr : Z;
  im_needs_relocation : bool;
  im_elf_data : option (list Z);
  im_segments : V;
}.

(** The body of the loop of [collect_segments]. *)
Definition collect_segment (base_addr : Z) (seg : LoadSegment) (segments : V) : exec (result V BinaryError) :=
  vaddr ← add64 (ls_vaddr seg) base_addr;
  let flags := mkSegmentFlags (negb (Z.land (ls_flags seg) PF_W =? 0)) (negb (Z.land (ls_flags seg) PF_X =? 0)) in
  match av_try_push segments (mkExecSegment vaddr (ls_data seg) (ls_memsz seg) flags) with
  | Some segments => Ret (Ok segments)
  | None => Ret (Err TooManySegments)
  end.

Definition collect_segments (elf : ElfFile) (base_addr : Z) : exec (result V BinaryError) :=
  for_segments elf (collect_segment base_addr) 0 (Z.to_nat (e_phnum (elf_header elf))) av_new.

Definition load_exec (elf : ElfFile) : exec (result ExecImage BinaryError) :=
  r ← collect_segments elf 0;
  match r with
  | Err e => Ret (Err e)
  | Ok segments => Ret (Ok (mkExecImage (entry_point elf) 0 false None segments))
  end.

Definition load_dyn (elf : ElfFile) (data : list Z) : exec (result ExecImage BinaryError) :=
  let base := USER_PIE_BASE in
  r ← collect_segments elf base;
  match r with
  | Err e => Ret (Err e)
  | Ok segments =>
      entry ← add64 base (entry_point elf);
      Ret (Ok (mkExecImage entry base true (Some data) segments))
  end.

Definition ElfHandler_probe (data : list Z) : exec bool :=
  if 4 <=? Z.of_nat (length data) then
    s ← slice data 0 4;
    Ret (bytes_eqb s [0x7f; 0x45; 0x4c; 0x46])
  else Ret false.

Definition ElfHandler_load (data : list Z) : exec (result ExecImage BinaryError) :=
  r ← ElfFile_parse data;
  match r with
  | Err e => Ret (Err (map_elf_error e))
  | Ok elf =>
      t ← elf_type elf;
      match t with
      | Exec => load_exec elf
      | Dyn => load_dyn elf data
      | Rel => Ret (Err Unimplemented)
      end
  end.

Definition ScriptHandler_probe (data : list Z) : exec bool :=
  if 2 <=? Z.of_nat (length data) then
    s ← slice data 0 2;
    Ret (bytes_eqb s [0x23; 0x21])
  else Ret false.

Definition ScriptHandler_load (data : list Z) : exec (result ExecImage BinaryError) := Ret (Err Unimplemented).

(** A handler: [probe] and [load]. *)
Definition BINARY_FORMATS : list ((list Z -> exec bool) * (list Z -> exec (result ExecImage BinaryError))) :=
  [(ElfHandler_probe, ElfHandler_load); (ScriptHandler_probe, ScriptHandler_load)].

Fixpoint probe_formats (formats : list ((list Z -> exec bool) * (list Z -> exec (result ExecImage BinaryError))))
    (data : list Z) : exec (result ExecImage BinaryError) :=
  match formats with
  | [] => Ret (Err UnrecognizedFormat)
  | (probe, load) :: formats =>
      b ← probe data;
      if b : bool then load data else probe_formats formats data
  end.

Definition load_binary (data : list Z) : exec (result ExecImage BinaryError) := probe_formats BINARY_FORMATS data.
End Formats.
Arguments ExecImage V : clear implicits.

(** ** Mapping a program (exec.rs) *)

Definition USER_STACK_TOP : Z := 0x7FFFFFFFF000.
Definition USER_STACK_SIZE : Z := 64 * 1024.
Definition SYS_TASK_SIGRETURN_NR : Z := 0x07.
Definition SIGRETURN_TRAMPOLINE_ADDR : Z := 0x7FFFFFFE0000.
Definition MAX_STRINGS : nat := 96.

(** [copy_nonoverlapping] from a slice of the kernel. *)
Definition write_list (m : mem) (a : Z) (l : list Z) : mem := fun x =>
  if a <=? x then match l !! Z.to_nat (x - a) with Some b => b | None => m x end else m x.

Section Mapping.
Context {G : Type} `{BG : BitFlags MF_ALL G} {A : Type} `{FA : FrameAllocator A}.
Context {off : Z} `{PM : !PageMapper G A off}.
Context {W : Type}.

(** A fresh frame, mapped at a user address: the steps that [map_segment],
    [map_user_stack] and [map_sigreturn_trampoline] have in common. *)
Definition map_fresh_page (self : AddressSpace W) (vaddr : Z) (flags : G) (a : A) (m : mem) : exec (A * mem * Z) :=
  '(a, o) ← fa_allocate a m;
  frame ← expect o;
  virt ← VirtAddr_new vaddr;
  page ← Page_containing_address Size4KiB virt;
  '(a, m, r) ← map_user_page self page frame flags a m;
  match r with
  | Err _ => Panic
  | Ok _ => Ret (a, m, frame)
  end.

(** The part of a segment's data that goes to the page at [page_vaddr]. *)
Definition copy_segment_data (seg : ExecSegment) (page_vaddr frame_ptr : Z) (m : mem) : exec mem :=
  let seg_data_start := 0 `max` (page_vaddr - es_vaddr seg) in
  let len := Z.of_nat (length (es_data seg)) in
  page_end ← add64 seg_data_start PAGE_SIZE;
  let seg_data_end := page_end `min` len in
  if seg_data_start <? len then
    data ← slice (es_data seg) seg_data_start seg_data_end;
    let dest_offset := if page_vaddr <? es_vaddr seg then es_vaddr seg - page_vaddr else 0 in
    Ret (write_list m (frame_ptr + dest_offset) data)
  else Ret m.

(** The loop of [map_segment], from page [i] on, [n] pages left. *)
Fixpoint map_segment_pages (self : AddressSpace W) (seg : ExecSegment) (flags : G) (hhdm_offset seg_start : Z)
    (a : A) (m : mem) (i : Z) (n : nat) : exec (A * mem) :=
  match n with
  | O => Ret (a, m)
  | S n' =>
      d ← mul64 i PAGE_SIZE;
      page_vaddr ← add64 seg_start d;
      '(a, m, frame) ← map_fresh_page self page_vaddr flags a m;
      let frame_ptr := VirtAddr_add hhdm_offset frame in
      let m := write_bytes m frame_ptr 0 PAGE_SIZE in
      m ← copy_segment_data seg page_vaddr frame_ptr m;
      map_segment_pages self seg flags hhdm_offset seg_start a m (i + 1) n'
  end.

Definition segment_flags (f : SegmentFlags) : G :=
  let flags := MF_USER in
  let flags := if sf_writable f then bf_union flags MF_WRITABLE else flags in
  if sf_executable f then bf_union flags MF_EXECUTABLE else flags.

Definition map_segment (self : AddressSpace W) (seg : ExecSegment) (hhdm_offset : Z) (a : A) (m : mem)
    : exec (A * mem) :=
  let flags := segment_flags (es_flags seg) in
  let page_mask := PAGE_SIZE - 1 in
  let seg_start := Z.land (es_vaddr seg) (not64 page_mask) in
  e ← add64 (es_vaddr seg) (es_memsz seg);
  e ← add64 e page_mask;
  let seg_end := Z.land e (not64 page_mask) in
  size ← sub64 seg_end seg_start;
  let page_count := size / PAGE_SIZE in
  map_segment_pages self seg flags hhdm_offset seg_start a m 0 (Z.to_nat page_count).

(** The loop over the segments of an image. *)
Fixpoint map_segments (self : AddressSpace W) (segs : list ExecSegment) (hhdm_offset : Z) (a : A) (m : mem)
    : exec (A * mem) :=
  match segs with
  | [] => Ret (a, m)
  | seg :: segs => '(a, m) ← map_segment self seg hhdm_offset a m; map_segments self segs hhdm_offset a m
  end.

(** The loop of [map_user_stack]. *)
Fixpoint map_stack_pages (self : AddressSpace W) (flags : G) (hhdm_offset stack_bottom : Z)
    (a : A) (m : mem) (i : Z) (n : nat) : exec (A * mem) :=
  match n with
  | O => Ret (a, m)
  | S n' =>
      d ← mul64 i PAGE_SIZE;
      page_vaddr ← add64 stack_bottom d;
      '(a, m, frame) ← map_fresh_page self page_vaddr flags a m;
      let m := write_bytes m (VirtAddr_add hhdm_offset frame) 0 PAGE_SIZE in
      map_stack_pages self flags hhdm_offset stack_bottom a m (i + 1) n'
  end.

Definition map_user_stack (self : AddressSpace W) (hhdm_offset : Z) (a : A) (m : mem) : exec (A * mem) :=
  stack_bottom ← sub64 USER_STACK_TOP USER_STACK_SIZE;
  let page_count := USER_STACK_SIZE / PAGE_SIZE in
  map_stack_pages self (bf_union MF_WRITABLE MF_USER) hhdm_offset stack_bottom a m 0 (Z.to_nat page_count).

Definition sigreturn_stub : list Z := [0x48; 0xc7; 0xc0; SYS_TASK_SIGRETURN_NR; 0x00; 0x00; 0x00; 0x0f; 0x05].

Definition map_sigreturn_trampoline (self : AddressSpace W) (hhdm_offset : Z) (a : A) (m : mem) : exec (A * mem) :=
  let flags := bf_union MF_USER MF_EXECUTABLE in
  '(a, m, frame) ← map_fresh_page self SIGRETURN_TRAMPOLINE_ADDR flags a m;
  let frame_ptr := VirtAddr_add hhdm_offset frame in
  let m := write_bytes m frame_ptr 0 PAGE_SIZE in
  Ret (a, write_list m frame_ptr sigreturn_stub).

(** ** Relocations (binfmt/reloc.rs) *)

Definition resolve_symbol (elf : ElfFile) (symtab : option Elf64SectionHeader) (sym_index base_addr : Z)
    : exec (result Z BinaryError) :=
  if sym_index =? 0 then Ret (Ok 0) else
  match symtab with
  | None => Ret (Err ParseError)
  | Some symtab_shdr =>
      it ← section_entries elf symtab_shdr;
      sym ← match it with Some it => symbol_nth (Z.to_nat sym_index) it | None => Ret None end;
      match sym with
      | None => Ret (Err ParseError)
      | Some sym =>
          if st_shndx sym =? SHN_UNDEF then Ret (Err ParseError) else
          v ← add64 (st_value sym) base_addr;
          Ret (Ok v)
      end
  end.

Definition write_reloc_value (self : AddressSpace W) (vaddr : Z) (value : RelocValue) (hhdm_offset : Z) (m : mem)
    : exec (mem * result unit BinaryError) :=
  virt ← VirtAddr_new vaddr;
  p ← as_translate (off := off) (PM := PM) self m virt;
  match p with
  | None => Ret (m, Err ParseError)
  | Some phys =>
      let hhdm_ptr := VirtAddr_add hhdm_offset phys in
      match value with
      | RelocU32 v => Ret (store 4 m hhdm_ptr v, Ok tt)
      | RelocU64 v => Ret (store 8 m hhdm_ptr v, Ok tt)
      end
  end.

(** The body of the loop over the entries of a section. *)
Definition apply_rela (self : AddressSpace W) (elf : ElfFile) (symtab : option Elf64SectionHeader)
    (base_addr hhdm_offset : Z) (rela : Elf64Rela) (m : mem) : exec (mem * result unit BinaryError) :=
  s ← resolve_symbol elf symtab (r_sym rela) base_addr;
  match s with
  | Err e => Ret (m, Err e)
  | Ok sym_value =>
      place_addr ← add64 base_addr (r_offset rela);
      match compute_x86_64_reloc rela sym_value base_addr place_addr with
      | Err e => Ret (m, Err (RelocFailed e))
      | Ok (_, value) => write_reloc_value self place_addr value hhdm_offset m
      end
  end.

(** The loops over the entries and over the sections.  Each [next] but the
    last moves on by an entry, so the fuel is the number of entries left. *)
Fixpoint apply_relas (self : AddressSpace W) (elf : ElfFile) (symtab : option Elf64SectionHeader)
    (base_addr hhdm_offset : Z) (fuel : nat) (it : EntryIter) (m : mem) : exec (mem * result unit BinaryError) :=
  match fuel with
  | O => Panic
  | S fuel =>
      '(it, o) ← RelaIter_next it;
      match o with
      | None => Ret (m, Ok tt)
      | Some rela =>
          '(m, r) ← apply_rela self elf symtab base_addr hhdm_offset rela m;
          match r with
          | Err e => Ret (m, Err e)
          | Ok _ => apply_relas self elf symtab base_addr hhdm_offset fuel it m
          end
      end
  end.

Definition rela_fuel (it : EntryIter) : nat := S (Z.to_nat ((ei_end it - ei_offset it) / ELF64_RELA_SIZE)).

Fixpoint apply_sections (self : AddressSpace W) (elf : ElfFile) (symtab : option Elf64SectionHeader)
    (base_addr hhdm_offset : Z) (fuel : nat) (it : SectionIter) (m : mem) : exec (mem * result unit BinaryError) :=
  match fuel with
  | O => Panic
  | S fuel =>
      '(it, o) ← SectionIter_next it;
      match o with
      | None => Ret (m, Ok tt)
      | Some shdr =>
          if sh_type shdr =? SHT_RELA then
            entries ← section_entries elf shdr;
            match entries with
            | None => apply_sections self elf symtab base_addr hhdm_offset fuel it m
            | Some relas =>
                '(m, r) ← apply_relas self elf symtab base_addr hhdm_offset (rela_fuel relas) relas m;
                match r with
                | Err e => Ret (m, Err e)
                | Ok _ => apply_sections self elf symtab base_addr hhdm_offset fuel it m
                end
            end
          else apply_sections self elf symtab base_addr hhdm_offset fuel it m
      end
  end.

Definition apply_dyn_relocations (self : AddressSpace W) (elf : ElfFile) (base_addr hhdm_offset : Z) (m : mem)
    : exec (mem * result unit BinaryError) :=
  d ← find_section_by_type elf SHT_DYNSYM;
  symtab ← match d with Some s => Ret (Some s) | None => find_section_by_type elf SHT_SYMTAB end;
  apply_sections self elf symtab base_addr hhdm_offset
    (S (Z.to_nat (e_shnum (elf_header elf)))) (sections elf) m.

(** ** Arguments and environment *)

(** The loop of [write_string_bytes], from byte [j] on. *)
Fixpoint write_bytes_from (self : AddressSpace W) (vaddr j : Z) (s : list Z) (hhdm_offset : Z) (m : mem)
    : exec (mem * result unit BinaryError) :=
  match s with
  | [] => Ret (m, Ok tt)
  | byte :: s =>
      addr ← add64 vaddr j;
      virt ← VirtAddr_new addr;
      p ← as_translate (off := off) (PM := PM) self m virt;
      match p with
      | None => Ret (m, Err ParseError)
      | Some phys =>
          let m := store 1 m (VirtAddr_add hhdm_offset phys) byte in
          write_bytes_from self vaddr (j + 1) s hhdm_offset m
      end
  end.

Definition write_string_bytes (self : AddressSpace W) (vaddr : Z) (s : list Z) (hhdm_offset : Z) (m : mem)
    : exec (mem * result unit BinaryError) :=
  write_bytes_from self vaddr 0 s hhdm_offset m.

Definition write_usize_to_user (self : AddressSpace W) (vaddr value hhdm_offset : Z) (m : mem)
    : exec (mem * result unit BinaryError) :=
  virt ← VirtAddr_new vaddr;
  p ← as_translate (off := off) (PM := PM) self m virt;
  match p with
  | None => Ret (m, Err ParseError)
  | Some phys => Ret (store 8 m (VirtAddr_add hhdm_offset phys) value, Ok tt)
  end.

(** Steps 1 and 2 of [write_startup_data]: the strings, the last one first and
    each below the one before.  The result is the cursor and the addresses of
    the strings, in their order. *)
Fixpoint write_strings (self : AddressSpace W) (strings : list (list Z)) (hhdm_offset cursor : Z) (m : mem)
    : exec (mem * result (Z * list Z) BinaryError) :=
  match strings with
  | [] => Ret (m, Ok (cursor, []))
  | s :: strings =>
      '(m, r) ← write_strings self strings hhdm_offset cursor m;
      match r with
      | Err e => Ret (m, Err e)
      | Ok (cursor, addrs) =>
          cursor ← sub64 cursor (Z.of_nat (length s) + 1);
          '(m, w) ← write_string_bytes self cursor s hhdm_offset m;
          match w with
          | Err e => Ret (m, Err e)
          | Ok _ => Ret (m, Ok (cursor, cursor :: addrs))
          end
      end
  end.

(** Steps 5 to 7: a run of words, each followed by a step of the position. *)
Fixpoint write_words (self : AddressSpace W) (words : list Z) (pos hhdm_offset : Z) (m : mem)
    : exec (mem * result Z BinaryError) :=
  match words with
  | [] => Ret (m, Ok pos)
  | w :: words =>
      '(m, r) ← write_usize_to_user self pos w hhdm_offset m;
      match r with
      | Err e => Ret (m, Err e)
      | Ok _ =>
          pos ← add64 pos 8;
          write_words self words pos hhdm_offset m
      end
  end.

Definition write_startup_data (self : AddressSpace W) (args envs : list (list Z)) (hhdm_offset : Z) (m : mem)
    : exec (mem * result Z BinaryError) :=
  let cursor := USER_STACK_TOP in
  if (MAX_STRINGS <? length args + length envs)%nat then Ret (m, Err ParseError) else
  '(m, r) ← write_strings self (args ++ envs) hhdm_offset cursor m;
  match r with
  | Err e => Ret (m, Err e)
  | Ok (cursor, addrs) =>
      let cursor := Z.land cursor (not64 0xF) in
      let argc := Z.of_nat (length args) in
      let total_below := 8 + 8 * argc + 8 + 8 * Z.of_nat (length envs) + 8 in
      below ← sub64 cursor total_below;
      let rsp := Z.land below (not64 0xF) in
      '(m, r) ← write_words self (argc :: take (length args) addrs ++ 0 :: drop (length args) addrs) rsp hhdm_offset m;
      match r with
      | Err e => Ret (m, Err e)
      | Ok pos =>
          '(m, r) ← write_usize_to_user self pos 0 hhdm_offset m;
          match r with
          | Err e => Ret (m, Err e)
          | Ok _ => Ret (m, Ok rsp)
          end
      end
  end.

(** [argv\[0\]] of the first process. *)
Definition init_path : list Z := [0x2f; 0x62; 0x69; 0x6e; 0x2f; 0x69; 0x6e; 0x69; 0x74].

Definition write_argv_to_init_stack (self : AddressSpace W) (hhdm_offset : Z) (m : mem) : exec (mem * result Z BinaryError) :=
  write_startup_data self [init_path] [] hhdm_offset m.
End Mapping.

(** ** A new address space *)
Section Create.
Context {G : Type} `{BG : BitFlags MF_ALL G} {A : Type} `{FA : FrameAllocator A}.
Context {off : Z} `{PM : !PageMapper G A off}.
Context {V : Type} `{AV : ArrayVec ExecSegment V MAX_SEGMENTS}.
(** [FrameDeallocator::deallocate_frame]. *)
Context (deallocate_frame : A -> mem -> Z -> exec (A * mem)).

(** The global frame allocator behind its lock.  To take a lock that is held
    on the same CPU is to wait for ever, here [Panic]. *)
Record GlobalPmm : Type := mkGlobalPmm {
  gp_locked : bool;
  gp_alloc : A;
  gp_mem : mem;
}.

Definition with_pmm {R} (f : A -> mem -> exec (A * mem * R)) (w : GlobalPmm) : exec (GlobalPmm * R) :=
  if gp_locked w then Panic else
  '(a, m, r) ← f (gp_alloc w) (gp_mem w);
  Ret (mkGlobalPmm false a m, r).

Definition dealloc_frame (frame : Z) (w : GlobalPmm) : exec GlobalPmm :=
  '(w, _) ← with_pmm (fun a m => '(a, m) ← deallocate_frame a m frame; Ret (a, m, tt)) w;
  Ret w.

(** The closure under the lock.  When a relocation fails, the address space is
    dropped before the closure returns, so with the lock held. *)
Definition build_address_space (kernel_cr3 hhdm_offset : Z) (image : ExecImage V) (a : A) (m : mem)
    : exec (A * mem * result (AddressSpace GlobalPmm) BinaryError) :=
  '(a, m, r) ← new_user kernel_cr3 hhdm_offset a m dealloc_frame;
  match r with
  | Err _ => Panic
  | Ok space =>
      '(a, m) ← map_segments (PM := PM) space (av_as_slice (im_segments image)) hhdm_offset a m;
      '(m, r) ← (if im_needs_relocation image then
                   match im_elf_data image with
                   | None => Ret (m, Ok tt)
                   | Some elf_data =>
                       p ← ElfFile_parse elf_data;
                       match p with
                       | Err _ => Panic
                       | Ok elf => apply_dyn_relocations (PM := PM) space elf (im_base_addr image) hhdm_offset m
                       end
                   end
                 else Ret (m, Ok tt));
      match r with
      | Err e =>
          w ← AddressSpace_drop space (mkGlobalPmm true a m);
          Ret (gp_alloc w, gp_mem w, Err e)
      | Ok _ =>
          '(a, m) ← map_user_stack (PM := PM) space hhdm_offset a m;
          '(a, m) ← map_sigreturn_trampoline (PM := PM) space hhdm_offset a m;
          Ret (a, m, Ok space)
      end
  end.

Definition create_address_space_from_binary (kernel_cr3 hhdm_offset : Z) (data : list Z) (w : GlobalPmm)
    : exec (GlobalPmm * result (AddressSpace GlobalPmm * Z * Z) BinaryError) :=
  l ← load_binary data;
  match l with
  | Err e => Ret (w, Err e)
  | Ok image =>
      '(w, r) ← with_pmm (build_address_space kernel_cr3 hhdm_offset image) w;
      match r with
      | Err e => Ret (w, Err e)
      | Ok space => Ret (w, Ok (space, im_entry_point image, USER_STACK_TOP))
      end
  end.

(** The loading half of [handle_execve]: the path and the strings have been
    read and the file is in [data]. *)
Definition execve_load (kernel_cr3 hhdm_offset : Z) (data : list Z) (args envs : list (list Z)) (w : GlobalPmm)
    : exec (GlobalPmm * result (AddressSpace GlobalPmm * Z * Z) Errno) :=
  '(w, r) ← create_address_space_from_binary kernel_cr3 hhdm_offset data w;
  match r with
  | Err _ => Ret (w, Err EINVAL)
  | Ok (new_space, entry, _) =>
      '(m, s) ← write_startup_data (PM := PM) new_space args envs hhdm_offset (gp_mem w);
      let w := mkGlobalPmm (gp_locked w) (gp_alloc w) m in
      match s with
      | Err _ =>
          w ← AddressSpace_drop new_space w;
          Ret (w, Err EINVAL)
      | Ok stack_top => Ret (w, Ok (new_space, entry, stack_top))
      end
  end.
End Create.
Arguments GlobalPmm A : clear implicits.
