(* ===== verification/LoaderSpec.v ===== *)
(** * Correctness of program loading

    The code of [Loader] against two descriptions: the image a file describes,
    and the memory a process sees.  [image_at] ties the second to the page
    tables and frames: pages, their rights, and a byte for each address. *)

From S2P Require Import Prelude Mem Addr Paging Layout Std FsTypes Elf Extern Region Pmm PageTable PageWalk PageTableSpec PageMap Mapper Vmm AddressSpace Loader.

Lemma VirtAddr_new_ok v : canonical v -> VirtAddr_new v = Ret v.
Proof. intros H. unfold VirtAddr_new. by rewrite new_truncate_id, Z.eqb_refl by done. Qed.

(** ** The image a file describes *)

Definition exec_segment (base : Z) (s : LoadSegment) : ExecSegment :=
  mkExecSegment (ls_vaddr s + base) (ls_data s) (ls_memsz s)
    (mkSegmentFlags (negb (Z.land (ls_flags s) PF_W =? 0)) (negb (Z.land (ls_flags s) PF_X =? 0))).

Definition load_base (h : Elf64Header) : Z := if e_type h =? ET_DYN then USER_PIE_BASE else 0.

(** The program headers whose data and addresses are 64-bit numbers. *)
Definition headers_fit (data : list Z) (h : Elf64Header) : Prop :=
  forall i, 0 <= i < e_phnum h -> range_fits (phdr_at data h i) /\
    (p_type (phdr_at data h i) = PT_LOAD -> p_vaddr (phdr_at data h i) + load_base h < U64).

Section Image.
Context {V : Type} `{AV : ArrayVec ExecSegment V MAX_SEGMENTS}.
Context (data : list Z) (h : Elf64Header) (Hfile : is_file data) (Hv : valid_elf data h).
Context (Hrel : e_type h <> ET_REL) (Hfit : headers_fit data h).

Definition described (i : Z) : option LoadSegment :=
  let p := phdr_at data h i in if p_type p =? PT_LOAD then Some (segment_of data p) else None.

Lemma for_segments_collect n i (v : V) :
  0 <= i -> i + Z.of_nat n = e_phnum h -> Z.of_nat (length (av_as_slice v)) <= MAX_SEGMENTS ->
  wp (for_segments (mkElfFile data h) (collect_segment (load_base h)) i n v) (fun r =>
    let segs := exec_segment (load_base h) <$> omap described (seqZ i (Z.of_nat n)) in
    match r with
    | Ok v' => av_as_slice v' = av_as_slice v ++ segs /\ Z.of_nat (length (av_as_slice v')) <= MAX_SEGMENTS
    | Err e => e = TooManySegments /\ MAX_SEGMENTS < Z.of_nat (length (av_as_slice v) + length segs)
    end).
Proof using Hfile Hv Hrel Hfit.
  revert i v. induction n as [|n IH]; intros i v Hi Hn Hm; cbn [for_segments].
  { wp_step. by rewrite app_nil_r. }
  destruct (Hfit i ltac:(lia)) as [Hf Hva]. 
  assert (load_segment (mkElfFile data h) i = Ret (described i)) as -> by (by apply load_segment_eq; [..|lia|]).
  wp_step. wp_step. rewrite seqZ_cons by lia. rewrite <- Z.add_1_r. replace (Z.pred (Z.of_nat (S n))) with (Z.of_nat n) by lia.
  destruct (described i) as [s|] eqn:Ed.
  2:{ eapply wp_mono; [apply (IH (i + 1) v); [lia|lia|done]|]. intros r Hr. simpl. rewrite Ed. exact Hr. }
  assert (ls_vaddr s + load_base h < U64) as Hu.
  { unfold described in Ed. revert Ed. case (Z.eqb_spec _ _); [|done]. intros Ep [= <-]. by apply Hva. }
  assert (collect_segment (load_base h) s v = Ret match av_try_push v (exec_segment (load_base h) s) with
    | Some v => Ok v | None => Err TooManySegments end) as ->.
  { unfold collect_segment. rewrite add64_ok by done. cbn [mbind exec_bind].
    change (mkExecSegment _ _ _ _) with (exec_segment (load_base h) s). by destruct (av_try_push _ _). }
  wp_step. wp_step. pose proof (av_try_push_spec v (exec_segment (load_base h) s)) as Hp.
  destruct (av_try_push v (exec_segment (load_base h) s)) as [v1|];
    change (omap described (i :: seqZ (i + 1) (Z.of_nat n))) with (match described i with Some y => y :: omap described (seqZ (i + 1) (Z.of_nat n)) | None => omap described (seqZ (i + 1) (Z.of_nat n)) end);
    rewrite Ed, fmap_cons.
  - destruct Hp as [Hm1 Hp]. eapply wp_mono; [apply (IH (i + 1) v1); [lia|lia|]|].
    { rewrite Hp, length_app. cbn [length]. lia. } intros [v2|e] Hr.
    + destruct Hr as [Hr ?]. split; [|done]. rewrite Hr, Hp, <- app_assoc. done.
    + destruct Hr as [-> Hr]. split; [done|]. rewrite Hp, length_app in Hr. cbn [length] in *. lia.
  - apply wp_ret. split; [done|]. cbn [length]. lia.
Qed.

Lemma wp_collect_segments :
  wp (collect_segments (V := V) (mkElfFile data h) (load_base h)) (fun r =>
    match r with
    | Ok v => av_as_slice v = exec_segment (load_base h) <$> load_segments data h /\
        Z.of_nat (length (load_segments data h)) <= MAX_SEGMENTS
    | Err e => e = TooManySegments /\ MAX_SEGMENTS < Z.of_nat (length (load_segments data h))
    end).
Proof using Hfile Hv Hrel Hfit.
  destruct (valid_ranges data h Hfile Hv) as (_ & _ & _ & Hn & _). unfold collect_segments. cbn [elf_header].
  eapply wp_mono; [apply for_segments_collect; [lia|lia|by rewrite av_new_spec]|]. rewrite Z2Nat.id, av_new_spec by lia.
  intros [v|e] Hr; cbv zeta in Hr; [destruct Hr as [Hr Hm]; split; [exact Hr|]; rewrite Hr in Hm; cbn [app] in Hm; by rewrite length_fmap in Hm|]. by rewrite length_fmap in Hr.
Qed.

(** A file whose headers fit is loaded as it describes itself, unless it has
    more than 16 segments. *)
Lemma wp_load_binary :
  entry_point (mkElfFile data h) + load_base h < U64 ->
  wp (load_binary data) (fun r =>
    match r with
    | Ok image => im_entry_point image = e_entry h + load_base h /\ im_base_addr image = load_base h /\
        im_needs_relocation image = (e_type h =? ET_DYN) /\
        im_elf_data image = (if e_type h =? ET_DYN then Some data else None) /\
        av_as_slice (im_segments image) = exec_segment (load_base h) <$> load_segments data h /\
        Z.of_nat (length (load_segments data h)) <= MAX_SEGMENTS
    | Err e => e = TooManySegments /\ MAX_SEGMENTS < Z.of_nat (length (load_segments data h))
    end).
Proof using Hfile Hv Hrel Hfit.
  intros He. pose proof wp_collect_segments as Hc. unfold load_binary, BINARY_FORMATS, probe_formats, ElfHandler_probe.
  destruct Hv as [Hsz Hm _ _ Hty _ _ _ _]. rewrite (proj2 (Z.leb_le _ _)) by lia.
  wp_step. wp_step. apply wp_slice; [lia|lia|]. wp_step. change (Z.to_nat (4 - 0)) with 4%nat. rewrite drop_0, Hm.
  change (bytes_eqb ELF_MAGIC _) with true. cbv iota.
  unfold ElfHandler_load. wp_step. unfold ElfFile_parse. wp_step.
  eapply wp_mono; [by apply wp_Elf64Header_parse|]. intros [h'|e] Hr; [|by destruct (Hr h)].
  assert (h' = h) as -> by (by rewrite (ve_fields _ _ Hr), (ve_fields _ _ Hv)).
  wp_step. wp_step. unfold elf_type, Elf64Header_elf_type. cbn [elf_header].
  assert (e_type h = ET_EXEC \/ e_type h = ET_DYN) as [Et|Et] by tauto; rewrite Et; simpl; wp_step.
  - assert (load_base h = 0) as Hb by (unfold load_base; by rewrite Et). rewrite Hb in He, Hc |- *.
    unfold load_exec. wp_step. eapply wp_mono; [exact Hc|]. intros [v|e] Hs; wp_step; [|done].
    destruct Hs as [? ?]. split_and!; [unfold entry_point in *; simpl in *; lia|done..].
  - assert (load_base h = USER_PIE_BASE) as Hb by (unfold load_base; by rewrite Et).
    rewrite Hb in He, Hc |- *.
    unfold load_dyn. wp_step. eapply wp_mono; [exact Hc|]. intros [v|e] Hs; [|by wp_step]. wp_step. wp_step.
    wp_step. destruct Hs as [? ?]. split_and!; [unfold entry_point in *; simpl in *; lia|done..].
Qed.
End Image.

(** ** The bytes of a segment *)

Definition seg_byte (seg : ExecSegment) (v : Z) : Z :=
  if es_vaddr seg <=? v then default 0 (es_data seg !! Z.to_nat (v - es_vaddr seg)) else 0.

(** The first page of the segment has room for the data copied to it. *)
Definition contained (seg : ExecSegment) : Prop :=
  es_vaddr seg mod 4096 = 0 \/ es_vaddr seg mod 4096 + Z.of_nat (length (es_data seg)) <= 4096.

Lemma write_list_in m a l x : a <= x < a + Z.of_nat (length l) -> Some (write_list m a l x) = l !! Z.to_nat (x - a).
Proof.
  intros H. unfold write_list. rewrite (proj2 (Z.leb_le _ _)) by lia.
  destruct (lookup_lt_is_Some_2 l (Z.to_nat (x - a)) ltac:(lia)) as [b ->]. done.
Qed.

Lemma write_list_out m a l x : ~ (a <= x < a + Z.of_nat (length l)) -> write_list m a l x = m x.
Proof.
  intros H. unfold write_list. destruct (Z.leb_spec a x); [|done]. by rewrite lookup_ge_None_2 by lia.
Qed.

Lemma seg_byte_in seg v :
  es_vaddr seg <= v < es_vaddr seg + Z.of_nat (length (es_data seg)) ->
  Some (seg_byte seg v) = es_data seg !! Z.to_nat (v - es_vaddr seg).
Proof.
  intros H. unfold seg_byte. rewrite (proj2 (Z.leb_le _ _)) by lia.
  destruct (lookup_lt_is_Some_2 (es_data seg) (Z.to_nat (v - es_vaddr seg)) ltac:(lia)) as [b ->]. done.
Qed.

Lemma seg_byte_out seg v :
  ~ (es_vaddr seg <= v < es_vaddr seg + Z.of_nat (length (es_data seg))) -> seg_byte seg v = 0.
Proof. intros H. unfold seg_byte. destruct (Z.leb_spec (es_vaddr seg) v); [|done]. by rewrite lookup_ge_None_2 by lia. Qed.

(** The data of a segment that belongs to a page is copied to its frame, and
    nothing is written beyond the frame. *)
Lemma wp_copy_segment_data seg page fp m :
  contained seg -> 0 <= es_vaddr seg -> page mod 4096 = 0 -> 4096 * (es_vaddr seg / 4096) <= page < 2 ^ 47 ->
  (forall x, fp <= x < fp + 4096 -> m x = 0) ->
  wp (copy_segment_data seg page fp m) (fun m' =>
    (forall x, ~ (fp <= x < fp + 4096) -> m' x = m x) /\
    (forall j, 0 <= j < 4096 -> m' (fp + j) = seg_byte seg (page + j))).
Proof.
  intros Hc H0 Hal Hp Hz. unfold copy_segment_data, PAGE_SIZE. set (len := Z.of_nat (length (es_data seg))).
  set (start := 0 `max` (page - es_vaddr seg)). wp_step. wp_step.
  assert (page < es_vaddr seg -> start = 0 /\ es_vaddr seg - page = es_vaddr seg mod 4096 /\
    es_vaddr seg mod 4096 + len <= 4096) as Hfirst.
  { intros Hlt. assert (es_vaddr seg - page = es_vaddr seg mod 4096) as E by (clear -Hlt Hal Hp; divlia).
    split; [unfold start; lia|]. split; [done|]. unfold contained in Hc. fold len in Hc. lia. }
  destruct (Z.ltb_spec start len) as [Hs|Hs].
  2:{ wp_step. split; [done|]. intros j Hj. rewrite Hz by lia. symmetry. apply seg_byte_out. fold len.
      destruct (Z.lt_ge_cases page (es_vaddr seg)) as [Hlt|Hge]; [|unfold start in Hs; lia].
      destruct (Hfirst Hlt) as (E & _). lia. }
  assert (0 <= start) as Hs0 by (unfold start; lia).
  wp_step. apply wp_slice; [lia|unfold len; lia|]. wp_step.
  set (data := take _ _). set (dest := if page <? es_vaddr seg then es_vaddr seg - page else 0).
  assert (Z.of_nat (length data) = (start + 4096) `min` len - start) as Hl.
  { unfold data. rewrite length_take, length_drop. unfold len in *. lia. }
  assert (0 <= dest /\ dest + Z.of_nat (length data) <= 4096 /\ page + dest = es_vaddr seg + start /\
    (len <= start + 4096 \/ dest = 0)) as (Hd1 & Hd2 & Hd3 & Hd4).
  { unfold dest. destruct (Z.ltb_spec page (es_vaddr seg)) as [Hlt|Hge].
    - destruct (Hfirst Hlt) as (E & E' & Hle). rewrite Hl, E. lia.
    - rewrite Hl. unfold start. lia. }
  split; intros x Hx; [by apply write_list_out; lia|].
  destruct (decide (dest <= x < dest + Z.of_nat (length data))) as [Hin|Hout].
  - apply (inj Some). rewrite write_list_in, seg_byte_in by (fold len; lia). unfold data.
    rewrite lookup_take_lt, lookup_drop by (unfold len in *; lia). f_equal. lia.
  - rewrite write_list_out, Hz, seg_byte_out by (fold len; lia). done.
Qed.

(** The page after the last page of a segment, and the pages of a segment. *)
Definition seg_last (seg : ExecSegment) : Z := (es_vaddr seg + es_memsz seg + 4095) / 4096.

Definition covers (seg : ExecSegment) (p : Z) : bool := (es_vaddr seg / 4096 <=? p) && (p <? seg_last seg).

(** A segment of the lower half whose first page takes its data. *)
Definition segment_ok (seg : ExecSegment) : Prop :=
  contained seg /\ 0 <= es_vaddr seg /\ 0 <= es_memsz seg /\ 4096 * seg_last seg <= 2 ^ 47.

Definition seg_count (seg : ExecSegment) : Z := seg_last seg - es_vaddr seg / 4096.

Lemma seg_count_nonneg seg : segment_ok seg -> 0 <= seg_count seg.
Proof. intros (_ & H0 & Hm & _). unfold seg_count, seg_last. divlia. Qed.

Lemma covers_spec seg p : covers seg p = true <-> es_vaddr seg / 4096 <= p < es_vaddr seg / 4096 + seg_count seg.
Proof. unfold covers, seg_count. rewrite andb_true_iff, Z.leb_le, Z.ltb_lt. lia. Qed.

(** The segment a page belongs to. *)
Definition seg_at (segs : list ExecSegment) (p : Z) : option ExecSegment := List.find (fun s => covers s p) segs.

(** No page belongs to two segments. *)
Definition apart (segs : list ExecSegment) : Prop :=
  ForallOrdPairs (fun s t => forall p, covers s p = true -> covers t p = false) segs.

(** The pages of the stack, and the page of the trampoline. *)
Definition stack_page : Z := (USER_STACK_TOP - USER_STACK_SIZE) / 4096.
Definition stack_count : Z := USER_STACK_SIZE / 4096.
Definition trampoline_page : Z := SIGRETURN_TRAMPOLINE_ADDR / 4096.

Definition on_stack (p : Z) : bool := (stack_page <=? p) && (p <? stack_page + stack_count).

Definition stub_byte (v : Z) : Z := default 0 (sigreturn_stub !! Z.to_nat (v - SIGRETURN_TRAMPOLINE_ADDR)).

Definition total_pages (segs : list ExecSegment) : Z := foldr (fun s n => seg_count s + n) 0 segs.

Lemma total_pages_nonneg segs : Forall segment_ok segs -> 0 <= total_pages segs.
Proof. induction 1 as [|s segs Hs _ IH]; simpl; [lia|]. pose proof (seg_count_nonneg s Hs). lia. Qed.

(** ** The relocations of a file *)

Section Relocations.
Context (data : list Z) (h : Elf64Header).

Definition symtab_of : option Elf64SectionHeader :=
  match List.find (fun s => sh_type s =? SHT_DYNSYM) (section_list data h) with
  | Some s => Some s
  | None => List.find (fun s => sh_type s =? SHT_SYMTAB) (section_list data h)
  end.

Definition relas_of (sections : list Elf64SectionHeader) : list Elf64Rela :=
  mjoin ((fun s => if sh_type s =? SHT_RELA then entries_of rela_at data s else []) <$> sections).

(** The value of a symbol: 0 for no symbol, none for an undefined one. *)
Definition symbol_of (n base : Z) : option Z :=
  if n =? 0 then Some 0 else
  s ← symtab_of;
  sym ← entries_of sym_at data s !! Z.to_nat n;
  if (st_shndx sym =? SHN_UNDEF) || (U64 <=? st_value sym + base) then None else Some (st_value sym + base).

(** Where a relocation writes, and what. *)
Definition reloc_of (base : Z) (rela : Elf64Rela) : option (Z * RelocValue) :=
  s ← symbol_of (r_sym rela) base;
  if U64 <=? base + r_offset rela then None else
  match compute_x86_64_reloc rela s base (base + r_offset rela) with
  | Ok (_, v) => Some (base + r_offset rela, v)
  | Err _ => None
  end.
End Relocations.

Definition width (v : RelocValue) : Z := match v with RelocU32 _ => 4 | RelocU64 _ => 8 end.
Definition payload (v : RelocValue) : Z := match v with RelocU32 x | RelocU64 x => x end.

(** The bytes of memory after a write of [n] bytes at [place]. *)
Definition patch (c : Z -> Z) (place n x : Z) : Z -> Z := fun v =>
  if (place <=? v) && (v <? place + n) then (x / 256 ^ (v - place)) mod 256 else c v.

Definition relocate (c : Z -> Z) (r : Z * RelocValue) : Z -> Z := patch c r.1 (width r.2) (payload r.2).

(** ** The startup block

    How a program finds its arguments and environment: the number of
    arguments at the stack pointer, then the addresses of the arguments, a null
    address, the addresses of the environment strings and a null address.  The
    strings end with a NUL byte. *)

Fixpoint read_string (fuel : nat) (c : Z -> Z) (v : Z) : list Z :=
  match fuel with
  | O => []
  | S fuel => if c v =? 0 then [] else c v :: read_string fuel c (v + 1)
  end.

Fixpoint read_pointers (fuel : nat) (c : Z -> Z) (v : Z) : list Z :=
  match fuel with
  | O => []
  | S fuel => let p := load64 c v in if p =? 0 then [] else p :: read_pointers fuel c (v + 8)
  end.

Definition read_strings (c : Z -> Z) (v : Z) : list (list Z) :=
  read_string (Z.to_nat USER_STACK_SIZE) c <$> read_pointers (S MAX_STRINGS) c v.

Definition read_args (c : Z -> Z) (rsp : Z) : list (list Z) := read_strings c (rsp + 8).
Definition read_envs (c : Z -> Z) (rsp : Z) : list (list Z) := read_strings c (rsp + 8 + 8 * load64 c rsp + 8).

(** The string [s] is stored at [v], with its NUL byte. *)
Definition string_at (c : Z -> Z) (v : Z) (s : list Z) : Prop :=
  (forall k b, s !! k = Some b -> c (v + Z.of_nat k) = b) /\ c (v + Z.of_nat (length s)) = 0.

Definition is_cstring (s : list Z) : Prop := Forall (fun b => is_byte b /\ b <> 0) s.

Definition strings_size (l : list (list Z)) : Z := foldr (fun s n => Z.of_nat (length s) + 1 + n) 0 l.

Lemma strings_size_nonneg l : 0 <= strings_size l.
Proof. induction l; simpl; lia. Qed.

Lemma read_string_at c v s fuel :
  is_cstring s -> string_at c v s -> (length s < fuel)%nat -> read_string fuel c v = s.
Proof.
  intros Hs. revert v fuel. induction Hs as [|b s [_ Hb] Hs IH]; intros v [|fuel] [H1 H2] Hf; cbn [length read_string] in *; try lia.
  - rewrite Z.add_0_r in H2. by rewrite H2.
  - pose proof (H1 0%nat b eq_refl) as E. rewrite Z.add_0_r in E. rewrite E, (proj2 (Z.eqb_neq _ _) Hb). f_equal.
    apply IH; [|lia]. split.
    + intros k x Hk. specialize (H1 (S k) x Hk). by replace (v + 1 + Z.of_nat k) with (v + Z.of_nat (S k)) by lia.
    + by replace (v + 1 + Z.of_nat (length s)) with (v + Z.of_nat (S (length s))) by lia.
Qed.

(** A run of words, and a null word after non-null ones. *)
Definition words_at (c : Z -> Z) (v : Z) (ws : list Z) : Prop :=
  forall k w, ws !! k = Some w -> load64 c (v + 8 * Z.of_nat k) = w.

Lemma words_at_cons c v w ws : words_at c v (w :: ws) -> load64 c v = w /\ words_at c (v + 8) ws.
Proof.
  intros H. split.
  - pose proof (H 0%nat w eq_refl) as E. by rewrite Z.mul_0_r, Z.add_0_r in E.
  - intros k x Hk. specialize (H (S k) x Hk). by replace (v + 8 + 8 * Z.of_nat k) with (v + 8 * Z.of_nat (S k)) by lia.
Qed.

Lemma words_at_app c v l1 l2 : words_at c v (l1 ++ l2) -> words_at c v l1 /\ words_at c (v + 8 * Z.of_nat (length l1)) l2.
Proof.
  revert v. induction l1 as [|w l1 IH]; intros v H; cbn [app length] in *.
  - rewrite Z.mul_0_r, Z.add_0_r. split; [by intros k w E|done].
  - apply words_at_cons in H as [H1 H2]. destruct (IH _ H2) as [H3 H4]. split.
    + intros [|k] x E; simpl in E; [injection E as <-; by rewrite Z.mul_0_r, Z.add_0_r|].
      replace (v + 8 * Z.of_nat (S k)) with (v + 8 + 8 * Z.of_nat k) by lia. by apply H3.
    + by replace (v + 8 * Z.of_nat (S (length l1))) with (v + 8 + 8 * Z.of_nat (length l1)) by lia.
Qed.

Lemma read_pointers_at c v ptrs rest fuel :
  Forall (fun p => p <> 0) ptrs -> words_at c v (ptrs ++ 0 :: rest) -> (length ptrs < fuel)%nat ->
  read_pointers fuel c v = ptrs.
Proof.
  intros Hp. revert v fuel. induction Hp as [|p ptrs Hp _ IH]; intros v [|fuel] H Hf; simpl in *; try lia;
    apply words_at_cons in H as [E H]; rewrite E; [done|].
  rewrite (proj2 (Z.eqb_neq _ _) Hp). f_equal. by apply IH; [|lia].
Qed.

Lemma read_strings_at c v ptrs rest ss :
  Forall2 (string_at c) ptrs ss -> Forall (fun p => p <> 0) ptrs -> Forall is_cstring ss ->
  words_at c v (ptrs ++ 0 :: rest) -> (length ss <= MAX_STRINGS)%nat ->
  Forall (fun s => Z.of_nat (length s) < USER_STACK_SIZE) ss -> read_strings c v = ss.
Proof.
  intros H2 Hp Hs Hw Hn Hl. unfold read_strings. pose proof (Forall2_length _ _ _ H2) as El.
  rewrite (read_pointers_at c v ptrs rest) by (done || lia). clear -H2 Hs Hl.
  induction H2 as [|p s ptrs ss H H2 IH]; [done|]. apply Forall_cons in Hs as [Hs1 Hs]. apply Forall_cons in Hl as [Hl1 Hl].
  rewrite fmap_cons. f_equal; [|by apply IH]. apply read_string_at; [done|done|lia].
Qed.

Lemma store_byte c v b x : is_byte b -> store 1 c v b x = write_list c v [b] x.
Proof.
  intros Hb. unfold store, write_list, is_byte in *. change (Z.of_nat 1) with 1.
  destruct (Z.leb_spec v x); [|done]. destruct (Z.ltb_spec x (v + 1)); simpl.
  - replace x with v by lia. rewrite Z.sub_diag. simpl. rewrite Z.div_1_r. by apply Z.mod_small.
  - by rewrite lookup_ge_None_2 by (simpl; lia).
Qed.

Lemma write_list_cons c v b s x : write_list (write_list c v [b]) (v + 1) s x = write_list c v (b :: s) x.
Proof.
  unfold write_list. destruct (Z.leb_spec (v + 1) x).
  - rewrite !(proj2 (Z.leb_le v x)) by lia.
    replace (Z.to_nat (x - v)) with (S (Z.to_nat (x - (v + 1)))) by lia. simpl. by destruct (s !! _).
  - destruct (Z.leb_spec v x); [|done]. by replace (Z.to_nat (x - v)) with 0%nat by lia.
Qed.

Lemma strings_kept c c' lo hi addrs ss :
  (forall v, lo <= v < hi -> c' v = c v) -> Forall2 (string_at c) addrs ss ->
  Forall2 (fun p s => lo <= p /\ p + Z.of_nat (length s) < hi) addrs ss -> Forall2 (string_at c') addrs ss.
Proof.
  intros Hk Hat Hrng. induction Hrng as [|p t addrs ss [Hp1 Hp2] Hrng IH]; [constructor|].
  inversion Hat as [|? ? ? ? [Ht1 Ht2] Hat']; subst. constructor; [|by apply IH]. split.
  - intros k b E. pose proof (lookup_lt_Some _ _ _ E). rewrite Hk by lia. by apply Ht1.
  - by rewrite Hk by lia.
Qed.

Definition stack_bottom : Z := USER_STACK_TOP - USER_STACK_SIZE.

(** The strings and the words that point to them fit on the stack. *)
Definition startup_fits (args envs : list (list Z)) : Prop :=
  (length args + length envs <= MAX_STRINGS)%nat /\
  strings_size (args ++ envs) + 8 * Z.of_nat (length args + length envs) + 56 <= USER_STACK_SIZE.

Lemma strings_size_in l s : s ∈ l -> Z.of_nat (length s) < strings_size l.
Proof.
  induction l as [|t l IH]; [by intros ?%elem_of_nil|]. pose proof (strings_size_nonneg l). cbn [strings_size foldr].
  fold (strings_size l). intros [->|Hs]%elem_of_cons; [lia|]. specialize (IH Hs). lia.
Qed.

Lemma land_not_15 x : is_u64 x -> Z.land x (not64 0xF) = 16 * (x / 16).
Proof. intros H. exact (land_not_mask x 4 H ltac:(lia)). Qed.

Lemma round16 x : 16 * (x / 16) <= x < 16 * (x / 16) + 16.
Proof. divlia. Qed.

Lemma stack_layout args envs :
  startup_fits args envs ->
  let n := Z.of_nat (length args + length envs) + 3 in
  let cursor := USER_STACK_TOP - strings_size (args ++ envs) in
  let rsp := 16 * ((16 * (cursor / 16) - 8 * n) / 16) in
  stack_bottom <= rsp /\ rsp + 8 * n <= 16 * (cursor / 16) <= cursor /\ cursor <= USER_STACK_TOP /\ rsp mod 16 = 0.
Proof.
  intros [_ Hfit] n cursor rsp. pose proof (strings_size_nonneg (args ++ envs)) as H0.
  assert (rsp mod 16 = 0) as Hm by (unfold rsp; rewrite Z.mul_comm; by apply Z_mod_mult).
  pose proof (round16 cursor) as H1. pose proof (round16 (16 * (cursor / 16) - 8 * n)) as H2. fold rsp in H2.
  unfold stack_bottom, USER_STACK_SIZE in *. set (q := 16 * (cursor / 16)) in *. clearbody q rsp.
  unfold n, cursor, USER_STACK_TOP in *. clear n cursor. split_and!; [lia..|done].
Qed.

(** What the words and strings on the stack say to the program. *)
Lemma startup_block_read c rsp args envs addrs :
  Forall2 (string_at c) addrs (args ++ envs) -> Forall (fun p => p <> 0) addrs -> Forall is_cstring (args ++ envs) ->
  startup_fits args envs ->
  words_at c rsp (Z.of_nat (length args) :: take (length args) addrs ++ 0 :: drop (length args) addrs ++ [0]) ->
  load64 c rsp = Z.of_nat (length args) /\ read_args c rsp = args /\ read_envs c rsp = envs.
Proof.
  intros Hat Hnz Hcs [Hn Hfit] [Hargc Hw]%words_at_cons. split; [done|].
  pose proof (Forall2_length _ _ _ Hat) as Hlen. rewrite length_app in Hlen.
  assert (Forall (fun s => Z.of_nat (length s) < USER_STACK_SIZE) (args ++ envs)) as Hl.
  { apply Forall_forall. intros s Hs. pose proof (strings_size_in _ _ Hs). lia. }
  rewrite <- (take_drop (length args) addrs) in Hat, Hnz.
  apply Forall2_app_inv in Hat as [Ha He]; [|rewrite length_take; lia].
  apply Forall_app in Hnz as [Na Ne]. apply Forall_app in Hcs as [Ca Ce]. apply Forall_app in Hl as [La Le].
  split.
  - exact (read_strings_at c (rsp + 8) (take (length args) addrs) (drop (length args) addrs ++ [0]) args Ha Na Ca Hw ltac:(lia) La).
  - unfold read_envs. rewrite Hargc. apply words_at_app in Hw as [_ Hw]. apply words_at_cons in Hw as [_ Hw].
    rewrite length_take in Hw. replace (length args `min` length addrs)%nat with (length args) in Hw by lia.
    exact (read_strings_at c _ (drop (length args) addrs) [] envs He Ne Ce Hw ltac:(lia) Le).
Qed.

(** ** Memory as a process sees it *)

(** Pages and the frames and rights behind them, over an address space [σ]. *)
Definition page_view (pages : gmap Z (Z * Z)) (σ : aspace) : aspace := fun v =>
  match pages !! (v / 4096) with
  | Some (f, fl) => Some (Size4KiB, f * 4096, fl)
  | None => σ v
  end.

Section View.
Context {G : Type} `{BG : BitFlags MF_ALL G} {A : Type} `{FA : FrameAllocator A}.
Context {off : Z} `{PM : !PageMapper G A off}.
Context (root : Z) (σ0 : aspace) (a0 : A) (m0 : mem).

(** The tables at [root] show [pages] over [σ0]; each page has a frame of its
    own, taken since the state [a0], [m0], that holds the bytes [c]; nothing
    else changed since. *)
Record image_at (pages : gmap Z (Z * Z)) (c : Z -> Z) (a : A) (m : mem) : Prop := {
  ia_inv : pm_inv a m root (page_view pages σ0);
  ia_kept : kept off (pm_table root) a0 m0 a m;
  ia_taken : forall p f fl, pages !! p = Some (f, fl) -> taken a0 a f;
  ia_private : forall p f fl x, pages !! p = Some (f, fl) -> in_frame off (f * 4096) x -> ~ pm_table root m x;
  ia_inj : forall p q f fl gl, pages !! p = Some (f, fl) -> pages !! q = Some (f, gl) -> p = q;
  ia_bytes : forall p f fl j, pages !! p = Some (f, fl) -> 0 <= j < 4096 -> m (off + f * 4096 + j) = c (p * 4096 + j);
}.

(** Writing to a frame that is in use and no table. *)
Lemma pm_inv_fill a m σ m' f :
  pm_inv a m root σ -> f ∉ fa_free a -> (forall x, in_frame off (f * 4096) x -> ~ pm_table root m x) ->
  (forall x, ~ in_frame off (f * 4096) x -> m' x = m x) ->
  pm_inv a m' root σ /\ forall x, pm_table root m' x -> pm_table root m x.
Proof using.
  intros Hi Hf Hnt Hout. destruct (pm_inv_fa _ _ _ _ Hi) as [Hfa Ho]. apply pm_inv_mem; [done| |].
  - intros x Hx. apply Hout. intros Hin. by apply (Hnt x).
  - apply (fa_inv_mem a m m' Hfa). intros g x Hg Hx. apply Hout. intros Hin.
    assert (g = f) as -> by (unfold in_frame, FRAME_SIZE in *; rewrite Ho in Hx; lia). done.
Qed.

Lemma kept_fill a m m' f :
  kept off (pm_table root) a0 m0 a m -> taken a0 a f -> (forall x, ~ in_frame off (f * 4096) x -> m' x = m x) ->
  (forall x, pm_table root m' x -> pm_table root m x) -> kept off (pm_table root) a0 m0 a m'.
Proof using.
  intros (H1 & H2 & H3) Hf Hout Ht. split_and!; [done|by intros x Hx; apply H2, Ht|].
  intros x Hx Hn. rewrite Hout by (by apply Hn). by apply H3.
Qed.

(** A write inside the frame of a page changes the bytes of that page. *)
Lemma image_write pages c a m p f fl m' c' :
  image_at pages c a m -> pages !! p = Some (f, fl) -> (forall x, ~ in_frame off (f * 4096) x -> m' x = m x) ->
  (forall j, 0 <= j < 4096 -> m' (off + f * 4096 + j) = c' (p * 4096 + j)) ->
  (forall v, v / 4096 <> p -> c' v = c v) -> image_at pages c' a m'.
Proof using.
  intros [Hi Hk Ht Hp Hj Hb] Ep Hout Hin Hc. pose proof (Ht p f fl Ep) as Htf.
  assert (f ∉ fa_free a) as Hf by (unfold taken in Htf; set_solver).
  destruct (pm_inv_fill a m _ m' f Hi Hf) as [Hi' Htab]; [intros x; by apply (Hp p f fl)|done|].
  constructor; [done|by apply (kept_fill a m m' f)|done| |done|].
  - intros q g gl x Eq Hx Htx. by apply (Hp q g gl x Eq Hx), Htab.
  - intros q g gl j Eq Hjr. destruct (decide (q = p)) as [->|Hne].
    + rewrite Ep in Eq. injection Eq as <- <-. by apply Hin.
    + rewrite Hout, Hc; [by apply (Hb q g gl)|clear -Hjr Hne; divlia|]. intros Hx.
      assert (g = f) as -> by (unfold in_frame in Hx; lia). by destruct Hne, (Hj q p f gl fl).
Qed.

(** Where the code finds a byte of a page. *)
Lemma image_translate pages c a m p f fl j :
  image_at pages c a m -> pages !! p = Some (f, fl) -> canonical (p * 4096 + j) -> 0 <= j < 4096 ->
  pm_translate_addr m root (p * 4096 + j) = Ret (Some (f * 4096 + j)).
Proof using.
  intros [Hi _ _ _ _ _] Ep Hc Hj.
  assert (page_view pages σ0 (p * 4096 + j) = Some (Size4KiB, f * 4096, fl)) as E.
  { unfold page_view. replace ((p * 4096 + j) / 4096) with p by (clear -Hj; divlia). by rewrite Ep. }
  rewrite (pm_translate_spec a m root _ _ Hi Hc), E; [|rewrite E; by apply Z_mod_mult]. simpl SIZE.
  replace ((p * 4096 + j) mod 4096) with j by (clear -Hj; divlia). done.
Qed.

(** A page that is mapped, before its frame is filled. *)
Lemma image_add pages c a m a1 a2 m2 page f fl :
  image_at pages c a m -> page mod 4096 = 0 -> pages !! (page / 4096) = None ->
  f ∈ fa_free a -> fa_free a1 = fa_free a ∖ {[f]} ->
  pm_inv a2 m2 root (set_pages Size4KiB page (Some (Size4KiB, f * 4096, fl)) (page_view pages σ0)) ->
  kept off (pm_table root) a1 m a2 m2 ->
  forall m3, (forall x, ~ in_frame off (f * 4096) x -> m3 x = m2 x) ->
  (forall j, 0 <= j < 4096 -> m3 (off + f * 4096 + j) = c (page + j)) ->
  image_at (<[page / 4096 := (f, fl)]> pages) c a2 m3.
Proof using.
  intros [Hi Hk Ht Hp Hj Hb] Hal Hnone Hf Hfree Hi2 Hk2 m3 Hout Hin. pose proof Hk2 as (Hs2 & Ht2 & Hm2).
  assert ((f ∉ fa_free a1) /\ fa_free a1 ⊆ fa_free a) as [Hf1 Hsub1] by (rewrite Hfree; set_solver).
  assert (f ∉ fa_free a2) as Hf2 by (clear -Hf1 Hs2; set_solver).
  assert (forall x, in_frame off (f * 4096) x -> ~ pm_table root m2 x) as Hnt.
  { intros x Hx Htx. destruct (Ht2 x Htx) as [Htx'|(g & Hg & Hx')]; [by apply (pm_inv_free _ _ _ _ _ _ Hi Htx' Hf)|].
    rewrite (in_frame_inj off f g x Hx Hx') in Hf1. unfold taken in Hg. clear -Hg Hf1. set_solver. }
  destruct (pm_inv_fill a2 m2 _ m3 f Hi2 Hf2 Hnt Hout) as [Hi3 Ht3].
  assert (kept off (pm_table root) a m a2 m2) as Hk2'.
  { split_and!; [by trans (fa_free a1)| |].
    - intros x Hx. destruct (Ht2 x Hx) as [?|(g & Hg & ?)]; [by left|right]. exists g. split; [by eapply taken_sub|done].
    - intros x Hx Hn. apply Hm2; [done|]. intros g Hg. apply Hn. by eapply taken_sub. }
  pose proof (kept_trans _ _ _ _ _ _ _ _ Hk Hk2') as Hk02. pose proof Hk as (Hs0 & _).
  assert (taken a0 a2 f) as Htf by (unfold taken; clear -Hf Hf2 Hs0; set_solver).
  assert (forall q g gl, pages !! q = Some (g, gl) -> g <> f) as Hgf.
  { intros q g gl Eq ->. specialize (Ht q f gl Eq). unfold taken in Ht. clear -Ht Hf. set_solver. }
  assert (forall q g gl x, pages !! q = Some (g, gl) -> in_frame off (g * 4096) x -> ~ pm_table root m2 x /\ m2 x = m x) as Hold.
  { intros q g gl x Eq Hx. assert (forall g', taken a1 a2 g' -> ~ in_frame off (g' * 4096) x) as Hng.
    { intros g' Hg' Hx'. rewrite <- (in_frame_inj off g g' x Hx Hx') in Hg'. specialize (Ht q g gl Eq).
      unfold taken in Ht, Hg'. clear -Ht Hg' Hsub1. set_solver. }
    split; [|apply Hm2; [by apply (Hp q g gl)|done]]. intros Htx.
    destruct (Ht2 x Htx) as [Htx'|(g' & Hg' & Hx')]; [by apply (Hp q g gl x Eq Hx)|by apply (Hng g')]. }
  constructor.
  - eapply pm_inv_same; [|exact Hi3]. intros v _. unfold set_pages, page_view. simpl SIZE.
    destruct (decide (v / 4096 = page / 4096)) as [->|Hne]; [by rewrite lookup_insert_eq|by rewrite lookup_insert_ne].
  - by apply (kept_fill a2 m2 m3 f).
  - intros q g gl [[<- [= <- <-]]|[Hne Eq]]%lookup_insert_Some; [done|].
    specialize (Ht q g gl Eq). by eapply taken_more; [|exact Ht]; trans (fa_free a1).
  - intros q g gl x [[<- [= <- <-]]|[Hne Eq]]%lookup_insert_Some Hx Htx; [by apply (Hnt x Hx), Ht3|].
    by apply (proj1 (Hold q g gl x Eq Hx)), Ht3.
  - intros q r g gl gl' [[<- E1]|[Hne Eq]]%lookup_insert_Some [[<- E2]|[Hne' Er]]%lookup_insert_Some; simplify_eq;
      [done|by destruct (Hgf r g gl')|by destruct (Hgf q g gl)|by apply (Hj q r g gl gl')].
  - intros q g gl j [[<- [= <- <-]]|[Hne Eq]]%lookup_insert_Some Hjr.
    + rewrite Hin by done. f_equal. clear -Hal. divlia.
    + assert (in_frame off (g * 4096) (off + g * 4096 + j)) as Hx by (unfold in_frame; lia).
      rewrite Hout; [rewrite (proj2 (Hold q g gl _ Eq Hx)); by apply (Hb q g gl)|].
      intros Hx'. by apply (Hgf q g gl Eq), (in_frame_inj off _ _ _ Hx Hx').
Qed.

(** *** Mapping a page *)
Section Mapping.
Context {W : Type} (self : AddressSpace W) (Hroot : as_root_phys self = root).
Context (Hlow : forall v, 0 <= v < 2 ^ 47 -> σ0 v = None).

(** The rights of a user page. *)
Definition user_rights (g : G) : Z := pm_flags (bf_union g MF_USER).

Lemma wp_map_fresh_page pages c a m vaddr (g : G) Q :
  image_at pages c a m -> vaddr mod 4096 = 0 -> 0 <= vaddr < 2 ^ 47 -> pages !! (vaddr / 4096) = None ->
  Z.testbit (bf_bits (bf_union g MF_USER)) 5 = false -> (4 <= size (fa_free a))%nat ->
  (forall a' m' f, VirtAddr_add off (f * 4096) = off + f * 4096 -> (size (fa_free a) <= size (fa_free a') + 4)%nat ->
    (forall m3, (forall x, ~ in_frame off (f * 4096) x -> m3 x = m' x) ->
       (forall j, 0 <= j < 4096 -> m3 (off + f * 4096 + j) = c (vaddr + j)) ->
       image_at (<[vaddr / 4096 := (f, user_rights g)]> pages) c a' m3) ->
    Q (a', m', f * 4096)) ->
  wp (map_fresh_page (PM := PM) self vaddr g a m) Q.
Proof using Hroot Hlow.
  intros Him Hal Hv Hnone Hg Hsz HQ. pose proof (ia_inv _ _ _ _ Him) as Hi.
  destruct (pm_inv_fa _ _ _ _ Hi) as [Hfa Ho]. assert (canonical vaddr) as Hc by (left; lia).
  unfold map_fresh_page. wp_step. eapply wp_mono; [by apply fa_allocate_spec|].
  intros [a1 [p|]] (Hfa1 & Ho1 & Hr); [|destruct Hr as [_ Hr]; rewrite Hr, size_empty in Hsz; lia].
  destruct Hr as (f & -> & Hf & Hfree). destruct (fa_frame_bound _ _ _ Hfa Hf) as (H0 & Hb & Hlo & Hhi).
  unfold FRAME_SIZE in *. rewrite Ho in *. pose proof (size_take_out _ _ Hf) as Hs1.
  assert (pm_inv a1 m root (page_view pages σ0)) as Hi1.
  { apply (pm_inv_alloc a); [done|done|by rewrite Ho1|]. rewrite Hfree. set_solver. }
  wp_step. apply (wp_expect _ (f * 4096)); [done|]. wp_step. rewrite VirtAddr_new_ok by done. wp_step. wp_step.
  apply wp_Page_containing_aligned; [done|done|]. unfold map_user_page. wp_step. wp_step. rewrite Hroot.
  eapply wp_mono; [apply (pm_map_spec a1 m root _ vaddr (f * 4096) _ Hi1)|]; try done.
  { unfold is_phys. lia. } { by apply Z_mod_mult. } { rewrite Hfree. lia. }
  { unfold page_view. rewrite Hnone. by apply Hlow. }
  intros [a2 m2] (Hi2 & Hsz2 & Hk). wp_step. wp_step. apply HQ.
  - apply VirtAddr_add_canonical. right. unfold U64 in *. lia.
  - rewrite Hfree in *. lia.
  - by apply (image_add pages c a m a1 a2 m2 vaddr f).
Qed.

(** [n] pages from page [lo] on were added with the rights [fl]. *)
Definition added (lo n fl : Z) (pages pages' : gmap Z (Z * Z)) : Prop := forall p,
  (lo <= p < lo + n -> snd <$> pages' !! p = Some fl) /\ (~ (lo <= p < lo + n) -> pages' !! p = pages !! p).

Lemma added_nil lo fl pages : added lo 0 fl pages pages.
Proof using. intros p. split; [lia|done]. Qed.

Lemma added_cons lo n fl f pages pages' :
  0 <= n -> added (lo + 1) n fl (<[lo := (f, fl)]> pages) pages' -> added lo (n + 1) fl pages pages'.
Proof using.
  intros Hn Ha p. destruct (Ha p) as [H1 H2]. split.
  - intros Hp. destruct (decide (p = lo)) as [->|]; [|apply H1; lia]. rewrite H2 by lia. by rewrite lookup_insert_eq.
  - intros Hp. rewrite H2 by lia. by rewrite lookup_insert_ne by lia.
Qed.

(** The loop over the pages of a segment. *)
Lemma wp_map_segment_pages seg (g : G) c n a m pages i :
  let q := es_vaddr seg / 4096 in
  image_at pages c a m -> Z.testbit (bf_bits (bf_union g MF_USER)) 5 = false ->
  contained seg -> 0 <= es_vaddr seg -> 0 <= i -> 4096 * (q + i + Z.of_nat n) <= 2 ^ 47 ->
  (forall p, q + i <= p < q + i + Z.of_nat n -> pages !! p = None) ->
  (forall v, q + i <= v / 4096 < q + i + Z.of_nat n -> c v = seg_byte seg v) ->
  (4 * n <= size (fa_free a))%nat ->
  wp (map_segment_pages (PM := PM) self seg g off (4096 * q) a m i n) (fun '(a', m') => exists pages',
    image_at pages' c a' m' /\ added (q + i) (Z.of_nat n) (user_rights g) pages pages' /\
    (size (fa_free a) <= size (fa_free a') + 4 * n)%nat).
Proof using Hroot Hlow.
  intros q Him Hg Hc H0. revert a m pages i Him. induction n as [|n IH]; intros a m pages i Him Hi Hb Hn Hcv Hsz;
    unfold map_segment_pages; fold (map_segment_pages (PM := PM) (W := W)).
  { wp_step. exists pages. split; [done|]. split; [apply added_nil|lia]. }
  assert (0 <= q) as Hq by (apply Z.div_pos; lia).
  do 2 wp_step. { unfold PAGE_SIZE; ulia. } do 2 wp_step. { unfold PAGE_SIZE; ulia. }
  change (i * PAGE_SIZE) with (i * 4096). replace (4096 * q + i * 4096) with ((q + i) * 4096) by lia.
  wp_step. apply (wp_map_fresh_page pages c); try done; [by apply Z_mod_mult|lia|rewrite Z.div_mul by lia; apply Hn; lia|lia|].
  rewrite Z.div_mul by lia. intros a1 m1 f Hadd Hs1 Hfill. cbv beta iota zeta. rewrite Hadd. wp_step.
  eapply wp_mono.
  { apply (wp_copy_segment_data seg ((q + i) * 4096)); [done|done|by apply Z_mod_mult|fold q; lia|].
    intros x Hx. unfold write_bytes, PAGE_SIZE. by zcases. }
  intros m2 [Hout Hin]. eapply wp_mono; [apply (IH a1 m2 (<[q + i := (f, user_rights g)]> pages) (i + 1))|]; try lia.
  - apply Hfill.
    + intros x Hx. unfold in_frame in Hx. rewrite Hout by lia. unfold write_bytes, PAGE_SIZE. by zcases.
    + intros j Hj. rewrite Hin by done. symmetry. apply Hcv. clear -Hj. divlia.
  - intros p Hp. rewrite lookup_insert_ne by lia. apply Hn. lia.
  - intros v Hv. apply Hcv. lia.
  - intros [a2 m2'] (pages' & Him' & Had & Hs2). exists pages'. split; [done|]. split; [|lia].
    rewrite Nat2Z.inj_succ, <- Z.add_1_r. apply (added_cons _ _ _ f); [lia|]. by rewrite Z.add_assoc in Had.
Qed.

Lemma segment_flags_plain f : Z.testbit (bf_bits (bf_union (segment_flags (G := G) f) MF_USER)) 5 = false.
Proof using.
  unfold segment_flags, MF_USER, MF_WRITABLE, MF_EXECUTABLE.
  destruct (sf_writable f), (sf_executable f); rewrite !bf_union_bits, !bf_retain_bits by done; reflexivity.
Qed.

Definition seg_rights (seg : ExecSegment) : Z := user_rights (segment_flags (es_flags seg)).

Lemma wp_map_segment seg c a m pages :
  image_at pages c a m -> segment_ok seg -> (forall p, covers seg p = true -> pages !! p = None) ->
  (forall v, covers seg (v / 4096) = true -> c v = seg_byte seg v) ->
  4 * seg_count seg <= Z.of_nat (size (fa_free a)) ->
  wp (map_segment (PM := PM) self seg off a m) (fun '(a', m') => exists pages',
    image_at pages' c a' m' /\ added (es_vaddr seg / 4096) (seg_count seg) (seg_rights seg) pages pages' /\
    Z.of_nat (size (fa_free a)) <= Z.of_nat (size (fa_free a')) + 4 * seg_count seg).
Proof using Hroot Hlow.
  intros Him Hok Hn Hcv Hsz. pose proof (seg_count_nonneg seg Hok) as Hc0. pose proof Hok as (Hc & H0 & Hm & Hl).
  assert (es_vaddr seg + es_memsz seg + 4095 < 2 ^ 48) as Hb by (unfold seg_last in Hl; divlia).
  unfold map_segment, PAGE_SIZE. do 2 wp_step. do 2 wp_step. cbv zeta.
  change (4096 - 1) with (2 ^ 12 - 1). rewrite !land_not_mask by ulia. change (2 ^ 12) with 4096.
  replace (es_vaddr seg + es_memsz seg + (4096 - 1)) with (es_vaddr seg + es_memsz seg + 4095) by lia. fold (seg_last seg).
  do 2 wp_step. { unfold seg_count in Hc0. lia. }
  replace ((4096 * seg_last seg - 4096 * (es_vaddr seg / 4096)) / 4096) with (seg_count seg)
    by (unfold seg_count; rewrite <- Z.mul_sub_distr_l, Z.mul_comm, Z.div_mul; lia).
  eapply wp_mono.
  { apply (wp_map_segment_pages seg _ c (Z.to_nat (seg_count seg)) a m pages 0); try done; rewrite ?Z2Nat.id, ?Z.add_0_r by lia.
    - apply segment_flags_plain.
    - unfold seg_count. lia.
    - intros p Hp. apply Hn. by apply covers_spec.
    - intros v Hv. apply Hcv. by apply covers_spec.
    - lia. }
  intros [a' m'] (pages' & Him' & Had & Hs). rewrite Z2Nat.id, Z.add_0_r in Had by lia.
  exists pages'. split; [done|]. split; [done|lia].
Qed.

(** All segments. *)
Lemma wp_map_segments segs c a m pages :
  image_at pages c a m -> Forall segment_ok segs -> apart segs ->
  (forall p s, s ∈ segs -> covers s p = true -> pages !! p = None) ->
  (forall v s, s ∈ segs -> covers s (v / 4096) = true -> c v = seg_byte s v) ->
  4 * total_pages segs <= Z.of_nat (size (fa_free a)) ->
  wp (map_segments (PM := PM) self segs off a m) (fun '(a', m') => exists pages',
    image_at pages' c a' m' /\
    (forall p, match seg_at segs p with
               | Some s => snd <$> pages' !! p = Some (seg_rights s)
               | None => pages' !! p = pages !! p
               end) /\
    Z.of_nat (size (fa_free a)) <= Z.of_nat (size (fa_free a')) + 4 * total_pages segs).
Proof using Hroot Hlow.
  revert a m pages. induction segs as [|s segs IH]; intros a m pages Him Hok Hap Hn Hcv Hsz; cbn [map_segments].
  { wp_step. exists pages. split; [done|]. split; [done|]. simpl. lia. }
  apply Forall_cons in Hok as [Hs Hok]. inversion Hap as [|? ? Hs' Hap']; subst. cbn [total_pages foldr] in *.
  fold (total_pages segs) in *. pose proof (total_pages_nonneg segs Hok) as Ht. pose proof (seg_count_nonneg s Hs) as Hc.
  wp_step. eapply wp_mono; [apply (wp_map_segment s c a m pages Him Hs); [|intros v Hv; by apply Hcv, Hv; set_solver|lia]|].
  { intros p Hp. apply (Hn p s); [set_solver|done]. }
  intros [a1 m1] (pages1 & Him1 & Had & Hs1). rewrite Forall_forall in Hs'.
  assert (forall p, covers s p = false -> pages1 !! p = pages !! p) as Hout.
  { intros p Hp. apply (Had p). intros Hin. apply covers_spec in Hin. congruence. }
  eapply wp_mono; [apply (IH a1 m1 pages1 Him1 Hok Hap')|]; [| |lia|].
  - intros p t Ht' Hp. destruct (covers s p) eqn:E; [by rewrite (Hs' t Ht' p E) in Hp|].
    rewrite Hout by done. apply (Hn p t); [set_solver|done].
  - intros v t Ht'. apply Hcv. set_solver.
  - intros [a2 m2] (pages2 & Him2 & Hp2 & Hs2). exists pages2. split; [done|]. split; [|lia].
    intros p. specialize (Hp2 p). unfold seg_at in *. cbn [List.find]. destruct (covers s p) eqn:E; [|].
    + destruct (List.find _ segs) as [t|] eqn:Ef.
      * apply List.find_some in Ef as [Hin Ht']. apply list_elem_of_In in Hin. by rewrite (Hs' t Hin p E) in Ht'.
      * rewrite Hp2. by apply (Had p), covers_spec.
    + destruct (List.find _ segs); [done|]. by rewrite Hp2, Hout.
Qed.

Lemma wp_map_stack_pages (g : G) c n a m pages q i :
  image_at pages c a m -> Z.testbit (bf_bits (bf_union g MF_USER)) 5 = false ->
  0 <= q -> 0 <= i -> 4096 * (q + i + Z.of_nat n) <= 2 ^ 47 ->
  (forall p, q + i <= p < q + i + Z.of_nat n -> pages !! p = None) ->
  (forall v, q + i <= v / 4096 < q + i + Z.of_nat n -> c v = 0) -> (4 * n <= size (fa_free a))%nat ->
  wp (map_stack_pages (PM := PM) self g off (4096 * q) a m i n) (fun '(a', m') => exists pages',
    image_at pages' c a' m' /\ added (q + i) (Z.of_nat n) (user_rights g) pages pages' /\
    (size (fa_free a) <= size (fa_free a') + 4 * n)%nat).
Proof using Hroot Hlow.
  intros Him Hg Hq. revert a m pages i Him. induction n as [|n IH]; intros a m pages i Him Hi Hb Hn Hcv Hsz;
    unfold map_stack_pages; fold (map_stack_pages (PM := PM) (W := W)).
  { wp_step. exists pages. split; [done|]. split; [apply added_nil|lia]. }
  do 2 wp_step. { unfold PAGE_SIZE; ulia. } do 2 wp_step. { unfold PAGE_SIZE; ulia. }
  change (i * PAGE_SIZE) with (i * 4096). replace (4096 * q + i * 4096) with ((q + i) * 4096) by lia.
  wp_step. apply (wp_map_fresh_page pages c); try done; [by apply Z_mod_mult|lia|rewrite Z.div_mul by lia; apply Hn; lia|lia|].
  rewrite Z.div_mul by lia. intros a1 m1 f Hadd Hs1 Hfill. cbv beta iota zeta. rewrite Hadd.
  eapply wp_mono; [apply (IH a1 _ (<[q + i := (f, user_rights g)]> pages) (i + 1))|]; try lia.
  - apply Hfill; unfold write_bytes, PAGE_SIZE.
    + intros x Hx. unfold in_frame in Hx. by zcases.
    + intros j Hj. rewrite Hcv by (clear -Hj; divlia). by zcases.
  - intros p Hp. rewrite lookup_insert_ne by lia. apply Hn. lia.
  - intros v Hv. apply Hcv. lia.
  - intros [a2 m2'] (pages' & Him' & Had & Hs2). exists pages'. split; [done|]. split; [|lia].
    rewrite Nat2Z.inj_succ, <- Z.add_1_r. apply (added_cons _ _ _ f); [lia|]. by rewrite Z.add_assoc in Had.
Qed.

Definition stack_rights : Z := user_rights (bf_union MF_WRITABLE MF_USER).
Definition trampoline_rights : Z := user_rights (bf_union MF_USER MF_EXECUTABLE).

Lemma wp_map_user_stack c a m pages :
  image_at pages c a m -> (forall p, on_stack p = true -> pages !! p = None) ->
  (forall v, on_stack (v / 4096) = true -> c v = 0) -> (64 <= size (fa_free a))%nat ->
  wp (map_user_stack (PM := PM) self off a m) (fun '(a', m') => exists pages',
    image_at pages' c a' m' /\ added stack_page stack_count stack_rights pages pages' /\
    (size (fa_free a) <= size (fa_free a') + 64)%nat).
Proof using Hroot Hlow.
  intros Him Hn Hcv Hsz. unfold map_user_stack. do 2 wp_step. { done. }
  change (USER_STACK_TOP - USER_STACK_SIZE) with (4096 * stack_page).
  change (Z.to_nat (USER_STACK_SIZE / PAGE_SIZE)) with 16%nat.
  assert (forall p, stack_page + 0 <= p < stack_page + 0 + Z.of_nat 16 -> on_stack p = true) as Hon.
  { intros p Hp. unfold on_stack. change stack_count with 16. rewrite (proj2 (Z.leb_le _ _)), (proj2 (Z.ltb_lt _ _)) by lia. done. }
  eapply wp_mono; [apply (wp_map_stack_pages _ c 16 a m pages stack_page 0); try done|].
  - unfold MF_USER, MF_WRITABLE. by rewrite !bf_union_bits, !bf_retain_bits by done.
  - intros p Hp. by apply Hn, Hon.
  - intros v Hv. by apply Hcv, Hon.
  - intros [a' m'] (pages' & Him' & Had & Hs). exists pages'. split; [done|]. split; [|lia]. by rewrite Z.add_0_r in Had.
Qed.

Lemma wp_map_sigreturn_trampoline c a m pages :
  image_at pages c a m -> pages !! trampoline_page = None ->
  (forall v, v / 4096 = trampoline_page -> c v = stub_byte v) -> (4 <= size (fa_free a))%nat ->
  wp (map_sigreturn_trampoline (PM := PM) self off a m) (fun '(a', m') => exists f,
    image_at (<[trampoline_page := (f, trampoline_rights)]> pages) c a' m' /\
    (size (fa_free a) <= size (fa_free a') + 4)%nat).
Proof using Hroot Hlow.
  intros Him Hn Hcv Hsz. unfold map_sigreturn_trampoline. wp_step.
  apply (wp_map_fresh_page pages c); try done.
  { unfold MF_USER, MF_EXECUTABLE. by rewrite !bf_union_bits, !bf_retain_bits by done. }
  intros a1 m1 f Hadd Hs1 Hfill. cbv beta iota zeta. rewrite Hadd. wp_step. exists f. split; [|done]. apply Hfill.
  - intros x Hx. unfold in_frame in Hx. rewrite write_list_out by (simpl; lia). unfold write_bytes, PAGE_SIZE. by zcases.
  - intros j Hj. rewrite Hcv by (unfold trampoline_page; clear -Hj; change SIGRETURN_TRAMPOLINE_ADDR with (0x7FFFFFFE0 * 4096); divlia).
    unfold stub_byte. replace (SIGRETURN_TRAMPOLINE_ADDR + j - SIGRETURN_TRAMPOLINE_ADDR) with j by lia.
    unfold write_list. rewrite (proj2 (Z.leb_le _ _)) by lia.
    replace (off + f * 4096 + j - (off + f * 4096)) with j by lia. destruct (sigreturn_stub !! Z.to_nat j); [done|].
    simpl. unfold write_bytes, PAGE_SIZE. by zcases.
Qed.

(** *** Writing to a mapped page *)

Lemma image_store pages c a m p f fl j n x :
  image_at pages c a m -> pages !! p = Some (f, fl) -> 0 <= j -> j + Z.of_nat n <= 4096 ->
  image_at pages (patch c (p * 4096 + j) (Z.of_nat n) x) a (store n m (off + f * 4096 + j) x).
Proof using.
  intros Him Ep Hj Hn. apply (image_write pages c a m p f fl); [done|done| | |].
  - intros y Hy. apply (store_changed n m (off + f * 4096 + j) x). unfold in_frame in Hy. lia.
  - intros k Hk. unfold store, patch. rewrite <- (ia_bytes _ _ _ _ Him p f fl k Ep Hk).
    replace (off + f * 4096 + j <=? off + f * 4096 + k) with (p * 4096 + j <=? p * 4096 + k) by (zcases; done).
    replace (off + f * 4096 + k <? off + f * 4096 + j + Z.of_nat n) with (p * 4096 + k <? p * 4096 + j + Z.of_nat n)
      by (zcases; done).
    by replace (p * 4096 + k - (p * 4096 + j)) with (off + f * 4096 + k - (off + f * 4096 + j)) by lia.
  - intros v Hv. unfold patch. destruct (_ && _) eqn:E; [|done].
    apply andb_true_iff in E as [E1%Z.leb_le E2%Z.ltb_lt]. exfalso. apply Hv. clear -E1 E2 Hj Hn. divlia.
Qed.

End Mapping.

Section Writes.
Context {W : Type} (self : AddressSpace W) (Hroot : as_root_phys self = root).
Context (Hfa0 : fa_inv a0 m0) (Ho0 : fa_offset a0 = off).

(** The frames behind pages are reached through the direct map. *)
Lemma image_pointer pages c a m p f fl j :
  image_at pages c a m -> pages !! p = Some (f, fl) -> 0 <= j < 4096 ->
  VirtAddr_add off (f * 4096 + j) = off + f * 4096 + j.
Proof using Hfa0 Ho0.
  intros Him Ep Hj. pose proof (ia_taken _ _ _ _ Him p f fl Ep) as Ht. unfold taken in Ht.
  destruct (fa_frame_bound a0 m0 f Hfa0) as (H0 & Hb & Hlo & Hhi); [clear -Ht; set_solver|]. unfold FRAME_SIZE in Hb, Hlo, Hhi.
  rewrite Ho0 in Hlo, Hhi.
  clear -Hj H0 Hb Hlo Hhi. rewrite VirtAddr_add_canonical; [lia|]. right. unfold U64 in *. lia.
Qed.

(** A write of [n] bytes inside a mapped page. *)
Definition place_ok (pages : gmap Z (Z * Z)) (place n : Z) : Prop :=
  canonical place /\ is_Some (pages !! (place / 4096)) /\ place mod 4096 + n <= 4096.

Lemma place_cases pages place n :
  place_ok pages place n -> exists p f fl j, place = p * 4096 + j /\ 0 <= j /\ j + n <= 4096 /\
    pages !! p = Some (f, fl) /\ canonical (p * 4096 + j).
Proof using.
  intros (Hc & [[f fl] E] & Hn). exists (place / 4096), f, fl, (place mod 4096).
  assert (place = place / 4096 * 4096 + place mod 4096) as Ep by divlia.
  split; [done|]. split; [divlia|]. split; [done|]. split; [done|]. by rewrite <- Ep.
Qed.

Lemma wp_write_reloc_value pages c a m place v :
  image_at pages c a m -> place_ok pages place (width v) ->
  wp (write_reloc_value (PM := PM) self place v off m) (fun '(m', r) =>
    r = Ok tt /\ image_at pages (relocate c (place, v)) a m').
Proof using Hroot Hfa0 Ho0.
  intros Him (p & f & fl & j & -> & Hj & Hn & Ep & Hc)%place_cases. unfold write_reloc_value.
  assert (j < 4096) by (destruct v; simpl in Hn; lia).
  rewrite VirtAddr_new_ok by done. unfold as_translate. rewrite Hroot. do 2 wp_step. wp_step.
  rewrite (image_translate pages c a m p f fl) by (done || lia). wp_step. cbv zeta.
  rewrite (image_pointer pages c a m p f fl) by (done || lia).
  destruct v as [x|x]; wp_step; (split; [done|]); unfold relocate; simpl width in *; simpl payload.
  - by apply (image_store pages c a m p f fl j 4).
  - by apply (image_store pages c a m p f fl j 8).
Qed.

(** *** Relocating *)
Section Relocate.
Context (data : list Z) (h : Elf64Header) (Hfile : is_file data) (Hv : valid_elf data h) (base : Z).

Let elf : ElfFile := mkElfFile data h.

(** A relocation that resolves, inside one mapped page. *)
Definition reloc_ok (pages : gmap Z (Z * Z)) (rela : Elf64Rela) : Prop :=
  exists r, reloc_of data h base rela = Some r /\ place_ok pages r.1 (width r.2).

(** The relocations applied one after the other. *)
Definition relocations (c : Z -> Z) (relas : list Elf64Rela) : Z -> Z :=
  foldl relocate c (omap (reloc_of data h base) relas).

Lemma find_in {B} (q : B -> bool) l x : List.find q l = Some x -> x ∈ l /\ q x = true.
Proof using. intros [H1 H2]%List.find_some. split; [by apply list_elem_of_In|done]. Qed.

Lemma section_list_ok s : s ∈ section_list data h -> section_ok s.
Proof using Hfile. unfold section_list. intros (i & -> & _)%list_elem_of_fmap. by apply section_at_ok. Qed.

Lemma symtab_ok s : symtab_of data h = Some s -> section_ok s.
Proof using Hfile.
  unfold symtab_of. intros E. apply section_list_ok.
  destruct (List.find (fun s => sh_type s =? SHT_DYNSYM) _) as [t|] eqn:Ed.
  - injection E as ->. by apply find_in in Ed as [? _].
  - by apply find_in in E as [? _].
Qed.

Lemma resolve_symbol_eq n x :
  0 <= n -> symbol_of data h n base = Some x ->
  resolve_symbol elf (symtab_of data h) n base = Ret (Ok x).
Proof using Hfile.
  intros Hn. unfold symbol_of, resolve_symbol. destruct (n =? 0); [by intros [= <-]|].
  destruct (symtab_of data h) as [s|] eqn:Es; [|done]. pose proof (symtab_ok s Es) as Hs. simpl.
  unfold elf. rewrite section_entries_eq by done. cbn [mbind exec_bind].
  destruct (entries_of sym_at data s !! Z.to_nat n) as [sym|] eqn:El; [|done]. simpl.
  destruct (in_file data s) eqn:Ei; [|unfold entries_of in El; by rewrite Ei in El].
  rewrite (symbol_lookup data Hfile s) by done. cbn [mbind exec_bind]. rewrite El.
  destruct (st_shndx sym =? SHN_UNDEF); [done|]. simpl. destruct (Z.leb_spec U64 (st_value sym + base)); [done|].
  intros [= <-]. by rewrite add64_ok.
Qed.

Lemma wp_apply_rela pages c a m rela r :
  image_at pages c a m -> 0 <= r_sym rela -> reloc_of data h base rela = Some r -> place_ok pages r.1 (width r.2) ->
  wp (apply_rela (PM := PM) self elf (symtab_of data h) base off rela m) (fun '(m', e) =>
    e = Ok tt /\ image_at pages (relocate c r) a m').
Proof using Hroot Hfa0 Ho0 Hfile.
  intros Him Hs. unfold reloc_of. destruct (symbol_of data h (r_sym rela) base) as [x|] eqn:Ex; [|done]. simpl.
  destruct (Z.leb_spec U64 (base + r_offset rela)); [done|]. intros Hr Hp. unfold apply_rela.
  rewrite (resolve_symbol_eq _ _ Hs Ex). do 4 wp_step.
  destruct (compute_x86_64_reloc _ _ _ _) as [[o v]|e]; [|done]. injection Hr as <-.
  by apply wp_write_reloc_value.
Qed.

Lemma rela_at_sym o : 0 <= r_sym (rela_at data o).
Proof using Hfile. simpl. pose proof (field_range 8 data (o + 8) (proj1 Hfile)). apply Z.div_pos; lia. Qed.

(** The entries of a section, from an offset on. *)
Definition relas_from (o e : Z) : list Elf64Rela := (fun i => rela_at data (o + 24 * i)) <$> seqZ 0 ((e - o) / 24).

Lemma relas_from_cons o e : o + 24 <= e -> relas_from o e = rela_at data o :: relas_from (o + 24) e.
Proof using.
  intros H. unfold relas_from. rewrite seqZ_cons by divlia. rewrite fmap_cons, Z.mul_0_r, Z.add_0_r. f_equal.
  replace (Z.pred ((e - o) / 24)) with ((e - (o + 24)) / 24) by divlia.
  change (Z.succ 0) with (1 + 0). rewrite <- fmap_add_seqZ, <- list_fmap_compose. apply list_fmap_ext.
  intros i x _. simpl. f_equal. lia.
Qed.

Lemma wp_apply_relas pages a fuel : forall o e c m,
  image_at pages c a m -> 0 <= o <= e -> e <= Z.of_nat (length data) -> (e - o) / 24 < Z.of_nat fuel ->
  Forall (reloc_ok pages) (relas_from o e) ->
  wp (apply_relas (PM := PM) self elf (symtab_of data h) base off fuel (mkEntryIter data o e) m) (fun '(m', r) =>
    r = Ok tt /\ image_at pages (relocations c (relas_from o e)) a m').
Proof using Hroot Hfa0 Ho0 Hfile.
  induction fuel as [|fuel IH]; intros o e c m Him Ho He Hf Hok; [divlia|].
  cbn [apply_relas]. rewrite (RelaIter_next_eq data Hfile) by lia. wp_step. wp_step.
  destruct (Z.leb_spec (o + 24) e) as [Hle|Hgt].
  - rewrite relas_from_cons in * by done. apply Forall_cons in Hok as [(r & Hr & Hp) Hok].
    wp_step. eapply wp_mono; [apply (wp_apply_rela pages c a m _ r Him); try done; apply rela_at_sym|].
    intros [m1 u] [-> Him1]. cbv beta iota. eapply wp_mono; [apply (IH (o + 24) e _ m1 Him1); try done; try lia; divlia|].
    intros [m2 u] [-> Him2]. split; [done|]. unfold relocations in *. cbn [omap list_omap]. by rewrite Hr.
  - wp_step. split; [done|]. unfold relas_from. by replace ((e - o) / 24) with 0 by divlia.
Qed.

Lemma relas_from_entries s :
  in_file data s = true -> relas_from (sh_offset s) (sh_offset s + sh_size s) = entries_of rela_at data s.
Proof using.
  intros E. unfold relas_from, entries_of. rewrite E.
  by replace (sh_offset s + sh_size s - sh_offset s) with (sh_size s) by lia.
Qed.

Lemma relocations_app c l1 l2 : relocations c (l1 ++ l2) = relocations (relocations c l1) l2.
Proof using. unfold relocations. by rewrite omap_app, foldl_app. Qed.

Lemma relas_of_cons s l :
  relas_of data (s :: l) = (if sh_type s =? SHT_RELA then entries_of rela_at data s else []) ++ relas_of data l.
Proof using. done. Qed.

(** One step of the loop over the sections. *)
Lemma apply_sections_S symtab fuel it m :
  apply_sections (PM := PM) self elf symtab base off (S fuel) it m =
  '(it, o) ← SectionIter_next it;
  match o with
  | None => Ret (m, Ok tt)
  | Some shdr =>
      if sh_type shdr =? SHT_RELA then
        entries ← section_entries elf shdr;
        match entries with
        | None => apply_sections (PM := PM) self elf symtab base off fuel it m
        | Some relas =>
            '(m, r) ← apply_relas (PM := PM) self elf symtab base off (rela_fuel relas) relas m;
            match r with
            | Err e => Ret (m, Err e)
            | Ok _ => apply_sections (PM := PM) self elf symtab base off fuel it m
            end
        end
      else apply_sections (PM := PM) self elf symtab base off fuel it m
  end.
Proof using. done. Qed.

Lemma wp_apply_sections pages a n : forall i c m,
  image_at pages c a m -> 0 <= i -> i + Z.of_nat n = e_shnum h ->
  Forall (reloc_ok pages) (relas_of data (section_at data h <$> seqZ i (Z.of_nat n))) ->
  wp (apply_sections (PM := PM) self elf (symtab_of data h) base off (S n) (iter_at data h i) m) (fun '(m', r) =>
    r = Ok tt /\ image_at pages (relocations c (relas_of data (section_at data h <$> seqZ i (Z.of_nat n)))) a m').
Proof using Hroot Hfa0 Ho0 Hfile Hv.
  induction n as [|n IH]; intros i c m Him Hi Hn Hok.
  { cbn [apply_sections]. rewrite SectionIter_next_eq by (done || lia). rewrite (proj2 (Z.ltb_ge _ _)) by lia.
    do 3 wp_step. done. }
  assert (exists s l, s = section_at data h i /\ l = section_at data h <$> seqZ (i + 1) (Z.of_nat n) /\
    section_at data h <$> seqZ i (Z.of_nat (S n)) = s :: l) as (s & l & Es & El & E).
  { eexists _, _. split; [done|]. split; [done|]. rewrite seqZ_cons, fmap_cons by lia. do 3 f_equal; lia. }
  rewrite E in *. rewrite relas_of_cons in *. apply Forall_app in Hok as [Hok1 Hok2]. rewrite relocations_app.
  rewrite apply_sections_S, SectionIter_next_eq by (done || lia). rewrite (proj2 (Z.ltb_lt _ _)) by lia.
  do 2 wp_step. cbv beta iota. rewrite <- Es. pose proof (section_at_ok data h Hfile i) as Hs. rewrite <- Es in Hs. subst l.
  destruct (sh_type s =? SHT_RELA); [|by apply IH; [|lia|lia|]].
  unfold elf. rewrite section_entries_eq by done. do 2 wp_step. fold elf.
  destruct (in_file data s) eqn:Ei.
  2:{ assert (entries_of rela_at data s = []) as -> by (unfold entries_of; by rewrite Ei). by apply IH; [|lia|lia|]. }
  rewrite <- relas_from_entries in * by done. destruct Hs as [Hs1 Hs2]. unfold is_u64 in Hs1, Hs2.
  pose proof Ei as Ei'. unfold in_file in Ei'. apply Z.leb_le in Ei'.
  wp_step. eapply wp_mono; [apply (wp_apply_relas pages a _ _ _ c m Him); try done; try lia|].
  { unfold rela_fuel, ELF64_RELA_SIZE. simpl ei_end. simpl ei_offset. rewrite Nat2Z.inj_succ, Z2Nat.id; [lia|]. clear -Hs2. divlia. }
  intros [m1 u] [-> Him1]. cbv beta iota. by apply IH; [|lia|lia|].
Qed.

Lemma find_symtab :
  (d ← find_section_by_type elf SHT_DYNSYM;
   match d with Some s => Ret (Some s) | None => find_section_by_type elf SHT_SYMTAB end) = Ret (symtab_of data h).
Proof using Hfile Hv.
  unfold elf, symtab_of. rewrite !find_section_by_type_eq by done. cbn [mbind exec_bind].
  by destruct (List.find _ _).
Qed.

Lemma wp_apply_dyn_relocations pages c a m :
  image_at pages c a m -> Forall (reloc_ok pages) (relas_of data (section_list data h)) ->
  wp (apply_dyn_relocations (PM := PM) self elf base off m) (fun '(m', r) =>
    r = Ok tt /\ image_at pages (relocations c (relas_of data (section_list data h))) a m').
Proof using Hroot Hfa0 Ho0 Hfile Hv.
  intros Him Hok. unfold apply_dyn_relocations. destruct (valid_ranges data h Hfile Hv) as (_ & _ & _ & _ & _ & Hn & _).
  pose proof find_symtab as Hsym. destruct (find_section_by_type elf SHT_DYNSYM) as [d|]; [|done].
  cbn [mbind exec_bind] in Hsym |- *. rewrite Hsym. wp_step. wp_step. change (sections elf) with (iter_at data h 0).
  unfold section_list in *. unfold elf. cbn [elf_header]. fold elf.
  rewrite <- (Z2Nat.id (e_shnum h)) in Hok |- * by lia.
  rewrite (Nat2Z.id (Z.to_nat (e_shnum h))). apply wp_apply_sections; [done|done|lia|done].
Qed.
End Relocate.

(** *** Arguments and environment *)

Lemma image_ext pages c c' a m : (forall v, c v = c' v) -> image_at pages c a m -> image_at pages c' a m.
Proof using. intros E [H1 H2 H3 H4 H5 H6]. constructor; try done. intros. rewrite <- E. by apply (H6 p f fl). Qed.

(** Every byte of the range is mapped. *)
Definition range_ok_at (pages : gmap Z (Z * Z)) (lo hi : Z) : Prop := forall v, lo <= v < hi -> place_ok pages v 1.

Lemma wp_user_store pages c a m v n x (k : mem -> exec (mem * result unit BinaryError)) Q :
  image_at pages c a m -> place_ok pages v (Z.of_nat n) -> (0 < n)%nat ->
  (forall m', image_at pages (store n c v x) a m' -> wp (k m') Q) ->
  wp (virt ← VirtAddr_new v;
      p ← as_translate (off := off) (PM := PM) self m virt;
      match p with
      | None => Ret (m, Err ParseError)
      | Some phys => k (store n m (VirtAddr_add off phys) x)
      end) Q.
Proof using Hroot Hfa0 Ho0.
  intros Him (p & f & fl & j & -> & Hj & Hn & Ep & Hc)%place_cases H0 HQ.
  rewrite VirtAddr_new_ok by done. unfold as_translate. rewrite Hroot. do 3 wp_step.
  rewrite (image_translate pages c a m p f fl) by (done || lia). wp_step.
  rewrite (image_pointer pages c a m p f fl) by (done || lia). apply HQ. by apply (image_store pages c a m p f fl j n).
Qed.

Lemma wp_write_bytes_from pages a s : forall vaddr j c m,
  image_at pages c a m -> Forall is_byte s -> range_ok_at pages (vaddr + j) (vaddr + j + Z.of_nat (length s)) ->
  vaddr + j + Z.of_nat (length s) < U64 ->
  wp (write_bytes_from (PM := PM) self vaddr j s off m) (fun '(m', r) =>
    r = Ok tt /\ image_at pages (write_list c (vaddr + j) s) a m').
Proof using Hroot Hfa0 Ho0.
  induction s as [|b s IH]; intros vaddr j c m Him Hs Hr Hu; cbn [write_bytes_from].
  { wp_step. split; [done|]. eapply image_ext; [|exact Him]. intros v. unfold write_list. by destruct (_ <=? _). }
  apply Forall_cons in Hs as [Hb Hs]. cbn [length] in *. rewrite add64_ok by lia. wp_step. wp_step.
  apply (wp_user_store pages c a m); [done|apply Hr; lia|lia|]. intros m1 Him1.
  eapply wp_mono; [apply (IH vaddr (j + 1) _ m1 Him1); [done| |lia]|].
  - intros v Hv. apply Hr. lia.
  - intros [m2 r] [-> Him2]. split; [done|]. eapply image_ext; [|exact Him2]. intros v.
    rewrite Z.add_assoc, <- write_list_cons. unfold write_list at 1 3. by rewrite store_byte.
Qed.

(** The strings lie in the range given to them, apart from each other. *)
Lemma wp_write_strings pages a strings : forall cursor c m,
  image_at pages c a m -> Forall is_cstring strings -> 0 < cursor - strings_size strings -> cursor < U64 ->
  range_ok_at pages (cursor - strings_size strings) cursor ->
  (forall v, cursor - strings_size strings <= v < cursor -> c v = 0) ->
  wp (write_strings (PM := PM) self strings off cursor m) (fun '(m', r) => exists addrs c',
    r = Ok (cursor - strings_size strings, addrs) /\ image_at pages c' a m' /\
    (forall v, ~ (cursor - strings_size strings <= v < cursor) -> c' v = c v) /\
    Forall2 (string_at c') addrs strings /\
    Forall2 (fun p s => cursor - strings_size strings <= p /\ p + Z.of_nat (length s) < cursor) addrs strings).
Proof using Hroot Hfa0 Ho0.
  induction strings as [|s strings IH]; intros cursor c m Him Hs Hlo Hu Hr Hz; cbn [write_strings strings_size foldr] in *.
  { wp_step. exists [], c. rewrite Z.sub_0_r. by split_and!. }
  fold (strings_size strings) in *. pose proof (strings_size_nonneg strings) as H0.
  apply Forall_cons in Hs as [Hs1 Hs]. set (lo := cursor - strings_size strings) in *.
  wp_step. eapply wp_mono; [apply (IH cursor c m Him Hs); [lia|done| |]|].
  { intros v Hv. apply Hr. lia. } { intros v Hv. apply Hz. lia. }
  intros [m1 r] (addrs & c1 & -> & Him1 & Hout & Hat & Hrng). fold lo. cbv beta iota.
  wp_step. apply wp_sub64; [lia|]. set (cur := lo - (Z.of_nat (length s) + 1)).
  replace (cursor - (Z.of_nat (length s) + 1 + strings_size strings)) with cur in * by (unfold cur, lo; lia).
  assert (cur + Z.of_nat (length s) + 1 = lo) as Ecur by (unfold cur; lia). clearbody cur.
  assert (Forall is_byte s) as Hbytes by (eapply Forall_impl; [exact Hs1|]; by intros b []).
  wp_step. unfold write_string_bytes.
  eapply wp_mono; [apply (wp_write_bytes_from pages a s cur 0 c1 m1 Him1 Hbytes)|].
  { intros v Hv. apply Hr. lia. } { lia. }
  intros [m2 r] [-> Him2]. rewrite Z.add_0_r in Him2. cbv beta iota. wp_step.
  exists (cur :: addrs), (write_list c1 cur s). split; [done|]. split; [done|].
  assert (forall v, lo <= v < cursor -> write_list c1 cur s v = c1 v) as Hkeep by (intros v Hv; apply write_list_out; lia).
  split; [|split].
  - intros v Hv. rewrite write_list_out by lia. apply Hout. lia.
  - constructor.
    + split.
      * intros k b Hk. apply (inj Some). pose proof (lookup_lt_Some _ _ _ Hk). rewrite write_list_in by lia.
        rewrite <- Hk. f_equal. lia.
      * rewrite write_list_out by lia. rewrite Hout by lia. apply Hz. lia.
    + by apply (strings_kept c1 _ lo cursor).
  - constructor; [lia|]. eapply Forall2_impl; [exact Hrng|]. intros p t [Hp1 Hp2]. lia.
Qed.

Lemma range_word pages lo hi v :
  range_ok_at pages lo hi -> lo <= v -> v + 8 <= hi -> v mod 8 = 0 -> place_ok pages v (Z.of_nat 8).
Proof using.
  intros Hr H1 H2 H8. destruct (Hr v ltac:(lia)) as (Hc & Hp & _). split; [done|]. split; [done|]. clear -H8. divlia.
Qed.

Lemma wp_write_usize_to_user pages a pos w c m :
  image_at pages c a m -> place_ok pages pos (Z.of_nat 8) ->
  wp (write_usize_to_user (PM := PM) self pos w off m) (fun '(m', r) => r = Ok tt /\ image_at pages (store64 c pos w) a m').
Proof using Hroot Hfa0 Ho0.
  intros Him Hp. unfold write_usize_to_user.
  apply (wp_user_store pages c a m pos 8 w (fun m' => Ret (m', Ok tt))); [done|done|lia|]. intros m' Him'. by wp_step.
Qed.

Lemma wp_write_words pages a ws : forall pos c m,
  image_at pages c a m -> range_ok_at pages pos (pos + 8 * Z.of_nat (length ws)) -> pos mod 8 = 0 ->
  Forall is_u64 ws -> pos + 8 * Z.of_nat (length ws) < U64 ->
  wp (write_words (PM := PM) self ws pos off m) (fun '(m', r) => exists c',
    r = Ok (pos + 8 * Z.of_nat (length ws)) /\ image_at pages c' a m' /\
    (forall v, ~ (pos <= v < pos + 8 * Z.of_nat (length ws)) -> c' v = c v) /\ words_at c' pos ws).
Proof using Hroot Hfa0 Ho0.
  induction ws as [|w ws IH]; intros pos c m Him Hr H8 Hw Hu; cbn [write_words length] in *.
  { wp_step. exists c. rewrite Z.add_0_r. by split_and!. }
  apply Forall_cons in Hw as [Hw1 Hw]. wp_step.
  eapply wp_mono; [apply (wp_write_usize_to_user pages a pos w c m Him); eapply range_word; [exact Hr|lia|lia|done]|].
  intros [m1 r] [-> Him1]. cbv beta iota. wp_step. apply wp_add64; [lia|].
  eapply wp_mono; [apply (IH (pos + 8) _ m1 Him1)|]; [| |done|lia|].
  - intros v Hv. apply Hr. lia.
  - clear -H8. divlia.
  - intros [m2 r] (c2 & -> & Him2 & Hout & Hat). exists c2. split; [f_equal; lia|]. split; [done|]. split.
    + intros v Hv. rewrite Hout by lia. apply (store_changed 8 c pos w). lia.
    + intros [|k] x E; simpl in E.
      * injection E as <-. rewrite Z.mul_0_r, Z.add_0_r. rewrite <- (load64_store64_eq c pos w) by done.
        apply load_ext. intros v Hv. apply Hout. lia.
      * replace (pos + 8 * Z.of_nat (S k)) with (pos + 8 + 8 * Z.of_nat k) by lia. by apply Hat.
Qed.

Lemma words_at_snoc c v ws w : words_at c v ws -> load64 c (v + 8 * Z.of_nat (length ws)) = w -> words_at c v (ws ++ [w]).
Proof using.
  intros Hw E k x [Hk|[Hk Hx]]%lookup_app_Some; [by apply Hw|]. apply list_lookup_singleton_Some in Hx as [Hx ->].
  by replace k with (length ws) by (clear -Hk Hx; lia).
Qed.

(** The program finds its arguments and environment. *)
Lemma wp_write_startup_data pages c a m args envs :
  image_at pages c a m -> range_ok_at pages stack_bottom USER_STACK_TOP ->
  (forall v, stack_bottom <= v < USER_STACK_TOP -> c v = 0) ->
  Forall is_cstring (args ++ envs) -> startup_fits args envs ->
  wp (write_startup_data (PM := PM) self args envs off m) (fun '(m', r) => exists rsp c',
    r = Ok rsp /\ image_at pages c' a m' /\ rsp mod 16 = 0 /\ stack_bottom <= rsp < USER_STACK_TOP /\
    (forall v, ~ (stack_bottom <= v < USER_STACK_TOP) -> c' v = c v) /\
    load64 c' rsp = Z.of_nat (length args) /\ read_args c' rsp = args /\ read_envs c' rsp = envs).
Proof using Hroot Hfa0 Ho0.
  intros Him Hr Hz Hcs Hfit. pose proof Hfit as [Hn Hfit'].
  destruct (stack_layout args envs Hfit) as (L1 & [L2 L3] & L4 & L5).
  pose proof (strings_size_nonneg (args ++ envs)) as H0.
  set (n := Z.of_nat (length args + length envs) + 3) in *. set (cursor := USER_STACK_TOP - strings_size (args ++ envs)) in *.
  set (rsp := 16 * ((16 * (cursor / 16) - 8 * n) / 16)) in *.
  assert (0 < stack_bottom /\ USER_STACK_TOP < 2 ^ 47) as [B1 B2] by (by vm_compute).
  assert (3 <= n) as Hn3 by (unfold n; lia).
  unfold write_startup_data. rewrite (proj2 (Nat.ltb_ge _ _)) by lia. wp_step.
  eapply wp_mono; [apply (wp_write_strings pages a (args ++ envs) USER_STACK_TOP c m Him Hcs)|].
  { fold cursor. lia. } { unfold U64. lia. }
  { intros v Hv. apply Hr. fold cursor in Hv. lia. } { intros v Hv. apply Hz. fold cursor in Hv. lia. }
  intros [m1 r] (addrs & c1 & -> & Him1 & Hout & Hat & Hrng). fold cursor in Hout, Hrng |- *. cbv beta iota zeta.
  rewrite land_not_15 by (unfold is_u64, U64; lia).
  replace (8 + 8 * Z.of_nat (length args) + 8 + 8 * Z.of_nat (length envs) + 8) with (8 * n) by (unfold n; lia).
  wp_step. apply wp_sub64; [lia|]. rewrite land_not_15 by (unfold is_u64, U64; lia). fold rsp.
  set (ws := Z.of_nat (length args) :: take (length args) addrs ++ 0 :: drop (length args) addrs).
  pose proof (Forall2_length _ _ _ Hat) as Hlen. rewrite length_app in Hlen.
  assert (Z.of_nat (length ws) = n - 1) as Hwl.
  { unfold ws. cbn [length]. rewrite length_app. cbn [length]. rewrite length_take, length_drop. unfold n. lia. }
  assert (Forall (fun p => stack_bottom <= p < USER_STACK_TOP) addrs) as Hrange.
  { apply Forall_lookup. intros i p Hp. destruct (Forall2_lookup_l _ _ _ _ _ Hrng Hp) as (s & _ & Hp1 & Hp2). lia. }
  assert (Forall is_u64 ws) as Hws.
  { unfold ws. apply Forall_cons. split; [unfold is_u64, U64; lia|]. rewrite <- (take_drop (length args) addrs) in Hrange.
    apply Forall_app in Hrange as [Hr1 Hr2]. apply Forall_app. split; [|apply Forall_cons; split; [done|]];
      (eapply Forall_impl; [done|]); intros p Hp; cbv beta in Hp; unfold is_u64, U64; lia. }
  wp_step. eapply wp_mono; [apply (wp_write_words pages a ws rsp c1 m1 Him1)|]; rewrite ?Hwl.
  { intros v Hv. apply Hr. lia. } { clear -L5. divlia. } { done. } { unfold U64. lia. }
  intros [m2 r] (c2 & -> & Him2 & Hout2 & Hw2). cbv beta iota. wp_step.
  eapply wp_mono; [apply (wp_write_usize_to_user pages a _ 0 c2 m2 Him2); eapply (range_word pages); [exact Hr|lia|lia|]|].
  { clear -L5. divlia. }
  intros [m3 r] [-> Him3]. cbv beta iota. wp_step. set (c3 := store64 c2 (rsp + 8 * (n - 1)) 0) in *.
  assert (forall v, ~ (rsp + 8 * (n - 1) <= v < rsp + 8 * n) -> c3 v = c2 v) as H32.
  { intros v Hv. apply (store_changed 8 c2 (rsp + 8 * (n - 1)) 0). change (Z.of_nat 8) with 8. lia. }
  exists rsp, c3. split; [done|]. split; [done|]. split; [done|]. split; [lia|]. split.
  { intros v Hv. rewrite H32, Hout2, Hout by lia. done. }
  apply (startup_block_read c3 rsp args envs addrs); [|eapply Forall_impl; [exact Hrange|cbv beta; lia]|done|done|].
  - apply (strings_kept c1 c3 cursor USER_STACK_TOP); [|done|done]. intros v Hv. by rewrite H32, Hout2 by lia.
  - assert (Z.of_nat (length args) :: take (length args) addrs ++ 0 :: drop (length args) addrs ++ [0] = ws ++ [0]) as ->
      by (unfold ws; simpl; by rewrite <- app_assoc).
    apply words_at_snoc.
    + intros k w Hk. pose proof (lookup_lt_Some _ _ _ Hk) as Hlt.
      rewrite <- (Hw2 k w Hk). apply load_ext. intros v Hv. apply H32. lia.
    + rewrite Hwl. by apply load64_store64_eq.
Qed.
End Writes.
End View.
