(* ===== verification/LoaderSafe.v ===== *)
(** * Program loading: theorems

    What [execve] promises for the x86_64 page tables: a file that can be
    loaded becomes the memory its headers describe, with the rights they ask
    for, and the program finds its arguments and environment on its stack.
    Then the limits: what the loader does with files it does not check. *)

From S2P Require Import Prelude Mem Addr Paging Layout Std FsTypes Elf Extern Region Pmm PageTable PageWalk PageTableSpec PageMap Mapper Vmm AddressSpace Loader LoaderSpec.

(** ** The program a file describes *)
Section Program.
Context (data : list Z) (h : Elf64Header).

Definition program_segments : list ExecSegment := exec_segment (load_base h) <$> load_segments data h.

Definition file_relas : list Elf64Rela :=
  if e_type h =? ET_DYN then relas_of data (section_list data h) else [].

(** The bytes of the program: the segments, zeroes elsewhere, and the
    trampoline; then the relocations. *)
Definition unrelocated (v : Z) : Z :=
  if v / 4096 =? trampoline_page then stub_byte v
  else match seg_at program_segments (v / 4096) with Some s => seg_byte s v | None => 0 end.

Definition program_bytes : Z -> Z := relocations data h (load_base h) unrelocated file_relas.

(** A relocation inside a page of the program. *)
Definition reloc_inside (rela : Elf64Rela) : Prop :=
  exists r, reloc_of data h (load_base h) rela = Some r /\ canonical r.1 /\
    is_Some (seg_at program_segments (r.1 / 4096)) /\ r.1 mod 4096 + width r.2 <= 4096.

(** The files the loader handles. *)
Record loadable : Prop := {
  ld_valid : valid_elf data h;
  ld_type : e_type h <> ET_REL;
  ld_headers : headers_fit data h;
  ld_entry : e_entry h + load_base h < U64;
  ld_count : Z.of_nat (length (load_segments data h)) <= MAX_SEGMENTS;
  ld_segments : Forall segment_ok program_segments;
  ld_apart : apart program_segments;
  ld_clear : forall p s, s ∈ program_segments -> covers s p = true -> on_stack p = false /\ p <> trampoline_page;
  ld_relocs : Forall reloc_inside file_relas;
}.

Lemma seg_at_in p s : seg_at program_segments p = Some s -> s ∈ program_segments /\ covers s p = true.
Proof. unfold seg_at. intros [H1 H2]%List.find_some. split; [by apply list_elem_of_In|done]. Qed.

Lemma seg_at_covers p s : apart program_segments -> s ∈ program_segments -> covers s p = true ->
  seg_at program_segments p = Some s.
Proof.
  unfold apart, seg_at. intros Hap. induction Hap as [|t l Ht Hap IH]; [by intros ?%elem_of_nil|].
  rewrite elem_of_cons. intros Hs Hc. cbn [List.find]. destruct (covers t p) eqn:Et.
  - destruct Hs as [->|Hs]; [done|]. rewrite Forall_forall in Ht. by rewrite (Ht s Hs p Et) in Hc.
  - destruct Hs as [->|Hs]; [congruence|]. by apply IH.
Qed.

(** Relocations change the program's own pages only. *)
Lemma relocations_out v c relas :
  Forall reloc_inside relas -> seg_at program_segments (v / 4096) = None ->
  relocations data h (load_base h) c relas v = c v.
Proof.
  intros Hr Hv. unfold relocations. revert c. induction Hr as [|rela relas (r & Er & _ & Hs & Hw) Hr IH]; intros c; [done|].
  cbn [omap list_omap]. rewrite Er. cbn [foldl]. rewrite IH. unfold relocate, patch.
  destruct (_ && _) eqn:E; [|done]. apply andb_true_iff in E as [E1%Z.leb_le E2%Z.ltb_lt].
  assert (v / 4096 = r.1 / 4096) as Ev by (clear -E1 E2 Hw; divlia). rewrite Ev in Hv. rewrite Hv in Hs. by destruct Hs.
Qed.
End Program.

(** ** What a process sees *)

(** A user page that can be read, and written and executed as said. *)
Definition user_page (fl : Z) (writable executable : bool) : Prop :=
  Z.testbit fl 0 = true /\ Z.testbit fl 2 = true /\ Z.testbit fl 1 = writable /\ Z.testbit fl 63 = negb executable.

(** The lower half of the address space at [root]: the pages [rights] names,
    with the bytes [c], each in a frame of its own. *)
Definition process_memory (off root : Z) (m : mem) (rights : Z -> option (bool * bool)) (c : Z -> Z) : Prop :=
  (forall v, 0 <= v < 2 ^ 47 ->
     match rights (v / 4096) with
     | Some (writable, executable) => exists f fl, page_of off root m v = Some (Size4KiB, f * 4096, fl) /\
         user_page fl writable executable /\ m (off + f * 4096 + v mod 4096) = c v
     | None => page_of off root m v = None
     end) /\
  (forall v w f fl gl, 0 <= v < 2 ^ 47 -> 0 <= w < 2 ^ 47 -> page_of off root m v = Some (Size4KiB, f, fl) ->
     page_of off root m w = Some (Size4KiB, f, gl) -> v / 4096 = w / 4096).

(** The rights the headers ask for; the stack is data, the trampoline code. *)
Definition program_rights (data : list Z) (h : Elf64Header) (p : Z) : option (bool * bool) :=
  if p =? trampoline_page then Some (false, true)
  else if on_stack p then Some (true, false)
  else (fun s => (sf_writable (es_flags s), sf_executable (es_flags s))) <$> seg_at (program_segments data h) p.

Lemma user_page_bits {G : Type} `{BG : BitFlags MF_ALL G} (g : G) :
  Z.testbit (bf_bits g) 2 = true ->
  user_page (page_bits Size4KiB g) (Z.testbit (bf_bits g) 0) (Z.testbit (bf_bits g) 1).
Proof.
  intros H2. unfold page_bits, native_bits. rewrite H2.
  destruct (Z.testbit _ 0), (Z.testbit _ 1), (Z.testbit _ 3), (Z.testbit _ 4), (Z.testbit _ 5); by split_and!.
Qed.

(** ** Building the address space *)
Section Build.
Context {F : Type} `{BF : BitFlags PTF_ALL F} {G : Type} `{BG : BitFlags MF_ALL G}.
Context {A : Type} `{FA : FrameAllocator A} (off kroot : Z).
Context {V : Type} `{AV : ArrayVec ExecSegment V MAX_SEGMENTS}.
Context (deallocate_frame : A -> mem -> Z -> exec (A * mem)).
Context (data : list Z) (h : Elf64Header) (Hfile : is_file data) (Hld : loadable data h).

Let PM : PageMapper G A off := x86_PageMapper (F := F) off.

(** The pages of the program and their flags. *)
Definition program_flags (p : Z) : option Z :=
  if p =? trampoline_page then Some (trampoline_rights (PM := PM))
  else if on_stack p then Some (stack_rights (PM := PM))
  else seg_rights (PM := PM) <$> seg_at (program_segments data h) p.

(** The frames a program needs: the root; for each page one frame, and at
    most three tables. *)
Definition frames_needed : Z := 1 + 4 * (total_pages (program_segments data h) + stack_count + 1).

Definition program_at (σ : aspace) (a : A) (m : mem) (f : Z) (pages : gmap Z (Z * Z)) (c : Z -> Z) (a' : A) (m' : mem) : Prop :=
  exists a1 m1, f ∈ fa_free a /\ fa_free a1 = fa_free a ∖ {[f]} /\ half_copied off kroot m f m1 /\
    fa_inv a1 m1 /\ fa_offset a1 = off /\
    image_at (PM := PM) (f * 4096) (kernel_half σ) a1 m1 pages c a' m' /\
    forall p, snd <$> pages !! p = program_flags p.

Lemma image_empty root a m σ c : refines off root a m σ -> image_at (PM := PM) root σ a m ∅ c a m.
Proof using.
  intros Hr. constructor; [|apply kept_refl|by intros * ?%lookup_empty_Some..].
  eapply pm_inv_same; [|exact Hr]. done.
Qed.

Lemma segments_clear p : seg_at (program_segments data h) p <> None -> on_stack p = false /\ p <> trampoline_page.
Proof using Hld.
  destruct (seg_at _ p) as [s|] eqn:E; [|done]. intros _. apply seg_at_in in E as [H1 H2]. by apply (ld_clear _ _ Hld p s).
Qed.

Lemma unrelocated_segment v s :
  s ∈ program_segments data h -> covers s (v / 4096) = true -> unrelocated data h v = seg_byte s v.
Proof using Hld.
  intros Hs Hc. destruct (ld_clear _ _ Hld _ _ Hs Hc) as [_ Hne]. unfold unrelocated.
  by rewrite (proj2 (Z.eqb_neq _ _) Hne), (seg_at_covers _ _ _ _ (ld_apart _ _ Hld) Hs Hc).
Qed.

Lemma program_bytes_out v :
  seg_at (program_segments data h) (v / 4096) = None ->
  program_bytes data h v = if v / 4096 =? trampoline_page then stub_byte v else 0.
Proof using Hld.
  intros Hn. unfold program_bytes. rewrite relocations_out by (done || apply (ld_relocs _ _ Hld)).
  unfold unrelocated. by rewrite Hn.
Qed.

Lemma trampoline_off_stack : on_stack trampoline_page = false.
Proof using. by vm_compute. Qed.

Lemma seg_at_stack p : on_stack p = true -> seg_at (program_segments data h) p = None.
Proof using Hld.
  intros Hp. destruct (seg_at _ p) eqn:E; [|done]. destruct (segments_clear p) as [H _]; [by rewrite E|congruence].
Qed.

Lemma seg_at_trampoline : seg_at (program_segments data h) trampoline_page = None.
Proof using Hld. destruct (seg_at _ _) eqn:E; [|done]. destruct (segments_clear trampoline_page) as [_ ?]; [by rewrite E|done]. Qed.

(** The relocation step of the closure. *)
Lemma wp_relocate_step {W} root σ0 a0 m0 (self : AddressSpace W) pages a m :
  as_root_phys self = root -> fa_inv a0 m0 -> fa_offset a0 = off ->
  image_at (PM := PM) root σ0 a0 m0 pages (unrelocated data h) a m ->
  (forall p s, seg_at (program_segments data h) p = Some s -> is_Some (pages !! p)) ->
  wp (if e_type h =? ET_DYN then
        p ← ElfFile_parse data;
        match p with
        | Err _ => Panic
        | Ok elf => apply_dyn_relocations (PM := PM) self elf (load_base h) off m
        end
      else Ret (m, Ok tt))
    (fun '(m', r) => r = Ok tt /\ image_at (PM := PM) root σ0 a0 m0 pages (program_bytes data h) a m').
Proof using Hfile Hld.
  intros Hroot Hfa Ho Him Hseg. pose proof (ld_relocs _ _ Hld) as Hrel. unfold program_bytes, file_relas in *.
  destruct (e_type h =? ET_DYN); [|by wp_step].
  unfold ElfFile_parse. wp_step. wp_step. eapply wp_mono; [by apply wp_Elf64Header_parse|].
  intros [h'|e] Hr; [|by destruct (Hr h), (ld_valid _ _ Hld)].
  assert (h' = h) as -> by (by rewrite (ve_fields _ _ Hr), (ve_fields _ _ (ld_valid _ _ Hld))).
  cbv beta iota zeta. wp_step. apply (wp_apply_dyn_relocations root σ0 a0 m0 self Hroot Hfa Ho data h Hfile Hr); [done|].
  eapply Forall_impl; [exact Hrel|]. intros rela (r & E & Hc & [s Hs] & Hw). exists r. split; [done|].
  split; [done|]. split; [by apply (Hseg _ s)|done].
Qed.

Lemma segment_pages_low p : is_Some (program_flags p) -> 0 <= p < 2 ^ 35.
Proof using Hld.
  unfold program_flags. destruct (Z.eqb_spec p trampoline_page) as [->|_]; [intros _; by vm_compute|].
  unfold on_stack. destruct (_ && _) eqn:E.
  { apply andb_true_iff in E as [E1%Z.leb_le E2%Z.ltb_lt]. change stack_page with 0x7FFFFFFEF in *.
    change stack_count with 16 in *. lia. }
  destruct (seg_at _ p) as [s|] eqn:Es; [|by intros []]. apply seg_at_in in Es as [Hs Hc]. intros _.
  pose proof (ld_segments _ _ Hld) as Hok. rewrite Forall_forall in Hok. destruct (Hok s Hs) as (_ & H0 & _ & Hl).
  apply andb_true_iff in Hc as [E1%Z.leb_le E2%Z.ltb_lt]. clear -H0 Hl E1 E2. divlia.
Qed.

(** The stack and the trampoline, over the segments. *)
Lemma wp_map_rest {W} root σ0 a0 m0 (self : AddressSpace W) pages a m :
  as_root_phys self = root -> (forall v, 0 <= v < 2 ^ 47 -> σ0 v = None) ->
  image_at (PM := PM) root σ0 a0 m0 pages (program_bytes data h) a m ->
  (forall p, snd <$> pages !! p = seg_rights (PM := PM) <$> seg_at (program_segments data h) p) ->
  (4 * (16 + 1) <= size (fa_free a))%nat ->
  wp ('(a, m) ← map_user_stack (PM := PM) self off a m; map_sigreturn_trampoline (PM := PM) self off a m)
    (fun '(a', m') => exists pages', image_at (PM := PM) root σ0 a0 m0 pages' (program_bytes data h) a' m' /\
       forall p, snd <$> pages' !! p = program_flags p).
Proof using Hld.
  intros Hroot Hlow Him Hp Hsz.
  assert (forall p, seg_at (program_segments data h) p = None -> pages !! p = None) as Hnone.
  { intros p E. specialize (Hp p). rewrite E in Hp. by destruct (pages !! p). }
  wp_step. eapply wp_mono; [apply (wp_map_user_stack root σ0 a0 m0 self Hroot Hlow (program_bytes data h) a m pages Him)|].
  { intros p H. by apply Hnone, seg_at_stack. }
  { intros v H. rewrite program_bytes_out by (by apply seg_at_stack).
    destruct (Z.eqb_spec (v / 4096) trampoline_page) as [E|_]; [|done]. by rewrite E, trampoline_off_stack in H. }
  { lia. }
  intros [a1 m1] (pages1 & Him1 & Had & Hs1). cbv beta iota zeta.
  assert (forall p, on_stack p = false -> pages1 !! p = pages !! p) as Hout.
  { intros p H. apply (Had p). unfold on_stack in H. apply andb_false_iff in H as [H%Z.leb_gt|H%Z.ltb_ge]; lia. }
  eapply wp_mono; [apply (wp_map_sigreturn_trampoline root σ0 a0 m0 self Hroot Hlow (program_bytes data h) a1 m1 pages1 Him1)|].
  { rewrite Hout by apply trampoline_off_stack. by apply Hnone, seg_at_trampoline. }
  { intros v E. rewrite program_bytes_out by (rewrite E; apply seg_at_trampoline). by rewrite E, Z.eqb_refl. }
  { lia. }
  intros [a2 m2] (f & Him2 & _). eexists. split; [exact Him2|]. intros p. unfold program_flags.
  destruct (Z.eqb_spec p trampoline_page) as [->|Hne]; [by rewrite lookup_insert_eq|]. rewrite lookup_insert_ne by done.
  destruct (on_stack p) eqn:E; [|by rewrite Hout, Hp]. apply (Had p).
  apply andb_true_iff in E as [E1%Z.leb_le E2%Z.ltb_lt]. lia.
Qed.

(** The closure builds the program. *)
Lemma wp_build_address_space (image : ExecImage V) a m σ :
  refines off kroot a m σ -> frames_needed <= Z.of_nat (size (fa_free a)) ->
  im_base_addr image = load_base h -> im_needs_relocation image = (e_type h =? ET_DYN) ->
  im_elf_data image = (if e_type h =? ET_DYN then Some data else None) ->
  av_as_slice (im_segments image) = program_segments data h ->
  wp (build_address_space (PM := PM) deallocate_frame kroot off image a m) (fun '(a', m', r) => exists f pages,
    r = Ok (mkAddressSpace (f * 4096) (dealloc_frame deallocate_frame)) /\
    program_at σ a m f pages (program_bytes data h) a' m').
Proof using Hfile Hld BF.
  intros Href Hfr Eb En Ed Es. unfold build_address_space, frames_needed in *. change stack_count with 16 in Hfr.
  pose proof (total_pages_nonneg _ (ld_segments _ _ Hld)) as Ht.
  wp_step. eapply wp_mono; [by apply (wp_new_user off kroot a m σ)|].
  intros [[a1 m1] [self|e]] Hr; [|destruct Hr as (_ & He & _); rewrite He, size_empty in Hfr; lia].
  destruct Hr as (f & -> & Hf & Hfree & _ & Hru & Hhc). cbv beta iota zeta.
  set (self := mkAddressSpace (f * 4096) (dealloc_frame deallocate_frame)).
  pose proof (size_take_out _ _ Hf) as Hsz. rewrite <- Hfree in Hsz.
  assert (forall v, 0 <= v < 2 ^ 47 -> kernel_half σ v = None) as Hlow
    by (intros v Hv; unfold kernel_half; by rewrite (proj2 (Z.ltb_lt _ _)) by lia).
  pose proof (pm_inv_fa (PageMapper := PM) _ _ _ _ Hru) as [Hfa1 Ho1].
  wp_step. rewrite Es. eapply wp_mono.
  { apply (wp_map_segments (f * 4096) (kernel_half σ) a1 m1 self eq_refl Hlow _ (unrelocated data h) a1 m1 ∅);
      [by apply image_empty|apply (ld_segments _ _ Hld)|apply (ld_apart _ _ Hld)|done|by apply unrelocated_segment|lia]. }
  intros [a2 m2] (pages & Him & Hp & Hs2). cbv beta iota zeta.
  assert (forall p, snd <$> pages !! p = seg_rights (PM := PM) <$> seg_at (program_segments data h) p) as Hp'.
  { intros p. specialize (Hp p). destruct (seg_at _ p); [done|]. by rewrite Hp, lookup_empty. }
  wp_step. apply (wp_mono _ (fun '(m', r) => r = Ok tt /\
    image_at (PM := PM) (f * 4096) (kernel_half σ) a1 m1 pages (program_bytes data h) a2 m')).
  { rewrite En, Ed, Eb. pose proof (wp_relocate_step (f * 4096) (kernel_half σ) a1 m1 self pages a2 m2 eq_refl Hfa1 Ho1 Him) as Hrel.
    destruct (e_type h =? ET_DYN); (apply Hrel; intros p s E; specialize (Hp' p); rewrite E in Hp';
      by destruct (pages !! p); [eexists|]). }
  intros [m3 r] [-> Him3]. cbv beta iota zeta.
  pose proof (wp_map_rest (f * 4096) (kernel_half σ) a1 m1 self
    pages a2 m3 eq_refl Hlow Him3 Hp' ltac:(lia)) as Hrest.
  apply wp_exists in Hrest as ([a5 m5] & E & pages' & Him' & Hp5). apply bind_Ret_inv in E as ([a4 m4] & E4 & E5).
  rewrite E4. cbn [mbind exec_bind]. rewrite E5. cbn [mbind exec_bind]. wp_step. exists f, pages'. split; [done|].
  by exists a1, m1.
Qed.
Lemma user_rights_page (g : G) (w x : bool) :
  bf_bits (bf_union g MF_USER) = Z.lor (if w then 1 else 0) (Z.lor (if x then 2 else 0) 4) ->
  user_page (user_rights (PM := PM) g) w x.
Proof using.
  intros E. change (user_rights (PM := PM) g) with (page_bits Size4KiB (bf_union g MF_USER)).
  pose proof (user_page_bits (bf_union g MF_USER)) as H. rewrite E in H. destruct w, x; by apply H.
Qed.

Lemma program_flags_rights p :
  match program_rights data h p with
  | Some (w, x) => exists fl, program_flags p = Some fl /\ user_page fl w x
  | None => program_flags p = None
  end.
Proof using.
  unfold program_rights, program_flags. destruct (p =? trampoline_page); [|destruct (on_stack p)].
  1,2: eexists; split; [done|]; apply user_rights_page; unfold MF_USER, MF_WRITABLE, MF_EXECUTABLE;
    by rewrite !bf_union_bits, !bf_retain_bits by done.
  destruct (seg_at _ p) as [s|]; [|done]. eexists. split; [done|]. apply user_rights_page.
  unfold segment_flags, MF_USER, MF_WRITABLE, MF_EXECUTABLE.
  destruct (sf_writable _), (sf_executable _); by rewrite !bf_union_bits, !bf_retain_bits by done.
Qed.

(** The tables of a new address space: its root and tables of the kernel. *)
Lemma new_root_tables a m σ f m1 x :
  refines off kroot a m σ -> f ∈ fa_free a -> half_copied off kroot m f m1 ->
  x86_table off (f * 4096) m1 x -> in_frame off (f * 4096) x \/ x86_table off kroot m x.
Proof using.
  intros Href Hf (Hout & Hlow & Hhigh) (t & (p & Hp & Ht) & Hx). destruct p as [|i p]; [left; by injection Ht as <-|right].
  rewrite (follow_half (ent off m) _ kroot (f * 4096) Hlow Hhigh) in Ht; [|intros q u j Hq _ Hu Hj|done].
  - destruct (i <? 256); [done|]. exists t. split; [|done]. by exists (i :: p).
  - unfold ent. apply load_ext. intros y Hy. apply Hout. apply (table_not_free off kroot a m σ f y Href Hf).
    exists u. split; [by exists q|]. unfold in_frame, index_ok in *. lia.
Qed.

(** What [program_at] says of the memory. *)
Lemma program_at_seen a m σ f pages c a' m' :
  refines off kroot a m σ -> program_at σ a m f pages c a' m' ->
  process_memory off (f * 4096) m' (program_rights data h) c /\
  (forall v, canonical v -> 2 ^ 47 <= v -> page_of off (f * 4096) m' v = σ v) /\
  (forall x, ~ x86_table off kroot m x -> (forall g, taken a a' g -> ~ in_frame off (g * 4096) x) -> m' x = m x).
Proof using Hld.
  intros Href (a1 & m1 & Hf & Hfree & Hhc & _ & _ & [Hi Hk Ht _ Hj Hb] & Hp).
  pose proof (proj2 (Hi : refines off (f * 4096) a' m' _)) as Hv. pose proof Hk as (Hsub & _ & Hmem).
  assert (forall v, 0 <= v < 2 ^ 47 -> page_of off (f * 4096) m' v =
    (fun fg => (Size4KiB, fg.1 * 4096, fg.2)) <$> pages !! (v / 4096)) as Hpg.
  { intros v Hr. rewrite Hv by (left; lia). unfold page_view, kernel_half. rewrite (proj2 (Z.ltb_lt _ _)) by lia.
    by destruct (pages !! _) as [[g fl]|]. }
  unfold process_memory. split_and!.
  - intros v Hr. pose proof (program_flags_rights (v / 4096)) as Hfl. rewrite <- Hp in Hfl. rewrite Hpg by done.
    destruct (program_rights data h (v / 4096)) as [[w x]|], (pages !! (v / 4096)) as [[g fl]|] eqn:E; try done.
    + destruct Hfl as (fl' & [= <-] & Hu). exists g, fl. split; [done|]. split; [done|].
      rewrite (Hb _ g fl _ E) by (clear; divlia). f_equal. clear; divlia.
    + by destruct Hfl as (fl' & ? & _).
  - intros v w g fl gl Hrv Hrw. rewrite !Hpg by done.
    destruct (pages !! (v / 4096)) as [[g1 fl1]|] eqn:E1; [|done]. destruct (pages !! (w / 4096)) as [[g2 fl2]|] eqn:E2; [|done].
    intros [= <- <-] [= Eg <-]. apply (Hj _ _ g1 fl1 fl2 E1). rewrite E2. do 2 f_equal. lia.
  - intros v Hc Hh. rewrite Hv by done. unfold page_view, kernel_half. rewrite (proj2 (Z.ltb_ge _ _)) by lia.
    destruct (pages !! (v / 4096)) as [[g fl]|] eqn:E; [|done].
    assert (is_Some (program_flags (v / 4096))) as Hs by (rewrite <- Hp, E; by eexists).
    apply segment_pages_low in Hs. clear -Hs Hh. divlia.
  - assert (f ∉ fa_free a') as Hfn by (rewrite Hfree in Hsub; clear -Hsub; set_solver).
    intros x Hx Hn. assert (~ in_frame off (f * 4096) x) as Hxf by (apply Hn; unfold taken; clear -Hf Hfn; set_solver).
    destruct Hhc as (Hout & Hhc). rewrite Hmem; [by apply Hout| |].
    + by intros [?|?]%(new_root_tables a m σ f m1 x Href Hf (conj Hout Hhc)).
    + intros g Hg. apply Hn. unfold taken in *. rewrite Hfree in Hg. clear -Hg. set_solver.
Qed.

Lemma wp_create_address_space a m σ :
  refines off kroot a m σ -> frames_needed <= Z.of_nat (size (fa_free a)) ->
  wp (create_address_space_from_binary (PM := PM) (V := V) deallocate_frame kroot off data (mkGlobalPmm false a m))
    (fun '(w, r) => exists f pages,
      r = Ok (mkAddressSpace (f * 4096) (dealloc_frame deallocate_frame), e_entry h + load_base h, USER_STACK_TOP) /\
      gp_locked w = false /\ program_at σ a m f pages (program_bytes data h) (gp_alloc w) (gp_mem w)).
Proof using Hfile Hld BF.
  intros Href Hfr. unfold create_address_space_from_binary. wp_step.
  eapply wp_mono; [apply (wp_load_binary data h Hfile (ld_valid _ _ Hld) (ld_type _ _ Hld) (ld_headers _ _ Hld) (ld_entry _ _ Hld))|].
  intros [image|e] Hr; [|destruct Hr as [_ Hr]; pose proof (ld_count _ _ Hld); lia].
  destruct Hr as (-> & Hb & Hn & Hd & Hs & _). cbv beta iota zeta. wp_step. unfold with_pmm. cbn [gp_locked gp_alloc gp_mem].
  wp_step. eapply wp_mono; [by apply (wp_build_address_space image a m σ)|].
  intros [[a' m'] r] (f & pages & -> & Hp). cbv beta iota zeta. do 2 wp_step. exists f, pages. by split_and!.
Qed.

Lemma stack_mapped pages : (forall p, snd <$> pages !! p = program_flags p) -> range_ok_at pages stack_bottom USER_STACK_TOP.
Proof using.
  intros Hp v Hv. change stack_bottom with (0x7FFFFFFEF * 4096) in Hv. change USER_STACK_TOP with (0x7FFFFFFFF * 4096) in Hv.
  assert (0x7FFFFFFEF <= v / 4096 < 0x7FFFFFFFF) as Hq by (clear -Hv; divlia).
  split; [left; lia|]. split; [|clear; divlia]. specialize (Hp (v / 4096)). unfold program_flags, on_stack in Hp.
  change stack_page with 0x7FFFFFFEF in Hp. change stack_count with 16 in Hp. change trampoline_page with 0x7FFFFFFE0 in Hp.
  rewrite (proj2 (Z.eqb_neq _ _)), (proj2 (Z.leb_le _ _)), (proj2 (Z.ltb_lt _ _)) in Hp by lia.
  destruct (pages !! (v / 4096)); [by eexists|done].
Qed.

Lemma stack_zero v : stack_bottom <= v < USER_STACK_TOP -> program_bytes data h v = 0.
Proof using Hld.
  intros Hv. change stack_bottom with (0x7FFFFFFEF * 4096) in Hv. change USER_STACK_TOP with (0x7FFFFFFFF * 4096) in Hv.
  assert (0x7FFFFFFEF <= v / 4096 < 0x7FFFFFFFF) as Hq by (clear -Hv; divlia).
  rewrite program_bytes_out.
  - change trampoline_page with 0x7FFFFFFE0. by rewrite (proj2 (Z.eqb_neq _ _)) by lia.
  - apply seg_at_stack. unfold on_stack. change stack_page with 0x7FFFFFFEF. change stack_count with 16.
    by rewrite (proj2 (Z.leb_le _ _)), (proj2 (Z.ltb_lt _ _)) by lia.
Qed.
End Build.

(** C2: A file that can be loaded becomes a process: [execve_load] returns the entry
    point and an address space in which the program sees the pages of its
    segments with the rights and the bytes the file describes, relocated, a
    stack and the trampoline, and nothing else; it finds the arguments and the
    environment at its stack pointer; the upper half is the kernel's; memory
    that is neither a table of the kernel nor a frame taken for the process is
    as before. *)
Theorem execve_loads_program {F G A V : Type} `{BF : BitFlags PTF_ALL F} `{BG : BitFlags MF_ALL G}
    `{FA : FrameAllocator A} `{AV : ArrayVec ExecSegment V MAX_SEGMENTS}
    (deallocate_frame : A -> mem -> Z -> exec (A * mem)) off kroot a m σ data h args envs :
  refines off kroot a m σ -> is_file data -> loadable data h ->
  frames_needed data h <= Z.of_nat (size (fa_free a)) ->
  Forall is_cstring (args ++ envs) -> startup_fits args envs ->
  wp (execve_load (PM := x86_PageMapper (F := F) (G := G) off) (V := V) deallocate_frame kroot off data args envs
        (mkGlobalPmm false a m))
    (fun '(w, r) => exists root rsp c,
      r = Ok (mkAddressSpace root (dealloc_frame deallocate_frame), e_entry h + load_base h, rsp) /\
      gp_locked w = false /\
      process_memory off root (gp_mem w) (program_rights data h) c /\
      (forall v, ~ (stack_bottom <= v < USER_STACK_TOP) -> c v = program_bytes data h v) /\
      rsp mod 16 = 0 /\ stack_bottom <= rsp < USER_STACK_TOP /\
      load64 c rsp = Z.of_nat (length args) /\ read_args c rsp = args /\ read_envs c rsp = envs /\
      (forall v, canonical v -> 2 ^ 47 <= v -> page_of off root (gp_mem w) v = σ v) /\
      (forall x, ~ x86_table off kroot m x ->
         (forall g, taken a (gp_alloc w) g -> ~ in_frame off (g * 4096) x) -> gp_mem w x = m x)).
Proof.
  intros Href Hfile Hld Hfr Hcs Hfit. unfold execve_load. wp_step.
  eapply wp_mono; [by apply (wp_create_address_space (F := F) off kroot deallocate_frame data h Hfile Hld a m σ)|].
  intros [w r] (f & pages & -> & Hl & a1 & m1 & Hf & Hfree & Hhc & Hfa & Ho & Him & Hp). cbv beta iota zeta. wp_step.
  eapply wp_mono; [apply (wp_write_startup_data (f * 4096) (kernel_half σ) a1 m1
    (mkAddressSpace (f * 4096) (dealloc_frame deallocate_frame)) eq_refl Hfa Ho pages _ _ _ args envs Him)|];
    [by apply (stack_mapped (F := F) (G := G) off data h)|by apply stack_zero|done|done|].
  intros [m' r] (rsp & c & -> & Him' & Hal & Hrng & Hout & Hread). cbv beta iota zeta. wp_step.
  destruct (program_at_seen (F := F) off kroot data h Hld a m σ f pages c (gp_alloc w) m' Href) as (H1 & H2 & H3);
    [by exists a1, m1|]. exists (f * 4096), rsp, c. destruct Hread as (? & ? & ?), Hrng; by split_and!.
Qed.

(** Files that are refused. *)
Lemma wp_load_binary_bad {V : Type} `{AV : ArrayVec ExecSegment V MAX_SEGMENTS} data :
  is_file data -> (forall h, valid_elf data h -> e_type h = ET_REL) ->
  wp (load_binary (V := V) data) (fun r => exists e, r = Err e).
Proof.
  intros Hfile Hbad. unfold load_binary, BINARY_FORMATS, probe_formats.
  assert (forall n, 0 <= n -> forall l, wp (if n <=? Z.of_nat (length data)
    then (s ← slice data 0 n; Ret (bytes_eqb s l)) else Ret false) (fun _ => True)) as Hprobe.
  { intros n Hn l. destruct (Z.leb_spec n (Z.of_nat (length data))) as [H|H]; [|done].
    wp_step. apply wp_slice; [lia|lia|]. done. }
  wp_step. eapply wp_mono; [by apply Hprobe|]. intros [|] _.
  - unfold ElfHandler_load, ElfFile_parse. wp_step. wp_step. eapply wp_mono; [by apply wp_Elf64Header_parse|].
    intros [h|e] Hr; cbv beta iota zeta; repeat wp_step; [|by eexists]. unfold elf_type, Elf64Header_elf_type.
    cbn [elf_header]. rewrite (Hbad h Hr). simpl. wp_step. by eexists.
  - wp_step. eapply wp_mono; [by apply Hprobe|]. intros [|] _; cbv beta iota zeta; unfold ScriptHandler_load; wp_step; by eexists.
Qed.

(** A file that is not ELF, is an object file, or has too many segments. *)
Definition refused_file (data : list Z) : Prop := forall h, valid_elf data h -> e_type h <> ET_REL ->
  headers_fit data h /\ e_entry h + load_base h < U64 /\ MAX_SEGMENTS < Z.of_nat (length (load_segments data h)).

Lemma load_binary_refused {V : Type} `{AV : ArrayVec ExecSegment V MAX_SEGMENTS} data :
  is_file data -> refused_file data -> exists e, load_binary (V := V) data = Ret (Err e).
Proof.
  intros Hfile Hbad. assert (wp (load_binary (V := V) data) (fun r => exists e, r = Err e)) as Hw.
  { destruct (proj1 (wp_exists _ _) (wp_Elf64Header_parse data Hfile)) as ([h|e] & _ & Hr);
      [|apply wp_load_binary_bad; [done|by intros h ?%Hr]].
    destruct (decide (e_type h = ET_REL)) as [Et|Et].
    - apply wp_load_binary_bad; [done|]. intros h' Hv. rewrite <- Et. by rewrite (ve_fields _ _ Hv), (ve_fields _ _ Hr).
    - destruct (Hbad h Hr Et) as (Hfit & He & Hn). eapply wp_mono; [by apply (wp_load_binary data h)|].
      intros [image|e] H; [exfalso|by eexists]. destruct H as (_ & _ & _ & _ & _ & Hs). lia. }
  apply wp_exists in Hw as (r & E & e & ->). by exists e.
Qed.


(** ** A program that runs *)

Definition enc := to_le_bytes.

Definition ehdr (ty entry phnum shoff shnum : Z) : list Z :=
  [0x7f; 0x45; 0x4c; 0x46; 2; 1; 1; 0] ++ replicate 8 0 ++ enc 2 ty ++ enc 2 62 ++ enc 4 1 ++
  enc 8 entry ++ enc 8 64 ++ enc 8 shoff ++ enc 4 0 ++ enc 2 64 ++ enc 2 56 ++ enc 2 phnum ++ enc 2 64 ++ enc 2 shnum ++ enc 2 0.

Definition phdr (flags offset vaddr filesz memsz : Z) : list Z :=
  enc 4 PT_LOAD ++ enc 4 flags ++ enc 8 offset ++ enc 8 vaddr ++ enc 8 0 ++ enc 8 filesz ++ enc 8 memsz ++ enc 8 4096.

Definition shdr_rela (offset size : Z) : list Z :=
  enc 4 0 ++ enc 4 SHT_RELA ++ enc 8 0 ++ enc 8 0 ++ enc 8 offset ++ enc 8 size ++ enc 4 0 ++ enc 4 0 ++ enc 8 8 ++ enc 8 24.

Definition rela (offset ty addend : Z) : list Z := enc 8 offset ++ enc 8 ty ++ enc 8 addend.

(** A position-independent program of one segment, with one relocation. *)
Definition example_pie (ty : Z) : list Z :=
  ehdr ET_DYN 0x1000 1 152 1 ++ phdr 7 120 0x1000 8 16 ++ replicate 8 0x90 ++ rela 0x1000 ty 0x1004 ++ shdr_rela 128 24.

#[local] Instance example_allocator : FrameAllocator BitmapAllocator := bitmap_FrameAllocator false.
#[local] Instance example_mapper : PageMapper word64 BitmapAllocator example_off := x86_PageMapper (F := word64) example_off.

Definition pmm_deallocate (a : BitmapAllocator) (m : mem) (frame : Z) : exec (BitmapAllocator * mem) :=
  '(a, m, _) ← deallocate_frame false a m frame; Ret (a, m).

Definition example_execve (data : list Z) (args envs : list (list Z)) :=
  execve_load (V := list ExecSegment) pmm_deallocate 0 example_off data args envs (mkGlobalPmm false example_pmm zero_mem).


Definition example_header : Elf64Header := mkElf64Header 3 62 0x1000 64 1 56 152 64 1 0.

Lemma example_pie_file ty : ty = 8 \/ ty = 99 -> is_file (example_pie ty).
Proof. intros [->| ->]; (split; [|by vm_compute]); apply (bool_decide_unpack _); by vm_compute. Qed.

Lemma example_segments :
  program_segments (example_pie 8) example_header =
  [mkExecSegment 0x401000 (replicate 8 0x90) 16 (mkSegmentFlags true true)].
Proof. by vm_compute. Qed.

Lemma example_loadable : loadable (example_pie 8) example_header.
Proof.
  assert (forall P : ExecSegment -> Prop, P (mkExecSegment 0x401000 (replicate 8 0x90) 16 (mkSegmentFlags true true)) ->
    Forall P (program_segments (example_pie 8) example_header)) as Hall.
  { intros P H. rewrite example_segments. by constructor. }
  constructor.
  - constructor; try (by vm_compute); try (by right; right); simpl; vm_compute; intuition congruence.
  - done.
  - intros i Hi. change (e_phnum example_header) with 1 in Hi. assert (i = 0) as -> by lia. by split; [|intros _]; vm_compute.
  - by vm_compute.
  - by vm_compute.
  - apply Hall. split_and!; [left; by vm_compute|by vm_compute..].
  - unfold apart. rewrite example_segments. by repeat constructor.
  - intros p s. rewrite example_segments. intros ->%list_elem_of_singleton [H1%Z.leb_le H2%Z.ltb_lt]%andb_true_iff.
    change (0x401 <= p) in H1. change (p < 0x402) in H2. change trampoline_page with 0x7FFFFFFE0. split; [|lia].
    unfold on_stack. change stack_page with 0x7FFFFFFEF. by rewrite (proj2 (Z.leb_gt _ _)) by lia.
  - assert (file_relas (example_pie 8) example_header = [mkElf64Rela 0x1000 8 0 0x1004]) as -> by (by vm_compute).
    constructor; [|constructor]. exists (0x401000, RelocU64 0x401004). split; [by vm_compute|].
    split; [left; simpl; lia|]. split; [by eexists; vm_compute|by vm_compute].
Qed.

Lemma execve_loads_program_witness :
  loadable (example_pie 8) example_header /\
  wp (example_execve (example_pie 8) [[0x61]] []) (fun '(w, r) => exists s rsp c,
    r = Ok (s, 0x401000, rsp) /\ process_memory example_off (as_root_phys s) (gp_mem w)
      (program_rights (example_pie 8) example_header) c /\
    load64 c 0x401000 = 0x401004 /\ c 0x401008 = 0 /\ load64 c rsp = 1 /\ read_args c rsp = [[0x61]]).
Proof.
  split; [exact example_loadable|]. eapply wp_mono.
  - apply (execve_loads_program (F := word64) (G := word64) (V := list ExecSegment) pmm_deallocate example_off 0
      example_pmm zero_mem (fun _ => None) (example_pie 8) example_header [[0x61]] []).
    + exact example_refines.
    + apply example_pie_file. by left.
    + exact example_loadable.
    + destruct example_pmm_inv as (_ & H & _). change (fa_free example_pmm) with (pmm_free example_pmm).
      change (free_count example_pmm) with 174 in H. change (frames_needed (example_pie 8) example_header) with 73. lia.
    + apply (bool_decide_unpack _). by vm_compute.
    + split; [simpl; unfold MAX_STRINGS; lia|by vm_compute].
  - intros [w r] (root & rsp & c & -> & _ & Hm & Hc & _ & _ & H1 & H2 & _).
    assert (forall v, v < stack_bottom -> c v = program_bytes (example_pie 8) example_header v) as Hlow
      by (intros v Hv; apply Hc; lia).
    eexists _, rsp, c. split; [done|]. split; [exact Hm|]. split; [|split; [|done]].
    + trans (load64 (program_bytes (example_pie 8) example_header) 0x401000); [|by vm_compute].
      apply load_ext. intros v Hv. apply Hlow. change stack_bottom with 0x7FFFFFFEF000. lia.
    + rewrite Hlow by (by vm_compute). by vm_compute.
Defined.


(** ** What the loader does not check *)

(** A segment of 24 bytes that starts 16 bytes before the end of a page. *)
Definition crafted_elf : list Z :=
  ehdr ET_EXEC 0x400ff0 1 0 0 ++ phdr 5 120 0x400ff0 24 16 ++ replicate 16 0x90 ++ enc 8 0x87.

Definition crafted_header : Elf64Header := mkElf64Header 2 62 0x400ff0 64 1 56 0 64 0 0.


(** A relocation the loader does not know: the address space is dropped while
    the frame allocator is locked, and dropping it takes the lock again. *)
Theorem failed_relocation_hangs : example_execve (example_pie 99) [] [] = Panic.
Proof. by vm_compute. Qed.
