(* ===== verification/MmapSpec.v ===== *)
(** * What the loops of the memory system calls do

    The allocator of address ranges below the stack, and the pages of a
    process: [shows] ties the pages, their rights and the bytes of private
    pages to the page tables and frames.  Each loop of [Mmap] is proved
    against it. *)

From S2P Require Import Prelude Mem Addr Paging Layout Std FsTypes Extern Region Pmm PageTable PageWalk PageTableSpec PageMap Mapper Vmm AddressSpace FdTable Loader LoaderSpec Mmap.

(** ** Address ranges

    The region of the allocator reaches far beyond the lower half; the part
    below the stack is a well-formed region, and as long as the allocator has
    not left it, the allocator behaves as the one of that region. *)
Section Ranges.
Context {V : Type} {N : Z} `{AV : ArrayVec FreeRange V N}.

Definition mmap_region : VirtRegion := mkVirtRegion USER_MMAP_BASE USER_MMAP_MAX_SIZE.
Definition mmap_window : VirtRegion := mkVirtRegion USER_MMAP_BASE (stack_bottom - USER_MMAP_BASE).

Definition set_region (r : VirtRegion) (s : FreeRegionAllocator V) : FreeRegionAllocator V :=
  mkFreeRegionAllocator r (fra_free_list s) (fra_watermark s).

Definition mmap_inv (s : FreeRegionAllocator V) : Prop :=
  fra_region s = mmap_region /\ fra_inv (set_region mmap_window s).

Lemma mmap_inv_new : mmap_inv (FreeRegionAllocator_new mmap_region).
Proof using.
  split; [done|]. apply (fra_new_inv mmap_window). split; [done|]. split; [done|]. left. by split.
Qed.

Lemma mmap_inv_back s : fra_region s = mmap_window -> fra_inv s -> mmap_inv (set_region mmap_region s).
Proof using. destruct s. simpl. intros -> H. by split. Qed.

Lemma allocated_region r s x : vr_base r = vr_base (fra_region s) -> allocated (set_region r s) x <-> allocated s x.
Proof using. unfold allocated, ranges. simpl. by intros ->. Qed.

Lemma set_region_id r s : fra_region s = r -> set_region r s = s.
Proof using. destruct s. simpl. by intros ->. Qed.

Lemma allocate_set_region s size s' b :
  fra_region s = mmap_region -> FreeRegionAllocator_allocate (set_region mmap_window s) size = Ret (s', Some b) ->
  FreeRegionAllocator_allocate s size = Ret (set_region mmap_region s', Some b).
Proof using.
  destruct s as [reg fl w]. cbn [fra_region]. intros ->. unfold FreeRegionAllocator_allocate. cbn [fra_region fra_free_list fra_watermark set_region].
  intros (n & -> & E)%bind_Ret_inv. cbn [mbind exec_bind]. destruct (n =? 0); [by simplify_eq|].
  apply bind_Ret_inv in E as (fit & -> & E). cbn [mbind exec_bind]. destruct fit as [[v x]|]; [by simplify_eq|].
  apply bind_Ret_inv in E as (e & -> & E). cbn [mbind exec_bind].
  change (add64 (vr_base mmap_window) (vr_max_size mmap_window)) with (Ret stack_bottom) in E.
  change (add64 (vr_base mmap_region) (vr_max_size mmap_region)) with (Ret (USER_MMAP_BASE + USER_MMAP_MAX_SIZE)).
  cbn [mbind exec_bind] in *. destruct (Z.ltb_spec stack_bottom e) as [|He]; [done|].
  rewrite (proj2 (Z.ltb_ge _ _)); [by simplify_eq|].
  change stack_bottom with 0x7FFFFFFEF000 in He. unfold USER_MMAP_BASE, USER_MMAP_MAX_SIZE. lia.
Qed.

Lemma retract_set_region r fuel s :
  retract_loop fuel (set_region r s) = (s' ← retract_loop fuel s; Ret (set_region r s')).
Proof using.
  revert s. induction fuel as [|fuel IH]; intros s; [done|]. cbn [retract_loop fra_free_list set_region fra_watermark fra_region].
  destruct (av_pop (fra_free_list s)) as [fl' [last|]]; [|done]. destruct (add64 _ _) as [e|]; [|done].
  cbn [mbind exec_bind]. destruct (e =? fra_watermark s); [|done].
  by rewrite <- (IH (mkFreeRegionAllocator (fra_region s) fl' (fr_base last))).
Qed.

Lemma deallocate_set_region s base size s' r :
  fra_region s = mmap_region -> FreeRegionAllocator_deallocate (set_region mmap_window s) base size = Ret (s', r) ->
  FreeRegionAllocator_deallocate s base size = Ret (set_region mmap_region s', r).
Proof using.
  destruct s as [reg fl w]. cbn [fra_region]. intros ->. unfold FreeRegionAllocator_deallocate.
  assert (forall f w' s1, retract_watermark (mkFreeRegionAllocator mmap_window f w') = Ret s1 ->
    retract_watermark (mkFreeRegionAllocator mmap_region f w') = Ret (set_region mmap_region s1)) as Hret.
  { intros f w' s1 E. unfold retract_watermark in *. cbn [fra_free_list] in *.
    change (mkFreeRegionAllocator mmap_region f w') with (set_region mmap_region (mkFreeRegionAllocator mmap_window f w')).
    by rewrite retract_set_region, E. }
  cbn [fra_region fra_free_list fra_watermark set_region].
  intros (n & -> & E)%bind_Ret_inv. cbn [mbind exec_bind]. destruct (n =? 0); [by simplify_eq|].
  apply bind_Ret_inv in E as (e & -> & E). cbn [mbind exec_bind].
  apply bind_Ret_inv in E as ([] & E1 & E). change (vr_base mmap_region) with (vr_base mmap_window). rewrite E1. cbn [mbind exec_bind].
  change (add64 (vr_base mmap_window) (vr_max_size mmap_window)) with (Ret stack_bottom) in E.
  change (add64 (vr_base mmap_window) (vr_max_size mmap_region)) with (Ret (USER_MMAP_BASE + USER_MMAP_MAX_SIZE)).
  cbn [mbind exec_bind] in *. apply bind_Ret_inv in E as ([] & E2 & E).
  assert (e <= stack_bottom) as He by (unfold assert in E2; by destruct (Z.leb_spec e stack_bottom)).
  assert (assert (e <=? USER_MMAP_BASE + USER_MMAP_MAX_SIZE) = Ret ()) as ->.
  { change stack_bottom with 0x7FFFFFFEF000 in He. unfold assert, USER_MMAP_BASE, USER_MMAP_MAX_SIZE. by zcases. }
  cbn [mbind exec_bind]. apply bind_Ret_inv in E as ([] & -> & E). cbn [mbind exec_bind].
  destruct (e =? w).
  { apply bind_Ret_inv in E as (s1 & E & [= <- <-]). by rewrite (Hret _ _ _ E). }
  unfold insertion_index in *. cbn [fra_free_list set_region] in *.
  do 8 (apply bind_Ret_inv in E as (? & -> & E); cbn [mbind exec_bind]).
  destruct (_ : result _ _); [|by simplify_eq]. apply bind_Ret_inv in E as (s1 & E & [= <- <-]). by rewrite (Hret _ _ _ E).
Qed.

Lemma wp_mmap_allocate s size :
  mmap_inv s -> 0 < size -> fra_watermark s + page_round size <= stack_bottom ->
  wp (FreeRegionAllocator_allocate s size) (fun '(s', o) => exists b, o = Some b /\ mmap_inv s' /\
    b mod 4096 = 0 /\ USER_MMAP_BASE <= b /\ b + page_round size <= stack_bottom /\
    (forall x, b <= x < b + page_round size -> ~ allocated s x) /\
    (forall x, allocated s' x <-> allocated s x \/ b <= x < b + page_round size)).
Proof using.
  intros [Hr Hi] Hs Hw. pose proof (page_round_spec size) as [Hsz _].
  assert (vr_base mmap_window = vr_base (fra_region s)) as Hb by (by rewrite Hr).
  assert (USER_MMAP_BASE <= fra_watermark s) as Hwb.
  { destruct Hi as (_ & Hg & _). pose proof (gaps_lt _ _ _ Hg) as H. change (USER_MMAP_BASE - 1 < fra_watermark s) in H. lia. }
  assert (region_end mmap_window + size + PAGE_MASK < U64) as Hov.
  { change (region_end mmap_window) with stack_bottom. change stack_bottom with 0x7FFFFFFEF000 in *.
    unfold USER_MMAP_BASE, PAGE_MASK, U64 in *. lia. }
  destruct (proj1 (wp_exists _ _) (wp_allocate (set_region mmap_window s) size Hi Hs Hov)) as ([s1 o] & E & Hp).
  destruct Hp as (Hi1 & Hr1 & Ho). cbn [fra_region set_region] in *. destruct o as [b|].
  2:{ destruct Ho as [_ Ho]. change (region_end mmap_window) with stack_bottom in Ho.
      destruct (Ho (fra_watermark s)) as (x & Hx & [Hx' _]); [done|done|]. cbn [fra_watermark set_region] in Hx'. lia. }
  rewrite (allocate_set_region s size s1 b Hr E). destruct Ho as (Hal & Hlo & Hhi & Hn & Hall).
  exists b. split_and!; try done; [by apply mmap_inv_back| |].
  - intros x Hx. rewrite <- (allocated_region mmap_window s) by done. by apply Hn.
  - intros x. rewrite <- (allocated_region mmap_window s) by done. rewrite <- Hall. apply allocated_region. by rewrite Hr1.
Qed.

Lemma wp_mmap_deallocate s base size :
  mmap_inv s -> 0 < size -> base mod 4096 = 0 -> (forall x, base <= x < base + page_round size -> allocated s x) ->
  wp (FreeRegionAllocator_deallocate s base size) (fun '(s', _) => mmap_inv s' /\
    forall x, ~ (base <= x < base + page_round size) -> allocated s' x <-> allocated s x).
Proof using.
  intros [Hr Hi] Hs Hal Hall. assert (vr_base mmap_window = vr_base (fra_region s)) as Hb by (by rewrite Hr).
  assert (forall x, base <= x < base + page_round size -> allocated (set_region mmap_window s) x) as Hall'.
  { intros x Hx. apply allocated_region; [done|by apply Hall]. }
  destruct (proj1 (wp_exists _ _) (wp_deallocate (set_region mmap_window s) base size Hi Hs Hal Hall')) as ([s1 r] & E & Hp).
  rewrite (deallocate_set_region s base size s1 r Hr E). destruct r as [[]|[]]; cbn [free_post] in Hp.
  - destruct Hp as (Hi1 & Hr1 & Hfree). split; [by apply mmap_inv_back|]. intros x Hx.
    rewrite (allocated_region mmap_region s1) by (by rewrite Hr1). rewrite Hfree, allocated_region by done. tauto.
  - destruct Hp as (-> & _). split; [by apply mmap_inv_back|]. intros x Hx.
    rewrite (allocated_region mmap_region) by done. by rewrite allocated_region.
Qed.
End Ranges.

(** [page_align_up] of the calls. *)
Definition pages_of (length : Z) : Z := (length + 4095) / 4096.

Lemma mem_round_pages length : page_round length = 4096 * pages_of length.
Proof. done. Qed.

Lemma page_round_aligned n : page_round (4096 * n) = 4096 * n.
Proof. unfold page_round, PAGE_SIZE, PAGE_MASK. f_equal. divlia. Qed.

Lemma pages_of_bounds length : length <= 4096 * pages_of length < length + 4096.
Proof. unfold pages_of. divlia. Qed.

Lemma wp_mem_page_align_up size (Q : Z -> Prop) :
  0 <= size -> size + 4096 < U64 -> Q (4096 * pages_of size) -> wp (mem_page_align_up size) Q.
Proof.
  intros H0 H1 HQ. unfold mem_page_align_up, PAGE_SIZE. wp_step. wp_step. wp_step. wp_step. wp_step.
  change (4096 - 1) with (2 ^ 12 - 1). rewrite land_not_mask; [|ulia|lia].
  replace (size + 4096 - 1) with (size + 4095) by lia. exact HQ.
Qed.

(** ** The pages of a process *)

(** A page: the frame behind it, or none for a page with a frame of its own;
    its flags come from the protection asked for. *)
Record vpage (G : Type) : Type := mkVpage { vp_frame : option Z; vp_base : G; vp_prot : Z }.
Arguments mkVpage {G}.
Arguments vp_frame {G}.
Arguments vp_base {G}.
Arguments vp_prot {G}.

Section Pages.
Context {G : Type}.

Fixpoint put_pages (lo : Z) (n : nat) (pg : Z -> vpage G) (P : gmap Z (vpage G)) : gmap Z (vpage G) :=
  match n with O => P | S n => put_pages (lo + 1) n pg (<[lo := pg lo]> P) end.

Fixpoint del_pages (lo : Z) (n : nat) (P : gmap Z (vpage G)) : gmap Z (vpage G) :=
  match n with O => P | S n => del_pages (lo + 1) n (delete lo P) end.

Lemma lookup_put lo n pg P k :
  put_pages lo n pg P !! k = if decide (lo <= k < lo + Z.of_nat n) then Some (pg k) else P !! k.
Proof using.
  revert lo P. induction n as [|n IH]; intros lo P; cbn [put_pages]; [by rewrite decide_False by lia|].
  rewrite IH. destruct (decide (k = lo)) as [->|Hne].
  - rewrite decide_False, decide_True by lia. apply lookup_insert_eq.
  - rewrite lookup_insert_ne by done. by do 2 case_decide; try lia.
Qed.

Lemma lookup_del lo n P k :
  del_pages lo n P !! k = if decide (lo <= k < lo + Z.of_nat n) then None else P !! k.
Proof using.
  revert lo P. induction n as [|n IH]; intros lo P; cbn [del_pages]; [by rewrite decide_False by lia|].
  rewrite IH. destruct (decide (k = lo)) as [->|Hne].
  - rewrite decide_False, decide_True by lia. apply lookup_delete_eq.
  - rewrite lookup_delete_ne by done. by do 2 case_decide; try lia.
Qed.
End Pages.

Section Memory.
Context {G : Type} `{BG : BitFlags MF_ALL G} {A : Type} `{FA : FrameAllocator A} `{FD : !FrameDeallocator A}.
Context {off : Z} `{PM : !PageMapper G A off}.
Context {W : Type} (self : AddressSpace W) (σ0 : aspace).
Abbreviation root := (as_root_phys self).
Implicit Types (P : gmap Z (vpage G)) (pages : gmap Z (Z * Z)) (c : Z -> Z) (a : A) (m : mem).

Definition vp_flags (pg : vpage G) : G := prot_flags (vp_base pg) (vp_prot pg).

Definition backed (o : option (vpage G)) (e : option (Z * Z)) : Prop :=
  match o, e with
  | Some pg, Some (f, fl) => fl = user_rights (PM := PM) (vp_flags pg) /\ (forall g, vp_frame pg = Some g -> f = g)
  | None, None => True
  | _, _ => False
  end.

(** The frame [f] belongs to the page [k]. *)
Definition owns P pages (k f : Z) : Prop :=
  exists pg fl, P !! k = Some pg /\ vp_frame pg = None /\ pages !! k = Some (f, fl).

(** The tables show the pages [P] over [σ0].  Each private page has a frame of
    its own, in use, that is no table and holds the bytes [c]. *)
Record shows P c a m pages : Prop := {
  sh_inv : pm_inv a m root (page_view pages σ0);
  sh_page : forall k, backed (P !! k) (pages !! k);
  sh_own : forall k f, owns P pages k f -> fd_managed (A := A) f /\ f ∉ fa_free a;
  sh_table : forall k f x, owns P pages k f -> in_frame off (f * 4096) x -> ~ pm_table root m x;
  sh_inj : forall k j f, owns P pages k f -> owns P pages j f -> k = j;
  sh_bytes : forall k f j, owns P pages k f -> 0 <= j < 4096 -> m (off + f * 4096 + j) = c (k * 4096 + j);
}.

(** The bytes of private pages matter only. *)
Lemma shows_bytes P c c' a m pages :
  shows P c a m pages -> (forall k j pg, P !! k = Some pg -> 0 <= j < 4096 -> c' (k * 4096 + j) = c (k * 4096 + j)) ->
  shows P c' a m pages.
Proof using.
  intros [H1 H2 H3 H4 H5 H6] Hc. split; try done. intros k f j Ho Hj. rewrite (H6 k f j Ho Hj).
  destruct Ho as (pg & fl & E & _). symmetry. by apply (Hc k j pg).
Qed.

(** Other activity: the allocator and memory change, but not the tables and
    the frames of private pages. *)
Lemma shows_other P c a m pages a' m' :
  shows P c a m pages -> fa_inv a' m' -> fa_offset a' = off -> (forall x, pm_table root m x -> m' x = m x) ->
  (forall f x, f ∈ fa_free a' -> in_frame off (f * 4096) x -> ~ pm_table root m x) ->
  (forall k f, owns P pages k f -> (f ∉ fa_free a') /\ forall x, in_frame off (f * 4096) x -> m' x = m x) ->
  shows P c a' m' pages.
Proof using.
  intros [H1 H2 H3 H4 H5 H6] Hi Ho Ht Hf Hown. destruct (pm_inv_frames a a' m m' root _ H1 Hi Ho Ht Hf) as [Hi' Ht'].
  split; [done|done| | |done|].
  - intros k f Hk. split; [by apply (H3 k)|by apply (Hown k)].
  - intros k f x Hk Hx Hx'. by apply (H4 k f x Hk Hx), Ht'.
  - intros k f j Hk Hj. rewrite (proj2 (Hown k f Hk)) by (unfold in_frame; lia). by apply H6.
Qed.

(** An operation on the tables keeps the frames of private pages. *)
Lemma owned_kept P c a m pages a1 a2 m2 k f :
  shows P c a m pages -> fa_free a1 ⊆ fa_free a -> kept off (pm_table root) a1 m a2 m2 -> owns P pages k f ->
  (f ∉ fa_free a2) /\ forall x, in_frame off (f * 4096) x -> ~ pm_table root m2 x /\ m2 x = m x.
Proof using.
  intros Hs Hsub (Hs2 & Ht2 & Hm2) Ho. destruct (sh_own _ _ _ _ _ Hs k f Ho) as [_ Hf].
  split; [clear -Hf Hsub Hs2; set_solver|]. intros x Hx.
  assert (forall g, taken a1 a2 g -> ~ in_frame off (g * 4096) x) as Hn.
  { intros g Hg Hx'. rewrite <- (in_frame_inj off f g x Hx Hx') in Hg. unfold taken in Hg. clear -Hg Hf Hsub. set_solver. }
  pose proof (sh_table _ _ _ _ _ Hs k f x Ho Hx) as Hnt. split; [|by apply Hm2].
  intros Hx'. destruct (Ht2 x Hx') as [?|(g & Hg & Hgx)]; [done|]. by apply (Hn g).
Qed.

Lemma owns_insert P pages k pg f fl j g :
  owns (<[k := pg]> P) (<[k := (f, fl)]> pages) j g ->
  (j = k /\ g = f /\ vp_frame pg = None) \/ (j <> k /\ owns P pages j g).
Proof using.
  intros (pg' & fl' & E1 & Hn & E2). destruct (decide (j = k)) as [->|Hne].
  - rewrite lookup_insert_eq in E1. rewrite lookup_insert_eq in E2. simplify_eq. by left.
  - rewrite lookup_insert_ne in E1 by done. rewrite lookup_insert_ne in E2 by done. right. split; [done|]. by exists pg', fl'.
Qed.

Lemma owns_delete P pages k j g : owns (delete k P) (delete k pages) j g -> j <> k /\ owns P pages j g.
Proof using.
  intros (pg' & fl' & [? E1]%lookup_delete_Some & Hn & [_ E2]%lookup_delete_Some). split; [done|]. by exists pg', fl'.
Qed.

Lemma backed_insert P pages k pg f fl :
  (forall j, backed (P !! j) (pages !! j)) -> backed (Some pg) (Some (f, fl)) ->
  forall j, backed (<[k := pg]> P !! j) (<[k := (f, fl)]> pages !! j).
Proof using.
  intros H1 H2 j. destruct (decide (j = k)) as [->|Hne]; [by rewrite !lookup_insert_eq|by rewrite !lookup_insert_ne].
Qed.

Lemma view_insert pages k f fl :
  same_space (set_pages Size4KiB (k * 4096) (Some (Size4KiB, f * 4096, fl)) (page_view pages σ0))
    (page_view (<[k := (f, fl)]> pages) σ0).
Proof using.
  intros v _. unfold set_pages, page_view. simpl SIZE. rewrite Z.div_mul by lia.
  destruct (decide (v / 4096 = k)) as [->|Hne]; [by rewrite lookup_insert_eq|by rewrite lookup_insert_ne].
Qed.

Lemma view_delete pages k :
  (forall v, v / 4096 = k -> σ0 v = None) ->
  same_space (set_pages Size4KiB (k * 4096) None (page_view pages σ0)) (page_view (delete k pages) σ0).
Proof using.
  intros Hk v _. unfold set_pages, page_view. simpl SIZE. rewrite Z.div_mul by lia.
  destruct (decide (v / 4096 = k)) as [E|Hne]; [rewrite E, lookup_delete_eq; symmetry; by apply Hk|by rewrite lookup_delete_ne].
Qed.

(** A page with a frame of its own is added; [c] has its bytes. *)
Lemma shows_add P c a m pages a1 a2 m2 m3 k pg f :
  shows P c a m pages -> vp_frame pg = None -> f ∈ fa_free a -> fa_free a1 = fa_free a ∖ {[f]} ->
  pm_inv a2 m2 root (set_pages Size4KiB (k * 4096) (Some (Size4KiB, f * 4096, user_rights (PM := PM) (vp_flags pg))) (page_view pages σ0)) ->
  kept off (pm_table root) a1 m a2 m2 -> (forall x, ~ in_frame off (f * 4096) x -> m3 x = m2 x) ->
  (forall j, 0 <= j < 4096 -> m3 (off + f * 4096 + j) = c (k * 4096 + j)) ->
  shows (<[k := pg]> P) c a2 m3 (<[k := (f, user_rights (PM := PM) (vp_flags pg))]> pages).
Proof using.
  intros Hs Hpg Hf Hfree Hi2 Hk2 Hout Hin. pose proof Hk2 as (Hs2 & Ht2 & _). pose proof (sh_inv _ _ _ _ _ Hs) as Hi.
  assert ((f ∉ fa_free a1) /\ fa_free a1 ⊆ fa_free a) as [Hf1 Hsub1] by (rewrite Hfree; set_solver).
  assert (f ∉ fa_free a2) as Hf2 by (clear -Hf1 Hs2; set_solver).
  destruct (pm_inv_fa _ _ _ _ Hi) as [Hfa _]. pose proof (fd_free_managed a m f Hfa Hf) as Hman.
  assert (forall x, in_frame off (f * 4096) x -> ~ pm_table root m2 x) as Hnt.
  { intros x Hx Htx. destruct (Ht2 x Htx) as [Htx'|(g & Hg & Hx')]; [by apply (pm_inv_free _ _ _ _ _ _ Hi Htx' Hf)|].
    rewrite (in_frame_inj off f g x Hx Hx') in Hf1. unfold taken in Hg. clear -Hg Hf1. set_solver. }
  destruct (pm_inv_fill root a2 m2 _ m3 f Hi2 Hf2 Hnt Hout) as [Hi3 Ht3].
  assert (forall j g, owns P pages j g -> g <> f) as Hgf.
  { intros j g Ho ->. by destruct (sh_own _ _ _ _ _ Hs j f Ho). }
  pose proof (fun j g => owned_kept P c a m pages a1 a2 m2 j g Hs Hsub1 Hk2) as Hold. split.
  - by eapply pm_inv_same; [apply view_insert|].
  - apply backed_insert; [apply Hs|]. split; [done|]. intros g E. by rewrite Hpg in E.
  - intros j g [(-> & -> & _)|[_ Ho]]%owns_insert; [done|].
    split; [by apply (sh_own _ _ _ _ _ Hs j)|by apply (Hold j)].
  - intros j g x [(-> & -> & _)|[_ Ho]]%owns_insert Hx Htx; [by apply (Hnt x Hx), Ht3|].
    by apply (proj1 (proj2 (Hold j g Ho) x Hx)), Ht3.
  - intros i j g [(-> & -> & _)|[? Ho]]%owns_insert [(-> & E & _)|[? Ho']]%owns_insert; [done| | |].
    + by destruct (Hgf j f).
    + subst g. by destruct (Hgf i f).
    + by apply (sh_inj _ _ _ _ _ Hs i j g).
  - intros i g j [(-> & -> & _)|[? Ho]]%owns_insert Hj; [by apply Hin|].
    assert (in_frame off (g * 4096) (off + g * 4096 + j)) as Hx by (unfold in_frame; lia).
    rewrite Hout, (proj2 (proj2 (Hold i g Ho) _ Hx)); [by apply (sh_bytes _ _ _ _ _ Hs)|].
    intros Hx'. by apply (Hgf i g Ho), (in_frame_inj off _ _ _ Hx Hx').
Qed.

(** A page of somebody else's frame is added. *)
Lemma shows_borrow P c a m pages a2 m2 k pg f :
  shows P c a m pages -> vp_frame pg = Some f ->
  pm_inv a2 m2 root (set_pages Size4KiB (k * 4096) (Some (Size4KiB, f * 4096, user_rights (PM := PM) (vp_flags pg))) (page_view pages σ0)) ->
  kept off (pm_table root) a m a2 m2 ->
  shows (<[k := pg]> P) c a2 m2 (<[k := (f, user_rights (PM := PM) (vp_flags pg))]> pages).
Proof using.
  intros Hs Hpg Hi2 Hk2. pose proof (fun j g => owned_kept P c a m pages a a2 m2 j g Hs (reflexivity _) Hk2) as Hold.
  assert (forall j g, owns (<[k := pg]> P) (<[k := (f, user_rights (PM := PM) (vp_flags pg))]> pages) j g -> owns P pages j g) as Hown.
  { intros j g [(_ & _ & E)|[_ Ho]]%owns_insert; [by rewrite Hpg in E|done]. }
  split.
  - by eapply pm_inv_same; [apply view_insert|].
  - apply backed_insert; [apply Hs|]. split; [done|]. intros g E. congruence.
  - intros j g Ho%Hown. split; [by apply (sh_own _ _ _ _ _ Hs j)|by apply (Hold j)].
  - intros j g x Ho%Hown Hx. by apply (Hold j g Ho).
  - intros i j g Hi%Hown Hj%Hown. by apply (sh_inj _ _ _ _ _ Hs i j g).
  - intros i g j Ho%Hown Hj. rewrite (proj2 (proj2 (Hold i g Ho) (off + g * 4096 + j) ltac:(unfold in_frame; lia))).
    by apply (sh_bytes _ _ _ _ _ Hs).
Qed.

(** A page is taken out of the tables. *)
Lemma shows_remove P c a m pages m2 k :
  shows P c a m pages -> (forall v, v / 4096 = k -> σ0 v = None) ->
  pm_inv a m2 root (set_pages Size4KiB (k * 4096) None (page_view pages σ0)) -> kept off (pm_table root) a m a m2 ->
  shows (delete k P) c a m2 (delete k pages).
Proof using.
  intros Hs Hσ Hi2 Hk2. pose proof (fun j g => owned_kept P c a m pages a a m2 j g Hs (reflexivity _) Hk2) as Hold. split.
  - by eapply pm_inv_same; [by apply view_delete|].
  - intros j. destruct (decide (j = k)) as [->|Hne]; [by rewrite !lookup_delete_eq|]. rewrite !lookup_delete_ne by done. apply Hs.
  - intros j g [_ Ho]%owns_delete. by apply (sh_own _ _ _ _ _ Hs j).
  - intros j g x [_ Ho]%owns_delete Hx. by apply (Hold j g Ho).
  - intros i j g [_ Hi]%owns_delete [_ Hj]%owns_delete. by apply (sh_inj _ _ _ _ _ Hs i j g).
  - intros i g j [_ Ho]%owns_delete Hj. rewrite (proj2 (proj2 (Hold i g Ho) (off + g * 4096 + j) ltac:(unfold in_frame; lia))).
    by apply (sh_bytes _ _ _ _ _ Hs).
Qed.

(** A frame that no page and no table needs is freed. *)
Lemma shows_free P c a m pages f :
  shows P c a m pages -> fd_managed (A := A) f -> f ∉ fa_free a ->
  (forall x, in_frame off (f * 4096) x -> ~ pm_table root m x) -> (forall k, ~ owns P pages k f) ->
  wp (fd_deallocate a m (f * 4096)) (fun '(a', m') => shows P c a' m' pages /\ fa_free a' = {[f]} ∪ fa_free a).
Proof using.
  intros Hs Hman Hf Hnt Hno. pose proof (sh_inv _ _ _ _ _ Hs) as Hi. destruct (pm_inv_fa _ _ _ _ Hi) as [Hfa Ho].
  eapply wp_mono; [by apply fd_deallocate_spec|]. intros [a' m'] (Hfa' & Ho' & Hfree & Hout). split; [|done].
  assert (forall x, ~ in_frame off (f * 4096) x -> m' x = m x) as Hout'.
  { intros x Hx. apply Hout. unfold in_frame, FRAME_SIZE in *. rewrite Ho. lia. }
  apply (shows_other P c a m); [done|done|congruence| | |].
  - intros x Hx. apply Hout'. intros Hin. by apply (Hnt x).
  - intros g x Hg Hx Htx. rewrite Hfree in Hg. apply elem_of_union in Hg as [->%elem_of_singleton|Hg]; [by apply (Hnt x)|].
    by apply (pm_inv_free _ _ _ _ _ _ Hi Htx Hg).
  - intros k g Hk. assert (g <> f) as Hne by (intros ->; by apply (Hno k)). split.
    + rewrite Hfree. pose proof (proj2 (sh_own _ _ _ _ _ Hs k g Hk)). clear -H Hne. set_solver.
    + intros x Hx. apply Hout'. intros Hx'. by apply Hne, (in_frame_inj off _ _ _ Hx Hx').
Qed.

(** *** The loops *)

Lemma wp_page_at q i (Q : Z -> Prop) :
  0 <= q -> 0 <= i -> 4096 * (q + i + 1) <= 2 ^ 47 -> Q ((q + i) * 4096) -> wp (page_at (4096 * q) i) Q.
Proof using.
  intros H0 H1 H2 HQ. unfold page_at, PAGE_SIZE. wp_step. wp_step. wp_step. wp_step.
  replace (4096 * q + i * 4096) with ((q + i) * 4096) by lia.
  assert (canonical ((q + i) * 4096)) as Hc by (left; lia). wp_step. rewrite VirtAddr_new_ok by done. wp_step.
  apply wp_Page_containing_aligned; [done|by apply Z_mod_mult|done].
Qed.

Lemma unmapped P c a m pages k :
  shows P c a m pages -> P !! k = None -> σ0 (k * 4096) = None -> page_view pages σ0 (k * 4096) = None.
Proof using.
  intros Hs Hk Hσ. unfold page_view. rewrite Z.div_mul by lia. pose proof (sh_page _ _ _ _ _ Hs k) as Hb.
  rewrite Hk in Hb. by destruct (pages !! k).
Qed.

Lemma wp_map_zeroed (pg : vpage G) q n P c a m pages i :
  vp_frame pg = None -> Z.testbit (bf_bits (bf_union (vp_flags pg) MF_USER)) 5 = false ->
  shows P c a m pages -> 0 <= q -> 0 <= i -> 4096 * (q + i + Z.of_nat n) <= 2 ^ 47 ->
  (forall k, q + i <= k < q + i + Z.of_nat n -> P !! k = None /\ σ0 (k * 4096) = None) ->
  (forall v, q + i <= v / 4096 < q + i + Z.of_nat n -> c v = 0) -> (4 * n <= size (fa_free a))%nat ->
  wp (map_zeroed (PM := PM) self (4096 * q) (vp_flags pg) a m i n) (fun '(a', m', r) => r = Ok tt /\
    exists pages', shows (put_pages (q + i) n (fun _ => pg) P) c a' m' pages').
Proof using.
  intros Hpg Hg5. revert P a m pages i. induction n as [|n IH]; intros P a m pages i Hs Hq Hi Hb Hn Hc Hsz;
    unfold map_zeroed; fold (map_zeroed (PM := PM) (W := W)).
  { wp_step. split; [done|]. by exists pages. }
  pose proof (sh_inv _ _ _ _ _ Hs) as Hinv. destruct (pm_inv_fa _ _ _ _ Hinv) as [Hfa Ho].
  unfold PAGE_SIZE. wp_step. wp_step. wp_step. wp_step. replace (4096 * q + i * 4096) with ((q + i) * 4096) by lia.
  wp_step. eapply wp_mono; [by apply fa_allocate_spec|].
  intros [a1 [p|]] (Hfa1 & Ho1 & Hr); [|destruct Hr as [_ Hr]; rewrite Hr, size_empty in Hsz; lia].
  destruct Hr as (f & -> & Hf & Hfree). destruct (fa_frame_bound _ _ _ Hfa Hf) as (H0 & Hfb & Hlo & Hhi).
  unfold FRAME_SIZE in *. rewrite Ho in *. pose proof (size_take_out _ _ Hf) as Hs1.
  assert (pm_inv a1 m root (page_view pages σ0)) as Hi1.
  { apply (pm_inv_alloc a); [done|done|by rewrite Ho1|]. rewrite Hfree. set_solver. }
  assert (canonical ((q + i) * 4096)) as Hcan by (left; lia).
  wp_step. rewrite VirtAddr_new_ok by done. wp_step. wp_step. apply wp_Page_containing_aligned; [done|by apply Z_mod_mult|].
  unfold map_user_page. wp_step. wp_step. destruct (Hn (q + i) ltac:(lia)) as [Hnone Hσ].
  eapply wp_mono; [apply (pm_map_spec a1 m root _ ((q + i) * 4096) (f * 4096) _ Hi1)|]; try done.
  { unfold is_phys. lia. } { by apply Z_mod_mult. } { rewrite Hfree. lia. } { by apply (unmapped P c a m). }
  intros [a2 m2] (Hi2 & Hsz2 & Hk). wp_step. cbv beta iota zeta.
  rewrite VirtAddr_add_canonical by (right; unfold U64 in *; lia).
  eapply wp_mono; [apply (IH (<[q + i := pg]> P) a2 _ (<[q + i := (f, user_rights (PM := PM) (vp_flags pg))]> pages) (i + 1))|]; try lia.
  - apply (shows_add P c a m pages a1 a2 m2); try done.
    + intros x Hx. unfold write_bytes, in_frame in *. by zcases.
    + intros j Hj. rewrite Hc by (clear -Hj; divlia). unfold write_bytes. by zcases.
  - intros k Hk'. rewrite lookup_insert_ne by lia. apply Hn. lia.
  - intros v Hv. apply Hc. lia.
  - rewrite Hfree in *. lia.
  - intros [[a3 m3] r] [Hr Hs3]. split; [done|]. by rewrite Z.add_assoc in Hs3.
Qed.

Lemma wp_map_frames (pg : Z -> vpage G) (flags : G) (frame_of : Z -> exec Z) q n P c a m pages i :
  (forall k, vp_flags (pg k) = flags) -> Z.testbit (bf_bits (bf_union flags MF_USER)) 5 = false ->
  shows P c a m pages -> 0 <= q -> 0 <= i -> 4096 * (q + i + Z.of_nat n) <= 2 ^ 47 ->
  (forall j, i <= j < i + Z.of_nat n -> exists f, vp_frame (pg (q + j)) = Some f /\ frame_of j = Ret (f * 4096) /\ is_phys (f * 4096)) ->
  (forall k, q + i <= k < q + i + Z.of_nat n -> P !! k = None /\ σ0 (k * 4096) = None) -> (3 * n <= size (fa_free a))%nat ->
  wp (map_frames (PM := PM) self (4096 * q) frame_of flags a m i n) (fun '(a', m', r) => r = Ok tt /\
    exists pages', shows (put_pages (q + i) n pg P) c a' m' pages').
Proof using.
  intros Hfl Hg5. revert P a m pages i. induction n as [|n IH]; intros P a m pages i Hs Hq Hi Hb Hfr Hn Hsz;
    unfold map_frames; fold (map_frames (PM := PM) (W := W)).
  { wp_step. split; [done|]. by exists pages. }
  pose proof (sh_inv _ _ _ _ _ Hs) as Hinv. destruct (Hfr i ltac:(lia)) as (f & Hf & Ef & Hph).
  wp_step. apply wp_page_at; [done|done|lia|]. rewrite Ef. wp_step. wp_step. cbv beta iota zeta.
  unfold map_user_page. wp_step. wp_step. destruct (Hn (q + i) ltac:(lia)) as [Hnone Hσ].
  eapply wp_mono; [apply (pm_map_spec a m root _ ((q + i) * 4096) (f * 4096) _ Hinv)|]; try done.
  { left. lia. } { by apply Z_mod_mult. } { lia. } { by apply (unmapped P c a m). }
  intros [a2 m2] (Hi2 & Hsz2 & Hk). wp_step. cbv beta iota zeta.
  eapply wp_mono; [apply (IH (<[q + i := pg (q + i)]> P) a2 _ (<[q + i := (f, user_rights (PM := PM) (vp_flags (pg (q + i))))]> pages) (i + 1))|]; try lia.
  - apply (shows_borrow P c a m pages a2 m2); try done. by rewrite Hfl.
  - intros j Hj. apply Hfr. lia.
  - intros k Hk'. rewrite lookup_insert_ne by lia. apply Hn. lia.
  - intros [[a3 m3] r] [Hr Hs3]. split; [done|]. by rewrite Z.add_assoc in Hs3.
Qed.

(** Taking out one page that is there. *)
Lemma wp_unmap_shown P c a m pages k pg (Q : mem * result Z VmmError -> Prop) :
  shows P c a m pages -> P !! k = Some pg -> 0 <= k -> 4096 * (k + 1) <= 2 ^ 47 -> (forall v, v / 4096 = k -> σ0 v = None) ->
  (forall m' f fl, pages !! k = Some (f, fl) -> shows (delete k P) c a m' (delete k pages) ->
     (forall g x, owns P pages k g -> in_frame off (g * 4096) x -> ~ pm_table root m' x) -> Q (m', Ok (f * 4096))) ->
  wp (unmap_user_page (PM := PM) self (k * 4096) m) Q.
Proof using.
  intros Hs Hk H0 Hb Hσ HQ. pose proof (sh_page _ _ _ _ _ Hs k) as Hp. rewrite Hk in Hp.
  destruct (pages !! k) as [[f fl]|] eqn:Ek; [|done]. unfold unmap_user_page. wp_step.
  eapply wp_mono; [apply (pm_unmap_spec a m root _ _ (sh_inv _ _ _ _ _ Hs)); left; lia|].
  assert (page_view pages σ0 (k * 4096) = Some (Size4KiB, f * 4096, fl)) as Ev.
  { unfold page_view. by rewrite Z.div_mul, Ek by lia. }
  intros [m' [r|e]] [Hr Hkept].
  - destruct Hr as (pa & fl' & E & -> & Hi). rewrite Ev in E. injection E as <- <-.
    wp_step. replace (4096 * (f * 4096 / 4096)) with (f * 4096) by (rewrite Z.div_mul; lia). apply (HQ m' f fl); [done| |].
    + by apply (shows_remove P c a m).
    + intros g x Ho Hx. by apply (proj2 (owned_kept P c a m pages a a m' k g Hs (reflexivity _) Hkept Ho) x Hx).
  - destruct Hr as [_ [Hno _]]. by destruct (Hno _ _ Ev).
Qed.

Lemma wp_unmap_free q n P c a m pages i :
  shows P c a m pages -> 0 <= q -> 0 <= i -> 4096 * (q + i + Z.of_nat n) <= 2 ^ 47 ->
  (forall k, q + i <= k < q + i + Z.of_nat n -> (exists pg, P !! k = Some pg /\ vp_frame pg = None) /\ forall v, v / 4096 = k -> σ0 v = None) ->
  wp (unmap_free (PM := PM) self (4096 * q) a m i n) (fun '(a', m') =>
    (exists pages', shows (del_pages (q + i) n P) c a' m' pages') /\ size (fa_free a') = (size (fa_free a) + n)%nat).
Proof using.
  revert P a m pages i. induction n as [|n IH]; intros P a m pages i Hs Hq Hi Hb Hn;
    unfold unmap_free; fold (unmap_free (PM := PM) (W := W)).
  { wp_step. split; [by exists pages|lia]. }
  wp_step. apply wp_page_at; [done|done|lia|]. destruct (Hn (q + i) ltac:(lia)) as [(pg & Hk & Hpg) Hσ].
  wp_step. apply (wp_unmap_shown P c a m pages (q + i) pg); [done|done|lia|lia|done|].
  intros m1 f fl Ek Hs1 Hnt. cbv beta iota.
  assert (owns P pages (q + i) f) as Ho by (by exists pg, fl).
  destruct (sh_own _ _ _ _ _ Hs _ f Ho) as [Hman Hf]. wp_step.
  eapply wp_mono; [apply (shows_free _ _ _ _ _ f Hs1 Hman Hf)|].
  - intros x Hx. by apply (Hnt f).
  - intros j [Hne Hj]%owns_delete. by apply Hne, (sh_inj _ _ _ _ _ Hs j (q + i) f).
  - intros [a2 m2] [Hs2 Hfree]. cbv beta iota.
    eapply wp_mono; [apply (IH (delete (q + i) P) a2 m2 (delete (q + i) pages) (i + 1) Hs2); try lia|].
    + intros k Hk'. rewrite lookup_delete_ne by lia. apply Hn. lia.
    + intros [a3 m3] [Hs3 Hsz]. rewrite Z.add_assoc in Hs3. split; [exact Hs3|].
      rewrite Hsz, Hfree, size_union, size_singleton by (clear -Hf; set_solver). lia.
Qed.

Lemma wp_unmap_only q n P c a m pages i :
  shows P c a m pages -> 0 <= q -> 0 <= i -> 4096 * (q + i + Z.of_nat n) <= 2 ^ 47 ->
  (forall k, q + i <= k < q + i + Z.of_nat n -> is_Some (P !! k) /\ forall v, v / 4096 = k -> σ0 v = None) ->
  wp (unmap_only (PM := PM) self (4096 * q) m i n) (fun m' => exists pages', shows (del_pages (q + i) n P) c a m' pages').
Proof using.
  revert P m pages i. induction n as [|n IH]; intros P m pages i Hs Hq Hi Hb Hn;
    unfold unmap_only; fold (unmap_only (PM := PM) (W := W)).
  { wp_step. by exists pages. }
  wp_step. apply wp_page_at; [done|done|lia|]. destruct (Hn (q + i) ltac:(lia)) as [(pg & Hk) Hσ].
  wp_step. apply (wp_unmap_shown P c a m pages (q + i) pg); [done|done|lia|lia|done|].
  intros m1 f fl Ek Hs1 _. cbv beta iota.
  eapply wp_mono; [apply (IH (delete (q + i) P) m1 (delete (q + i) pages) (i + 1) Hs1); try lia|].
  - intros k Hk'. rewrite lookup_delete_ne by lia. apply Hn. lia.
  - intros m3 Hs3. by rewrite Z.add_assoc in Hs3.
Qed.

(** *** Protection *)

(** The first [n] pages from [lo] on get the protection [prot]. *)
Definition reprotect (lo n prot : Z) P : gmap Z (vpage G) :=
  map_imap (fun k pg => Some (if decide (lo <= k < lo + n) then mkVpage (vp_frame pg) (bf_from_bits_retain 0) prot else pg)) P.

Lemma lookup_reprotect lo n prot P k :
  reprotect lo n prot P !! k =
  (fun pg => if decide (lo <= k < lo + n) then mkVpage (vp_frame pg) (bf_from_bits_retain 0) prot else pg) <$> P !! k.
Proof using. unfold reprotect. rewrite map_lookup_imap. by destruct (P !! k). Qed.

Lemma shows_reflag P c a m pages m' q n prot :
  shows P c a m pages -> (forall v, 4096 * q <= v < 4096 * (q + n) -> σ0 v = None) ->
  pm_inv a m' root (reflag (4096 * q) (4096 * n) (user_rights (PM := PM) (prot_flags (bf_from_bits_retain 0) prot)) (page_view pages σ0)) ->
  kept off (pm_table root) a m a m' ->
  exists pages', shows (reprotect q n prot P) c a m' pages'.
Proof using.
  intros Hs Hσ Hi Hk. pose proof (fun j g => owned_kept P c a m pages a a m' j g Hs (reflexivity _) Hk) as Hold.
  set (fl' := user_rights _) in *.
  exists (map_imap (fun k e => Some (if decide (q <= k < q + n) then (e.1, fl') else e)) pages).
  assert (forall k, map_imap (fun k e => Some (if decide (q <= k < q + n) then (e.1, fl') else e)) pages !! k =
    (fun e => if decide (q <= k < q + n) then (e.1, fl') else e) <$> pages !! k) as Hlook.
  { intros k. rewrite map_lookup_imap. by destruct (pages !! k). }
  assert (forall k f, owns (reprotect q n prot P) (map_imap (fun k e => Some (if decide (q <= k < q + n) then (e.1, fl') else e)) pages) k f ->
    owns P pages k f) as Hown.
  { intros k f (pg & fl & E1 & Hn & E2). rewrite lookup_reprotect in E1. rewrite Hlook in E2.
    destruct (P !! k) as [pg'|] eqn:EP, (pages !! k) as [[f' fl0]|] eqn:Ep; try done. cbn in E1, E2.
    exists pg', fl0. case_decide; simplify_eq; done. }
  split.
  - eapply pm_inv_same; [|exact Hi]. intros v _. unfold reflag, page_view. rewrite Hlook.
    case_decide as Hd.
    + replace (4096 * q <=? v) with true by (clear -Hd; zcases; divlia).
      replace (v <? 4096 * q + 4096 * n) with true by (clear -Hd; zcases; divlia). simpl.
      destruct (pages !! (v / 4096)) as [[f fl]|]; [done|]. simpl. by rewrite Hσ by (clear -Hd; divlia).
    + replace ((4096 * q <=? v) && (v <? 4096 * q + 4096 * n)) with false by (clear -Hd; symmetry; apply andb_false_iff; zcases; divlia).
      by destruct (pages !! (v / 4096)) as [[f fl]|].
  - intros k. rewrite lookup_reprotect, Hlook. pose proof (sh_page _ _ _ _ _ Hs k) as Hb.
    destruct (P !! k) as [pg|], (pages !! k) as [[f fl]|]; try done. simpl in *. case_decide; [|done].
    split; [done|]. apply Hb.
  - intros j g Ho%Hown. by apply (sh_own _ _ _ _ _ Hs j).
  - intros j g x Ho%Hown Hx. by apply (Hold j g Ho).
  - intros i j g Hi'%Hown Hj%Hown. by apply (sh_inj _ _ _ _ _ Hs i j g).
  - intros i g j Ho%Hown Hj. rewrite (proj2 (proj2 (Hold i g Ho) (off + g * 4096 + j) ltac:(unfold in_frame; lia))).
    by apply (sh_bytes _ _ _ _ _ Hs).
Qed.

Lemma wp_protect_shown P c a m pages q n prot :
  shows P c a m pages -> paged σ0 -> Z.testbit (bf_bits (bf_union (prot_flags (G := G) (bf_from_bits_retain 0) prot) MF_USER)) 5 = false ->
  0 <= q -> 0 <= n -> 4096 * (q + n) <= 2 ^ 47 -> (forall v, 4096 * q <= v < 4096 * (q + n) -> σ0 v = None) ->
  wp (protect_range (PM := PM) self (4096 * q) n (prot_flags (bf_from_bits_retain 0) prot) m) (fun '(m', r) => exists k pages',
    0 <= k <= n /\ shows (reprotect q k prot P) c a m' pages' /\ (forall j, 0 <= j < k -> is_Some (P !! (q + j))) /\
    match r with Ok _ => k = n | Err _ => k < n /\ P !! (q + k) = None end).
Proof using.
  intros Hs Hpg H5 Hq Hn Hb Hσ. unfold protect_range. cbv zeta.
  assert (forall j, 0 <= j < n -> forall x, page_view pages σ0 (4096 * q + 4096 * j) = Some x -> is_Some (P !! (q + j))) as Hsome.
  { intros j Hj x. unfold page_view. replace ((4096 * q + 4096 * j) / 4096) with (q + j) by (clear; divlia).
    pose proof (sh_page _ _ _ _ _ Hs (q + j)) as Hk. destruct (pages !! (q + j)) as [e|]; [by destruct (P !! (q + j))|].
    by rewrite Hσ by lia. }
  assert (paged (page_view pages σ0)) as Hpv.
  { intros v w E. unfold page_view. rewrite E. by rewrite (Hpg v w E). }
  eapply wp_mono; [apply (wp_protect_pages root _ a m (page_view pages σ0) (4096 * q) (Z.to_nat n) 0 H5)|].
  - eapply pm_inv_same; [|apply Hs]. intros v _. unfold reflag. by zcases.
  - done.
  - lia.
  - lia.
  - rewrite Z.mul_comm. by apply Z_mod_mult.
  - intros v Hv. left. lia.
  - rewrite Z2Nat.id by lia. intros [m' r] (k & Hk & Hi & Hkept & Hpre & Hr).
    destruct (shows_reflag P c a m pages m' q k prot Hs) as [pages' Hs']; [intros v Hv; apply Hσ; lia|done|done|].
    exists k, pages'. split_and!; [lia|lia|done| |].
    + intros j Hj. destruct (Hpre j Hj) as (pa & fl & E). apply (Hsome j ltac:(lia) _ E).
    + destruct r; [lia|]. destruct Hr as [Hlt Hno]. split; [lia|].
      pose proof (sh_page _ _ _ _ _ Hs (q + k)) as Hbk. destruct (P !! (q + k)) as [pg|]; [|done].
      destruct (pages !! (q + k)) as [[f fl]|] eqn:E; [|done]. destruct (Hno (f * 4096) fl). unfold page_view.
      replace ((4096 * q + 4096 * k) / 4096) with (q + k) by (clear; divlia). by rewrite E.
Qed.

(** *** Loads and stores of the program *)

Lemma owned_translate P c a m pages v f :
  shows P c a m pages -> owns P pages (v / 4096) f -> 0 <= v < 2 ^ 47 ->
  pm_translate_addr m root v = Ret (Some (f * 4096 + v mod 4096)).
Proof using.
  intros Hs (pg & fl & _ & _ & E) Hv.
  assert (page_view pages σ0 v = Some (Size4KiB, f * 4096, fl)) as Ev by (unfold page_view; by rewrite E).
  rewrite (pm_translate_spec a m root _ v (sh_inv _ _ _ _ _ Hs)), Ev; [done|left; lia|]. rewrite Ev. by apply Z_mod_mult.
Qed.

Lemma owned_byte P c a m pages v f :
  shows P c a m pages -> owns P pages (v / 4096) f -> m (off + (f * 4096 + v mod 4096)) = c v.
Proof using.
  intros Hs Ho. pose proof (Z.mod_pos_bound v 4096 ltac:(lia)).
  rewrite Z.add_assoc, (sh_bytes _ _ _ _ _ Hs (v / 4096) f (v mod 4096) Ho) by lia. f_equal. divlia.
Qed.

Lemma shows_after_store P c a m pages v f b :
  shows P c a m pages -> owns P pages (v / 4096) f ->
  shows P (fun x => if x =? v then b else c x) a (write_bytes m (off + (f * 4096 + v mod 4096)) b 1) pages.
Proof using.
  intros Hs Ho. pose proof (Z.mod_pos_bound v 4096 ltac:(lia)) as Hv. pose proof (sh_inv _ _ _ _ _ Hs) as Hi.
  destruct (sh_own _ _ _ _ _ Hs _ f Ho) as [_ Hf]. set (x0 := off + (f * 4096 + v mod 4096)).
  assert (forall x, x <> x0 -> write_bytes m x0 b 1 x = m x) as Hout by (intros x Hx; unfold write_bytes; zcases; first [done|lia]).
  assert (in_frame off (f * 4096) x0) as Hin by (unfold in_frame, x0; lia).
  destruct (pm_inv_fill root a m _ (write_bytes m x0 b 1) f Hi Hf) as [Hi' Ht'].
  { intros x Hx. by apply (sh_table _ _ _ _ _ Hs (v / 4096) f). }
  { intros x Hx. apply Hout. by intros ->. }
  split; [done|apply Hs|apply Hs| |apply Hs|].
  - intros k g x Hg Hx Htx. by apply (sh_table _ _ _ _ _ Hs k g x Hg Hx), Ht'.
  - intros k g j Hg Hj. destruct (Z.eqb_spec (k * 4096 + j) v) as [E|E].
    + assert (k = v / 4096) as -> by (clear -E Hj; divlia). destruct Ho as (? & ? & ? & ? & E1), Hg as (? & ? & ? & ? & E2).
      rewrite E1 in E2. injection E2 as <- _. replace (off + f * 4096 + j) with x0 by (unfold x0; clear -E Hj; divlia).
      unfold write_bytes. zcases; first [done|lia].
    + rewrite Hout; [by apply (sh_bytes _ _ _ _ _ Hs)|]. intros Ex.
      assert (g = f) as -> by (apply (in_frame_inj off g f x0); [unfold in_frame; lia|done]).
      pose proof (sh_inj _ _ _ _ _ Hs _ _ _ Ho Hg) as <-. apply E. unfold x0 in Ex. clear -Ex. divlia.
Qed.
End Memory.
