(* ===== verification/MmapSafe.v ===== *)
(** * Correctness of the memory system calls

    The mappings of a process against a specification that knows its pages,
    their rights, the frames behind borrowed ones and the bytes of private
    ones.  Every sequence of calls that unmaps what it mapped is a run of the
    specification, whatever the rest of the kernel does meanwhile with memory
    that is not the process's.  The end of the file shows what calls outside
    the specification do. *)

From S2P Require Import Prelude Mem Addr Paging Layout Std FsTypes Extern Region Pmm PageTable PageWalk PageTableSpec PageMap Mapper Vmm AddressSpace FdTable Loader LoaderSpec LoaderSafe Mmap MmapSpec.

Definition page_count (kind : MappingKind) : Z :=
  match kind with Anonymous n | Device n | Shared n => n end.

Definition anonymous (kind : MappingKind) : bool := match kind with Anonymous _ => true | _ => false end.

(** The page [k] is one of the mapping of [kind] at [b]. *)
Definition in_mapping (b : Z) (kind : MappingKind) (k : Z) : Prop := b / 4096 <= k < b / 4096 + page_count kind.

(** What a process asks for. *)
Inductive mem_op : Type :=
| OMap (addr_hint length prot flags fd : Z)
| OShare (fd size prot : Z)
| OUnmap (addr length : Z)
| OProtect (addr length prot : Z)
| OStore (v b : Z)
| OLoad (v : Z).

(** A call with its result and the number of frames it freed, or activity of
    the rest of the kernel. *)
Inductive mem_event : Type :=
| Call (op : mem_op) (r freed : Z)
| Other.

(** ** The specification *)
Section Spec.
Context {G : Type} `{BG : BitFlags MF_ALL G} {I F : Type} `{MI : MappableInode I}.

Record vm : Type := mkVm {
  vm_live : gmap Z MappingKind;
  vm_pages : gmap Z (vpage G);
  vm_bytes : Z -> Z;
  vm_fds : FileDescriptorTable I F;
}.

(** A mapping that a call asks for: its kind and its pages, by number. *)
Record request : Type := mkRequest { rq_kind : MappingKind; rq_page : Z -> vpage G }.

Definition rq_count (rq : request) : Z := page_count (rq_kind rq).

(** What a call on the descriptors [t] asks for, or its error. *)
Definition requested (t : FileDescriptorTable I F) (op : mem_op) : option (result request Z) :=
  match op with
  | OMap _ length prot flags fd => Some (
      if length =? 0 then Err (errno EINVAL) else
      if negb (Z.land flags MAP_SHARED =? 0) then
        match inode_of t fd with
        | None => Err (errno EBADF)
        | Some inode =>
            match mmap_phys inode with
            | Err e => Err (to_errno e)
            | Ok (base, size) =>
                if size <? 4096 * pages_of length then Err (errno EINVAL) else
                Ok (mkRequest (Device (pages_of length)) (fun i => mkVpage (Some ((base + i * 4096) / 4096))
                  (if mmap_cache_disable inode then bf_union MF_USER MF_CACHE_DISABLE else MF_USER) prot))
            end
        end
      else if negb (Z.land flags MAP_ANONYMOUS =? 0) then
        Ok (mkRequest (Anonymous (pages_of length)) (fun _ => mkVpage None MF_USER prot))
      else Err (errno ENOSYS))
  | OShare fd size prot => Some (
      if size =? 0 then Err (errno EINVAL) else
      match inode_of t fd with
      | None => Err (errno EBADF)
      | Some inode =>
          match shared_phys_frames inode with
          | Err e => Err (to_errno e)
          | Ok frames =>
              if Z.of_nat (length frames) <? pages_of size then Err (errno EINVAL) else
              Ok (mkRequest (Shared (pages_of size)) (fun i => mkVpage (Some (default 0 (frames !! Z.to_nat i) / 4096)) MF_USER prot))
          end
      end)
  | _ => None
  end.

(** The range of [n] pages at [b] lies below the stack and overlaps no mapping. *)
Definition fresh (s : vm) (b n : Z) : Prop :=
  b mod 4096 = 0 /\ USER_MMAP_BASE <= b /\ b + 4096 * n <= stack_bottom /\
  forall b' kind k, vm_live s !! b' = Some kind -> in_mapping b' kind k -> ~ (b / 4096 <= k < b / 4096 + n).

(** A new mapping at [b]; its private pages are zero. *)
Definition grant (s : vm) (b : Z) (rq : request) : vm :=
  mkVm (<[b := rq_kind rq]> (vm_live s))
    (put_pages (b / 4096) (Z.to_nat (rq_count rq)) (fun k => rq_page rq (k - b / 4096)) (vm_pages s))
    (fun v => if (b <=? v) && (v <? b + 4096 * rq_count rq) then 0 else vm_bytes s v) (vm_fds s).

Definition remove (s : vm) (b : Z) (kind : MappingKind) : vm :=
  mkVm (delete b (vm_live s)) (del_pages (b / 4096) (Z.to_nat (page_count kind)) (vm_pages s)) (vm_bytes s) (vm_fds s).

(** The address [v] is private memory of the process. *)
Definition private_at (live : gmap Z MappingKind) (v : Z) : Prop :=
  exists b n, live !! b = Some (Anonymous n) /\ in_mapping b (Anonymous n) (v / 4096).

Inductive maps_step (s : vm) : mem_event -> vm -> Prop :=
| vs_grant op rq b :
    requested (vm_fds s) op = Some (Ok rq) -> fresh s b (rq_count rq) -> maps_step s (Call op b 0) (grant s b rq)
| vs_refuse op e :
    requested (vm_fds s) op = Some (Err e) -> maps_step s (Call op (- e) 0) s
| vs_unmap addr length kind :
    vm_live s !! addr = Some kind -> page_count kind = pages_of length ->
    maps_step s (Call (OUnmap addr length) 0 (if anonymous kind then page_count kind else 0)) (remove s addr kind)
| vs_protect addr length prot k :
    0 <= k <= pages_of length -> (forall j, 0 <= j < k -> is_Some (vm_pages s !! (addr / 4096 + j))) ->
    (k < pages_of length -> vm_pages s !! (addr / 4096 + k) = None) ->
    maps_step s (Call (OProtect addr length prot) (if k =? pages_of length then 0 else - errno ENOMEM) 0)
      (mkVm (vm_live s) (reprotect (addr / 4096) k prot (vm_pages s)) (vm_bytes s) (vm_fds s))
| vs_store v b :
    private_at (vm_live s) v ->
    maps_step s (Call (OStore v b) 0 0)
      (mkVm (vm_live s) (vm_pages s) (fun x => if x =? v then b else vm_bytes s x) (vm_fds s))
| vs_load v :
    private_at (vm_live s) v -> maps_step s (Call (OLoad v) (vm_bytes s v) 0) s
| vs_other t :
    maps_step s Other (mkVm (vm_live s) (vm_pages s) (vm_bytes s) t).

Inductive maps_run : vm -> list mem_event -> vm -> Prop :=
| vr_nil s : maps_run s [] s
| vr_cons s e s1 es s2 : maps_step s e s1 -> maps_run s1 es s2 -> maps_run s (e :: es) s2.

(** The mappings lie below the stack and do not overlap; they have the pages
    there are, private ones for anonymous mappings. *)
Record vm_wf (s : vm) : Prop := {
  wf_range : forall b kind, vm_live s !! b = Some kind ->
    b mod 4096 = 0 /\ USER_MMAP_BASE <= b /\ b + 4096 * page_count kind <= stack_bottom /\ 0 < page_count kind;
  wf_apart : forall b b' kind kind' k, vm_live s !! b = Some kind -> vm_live s !! b' = Some kind' ->
    in_mapping b kind k -> in_mapping b' kind' k -> b = b';
  wf_pages : forall b kind k, vm_live s !! b = Some kind -> in_mapping b kind k ->
    exists pg, vm_pages s !! k = Some pg /\ (vp_frame pg = None <-> anonymous kind = true);
  wf_mapped : forall k pg, vm_pages s !! k = Some pg -> exists b kind, vm_live s !! b = Some kind /\ in_mapping b kind k;
}.

(** A request is for at least one page, private ones for anonymous mappings. *)
Lemma requested_pages t op rq :
  requested t op = Some (Ok rq) -> (forall addr length prot flags fd, op = OMap addr length prot flags fd -> 0 <= length) ->
  (forall fd size prot, op = OShare fd size prot -> 0 <= size) ->
  0 < rq_count rq /\ forall i, vp_frame (rq_page rq i) = None <-> anonymous (rq_kind rq) = true.
Proof using.
  intros E H1 H2. assert (forall l, 0 <= l -> l <> 0 -> 0 < pages_of l) as Hp.
  { intros l ? ?. pose proof (pages_of_bounds l). lia. }
  destruct op as [hint l prot flags fd|fd l prot| | | |]; try done; cbn [requested] in E.
  - specialize (H1 _ _ _ _ _ eq_refl). destruct (Z.eqb_spec l 0) as [|Hl]; [done|]. destruct (negb _).
    + destruct (inode_of t fd) as [inode|]; [|done]. destruct (mmap_phys inode) as [[base size]|]; [|done].
      destruct (_ <? _); [done|]. injection E as <-. split; [by apply Hp|done].
    + destruct (negb _); [|done]. injection E as <-. split; [by apply Hp|done].
  - specialize (H2 _ _ _ eq_refl). destruct (Z.eqb_spec l 0) as [|Hl]; [done|].
    destruct (inode_of t fd) as [inode|]; [|done]. destruct (shared_phys_frames inode) as [frames|]; [|done].
    destruct (_ <? _); [done|]. injection E as <-. split; [by apply Hp|done].
Qed.

Lemma grant_wf s b rq :
  vm_wf s -> fresh s b (rq_count rq) -> 0 < rq_count rq ->
  (forall i, vp_frame (rq_page rq i) = None <-> anonymous (rq_kind rq) = true) -> vm_wf (grant s b rq).
Proof using.
  intros [H1 H2 H3 H4] (Hal & Hlo & Hhi & Hf) Hn Hpg. unfold rq_count in *.
  assert (forall k, in_mapping b (rq_kind rq) k <-> b / 4096 <= k < b / 4096 + Z.of_nat (Z.to_nat (page_count (rq_kind rq)))) as Hin.
  { intros k. unfold in_mapping. lia. }
  split; unfold grant; cbn [vm_live vm_pages].
  - intros b' kind [[<- <-]|[_ E]]%lookup_insert_Some; [done|by apply H1].
  - intros b1 b2 k1 k2 k [[<- <-]|[_ E1]]%lookup_insert_Some [[<- <-]|[_ E2]]%lookup_insert_Some Hk1 Hk2; [done| | |].
    + by destruct (Hf b2 k2 k E2 Hk2).
    + by destruct (Hf b1 k1 k E1 Hk1).
    + by apply (H2 b1 b2 k1 k2 k).
  - intros b' kind k Hb Hk. rewrite lookup_put. apply lookup_insert_Some in Hb as [[<- <-]|[_ E]].
    + rewrite decide_True by (by apply Hin). eexists. split; [done|]. apply Hpg.
    + rewrite decide_False by (rewrite <- Hin; intros Hk'; by apply (Hf b' kind k)). by apply (H3 b').
  - intros k pg. rewrite lookup_put. case_decide as Hk.
    + intros _. exists b, (rq_kind rq). split; [apply lookup_insert_eq|by apply Hin].
    + intros E. destruct (H4 k pg E) as (b' & kind & Eb & Hb'). exists b', kind. split; [|done].
      rewrite lookup_insert_ne; [done|]. intros <-. destruct (Hf b kind (b / 4096) Eb).
      * destruct (H1 b kind Eb) as (_ & _ & _ & ?). unfold in_mapping. lia.
      * lia.
Qed.

Lemma remove_wf s b kind : vm_wf s -> vm_live s !! b = Some kind -> vm_wf (remove s b kind).
Proof using.
  intros [H1 H2 H3 H4] Eb. destruct (H1 b kind Eb) as (_ & _ & _ & Hn).
  assert (forall k, in_mapping b kind k <-> b / 4096 <= k < b / 4096 + Z.of_nat (Z.to_nat (page_count kind))) as Hin.
  { intros k. unfold in_mapping. lia. }
  split; unfold remove; cbn [vm_live vm_pages].
  - intros b' kind' [_ E]%lookup_delete_Some. by apply H1.
  - intros b1 b2 k1 k2 k [_ E1]%lookup_delete_Some [_ E2]%lookup_delete_Some. by apply H2.
  - intros b' kind' k [Hne E]%lookup_delete_Some Hk. rewrite lookup_del, decide_False; [by apply (H3 b')|].
    rewrite <- Hin. intros Hk'. by apply Hne, (H2 b b' kind kind' k).
  - intros k pg. rewrite lookup_del. case_decide as Hk; [done|]. intros E.
    destruct (H4 k pg E) as (b' & kind' & Eb' & Hb'). exists b', kind'. split; [|done].
    rewrite lookup_delete_ne; [done|]. intros <-. rewrite Eb in Eb'. injection Eb' as <-. by apply Hk, Hin.
Qed.

Lemma reprotect_wf s lo n prot :
  vm_wf s -> vm_wf (mkVm (vm_live s) (reprotect lo n prot (vm_pages s)) (vm_bytes s) (vm_fds s)).
Proof using.
  intros [H1 H2 H3 H4]. split; cbn [vm_live vm_pages]; [done|done| |].
  - intros b kind k Eb Hk. destruct (H3 b kind k Eb Hk) as (pg & E & Hpg). rewrite lookup_reprotect, E.
    eexists. split; [done|]. by case_decide.
  - intros k pg. rewrite lookup_reprotect. destruct (vm_pages s !! k) as [pg'|] eqn:E; [|done]. intros _. by apply (H4 k pg').
Qed.
End Spec.
Arguments vm G I F : clear implicits.
Arguments request G : clear implicits.

(** ** The code *)
Section Machine.
Context {G : Type} `{BG : BitFlags MF_ALL G} {A : Type} `{FA : FrameAllocator A} `{FD : !FrameDeallocator A}.
Context {off : Z} `{PM : !PageMapper G A off}.
Context {V : Type} `{AV : ArrayVec FreeRange V MMAP_FREE_LIST_CAPACITY}.
Context {W I F : Type} `{MI : MappableInode I}.
Abbreviation state := (Process V W I F * A * mem)%type.

(** A call; a load or store of the program goes where the tables say. *)
Definition mem_exec (s : state) (op : mem_op) : exec (state * Z) :=
  let '(p, a, m) := s in
  match op with
  | OMap addr_hint length prot flags fd => sys_mem_map (PM := PM) p a m addr_hint length prot flags fd
  | OShare fd size prot => sys_mem_map_shared (PM := PM) p a m fd size prot
  | OUnmap addr length => sys_mem_unmap (PM := PM) p a m addr length
  | OProtect addr length prot => sys_mem_protect (PM := PM) p a m addr length prot
  | OStore v b =>
      o ← as_translate (PM := PM) (pr_space p) m v;
      match o with Some pa => Ret (p, a, write_bytes m (off + pa) b 1, 0) | None => Panic end
  | OLoad v =>
      o ← as_translate (PM := PM) (pr_space p) m v;
      match o with Some pa => Ret (p, a, m, m (off + pa)) | None => Panic end
  end.

(** Lengths that can be rounded up. *)
Definition length_ok (length : Z) : Prop := 0 <= length /\ length + 4096 < U64.

(** There is room below the stack and there are frames for a mapping, and the
    frames it borrows are physical addresses. *)
Definition can_grant (s : state) (rq : request G) : Prop :=
  let '(p, a, m) := s in
  fra_watermark (pr_mmap p) + 4096 * rq_count rq <= stack_bottom /\
  4 * rq_count rq <= Z.of_nat (size (fa_free a)) /\
  forall i f, 0 <= i < rq_count rq -> vp_frame (rq_page rq i) = Some f -> is_phys (f * 4096).

(** The calls that are covered: mappings are unmapped as a whole, protection
    concerns the window of mappings, and the program touches its own pages. *)
Definition allowed (s : state) (op : mem_op) : Prop :=
  let p := s.1.1 in
  match op with
  | OMap _ length _ _ _ => length_ok length /\
      forall rq, requested (G := G) (pr_fds p) op = Some (Ok rq) -> can_grant s rq
  | OShare _ size _ => length_ok size /\
      forall rq, requested (G := G) (pr_fds p) op = Some (Ok rq) -> can_grant s rq
  | OUnmap addr length => 0 < length /\
      exists kind, pr_mappings p !! addr = Some kind /\ page_count kind = pages_of length
  | OProtect addr length _ => 0 < length /\ addr mod 4096 = 0 /\ USER_MMAP_BASE <= addr /\
      addr + 4096 * pages_of length <= stack_bottom
  | OStore v _ | OLoad v => private_at (pr_mappings p) v
  end.

(** The rest of the kernel leaves the tables and private frames of the process
    alone; it may open and close descriptors. *)
Definition other (s s' : state) : Prop :=
  let '(p, a, m) := s in
  let '(p', a', m') := s' in
  let root := as_root_phys (pr_space p) in
  p' = with_fds p (pr_fds p') /\ fa_inv a' m' /\ fa_offset a' = off /\
  (forall x, pm_table root m x -> m' x = m x) /\
  (forall f x, f ∈ fa_free a' -> in_frame off (f * 4096) x -> ~ pm_table root m x) /\
  (forall v f, private_at (pr_mappings p) v -> pm_translate_addr m root v = Ret (Some (f * 4096 + v mod 4096)) ->
     (f ∉ fa_free a') /\ forall x, in_frame off (f * 4096) x -> m' x = m x).

Definition frames (s : state) : Z := Z.of_nat (size (fa_free s.1.2)).

Inductive mem_step : state -> mem_event -> state -> Prop :=
| ms_call s op s' r : allowed s op -> mem_exec s op = Ret (s', r) ->
    mem_step s (Call op r (match op with OUnmap _ _ => frames s' - frames s | _ => 0 end)) s'
| ms_other s s' : other s s' -> mem_step s Other s'.

Inductive mem_run : state -> list mem_event -> state -> Prop :=
| mr_nil s : mem_run s [] s
| mr_cons s e s1 es s2 : mem_step s e s1 -> mem_run s1 es s2 -> mem_run s (e :: es) s2.

(** ** The simulation *)
Section Simulation.
Context (self : AddressSpace W) (σ0 : aspace).
Context (Hσ : forall v, USER_MMAP_BASE <= v < stack_bottom -> σ0 v = None) (Hpaged : paged σ0).
Implicit Types (s : vm G I F).

(** The process has the mappings of the specification, and the tables show
    its pages over [σ0]. *)
Record holds s (p : Process V W I F) (a : A) (m : mem) : Prop := {
  ho_wf : vm_wf s;
  ho_space : pr_space p = self;
  ho_live : pr_mappings p = vm_live s;
  ho_fds : pr_fds p = vm_fds s;
  ho_mmap : mmap_inv (pr_mmap p);
  ho_ranges : forall b kind x, vm_live s !! b = Some kind -> in_mapping b kind (x / 4096) -> allocated (pr_mmap p) x;
  ho_shows : exists pages, shows (PM := PM) self σ0 (vm_pages s) (vm_bytes s) a m pages;
}.

Lemma window_low b n k : USER_MMAP_BASE <= b -> b + 4096 * n <= stack_bottom -> b mod 4096 = 0 -> 0 <= n ->
  0 <= b / 4096 /\ b = 4096 * (b / 4096) /\ 4096 * (b / 4096 + n) <= 2 ^ 47 /\
  (b / 4096 <= k < b / 4096 + n -> forall v, v / 4096 = k -> σ0 v = None).
Proof using Hσ.
  intros H1 H2 H3 H4. change stack_bottom with 0x7FFFFFFEF000 in *. unfold USER_MMAP_BASE in *.
  assert (b = 4096 * (b / 4096)) as E by (clear -H3; divlia).
  split_and!; [clear -H1; divlia|done|lia|]. intros Hk v <-. apply Hσ. clear -E H1 H2 Hk. divlia.
Qed.

(** A range that the allocator hands out is fresh and has no pages. *)
Lemma handed_out_fresh s p a m b n :
  holds s p a m -> b mod 4096 = 0 -> USER_MMAP_BASE <= b -> b + 4096 * n <= stack_bottom ->
  (forall x, b <= x < b + 4096 * n -> ~ allocated (pr_mmap p) x) ->
  fresh s b n /\ forall k, b / 4096 <= k < b / 4096 + n -> vm_pages s !! k = None.
Proof using.
  intros Hh Hal Hlo Hhi Hno.
  assert (forall b' kind k, vm_live s !! b' = Some kind -> in_mapping b' kind k -> ~ (b / 4096 <= k < b / 4096 + n)) as Hf.
  { intros b' kind k E Hk Hk'. apply (Hno (4096 * k)); [clear -Hal Hk'; divlia|].
    apply (ho_ranges _ _ _ _ Hh b' kind); [done|]. by replace (4096 * k / 4096) with k by (clear; divlia). }
  split; [done|]. intros k Hk. destruct (vm_pages s !! k) as [pg|] eqn:E; [|done].
  destruct (wf_mapped _ (ho_wf _ _ _ _ Hh) k pg E) as (b' & kind & Eb & Hb). by destruct (Hf b' kind k Eb Hb).
Qed.

(** The state after a mapping was made. *)
Lemma grant_holds s p a m a' m' r b rq pages' :
  holds s p a m -> mmap_inv r -> b mod 4096 = 0 -> USER_MMAP_BASE <= b -> b + 4096 * rq_count rq <= stack_bottom ->
  fresh s b (rq_count rq) -> (forall x, allocated r x <-> allocated (pr_mmap p) x \/ b <= x < b + 4096 * rq_count rq) ->
  0 < rq_count rq -> (forall i, vp_frame (rq_page rq i) = None <-> anonymous (rq_kind rq) = true) ->
  shows (PM := PM) self σ0 (vm_pages (grant s b rq)) (vm_bytes (grant s b rq)) a' m' pages' ->
  holds (grant s b rq) (with_mappings (with_mmap p r) (<[b := rq_kind rq]> (pr_mappings p))) a' m'.
Proof using.
  intros Hh Hr Hal Hlo Hhi Hf Hall Hn Hpg Hs. split; cbn [pr_space pr_mappings pr_fds pr_mmap with_mappings with_mmap].
  - by apply grant_wf; [apply Hh|..].
  - apply Hh.
  - by rewrite (ho_live _ _ _ _ Hh).
  - apply Hh.
  - done.
  - cbn [vm_live grant]. intros b' kind x [[<- <-]|[_ E]]%lookup_insert_Some Hx; apply Hall.
    + right. unfold in_mapping, rq_count in *. clear -Hx Hal. divlia.
    + left. by apply (ho_ranges _ _ _ _ Hh b' kind).
  - by exists pages'.
Qed.

(** The bytes of a new range are zero before its pages are there. *)
Lemma zero_range s p a m b n pages :
  holds s p a m -> b mod 4096 = 0 -> (forall k, b / 4096 <= k < b / 4096 + n -> vm_pages s !! k = None) ->
  shows (PM := PM) self σ0 (vm_pages s) (vm_bytes s) a m pages ->
  shows (PM := PM) self σ0 (vm_pages s) (fun v => if (b <=? v) && (v <? b + 4096 * n) then 0 else vm_bytes s v) a m pages.
Proof using.
  intros Hh Hal Hno Hs. apply (shows_bytes _ _ _ _ _ _ _ _ Hs). intros k j pg E Hj.
  destruct (_ && _) eqn:Eb; [|done]. apply andb_true_iff in Eb as [?%Z.leb_le ?%Z.ltb_lt].
  rewrite Hno in E; [done|]. clear -Hal Hj H H0. divlia.
Qed.

Lemma prot_flags_plain (g : G) prot :
  Z.testbit (bf_bits g) 5 = false -> Z.testbit (bf_bits (bf_union (prot_flags g prot) MF_USER)) 5 = false.
Proof using.
  intros Hg. unfold prot_flags, MF_USER, MF_WRITABLE, MF_EXECUTABLE.
  destruct (negb (Z.land prot PROT_WRITE =? 0)), (negb (Z.land prot PROT_EXEC =? 0));
    rewrite !bf_union_bits, !bf_retain_bits by done; rewrite !Z.lor_spec, Hg; reflexivity.
Qed.

Lemma user_plain : Z.testbit (bf_bits (MF_USER : G)) 5 = false.
Proof using. unfold MF_USER. by rewrite bf_retain_bits. Qed.

(** What a successful call for a mapping does. *)
Definition granted s (rq : request G) (res : state * Z) : Prop :=
  let '(p, a, m, b) := res in fresh s b (rq_count rq) /\ holds (grant s b rq) p a m.

(** The range [b] with [n] pages, taken from the allocator of [p]. *)
Definition handed_out (p : Process V W I F) (n : Z) (r : FreeRegionAllocator V) (b : Z) : Prop :=
  mmap_inv r /\ b mod 4096 = 0 /\ USER_MMAP_BASE <= b /\ b + 4096 * n <= stack_bottom /\
  (forall x, b <= x < b + 4096 * n -> ~ allocated (pr_mmap p) x) /\
  (forall x, allocated r x <-> allocated (pr_mmap p) x \/ b <= x < b + 4096 * n).

Lemma wp_hand_out s p a m n (Q : FreeRegionAllocator V * option Z -> Prop) :
  holds s p a m -> 0 < n -> fra_watermark (pr_mmap p) + 4096 * n <= stack_bottom ->
  (forall r b, handed_out p n r b -> Q (r, Some b)) -> wp (FreeRegionAllocator_allocate (pr_mmap p) (4096 * n)) Q.
Proof using.
  intros Hh Hn Hroom HQ. eapply wp_mono; [apply wp_mmap_allocate; [apply Hh|lia|by rewrite page_round_aligned]|].
  rewrite page_round_aligned. intros [r o] (b & -> & H). by apply HQ.
Qed.

Lemma wp_mem_map_anonymous s p a m length prot :
  holds s p a m -> length_ok length -> length <> 0 ->
  let rq := mkRequest (Anonymous (pages_of length)) (fun _ => mkVpage None MF_USER prot) in
  can_grant (p, a, m) rq -> wp (sys_mem_map_anonymous (PM := PM) p a m length prot) (granted s rq).
Proof using Hσ.
  intros Hh [Hl0 Hl] Hne rq (Hroom & Hfr & _). cbn in Hroom, Hfr. pose proof (pages_of_bounds length) as Hb.
  set (n := pages_of length) in *. unfold sys_mem_map_anonymous. wp_step. apply wp_mem_page_align_up; [done|done|].
  fold n. cbv zeta. replace (4096 * n / PAGE_SIZE) with n by (unfold PAGE_SIZE; clear; divlia).
  wp_step. apply (wp_hand_out s p a m n _ Hh ltac:(lia) Hroom). intros r b (Hr & Hal & Hlo & Hhi & Hno & Hall). cbv beta iota zeta.
  destruct (handed_out_fresh s p a m b n Hh Hal Hlo Hhi Hno) as [Hfresh Hnone].
  destruct (ho_shows _ _ _ _ Hh) as [pages Hs]. pose proof (zero_range s p a m b n pages Hh Hal Hnone Hs) as Hs0.
  destruct (window_low b n (b / 4096) Hlo Hhi Hal ltac:(lia)) as (Hq & Eb & Hb47 & _).
  cbn [pr_space with_mmap]. rewrite (ho_space _ _ _ _ Hh). wp_step. rewrite Eb at 1.
  eapply wp_mono; [apply (wp_map_zeroed self σ0 (mkVpage None MF_USER prot) (b / 4096) (Z.to_nat n) (vm_pages s) (vm_bytes (grant s b rq)) a m pages 0 eq_refl)|].
  - apply prot_flags_plain, user_plain.
  - exact Hs0.
  - done.
  - lia.
  - lia.
  - intros k Hk. split; [apply Hnone; lia|].
    destruct (window_low b n k Hlo Hhi Hal ltac:(lia)) as (_ & _ & _ & Hw). apply Hw; [lia|apply Z.div_mul; lia].
  - intros v Hv. cbn [vm_bytes grant]. change (rq_count rq) with n. replace ((b <=? v) && (v <? b + 4096 * n)) with true; [done|]. symmetry.
    apply andb_true_iff. rewrite Z.leb_le, Z.ltb_lt. clear -Hv Eb Hb. rewrite Z2Nat.id in Hv by lia. divlia.
  - lia.
  - intros [[a' m'] res] [-> [pages' Hs']]. rewrite Z.add_0_r in Hs'. cbv beta iota zeta. wp_step.
    split; [exact Hfresh|]. apply (grant_holds s p a m a' m' r b rq pages'); try done. unfold rq_count. cbn. lia.
Qed.

(** The loop of a device or shared mapping. *)
Lemma wp_borrow s p a m rq frame_of flags r b :
  holds s p a m -> can_grant (p, a, m) rq -> 0 < rq_count rq -> anonymous (rq_kind rq) = false ->
  handed_out p (rq_count rq) r b -> (forall i, vp_flags (rq_page rq i) = flags) ->
  Z.testbit (bf_bits (bf_union flags MF_USER)) 5 = false ->
  (forall i, exists f, vp_frame (rq_page rq i) = Some f /\ (0 <= i < rq_count rq -> frame_of i = Ret (f * 4096))) ->
  wp (map_frames (PM := PM) self b frame_of flags a m 0 (Z.to_nat (rq_count rq))) (fun '(a', m', res) => res = Ok tt /\
    granted s rq (with_mappings (with_mmap p r) (<[b := rq_kind rq]> (pr_mappings p)), a', m', b)).
Proof using Hσ.
  intros Hh (_ & Hfr & Hph) Hn Han (Hr & Hal & Hlo & Hhi & Hno & Hall) Hfl H5 Hof. set (n := rq_count rq) in *.
  destruct (handed_out_fresh s p a m b n Hh Hal Hlo Hhi Hno) as [Hfresh Hnone].
  destruct (ho_shows _ _ _ _ Hh) as [pages Hs]. pose proof (zero_range s p a m b n pages Hh Hal Hnone Hs) as Hs0.
  destruct (window_low b n (b / 4096) Hlo Hhi Hal ltac:(lia)) as (Hq & Eb & Hb47 & _). rewrite Eb at 1.
  eapply wp_mono; [apply (wp_map_frames self σ0 (fun k => rq_page rq (k - b / 4096)) flags frame_of (b / 4096) (Z.to_nat n)
    (vm_pages s) (vm_bytes (grant s b rq)) a m pages 0)|].
  - intros k. apply Hfl.
  - done.
  - exact Hs0.
  - done.
  - lia.
  - lia.
  - intros j Hj. replace (b / 4096 + j - b / 4096) with j by lia. destruct (Hof j) as (f & Ef & E).
    exists f. split; [done|]. split; [apply E; lia|]. apply (Hph j); [lia|done].
  - intros k Hk. split; [apply Hnone; lia|].
    destruct (window_low b n k Hlo Hhi Hal ltac:(lia)) as (_ & _ & _ & Hw). apply Hw; [lia|apply Z.div_mul; lia].
  - lia.
  - intros [[a' m'] res] [-> [pages' Hs']]. rewrite Z.add_0_r in Hs'. split; [done|]. split; [exact Hfresh|].
    apply (grant_holds s p a m a' m' r b rq pages'); try done.
    intros i. rewrite Han. destruct (Hof i) as (f & -> & _). done.
Qed.

Lemma cache_plain (d : bool) : Z.testbit (bf_bits (if d then bf_union MF_USER MF_CACHE_DISABLE else MF_USER : G)) 5 = false.
Proof using.
  destruct d; [|apply user_plain]. unfold MF_USER, MF_CACHE_DISABLE. by rewrite bf_union_bits, !bf_retain_bits.
Qed.

Lemma wp_containing_frame x (Q : Z -> Prop) :
  is_phys (x / 4096 * 4096) -> Q (x / 4096 * 4096) -> wp (PhysFrame_containing_address Size4KiB x) Q.
Proof using.
  intros Hx HQ. apply wp_PhysFrame_containing_address.
  - unfold is_phys in *. clear -Hx. divlia.
  - change (SIZE Size4KiB) with 4096. by rewrite Z.mul_comm.
Qed.

Lemma wp_is_Ret {B} (c : exec B) x : wp c (fun y => y = x) -> c = Ret x.
Proof using. intros (y & E & ->)%wp_exists. done. Qed.

Lemma wp_mem_map_device s p a m hint length prot flags fd :
  holds s p a m -> length_ok length -> length <> 0 -> negb (Z.land flags MAP_SHARED =? 0) = true ->
  allowed (p, a, m) (OMap hint length prot flags fd) ->
  match requested (G := G) (vm_fds s) (OMap hint length prot flags fd) with
  | Some (Ok rq) => wp (sys_mem_map_device (PM := PM) p a m length prot fd) (granted s rq)
  | Some (Err e) => sys_mem_map_device (PM := PM) p a m length prot fd = Ret (p, a, m, - e)
  | None => False
  end.
Proof using Hσ.
  intros Hh [Hl0 Hl] Hne Hsh [_ Hok]. pose proof (pages_of_bounds length) as Hb. cbn [requested fst] in *.
  unfold sys_mem_map_device. rewrite (ho_fds _ _ _ _ Hh) in *.
  rewrite (proj2 (Z.eqb_neq _ _) Hne), Hsh in *.
  destruct (inode_of (vm_fds s) fd) as [inode|]; [|done]. destruct (mmap_phys inode) as [[base size]|]; [|done].
  assert (mem_page_align_up length = Ret (4096 * pages_of length)) as -> by (apply wp_is_Ret; by apply wp_mem_page_align_up).
  cbn [mbind exec_bind]. set (n := pages_of length) in *. destruct (size <? 4096 * n); [done|].
  specialize (Hok _ eq_refl). set (rq := mkRequest _ _) in *. pose proof Hok as (Hroom & _ & Hph).
  cbv zeta. replace (4096 * n / PAGE_SIZE) with n by (unfold PAGE_SIZE; clear; divlia).
  wp_step. apply (wp_hand_out s p a m n _ Hh ltac:(lia) Hroom). intros r b Hrb. cbv beta iota zeta.
  cbn [pr_space with_mmap]. rewrite (ho_space _ _ _ _ Hh). wp_step.
  eapply wp_mono; [apply (wp_borrow s p a m rq _ _ r b Hh Hok); try done; [change (0 < n); lia| |]|].
  - apply prot_flags_plain, cache_plain.
  - intros i. exists ((base + i * 4096) / 4096). split; [done|]. intros Hi. apply wp_is_Ret.
    specialize (Hph i _ Hi eq_refl). unfold PAGE_SIZE. change (rq_count rq) with n in Hi.
    assert (is_phys (base + i * 4096)) as Hp by (unfold is_phys in *; clear -Hph; divlia).
    wp_step. wp_step. wp_step. apply wp_PhysAddr_add; [done|]. by apply wp_containing_frame.
  - intros [[a' m'] res] [-> Hg]. cbv beta iota zeta. wp_step. exact Hg.
Qed.

Lemma wp_mem_map_shared s p a m fd size prot :
  holds s p a m -> allowed (p, a, m) (OShare fd size prot) ->
  match requested (G := G) (vm_fds s) (OShare fd size prot) with
  | Some (Ok rq) => wp (sys_mem_map_shared (PM := PM) p a m fd size prot) (granted s rq)
  | Some (Err e) => sys_mem_map_shared (PM := PM) p a m fd size prot = Ret (p, a, m, - e)
  | None => False
  end.
Proof using Hσ.
  intros Hh [[Hl0 Hl] Hok]. pose proof (pages_of_bounds size) as Hb. cbn [requested fst] in *.
  unfold sys_mem_map_shared. rewrite (ho_fds _ _ _ _ Hh) in *. destruct (Z.eqb_spec size 0) as [|Hne]; [done|].
  destruct (inode_of (vm_fds s) fd) as [inode|]; [|done]. destruct (shared_phys_frames inode) as [frames|]; [|done].
  assert (mem_page_align_up size = Ret (4096 * pages_of size)) as -> by (apply wp_is_Ret; by apply wp_mem_page_align_up).
  cbn [mbind exec_bind]. set (n := pages_of size) in *. cbv zeta.
  replace (4096 * n / PAGE_SIZE) with n by (unfold PAGE_SIZE; clear; divlia).
  destruct (Z.ltb_spec (Z.of_nat (length frames)) n) as [|Hlen]; [done|].
  specialize (Hok _ eq_refl). set (rq := mkRequest _ _) in *. pose proof Hok as (Hroom & _ & Hph).
  wp_step. apply (wp_hand_out s p a m n _ Hh ltac:(lia) Hroom). intros r b Hrb. cbv beta iota zeta.
  cbn [pr_space with_mmap]. rewrite (ho_space _ _ _ _ Hh). wp_step.
  eapply wp_mono; [apply (wp_borrow s p a m rq _ _ r b Hh Hok); try done; [change (0 < n); lia| |]|].
  - apply prot_flags_plain, user_plain.
  - intros i. eexists. split; [done|]. intros Hi. apply wp_is_Ret. specialize (Hph i _ Hi eq_refl).
    change (rq_count rq) with n in Hi. destruct (lookup_lt_is_Some_2 frames (Z.to_nat i) ltac:(lia)) as [x Ex].
    rewrite Ex in *. wp_step. apply (wp_idx frames i x); [lia|done|]. by apply wp_containing_frame.
  - intros [[a' m'] res] [-> Hg]. cbv beta iota zeta. wp_step. exact Hg.
Qed.

(** The state after the pages of a mapping were taken out. *)
Lemma remove_holds s p a m a' m' r b kind pages' :
  holds s p a m -> vm_live s !! b = Some kind -> mmap_inv r ->
  (forall x, ~ (b <= x < b + 4096 * page_count kind) -> allocated r x <-> allocated (pr_mmap p) x) ->
  shows (PM := PM) self σ0 (vm_pages (remove s b kind)) (vm_bytes s) a' m' pages' ->
  holds (remove s b kind) (with_mmap (with_mappings p (delete b (pr_mappings p))) r) a' m'.
Proof using.
  intros Hh Eb Hr Hall Hs. destruct (wf_range _ (ho_wf _ _ _ _ Hh) b kind Eb) as (Hal & _).
  split; cbn [pr_space pr_mappings pr_fds pr_mmap with_mappings with_mmap].
  - by apply remove_wf; [apply Hh|].
  - apply Hh.
  - by rewrite (ho_live _ _ _ _ Hh).
  - apply Hh.
  - done.
  - cbn [vm_live remove]. intros b' kind' x [Hne E]%lookup_delete_Some Hx. apply Hall; [|by apply (ho_ranges _ _ _ _ Hh b' kind')].
    intros Hx'. apply Hne, (wf_apart _ (ho_wf _ _ _ _ Hh) b b' kind kind' (x / 4096)); try done.
    unfold in_mapping. clear -Hx' Hal. divlia.
  - by exists pages'.
Qed.

Lemma wp_unmap_mapping s p a m addr kind :
  holds s p a m -> vm_live s !! addr = Some kind ->
  wp (match kind with
      | Anonymous _ => unmap_free (PM := PM) self addr a m 0 (Z.to_nat (page_count kind))
      | _ => m ← unmap_only (PM := PM) self addr m 0 (Z.to_nat (page_count kind)); Ret (a, m) end) (fun '(a', m') =>
    (exists pages', shows (PM := PM) self σ0 (vm_pages (remove s addr kind)) (vm_bytes s) a' m' pages') /\
    Z.of_nat (size (fa_free a')) = Z.of_nat (size (fa_free a)) + if anonymous kind then page_count kind else 0).
Proof using Hσ.
  intros Hh Ek. pose proof (ho_wf _ _ _ _ Hh) as Hwf. destruct (wf_range _ Hwf addr kind Ek) as (Hal & Hlo & Hhi & Hpos).
  set (n := page_count kind) in *. destruct (window_low addr n (addr / 4096) Hlo Hhi Hal ltac:(lia)) as (Hq & Ea & H47 & _).
  destruct (ho_shows _ _ _ _ Hh) as [pages Hs].
  assert (forall k, addr / 4096 + 0 <= k < addr / 4096 + 0 + Z.of_nat (Z.to_nat n) ->
    (exists pg, vm_pages s !! k = Some pg /\ (vp_frame pg = None <-> anonymous kind = true)) /\ forall v, v / 4096 = k -> σ0 v = None) as Hpages.
  { intros k Hk. split; [apply (wf_pages _ Hwf addr kind k Ek); unfold in_mapping; fold n; lia|].
    destruct (window_low addr n k Hlo Hhi Hal ltac:(lia)) as (_ & _ & _ & Hw). apply Hw. lia. }
  cbn [vm_pages remove]. fold n. set (q := addr / 4096) in *. rewrite Ea.
  assert (anonymous kind = false -> wp (m ← unmap_only (PM := PM) self (4096 * q) m 0 (Z.to_nat n); Ret (a, m)) (fun '(a', m') =>
    (exists pages', shows (PM := PM) self σ0 (del_pages q (Z.to_nat n) (vm_pages s)) (vm_bytes s) a' m' pages') /\
    Z.of_nat (size (fa_free a')) = Z.of_nat (size (fa_free a)) + 0)) as Honly.
  { intros _. wp_step. eapply wp_mono; [apply (wp_unmap_only self σ0 q (Z.to_nat n) (vm_pages s) (vm_bytes s) a m pages 0 Hs); try lia|].
    - intros k Hk. destruct (Hpages k Hk) as [(pg & E & _) ?]. by split; [exists pg|].
    - intros m' Hm'. rewrite Z.add_0_r in Hm'. wp_step. split; [done|lia]. }
  destruct kind; [|by apply Honly..]. cbn [anonymous].
  eapply wp_mono; [apply (wp_unmap_free self σ0 q (Z.to_nat n) (vm_pages s) (vm_bytes s) a m pages 0 Hs); try lia|].
  - intros k Hk. destruct (Hpages k Hk) as [(pg & E & Hpg) ?]. split; [|done]. exists pg. split; [done|by apply Hpg].
  - intros [a' m'] [Hs' Hsz]. rewrite Z.add_0_r in Hs'. split; [done|lia].
Qed.

Lemma wp_mem_unmap s p a m addr length kind :
  holds s p a m -> 0 < length -> vm_live s !! addr = Some kind -> page_count kind = pages_of length ->
  wp (sys_mem_unmap (PM := PM) p a m addr length) (fun '(p', a', m', r) => r = 0 /\ holds (remove s addr kind) p' a' m' /\
    Z.of_nat (size (fa_free a')) = Z.of_nat (size (fa_free a)) + if anonymous kind then page_count kind else 0).
Proof using Hσ.
  intros Hh Hl Ek Hn. pose proof (pages_of_bounds length) as Hb. pose proof (wp_unmap_mapping s p a m addr kind Hh Ek) as Hloop.
  destruct (wf_range _ (ho_wf _ _ _ _ Hh) addr kind Ek) as (Hal & Hlo & Hhi & Hpos).
  rewrite <- Hn in Hb. set (n := page_count kind) in *.
  change stack_bottom with 0x7FFFFFFEF000 in Hhi. unfold USER_MMAP_BASE in Hlo.
  unfold sys_mem_unmap. rewrite (proj2 (Z.eqb_neq length 0)), (proj2 (Z.eqb_neq addr 0)) by lia. simpl orb. cbv iota.
  wp_step. apply wp_mem_page_align_up; [lia|ulia|]. rewrite <- Hn. fold n. wp_step.
  rewrite VirtAddr_new_ok by (left; lia). wp_step. cbv zeta. rewrite (ho_live _ _ _ _ Hh), Ek.
  replace (4096 * n / PAGE_SIZE) with n by (unfold PAGE_SIZE; clear; divlia).
  cbn [pr_space with_mappings]. rewrite (ho_space _ _ _ _ Hh).
  wp_step. eapply wp_mono; [destruct kind; exact Hloop|]. intros [a' m'] [[pages' Hs'] Hsz]. cbv beta iota.
  unfold return_range. wp_step. wp_step. cbn [pr_mmap with_mappings].
  eapply wp_mono; [apply wp_mmap_deallocate; [apply Hh|lia|done|]|].
  { rewrite page_round_aligned. intros x Hx. apply (ho_ranges _ _ _ _ Hh addr kind); [done|]. unfold in_mapping. fold n. clear -Hx Hal. divlia. }
  rewrite page_round_aligned. intros [r o] [Hr Hall]. wp_step. wp_step. split; [done|]. split; [|done].
  rewrite <- (ho_live _ _ _ _ Hh). by apply (remove_holds s p a m a' m' r addr kind pages').
Qed.

Lemma wp_mem_protect s p a m addr length prot :
  holds s p a m -> allowed (p, a, m) (OProtect addr length prot) ->
  wp (sys_mem_protect (PM := PM) p a m addr length prot) (fun '(p', a', m', r) =>
    exists s', maps_step s (Call (OProtect addr length prot) r 0) s' /\ holds s' p' a' m').
Proof using Hσ Hpaged.
  intros Hh (Hl & Hal & Hlo & Hhi). pose proof (pages_of_bounds length) as Hb. set (n := pages_of length) in *.
  destruct (window_low addr n (addr / 4096) Hlo Hhi Hal ltac:(lia)) as (Hq & Ea & H47 & _).
  assert (forall v, 4096 * (addr / 4096) <= v < 4096 * (addr / 4096 + n) -> σ0 v = None) as Hnone.
  { intros v Hv. destruct (window_low addr n (v / 4096) Hlo Hhi Hal ltac:(lia)) as (_ & _ & _ & Hw). apply Hw; [|done].
    clear -Hv. divlia. }
  change stack_bottom with 0x7FFFFFFEF000 in Hhi. unfold USER_MMAP_BASE in Hlo.
  unfold sys_mem_protect. rewrite (proj2 (Z.eqb_neq length 0)), (proj2 (Z.eqb_neq addr 0)) by lia. simpl orb. cbv iota.
  change (PAGE_SIZE - 1) with (Z.ones 12). rewrite Z.land_ones by lia. change (2 ^ 12) with 4096. rewrite Hal. simpl negb. cbv iota.
  wp_step. apply wp_mem_page_align_up; [lia|ulia|]. fold n. cbv zeta. wp_step. rewrite VirtAddr_new_ok by (left; lia). wp_step.
  replace (4096 * n / PAGE_SIZE) with n by (unfold PAGE_SIZE; clear; divlia). rewrite (ho_space _ _ _ _ Hh).
  destruct (ho_shows _ _ _ _ Hh) as [pages Hs]. wp_step. rewrite Ea at 1.
  eapply wp_mono; [apply (wp_protect_shown self σ0 (vm_pages s) (vm_bytes s) a m pages (addr / 4096) n prot Hs Hpaged); try done|].
  - apply prot_flags_plain. by rewrite bf_retain_bits.
  - lia.
  - intros [m' r] (k & pages' & Hk & Hs' & Hpre & Hr). set (s' := mkVm (vm_live s) (reprotect (addr / 4096) k prot (vm_pages s)) (vm_bytes s) (vm_fds s)).
    assert (holds s' p a m') as Hh'.
    { destruct Hh as [H1 H2 H3 H4 H5 H6 H7]. split; try done; [by apply reprotect_wf|by exists pages']. }
    assert (k < n -> vm_pages s !! (addr / 4096 + k) = None) as Hno by (destruct r; [lia|tauto]).
    pose proof (vs_protect s addr length prot k ltac:(fold n; lia) Hpre ltac:(fold n; done)) as Hstep. fold n s' in Hstep.
    destruct r as [[]|[]]; wp_step; exists s'; (split; [|done]).
    + by rewrite (proj2 (Z.eqb_eq k n)) in Hstep by lia.
    + by rewrite (proj2 (Z.eqb_neq k n)) in Hstep by lia.
Qed.

Lemma private_owned s p a m pages v :
  holds s p a m -> shows (PM := PM) self σ0 (vm_pages s) (vm_bytes s) a m pages -> private_at (pr_mappings p) v ->
  (exists f, owns (vm_pages s) pages (v / 4096) f) /\ 0 <= v < 2 ^ 47.
Proof using.
  intros Hh Hs (b & n & Eb & Hk). rewrite (ho_live _ _ _ _ Hh) in Eb. pose proof (ho_wf _ _ _ _ Hh) as Hwf. split.
  - destruct (wf_pages _ Hwf b _ _ Eb Hk) as (pg & E & Hpg). pose proof (sh_page _ _ _ _ _ _ _ Hs (v / 4096)) as Hb.
    rewrite E in Hb. destruct (pages !! (v / 4096)) as [[f fl]|] eqn:Ep; [|done]. exists f, pg, fl. split_and!; [done|by apply Hpg|done].
  - destruct (wf_range _ Hwf b _ Eb) as (Hal & Hlo & Hhi & _). unfold in_mapping in Hk. change stack_bottom with 0x7FFFFFFEF000 in Hhi.
    unfold USER_MMAP_BASE in Hlo. clear -Hk Hlo Hhi Hal. divlia.
Qed.

Lemma wp_mem_map s p a m hint length prot flags fd :
  holds s p a m -> allowed (p, a, m) (OMap hint length prot flags fd) ->
  match requested (G := G) (vm_fds s) (OMap hint length prot flags fd) with
  | Some (Ok rq) => wp (sys_mem_map (PM := PM) p a m hint length prot flags fd) (granted s rq)
  | Some (Err e) => sys_mem_map (PM := PM) p a m hint length prot flags fd = Ret (p, a, m, - e)
  | None => False
  end.
Proof using Hσ.
  intros Hh Hok. pose proof Hok as [Hlen Hrq]. unfold sys_mem_map. destruct (Z.eqb_spec length 0) as [->|Hne]; [done|].
  destruct (negb (Z.land flags MAP_SHARED =? 0)) eqn:Esh.
  { by apply (wp_mem_map_device s p a m hint length prot flags fd). }
  cbn [requested fst] in *. rewrite (proj2 (Z.eqb_neq _ _) Hne), Esh in *.
  destruct (negb (Z.land flags MAP_ANONYMOUS =? 0)); [|done]. apply wp_mem_map_anonymous; try done. by apply Hrq.
Qed.

Lemma granted_step s op rq p a m b :
  requested (vm_fds s) op = Some (Ok rq) -> granted s rq (p, a, m, b) ->
  exists s', maps_step s (Call op b 0) s' /\ holds s' p a m.
Proof using. intros E [Hf Hh]. exists (grant s b rq). split; [by apply vs_grant|done]. Qed.

Definition freed_by (op : mem_op) (st st' : state) : Z :=
  match op with OUnmap _ _ => frames st' - frames st | _ => 0 end.

(** A call that is covered returns, with what the specification says. *)
Lemma wp_mem_exec s p a m op :
  holds s p a m -> allowed (p, a, m) op ->
  wp (mem_exec (p, a, m) op) (fun '(st, r) => exists s', maps_step s (Call op r (freed_by op (p, a, m) st)) s' /\
    holds s' st.1.1 st.1.2 st.2).
Proof using Hσ Hpaged.
  intros Hh Hok. destruct (ho_shows _ _ _ _ Hh) as [pages Hs].
  destruct op as [hint length prot flags fd|fd size prot|addr length|addr length prot|v b|v]; cbn [mem_exec freed_by].
  - pose proof (wp_mem_map s p a m hint length prot flags fd Hh Hok) as Hm.
    destruct (requested (vm_fds s) (OMap hint length prot flags fd)) as [[rq|e]|] eqn:E; [|rewrite Hm|done].
    + eapply wp_mono; [exact Hm|]. intros [[[p' a'] m'] r] Hg. by apply (granted_step s _ rq).
    + apply wp_ret. exists s. split; [by apply vs_refuse|done].
  - pose proof (wp_mem_map_shared s p a m fd size prot Hh Hok) as Hm.
    destruct (requested (vm_fds s) (OShare fd size prot)) as [[rq|e]|] eqn:E; [|rewrite Hm|done].
    + eapply wp_mono; [exact Hm|]. intros [[[p' a'] m'] r] Hg. by apply (granted_step s _ rq).
    + apply wp_ret. exists s. split; [by apply vs_refuse|done].
  - destruct Hok as (Hl & kind & Ek & Hn). cbn [fst] in Ek. rewrite (ho_live _ _ _ _ Hh) in Ek.
    eapply wp_mono; [by apply (wp_mem_unmap s p a m addr length kind)|].
    intros [[[p' a'] m'] r] (-> & Hh' & Hsz). exists (remove s addr kind). split; [|done].
    unfold frames. cbn [fst snd]. rewrite Hsz. rewrite Z.add_simpl_l. by apply vs_unmap.
  - eapply wp_mono; [by apply (wp_mem_protect s)|]. by intros [[[p' a'] m'] r].
  - destruct (private_owned s p a m pages v Hh Hs Hok) as [[f Hf] Hv]. unfold as_translate. rewrite (ho_space _ _ _ _ Hh).
    rewrite (owned_translate _ _ _ _ _ _ _ _ _ Hs Hf Hv). wp_step. wp_step. eexists.
    split; [apply vs_store; by rewrite <- (ho_live _ _ _ _ Hh)|]. destruct Hh as [[] ]. split; try done. cbn [vm_pages vm_bytes].
    exists pages. by apply shows_after_store.
  - destruct (private_owned s p a m pages v Hh Hs Hok) as [[f Hf] Hv]. unfold as_translate. rewrite (ho_space _ _ _ _ Hh).
    rewrite (owned_translate _ _ _ _ _ _ _ _ _ Hs Hf Hv). wp_step. wp_step. exists s. split; [|done].
    rewrite (owned_byte _ _ _ _ _ _ _ _ _ Hs Hf). apply vs_load. by rewrite <- (ho_live _ _ _ _ Hh).
Qed.

Lemma mem_exec_step s p a m op :
  holds s p a m -> allowed (p, a, m) op ->
  exists p' a' m' r d s', mem_step (p, a, m) (Call op r d) (p', a', m') /\ maps_step s (Call op r d) s' /\ holds s' p' a' m'.
Proof using Hσ Hpaged.
  intros Hh Hok. destruct (proj1 (wp_exists _ _) (wp_mem_exec s p a m op Hh Hok)) as ([[[p' a'] m'] r] & E & s' & Hs & Hh').
  exists p', a', m', r, (freed_by op (p, a, m) (p', a', m')), s'. split; [by apply ms_call|done].
Qed.

Lemma other_sim s p a m p' a' m' :
  holds s p a m -> other (p, a, m) (p', a', m') -> exists s', maps_step s Other s' /\ holds s' p' a' m'.
Proof using.
  intros Hh (Ep & Hfa & Ho & Ht & Hf & Hown). destruct (ho_shows _ _ _ _ Hh) as [pages Hs].
  rewrite (ho_space _ _ _ _ Hh) in *. eexists. split; [apply (vs_other s (pr_fds p'))|].
  assert (shows (PM := PM) self σ0 (vm_pages s) (vm_bytes s) a' m' pages) as Hs'.
  { apply (shows_other _ _ _ _ a m); try done. intros k f Hk.
    assert (private_at (pr_mappings p) (k * 4096)) as Hp.
    { destruct Hk as (pg & fl & E & Hn & _). destruct (wf_mapped _ (ho_wf _ _ _ _ Hh) k pg E) as (b & kind & Eb & Hb).
      destruct (wf_pages _ (ho_wf _ _ _ _ Hh) b kind k Eb Hb) as (pg' & E' & Han). rewrite E in E'. injection E' as <-.
      apply Han in Hn. destruct kind as [n| |]; try done. exists b, n. rewrite (ho_live _ _ _ _ Hh), Z.div_mul by lia. done. }
    destruct (private_owned s p a m pages _ Hh Hs Hp) as [_ Hv].
    apply (Hown (k * 4096) f Hp). apply (owned_translate self σ0 (vm_pages s) (vm_bytes s) a m pages); [done| |done].
    by rewrite Z.div_mul by lia. }
  rewrite Ep. destruct Hh as [[] ]. split; try done. by exists pages.
Qed.

(** Outside of the window, the tables show [σ0]. *)
Lemma shown_window s p a m pages v :
  holds s p a m -> shows (PM := PM) self σ0 (vm_pages s) (vm_bytes s) a m pages -> ~ (USER_MMAP_BASE <= v < stack_bottom) ->
  pages !! (v / 4096) = None.
Proof using.
  intros Hh Hs Hv. pose proof (sh_page _ _ _ _ _ _ _ Hs (v / 4096)) as Hb.
  destruct (vm_pages s !! (v / 4096)) as [pg|] eqn:E; [|by destruct (pages !! (v / 4096))]. exfalso. apply Hv.
  destruct (wf_mapped _ (ho_wf _ _ _ _ Hh) _ pg E) as (b & kind & Eb & Hk).
  destruct (wf_range _ (ho_wf _ _ _ _ Hh) b kind Eb) as (Hal & Hlo & Hhi & _). unfold in_mapping in Hk. clear -Hal Hlo Hhi Hk. divlia.
Qed.

Lemma mem_run_sim s st es st' :
  holds s st.1.1 st.1.2 st.2 -> mem_run st es st' -> exists s', maps_run s es s' /\ holds s' st'.1.1 st'.1.2 st'.2.
Proof using Hσ Hpaged.
  intros Hh Hrun. revert s Hh. induction Hrun as [st|[[p a] m] e [[p1 a1] m1] es st2 Hstep Hrun IH]; intros s Hh.
  { exists s. split; [constructor|done]. }
  assert (exists s1, maps_step s e s1 /\ holds s1 p1 a1 m1) as (s1 & Hs1 & Hh1).
  { inversion Hstep as [? op ? r Hok E|? ? Ho]; subst.
    - destruct (wp_use _ _ _ (wp_mem_exec s p a m op Hh Hok) E) as (s1 & H1 & H2). by exists s1.
    - by apply (other_sim s p a m). }
  destruct (IH s1 Hh1) as (s2 & Hr & Hh2). exists s2. split; [by econstructor|done].
Qed.
End Simulation.
End Machine.

(** ** The program break *)
Section Break.
Context {G : Type} `{BG : BitFlags MF_ALL G} {A : Type} `{FA : FrameAllocator A} `{FD : !FrameDeallocator A}.
Context {off : Z} `{PM : !PageMapper G A off} {V W I F : Type}.
Context (self : AddressSpace W) (σ0 : aspace) (limit : Z).
Context (Hσ : forall v, 0 <= v < 4096 * limit -> σ0 v = None) (Hlimit : 4096 * limit <= 2 ^ 47).

Definition heap_page : vpage G := mkVpage None (bf_union MF_USER MF_WRITABLE) 0.
Definition heap_pages (n : Z) : gmap Z (vpage G) := put_pages 0 (Z.to_nat n) (fun _ => heap_page) ∅.

Lemma lookup_heap n k : 0 <= n -> heap_pages n !! k = if decide (0 <= k < n) then Some heap_page else None.
Proof using. intros Hn. unfold heap_pages. rewrite lookup_put, Z2Nat.id, lookup_empty by done. by rewrite Z.add_0_l. Qed.

Lemma heap_page_plain : Z.testbit (bf_bits (bf_union (vp_flags heap_page) MF_USER)) 5 = false.
Proof using.
  change (vp_flags heap_page) with (bf_union (MF_USER : G) MF_WRITABLE). unfold MF_USER, MF_WRITABLE.
  by rewrite !bf_union_bits, !bf_retain_bits.
Qed.

(** Where the addresses below the program are unused, moving the break adds
    zeroed private pages or frees the pages above the new break, and keeps the
    bytes in between. *)
Theorem brk_correct (p : Process V W I F) (a : A) (m : mem) (c : Z -> Z) (addr : Z) (pages : gmap Z (Z * Z)) :
  let old := pages_of (pr_break p) in
  let new := pages_of addr in
  shows (PM := PM) self σ0 (heap_pages old) c a m pages -> pr_space p = self -> 0 <= pr_break p -> 0 < addr ->
  old <= limit -> new <= limit -> 4 * (new - old) <= Z.of_nat (size (fa_free a)) ->
  wp (sys_mem_brk (PM := PM) p a m addr) (fun '(p', a', m', r) => r = addr /\ p' = with_break p addr /\
    (exists pages', shows (PM := PM) self σ0 (heap_pages new) (fun v => if v <? 4096 * old then c v else 0) a' m' pages') /\
    (new <= old -> Z.of_nat (size (fa_free a')) = Z.of_nat (size (fa_free a)) + (old - new))).
Proof using Hσ Hlimit.
  intros old new Hs Hsp Hb0 Ha Hol Hnl Hfr. pose proof (pages_of_bounds (pr_break p)) as Ho. pose proof (pages_of_bounds addr) as Hn.
  fold old in Ho. fold new in Hn. unfold sys_mem_brk. cbv zeta. rewrite (proj2 (Z.eqb_neq addr 0)) by lia.
  wp_step. apply wp_mem_page_align_up; [lia|unfold U64; lia|]. wp_step. apply wp_mem_page_align_up; [lia|unfold U64; lia|].
  fold old new. rewrite Hsp. change PAGE_SIZE with 4096.
  assert (shows (PM := PM) self σ0 (heap_pages old) (fun v => if v <? 4096 * old then c v else 0) a m pages) as Hs0.
  { apply (shows_bytes _ _ _ _ _ _ _ _ Hs). intros k j pg. rewrite lookup_heap by lia. case_decide; [|done]. intros _ Hj.
    by rewrite (proj2 (Z.ltb_lt _ _)) by lia. }
  destruct (Z.ltb_spec (4096 * old) (4096 * new)) as [Hlt|Hge].
  { replace ((4096 * new - 4096 * old) / 4096) with (new - old) by (clear; divlia). wp_step.
    eapply wp_mono; [apply (wp_map_zeroed self σ0 heap_page old (Z.to_nat (new - old)) _ _ a m pages 0 eq_refl heap_page_plain Hs0)|]; try lia.
    - intros k Hk. rewrite lookup_heap, decide_False by lia. split; [done|]. apply Hσ. lia.
    - intros v Hv. rewrite (proj2 (Z.ltb_ge _ _)); [done|]. clear -Hv. divlia.
    - intros [[a' m'] r] [-> [pages' Hs']]. wp_step. split; [done|]. split; [done|]. split; [|lia]. exists pages'.
      replace (heap_pages new) with (put_pages (old + 0) (Z.to_nat (new - old)) (fun _ => heap_page) (heap_pages old)); [done|].
      apply map_eq. intros k. rewrite lookup_put, !lookup_heap by lia. repeat case_decide; first [done|lia]. }
  destruct (Z.ltb_spec (4096 * new) (4096 * old)) as [Hlt|Hge'].
  - replace ((4096 * old - 4096 * new) / 4096) with (old - new) by (clear; divlia). wp_step.
    eapply wp_mono; [apply (wp_unmap_free self σ0 new (Z.to_nat (old - new)) _ _ a m pages 0 Hs0)|]; try lia.
    + intros k Hk. rewrite lookup_heap, decide_True by lia. split; [by exists heap_page|]. intros v Hv. apply Hσ. clear -Hv Hk Hol Hn Ha. divlia.
    + intros [a' m'] [[pages' Hs'] Hsz]. wp_step. split; [done|]. split; [done|]. split; [|lia]. exists pages'.
      replace (heap_pages new) with (del_pages (new + 0) (Z.to_nat (old - new)) (heap_pages old)); [done|].
      apply map_eq. intros k. rewrite lookup_del, !lookup_heap by lia. repeat case_decide; first [done|lia].
  - wp_step. split; [done|]. split; [done|]. assert (new = old) as -> by lia. split; [by exists pages|lia].
Qed.
End Break.

(** ** Shared memory objects *)
Section Shm.
Context {A : Type} `{FA : FrameAllocator A} `{FD : !FrameDeallocator A} (off : Z).

Definition frame_addrs (l : list Z) : list Z := (fun f => f * 4096) <$> l.

(** The frames [l] are in use, each once. *)
Definition held (l : list Z) (a : A) : Prop := NoDup l /\ Forall (fun f => fd_managed (A := A) f /\ f ∉ fa_free a) l.

Definition zeroed (l : list Z) (m : mem) : Prop := forall f x, f ∈ l -> in_frame off (f * 4096) x -> m x = 0.

Lemma wp_free_frames l a m :
  fa_inv a m -> held l a ->
  wp (free_frames (frame_addrs l) a m) (fun '(a', m') => fa_inv a' m' /\ fa_offset a' = fa_offset a /\
    fa_free a' = list_to_set l ∪ fa_free a).
Proof using.
  revert a m. induction l as [|f l IH]; intros a m Hi [Hnd Hl]; cbn [frame_addrs fmap list_fmap free_frames].
  { wp_step. split; [done|]. split; [done|]. set_solver. }
  apply NoDup_cons in Hnd as [Hf Hnd]. apply Forall_cons in Hl as [[Hm Hnf] Hl]. wp_step.
  eapply wp_mono; [by apply fd_deallocate_spec|]. intros [a1 m1] (Hi1 & Ho1 & Hf1 & _).
  eapply wp_mono; [apply (IH a1 m1 Hi1)|].
  - split; [done|]. apply Forall_forall. intros g Hg. pose proof (proj1 (Forall_forall _ _) Hl g Hg) as [? ?].
    split; [done|]. rewrite Hf1. intros [->%elem_of_singleton|?]%elem_of_union; done.
  - intros [a2 m2] (Hi2 & Ho2 & Hf2). split; [done|]. split; [congruence|]. rewrite Hf2, Hf1. set_solver.
Qed.

Lemma wp_shm_allocate n l a m :
  fa_inv a m -> fa_offset a = off -> held l a -> zeroed l m ->
  wp (shm_allocate (off := off) n (frame_addrs l) a m) (fun '(a', m', o) => fa_inv a' m' /\ fa_offset a' = off /\
    match o with
    | Some frames => exists l', frames = frame_addrs l' /\ length l' = (length l + n)%nat /\ held l' a' /\ zeroed l' m' /\
        list_to_set l' ∪ fa_free a' = list_to_set l ∪ fa_free a
    | None => fa_free a' = list_to_set l ∪ fa_free a /\ (size (fa_free a) < n)%nat
    end).
Proof using.
  revert l a m. induction n as [|n IH]; intros l a m Hi Ho Hl Hz; unfold shm_allocate; fold (shm_allocate (off := off)).
  { wp_step. split; [done|]. split; [done|]. exists l. split_and!; try done; lia. }
  wp_step. eapply wp_mono; [by apply fa_allocate_spec|]. intros [a1 [p|]] (Hi1 & Ho1 & Hr).
  2:{ destruct Hr as [-> He]. wp_step. eapply wp_mono; [by apply wp_free_frames|]. intros [a2 m2] (Hi2 & Ho2 & Hf2). wp_step.
      split; [done|]. split; [congruence|]. split; [done|]. rewrite He, size_empty. lia. }
  destruct Hr as (f & -> & Hf & Hfree). destruct (fa_frame_bound _ _ _ Hi Hf) as (H0 & Hb & Hlo & Hhi).
  unfold FRAME_SIZE, PAGE_SIZE in *. rewrite Ho in *. cbv zeta. rewrite VirtAddr_add_canonical by (right; unfold U64 in *; lia).
  destruct Hl as [Hnd Hl]. assert (f ∉ l) as Hfl.
  { intros Hin. by destruct (proj1 (Forall_forall _ _) Hl f Hin). }
  assert (forall x, ~ in_frame off (f * 4096) x -> write_bytes m (off + f * 4096) 0 4096 x = m x) as Hout.
  { intros x Hx. unfold write_bytes, in_frame in *. by zcases. }
  replace (frame_addrs l ++ [f * 4096]) with (frame_addrs (l ++ [f])) by (unfold frame_addrs; by rewrite fmap_app).
  eapply wp_mono; [apply (IH (l ++ [f]) a1)|].
  - apply (fa_inv_mem a1 m); [done|]. intros g x Hg Hx. apply Hout. intros Hx'. rewrite Hfree in Hg.
    assert (g = f) as -> by (unfold in_frame, FRAME_SIZE in *; rewrite Ho1 in Hx; lia). set_solver.
  - done.
  - split; [apply NoDup_app; split_and!; [done|set_solver|apply NoDup_singleton]|]. apply Forall_app. rewrite Hfree. split.
    + apply (Forall_impl _ _ _ Hl). intros g [? ?]. split; [done|set_solver].
    + apply Forall_singleton. split; [by apply (fd_free_managed a m)|set_solver].
  - intros g x Hin Hx. apply elem_of_app in Hin as [Hg|Hg%list_elem_of_singleton]; [|subst g].
    + rewrite Hout; [by apply (Hz g)|]. intros Hx'. by rewrite (in_frame_inj off _ _ _ Hx Hx') in Hg.
    + unfold write_bytes, in_frame in *. by zcases.
  - assert (list_to_set (l ++ [f]) ∪ fa_free a1 = list_to_set l ∪ fa_free a) as Es.
    { rewrite list_to_set_app_L, Hfree. cbn [list_to_set foldr]. apply set_eq. intros x. destruct (decide (x = f)); set_solver. }
    intros [[a2 m2] o] (Hi2 & Ho2 & Hr). split; [done|]. split; [done|]. destruct o as [frames|].
    + destruct Hr as (l' & -> & Hlen & Hh & Hz' & Hs). exists l'. split_and!; try done; [|by rewrite Hs].
      rewrite Hlen, length_app. cbn [length]. lia.
    + destruct Hr as [Hr Hsz]. split; [by rewrite Hr|]. pose proof (size_take_out _ _ Hf). rewrite Hfree in Hsz. lia.
Qed.

(** A shared memory object has its own zeroed frames, enough for its size, and
    dropping it gives the frames back; creating one fails only for lack of
    frames, and then keeps none. *)
Theorem shm_object_correct (size_ : Z) (a : A) (m : mem) :
  fa_inv a m -> fa_offset a = off -> 0 < size_ -> size_ + 4096 < U64 ->
  wp (ShmObject_new (off := off) size_ a m) (fun '(a', m', o) =>
    match o with
    | Some self => exists l, shm_frames self = frame_addrs l /\ shm_size self = size_ /\ Z.of_nat (length l) = pages_of size_ /\
        NoDup l /\ zeroed l m' /\ fa_free a = list_to_set l ∪ fa_free a' /\
        (forall m2, fa_inv a' m2 -> wp (ShmObject_drop self a' m2) (fun '(a2, _) => fa_free a2 = fa_free a))
    | None => fa_free a' = fa_free a /\ Z.of_nat (size (fa_free a)) < pages_of size_
    end).
Proof using.
  intros Hi Ho H0 H1. pose proof (pages_of_bounds size_) as Hb. unfold ShmObject_new. rewrite (proj2 (Z.eqb_neq _ _)) by lia.
  wp_step. apply wp_mem_page_align_up; [lia|done|]. cbv zeta.
  replace (4096 * pages_of size_ / PAGE_SIZE) with (pages_of size_) by (unfold PAGE_SIZE; clear; divlia). wp_step.
  eapply wp_mono; [apply (wp_shm_allocate (Z.to_nat (pages_of size_)) [] a m Hi Ho)|].
  - by split; constructor.
  - intros f x Hf. by apply not_elem_of_nil in Hf.
  - intros [[a' m'] o] (Hi' & Ho' & Hr). destruct o as [frames|]; wp_step; cbn [list_to_set foldr] in Hr.
    + destruct Hr as (l & -> & Hlen & Hh & Hz & Hs). rewrite union_empty_l_L in Hs. exists l.
      split_and!; try done; [cbn [length] in Hlen; lia|apply Hh|].
      intros m2 Hi2. eapply wp_mono; [by apply (wp_free_frames l)|]. intros [a2 m3] (_ & _ & ->). by rewrite Hs.
    + destruct Hr as [Hr Hsz]. rewrite union_empty_l_L in Hr. split; [done|lia].
Qed.
End Shm.

(** ** A new process *)

(** No mapping. *)
Definition no_mappings {G I F} : vm G I F := mkVm ∅ ∅ (fun _ => 0) FileDescriptorTable_new.

Lemma window_canonical v : USER_MMAP_BASE <= v < stack_bottom -> 0 <= v < 2 ^ 47.
Proof. change stack_bottom with 0x7FFFFFFEF000. unfold USER_MMAP_BASE. lia. Qed.

Lemma holds_new {G A V W I F} `{BG : BitFlags MF_ALL G} `{FA : FrameAllocator A} `{FD : !FrameDeallocator A}
    `{AV : ArrayVec FreeRange V MMAP_FREE_LIST_CAPACITY} `{MI : MappableInode I} {off : Z} `{PM : !PageMapper G A off}
    (self : AddressSpace W) (σ0 : aspace) (a : A) (m : mem) :
  pm_inv a m (as_root_phys self) σ0 ->
  holds (PM := PM) (V := V) (I := I) (F := F) self σ0 no_mappings (Process_new self) a m.
Proof.
  intros Hi. split; try done.
  - apply mmap_inv_new.
  - exists ∅. split; try (by intros k f (? & ? & E & _)); try (by intros k f x (? & ? & E & _)); [|done].
    eapply pm_inv_same; [|exact Hi]. intros v _. unfold page_view. by rewrite lookup_empty.
Qed.

Definition can_write {G} (pg : vpage G) : bool := negb (Z.land (vp_prot pg) PROT_WRITE =? 0).
Definition can_execute {G} (pg : vpage G) : bool := negb (Z.land (vp_prot pg) PROT_EXEC =? 0).

(** The flags a page starts from say nothing about writing and executing. *)
Definition plain_base {G} `{BG : BitFlags MF_ALL G} (pg : vpage G) : Prop :=
  Z.testbit (bf_bits (vp_base pg)) 0 = false /\ Z.testbit (bf_bits (vp_base pg)) 1 = false.

Section Rights.
Context {G : Type} `{BG : BitFlags MF_ALL G} {I F : Type} `{MI : MappableInode I}.

Lemma base_rights (b g : G) (w x : bool) :
  Z.testbit (bf_bits b) 0 = false -> Z.testbit (bf_bits b) 1 = false ->
  bf_bits g = Z.lor (Z.lor (Z.lor (bf_bits b) (if w then 1 else 0)) (if x then 2 else 0)) 4 ->
  user_page (page_bits Size4KiB g) w x.
Proof using.
  intros H0 H1 E. pose proof (user_page_bits g) as H. rewrite E, !Z.lor_spec, H0, H1 in H.
  destruct w, x; exact (H (orb_true_r _)).
Qed.

Lemma vp_rights (pg : vpage G) :
  plain_base pg -> user_page (page_bits Size4KiB (bf_union (vp_flags pg) MF_USER)) (can_write pg) (can_execute pg).
Proof using.
  intros [H0 H1]. apply (base_rights (vp_base pg)); [done|done|].
  unfold vp_flags, prot_flags, can_write, can_execute, MF_USER, MF_WRITABLE, MF_EXECUTABLE.
  destruct (negb _), (negb _); rewrite !bf_union_bits, !bf_retain_bits by done; by rewrite ?Z.lor_0_r.
Qed.

Lemma plain_zero b : Z.testbit b 0 = false -> Z.testbit b 1 = false -> is_u64 b ->
  forall f prot, plain_base (mkVpage f (bf_from_bits_retain b : G) prot).
Proof using. intros H0 H1 Hb f prot. split; cbn [vp_base]; by rewrite bf_retain_bits. Qed.

Lemma requested_plain t op (rq : request G) i : requested (F := F) t op = Some (Ok rq) -> plain_base (rq_page rq i).
Proof using.
  intros E. destruct op as [hint l prot flags fd|fd l prot| | | |]; try done; cbn [requested] in E.
  - destruct (l =? 0); [done|]. destruct (negb _).
    + destruct (inode_of t fd) as [inode|]; [|done]. destruct (mmap_phys inode) as [[base size]|]; [|done].
      destruct (_ <? _); [done|]. injection E as <-. unfold MF_USER, MF_CACHE_DISABLE.
      destruct (mmap_cache_disable inode); [|by apply plain_zero].
      split; cbn [rq_page vp_base]; by rewrite bf_union_bits, !bf_retain_bits.
    + destruct (negb _); [|done]. injection E as <-. by apply plain_zero.
  - destruct (l =? 0); [done|]. destruct (inode_of t fd) as [inode|]; [|done].
    destruct (shared_phys_frames inode) as [frames|]; [|done]. destruct (_ <? _); [done|]. injection E as <-. by apply plain_zero.
Qed.

Lemma maps_run_plain (s s' : vm G I F) es :
  maps_run s es s' -> map_Forall (fun _ => plain_base) (vm_pages s) -> map_Forall (fun _ => plain_base) (vm_pages s').
Proof using.
  induction 1 as [|s e s1 es s2 Hstep _ IH]; [done|]. intros Hs. apply IH. clear IH.
  destruct Hstep as [op rq b E Hf| |addr length kind Ek Hn|addr length prot k Hk Hpre Hno| | |]; try done; cbn [vm_pages grant remove].
  - intros k pg. rewrite lookup_put. case_decide; [intros [= <-]; by eapply requested_plain|apply Hs].
  - intros k pg. rewrite lookup_del. case_decide; [done|apply Hs].
  - intros j pg. rewrite lookup_reprotect. destruct (vm_pages s !! j) as [pg'|] eqn:E; [|done]. intros [= <-].
    case_decide; [by apply plain_zero|by apply (Hs j)].
Qed.
End Rights.

(** ** Properties *)


(** *** A small machine *)

(** Inodes of the example: a shared memory object or a device of 4 pages. *)
Inductive example_inode : Type := IShm (o : ShmObject) | IDevice (base : Z).

#[export] Instance example_MappableInode : MappableInode example_inode := {|
  mmap_phys i := match i with IShm _ => Err NotSupported | IDevice base => Ok (base, 0x4000) end;
  mmap_cache_disable _ := true;
  shared_phys_frames i := match i with IShm o => ShmObject_shared_phys_frames o | IDevice _ => Err NotSupported end;
  shm_inode := IShm;
  shm_inode_frames := fun _ => eq_refl;
|}.

Section Example.
#[local] Instance frames_fa : FrameAllocator BitmapAllocator := bounded_FrameAllocator false 272.
#[local] Instance frames_fd : FrameDeallocator BitmapAllocator := bounded_FrameDeallocator false 272.
#[local] Instance tables : PageMapper word64 BitmapAllocator example_off := x86_PageMapper (F := word64) example_off.
Abbreviation process := (Process (list FreeRange) unit example_inode word64).

Definition example_process : process := Process_new (space 0).

Lemma example_tables : refines (A := BitmapAllocator) example_off 0 example_pmm zero_mem (fun _ => None).
Proof using.
  apply empty_root.
  - split; [|done]. split; [exact example_pmm_inv|]. intros E. discriminate E.
  - done.
  - split; [split; [unfold is_phys; lia|done]|]. unfold example_off, U64. lia.
  - change (0 / 4096) with 0. change (fa_free example_pmm) with (pmm_free example_pmm).
    unfold pmm_free. rewrite elem_of_free_set. vm_compute. intuition discriminate.
  - intros i _. reflexivity.
Qed.

Lemma example_allowed : allowed (G := word64) (example_process, example_pmm, zero_mem) (OMap 0 0x1800 3 MAP_ANONYMOUS 0).
Proof using.
  split; [unfold length_ok, U64; lia|]. intros rq E. vm_compute in E. injection E as <-. split; [by vm_compute|]. split; [|done].
  destruct example_pmm_inv as (_ & H & _). change (free_count example_pmm) with 174 in H.
  change (4 * 2 <= Z.of_nat (size (pmm_free example_pmm))). lia.
Qed.

Abbreviation spec := (vm word64 example_inode word64).

Definition example_events (b : Z) : list mem_event :=
  [Call (OMap 0 0x1800 3 MAP_ANONYMOUS 0) b 0; Call (OStore b 7) 0 0; Call (OLoad b) 7 0; Call (OLoad (b + 1)) 0 0;
   Call (OUnmap b 0x1800) 0 2].

Lemma example_run : exists b st, mem_run (PM := tables) (example_process, example_pmm, zero_mem) (example_events b) st.
Proof using.
  assert (holds (PM := tables) (space 0) (fun _ => None) (no_mappings : spec) example_process example_pmm zero_mem) as H0
    by (apply holds_new, example_tables).
  pose proof (mem_exec_step (PM := tables) (V := list FreeRange) (I := example_inode) (F := word64) (space 0) (fun _ => None) (fun _ _ => eq_refl) (fun _ _ _ => eq_refl)) as Hstep.
  destruct (Hstep _ _ _ _ _ H0 example_allowed) as (p1 & a1 & m1 & b & d1 & s1 & R1 & S1 & H1).
  assert (d1 = 0 /\ b mod 4096 = 0 /\ vm_live s1 = <[b := Anonymous 2]> ∅ /\ vm_bytes s1 b = 0 /\ vm_bytes s1 (b + 1) = 0) as (-> & Hal & L1 & B1 & B1').
  { inversion S1 as [op rq b' E Hf|op e E| | | | |]; subst; [|by vm_compute in E]. split; [done|]. split; [apply Hf|].
    injection E as <-. split; [done|]. cbn [vm_bytes grant]. cbn [rq_count rq_kind page_count].
    change (pages_of 0x1800) with 2. by split; zcases. }
  assert (forall (s : spec) p a m, holds (PM := tables) (space 0) (fun _ => None) s p a m -> vm_live s = vm_live s1 ->
    private_at (pr_mappings p) b /\ private_at (pr_mappings p) (b + 1) /\ pr_mappings p !! b = Some (Anonymous 2)) as Hpriv.
  { intros s p a m Hs Ls. rewrite (ho_live _ _ _ _ _ _ Hs), Ls, L1. split_and!; [| |apply lookup_insert_eq]; exists b, 2;
      (split; [apply lookup_insert_eq|]); unfold in_mapping; cbn [page_count]; clear -Hal; divlia. }
  destruct (Hstep _ _ _ _ (OStore b 7) H1 (proj1 (Hpriv _ _ _ _ H1 eq_refl))) as (p2 & a2 & m2 & r2 & d2 & s2 & R2 & S2 & H2).
  inversion S2 as [op rq b' E Hf|op e E| | |v x Hv| |]; subst; try done. clear S2.
  destruct (Hstep _ _ _ _ (OLoad b) H2 (proj1 (Hpriv _ _ _ _ H2 eq_refl))) as (p3 & a3 & m3 & r3 & d3 & s3 & R3 & S3 & H3).
  inversion S3 as [op rq b' E Hf|op e E| | | |v Hv'|]; subst; try done. clear S3.
  destruct (Hstep _ _ _ _ (OLoad (b + 1)) H3 (proj1 (proj2 (Hpriv _ _ _ _ H3 eq_refl)))) as (p4 & a4 & m4 & r4 & d4 & s4 & R4 & S4 & H4).
  inversion S4 as [op rq b' E Hf|op e E| | | |v Hv''|]; subst; try done. clear S4.
  destruct (Hpriv _ _ _ _ H4 eq_refl) as (_ & _ & L4).
  destruct (Hstep _ _ _ _ (OUnmap b 0x1800) H4) as (p5 & a5 & m5 & r5 & d5 & s5 & R5 & S5 & _).
  { split; [lia|]. by exists (Anonymous 2). }
  inversion S5 as [op rq b' E Hf|op e E|addr len kind Ek Hn| | | |]; subst; try done. clear S5.
  cbn [vm_live] in Ek. rewrite L1, lookup_insert_eq in Ek. injection Ek as <-. cbn [anonymous page_count vm_bytes] in *.
  rewrite Z.eqb_refl in R3. rewrite (proj2 (Z.eqb_neq (b + 1) b)), B1' in R4 by lia.
  exists b, (p5, a5, m5). unfold example_events. repeat (econstructor; [eassumption|]). constructor.
Qed.


(** *** Calls outside of the specification *)

(** A process shares [size] bytes with itself: it creates the object and maps
    it, writable. *)
Definition share (size : Z) : exec (process * BitmapAllocator * mem * Z) :=
  '(p, a, m, fd) ← sys_mem_create_shared (off := example_off) example_process example_pmm zero_mem size;
  sys_mem_map_shared (PM := tables) p a m fd size PROT_WRITE.

(** Closing the descriptor 0, which has the only reference to the object: it is
    dropped. *)
Definition close_shared (p : process) (a : BitmapAllocator) (m : mem) : exec (process * BitmapAllocator * mem) :=
  let '(t, removed) := close_take (pr_fds p) 0 in
  match removed with
  | Some d =>
      match fd_inode d with
      | IShm o => '(a, m) ← ShmObject_drop o a m; Ret (with_fds p t, a, m)
      | IDevice _ => Ret (with_fds p t, a, m)
      end
  | None => Ret (p, a, m)
  end.


(** Unmapping the second page of a shared mapping frees a frame that the object
    owns, since only the first address is in the table of mappings; dropping
    the object frees it again, and the allocator panics. *)
Theorem partial_unmap_double_free :
  ('(p, a, m, b) ← share 0x2000; '(p, a, m, r) ← sys_mem_unmap (PM := tables) p a m (b + 0x1000) 0x1000; close_shared p a m) = Panic /\
  wp ('(p, a, m, b) ← share 0x2000; '(p, a, m, r) ← sys_mem_unmap (PM := tables) p a m b 0x2000; close_shared p a m) (fun _ => True).
Proof using. by vm_compute. Qed.

(** Arguments with which a process panics the kernel: an address below the
    region, an address that is not canonical, a page of the stack, a page of
    the kernel, and a length that cannot be rounded up. *)
Theorem unmap_panics :
  Forall (fun '(addr, length) => sys_mem_unmap (PM := tables) example_process example_pmm zero_mem addr length = Panic)
    [(0x400000, 0x1000); (0x800000000000, 0x1000); (stack_bottom, 0x1000); (0xFFFFFFFF80000000, 0x1000); (USER_MMAP_BASE, U64 - 1)] /\
  sys_mem_map (PM := tables) example_process example_pmm zero_mem 0 (U64 - 1) 0 MAP_ANONYMOUS 0 = Panic.
Proof using. split; [|by vm_compute]. repeat (apply Forall_cons; split; [by vm_compute|]). by apply Forall_nil. Qed.

(** The program break of a new process is 0: the first page it asks for is
    mapped at the null address, and a break beyond a page of its own program
    replaces that page by a zeroed one that cannot be executed. *)
Theorem brk_starts_at_null :
  wp (sys_mem_brk (PM := tables) example_process example_pmm zero_mem 1) (fun '(p, a, m, r) =>
    r = 1 /\ exists f fl, page_of example_off 0 m 0 = Some (Size4KiB, f, fl) /\ user_page fl true false) /\
  wp ('(a, m, _) ← map_user_page (PM := tables) (space 0) 0x4000 0x7000 MF_EXECUTABLE example_pmm zero_mem;
      sys_mem_brk (PM := tables) example_process a m 0x5000) (fun '(p, a, m, r) =>
    r = 0x5000 /\ exists f fl, page_of example_off 0 m 0x4000 = Some (Size4KiB, f, fl) /\ f <> 0x7000 /\ user_page fl true false).
Proof using.
  split; vm_compute; (split; [done|]); eexists _, _; (split; [reflexivity|]); [by split_and!|]. split; [done|by split_and!].
Qed.

(** A break that fails for lack of memory keeps the pages it mapped, though the
    break stays where it was: no frame is left. *)
Theorem failed_brk_not_undone :
  wp (sys_mem_brk (PM := tables) example_process example_pmm zero_mem 0x100000) (fun '(p, a, m, r) =>
    r = - errno ENOMEM /\ pr_break p = 0 /\ free_count a = 0 /\
    exists f fl, page_of example_off 0 m 0xA0000 = Some (Size4KiB, f, fl) /\ user_page fl true false).
Proof using. vm_compute. split_and!; [done..|]. eexists _, _. split; [reflexivity|]. by split_and!. Qed.

(** Changing the protection of a device mapping makes it cacheable. *)
Theorem protect_drops_cache_disable :
  let p := with_fds example_process (mkFdTable {[0 := mkFileDescriptor (IDevice 0xFD000000) 0 (w64 3)]} 1) in
  wp ('(p, a, m, b) ← sys_mem_map (PM := tables) p example_pmm zero_mem 0 0x1000 PROT_WRITE MAP_SHARED 0;
      '(p, a, m', r) ← sys_mem_protect (PM := tables) p a m b 0x1000 PROT_WRITE; Ret (m, m', b, r)) (fun '(m, m', b, r) =>
    r = 0 /\ exists fl fl', page_of example_off 0 m b = Some (Size4KiB, 0xFD000000, fl) /\ Z.testbit fl 4 = true /\
      page_of example_off 0 m' b = Some (Size4KiB, 0xFD000000, fl') /\ Z.testbit fl' 4 = false).
Proof using. vm_compute. split; [done|]. eexists _, _. split; [reflexivity|]. split; [done|]. split; [reflexivity|done]. Qed.
End Example.
