(* ===== verification/Ring.v ===== *)
(** * The circular byte buffer (kernel/ipc/src/circular_buffer.rs)

    A byte is a [Z].  [CircularBuffer_read] takes the caller's buffer and
    returns it with the bytes copied to its front. *)

From S2P Require Import Prelude Std.

Record CircularBuffer : Type := mkCircularBuffer {
  cb_data : list Z;
  cb_read_pos : Z;
  cb_write_pos : Z;
  cb_count : Z;
}.

Definition CircularBuffer_new (capacity : Z) : CircularBuffer :=
  mkCircularBuffer (replicate (Z.to_nat capacity) 0) 0 0 0.

Definition cb_capacity (self : CircularBuffer) : Z := Z.of_nat (length (cb_data self)).

Definition cb_len (self : CircularBuffer) : Z := cb_count self.

Definition cb_is_empty (self : CircularBuffer) : bool := cb_count self =? 0.

Definition cb_is_full (self : CircularBuffer) : bool := cb_count self =? cb_capacity self.

Definition CircularBuffer_read (self : CircularBuffer) (buf : list Z)
    : exec (CircularBuffer * list Z * Z) :=
  let to_read := Z.min (Z.of_nat (length buf)) (cb_count self) in
  if to_read =? 0 then Ret (self, buf, 0) else
  let cap := cb_capacity self in
  room ← sub64 cap (cb_read_pos self);
  let first := Z.min room to_read in
  stop ← add64 (cb_read_pos self) first;
  src ← slice (cb_data self) (cb_read_pos self) stop;
  buf ← copy_from_slice buf 0 first src;
  buf ← (if first <? to_read then
           rest ← sub64 to_read first;
           src ← slice (cb_data self) 0 rest;
           copy_from_slice buf first to_read src
         else Ret buf);
  rp ← add64 (cb_read_pos self) to_read;
  _ ← assert (negb (cap =? 0));
  count ← sub64 (cb_count self) to_read;
  Ret (mkCircularBuffer (cb_data self) (rp mod cap) (cb_write_pos self) count, buf, to_read).

Definition CircularBuffer_write (self : CircularBuffer) (buf : list Z)
    : exec (CircularBuffer * Z) :=
  available ← sub64 (cb_capacity self) (cb_count self);
  let to_write := Z.min (Z.of_nat (length buf)) available in
  if to_write =? 0 then Ret (self, 0) else
  let cap := cb_capacity self in
  room ← sub64 cap (cb_write_pos self);
  let first := Z.min room to_write in
  stop ← add64 (cb_write_pos self) first;
  src ← slice buf 0 first;
  data ← copy_from_slice (cb_data self) (cb_write_pos self) stop src;
  data ← (if first <? to_write then
            rest ← sub64 to_write first;
            src ← slice buf first to_write;
            copy_from_slice data 0 rest src
          else Ret data);
  wp ← add64 (cb_write_pos self) to_write;
  _ ← assert (negb (cap =? 0));
  count ← add64 (cb_count self) to_write;
  Ret (mkCircularBuffer data (cb_read_pos self) (wp mod cap) count, to_write).

(** ** The queue a buffer represents *)

(** The byte at position [i] from the front. *)
Definition cb_at (self : CircularBuffer) (i : Z) : option Z :=
  cb_data self !! Z.to_nat ((cb_read_pos self + i) mod cb_capacity self).

Definition cb_inv (self : CircularBuffer) : Prop :=
  0 <= cb_count self <= cb_capacity self /\ cb_capacity self < 2 ^ 62 /\
  (cb_capacity self = 0 \/
   0 <= cb_read_pos self < cb_capacity self /\
   cb_write_pos self = (cb_read_pos self + cb_count self) mod cb_capacity self).

(** The buffer holds the bytes [q], the oldest first. *)
Definition cb_holds (self : CircularBuffer) (q : list Z) : Prop :=
  cb_inv self /\ Z.of_nat (length q) = cb_count self /\
  forall i, (i < length q)%nat -> cb_at self (Z.of_nat i) = q !! i.

Lemma wrap_mod x c : 0 < c -> 0 <= x < 2 * c -> x mod c = if decide (x < c) then x else x - c.
Proof.
  intros Hc Hx. case_decide; [by apply Z.mod_small; lia|].
  symmetry. apply (Z.mod_unique _ _ 1); lia.
Qed.

Lemma cb_at_bounds self q i :
  cb_holds self q -> (i < length q)%nat ->
  (cb_read_pos self + Z.of_nat i) mod cb_capacity self =
  (if decide (cb_read_pos self + Z.of_nat i < cb_capacity self) then cb_read_pos self + Z.of_nat i
   else cb_read_pos self + Z.of_nat i - cb_capacity self) /\
  q !! i = cb_data self !! Z.to_nat
    (if decide (cb_read_pos self + Z.of_nat i < cb_capacity self) then cb_read_pos self + Z.of_nat i
     else cb_read_pos self + Z.of_nat i - cb_capacity self).
Proof.
  intros ((Hc & _ & Hpos) & Hlen & Hat) Hi. destruct Hpos as [?|[Hr Hw]]; [lia|].
  pose proof (wrap_mod (cb_read_pos self + Z.of_nat i) (cb_capacity self) ltac:(lia) ltac:(lia)) as Hm.
  split; [done|]. rewrite <- Hm. symmetry. by apply Hat.
Qed.

(** The bytes read: the part before the end of the data, then the wrapped part. *)
Lemma read_buf self q buf (n first : nat) :
  cb_holds self q -> (n <= length q)%nat -> (n <= length buf)%nat ->
  Z.of_nat first = Z.min (cb_capacity self - cb_read_pos self) (Z.of_nat n) ->
  let buf1 := take 0 buf ++ take first (drop (Z.to_nat (cb_read_pos self)) (cb_data self)) ++ drop first buf in
  length buf1 = length buf /\
  buf1 = take first q ++ drop first buf /\
  ((first < n)%nat ->
   take first buf1 ++ take (n - first) (drop 0 (cb_data self)) ++ drop n buf1 = take n q ++ drop n buf).
Proof.
  intros Hh Hq Hb Hf buf1. pose proof Hh as ((Hc & _ & Hpos) & Hlen & Hat).
  unfold cb_capacity in *. destruct (decide (n = 0%nat)) as [->|Hn0].
  { destruct Hpos as [Hz|[Hr _]]; [|assert (first = 0%nat) as -> by lia; done].
    destruct (cb_data self); [|done]. simpl in *. assert (q = []) as -> by (destruct q; simpl in *; [done|lia]).
    assert (first <= 0)%nat by lia. assert (first = 0%nat) as -> by lia. done. }
  destruct Hpos as [?|[Hr Hw]]; [lia|].
  assert (length buf1 = length buf) as Hl1.
  { unfold buf1. rewrite !length_app, !length_take, !length_drop. lia. }
  assert (forall j, buf1 !! j = if decide (0 <= j < first)%nat
    then take first (drop (Z.to_nat (cb_read_pos self)) (cb_data self)) !! (j - 0)%nat else buf !! j) as Hlk1.
  { intros j. unfold buf1. apply lookup_copied; [lia|]. rewrite length_take, length_drop. lia. }
  assert (forall j, (j < first)%nat -> q !! j = cb_data self !! (Z.to_nat (cb_read_pos self) + j)%nat) as Hq1.
  { intros j Hj. destruct (cb_at_bounds self q j Hh ltac:(lia)) as [_ ->]. unfold cb_capacity.
    rewrite decide_True by lia. f_equal. lia. }
  split_and!; [done| |].
  - apply list_eq. intros j. rewrite Hlk1. case_decide as Hj.
    + rewrite Nat.sub_0_r, lookup_take_lt, lookup_drop by lia. rewrite lookup_app_l by (rewrite length_take; lia).
      rewrite lookup_take_lt by lia. symmetry. apply Hq1. lia.
    + rewrite lookup_app_r by (rewrite length_take; lia). rewrite length_take, lookup_drop. f_equal. lia.
  - intros Hlt. apply list_eq. intros j.
    rewrite (lookup_copied buf1) by (rewrite ?length_take, ?length_drop; lia). case_decide as Hj.
    + rewrite lookup_take_lt, lookup_drop by lia. rewrite lookup_app_l by (rewrite length_take; lia).
      rewrite lookup_take_lt by lia. destruct (cb_at_bounds self q j Hh ltac:(lia)) as [_ ->].
      unfold cb_capacity. rewrite decide_False by lia. f_equal. lia.
    + rewrite Hlk1. case_decide as Hj2.
      * rewrite Nat.sub_0_r, lookup_take_lt, lookup_drop by lia.
        rewrite lookup_app_l by (rewrite length_take; lia). rewrite lookup_take_lt by lia. symmetry. apply Hq1. lia.
      * rewrite lookup_app_r by (rewrite length_take; lia). rewrite length_take, lookup_drop. f_equal. lia.
Qed.

(** Dropping bytes from the front moves the read position. *)
Lemma holds_advance self q n :
  cb_holds self q -> 0 < n <= cb_count self ->
  cb_holds (mkCircularBuffer (cb_data self) ((cb_read_pos self + n) mod cb_capacity self)
              (cb_write_pos self) (cb_count self - n)) (drop (Z.to_nat n) q).
Proof.
  intros ((Hc & Hcap & Hpos) & Hlen & Hat) Hn. destruct Hpos as [?|[Hr Hw]]; [lia|].
  unfold cb_holds, cb_inv, cb_at, cb_capacity in *. cbn [cb_data cb_read_pos cb_write_pos cb_count].
  set (c := Z.of_nat (length (cb_data self))) in *.
  pose proof (Z.mod_pos_bound (cb_read_pos self + n) c ltac:(lia)). split_and!; try lia.
  - right. split; [done|]. rewrite Zplus_mod_idemp_l, Hw. f_equal. lia.
  - rewrite length_drop. lia.
  - intros i Hi. rewrite length_drop in Hi. rewrite lookup_drop, <- Hat by lia.
    rewrite Zplus_mod_idemp_l. do 3 f_equal. lia.
Qed.

Lemma wp_cb_read self q buf :
  cb_holds self q ->
  let n := Nat.min (length buf) (length q) in
  wp (CircularBuffer_read self buf) (fun '(self', buf', k) =>
    k = Z.of_nat n /\ cb_holds self' (drop n q) /\ buf' = take n q ++ drop n buf /\
    cb_capacity self' = cb_capacity self).
Proof.
  intros Hh n. pose proof Hh as ((Hc & Hcap & Hpos) & Hlen & Hat). unfold CircularBuffer_read.
  replace (Z.min (Z.of_nat (length buf)) (cb_count self)) with (Z.of_nat n) by lia.
  destruct (Z.eqb_spec (Z.of_nat n) 0) as [Hz|Hnz].
  { apply wp_ret. assert (n = 0%nat) as -> by lia. by split_and!. }
  destruct Hpos as [?|[Hr Hw]]; [lia|].
  destruct (read_buf self q buf n (Z.to_nat (Z.min (cb_capacity self - cb_read_pos self) (Z.of_nat n))) Hh)
    as (B1 & B2 & B3); [lia|lia|lia|].
  pose proof (holds_advance self q (Z.of_nat n) Hh ltac:(lia)) as Hadv. rewrite Nat2Z.id in Hadv.
  set (f := Z.min (cb_capacity self - cb_read_pos self) (Z.of_nat n)) in *.
  assert (0 <= f <= Z.of_nat n /\ f <= cb_capacity self - cb_read_pos self) as [Hf Hf2] by lia.
  wp_step. wp_step. fold f. wp_step. wp_step. wp_step.
  apply wp_slice; [lia|unfold cb_capacity in *; lia|].
  replace (cb_read_pos self + f - cb_read_pos self) with f by lia. wp_step.
  apply wp_copy_from_slice; [lia|lia|rewrite length_take, length_drop; unfold cb_capacity in *; lia|].
  change (Z.to_nat 0) with 0%nat. set (buf1 := take 0 buf ++ _) in *. wp_step.
  assert (forall b, b = take n q ++ drop n buf ->
    wp (rp ← add64 (cb_read_pos self) (Z.of_nat n);
        _ ← assert (negb (cb_capacity self =? 0));
        count ← sub64 (cb_count self) (Z.of_nat n);
        Ret (mkCircularBuffer (cb_data self) (rp mod cb_capacity self) (cb_write_pos self) count,
             b, Z.of_nat n)) (fun '(self', buf', k) =>
      k = Z.of_nat n /\ cb_holds self' (drop n q) /\ buf' = take n q ++ drop n buf /\
      cb_capacity self' = cb_capacity self)) as Hend.
  { intros b ->. wp_steps. by split_and!. }
  destruct (Z.ltb_spec f (Z.of_nat n)) as [Hlt|Hge].
  - wp_step. wp_step. wp_step. apply wp_slice; [lia|unfold cb_capacity in *; lia|].
    apply wp_copy_from_slice; [lia|rewrite B1; lia|rewrite length_take, length_drop; unfold cb_capacity in *; lia|].
    apply Hend. rewrite <- B3 by lia. rewrite Z.sub_0_r, Nat2Z.id. repeat f_equal. lia.
  - wp_step. apply Hend. rewrite B2. replace (Z.to_nat f) with n by lia. done.
Qed.

(** The data after a write: the new bytes lie behind the old ones. *)
Lemma write_data self q buf (n first : nat) :
  cb_holds self q -> (0 < n <= length buf)%nat ->
  Z.of_nat n <= cb_capacity self - cb_count self ->
  Z.of_nat first = Z.min (cb_capacity self - cb_write_pos self) (Z.of_nat n) ->
  forall data',
  length data' = length (cb_data self) ->
  (forall j, data' !! j =
     if decide (j < n - first)%nat then buf !! (first + j)%nat
     else if decide (Z.to_nat (cb_write_pos self) <= j < Z.to_nat (cb_write_pos self) + first)%nat
          then buf !! (j - Z.to_nat (cb_write_pos self))%nat else cb_data self !! j) ->
  cb_holds (mkCircularBuffer data' (cb_read_pos self)
              ((cb_write_pos self + Z.of_nat n) mod cb_capacity self)
              (cb_count self + Z.of_nat n)) (q ++ take n buf).
Proof.
  intros Hh Hn Hroom Hf data' Hl Hlk. pose proof Hh as ((Hc & Hcap & Hpos) & Hlen & Hat).
  destruct Hpos as [?|[Hr Hw]]; [lia|].
  pose proof (wrap_mod (cb_read_pos self + cb_count self) (cb_capacity self) ltac:(lia) ltac:(lia)) as Hwm.
  rewrite <- Hw in Hwm.
  assert (cb_capacity self = Z.of_nat (length (cb_data self))) as Hcp by done.
  unfold cb_holds, cb_inv, cb_at. cbn [cb_data cb_read_pos cb_write_pos cb_count].
  assert (cb_capacity (mkCircularBuffer data' (cb_read_pos self)
    ((cb_write_pos self + Z.of_nat n) mod cb_capacity self) (cb_count self + Z.of_nat n)) =
    cb_capacity self) as -> by (unfold cb_capacity; simpl; by rewrite Hl).
  split_and!; try lia.
  - right. split; [done|]. rewrite Hw, Zplus_mod_idemp_l. f_equal. lia.
  - rewrite length_app, length_take. lia.
  - intros i Hi. rewrite length_app, length_take in Hi. rewrite Hlk.
    rewrite wrap_mod by lia. destruct (decide (i < length q)%nat) as [Hiq|Hiq].
    + rewrite lookup_app_l by done. destruct (cb_at_bounds self q i Hh Hiq) as [_ ->].
      repeat case_decide; try (f_equal; lia); exfalso; lia.
    + rewrite lookup_app_r by lia. rewrite lookup_take_lt by lia.
      repeat case_decide; try (f_equal; lia); exfalso; lia.
Qed.

Lemma wp_cb_write self q buf :
  cb_holds self q ->
  let n := Nat.min (length buf) (Z.to_nat (cb_capacity self - cb_count self)) in
  wp (CircularBuffer_write self buf) (fun '(self', k) =>
    k = Z.of_nat n /\ cb_holds self' (q ++ take n buf) /\ cb_capacity self' = cb_capacity self).
Proof.
  intros Hh n. pose proof Hh as ((Hc & Hcap & Hpos) & Hlen & Hat). unfold CircularBuffer_write.
  wp_step. wp_step.
  replace (Z.min (Z.of_nat (length buf)) (cb_capacity self - cb_count self)) with (Z.of_nat n) by lia.
  destruct (Z.eqb_spec (Z.of_nat n) 0) as [Hz|Hnz].
  { apply wp_ret. assert (n = 0%nat) as -> by lia. rewrite take_0, app_nil_r. by split_and!. }
  destruct Hpos as [?|[Hr Hw]]; [lia|].
  assert (0 <= cb_write_pos self < cb_capacity self) as Hwp by (rewrite Hw; apply Z.mod_pos_bound; lia).
  set (f := Z.min (cb_capacity self - cb_write_pos self) (Z.of_nat n)).
  assert (0 <= f <= Z.of_nat n /\ f <= cb_capacity self - cb_write_pos self) as [Hf Hf2] by lia.
  pose proof (write_data self q buf n (Z.to_nat f) Hh ltac:(lia) ltac:(lia) ltac:(lia)) as Hwr.
  assert (cb_capacity self = Z.of_nat (length (cb_data self))) as Hcp by done.
  wp_step. wp_step. fold f. wp_step. wp_step. wp_step. apply wp_slice; [lia|lia|]. wp_step.
  change (drop (Z.to_nat 0) buf) with buf. rewrite Z.sub_0_r.
  apply wp_copy_from_slice; [lia|lia|rewrite length_take; lia|].
  set (d1 := take _ _ ++ _). wp_step.
  assert (length (take (Z.to_nat f) buf) = Z.to_nat (cb_write_pos self + f) - Z.to_nat (cb_write_pos self))%nat
    as Hs1 by (rewrite length_take; lia).
  assert (length d1 = length (cb_data self)) as Hl1 by (unfold d1; apply length_copied; [lia|done]).
  assert (forall j, d1 !! j = if decide (Z.to_nat (cb_write_pos self) <= j < Z.to_nat (cb_write_pos self) + Z.to_nat f)%nat
    then buf !! (j - Z.to_nat (cb_write_pos self))%nat else cb_data self !! j) as Hlk1.
  { intros j. unfold d1. rewrite lookup_copied by (done || lia).
    repeat case_decide; try lia; [by rewrite lookup_take_lt by lia|done]. }
  assert (forall d, length d = length (cb_data self) -> (forall j, d !! j =
      if decide (j < n - Z.to_nat f)%nat then buf !! (Z.to_nat f + j)%nat else d1 !! j) ->
    wp (wp ← add64 (cb_write_pos self) (Z.of_nat n);
        _ ← assert (negb (cb_capacity self =? 0));
        count ← add64 (cb_count self) (Z.of_nat n);
        Ret (mkCircularBuffer d (cb_read_pos self) (wp mod cb_capacity self) count, Z.of_nat n))
    (fun '(self', k) => k = Z.of_nat n /\ cb_holds self' (q ++ take n buf) /\
       cb_capacity self' = cb_capacity self)) as Hend.
  { intros d Hl Hd. wp_steps. split_and!; [done| |unfold cb_capacity; simpl; congruence].
    apply Hwr; [done|]. intros j. by rewrite Hd, Hlk1. }
  destruct (Z.ltb_spec f (Z.of_nat n)) as [Hlt|Hge].
  - wp_step. wp_step. wp_step. apply wp_slice; [lia|lia|].
    apply wp_copy_from_slice; [lia|lia|rewrite length_take, length_drop; lia|].
    apply Hend.
    + etrans; [apply length_copied; [lia|]|exact Hl1]. rewrite length_take, length_drop. lia.
    + intros j. rewrite lookup_copied by (rewrite ?length_take, ?length_drop; lia).
      repeat case_decide; try lia; [|done]. rewrite lookup_take_lt, lookup_drop by lia. f_equal. lia.
  - wp_step. apply Hend; [done|]. intros j. by rewrite decide_False by lia.
Qed.

Lemma cb_new_holds cap : 0 <= cap < 2 ^ 62 -> cb_holds (CircularBuffer_new cap) [].
Proof.
  intros Hc. unfold CircularBuffer_new, cb_holds, cb_inv, cb_capacity. cbn [cb_data cb_read_pos cb_write_pos cb_count].
  rewrite length_replicate, Z2Nat.id by lia. split_and!; try done; try lia; [|simpl; lia].
  destruct (decide (cap = 0)) as [->|]; [by left|right]. split; [lia|]. by rewrite Z.mod_0_l by lia.
Qed.

(** ** The specification: a bounded queue of bytes *)

Inductive ring_op : Type := RRead (buf : list Z) | RWrite (buf : list Z).

(** What the caller sees: the returned count and its buffer. *)
Definition fifo_op (cap : nat) (q : list Z) (op : ring_op) : list Z * (Z * list Z) :=
  match op with
  | RRead buf =>
      let n := Nat.min (length buf) (length q) in
      (drop n q, (Z.of_nat n, take n q ++ drop n buf))
  | RWrite buf =>
      let n := Nat.min (length buf) (cap - length q) in
      (q ++ take n buf, (Z.of_nat n, buf))
  end.

Fixpoint fifo_run (cap : nat) (q : list Z) (ops : list ring_op) : list (Z * list Z) :=
  match ops with
  | [] => []
  | op :: ops => let '(q, r) := fifo_op cap q op in r :: fifo_run cap q ops
  end.

Definition ring_step (cb : CircularBuffer) (op : ring_op) : exec (CircularBuffer * (Z * list Z)) :=
  match op with
  | RRead buf => '(cb, buf, n) ← CircularBuffer_read cb buf; Ret (cb, (n, buf))
  | RWrite buf => '(cb, n) ← CircularBuffer_write cb buf; Ret (cb, (n, buf))
  end.

Fixpoint ring_run (cb : CircularBuffer) (ops : list ring_op) : exec (list (Z * list Z)) :=
  match ops with
  | [] => Ret []
  | op :: ops =>
      '(cb, r) ← ring_step cb op;
      rs ← ring_run cb ops;
      Ret (r :: rs)
  end.

Lemma wp_ring_step cb q op :
  cb_holds cb q ->
  wp (ring_step cb op) (fun '(cb', r) =>
    cb_holds cb' (fst (fifo_op (Z.to_nat (cb_capacity cb)) q op)) /\
    r = snd (fifo_op (Z.to_nat (cb_capacity cb)) q op) /\ cb_capacity cb' = cb_capacity cb).
Proof.
  intros Hh. pose proof Hh as ((Hc & _) & Hlen & _). destruct op as [buf|buf]; simpl; wp_step.
  - eapply wp_mono; [by apply wp_cb_read|]. intros [[cb' buf'] k] (-> & H1 & -> & H2). wp_steps. by split_and!.
  - eapply wp_mono; [by apply wp_cb_write|]. intros [cb' k] (-> & H1 & H2). wp_steps.
    replace (Z.to_nat (cb_capacity cb) - length q)%nat with (Z.to_nat (cb_capacity cb - cb_count cb)) by lia.
    by split_and!.
Qed.

Lemma ring_run_fifo cb q ops :
  cb_holds cb q -> ring_run cb ops = Ret (fifo_run (Z.to_nat (cb_capacity cb)) q ops).
Proof.
  revert cb q. induction ops as [|op ops IH]; intros cb q Hh; [done|]. apply wp_eq. simpl. wp_step.
  eapply wp_mono; [by apply wp_ring_step|]. intros [cb' r] (H1 & -> & H2).
  destruct (fifo_op _ q op) as [q' r']. simpl in *. rewrite (IH cb' q' H1), H2. by wp_steps.
Qed.

(** ** Properties *)

(** C32: The circular buffer is a bounded queue: whatever the capacity and the
    sequence of reads and writes, with any buffer sizes and any number of
    wrap-arounds, every call returns and gives the caller exactly what the
    queue specification gives, and no operation panics. *)
Theorem ring_is_fifo (cap : Z) (ops : list ring_op) :
  0 <= cap < 2 ^ 62 ->
  ring_run (CircularBuffer_new cap) ops = Ret (fifo_run (Z.to_nat cap) [] ops).
Proof.
  intros Hc. rewrite (ring_run_fifo _ [] ops (cb_new_holds cap Hc)). unfold cb_capacity. simpl.
  by rewrite length_replicate, Nat2Z.id.
Qed.

Lemma ring_is_fifo_witness :
  ring_run (CircularBuffer_new 4) [RWrite [1; 2; 3]; RRead [0; 0]; RWrite [4; 5; 6; 7]; RRead [0; 0; 0; 0; 0]]
  = Ret [(3, [1; 2; 3]); (2, [1; 2]); (3, [4; 5; 6; 7]); (4, [3; 4; 5; 6; 0])].
Proof. rewrite ring_is_fifo by lia. reflexivity. Defined.
