(* ===== verification/Sched.v ===== *)
(** * Task types, ready queues and wakers

    [kernel/core/src/task.rs], [kernel/core/src/sched.rs] (the priority queues
    of runnable tasks) and [kernel/sched/src/waker.rs] (the word a task's waker
    carries).  A [VecDeque] is a list, the front first; [TaskId] and [CpuId]
    are their words.  A waker is the word its data pointer holds: its table of
    functions is the same for all, so [will_wake] compares the words. *)

From S2P Require Import Prelude.

(** ** Priorities *)

Inductive Priority : Type := Critical | Normal | Background.

#[export] Instance Priority_eq_dec : EqDecision Priority.
Proof. solve_decision. Defined.

(** [priority as u64] *)
Definition prio_u64 (p : Priority) : Z :=
  match p with Critical => 0 | Normal => 1 | Background => 2 end.

Definition Priority_from_u8 (val : Z) : Priority :=
  if val =? 0 then Critical else if val =? 2 then Background else Normal.

(** ** Task metadata *)

(** A name is a number: the code never looks at it. *)
Record TaskMeta : Type := mkTaskMeta {
  tm_name : Z;
  tm_priority : Priority;
  tm_affinity : option Z;
}.

Definition TaskMeta_default : TaskMeta := mkTaskMeta 0 Normal None.

Definition TaskMeta_new (name : Z) : TaskMeta := mkTaskMeta name Normal None.

Definition with_priority (self : TaskMeta) (priority : Priority) : TaskMeta :=
  mkTaskMeta (tm_name self) priority (tm_affinity self).

Definition with_affinity (self : TaskMeta) (cpu : Z) : TaskMeta :=
  mkTaskMeta (tm_name self) (tm_priority self) (Some cpu).

(** ** Ready queues *)

Definition BACKGROUND_STARVATION_LIMIT : Z := 100.

(** The array [queues] has one field per index. *)
Record ReadyQueues : Type := mkReadyQueues {
  rq_critical : list Z;
  rq_normal : list Z;
  rq_background : list Z;
  normal_streak : Z;
}.

Definition rq_queue (self : ReadyQueues) (p : Priority) : list Z :=
  match p with
  | Critical => rq_critical self
  | Normal => rq_normal self
  | Background => rq_background self
  end.

Definition rq_set (self : ReadyQueues) (p : Priority) (q : list Z) : ReadyQueues :=
  match p with
  | Critical => mkReadyQueues q (rq_normal self) (rq_background self) (normal_streak self)
  | Normal => mkReadyQueues (rq_critical self) q (rq_background self) (normal_streak self)
  | Background => mkReadyQueues (rq_critical self) (rq_normal self) q (normal_streak self)
  end.

Definition rq_set_streak (self : ReadyQueues) (n : Z) : ReadyQueues :=
  mkReadyQueues (rq_critical self) (rq_normal self) (rq_background self) n.

Definition ReadyQueues_new : ReadyQueues := mkReadyQueues [] [] [] 0.

Definition rq_push (self : ReadyQueues) (priority : Priority) (id : Z) : ReadyQueues :=
  rq_set self priority (rq_queue self priority ++ [id]).

Definition is_empty {A} (l : list A) : bool := match l with [] => true | _ => false end.

Definition rq_pop_background (self : ReadyQueues) : exec (ReadyQueues * option (Priority * Z)) :=
  let self := rq_set_streak self 0 in
  match rq_background self with
  | id :: q => Ret (rq_set self Background q, Some (Background, id))
  | [] => Ret (self, None)
  end.

Definition rq_pop_normal (self : ReadyQueues) (has_background : bool)
    : exec (ReadyQueues * option (Priority * Z)) :=
  match rq_normal self with
  | id :: q =>
      let self := rq_set self Normal q in
      streak ← (if has_background then add64 (normal_streak self) 1 else Ret 0);
      Ret (rq_set_streak self streak, Some (Normal, id))
  | [] => rq_pop_background self
  end.

Definition rq_pop (self : ReadyQueues) : exec (ReadyQueues * option (Priority * Z)) :=
  match rq_critical self with
  | id :: q => Ret (rq_set_streak (rq_set self Critical q) 0, Some (Critical, id))
  | [] =>
      let has_background := negb (is_empty (rq_background self)) in
      let has_normal := negb (is_empty (rq_normal self)) in
      if has_normal && has_background && (BACKGROUND_STARVATION_LIMIT <=? normal_streak self) then
        let self := rq_set_streak self 0 in
        match rq_background self with
        | id :: q => Ret (rq_set self Background q, Some (Background, id))
        | [] => rq_pop_normal self has_background
        end
      else rq_pop_normal self has_background
  end.

Definition has_ready (self : ReadyQueues) : bool :=
  negb (is_empty (rq_critical self) && is_empty (rq_normal self) && is_empty (rq_background self)).

(** [pop_back] *)
Definition pop_back {A} (l : list A) : option (list A * A) :=
  match last l with
  | Some x => Some (take (pred (length l)) l, x)
  | None => None
  end.

Definition steal_one (self : ReadyQueues) : ReadyQueues * option (Priority * Z) :=
  let stealable := Z.of_nat (length (rq_normal self)) + Z.of_nat (length (rq_background self)) in
  if stealable <=? 1 then (self, None) else
  match pop_back (rq_normal self) with
  | Some (q, id) => (rq_set self Normal q, Some (Normal, id))
  | None =>
      match pop_back (rq_background self) with
      | Some (q, id) => (rq_set self Background q, Some (Background, id))
      | None => (self, None)
      end
  end.

(** ** Wakers *)

Definition MAX_CPUS : Z := 256.

Definition ID_MASK : Z := 0x00FFFFFFFFFFFFFF.
Definition CPU_SHIFT : Z := 56.
Definition CPU_MASK : Z := 0x3F.

Definition pack (cpu_id id : Z) (priority : Priority) : Z :=
  Z.lor (Z.lor (shl64 (prio_u64 priority) 62) (shl64 cpu_id CPU_SHIFT)) (Z.land id ID_MASK).

Definition unpack (raw : Z) : Z * Priority * Z :=
  let priority := Priority_from_u8 (Z.shiftr raw 62 mod 256) in
  let cpu_id := Z.land (Z.shiftr raw CPU_SHIFT) CPU_MASK in
  let id := Z.land raw ID_MASK in
  (id, priority, cpu_id).

Definition task_waker (cpu_id id : Z) (priority : Priority) : Z := pack cpu_id id priority.

Arguments pack : simpl never.
Arguments unpack : simpl never.

Definition will_wake (w1 w2 : Z) : bool := w1 =? w2.

(** ** Clients of the queues *)

Inductive rq_op : Type := QPush (p : Priority) (id : Z) | QPop | QSteal.

#[export] Instance rq_op_eq_dec : EqDecision rq_op.
Proof. solve_decision. Defined.

Definition rq_step (self : ReadyQueues) (op : rq_op) : exec (ReadyQueues * list (Priority * Z)) :=
  match op with
  | QPush p id => Ret (rq_push self p id, [])
  | QPop => '(self, o) ← rq_pop self; Ret (self, option_list o)
  | QSteal => let '(self, o) := steal_one self in Ret (self, option_list o)
  end.

(** The tasks served, in order. *)
Fixpoint rq_run (self : ReadyQueues) (ops : list rq_op) : exec (ReadyQueues * list (Priority * Z)) :=
  match ops with
  | [] => Ret (self, [])
  | op :: ops =>
      '(self, out) ← rq_step self op;
      '(self, rest) ← rq_run self ops;
      Ret (self, out ++ rest)
  end.

Definition rq_wf (self : ReadyQueues) : Prop :=
  0 <= normal_streak self <= BACKGROUND_STARVATION_LIMIT.

(** Everything queued, with its priority. *)
Definition rq_tasks (self : ReadyQueues) : list (Priority * Z) :=
  ((Critical,.) <$> rq_critical self) ++ ((Normal,.) <$> rq_normal self) ++
  ((Background,.) <$> rq_background self).

Definition pushed (ops : list rq_op) : list (Priority * Z) :=
  ops ≫= fun op => match op with QPush p id => [(p, id)] | _ => [] end.

Definition pops (ops : list rq_op) : nat :=
  length (filter (fun op => op = QPop) ops).

Arguments pushed : simpl never.
Arguments pops : simpl never.

(** How many pops the task at place [k] of queue [p] still waits for. *)
Definition rq_wait (self : ReadyQueues) (p : Priority) (k : nat) : Z :=
  match p with
  | Critical => Z.of_nat k
  | Normal => 2 * Z.of_nat k + (if BACKGROUND_STARVATION_LIMIT <=? normal_streak self then 1 else 0)
  | Background =>
      (BACKGROUND_STARVATION_LIMIT + 1) * Z.of_nat k + (BACKGROUND_STARVATION_LIMIT - normal_streak self)
  end.

(** Critical tasks are served before all others: a bound for the others needs
    their queue to stay empty. *)
Definition uncontended (p : Priority) (self : ReadyQueues) (ops : list rq_op) : Prop :=
  p = Critical \/ rq_critical self = [] /\ (Critical ∉ (fst <$> pushed ops)).

(** A step either serves the task or keeps it queued, no later than before. *)
Definition kept (p : Priority) (id : Z) (self : ReadyQueues) (w : Z) (out : list (Priority * Z)) : Prop :=
  (p, id) ∈ out \/ exists k, rq_queue self p !! k = Some id /\ rq_wait self p k <= w.

Ltac wait_lia := simpl; unfold BACKGROUND_STARVATION_LIMIT in *; zcases; lia.

Lemma pop_keeps self p k id :
  rq_wf self -> rq_queue self p !! k = Some id -> p = Critical \/ rq_critical self = [] ->
  wp (rq_pop self) (fun '(self', o) =>
    rq_wf self' /\ (rq_critical self = [] -> rq_critical self' = []) /\
    kept p id self' (rq_wait self p k - 1) (option_list o)).
Proof.
  destruct self as [c n b s]. unfold rq_wf, kept, BACKGROUND_STARVATION_LIMIT. simpl. intros Hwf Hk Hc.
  assert (forall x (q : list Z) (P : Prop), (x :: q) !! k = Some id ->
    (x = id -> k = 0%nat -> P) -> (forall j, k = S j -> q !! j = Some id -> P) -> P) as Hcase.
  { intros x q P Hl H0 HS. destruct k; simpl in Hl; [simplify_eq; by apply H0|by eapply HS]. }
  unfold rq_pop, rq_pop_normal, rq_pop_background, BACKGROUND_STARVATION_LIMIT. simpl.
  destruct c as [|x c].
  - destruct Hc as [->|_]; [done|]. destruct n as [|y n]; [|destruct b as [|z b]].
    + destruct b as [|z b]; simpl; apply wp_ret; simpl.
      { by destruct p. }
      split_and!; [lia|lia|done|]. destruct p; [done|done|].
      apply (Hcase _ _ _ Hk); [intros -> _; left; set_solver|].
      intros j -> Hj. right. exists j. split; [done|wait_lia].
    + simpl. wp_steps. simpl. split_and!; [lia|lia|done|]. destruct p; [done| |done].
      apply (Hcase _ _ _ Hk); [intros -> _; left; set_solver|].
      intros j -> Hj. right. exists j. split; [done|wait_lia].
    + simpl. destruct (Z.leb_spec 100 s) as [Hs|Hs].
      * apply wp_ret. simpl. split_and!; [lia|lia|done|]. destruct p; [done| |].
        -- right. exists k. split; [done|wait_lia].
        -- apply (Hcase _ _ _ Hk); [intros -> _; left; set_solver|].
           intros j -> Hj. right. exists j. split; [done|wait_lia].
      * wp_steps. simpl. split_and!; [lia|lia|done|]. destruct p; [done| |].
        -- apply (Hcase _ _ _ Hk); [intros -> _; left; set_solver|].
           intros j -> Hj. right. exists j. split; [done|wait_lia].
        -- right. exists k. split; [done|wait_lia].
  - apply wp_ret. simpl. split_and!; [lia|lia|done|]. destruct Hc as [->|?]; [|done].
    apply (Hcase _ _ _ Hk); [intros -> _; left; set_solver|].
    intros j -> Hj. right. exists j. split; [done|wait_lia].
Qed.

Lemma push_keeps self p k id q x :
  rq_queue self p !! k = Some id ->
  rq_queue (rq_push self q x) p !! k = Some id /\ rq_wait (rq_push self q x) p k = rq_wait self p k.
Proof.
  intros Hk. split; [|by destruct q, p].
  destruct q, p; simpl in *; done || by apply lookup_app_l_Some.
Qed.

Lemma pop_back_spec {A} (l : list A) : 
  match pop_back l with Some (q, x) => l = q ++ [x] | None => l = [] end.
Proof.
  unfold pop_back. induction l as [|x l _] using rev_ind; [done|].
  rewrite last_snoc, length_app. simpl. rewrite Nat.add_1_r. simpl. by rewrite take_app_length.
Qed.

Lemma steal_keeps self p k id :
  rq_queue self p !! k = Some id ->
  let '(self', o) := steal_one self in
  normal_streak self' = normal_streak self /\ rq_critical self' = rq_critical self /\
  kept p id self' (rq_wait self p k) (option_list o).
Proof.
  intros Hk. unfold steal_one. destruct (_ <=? 1).
  { split_and!; [done..|]. right. by exists k. }
  assert (forall q x, rq_queue self p = q ++ [x] -> (p, id) ∈ [(p, x)] \/ q !! k = Some id) as Hq.
  { intros q x Hx. rewrite Hx in Hk. apply lookup_app_Some in Hk as [?|[? Hk]]; [by right|left].
    apply list_lookup_singleton_Some in Hk as [_ ->]. set_solver. }
  pose proof (pop_back_spec (rq_normal self)) as Hn. destruct (pop_back (rq_normal self)) as [[q x]|].
  - split_and!; [done..|]. destruct (decide (p = Normal)) as [->|].
    + destruct (Hq q x Hn); [by left|right]. by exists k.
    + right. exists k. by destruct p.
  - pose proof (pop_back_spec (rq_background self)) as Hb. destruct (pop_back (rq_background self)) as [[q x]|].
    + split_and!; [done..|]. destruct (decide (p = Background)) as [->|].
      * destruct (Hq q x Hb); [by left|right]. by exists k.
      * right. exists k. by destruct p.
    + split_and!; [done..|]. right. by exists k.
Qed.

Lemma pushed_cons op ops : pushed (op :: ops) = pushed [op] ++ pushed ops.
Proof. unfold pushed. simpl. by rewrite app_nil_r. Qed.

Lemma pops_cons op ops : pops (op :: ops) = (pops [op] + pops ops)%nat.
Proof. unfold pops. by destruct op. Qed.

(** Every operation returns, and no task is lost or duplicated. *)
Lemma rq_pop_wf self :
  rq_wf self -> wp (rq_pop self) (fun '(self', o) =>
    rq_wf self' /\ rq_tasks self' ++ option_list o ≡ₚ rq_tasks self /\
    (o = None -> rq_tasks self = [])).
Proof.
  destruct self as [c n b s]. unfold rq_wf, rq_tasks, BACKGROUND_STARVATION_LIMIT. simpl. intros Hwf.
  unfold rq_pop, rq_pop_normal, rq_pop_background, BACKGROUND_STARVATION_LIMIT. simpl.
  destruct c as [|x c]; [destruct n as [|y n]; destruct b as [|z b]; simpl; [| | |destruct (100 <=? s) eqn:Hs]|];
    wp_steps; simpl; split; [lia| |lia| |lia| |lia| |lia| |lia|]; (split; [solve_Permutation|done]).
Qed.

Lemma rq_step_wf self op :
  rq_wf self -> wp (rq_step self op) (fun '(self', out) => rq_wf self' /\
    rq_tasks self' ++ out ≡ₚ rq_tasks self ++ pushed [op]).
Proof.
  intros Hwf. destruct op as [p x| |]; simpl.
  - apply wp_ret. destruct self as [c n b s]. split; [by destruct p|]. unfold rq_tasks, pushed.
    destruct p; simpl; rewrite ?fmap_app; simpl; solve_Permutation.
  - wp_step. eapply wp_mono; [by apply rq_pop_wf|]. intros [self' o] (H1 & H2 & _). wp_steps.
    split; [done|]. unfold pushed. simpl. by rewrite H2, app_nil_r.
  - unfold steal_one. pose proof (pop_back_spec (rq_normal self)) as Hn.
    pose proof (pop_back_spec (rq_background self)) as Hb. unfold pushed. simpl. rewrite app_nil_r.
    destruct (_ <=? 1); [apply wp_ret; simpl; split; [done|by rewrite app_nil_r]|].
    destruct (pop_back (rq_normal self)) as [[q x]|]; [|destruct (pop_back (rq_background self)) as [[q x]|]];
      apply wp_ret; split; try done; unfold rq_tasks; simpl; rewrite ?Hn, ?Hb, ?fmap_app, ?app_nil_r; simpl;
      solve_Permutation.
Qed.

Lemma rq_run_wf ops self :
  rq_wf self -> wp (rq_run self ops) (fun '(self', out) => rq_wf self' /\
    rq_tasks self' ++ out ≡ₚ rq_tasks self ++ pushed ops).
Proof.
  revert self. induction ops as [|op ops IH]; intros self Hwf; simpl; [by apply wp_ret|].
  wp_step. eapply wp_mono; [by apply rq_step_wf|]. intros [s1 out] [H1 P1]. wp_step.
  eapply wp_mono; [by apply IH|]. intros [s2 rest] [H2 P2]. wp_steps. split; [done|].
  rewrite pushed_cons, (app_assoc (rq_tasks self)), <- P1, <- (app_assoc (rq_tasks s1)).
  trans ((rq_tasks s2 ++ rest) ++ out); [solve_Permutation|]. rewrite P2. solve_Permutation.
Qed.

Lemma rq_run_serves ops self p k id :
  rq_wf self -> rq_queue self p !! k = Some id -> uncontended p self ops ->
  wp (rq_run self ops) (fun '(self', out) =>
    kept p id self' (rq_wait self p k - Z.of_nat (pops ops)) out).
Proof.
  revert self k. induction ops as [|op ops IH]; intros self k Hwf Hk Hu.
  { simpl. apply wp_ret. right. exists k. split; [done|]. unfold pops. simpl. lia. }
  assert (forall self1 out1 w, rq_wf self1 -> (p = Critical \/ rq_critical self1 = []) ->
    kept p id self1 w out1 -> w <= rq_wait self p k - Z.of_nat (pops [op]) ->
    wp ('(s2, rest) ← rq_run self1 ops; Ret (s2, out1 ++ rest)) (fun '(self', out) =>
      kept p id self' (rq_wait self p k - Z.of_nat (pops (op :: ops))) out)) as Hgo.
  { intros s1 out1 w Hwf1 Hc1 [Hin|(k1 & Hk1 & Hw)] Hle; wp_step.
    - eapply wp_mono; [by apply rq_run_wf|]. intros [s2 rest] _. wp_steps. left. set_solver.
    - eapply wp_mono; [apply (IH s1 k1 Hwf1 Hk1)|].
      + destruct Hu as [->|[_ Hn]]; [by left|]. destruct Hc1 as [->|?]; [by left|right]. split; [done|].
        rewrite pushed_cons, fmap_app in Hn. set_solver.
      + intros [s2 rest] [?|(k2 & Hk2 & Hw2)]; wp_steps; [left; set_solver|right]. exists k2. split; [done|].
        rewrite pops_cons. lia. }
  assert (p = Critical \/ rq_critical self = []) as Hc by (destruct Hu as [?|[? _]]; auto).
  simpl. wp_step. destruct op as [q x| |]; simpl.
  - apply wp_ret. destruct (push_keeps self p k id q x Hk) as [H1 H2].
    eapply (Hgo _ [] (rq_wait self p k)); [by destruct q| |right; exists k; split; [done|lia]|unfold pops; simpl; lia].
    destruct Hu as [->|[Hce Hn]]; [by left|right]. destruct q; [|done..]. exfalso. apply Hn. unfold pushed. set_solver.
  - wp_step. eapply wp_mono; [by apply (pop_keeps self p k id)|]. intros [s1 o] (H1 & H2 & H3). apply wp_ret.
    eapply (Hgo s1 _ _ H1); [|done|unfold pops; simpl; lia]. destruct Hc; auto.
  - pose proof (steal_keeps self p k id Hk) as Hs. destruct (steal_one self) as [s1 o].
    destruct Hs as (H1 & H2 & H3). apply wp_ret.
    eapply (Hgo s1 _ _); [by unfold rq_wf; rewrite H1| |done|unfold pops; simpl; lia]. rewrite H2. auto.
Qed.

(** ** The waker's word *)

Lemma pack_parts cpu id p :
  0 <= cpu < 64 -> pack cpu id p = prio_u64 p * 2 ^ 62 + cpu * 2 ^ 56 + id mod 2 ^ 56.
Proof.
  intros Hc. unfold pack, shl64, CPU_SHIFT. replace ID_MASK with (2 ^ 56 - 1) by reflexivity.
  rewrite land_mask by lia. pose proof (Z.mod_pos_bound id (2 ^ 56) ltac:(lia)) as Hid.
  assert (0 <= prio_u64 p <= 2) as Hp by (destruct p; simpl; lia).
  rewrite !Z.shiftl_mul_pow2 by lia. rewrite !Z.mod_small by ulia.
  replace (prio_u64 p * 2 ^ 62 + cpu * 2 ^ 56 + id mod 2 ^ 56)
    with ((prio_u64 p * 2 ^ 6 + cpu) * 2 ^ 56 + id mod 2 ^ 56) by lia.
  rewrite <- (lor_field_add (prio_u64 p * 2 ^ 6 + cpu) (id mod 2 ^ 56) 56) by lia.
  f_equal. rewrite <- (lor_field_add (prio_u64 p) cpu 6) by lia.
  rewrite <- !Z.shiftl_mul_pow2, Z.shiftl_lor, Z.shiftl_shiftl by lia. f_equal.
Qed.

Lemma unpack_pack cpu id p :
  0 <= cpu < 64 -> 0 <= id < 2 ^ 56 -> unpack (pack cpu id p) = (id, p, cpu).
Proof.
  intros Hc Hid. rewrite (pack_parts cpu id p Hc), (Z.mod_small id) by lia.
  unfold unpack, CPU_SHIFT. replace ID_MASK with (2 ^ 56 - 1) by reflexivity.
  replace CPU_MASK with (2 ^ 6 - 1) by reflexivity.
  rewrite !land_mask, !Z.shiftr_div_pow2 by lia.
  assert (0 <= prio_u64 p <= 2) as Hp by (destruct p; simpl; lia).
  replace ((prio_u64 p * 2 ^ 62 + cpu * 2 ^ 56 + id) / 2 ^ 62) with (prio_u64 p)
    by (apply (Z.div_unique _ _ _ (cpu * 2 ^ 56 + id)); lia).
  replace ((prio_u64 p * 2 ^ 62 + cpu * 2 ^ 56 + id) / 2 ^ 56) with (prio_u64 p * 2 ^ 6 + cpu)
    by (apply (Z.div_unique _ _ _ id); lia).
  replace ((prio_u64 p * 2 ^ 62 + cpu * 2 ^ 56 + id) mod 2 ^ 56) with id
    by (apply (Z.mod_unique _ _ (prio_u64 p * 2 ^ 6 + cpu)); lia).
  replace ((prio_u64 p * 2 ^ 6 + cpu) mod 2 ^ 6) with cpu by (apply (Z.mod_unique _ _ (prio_u64 p)); lia).
  rewrite Z.mod_small by lia. by destruct p.
Qed.

(** ** Properties *)



(** The queues neither lose nor duplicate a task: what is left in them and
    what was served is what was queued and pushed, and no operation panics. *)
Theorem ready_queue_conserves self ops :
  rq_wf self ->
  exists self' out, rq_run self ops = Ret (self', out) /\
    rq_tasks self' ++ out ≡ₚ rq_tasks self ++ pushed ops.
Proof.
  intros Hwf. pose proof (rq_run_wf ops self Hwf) as H.
  apply wp_exists in H as ([self' out] & -> & _ & Hp). by exists self', out.
Qed.

Lemma ready_queue_conserves_witness :
  exists self' out, rq_run ReadyQueues_new [QPush Critical 1; QPush Normal 2; QPop] = Ret (self', out) /\
    rq_tasks self' ++ out ≡ₚ [(Critical, 1); (Normal, 2)].
Proof. apply (ready_queue_conserves ReadyQueues_new [QPush Critical 1; QPush Normal 2; QPop]). by vm_compute. Defined.

(** A waker names its task, priority and CPU: the packed word gives back what
    was packed into it, for the 64 CPUs it has room for. *)
Theorem waker_roundtrip cpu id p :
  0 <= cpu < 64 -> 0 <= id < 2 ^ 56 -> unpack (task_waker cpu id p) = (id, p, cpu).
Proof. apply unpack_pack. Qed.

Lemma waker_roundtrip_witness : unpack (task_waker 63 0xABCDEF Background) = (0xABCDEF, Background, 63).
Proof. apply (waker_roundtrip 63 0xABCDEF Background); lia. Defined.

(** The CPU number is not masked when it is packed, and the kernel allows 256
    CPUs: the wakers of CPU 64 name CPU 0, and a critical task becomes a
    normal one. *)
Theorem waker_cpu_overflow :
  exists cpu id, 0 <= cpu < MAX_CPUS /\ unpack (task_waker cpu id Critical) = (id, Normal, 0).
Proof. by exists 64, 5. Qed.
