(* ===== verification/Executor.v ===== *)
(** * The executors of all CPUs

    [kernel/sched/src/executor.rs], the work stealing of
    [kernel/kernel/src/sched/smp.rs] and the waking half of
    [kernel/sched/src/waker.rs].  Every CPU runs the loop of [Executor::run];
    one step of a CPU is one critical section of a lock, or one piece of code
    between two of them, so that the steps of the CPUs interleave as the locks
    allow.  What a future does when it is polled is not fixed: while it is
    polled it may wake any waker that exists and spawn tasks, and it ends with
    [Ready] or [Pending].  The outcome of a [try_lock] and the start offset of
    work stealing are part of a step's label. *)

From S2P Require Import Prelude Sched.

Section Executor.
(** The type of futures, and the build option for work stealing
    (the negation of [hadron_no_work_steal]). *)
Context {F : Type} (work_steal : bool).

Record TaskEntry : Type := mkTaskEntry { te_future : F; te_meta : TaskMeta }.

Record Executor : Type := mkExecutor {
  ex_tasks : gmap Z TaskEntry;
  ready_queues : ReadyQueues;
}.

Definition Executor_new : Executor := mkExecutor ∅ ReadyQueues_new.

Definition ex_push (self : Executor) (p : Priority) (id : Z) : Executor :=
  mkExecutor (ex_tasks self) (rq_push (ready_queues self) p id).

Definition ex_insert (self : Executor) (id : Z) (e : TaskEntry) : Executor :=
  mkExecutor (<[id := e]> (ex_tasks self)) (ready_queues self).

Definition ex_remove (self : Executor) (id : Z) : Executor :=
  mkExecutor (delete id (ex_tasks self)) (ready_queues self).

(** [rq_free] and [tasks_free]: whether the two [try_lock]s succeed. *)
Definition steal_task (self : Executor) (rq_free tasks_free : bool)
    : Executor * option (Z * Priority * TaskEntry) :=
  if negb rq_free then (self, None) else
  let '(rq, o) := steal_one (ready_queues self) in
  match o with
  | None => (mkExecutor (ex_tasks self) rq, None)
  | Some (priority, id) =>
      let entry := if tasks_free then ex_tasks self !! id else None in
      match entry with
      | Some entry => (mkExecutor (delete id (ex_tasks self)) rq, Some (id, priority, entry))
      | None => (mkExecutor (ex_tasks self) (rq_push rq priority id), None)
      end
  end.

(** ** Where a CPU is in its loop *)

Inductive phase : Type :=
  | Top
  | Pop
  | Take (p : Priority) (id : Z)
  | Poll (p : Priority) (id : Z) (e : TaskEntry)
  | Yield
  | HasReady
  | Steal (start i : Z)
  | Insert (p : Priority) (id : Z) (e : TaskEntry)
  | Requeue (p : Priority) (id : Z)
  | Halt.

Record Cpu : Type := mkCpu {
  c_ex : Executor;
  c_phase : phase;
  c_preempt_pending : bool;
}.

(** [k_spawning] holds the spawned tasks whose entry is stored and whose push
    is still to come; [k_wakers] the wakers made so far; [k_done] the finished
    tasks. *)
Record Kernel : Type := mkKernel {
  k_cpus : list Cpu;
  k_next_task_id : Z;
  k_spawning : list (nat * Priority * Z);
  k_wakers : list Z;
  k_done : list Z;
}.

Definition set_cpu (k : Kernel) (c : nat) (x : Cpu) : Kernel :=
  mkKernel (<[c := x]> (k_cpus k)) (k_next_task_id k) (k_spawning k) (k_wakers k) (k_done k).

Definition set_phase (x : Cpu) (ph : phase) : Cpu := mkCpu (c_ex x) ph (c_preempt_pending x).

Definition set_ex (x : Cpu) (e : Executor) : Cpu := mkCpu e (c_phase x) (c_preempt_pending x).

Definition set_preempt (x : Cpu) (b : bool) : Cpu := mkCpu (c_ex x) (c_phase x) b.

Definition Kernel_new (n : nat) : Kernel :=
  mkKernel (replicate n (mkCpu Executor_new Top false)) 0 [] [] [].

(** ** The steps *)

(** One iteration of the victim loop of [try_steal]. *)
Definition try_steal_step (k : Kernel) (c : nat) (x : Cpu) (start i : Z) (rq_free tasks_free : bool)
    : option Kernel :=
  let cpu_count := Z.of_nat (length (k_cpus k)) in
  if i <? cpu_count then
    let target := Z.to_nat ((start + i) mod cpu_count) in
    if decide (target = c) then Some (set_cpu k c (set_phase x (Steal start (i + 1)))) else
    match k_cpus k !! target with
    | None => None
    | Some y =>
        let '(ex, o) := steal_task (c_ex y) rq_free tasks_free in
        let k := set_cpu k target (set_ex y ex) in
        match o with
        | Some (id, p, e) => Some (set_cpu k c (set_phase x (Insert p id e)))
        | None => Some (set_cpu k c (set_phase x (Steal start (i + 1))))
        end
    end
  else Some (set_cpu k c (set_phase x Halt)).

(** The next step of CPU [c] in [run] and [poll_ready_tasks]; none while it
    polls a future or is halted. *)
Definition run_step (k : Kernel) (c : nat) (x : Cpu) (ticks : Z) (rq_free tasks_free : bool)
    : exec (option Kernel) :=
  match c_phase x with
  | Top => Ret (Some (set_cpu k c (mkCpu (c_ex x) Pop false)))
  | Pop =>
      '(rq, o) ← rq_pop (ready_queues (c_ex x));
      let x := set_ex x (mkExecutor (ex_tasks (c_ex x)) rq) in
      match o with
      | Some (p, id) => Ret (Some (set_cpu k c (set_phase x (Take p id))))
      | None => Ret (Some (set_cpu k c (set_phase x HasReady)))
      end
  | Take p id =>
      let waker := task_waker (Z.of_nat c) id p in
      let k := mkKernel (k_cpus k) (k_next_task_id k) (k_spawning k) (waker :: k_wakers k) (k_done k) in
      match ex_tasks (c_ex x) !! id with
      | Some e => Ret (Some (set_cpu k c (set_phase (set_ex x (ex_remove (c_ex x) id)) (Poll p id e))))
      | None => Ret (Some (set_cpu k c (set_phase x Yield)))
      end
  | Poll _ _ _ => Ret None
  | Yield =>
      if c_preempt_pending x then Ret (Some (set_cpu k c (mkCpu (c_ex x) HasReady false)))
      else Ret (Some (set_cpu k c (set_phase x Pop)))
  | HasReady =>
      if has_ready (ready_queues (c_ex x)) then Ret (Some (set_cpu k c (set_phase x Top)))
      else
        let cpu_count := Z.of_nat (length (k_cpus k)) in
        if work_steal && (1 <? cpu_count)
        then Ret (Some (set_cpu k c (set_phase x (Steal (ticks mod 2 ^ 32 mod cpu_count) 1))))
        else Ret (Some (set_cpu k c (set_phase x Halt)))
  | Steal start i => Ret (try_steal_step k c x start i rq_free tasks_free)
  | Insert p id e =>
      Ret (Some (set_cpu k c (set_phase (set_ex x (ex_insert (c_ex x) id e)) (Requeue p id))))
  | Requeue p id => Ret (Some (set_cpu k c (set_phase (set_ex x (ex_push (c_ex x) p id)) Top)))
  | Halt => Ret None
  end.

(** The end of a poll: [None] for [Ready], the future's new state for
    [Pending]. *)
Definition poll_end (k : Kernel) (c : nat) (x : Cpu) (r : option F) : option Kernel :=
  match c_phase x with
  | Poll p id e =>
      match r with
      | None =>
          Some (set_cpu (mkKernel (k_cpus k) (k_next_task_id k) (k_spawning k) (k_wakers k) (id :: k_done k))
                  c (set_phase x Yield))
      | Some f =>
          Some (set_cpu k c (set_phase (set_ex x (ex_insert (c_ex x) id (mkTaskEntry f (te_meta e)))) Yield))
      end
  | _ => None
  end.

(** [spawn_with_meta] on CPU [c], up to the end of the insertion. *)
Definition spawn_with_meta (k : Kernel) (c : nat) (x : Cpu) (f : F) (meta : TaskMeta) : Kernel :=
  let id := k_next_task_id k in
  let priority := tm_priority meta in
  set_cpu (mkKernel (k_cpus k) (wrapping_add64 (k_next_task_id k) 1)
             ((c, priority, id) :: k_spawning k) (k_wakers k) (k_done k))
    c (set_ex x (ex_insert (c_ex x) id (mkTaskEntry f meta))).

(** Its second half: the push. *)
Definition spawn_push (k : Kernel) (c : nat) (p : Priority) (id : Z) : option Kernel :=
  match k_cpus k !! c with
  | Some x => Some (set_cpu k c (set_ex x (ex_push (c_ex x) p id)))
  | None => None
  end.

(** [wake_by_ref]; the interrupt it sends is the label [LIrq]. *)
Definition wake_by_ref (k : Kernel) (data : Z) : option Kernel :=
  let '(id, priority, target_cpu) := unpack data in
  match k_cpus k !! Z.to_nat target_cpu with
  | Some x => Some (set_cpu k (Z.to_nat target_cpu) (set_ex x (ex_push (c_ex x) priority id)))
  | None => None
  end.

Inductive label : Type :=
  | LRun (c : nat) (ticks : Z) (rq_free tasks_free : bool)
  | LPollEnd (c : nat) (r : option F)
  | LSpawn (c : nat) (f : F) (meta : TaskMeta)
  | LSpawnPush (i : nat)
  | LWake (w : Z)
  | LPreempt (c : nat)
  | LIrq (c : nat).

(** [None] when the step is not possible. *)
Definition kstep (k : Kernel) (l : label) : exec (option Kernel) :=
  match l with
  | LRun c ticks rf tf =>
      match k_cpus k !! c with Some x => run_step k c x ticks rf tf | None => Ret None end
  | LPollEnd c r =>
      match k_cpus k !! c with Some x => Ret (poll_end k c x r) | None => Ret None end
  | LSpawn c f meta =>
      match k_cpus k !! c with Some x => Ret (Some (spawn_with_meta k c x f meta)) | None => Ret None end
  | LSpawnPush i =>
      match k_spawning k !! i with
      | Some (c, p, id) =>
          Ret (spawn_push (mkKernel (k_cpus k) (k_next_task_id k) (delete i (k_spawning k)) (k_wakers k)
                             (k_done k)) c p id)
      | None => Ret None
      end
  | LWake w => if bool_decide (w ∈ k_wakers k) then Ret (wake_by_ref k w) else Ret None
  | LPreempt c =>
      match k_cpus k !! c with Some x => Ret (Some (set_cpu k c (set_preempt x true))) | None => Ret None end
  | LIrq c =>
      match k_cpus k !! c with
      | Some x => match c_phase x with
                  | Halt => Ret (Some (set_cpu k c (set_phase x Top)))
                  | _ => Ret None
                  end
      | None => Ret None
      end
  end.

(** A run, step by step. *)
Fixpoint krun (k : Kernel) (ls : list label) : exec (option Kernel) :=
  match ls with
  | [] => Ret (Some k)
  | l :: ls =>
      o ← kstep k l;
      match o with Some k => krun k ls | None => Ret None end
  end.

(** ** Ownership: where the tasks are *)

Definition phase_ids (ph : phase) : list Z :=
  match ph with Poll _ id _ | Insert _ id _ => [id] | _ => [] end.

Definition cpu_places (x : Cpu) : list Z :=
  (map_to_list (ex_tasks (c_ex x))).*1 ++ phase_ids (c_phase x).

(** The task of every entry there is, wherever it is. *)
Definition places (k : Kernel) : list Z := k_cpus k ≫= cpu_places.

Definition kinv (k : Kernel) : Prop :=
  Forall (fun x => rq_wf (ready_queues (c_ex x))) (k_cpus k) /\ 0 <= k_next_task_id k /\
  places k ++ k_done k ≡ₚ seqZ 0 (k_next_task_id k).

Lemma bind_exchange {A B} (f : A -> list B) (l : list A) c x y :
  l !! c = Some x -> (<[c := y]> l ≫= f) ++ f x ≡ₚ (l ≫= f) ++ f y.
Proof.
  intros Hx. rewrite <- (take_drop_middle l c x Hx). pose proof (lookup_lt_Some _ _ _ Hx).
  rewrite insert_app_r_alt by (rewrite length_take; lia).
  rewrite length_take. replace (c - c `min` length l)%nat with 0%nat by lia. simpl.
  rewrite !bind_app. simpl. solve_Permutation.
Qed.

Lemma kinv_set k c x y :
  kinv k -> k_cpus k !! c = Some x -> rq_wf (ready_queues (c_ex y)) ->
  cpu_places y ≡ₚ cpu_places x -> kinv (set_cpu k c y).
Proof.
  intros (H1 & H2 & H3) Hx Hy Hp. split; [by apply Forall_insert|split; [done|]]. unfold places. simpl.
  rewrite <- H3. apply Permutation_app_tail. apply (Permutation_app_inv_r (cpu_places x)).
  by rewrite (bind_exchange _ _ _ _ y Hx), Hp.
Qed.

Lemma kinv_lookup k c x :
  kinv k -> k_cpus k !! c = Some x ->
  rq_wf (ready_queues (c_ex x)) /\ NoDup (cpu_places x) /\
  forall id, id ∈ cpu_places x -> 0 <= id < k_next_task_id k.
Proof.
  intros (H1 & H2 & H3) Hx. pose proof (eq_sym (take_drop_middle _ _ _ Hx)) as Hl.
  set (l1 := take c (k_cpus k)) in *. set (l2 := drop (S c) (k_cpus k)) in *.
  assert (places k ≡ₚ cpu_places x ++ (l1 ≫= cpu_places) ++ (l2 ≫= cpu_places)) as Hp.
  { unfold places. rewrite Hl at 1. rewrite bind_app. simpl. solve_Permutation. }
  rewrite Hp in H3. split_and!.
  - by eapply (Forall_lookup_1 (fun x => rq_wf (ready_queues (c_ex x)))).
  - pose proof (NoDup_seqZ 0 (k_next_task_id k)) as Hn. rewrite <- H3 in Hn.
    by apply NoDup_app in Hn as [[Hn _]%NoDup_app _].
  - intros id Hid. assert (id ∈ seqZ 0 (k_next_task_id k)) as Hin%elem_of_seqZ by (rewrite <- H3; set_solver). lia.
Qed.

Lemma keys_insert (m : gmap Z TaskEntry) id e :
  m !! id = None -> (map_to_list (<[id := e]> m)).*1 ≡ₚ id :: (map_to_list m).*1.
Proof. intros Hm. by rewrite map_to_list_insert. Qed.

Lemma keys_delete (m : gmap Z TaskEntry) id e :
  m !! id = Some e -> (map_to_list m).*1 ≡ₚ id :: (map_to_list (delete id m)).*1.
Proof. intros Hm. by rewrite <- (map_to_list_delete m id e Hm). Qed.

Lemma keys_elem (m : gmap Z TaskEntry) id : id ∈ (map_to_list m).*1 <-> is_Some (m !! id).
Proof.
  rewrite list_elem_of_fmap. split.
  - intros ([? e] & -> & He%elem_of_map_to_list). by exists e.
  - intros [e He]. exists (id, e). by rewrite elem_of_map_to_list.
Qed.

(** The task of a phase is not also stored. *)
Lemma phase_not_stored k c x id :
  kinv k -> k_cpus k !! c = Some x -> phase_ids (c_phase x) = [id] -> ex_tasks (c_ex x) !! id = None.
Proof.
  intros Hi Hx Hp. destruct (kinv_lookup k c x Hi Hx) as (_ & Hn & _). unfold cpu_places in Hn.
  rewrite Hp in Hn. apply NoDup_app in Hn as (_ & Hn & _).
  destruct (ex_tasks (c_ex x) !! id) eqn:E; [|done]. exfalso. apply (Hn id); [|set_solver].
  apply keys_elem. by rewrite E.
Qed.

Lemma push_wf rq p id : rq_wf rq -> rq_wf (rq_push rq p id).
Proof. by destruct p. Qed.

Lemma steal_wf rq : rq_wf rq -> rq_wf (fst (steal_one rq)).
Proof.
  intros Hwf. unfold steal_one. destruct (_ <=? 1); [done|].
  destruct (pop_back (rq_normal rq)) as [[? ?]|]; [done|].
  by destruct (pop_back (rq_background rq)) as [[? ?]|].
Qed.

Lemma steal_task_moves ex rf tf :
  rq_wf (ready_queues ex) ->
  let '(ex', o) := steal_task ex rf tf in
  rq_wf (ready_queues ex') /\
  match o with
  | Some (id, p, e) => ex_tasks ex !! id = Some e /\ ex_tasks ex' = delete id (ex_tasks ex)
  | None => ex_tasks ex' = ex_tasks ex
  end.
Proof.
  intros Hwf. unfold steal_task. destruct rf; simpl; [|done].
  pose proof (steal_wf _ Hwf) as Hs. destruct (steal_one (ready_queues ex)) as [rq [[p id]|]]; simpl in *; [|done].
  destruct tf; [|split; [by apply push_wf|done]].
  destruct (ex_tasks ex !! id) eqn:E; simpl; [done|]. split; [by apply push_wf|done].
Qed.

(** Steps that keep what a CPU holds. *)
Lemma kinv_hold k c x y :
  kinv k -> k_cpus k !! c = Some x -> rq_wf (ready_queues (c_ex y)) ->
  ex_tasks (c_ex y) = ex_tasks (c_ex x) -> phase_ids (c_phase y) = phase_ids (c_phase x) ->
  kinv (set_cpu k c y).
Proof. intros Hi Hx Hw H1 H2. apply (kinv_set k c x y Hi Hx Hw). unfold cpu_places. by rewrite H1, H2. Qed.

Lemma kinv_wakers k ws : kinv k -> kinv (mkKernel (k_cpus k) (k_next_task_id k) (k_spawning k) ws (k_done k)).
Proof. done. Qed.

(** An entry is stored that the CPU held in its phase. *)
Lemma kinv_store k c x id e ph :
  kinv k -> k_cpus k !! c = Some x -> phase_ids (c_phase x) = [id] -> phase_ids ph = [] ->
  kinv (set_cpu k c (set_phase (set_ex x (ex_insert (c_ex x) id e)) ph)).
Proof.
  intros Hi Hx Hp Hph. pose proof (phase_not_stored k c x id Hi Hx Hp) as Hn.
  destruct (kinv_lookup k c x Hi Hx) as (Hw & _). apply (kinv_set k c x); [done|done|done|].
  unfold cpu_places. simpl. rewrite keys_insert, Hp, Hph by done. solve_Permutation.
Qed.

Lemma kinv_try_steal k c x start i rf tf k' :
  kinv k -> k_cpus k !! c = Some x -> c_phase x = Steal start i ->
  try_steal_step k c x start i rf tf = Some k' -> kinv k' /\ k_next_task_id k' = k_next_task_id k.
Proof.
  intros Hi Hx Hph. destruct (kinv_lookup k c x Hi Hx) as (Hw & _). unfold try_steal_step.
  destruct (i <? _); [|intros [= <-]; split; [|done]; by apply (kinv_hold k c x); rewrite ?Hph].
  case_decide as Hc; [intros [= <-]; split; [|done]; by apply (kinv_hold k c x); rewrite ?Hph|].
  set (tgt := Z.to_nat _) in *. destruct (k_cpus k !! tgt) as [y|] eqn:Hy; [|done].
  destruct (kinv_lookup k tgt y Hi Hy) as (Hwy & _).
  pose proof (steal_task_moves (c_ex y) rf tf Hwy) as Hs.
  destruct (steal_task (c_ex y) rf tf) as [ex o]. destruct Hs as [Hw' Hs].
  assert (<[tgt := set_ex y ex]> (k_cpus k) !! c = Some x) as Hx' by (by rewrite list_lookup_insert_ne).
  destruct o as [[[id p] e]|]; intros [= <-]; (split; [|done]).
  - destruct Hs as [Hs1 Hs2]. destruct Hi as (H1 & H2 & H3). split; [|split; [done|]].
    { simpl. by repeat apply Forall_insert. }
    simpl. rewrite <- H3. unfold places. simpl. apply Permutation_app_tail.
    pose proof (bind_exchange cpu_places _ _ _ (set_ex y ex) Hy) as P1.
    pose proof (bind_exchange cpu_places _ _ _ (set_phase x (Insert p id e)) Hx') as P2.
    apply (Permutation_app_inv_r (cpu_places x ++ cpu_places y)).
    rewrite app_assoc, P2, <- app_assoc, (Permutation_app_comm (cpu_places (set_phase _ _))), app_assoc, P1.
    rewrite <- !app_assoc. apply Permutation_app_head. unfold cpu_places. simpl. rewrite Hph, Hs2.
    rewrite (keys_delete _ id e Hs1). simpl. solve_Permutation.
  - apply (kinv_hold _ c x); [|done|done|done|by rewrite Hph]. by apply (kinv_hold k tgt y).
Qed.

Lemma kinv_run_step k c x ticks rf tf :
  kinv k -> k_cpus k !! c = Some x ->
  wp (run_step k c x ticks rf tf) (fun o =>
    forall k', o = Some k' -> kinv k' /\ k_next_task_id k' = k_next_task_id k).
Proof.
  intros Hi Hx. destruct (kinv_lookup k c x Hi Hx) as (Hw & _). unfold run_step.
  destruct (c_phase x) as [| |p id|p id e| | |start i|p id e|p id|] eqn:Hph; try (apply wp_ret; intros k').
  - intros [= <-]. split; [|done]. by apply (kinv_hold k c x); rewrite ?Hph.
  - wp_step. eapply wp_mono; [by apply rq_pop_wf|]. intros [rq o] (Hwf & _). 
    destruct o as [[p id]|]; apply wp_ret; intros k' [= <-]; (split; [|done]);
      by apply (kinv_hold k c x); rewrite ?Hph.
  - destruct (ex_tasks (c_ex x) !! id) as [e|] eqn:He; apply wp_ret; intros k' [= <-]; (split; [|done]).
    + apply (kinv_set (mkKernel _ _ _ _ _) c x); [by apply kinv_wakers|done|done|].
      unfold cpu_places. simpl. rewrite (keys_delete _ _ _ He), Hph. simpl. solve_Permutation.
    + apply (kinv_hold (mkKernel _ _ _ _ _) c x); [by apply kinv_wakers|done|done|done|by rewrite Hph].
  - done.
  - destruct (c_preempt_pending x); apply wp_ret; intros k' [= <-]; (split; [|done]);
      by apply (kinv_hold k c x); rewrite ?Hph.
  - repeat case_match; apply wp_ret; intros k' [= <-]; (split; [|done]); by apply (kinv_hold k c x); rewrite ?Hph.
  - by apply kinv_try_steal.
  - intros [= <-]. split; [|done]. by apply kinv_store; rewrite ?Hph.
  - intros [= <-]. split; [|done]. apply (kinv_hold k c x); rewrite ?Hph; try done. by apply push_wf.
  - done.
Qed.

Lemma kinv_poll_end k c x r k' :
  kinv k -> k_cpus k !! c = Some x -> poll_end k c x r = Some k' ->
  kinv k' /\ k_next_task_id k' = k_next_task_id k.
Proof.
  intros Hi Hx. unfold poll_end. destruct (c_phase x) as [| |p id|p id e| | |start i|p id e|p id|] eqn:Hph; try done.
  destruct r as [f|]; intros [= <-]; (split; [|done]).
  - by apply kinv_store; rewrite ?Hph.
  - destruct (kinv_lookup k c x Hi Hx) as (Hw & _). destruct Hi as (H1 & H2 & H3). split; [|split; [done|]]; simpl.
    + by apply Forall_insert.
    + rewrite <- H3. unfold places. simpl.
      pose proof (bind_exchange cpu_places _ _ _ (set_phase x Yield) Hx) as P.
      apply (Permutation_app_inv_r (cpu_places x)).
      trans (((<[c := set_phase x Yield]> (k_cpus k) ≫= cpu_places) ++ cpu_places x) ++ id :: k_done k);
        [solve_Permutation|].
      rewrite P. unfold cpu_places. simpl. rewrite Hph. simpl. solve_Permutation.
Qed.

Lemma kinv_spawn k c x f meta :
  kinv k -> k_cpus k !! c = Some x -> k_next_task_id k + 1 < U64 ->
  kinv (spawn_with_meta k c x f meta) /\
  k_next_task_id (spawn_with_meta k c x f meta) = k_next_task_id k + 1.
Proof.
  intros Hi Hx Hlt. destruct (kinv_lookup k c x Hi Hx) as (Hw & _ & Hb). destruct Hi as (H1 & H2 & H3).
  unfold spawn_with_meta, wrapping_add64. simpl. rewrite Z.mod_small by lia. split; [|done].
  assert (ex_tasks (c_ex x) !! k_next_task_id k = None) as Hn.
  { destruct (ex_tasks _ !! _) eqn:E; [|done]. exfalso.
    assert (k_next_task_id k ∈ cpu_places x) as Hin; [|apply Hb in Hin; lia].
    unfold cpu_places. apply elem_of_app. left. apply keys_elem. by rewrite E. }
  split; [|split; [simpl; lia|]]; simpl.
  - by apply Forall_insert.
  - rewrite seqZ_app, <- H3 by lia. simpl. unfold places. simpl.
    set (y := set_ex x _). pose proof (bind_exchange cpu_places _ _ _ y Hx) as P.
    apply (Permutation_app_inv_r (cpu_places x)).
    trans (((<[c := y]> (k_cpus k) ≫= cpu_places) ++ cpu_places x) ++ k_done k); [solve_Permutation|].
    rewrite P. unfold cpu_places at 2. simpl. rewrite (keys_insert _ _ _ Hn). unfold cpu_places at 3.
    change (seqZ (k_next_task_id k) 1) with [k_next_task_id k]. solve_Permutation.
Qed.

Lemma kinv_kstep k l :
  kinv k -> k_next_task_id k + 1 < U64 ->
  wp (kstep k l) (fun o => forall k', o = Some k' ->
    kinv k' /\ k_next_task_id k <= k_next_task_id k' <= k_next_task_id k + 1).
Proof.
  intros Hi Hlt.
  assert (forall k1 x c p id k', kinv k1 -> k_cpus k1 !! c = Some x ->
    Some (set_cpu k1 c (set_ex x (ex_push (c_ex x) p id))) = Some k' -> kinv k') as Hpush.
  { intros k1 x c p id k' Hi1 Hx [= <-]. destruct (kinv_lookup k1 c x Hi1 Hx) as (Hw & _).
    apply (kinv_hold k1 c x); try done. by apply push_wf. }
  destruct l as [c ticks rf tf|c r|c f meta|i|w|c|c]; simpl.
  - destruct (k_cpus k !! c) as [x|] eqn:Hx; [|by apply wp_ret].
    eapply wp_mono; [by apply (kinv_run_step k c x)|]. intros o Ho k' Hk. destruct (Ho k' Hk). split; [done|lia].
  - destruct (k_cpus k !! c) as [x|] eqn:Hx; apply wp_ret; [|done]. intros k' Hk.
    destruct (kinv_poll_end k c x r k' Hi Hx Hk). split; [done|lia].
  - destruct (k_cpus k !! c) as [x|] eqn:Hx; apply wp_ret; [|done]. intros k' [= <-].
    destruct (kinv_spawn k c x f meta Hi Hx Hlt). split; [done|lia].
  - destruct (k_spawning k !! i) as [[[c p] id]|]; apply wp_ret; [|done]. intros k'. unfold spawn_push. simpl.
    destruct (k_cpus k !! c) as [x|] eqn:Hx; [|done]. intros [= <-]. split; [|simpl; lia].
    apply (Hpush (mkKernel (k_cpus k) (k_next_task_id k) (delete i (k_spawning k)) (k_wakers k) (k_done k)) x c p id);
      done.
  - case_match; apply wp_ret; [|done]. intros k'. unfold wake_by_ref. destruct (unpack w) as [[id p] c].
    destruct (k_cpus k !! Z.to_nat c) as [x|] eqn:Hx; [|done]. intros [= <-]. split; [|simpl; lia].
    by apply (Hpush k x (Z.to_nat c) p id).
  - destruct (k_cpus k !! c) as [x|] eqn:Hx; apply wp_ret; [|done]. intros k' [= <-]. split; [|simpl; lia].
    destruct (kinv_lookup k c x Hi Hx) as (Hw & _). by apply (kinv_hold k c x).
  - destruct (k_cpus k !! c) as [x|] eqn:Hx; [|by apply wp_ret].
    destruct (c_phase x) eqn:Hph; apply wp_ret; try done. intros k' [= <-]. split; [|simpl; lia].
    destruct (kinv_lookup k c x Hi Hx) as (Hw & _). by apply (kinv_hold k c x); rewrite ?Hph.
Qed.

Lemma kinv_new n : kinv (Kernel_new n).
Proof.
  split; [by apply Forall_replicate|split; [done|]]. unfold places, Kernel_new. simpl.
  induction n as [|n IH]; [done|]. simpl. done.
Qed.

Lemma kinv_krun ls k :
  kinv k -> k_next_task_id k + Z.of_nat (length ls) < U64 ->
  wp (krun k ls) (fun o => forall k', o = Some k' ->
    kinv k' /\ k_next_task_id k' <= k_next_task_id k + Z.of_nat (length ls)).
Proof.
  revert k. induction ls as [|l ls IH]; intros k Hi Hlt; simpl.
  { apply wp_ret. intros k' [= <-]. split; [done|lia]. }
  simpl in Hlt. wp_step. eapply wp_mono; [apply (kinv_kstep k l Hi); lia|]. intros [k1|] H1; [|by apply wp_ret].
  destruct (H1 k1 eq_refl) as [Hi1 Hb1]. eapply wp_mono; [apply IH; [done|lia]|].
  intros o Ho k' Hk. destruct (Ho k' Hk). split; [done|lia].
Qed.

(** ** Without work stealing a task stays on its CPU *)

Definition home (k : Kernel) (id : Z) (c : nat) : Prop :=
  id ∈ k_done k \/ exists x, k_cpus k !! c = Some x /\ id ∈ cpu_places x.

Definition no_move (ph : phase) : Prop :=
  match ph with Steal _ _ | Insert _ _ _ | Requeue _ _ => False | _ => True end.

(** What the queues, wakers and unfinished spawns of CPU [c] name lives there. *)
Definition stays (k : Kernel) : Prop :=
  (forall c x, k_cpus k !! c = Some x ->
     no_move (c_phase x) /\
     (forall p id, (p, id) ∈ rq_tasks (ready_queues (c_ex x)) -> home k id c) /\
     (forall p id, c_phase x = Take p id -> home k id c)) /\
  (forall w id p cpu, w ∈ k_wakers k -> unpack w = (id, p, cpu) -> home k id (Z.to_nat cpu)) /\
  (forall c p id, (c, p, id) ∈ k_spawning k -> home k id c).

Definition grows (k k' : Kernel) : Prop := forall id c, home k id c -> home k' id c.

Lemma grows_set k k' c x y :
  k_cpus k !! c = Some x -> k_cpus k' = <[c := y]> (k_cpus k) -> k_done k ⊆ k_done k' ->
  (forall id, id ∈ cpu_places x -> id ∈ cpu_places y \/ id ∈ k_done k') -> grows k k'.
Proof.
  intros Hx Hk Hd Hp id c' [Hid|(x' & Hx' & Hid)]; [left; by apply Hd|].
  pose proof (lookup_lt_Some _ _ _ Hx). destruct (decide (c' = c)) as [->|Hne].
  - simplify_eq. destruct (Hp id Hid) as [Hy|]; [right|by left]. exists y. rewrite Hk. by rewrite list_lookup_insert_eq.
  - right. exists x'. by rewrite Hk, list_lookup_insert_ne.
Qed.

Lemma stays_set k k' c x y :
  stays k -> grows k k' -> k_cpus k !! c = Some x -> k_cpus k' = <[c := y]> (k_cpus k) ->
  no_move (c_phase y) ->
  (forall p id, (p, id) ∈ rq_tasks (ready_queues (c_ex y)) ->
     (p, id) ∈ rq_tasks (ready_queues (c_ex x)) \/ home k id c \/ home k' id c) ->
  (forall p id, c_phase y = Take p id -> home k id c) ->
  (forall w, w ∈ k_wakers k' -> w ∈ k_wakers k \/
     forall id p cpu, unpack w = (id, p, cpu) -> home k id (Z.to_nat cpu)) ->
  (forall c p id, (c, p, id) ∈ k_spawning k' -> (c, p, id) ∈ k_spawning k \/ home k' id c) -> stays k'.
Proof.
  intros (S1 & S2 & S3) G Hx Hk Hm Hq Ht Hw Hs. pose proof (lookup_lt_Some _ _ _ Hx). split_and!.
  - intros c' x' Hx'. rewrite Hk in Hx'. destruct (decide (c' = c)) as [->|Hne].
    + rewrite list_lookup_insert_eq in Hx' by done. simplify_eq. split_and!; [done| |].
      * intros p id [Hi|[Hi|?]]%Hq; [|by apply G|done]. destruct (S1 c x Hx) as (_ & B & _). by eapply G, B.
      * intros p id Hp. by eapply G, Ht.
    + rewrite list_lookup_insert_ne in Hx' by done. destruct (S1 c' x' Hx') as (A & B & C).
      split_and!; [done|intros p id Hi; by eapply G, B|intros p id Hi; by eapply G, C].
  - intros w id p cpu [Hi|Hi]%Hw Hu; apply G; [by eapply S2|by eapply Hi].
  - intros c' p id [Hi|Hi]%Hs; [|done]. by eapply G, S3.
Qed.

Lemma rq_tasks_push rq p id q i :
  (q, i) ∈ rq_tasks (rq_push rq p id) -> (q, i) ∈ rq_tasks rq \/ (q = p /\ i = id).
Proof.
  unfold rq_tasks. destruct p; simpl; rewrite !elem_of_app, ?fmap_app, ?elem_of_app; simpl;
    rewrite ?list_elem_of_singleton; naive_solver.
Qed.

(** A step of CPU [c] that keeps its entries and its queue. *)
Lemma stays_hold k c x y :
  stays k -> k_cpus k !! c = Some x -> no_move (c_phase y) ->
  ex_tasks (c_ex y) = ex_tasks (c_ex x) -> phase_ids (c_phase y) = phase_ids (c_phase x) ->
  (forall p id, (p, id) ∈ rq_tasks (ready_queues (c_ex y)) ->
     (p, id) ∈ rq_tasks (ready_queues (c_ex x)) \/ home k id c) ->
  (forall p id, c_phase y = Take p id -> home k id c) -> stays (set_cpu k c y).
Proof.
  intros Hs Hx Hm H1 H2 Hq Ht. eapply (stays_set k _ c x y); try done; [| |by auto|by auto].
  2: { intros p id Hin. destruct (Hq p id Hin); auto. }
  apply (grows_set k _ c x y); [done..|]. intros id. unfold cpu_places. rewrite H1, H2. auto.
Qed.

Lemma stays_take k c x p id :
  stays k -> kinv k -> k_cpus k !! c = Some x -> c_phase x = Take p id ->
  0 <= Z.of_nat c < 64 -> k_next_task_id k <= 2 ^ 56 ->
  forall k', run_step k c x 0 false false = Ret (Some k') -> stays k'.
Proof.
  intros Hs Hi Hx Hph Hc Hn k'. unfold run_step. rewrite Hph. pose proof Hs as (S1 & S2 & S3).
  destruct (S1 c x Hx) as (_ & _ & Ht). specialize (Ht p id Hph).
  assert (0 <= id < 2 ^ 56) as Hid.
  { assert (id ∈ seqZ 0 (k_next_task_id k)) as H%elem_of_seqZ; [|lia]. destruct Hi as (_ & _ & <-).
    destruct Ht as [?|(x' & Hx' & Hin)]; [set_solver|]. apply elem_of_app. left. unfold places.
    apply list_elem_of_bind. exists x'. split; [done|]. by eapply list_elem_of_lookup_2. }
  assert (forall id' p' cpu, unpack (task_waker (Z.of_nat c) id p) = (id', p', cpu) -> home k id' (Z.to_nat cpu)) as Hwk.
  { intros id' p' cpu. unfold task_waker. rewrite unpack_pack by lia. intros [= <- <- <-]. by rewrite Nat2Z.id. }
  destruct (ex_tasks (c_ex x) !! id) as [e|] eqn:He; intros [= <-].
  - eapply (stays_set k _ c x); try done; [|by auto|simpl; set_solver|by auto].
    eapply (grows_set k _ c x); [exact Hx|reflexivity|done|]. intros i Hin. left. unfold cpu_places in *. simpl. rewrite Hph in Hin.
    rewrite (keys_delete _ _ _ He) in Hin. set_solver.
  - eapply (stays_set k _ c x); try done; [|by auto|simpl; set_solver|by auto].
    eapply (grows_set k _ c x); [exact Hx|reflexivity|done|]. intros i Hin. left. unfold cpu_places in *. simpl. by rewrite Hph in Hin.
Qed.

Ltac hold_step := simpl; try done; try (by auto); try (by intros ? ? [=]).

Lemma stays_run_step k c x ticks rf tf k' :
  work_steal = false ->
  stays k -> kinv k -> k_cpus k !! c = Some x -> 0 <= Z.of_nat c < 64 -> k_next_task_id k <= 2 ^ 56 ->
  run_step k c x ticks rf tf = Ret (Some k') -> stays k'.
Proof.
  intros Hws Hs Hi Hx Hc Hn. destruct (kinv_lookup k c x Hi Hx) as (Hw & _).
  pose proof Hs as (S1 & S2 & S3). destruct (S1 c x Hx) as (Hm & Hq & Ht).
  destruct (c_phase x) as [| |p id|p id e| | |start i|p id e|p id|] eqn:Hph; try done.
  - unfold run_step. rewrite Hph. intros [= <-]. apply (stays_hold k c x); rewrite ?Hph; hold_step.
  - unfold run_step. rewrite Hph. intros ([rq o] & Hpop & Hk)%bind_Ret_inv.
    destruct (wp_use _ _ _ (rq_pop_wf _ Hw) Hpop) as (_ & Hperm & _).
    assert (forall q i, (q, i) ∈ rq_tasks rq -> (q, i) ∈ rq_tasks (ready_queues (c_ex x))) as Hrest.
    { intros q i Hin. rewrite <- Hperm. set_solver. }
    destruct o as [[p id]|]; simplify_eq; apply (stays_hold k c x); rewrite ?Hph; hold_step.
    intros p' id' [= <- <-]. apply (Hq p). rewrite <- Hperm. set_solver.
  - intros Hk. eapply (stays_take k c x p id Hs Hi Hx Hph Hc Hn). unfold run_step in *. by rewrite Hph in *.
  - unfold run_step. by rewrite Hph.
  - unfold run_step. rewrite Hph. destruct (c_preempt_pending x); intros [= <-];
      apply (stays_hold k c x); rewrite ?Hph; hold_step.
  - unfold run_step. rewrite Hph, Hws. simpl. destruct (has_ready _); intros [= <-];
      apply (stays_hold k c x); rewrite ?Hph; hold_step.
  - unfold run_step. by rewrite Hph.
Qed.

Lemma stays_kstep k l k' :
  work_steal = false ->
  stays k -> kinv k -> Z.of_nat (length (k_cpus k)) <= 64 -> k_next_task_id k + 1 <= 2 ^ 56 ->
  kstep k l = Ret (Some k') -> stays k'.
Proof.
  intros Hws Hs Hi Hc Hn. pose proof Hs as (S1 & S2 & S3).
  destruct l as [c ticks rf tf|c r|c f meta|i|w|c|c]; simpl.
  - destruct (k_cpus k !! c) as [x|] eqn:Hx; [|done]. pose proof (lookup_lt_Some _ _ _ Hx).
    eapply stays_run_step; eauto; lia.
  - destruct (k_cpus k !! c) as [x|] eqn:Hx; [|done]. destruct (S1 c x Hx) as (Hm & Hq & Ht). unfold poll_end.
    destruct (c_phase x) as [| |p id|p id e| | |start i|p id e|p id|] eqn:Hph; try done.
    pose proof (phase_not_stored k c x id Hi Hx ltac:(by rewrite Hph)) as Hns.
    destruct r as [g|]; intros [= <-]; (eapply (stays_set k _ c x); try done; [|by auto..]);
      (eapply (grows_set k _ c x); [exact Hx|reflexivity|simpl; set_solver|]); intros j Hin; unfold cpu_places in *; simpl;
      rewrite Hph in Hin; simpl in Hin; rewrite ?keys_insert by done; set_solver.
  - destruct (k_cpus k !! c) as [x|] eqn:Hx; [|done]. destruct (S1 c x Hx) as (Hm & Hq & Ht). intros [= <-].
    assert (grows k (spawn_with_meta k c x f meta)) as G.
    { eapply (grows_set k _ c x); [exact Hx|reflexivity|done|]. intros j Hin. left. unfold cpu_places in *. simpl.
      apply elem_of_app in Hin as [Hin|Hin]; [|set_solver]. apply elem_of_app. left. apply keys_elem.
      apply keys_elem in Hin. destruct (decide (j = k_next_task_id k)) as [->|];
        [by rewrite lookup_insert_eq|by rewrite lookup_insert_ne]. }
    eapply (stays_set k _ c x); try done; [by auto|by auto|].
    intros c' p id. unfold spawn_with_meta. simpl. rewrite elem_of_cons. intros [[= -> -> ->]|?]; [right|by left].
    right. simpl. rewrite list_lookup_insert_eq by by eapply lookup_lt_Some.
    eexists. split; [done|]. unfold cpu_places. simpl. apply elem_of_app. left. apply keys_elem. by rewrite lookup_insert_eq.
  - destruct (k_spawning k !! i) as [[[c p] id]|] eqn:Hsp; [|done]. unfold spawn_push. simpl.
    destruct (k_cpus k !! c) as [x|] eqn:Hx; [|done]. destruct (S1 c x Hx) as (Hm & Hq & Ht). intros [= <-].
    apply (stays_set k _ c x (set_ex x (ex_push (c_ex x) p id))); try done; [| |by auto|].
    + eapply (grows_set k _ c x); [exact Hx|reflexivity|done|]. auto.
    + simpl. intros q j [?|[-> ->]]%rq_tasks_push; [by left|right; left].
      apply (S3 c p id). by eapply list_elem_of_lookup_2.
    + intros c' p' id' Hin. left. simpl in Hin. by eapply list_elem_of_delete_inv.
  - case_bool_decide as Hw; [|done]. unfold wake_by_ref. destruct (unpack w) as [[id p] c] eqn:Hu.
    destruct (k_cpus k !! Z.to_nat c) as [x|] eqn:Hx; [|done]. destruct (S1 _ x Hx) as (Hm & Hq & Ht). intros [= <-].
    apply (stays_hold k _ x); try done. simpl. intros q j [?|[-> ->]]%rq_tasks_push; [by left|right]. by eapply S2.
  - destruct (k_cpus k !! c) as [x|] eqn:Hx; [|done]. destruct (S1 c x Hx) as (Hm & Hq & Ht). intros [= <-].
    apply (stays_hold k _ x); try done. auto.
  - destruct (k_cpus k !! c) as [x|] eqn:Hx; [|done]. destruct (c_phase x) eqn:Hph; try done. intros [= <-].
    apply (stays_hold k _ x); rewrite ?Hph; try done. auto.
Qed.

(** ** A woken task is polled *)

Definition takes (c : nat) (k : Kernel) (l : label) : bool :=
  match l, k_cpus k !! c with
  | LRun c' _ _ _, Some x =>
      bool_decide (c' = c) && match c_phase x with Take _ _ => true | _ => false end
  | _, _ => false
  end.

(** How often CPU [c] takes a task from its queue to poll it. *)
Fixpoint run_takes (c : nat) (k : Kernel) (ls : list label) : nat :=
  match ls with
  | [] => 0
  | l :: ls =>
      (if takes c k l then 1 else 0) +
      match kstep k l with Ret (Some k') => run_takes c k' ls | _ => 0 end
  end.

(** In the run, CPU [c] begins to poll task [id]. *)
Fixpoint poll_starts (c : nat) (id : Z) (k : Kernel) (ls : list label) : Prop :=
  match ls with
  | [] => False
  | l :: ls =>
      (takes c k l = true /\ exists x p e,
         k_cpus k !! c = Some x /\ c_phase x = Take p id /\ ex_tasks (c_ex x) !! id = Some e) \/
      match kstep k l with Ret (Some k') => poll_starts c id k' ls | _ => False end
  end.

(** In the run, CPU [c] never has a critical task queued. *)
Fixpoint no_critical (c : nat) (k : Kernel) (ls : list label) : Prop :=
  (forall x, k_cpus k !! c = Some x -> rq_critical (ready_queues (c_ex x)) = []) /\
  match ls with
  | [] => True
  | l :: ls => match kstep k l with Ret (Some k') => no_critical c k' ls | _ => True end
  end.

Definition taking (ph : phase) : Z := match ph with Take _ _ => 1 | _ => 0 end.

(** Within [b] takes, CPU state [x] comes to task [id]. *)
Definition waiting (x : Cpu) (p : Priority) (id : Z) (b : Z) : Prop :=
  (exists p', c_phase x = Take p' id) /\ 1 <= b \/
  exists j, rq_queue (ready_queues (c_ex x)) p !! j = Some id /\
    rq_wait (ready_queues (c_ex x)) p j + 1 + taking (c_phase x) <= b.

Lemma waiting_mono x y p id b :
  waiting x p id b -> c_phase y = c_phase x ->
  (forall j, rq_queue (ready_queues (c_ex x)) p !! j = Some id ->
     rq_queue (ready_queues (c_ex y)) p !! j = Some id /\
     rq_wait (ready_queues (c_ex y)) p j = rq_wait (ready_queues (c_ex x)) p j) ->
  waiting y p id b.
Proof.
  intros [[[p' H] ?]|(j & Hj & Hb)] Hp Hq; [left|right].
  - split; [|done]. exists p'. by rewrite Hp.
  - exists j. destruct (Hq j Hj) as [? ->]. by rewrite Hp.
Qed.

Lemma waiting_queue x y p id b :
  waiting x p id b -> ready_queues (c_ex y) = ready_queues (c_ex x) ->
  taking (c_phase x) = 0 -> taking (c_phase y) = 0 -> waiting y p id b.
Proof.
  intros [[[p' H] ?]|(j & Hj & Hb)] Hq Hx Hy; [by rewrite H in Hx|right]. exists j. rewrite Hq. split; [done|lia].
Qed.

Lemma waiting_run_step k c x p id b ticks rf tf k' :
  work_steal = false ->
  k_cpus k !! c = Some x -> rq_wf (ready_queues (c_ex x)) -> no_move (c_phase x) ->
  p = Critical \/ rq_critical (ready_queues (c_ex x)) = [] ->
  waiting x p id b -> run_step k c x ticks rf tf = Ret (Some k') ->
  exists y, k_cpus k' !! c = Some y /\
    ((exists q, c_phase x = Take q id) \/ waiting y p id (b - taking (c_phase x))).
Proof.
  intros Hws Hx Hw Hm Hc Hb Hk. pose proof (lookup_lt_Some _ _ _ Hx) as Hlt.
  assert (forall y, set_cpu k c y = k' -> taking (c_phase x) = 0 -> taking (c_phase y) = 0 ->
    ready_queues (c_ex y) = ready_queues (c_ex x) -> exists y', k_cpus k' !! c = Some y' /\
    ((exists q, c_phase x = Take q id) \/ waiting y' p id (b - taking (c_phase x)))) as Hgo.
  { intros y <- H1 H2 H3. exists y. simpl. rewrite list_lookup_insert_eq by done. split; [done|right].
    rewrite H1, Z.sub_0_r. by eapply waiting_queue. }
  unfold run_step in Hk. destruct (c_phase x) as [| |q i|q i e| | |start i|q i e|q i|] eqn:Hph; try done.
  - simplify_eq. by eapply Hgo.
  - apply bind_Ret_inv in Hk as ([rq o] & Hpop & Hk).
    destruct Hb as [[[? Hb] ?]|(j & Hj & Hb)]; [by rewrite Hph in Hb|]. rewrite Hph in Hb. simpl in Hb.
    destruct (wp_use _ _ _ (pop_keeps _ p j id Hw Hj Hc) Hpop) as (Hwf' & _ & Hkept).
    assert (forall j', rq_queue rq p !! j' = Some id -> 0 <= rq_wait rq p j') as Hnn.
    { intros j' _. unfold rq_wf in Hwf'. destruct p; wait_lia. }
    destruct o as [[q i]|]; simplify_eq; simpl; rewrite list_lookup_insert_eq by done;
      (eexists; split; [done|right]); simpl in Hkept; destruct Hkept as [Hin|(j' & Hj' & Hw')].
    + apply list_elem_of_singleton in Hin as [= -> ->]. left. split; [by exists q|].
      unfold rq_wf in Hw. destruct q; simpl in *; unfold BACKGROUND_STARVATION_LIMIT in *; zcases; lia.
    + right. exists j'. split; [done|]. simpl. lia.
    + by apply not_elem_of_nil in Hin.
    + right. exists j'. split; [done|]. simpl. lia.
  - destruct (decide (i = id)) as [->|Hne]; [|].
    { destruct (ex_tasks (c_ex x) !! id); simplify_eq; simpl; rewrite list_lookup_insert_eq by done;
        (eexists; split; [done|]; left; by exists q). }
    destruct Hb as [[[? Hb] ?]|(j & Hj & Hb)]; [rewrite Hph in Hb; simplify_eq|]. rewrite Hph in Hb. simpl in Hb.
    destruct (ex_tasks (c_ex x) !! i); simplify_eq; simpl; rewrite list_lookup_insert_eq by done;
      (eexists; split; [done|right; right]; exists j; split; [done|simpl; lia]).
  - destruct (c_preempt_pending x); simplify_eq; by eapply Hgo.
  - rewrite Hws in Hk. simpl in Hk. destruct (has_ready _); simplify_eq; by eapply Hgo.
Qed.

Lemma waiting_push k c x c' x' p id b q i :
  k_cpus k !! c = Some x -> k_cpus k !! c' = Some x' -> waiting x p id b ->
  exists y, <[c' := set_ex x' (ex_push (c_ex x') q i)]> (k_cpus k) !! c = Some y /\ waiting y p id b.
Proof.
  intros Hx Hx' Hb. pose proof (lookup_lt_Some _ _ _ Hx). destruct (decide (c' = c)) as [->|Hne].
  - rewrite list_lookup_insert_eq by done. simplify_eq. eexists. split; [done|].
    eapply waiting_mono; [done|done|]. intros j Hj. simpl. by apply push_keeps.
  - rewrite list_lookup_insert_ne by done. eauto.
Qed.

Lemma waiting_other k c x c' y p id b :
  k_cpus k !! c = Some x -> waiting x p id b ->
  (c' = c -> ready_queues (c_ex y) = ready_queues (c_ex x) /\
     (c_phase y = c_phase x \/ taking (c_phase x) = 0 /\ taking (c_phase y) = 0)) ->
  exists y', <[c' := y]> (k_cpus k) !! c = Some y' /\ waiting y' p id b.
Proof.
  intros Hx Hb Hy. pose proof (lookup_lt_Some _ _ _ Hx). destruct (decide (c' = c)) as [->|Hne].
  - rewrite list_lookup_insert_eq by done. exists y. split; [done|]. destruct (Hy eq_refl) as [Hq [Hp|[H1 H2]]].
    + eapply waiting_mono; [done|done|]. intros j Hj. by rewrite Hq.
    + by eapply waiting_queue.
  - rewrite list_lookup_insert_ne by done. eauto.
Qed.

Lemma run_step_other k c x c' y ticks rf tf k' :
  work_steal = false -> no_move (c_phase y) ->
  k_cpus k !! c = Some x -> k_cpus k !! c' = Some y -> c' <> c ->
  run_step k c' y ticks rf tf = Ret (Some k') -> k_cpus k' !! c = Some x.
Proof.
  intros Hws Hm Hx Hy Hne Hk. unfold run_step in Hk.
  destruct (c_phase y) as [| |q i|q i e| | |start i|q i e|q i|] eqn:Hph; try done.
  - simplify_eq. simpl. by rewrite list_lookup_insert_ne.
  - apply bind_Ret_inv in Hk as ([rq o] & Hpop & Hk).
    destruct o as [[q i]|]; simplify_eq; simpl; by rewrite list_lookup_insert_ne.
  - destruct (ex_tasks (c_ex y) !! i); simplify_eq; simpl; by rewrite list_lookup_insert_ne.
  - destruct (c_preempt_pending y); simplify_eq; simpl; by rewrite list_lookup_insert_ne.
  - rewrite Hws in Hk. simpl in Hk. destruct (has_ready _); simplify_eq; simpl; by rewrite list_lookup_insert_ne.
Qed.

Lemma waiting_kstep k l k' c x p id b :
  work_steal = false -> stays k -> kinv k ->
  k_cpus k !! c = Some x -> p = Critical \/ rq_critical (ready_queues (c_ex x)) = [] ->
  waiting x p id b -> kstep k l = Ret (Some k') ->
  exists y, k_cpus k' !! c = Some y /\
    ((takes c k l = true /\ exists q, c_phase x = Take q id) \/
     waiting y p id (b - if takes c k l then 1 else 0)).
Proof.
  intros Hws Hs Hi Hx Hc Hb. pose proof Hs as (S1 & _). destruct (kinv_lookup k c x Hi Hx) as (Hw & _).
  destruct (S1 c x Hx) as (Hm & _ & _).
  destruct l as [c' ticks rf tf|c' r|c' f meta|i|w|c'|c']; simpl; rewrite ?Z.sub_0_r.
  - destruct (k_cpus k !! c') as [y|] eqn:Hy; [|done]. rewrite Hx. intros Hk. case_bool_decide as Hcc.
    + subst. simplify_eq. destruct (waiting_run_step k c x p id b ticks rf tf k' Hws Hx Hw Hm Hc Hb Hk) as (y' & Hy' & Hor).
      exists y'. split; [done|]. simpl. destruct Hor as [[q Hq]|Hor]; [left|right].
      * rewrite Hq. eauto.
      * unfold taking in Hor. by destruct (c_phase x).
    + exists x. split; [|right; by rewrite Z.sub_0_r]. destruct (S1 c' y Hy) as (Hmy & _). by eapply run_step_other.
  - destruct (k_cpus k !! c') as [y|] eqn:Hy; [|done]. unfold poll_end.
    destruct (c_phase y) as [| |q i|q i e| | |start i|q i e|q i|] eqn:Hph; try done.
    destruct r as [g|]; intros [= <-]; simpl.
    + edestruct (waiting_other k c x c' (set_phase (set_ex y (ex_insert (c_ex y) i (mkTaskEntry g (te_meta e)))) Yield))
        as (y' & ? & ?); [done|done| |by eauto]. intros ->. simplify_eq. split; [done|right]. by rewrite Hph.
    + edestruct (waiting_other k c x c' (set_phase y Yield)) as (y' & ? & ?); [done|done| |by eauto].
      intros ->. simplify_eq. split; [done|right]. by rewrite Hph.
  - destruct (k_cpus k !! c') as [y|] eqn:Hy; [|done]. intros [= <-]. simpl.
    edestruct (waiting_other k c x c' (set_ex y (ex_insert (c_ex y) (k_next_task_id k) (mkTaskEntry f meta))))
      as (y' & ? & ?); [done|done| |by eauto]. intros ->. simplify_eq. auto.
  - destruct (k_spawning k !! i) as [[[c' q] j]|]; [|done]. unfold spawn_push. simpl.
    destruct (k_cpus k !! c') as [y|] eqn:Hy; [|done]. intros [= <-]. simpl.
    destruct (waiting_push k c x c' y p id b q j Hx Hy Hb) as (y' & ? & ?). eauto.
  - case_bool_decide; [|done]. unfold wake_by_ref. destruct (unpack w) as [[j q] cpu].
    destruct (k_cpus k !! Z.to_nat cpu) as [y|] eqn:Hy; [|done]. intros [= <-]. simpl.
    destruct (waiting_push k c x _ y p id b q j Hx Hy Hb) as (y' & ? & ?). eauto.
  - destruct (k_cpus k !! c') as [y|] eqn:Hy; [|done]. intros [= <-]. simpl.
    edestruct (waiting_other k c x c' (set_preempt y true)) as (y' & ? & ?); [done|done| |by eauto].
    intros ->. simplify_eq. auto.
  - destruct (k_cpus k !! c') as [y|] eqn:Hy; [|done]. destruct (c_phase y) eqn:Hph; try done. intros [= <-]. simpl.
    edestruct (waiting_other k c x c' (set_phase y Top)) as (y' & ? & ?); [done|done| |by eauto].
    intros ->. simplify_eq. rewrite Hph. auto.
Qed.

Lemma done_mono ls k k' : krun k ls = Ret (Some k') -> k_done k ⊆ k_done k'.
Proof.
  assert (forall k l k', kstep k l = Ret (Some k') -> k_done k ⊆ k_done k') as Hstep.
  { clear. intros k l k'. destruct l as [c ticks rf tf|c r|c f meta|i|w|c|c]; simpl.
    - destruct (k_cpus k !! c) as [x|]; [|done]. unfold run_step, try_steal_step.
      destruct (c_phase x) as [| |q i|q i e| | |start i|q i e|q i|];
        try (intros ([? ?] & _ & H)%bind_Ret_inv; revert H); repeat case_match; intros; simplify_eq; set_solver.
    - destruct (k_cpus k !! c) as [x|]; [|done]. unfold poll_end.
      destruct (c_phase x), r; intros; simplify_eq; simpl; set_solver.
    - destruct (k_cpus k !! c) as [x|]; [|done]. intros. by simplify_eq.
    - unfold spawn_push. repeat case_match; intros; by simplify_eq.
    - unfold wake_by_ref. repeat case_match; intros; by simplify_eq.
    - repeat case_match; intros; by simplify_eq.
    - repeat case_match; intros; by simplify_eq. }
  revert k. induction ls as [|l ls IH]; intros k; simpl; [by intros [= ->]|].
  intros ([k1|] & H1 & H2)%bind_Ret_inv; [|done]. etrans; [by eapply Hstep|by apply IH].
Qed.

Lemma kstep_cpus k l k' : kstep k l = Ret (Some k') -> length (k_cpus k') = length (k_cpus k).
Proof.
  destruct l as [c ticks rf tf|c r|c f meta|i|w|c|c]; simpl.
  - destruct (k_cpus k !! c) as [x|]; [|done]. unfold run_step, try_steal_step.
    destruct (c_phase x) as [| |q i|q i e| | |start i|q i e|q i|];
      try (intros ([? ?] & _ & H)%bind_Ret_inv; revert H); repeat case_match; intros; simplify_eq; simpl;
      by rewrite ?length_insert.
  - destruct (k_cpus k !! c) as [x|]; [|done]. unfold poll_end.
    destruct (c_phase x), r; intros; simplify_eq; simpl; by rewrite ?length_insert.
  - destruct (k_cpus k !! c) as [x|]; [|done]. intros. simplify_eq. simpl. by rewrite length_insert.
  - unfold spawn_push. repeat case_match; intros; simplify_eq; simpl; by rewrite length_insert.
  - unfold wake_by_ref. repeat case_match; intros; simplify_eq; simpl; by rewrite length_insert.
  - repeat case_match; intros; simplify_eq; simpl; by rewrite length_insert.
  - repeat case_match; intros; simplify_eq; simpl; by rewrite length_insert.
Qed.

Lemma stays_krun ls k k' :
  work_steal = false -> stays k -> kinv k -> Z.of_nat (length (k_cpus k)) <= 64 ->
  k_next_task_id k + Z.of_nat (length ls) <= 2 ^ 56 ->
  krun k ls = Ret (Some k') ->
  stays k' /\ kinv k' /\ length (k_cpus k') = length (k_cpus k) /\
  k_next_task_id k' <= k_next_task_id k + Z.of_nat (length ls).
Proof.
  intros Hws. revert k. induction ls as [|l ls IH]; intros k Hs Hi Hc Hn; simpl.
  { intros [= <-]. split_and!; [done..|lia]. }
  simpl in Hn. intros ([k1|] & H1 & H2)%bind_Ret_inv; [|done].
  destruct (wp_use _ _ _ (kinv_kstep k l Hi ltac:(ulia)) H1 k1 eq_refl) as [Hi1 Hb].
  pose proof (kstep_cpus _ _ _ H1) as Hl.
  destruct (IH k1) as (A & B & C & D); [eapply stays_kstep; eauto; lia|done|lia|lia|done|].
  split_and!; [done|done|lia|lia].
Qed.

Lemma stays_new n : stays (Kernel_new n).
Proof.
  split_and!; simpl; [|set_solver|set_solver].
  intros c x [-> _]%lookup_replicate. simpl. split_and!; [done|unfold rq_tasks; set_solver|done].
Qed.

Lemma polled_within ls k k' c x p id b :
  work_steal = false -> stays k -> kinv k -> Z.of_nat (length (k_cpus k)) <= 64 ->
  k_next_task_id k + Z.of_nat (length ls) <= 2 ^ 56 ->
  p = Critical \/ no_critical c k ls -> k_cpus k !! c = Some x -> waiting x p id b ->
  krun k ls = Ret (Some k') -> b <= Z.of_nat (run_takes c k ls) ->
  poll_starts c id k ls \/ id ∈ k_done k'.
Proof.
  intros Hws. revert k x b. induction ls as [|l ls IH]; intros k x b Hs Hi Hl Hn Hc Hx Hb; simpl.
  { intros _ Hle. exfalso. destruct (kinv_lookup k c x Hi Hx) as (Hw & _). unfold rq_wf in Hw.
    destruct Hb as [[_ ?]|(j & _ & Hb)]; [lia|].
    assert (0 <= rq_wait (ready_queues (c_ex x)) p j) by (destruct p; wait_lia).
    unfold taking in Hb. destruct (c_phase x); lia. }
  simpl in Hn, Hc. intros ([k1|] & H1 & H2)%bind_Ret_inv Hle; [|done]. rewrite H1 in *.
  destruct (wp_use _ _ _ (kinv_kstep k l Hi ltac:(ulia)) H1 k1 eq_refl) as [Hi1 Hb1].
  pose proof (kstep_cpus _ _ _ H1) as Hl1.
  destruct (waiting_kstep k l k1 c x p id b) as (y & Hy & [[Ht [q Hq]]|Hb']); try done.
  { destruct Hc as [?|[Hc _]]; [by left|right; by apply Hc]. }
  - pose proof Hs as (S1 & _). destruct (S1 c x Hx) as (_ & _ & Hhome).
    destruct (Hhome q id Hq) as [Hd|(x' & Hx' & Hin)].
    + right. apply (done_mono (l :: ls) k k'); [simpl; by rewrite H1|done].
    + left. left. split; [done|]. simplify_eq. unfold cpu_places in Hin. rewrite Hq in Hin. simpl in Hin.
      rewrite app_nil_r in Hin. apply keys_elem in Hin as [e He]. by exists x, q, e.
  - destruct (IH k1 y (b - if takes c k l then 1 else 0)) as [?|?]; eauto; try lia; [by eapply stays_kstep; eauto; lia| |].
    + destruct Hc as [?|[_ Hc]]; auto.
    + destruct (takes c k l); lia.
Qed.

(** ** Properties *)

(** C6: No task is lost and no task is in two hands.  However the CPUs interleave,
    steal from each other, are preempted and woken, the executors never panic,
    and the entries stored on all CPUs, being polled or on their way from one
    CPU to another, together with the finished tasks, are the spawned tasks,
    each exactly once. *)
Theorem executor_ownership n ls :
  Z.of_nat (length ls) < U64 ->
  exists o, krun (Kernel_new n) ls = Ret o /\
    forall k, o = Some k -> places k ++ k_done k ≡ₚ seqZ 0 (k_next_task_id k).
Proof.
  intros Hl. pose proof (kinv_krun ls (Kernel_new n) (kinv_new n) Hl) as H.
  apply wp_exists in H as (o & -> & Ho). exists o. split; [done|]. intros k Hk.
  by destruct (Ho k Hk) as [(_ & _ & ?) _].
Qed.

(** C8: Without work stealing no wakeup is lost.  When a waker fires, its CPU
    begins a poll of its task, unless the task has finished, by the time the
    CPU has taken as many tasks from its queues as the fairness bound of the
    queues allows before it.  For a task that is not critical, the bound needs
    the CPU to have no critical tasks meanwhile. *)
Theorem wake_is_polled n ls0 k w id p cpu x ls k' :
  work_steal = false -> Z.of_nat n <= 64 -> Z.of_nat (length ls0) + Z.of_nat (length ls) < 2 ^ 56 ->
  krun (Kernel_new n) ls0 = Ret (Some k) ->
  w ∈ k_wakers k -> unpack w = (id, p, cpu) -> k_cpus k !! Z.to_nat cpu = Some x ->
  krun k (LWake w :: ls) = Ret (Some k') ->
  p = Critical \/ no_critical (Z.to_nat cpu) k (LWake w :: ls) ->
  rq_wait (ready_queues (c_ex x)) p (length (rq_queue (ready_queues (c_ex x)) p)) + 1 + taking (c_phase x)
    <= Z.of_nat (run_takes (Z.to_nat cpu) k (LWake w :: ls)) ->
  poll_starts (Z.to_nat cpu) id k (LWake w :: ls) \/ id ∈ k_done k'.
Proof.
  intros Hws Hn Hlen Hr0 Hw Hu Hx Hr Hc Hb.
  destruct (stays_krun ls0 (Kernel_new n) k Hws (stays_new n) (kinv_new n)) as (Hs & Hi & Hl & Hnx);
    [simpl; by rewrite length_replicate|simpl; lia|done|]. simpl in Hl, Hnx. rewrite length_replicate in Hl.
  assert (kstep k (LWake w) = Ret (wake_by_ref k w)) as Hk1 by (simpl; by rewrite bool_decide_eq_true_2).
  unfold wake_by_ref in Hk1. rewrite Hu, Hx in Hk1.
  set (y := set_ex x (ex_push (c_ex x) p id)) in *. set (k1 := set_cpu k (Z.to_nat cpu) y) in *.
  cbn [krun] in Hr. rewrite Hk1 in Hr. simpl in Hr.
  destruct (polled_within ls k1 k' (Z.to_nat cpu) y p id
    (rq_wait (ready_queues (c_ex x)) p (length (rq_queue (ready_queues (c_ex x)) p)) + 1 + taking (c_phase x)))
    as [H|H]; try done.
  - by eapply stays_kstep; eauto; lia.
  - by destruct (wp_use _ _ _ (kinv_kstep k (LWake w) Hi ltac:(ulia)) Hk1 k1 eq_refl).
  - simpl. rewrite length_insert. lia.
  - simpl. lia.
  - destruct Hc as [?|[_ Hc]]; [by left|right]. cbn [no_critical] in Hc. by rewrite Hk1 in Hc.
  - simpl. apply list_lookup_insert_eq. by eapply lookup_lt_Some.
  - right. exists (length (rq_queue (ready_queues (c_ex x)) p)). destruct p; simpl; split;
      try (rewrite lookup_app_r, Nat.sub_diag by done; done); done.
  - etrans; [exact Hb|]. cbn [run_takes]. rewrite Hk1. simpl. done.
  - left. cbn [poll_starts]. right. by rewrite Hk1.
  - by right.
Qed.

End Executor.

Arguments label : clear implicits.
Arguments Kernel : clear implicits.

(** A run of one CPU: a task is spawned, polled, left pending; the CPU halts. *)
Definition steps_of {F} (c : nat) (n : nat) : list (label F) := replicate n (LRun c 0 true true).

Definition sleeper : list (label unit) :=
  [LSpawn 0 tt (TaskMeta_new 1); LSpawnPush 0] ++ steps_of 0 3 ++ [LPollEnd 0 (Some tt)] ++ steps_of 0 3.

Definition run_from {F} (ws : bool) (k : Kernel F) (ls : list (label F)) : Kernel F :=
  match krun ws k ls with Ret (Some k') => k' | _ => k end.

Lemma executor_ownership_witness :
  exists o, krun (F := unit) true (Kernel_new 2) sleeper = Ret o /\
    forall k, o = Some k -> places k ++ k_done k ≡ₚ seqZ 0 (k_next_task_id k).
Proof. apply (executor_ownership true 2 sleeper). by vm_compute. Defined.

Lemma wake_is_polled_witness :
  poll_starts false 0 0 (run_from false (Kernel_new 1) sleeper)
    (LWake (task_waker 0 0 Normal) :: LIrq 0 :: steps_of 0 3) \/
  0 ∈ k_done (run_from false (Kernel_new 1)
    (sleeper ++ LWake (task_waker 0 0 Normal) :: LIrq 0 :: steps_of 0 3)).
Proof.
  eapply (wake_is_polled false 1 sleeper (run_from false (Kernel_new 1) sleeper) (task_waker 0 0 Normal) 0 Normal 0);
    [done|done|by vm_compute|by vm_compute|vm_compute; set_solver|by vm_compute|by vm_compute|by vm_compute| |by vm_compute].
  right. vm_compute. split_and!; try done; intros ? [= <-]; done.
Defined.

(** Two tasks run on CPU 0 and wait; both are woken, CPU 1 steals task 1,
    polls it, and it waits again. *)
Definition migration : list (label unit) :=
  [LSpawn 0 tt (TaskMeta_new 1); LSpawnPush 0; LSpawn 0 tt (TaskMeta_new 2); LSpawnPush 0] ++
  steps_of 0 3 ++ [LPollEnd 0 (Some tt)] ++ steps_of 0 3 ++ [LPollEnd 0 (Some tt)] ++ steps_of 0 5 ++
  [LWake (task_waker 0 0 Normal); LWake (task_waker 0 1 Normal)] ++
  steps_of 1 2 ++ [LRun 1 1 true true] ++ steps_of 1 6 ++ [LPollEnd 1 (Some tt)] ++ steps_of 1 5 ++
  [LIrq 0] ++ steps_of 0 3 ++ [LPollEnd 0 (Some tt)] ++ steps_of 0 5.

(** With work stealing a wakeup can be lost.  A waker names the CPU its task
    was polled on.  After the task has been stolen, a waker it left behind
    queues it on its old CPU, which does not have it and drops the wakeup: the
    task waits on its new CPU, and both CPUs are idle with empty queues. *)
Theorem stolen_task_wake_lost :
  exists (k k' : Kernel unit) w x y,
    krun true (Kernel_new 2) migration = Ret (Some k) /\
    w ∈ k_wakers k /\ unpack w = (1, Normal, 0) /\
    krun true k (LWake w :: LIrq 0 :: steps_of 0 8) = Ret (Some k') /\
    k_cpus k' = [x; y] /\ k_cpus k !! 1%nat = Some y /\ 1 ∈ cpu_places y /\
    c_phase x = Halt /\ c_phase y = Halt /\
    has_ready (ready_queues (c_ex x)) = false /\ has_ready (ready_queues (c_ex y)) = false.
Proof.
  exists (run_from true (Kernel_new 2) migration),
    (run_from true (Kernel_new 2) (migration ++ LWake (task_waker 0 1 Normal) :: LIrq 0 :: steps_of 0 8)),
    (task_waker 0 1 Normal). vm_compute.
  eexists _, _. split_and!; try done; set_solver.
Qed.
