(* ===== verification/WaitQueue.v ===== *)
(** * Wait queues

    [kernel/core/src/sync/waitqueue.rs], with 32 places in a vector of fixed
    capacity, and [kernel/core/src/sync/heap_waitqueue.rs], unbounded.  Each
    operation is one critical section of the queue's lock; the wakers it fires
    after the lock is released are returned, in the order they fire. *)

From S2P Require Import Prelude Extern Sched.

(** ** The fixed-capacity queue *)

Section WaitQueue.
Definition MAX_WAITERS : Z := 32.

Context {V : Type} `{AV : !ArrayVec Z V MAX_WAITERS}.

Record WaitQueue : Type := mkWaitQueue { wq_waiters : V }.

Definition WaitQueue_new : WaitQueue := mkWaitQueue av_new.

Definition wq_register_waker (self : WaitQueue) (waker : Z) : exec (WaitQueue * bool) :=
  if av_len (wq_waiters self) <? MAX_WAITERS then
    waiters ← av_push (wq_waiters self) waker;
    Ret (mkWaitQueue waiters, true)
  else Ret (self, false).

Definition wq_wake_one (self : WaitQueue) : exec (WaitQueue * list Z) :=
  if av_len (wq_waiters self) =? 0 then Ret (self, []) else
  '(waiters, waker) ← av_swap_remove (wq_waiters self) 0;
  Ret (mkWaitQueue waiters, [waker]).

(** Pop everything from one vector into another. *)
Fixpoint drain_into (fuel : nat) (waiters temp : V) : exec (V * V) :=
  match fuel with
  | O => Panic
  | S fuel =>
      match av_pop waiters with
      | (waiters, Some w) => temp ← av_push temp w; drain_into fuel waiters temp
      | (waiters, None) => Ret (waiters, temp)
      end
  end.

Fixpoint drain_wake (fuel : nat) (temp : V) : exec (list Z) :=
  match fuel with
  | O => Panic
  | S fuel =>
      match av_pop temp with
      | (temp, Some w) => ws ← drain_wake fuel temp; Ret (w :: ws)
      | (_, None) => Ret []
      end
  end.

(** One more iteration than the vectors have places. *)
Definition wq_fuel : nat := S (Z.to_nat MAX_WAITERS).

Definition wq_wake_all (self : WaitQueue) : exec (WaitQueue * list Z) :=
  '(waiters, temp) ← drain_into wq_fuel (wq_waiters self) av_new;
  ws ← drain_wake wq_fuel temp;
  Ret (mkWaitQueue waiters, ws).

(** The future of [wait]: its flag, and one poll of it.  [true] is [Ready]. *)
Record WaitFuture : Type := mkWaitFuture { wf_registered : bool }.

Definition wq_wait : WaitFuture := mkWaitFuture false.

Definition WaitFuture_poll (self : WaitFuture) (queue : WaitQueue) (waker : Z)
    : exec (WaitFuture * WaitQueue * bool) :=
  if wf_registered self then Ret (self, queue, true) else
  let self := mkWaitFuture true in
  if av_len (wq_waiters queue) <? MAX_WAITERS then
    waiters ← av_push (wq_waiters queue) waker;
    Ret (self, mkWaitQueue waiters, false)
  else Ret (self, queue, false).

(** ** What the operations do to the list of waiters *)

Definition wq_list (self : WaitQueue) : list Z := av_as_slice (wq_waiters self).

Lemma wp_register_waker self w :
  Z.of_nat (length (wq_list self)) <= MAX_WAITERS ->
  wp (wq_register_waker self w) (fun '(self', b) =>
    b = (Z.of_nat (length (wq_list self)) <? MAX_WAITERS) /\
    wq_list self' = if b then wq_list self ++ [w] else wq_list self).
Proof.
  intros Hl. unfold wq_register_waker, av_len. fold (wq_list self).
  destruct (Z.ltb_spec (Z.of_nat (length (wq_list self))) MAX_WAITERS); [|by apply wp_ret].
  wp_step. eapply wp_mono; [by apply av_push_spec|]. intros v Hv. by wp_steps.
Qed.

(** The last waiter takes the place of the one woken. *)
Lemma wp_wake_one self :
  wp (wq_wake_one self) (fun '(self', ws) =>
    match wq_list self with
    | [] => ws = [] /\ wq_list self' = []
    | [w] => ws = [w] /\ wq_list self' = []
    | w :: rest => ws = [w] /\ exists z l, rest = l ++ [z] /\ wq_list self' = z :: l
    end).
Proof.
  unfold wq_wake_one, av_len. fold (wq_list self).
  destruct (wq_list self) as [|w rest] eqn:E; [simpl; by apply wp_ret|]. simpl.
  destruct (last (wq_list self)) as [z|] eqn:Hz; [|by rewrite E, last_None in Hz].
  wp_step. eapply wp_mono; [apply (av_swap_remove_spec _ 0 w z); [done| |done]|].
  { fold (wq_list self). by rewrite E. }
  intros [v x] [-> Hv]. wp_steps. fold (wq_list self) in Hv. rewrite E in Hv, Hz. simpl in Hv.
  destruct rest as [|y rest]; [done|]. split; [done|].
  destruct (exists_last (l := y :: rest)) as (l & u & Hlu); [done|]. rewrite Hlu in *.
  exists u, l. split; [done|]. unfold wq_list. simpl. rewrite Hv, length_app, Nat.add_1_r. simpl.
  rewrite app_comm_cons, last_snoc in Hz. by simplify_eq; rewrite take_app_length.
Qed.

Lemma wp_drain_into fuel waiters temp :
  (length (av_as_slice waiters) < fuel)%nat ->
  Z.of_nat (length (av_as_slice temp)) + Z.of_nat (length (av_as_slice waiters)) <= MAX_WAITERS ->
  wp (drain_into fuel waiters temp) (fun '(w', t') =>
    av_as_slice w' = [] /\ av_as_slice t' = av_as_slice temp ++ reverse (av_as_slice waiters)).
Proof.
  revert waiters temp. induction fuel as [|fuel IH]; intros waiters temp Hf Hn; [lia|]. simpl.
  pose proof (av_pop_spec waiters) as [H1 H2]. destruct (av_pop waiters) as [w' o]. simpl in H1, H2.
  set (l := av_as_slice waiters) in *. destruct l as [|x l _] using rev_ind.
  { simpl in *. subst o. apply wp_ret. by rewrite app_nil_r. }
  rewrite length_app in *. simpl in *. rewrite Nat.add_1_r in *. simpl in *.
  rewrite take_app_length in H1. rewrite lookup_app_r, Nat.sub_diag in H2 by done. simpl in H2. subst o.
  wp_step. eapply wp_mono; [apply av_push_spec; lia|]. intros t1 Ht1.
  eapply wp_mono; [apply IH|]; rewrite ?H1, ?Ht1, ?length_app; simpl; [lia|lia|].
  intros [w2 t2] [? ->]. split; [done|]. by rewrite reverse_app, <- app_assoc.
Qed.

Lemma wp_drain_wake fuel temp :
  (length (av_as_slice temp) < fuel)%nat ->
  wp (drain_wake fuel temp) (eq (reverse (av_as_slice temp))).
Proof.
  revert temp. induction fuel as [|fuel IH]; intros temp Hf; [lia|]. simpl.
  pose proof (av_pop_spec temp) as [H1 H2]. destruct (av_pop temp) as [t' o]. simpl in H1, H2.
  set (l := av_as_slice temp) in *. destruct l as [|x l _] using rev_ind.
  { simpl in *. subst o. by apply wp_ret. }
  rewrite length_app in *. simpl in *. rewrite Nat.add_1_r in *. simpl in *.
  rewrite take_app_length in H1. rewrite lookup_app_r, Nat.sub_diag in H2 by done. simpl in H2. subst o.
  wp_step. eapply wp_mono; [apply IH; rewrite H1; lia|]. intros ws <-. wp_steps. by rewrite reverse_app, H1.
Qed.

Lemma wp_wake_all self :
  Z.of_nat (length (wq_list self)) <= MAX_WAITERS ->
  wp (wq_wake_all self) (fun '(self', ws) => wq_list self' = [] /\ ws = wq_list self).
Proof.
  intros Hl. unfold wq_wake_all. unfold wq_list in *. wp_step.
  eapply wp_mono; [apply wp_drain_into; rewrite ?av_new_spec; unfold wq_fuel, MAX_WAITERS in *; simpl; lia|].
  intros [w t] [Hw Ht]. rewrite av_new_spec in Ht. simpl in Ht. wp_step.
  eapply wp_mono; [apply wp_drain_wake; rewrite Ht, length_reverse; unfold wq_fuel, MAX_WAITERS in *; lia|].
  intros ws <-. wp_steps. split; [done|]. by rewrite Ht, reverse_involutive.
Qed.

End WaitQueue.

Arguments WaitQueue : clear implicits.

(** ** The unbounded queue *)

Definition HeapWaitQueue : Type := list Z.

Definition HeapWaitQueue_new : HeapWaitQueue := [].

Definition heap_register_waker (waiters : HeapWaitQueue) (waker : Z) : HeapWaitQueue :=
  if existsb (fun w => will_wake w waker) waiters then waiters else waiters ++ [waker].

Definition heap_wake_one (waiters : HeapWaitQueue) : HeapWaitQueue * list Z :=
  match waiters with
  | [] => ([], [])
  | w :: waiters => (waiters, [w])
  end.

Definition heap_wake_all (waiters : HeapWaitQueue) : HeapWaitQueue * list Z := ([], waiters).

Definition HeapWaitFuture_poll (registered : bool) (waiters : HeapWaitQueue) (waker : Z)
    : bool * HeapWaitQueue * bool :=
  if registered then (true, waiters, true) else (true, waiters ++ [waker], false).

Lemma heap_register_spec waiters w :
  w ∈ heap_register_waker waiters w /\
  (forall v, v ∈ heap_register_waker waiters w <-> v ∈ waiters \/ v = w) /\
  (NoDup waiters -> NoDup (heap_register_waker waiters w)).
Proof.
  unfold heap_register_waker. destruct (existsb _ waiters) eqn:E.
  - apply existsb_exists in E as (x & Hx & Hw). unfold will_wake in Hw. apply Z.eqb_eq in Hw as ->.
    apply list_elem_of_In in Hx. set_solver.
  - split_and!; [set_solver..|]. intros Hn. apply NoDup_app. split_and!; [done| |by apply NoDup_singleton].
    intros x Hx ->%list_elem_of_singleton. apply not_true_iff_false in E. apply E. apply existsb_exists.
    exists w. split; [by apply list_elem_of_In|]. unfold will_wake. by apply Z.eqb_refl.
Qed.

(** ** Properties *)

(** Waking all wakes exactly the registered wakers, in the order they
    registered, and leaves the queue empty, in any queue the operations build. *)
Theorem wait_queue_wake_all {V} `{AV : !ArrayVec Z V MAX_WAITERS} (self : WaitQueue V) :
  Z.of_nat (length (wq_list self)) <= MAX_WAITERS ->
  exists self', wq_wake_all self = Ret (self', wq_list self) /\ wq_list self' = [].
Proof.
  intros Hl. pose proof (wp_wake_all self Hl) as H. apply wp_exists in H as ([self' ws] & -> & H & ->).
  by exists self'.
Qed.

Lemma wait_queue_wake_all_witness :
  exists self' : WaitQueue (list Z), wq_wake_all (mkWaitQueue [4; 5; 6]) = Ret (self', [4; 5; 6]) /\ wq_list self' = [].
Proof. exact (wait_queue_wake_all (AV := list_ArrayVec MAX_WAITERS) (mkWaitQueue [4; 5; 6]) ltac:(by vm_compute)). Defined.

(** A client that wakes one waiter, which then waits again, [n] times. *)
Fixpoint handover {V} `{AV : !ArrayVec Z V MAX_WAITERS} (n : nat) (self : WaitQueue V)
    : exec (WaitQueue V * list Z) :=
  match n with
  | O => Ret (self, [])
  | S n =>
      '(self, ws) ← wq_wake_one self;
      match ws with
      | [w] => '(self, _) ← wq_register_waker self w;
               '(self, ws) ← handover n self;
               Ret (self, w :: ws)
      | _ => Ret (self, [])
      end
  end.

Lemma handover_starves {V} `{AV : !ArrayVec Z V MAX_WAITERS} (self : WaitQueue V) (a b c : Z) (n : nat) :
  wq_list self = [a; b; c] -> b <> a -> b <> c ->
  wp (handover n self) (fun '(self', ws) => length ws = n /\ (b ∉ ws) /\ b ∈ wq_list self').
Proof.
  revert self a c. induction n as [|n IH]; intros self a c Hl Ha Hc; simpl.
  { apply wp_ret. rewrite Hl. set_solver. }
  wp_step. eapply wp_mono; [apply wp_wake_one|]. rewrite Hl. intros [s1 ws1] (-> & z & l & Hz & Hl1).
  destruct l as [|y l]; [by simplify_list_eq|]. destruct l as [|? [|??]]; simplify_list_eq.
  wp_step. eapply wp_mono; [apply wp_register_waker; by rewrite Hl1|]. rewrite Hl1. intros [s2 b2] [-> Hl2].
  wp_step. eapply wp_mono; [apply (IH s2 z a); done|]. intros [s3 ws] (H1 & H2 & H3). wp_steps.
  split_and!; [simpl; lia|set_solver|done].
Qed.

(** [wake_one] is documented as first-in first-out and is not: of three tasks
    that take turns on the queue, the second is never woken, however often the
    others are. *)
Theorem wake_one_starves {V} `{AV : !ArrayVec Z V MAX_WAITERS} (self : WaitQueue V) (a b c : Z) (n : nat) :
  wq_list self = [a; b; c] -> b <> a -> b <> c ->
  exists self' ws, handover n self = Ret (self', ws) /\ length ws = n /\ (b ∉ ws) /\ b ∈ wq_list self'.
Proof.
  intros Hl Ha Hc. apply handover_starves with (b := b) (n := n) in Hl as H; [|done..].
  apply wp_exists in H as ([self' ws] & -> & H). by exists self', ws.
Qed.

Lemma wake_one_starves_witness :
  exists self' ws, handover 5 (mkWaitQueue [7; 8; 9]) = Ret (self', ws) /\ length ws = 5%nat /\ (8 ∉ ws) /\ 8 ∈ wq_list self'.
Proof. apply (wake_one_starves (mkWaitQueue [7; 8; 9]) 7 8 9); [done|lia|lia]. Defined.

(** A future that waits on a full queue is told to wait and is not in the
    queue: nothing will wake it. *)
Theorem full_queue_wait_lost {V} `{AV : !ArrayVec Z V MAX_WAITERS} (queue : WaitQueue V) (waker : Z) :
  Z.of_nat (length (wq_list queue)) = MAX_WAITERS ->
  WaitFuture_poll wq_wait queue waker = Ret (mkWaitFuture true, queue, false).
Proof.
  intros Hl. unfold WaitFuture_poll, av_len. fold (wq_list queue). simpl. rewrite Hl. done.
Qed.

Lemma full_queue_wait_lost_witness :
  WaitFuture_poll wq_wait (mkWaitQueue (replicate 32 1)) 2 =
  Ret (mkWaitFuture true, mkWaitQueue (replicate 32 1), false).
Proof. apply (full_queue_wait_lost (mkWaitQueue (replicate 32 1)) 2). reflexivity. Defined.
