(* ===== verification/Pipe.v ===== *)
(** * Pipes (kernel/ipc/src/pipe.rs)

    The shared state of a pipe and the code of its two ends, and a system of
    tasks that use one pipe.  A read or write is an asynchronous function: its
    pieces between two lock operations are the steps of a task, so that tasks
    on different CPUs interleave between them.  A task that was told to wait is
    polled again once a waker of it has fired (or for a reason of its own). *)

From S2P Require Import Prelude Std Ring Sched WaitQueue FsTypes.

Definition PIPE_BUF_SIZE : Z := 64 * 1024.

Record PipeInner : Type := mkPipeInner {
  p_buffer : CircularBuffer;
  p_read_wq : HeapWaitQueue;
  p_write_wq : HeapWaitQueue;
  p_readers : Z;
  p_writers : Z;
}.

Definition pipe : PipeInner :=
  mkPipeInner (CircularBuffer_new PIPE_BUF_SIZE) HeapWaitQueue_new HeapWaitQueue_new 1 1.

Definition set_buffer (p : PipeInner) (b : CircularBuffer) : PipeInner :=
  mkPipeInner b (p_read_wq p) (p_write_wq p) (p_readers p) (p_writers p).

Definition set_read_wq (p : PipeInner) (q : HeapWaitQueue) : PipeInner :=
  mkPipeInner (p_buffer p) q (p_write_wq p) (p_readers p) (p_writers p).

Definition set_write_wq (p : PipeInner) (q : HeapWaitQueue) : PipeInner :=
  mkPipeInner (p_buffer p) (p_read_wq p) q (p_readers p) (p_writers p).

(** ** The reader's end *)

(** The two statements of [PipeReader::drop]; [fetch_sub] wraps. *)
Definition PipeReader_drop_count (p : PipeInner) : PipeInner :=
  mkPipeInner (p_buffer p) (p_read_wq p) (p_write_wq p) (wrapping_sub64 (p_readers p) 1) (p_writers p).

Definition PipeReader_drop_wake (p : PipeInner) : PipeInner * list Z :=
  let '(q, ws) := heap_wake_all (p_write_wq p) in (set_write_wq p q, ws).

Definition PipeReader_size (p : PipeInner) : Z := cb_len (p_buffer p).

(** The closure polled by [read]: register, then check. *)
Definition reader_register (p : PipeInner) (waker : Z) : PipeInner :=
  set_read_wq p (heap_register_waker (p_read_wq p) waker).

Definition reader_ready (p : PipeInner) : bool :=
  negb (cb_is_empty (p_buffer p)) || (p_writers p =? 0).

Inductive take_result : Type := Took (n : Z) (buf : list Z) | Eof | Retry.

(** The part of [read] under the lock of the buffer. *)
Definition reader_take (p : PipeInner) (buf : list Z) : exec (PipeInner * take_result) :=
  if negb (cb_is_empty (p_buffer p)) then
    '(b, buf, n) ← CircularBuffer_read (p_buffer p) buf;
    Ret (set_buffer p b, Took n buf)
  else if p_writers p =? 0 then Ret (p, Eof)
  else Ret (p, Retry).

Definition reader_wake (p : PipeInner) : PipeInner * list Z :=
  let '(q, ws) := heap_wake_one (p_write_wq p) in (set_write_wq p q, ws).

Definition PipeReader_poll_readiness (p : PipeInner) (waker : option Z) : PipeInner * Z :=
  let p := match waker with Some w => reader_register p w | None => p end in
  let events := 0 in
  let events := if negb (cb_is_empty (p_buffer p)) then Z.lor events POLLIN else events in
  let events := if p_writers p =? 0 then Z.lor (Z.lor events POLLHUP) POLLIN else events in
  (p, events).

(** ** The writer's end *)

Definition PipeWriter_drop_count (p : PipeInner) : PipeInner :=
  mkPipeInner (p_buffer p) (p_read_wq p) (p_write_wq p) (p_readers p) (wrapping_sub64 (p_writers p) 1).

Definition PipeWriter_drop_wake (p : PipeInner) : PipeInner * list Z :=
  let '(q, ws) := heap_wake_all (p_read_wq p) in (set_read_wq p q, ws).

Definition writer_register (p : PipeInner) (waker : Z) : PipeInner :=
  set_write_wq p (heap_register_waker (p_write_wq p) waker).

Definition writer_ready (p : PipeInner) : bool :=
  (p_readers p =? 0) || negb (cb_is_full (p_buffer p)).

Inductive put_result : Type := Put (n : Z) | Broken | PutRetry.

Definition writer_put (p : PipeInner) (buf : list Z) : exec (PipeInner * put_result) :=
  if p_readers p =? 0 then Ret (p, Broken)
  else if negb (cb_is_full (p_buffer p)) then
    '(b, n) ← CircularBuffer_write (p_buffer p) buf;
    Ret (set_buffer p b, Put n)
  else Ret (p, PutRetry).

Definition writer_wake (p : PipeInner) : PipeInner * list Z :=
  let '(q, ws) := heap_wake_one (p_read_wq p) in (set_read_wq p q, ws).

Definition PipeWriter_poll_readiness (p : PipeInner) (waker : option Z) : PipeInner * Z :=
  let p := match waker with Some w => writer_register p w | None => p end in
  let events := 0 in
  let events := if negb (cb_is_full (p_buffer p)) then Z.lor events POLLOUT else events in
  let events := if p_readers p =? 0 then Z.lor events POLLERR else events in
  (p, events).

(** The operations an end does not have. *)
Definition PipeReader_write : result Z FsError := Err NotSupported.
Definition PipeWriter_read : result Z FsError := Err NotSupported.

(** ** Tasks that share a pipe *)

(** Where a task is: between calls ([Idle], with the last call's result), in
    [read] or [write] (about to register, about to check, told to wait, about
    to take the lock, about to wake the other side), or dropping its end. *)
Inductive ptask : Type :=
  | Idle (last : option (result Z FsError))
  | RReg (buf : list Z)
  | RChk (buf : list Z)
  | RPend (buf : list Z)
  | RTake (buf : list Z)
  | RWake (buf : list Z) (n : Z)
  | WReg (buf : list Z)
  | WChk (buf : list Z)
  | WPend (buf : list Z)
  | WPut (buf : list Z)
  | WWake (n : Z)
  | RDrop
  | WDrop
  | Gone.

(** [y_notified]: the tasks a waker has fired for since their last poll;
    [y_in] and [y_out]: the bytes accepted from writers and handed to readers;
    [y_eof]: whether a reader has been told the end of the file. *)
Record PipeSys : Type := mkPipeSys {
  y_pipe : PipeInner;
  y_tasks : gmap Z ptask;
  y_notified : gset Z;
  y_in : list Z;
  y_out : list Z;
  y_eof : bool;
}.

Section Tasks.
(** The tasks that hold the reader's and the writer's end, and their wakers. *)
Context (rtasks wtasks : list Z) (waker : Z -> Z).

Definition goto (y : PipeSys) (t : Z) (p : PipeInner) (s : ptask) : PipeSys :=
  mkPipeSys p (<[t := s]> (y_tasks y)) (y_notified y) (y_in y) (y_out y) (y_eof y).

(** Fire wakers: each names its task. *)
Definition notify (y : PipeSys) (ws : list Z) : PipeSys :=
  mkPipeSys (y_pipe y) (y_tasks y) (list_to_set ((fun w => (unpack w).1.1) <$> ws) ∪ y_notified y)
    (y_in y) (y_out y) (y_eof y).

Definition clear_notified (y : PipeSys) (t : Z) : PipeSys :=
  mkPipeSys (y_pipe y) (y_tasks y) (y_notified y ∖ {[t]}) (y_in y) (y_out y) (y_eof y).

(** The next step of a task in [read], or dropping its reader's end. *)
Definition reader_step (y : PipeSys) (t : Z) (s : ptask) : exec (option PipeSys) :=
  let p := y_pipe y in
  match s with
  | RReg buf => Ret (Some (goto y t (reader_register p (waker t)) (RChk buf)))
  | RChk buf => Ret (Some (goto y t p (if reader_ready p then RTake buf else RPend buf)))
  | RPend buf =>
      if bool_decide (t ∈ y_notified y) then Ret (Some (goto (clear_notified y t) t p (RReg buf))) else Ret None
  | RTake buf =>
      '(p, r) ← reader_take p buf;
      match r with
      | Took n buf =>
          Ret (Some (mkPipeSys p (<[t := RWake buf n]> (y_tasks y)) (y_notified y) (y_in y)
                       (y_out y ++ take (Z.to_nat n) buf) (y_eof y)))
      | Eof => Ret (Some (mkPipeSys p (<[t := Idle (Some (Ok 0))]> (y_tasks y)) (y_notified y) (y_in y) (y_out y) true))
      | Retry => Ret (Some (goto y t p (RReg buf)))
      end
  | RWake buf n =>
      let '(p, ws) := reader_wake p in Ret (Some (notify (goto y t p (Idle (Some (Ok n)))) ws))
  | RDrop => let '(p, ws) := PipeReader_drop_wake p in Ret (Some (notify (goto y t p Gone) ws))
  | _ => Ret None
  end.

(** The next step of a task in [write], or dropping its writer's end. *)
Definition writer_step (y : PipeSys) (t : Z) (s : ptask) : exec (option PipeSys) :=
  let p := y_pipe y in
  match s with
  | WReg buf => Ret (Some (goto y t (writer_register p (waker t)) (WChk buf)))
  | WChk buf => Ret (Some (goto y t p (if writer_ready p then WPut buf else WPend buf)))
  | WPend buf =>
      if bool_decide (t ∈ y_notified y) then Ret (Some (goto (clear_notified y t) t p (WReg buf))) else Ret None
  | WPut buf =>
      '(p, r) ← writer_put p buf;
      match r with
      | Put n =>
          Ret (Some (mkPipeSys p (<[t := WWake n]> (y_tasks y)) (y_notified y)
                       (y_in y ++ take (Z.to_nat n) buf) (y_out y) (y_eof y)))
      | Broken => Ret (Some (goto y t p (Idle (Some (Err BrokenPipe)))))
      | PutRetry => Ret (Some (goto y t p (WReg buf)))
      end
  | WWake n =>
      let '(p, ws) := writer_wake p in Ret (Some (notify (goto y t p (Idle (Some (Ok n)))) ws))
  | WDrop => let '(p, ws) := PipeWriter_drop_wake p in Ret (Some (notify (goto y t p Gone) ws))
  | _ => Ret None
  end.

Definition pipe_step (y : PipeSys) (t : Z) : exec (option PipeSys) :=
  match y_tasks y !! t with
  | Some s =>
      match s with
      | RReg _ | RChk _ | RPend _ | RTake _ | RWake _ _ | RDrop => reader_step y t s
      | _ => writer_step y t s
      end
  | None => Ret None
  end.

Definition is_gone (y : PipeSys) (t : Z) : bool :=
  match y_tasks y !! t with Some Gone => true | _ => false end.

(** The ends are shared by reference count: the last task to let go drops. *)
Definition pipe_release (y : PipeSys) (t : Z) : option PipeSys :=
  match y_tasks y !! t with
  | Some (Idle _) =>
      let last ts := forallb (fun u => (u =? t) || is_gone y u) ts in
      if bool_decide (t ∈ rtasks) then
        if last rtasks then Some (goto y t (PipeReader_drop_count (y_pipe y)) RDrop)
        else Some (goto y t (y_pipe y) Gone)
      else
        if last wtasks then Some (goto y t (PipeWriter_drop_count (y_pipe y)) WDrop)
        else Some (goto y t (y_pipe y) Gone)
  | _ => None
  end.

Inductive plabel : Type :=
  | PStep (t : Z)
  | PRead (t : Z) (buf : list Z)
  | PWrite (t : Z) (buf : list Z)
  | PRelease (t : Z)
  | PPoll (t : Z)
  | PWakeUp (t : Z).

Definition pipe_do (y : PipeSys) (l : plabel) : exec (option PipeSys) :=
  match l with
  | PStep t => pipe_step y t
  | PRead t buf =>
      match y_tasks y !! t with
      | Some (Idle _) => if bool_decide (t ∈ rtasks) then Ret (Some (goto y t (y_pipe y) (RReg buf))) else Ret None
      | _ => Ret None
      end
  | PWrite t buf =>
      match y_tasks y !! t with
      | Some (Idle _) => if bool_decide (t ∈ wtasks) then Ret (Some (goto y t (y_pipe y) (WReg buf))) else Ret None
      | _ => Ret None
      end
  | PRelease t => Ret (pipe_release y t)
  | PPoll t =>
      match y_tasks y !! t with
      | Some (Idle r) =>
          let '(p, _) := if bool_decide (t ∈ rtasks) then PipeReader_poll_readiness (y_pipe y) (Some (waker t))
                         else PipeWriter_poll_readiness (y_pipe y) (Some (waker t)) in
          Ret (Some (goto y t p (Idle r)))
      | _ => Ret None
      end
  | PWakeUp t => Ret (Some (mkPipeSys (y_pipe y) (y_tasks y) ({[t]} ∪ y_notified y) (y_in y) (y_out y) (y_eof y)))
  end.

Fixpoint pipe_run (y : PipeSys) (ls : list plabel) : exec (option PipeSys) :=
  match ls with
  | [] => Ret (Some y)
  | l :: ls =>
      o ← pipe_do y l;
      match o with Some y => pipe_run y ls | None => Ret None end
  end.

Definition pipe_start : PipeSys :=
  mkPipeSys pipe (list_to_map ((fun t => (t, Idle None)) <$> rtasks ++ wtasks)) ∅ [] [] false.

(** ** What holds in every run *)

Definition rstate (s : ptask) : bool :=
  match s with Idle _ | RReg _ | RChk _ | RPend _ | RTake _ | RWake _ _ | RDrop | Gone => true | _ => false end.

Definition wstate (s : ptask) : bool :=
  match s with Idle _ | WReg _ | WChk _ | WPend _ | WPut _ | WWake _ | WDrop | Gone => true | _ => false end.

Definition released (y : PipeSys) (ts : list Z) : Prop :=
  forall t, t ∈ ts -> y_tasks y !! t = Some RDrop \/ y_tasks y !! t = Some WDrop \/ y_tasks y !! t = Some Gone.

Definition stream_ok (y : PipeSys) : Prop :=
  exists q, cb_holds (p_buffer (y_pipe y)) q /\ cb_capacity (p_buffer (y_pipe y)) = PIPE_BUF_SIZE /\
    y_in y = y_out y ++ q /\ (y_eof y = true -> p_writers (y_pipe y) = 0 /\ q = []).

Definition roles_ok (y : PipeSys) : Prop :=
  (forall t s, y_tasks y !! t = Some s -> t ∈ rtasks /\ rstate s = true \/ t ∈ wtasks /\ wstate s = true) /\
  (p_readers (y_pipe y) = 1 \/ p_readers (y_pipe y) = 0 /\ released y rtasks) /\
  (p_writers (y_pipe y) = 1 \/ p_writers (y_pipe y) = 0 /\ released y wtasks).

Definition pipe_inv (y : PipeSys) : Prop := stream_ok y /\ roles_ok y.

(** What a step of task [t] may change, besides the buffer. *)
Lemma roles_set y t s s' p n i o e :
  roles_ok y -> y_tasks y !! t = Some s ->
  t ∈ rtasks /\ rstate s' = true \/ t ∈ wtasks /\ wstate s' = true ->
  (s = RDrop \/ s = WDrop \/ s = Gone -> s' = RDrop \/ s' = WDrop \/ s' = Gone) ->
  p_readers p = p_readers (y_pipe y) -> p_writers p = p_writers (y_pipe y) ->
  roles_ok (mkPipeSys p (<[t := s']> (y_tasks y)) n i o e).
Proof.
  intros (H1 & H2 & H3) Ht Hs Hd Hpr Hpw.
  assert (forall ts, released y ts -> released (mkPipeSys p (<[t := s']> (y_tasks y)) n i o e) ts) as Hrel.
  { intros ts Hrel u Hu. simpl. destruct (decide (u = t)) as [->|Hne].
    - rewrite lookup_insert_eq. specialize (Hrel t Hu). rewrite Ht in Hrel.
      destruct Hd as [Hd|[Hd|Hd]]; [|rewrite Hd; by auto..].
      destruct Hrel as [H|[H|H]]; injection H as H; auto.
    - rewrite lookup_insert_ne by done. by apply Hrel. }
  split_and!; simpl; rewrite ?Hpr, ?Hpw.
  - intros u su. destruct (decide (u = t)) as [->|Hne].
    + rewrite lookup_insert_eq. by intros [= <-].
    + rewrite lookup_insert_ne by done. apply H1.
  - destruct H2 as [?|[? ?]]; auto.
  - destruct H3 as [?|[? ?]]; auto.
Qed.

Lemma roles_goto y t s s' p n i o e :
  roles_ok y -> y_tasks y !! t = Some s ->
  (rstate s = true -> rstate s' = true) -> (wstate s = true -> wstate s' = true) ->
  (s = RDrop \/ s = WDrop \/ s = Gone -> s' = RDrop \/ s' = WDrop \/ s' = Gone) ->
  p_readers p = p_readers (y_pipe y) -> p_writers p = p_writers (y_pipe y) ->
  roles_ok (mkPipeSys p (<[t := s']> (y_tasks y)) n i o e).
Proof.
  intros Hr Ht H1 H2 Hd ??. eapply roles_set; eauto. destruct Hr as (R & _).
  destruct (R t s Ht) as [[? ?]|[? ?]]; auto.
Qed.

Lemma stream_goto y t s p :
  stream_ok y -> p_buffer p = p_buffer (y_pipe y) -> p_writers p = p_writers (y_pipe y) ->
  stream_ok (goto y t p s).
Proof. intros (q & H1 & H2 & H3 & H4) Hb Hw. exists q. simpl. rewrite Hb, Hw. done. Qed.

Lemma pipe_inv_goto y t s s' p :
  pipe_inv y -> y_tasks y !! t = Some s ->
  (rstate s = true -> rstate s' = true) -> (wstate s = true -> wstate s' = true) ->
  (s = RDrop \/ s = WDrop \/ s = Gone -> s' = RDrop \/ s' = WDrop \/ s' = Gone) ->
  p_buffer p = p_buffer (y_pipe y) -> p_readers p = p_readers (y_pipe y) -> p_writers p = p_writers (y_pipe y) ->
  pipe_inv (goto y t p s').
Proof. intros [H1 H2] Ht ??????. split; [by apply stream_goto|by eapply roles_goto]. Qed.

Lemma pipe_inv_notified y n :
  pipe_inv y -> pipe_inv (mkPipeSys (y_pipe y) (y_tasks y) n (y_in y) (y_out y) (y_eof y)).
Proof. done. Qed.

Ltac not_gone := try (by intros [?|[?|?]]).

(** The two steps that move bytes. *)
Lemma wp_reader_take y t buf :
  pipe_inv y -> y_tasks y !! t = Some (RTake buf) ->
  wp (pipe_step y t) (fun o => forall y', o = Some y' -> pipe_inv y').
Proof.
  intros Hi Ht. pose proof Hi as [(q & Hq & Hcap & Hin & Heof) Hr]. unfold pipe_step, reader_step, writer_step. rewrite Ht.
  unfold reader_take, cb_is_empty. wp_step.
  destruct (Z.eqb_spec (cb_count (p_buffer (y_pipe y))) 0) as [Hz|Hz]; simpl.
  - destruct (Z.eqb_spec (p_writers (y_pipe y)) 0) as [Hw|Hw]; wp_steps.
    + intros y' [= <-]. split; [|by eapply roles_goto; try done; not_gone]. exists q. simpl. split_and!; [done|done|done|].
      intros _. split; [done|]. destruct Hq as (_ & Hl & _). destruct q; [done|simpl in *; lia].
    + intros y' [= <-]. eapply pipe_inv_goto; try done; not_gone.
  - wp_step. eapply wp_mono; [by apply wp_cb_read|]. intros [[b buf'] k] (-> & Hb & -> & Hcb). wp_steps.
    intros y' [= <-]. split; [|by eapply roles_goto; try done; not_gone].
    exists (drop (length buf `min` length q)%nat q). simpl. split_and!; [done|congruence| |].
    + rewrite Nat2Z.id, take_app_le, take_take, Nat.min_id, Hin by (rewrite length_take; lia).
      by rewrite <- app_assoc, take_drop.
    + intros He. destruct (Heof He) as [? ->]. split; [done|]. by rewrite drop_nil.
Qed.

Lemma wp_writer_put y t buf :
  pipe_inv y -> y_tasks y !! t = Some (WPut buf) -> t ∈ wtasks ->
  wp (pipe_step y t) (fun o => forall y', o = Some y' -> pipe_inv y').
Proof.
  intros Hi Ht Htw. pose proof Hi as [(q & Hq & Hcap & Hin & Heof) Hr]. unfold pipe_step, reader_step, writer_step. rewrite Ht.
  unfold writer_put. wp_step.
  destruct (Z.eqb_spec (p_readers (y_pipe y)) 0) as [Hz|Hz]; simpl.
  { wp_steps. intros y' [= <-]. eapply pipe_inv_goto; try done; not_gone. }
  destruct (cb_is_full (p_buffer (y_pipe y))); simpl.
  { wp_steps. intros y' [= <-]. eapply pipe_inv_goto; try done; not_gone. }
  wp_step. eapply wp_mono; [by apply wp_cb_write|]. intros [b k] (-> & Hb & Hcb). wp_steps.
  intros y' [= <-]. split; [|by eapply roles_goto; try done; not_gone].
  eexists. simpl. split_and!; [exact Hb|congruence| |].
  - by rewrite Nat2Z.id, Hin, app_assoc.
  - intros He. destruct (Heof He) as [Hw _]. destruct Hr as (_ & _ & [?|[_ Hrel]]); [lia|].
    specialize (Hrel t Htw). rewrite Ht in Hrel. by destruct Hrel as [?|[?|?]].
Qed.

Lemma writer_role y t s :
  pipe_inv y -> y_tasks y !! t = Some s -> rstate s = false -> t ∈ wtasks /\ wstate s = true.
Proof. intros [_ (H1 & _)] Ht Hs. destruct (H1 t s Ht) as [[_ ?]|?]; [congruence|done]. Qed.

Lemma wp_pipe_step y t :
  pipe_inv y -> wp (pipe_step y t) (fun o => forall y', o = Some y' -> pipe_inv y').
Proof.
  intros Hi. destruct (y_tasks y !! t) as [s|] eqn:Ht; [|unfold pipe_step, reader_step, writer_step; rewrite Ht; by apply wp_ret].
  assert (forall p s', (rstate s = true -> rstate s' = true) -> (wstate s = true -> wstate s' = true) ->
    (s = RDrop \/ s = WDrop \/ s = Gone -> s' = RDrop \/ s' = WDrop \/ s' = Gone) ->
    p_buffer p = p_buffer (y_pipe y) -> p_readers p = p_readers (y_pipe y) -> p_writers p = p_writers (y_pipe y) ->
    pipe_inv (goto y t p s')) as Hgo by (intros; by eapply pipe_inv_goto).
  destruct s; try (by apply (wp_reader_take y t buf)); 
    try (apply (wp_writer_put y t buf Hi Ht), (writer_role _ _ _ Hi Ht); done);
    unfold pipe_step, reader_step, writer_step; rewrite Ht.
  - by apply wp_ret.
  - apply wp_ret. intros y' [= <-]. apply Hgo; not_gone; done.
  - apply wp_ret. intros y' [= <-]. apply Hgo; not_gone; by try case_match.
  - case_bool_decide; apply wp_ret; [|done]. intros y' [= <-].
    apply (pipe_inv_goto (clear_notified y t) t (RPend buf)); not_gone; done.
  - unfold reader_wake. destruct (heap_wake_one _) as [q ws]. apply wp_ret. intros y' [= <-].
    apply pipe_inv_notified, Hgo; not_gone; done.
  - apply wp_ret. intros y' [= <-]. apply Hgo; not_gone; done.
  - apply wp_ret. intros y' [= <-]. apply Hgo; not_gone; by try case_match.
  - case_bool_decide; apply wp_ret; [|done]. intros y' [= <-].
    apply (pipe_inv_goto (clear_notified y t) t (WPend buf)); not_gone; done.
  - unfold writer_wake. destruct (heap_wake_one _) as [q ws]. apply wp_ret. intros y' [= <-].
    apply pipe_inv_notified, Hgo; not_gone; done.
  - apply wp_ret. intros y' [= <-]. apply pipe_inv_notified, Hgo; not_gone; auto.
  - apply wp_ret. intros y' [= <-]. apply pipe_inv_notified, Hgo; not_gone; auto.
  - by apply wp_ret.
Qed.

Lemma last_released y t ts s p n i o e :
  s = RDrop \/ s = WDrop ->
  forallb (fun u => (u =? t) || is_gone y u) ts = true ->
  released (mkPipeSys p (<[t := s]> (y_tasks y)) n i o e) ts.
Proof.
  intros Hs Hall u Hu. simpl. rewrite forallb_forall in Hall. specialize (Hall u).
  destruct (decide (u = t)) as [->|Hne].
  - rewrite lookup_insert_eq. destruct Hs as [->|Hs]; [by auto|rewrite Hs; auto].
  - rewrite lookup_insert_ne by done. right; right. rewrite <- list_elem_of_In in Hall. specialize (Hall Hu).
    apply orb_true_iff in Hall as [?%Z.eqb_eq|Hg]; [done|]. unfold is_gone in Hg.
    destruct (y_tasks y !! u) as [[]|]; done.
Qed.

Lemma released_insert y t s ts p n i o e :
  y_tasks y !! t = Some s -> (s = RDrop \/ s = WDrop \/ s = Gone -> False) ->
  released y ts -> forall s', released (mkPipeSys p (<[t := s']> (y_tasks y)) n i o e) ts.
Proof.
  intros Ht Hs Hrel s' u Hu. simpl. specialize (Hrel u Hu). destruct (decide (u = t)) as [->|Hne].
  - exfalso. apply Hs. rewrite Ht in Hrel. by destruct Hrel as [[= ?]|[[= ?]|[= ?]]]; auto.
  - by rewrite lookup_insert_ne by done.
Qed.

Lemma pipe_inv_release y t y' : pipe_inv y -> pipe_release y t = Some y' -> pipe_inv y'.
Proof.
  intros Hi. unfold pipe_release. destruct (y_tasks y !! t) as [[r| | | | | | | | | | | | |]|] eqn:Ht; try done.
  pose proof Hi as [(q & Hq & Hcap & Hin & Heof) (R1 & R2 & R3)].
  assert (forall s', (rstate s' = true -> t ∈ rtasks) -> (rstate s' = false -> t ∈ wtasks /\ wstate s' = true) ->
    forall u su, <[t := s']> (y_tasks y) !! u = Some su ->
      u ∈ rtasks /\ rstate su = true \/ u ∈ wtasks /\ wstate su = true) as Hrole.
  { intros s' Hs1 Hs2 u su. destruct (decide (u = t)) as [->|Hne].
    - rewrite lookup_insert_eq. intros [= <-]. destruct (rstate s') eqn:E; auto.
    - rewrite lookup_insert_ne by done. apply R1. }
  case_bool_decide as Hrt; [destruct (forallb _ rtasks) eqn:Hl|destruct (forallb _ wtasks) eqn:Hl]; intros [= <-].
  - assert (p_readers (y_pipe y) = 1) as Hone.
    { destruct R2 as [?|[_ Hrel]]; [done|]. specialize (Hrel t Hrt). rewrite Ht in Hrel. by destruct Hrel as [?|[?|?]]. }
    split; [by exists q|]. split_and!; [by apply Hrole| |]; simpl; rewrite ?Hone.
    + right. split; [done|]. eapply last_released; eauto.
    + destruct R3 as [?|[? ?]]; [by left|right]. split; [done|]. by eapply released_insert; try done; not_gone.
  - eapply pipe_inv_goto; try done; not_gone.
  - assert (t ∈ wtasks) as Hwt by (destruct (R1 t _ Ht) as [[? _]|[? _]]; done).
    assert (p_writers (y_pipe y) = 1) as Hone.
    { destruct R3 as [?|[_ Hrel]]; [done|]. specialize (Hrel t Hwt). rewrite Ht in Hrel. by destruct Hrel as [?|[?|?]]. }
    split; [exists q; simpl; split_and!; try done|split_and!]; simpl; rewrite ?Hone.
    + intros He. by destruct (Heof He) as [? ->].
    + by apply Hrole.
    + destruct R2 as [?|[? ?]]; [by left|right]. split; [done|]. by eapply released_insert; try done; not_gone.
    + right. split; [done|]. eapply last_released; eauto.
  - eapply pipe_inv_goto; try done; not_gone.
Qed.

Lemma wp_pipe_do y l :
  pipe_inv y -> wp (pipe_do y l) (fun o => forall y', o = Some y' -> pipe_inv y').
Proof.
  intros Hi. pose proof Hi as [_ (R1 & _ & _)]. destruct l as [t|t buf|t buf|t|t|t]; simpl.
  - by apply wp_pipe_step.
  - destruct (y_tasks y !! t) as [[r| | | | | | | | | | | | |]|] eqn:Ht; try by apply wp_ret.
    case_bool_decide as Hrt; apply wp_ret; [|done]. intros y' [= <-]. split; [apply stream_goto; [apply Hi|done|done]|].
    eapply (roles_set y t (Idle r)); [by apply Hi|done|by left|not_gone|done|done].
  - destruct (y_tasks y !! t) as [[r| | | | | | | | | | | | |]|] eqn:Ht; try by apply wp_ret.
    case_bool_decide as Hrt; apply wp_ret; [|done]. intros y' [= <-]. split; [apply stream_goto; [apply Hi|done|done]|].
    eapply (roles_set y t (Idle r)); [by apply Hi|done|by right|not_gone|done|done].
  - apply wp_ret. intros y' Hy. by eapply pipe_inv_release.
  - destruct (y_tasks y !! t) as [[r| | | | | | | | | | | | |]|] eqn:Ht; try by apply wp_ret.
    case_bool_decide; apply wp_ret; intros y' [= <-]; eapply pipe_inv_goto; try done; not_gone.
  - apply wp_ret. by intros y' [= <-].
Qed.

Lemma wp_pipe_run ls y :
  pipe_inv y -> wp (pipe_run y ls) (fun o => forall y', o = Some y' -> pipe_inv y').
Proof.
  revert y. induction ls as [|l ls IH]; intros y Hi; simpl; [apply wp_ret; by intros y' [= <-]|].
  wp_step. eapply wp_mono; [by apply wp_pipe_do|]. intros [y1|] H1; [|by apply wp_ret]. by apply IH, H1.
Qed.

Lemma pipe_inv_start : pipe_inv pipe_start.
Proof.
  split.
  - exists []. split_and!; [by apply cb_new_holds|by vm_compute|done|done].
  - split_and!; [|by left|by left]. intros t s Hs. simpl in Hs. apply elem_of_list_to_map_2 in Hs.
    apply list_elem_of_fmap in Hs as (u & [= -> ->] & Hu). apply elem_of_app in Hu as [?|?]; auto.
Qed.

End Tasks.

(** ** Liveness with one reader and one writer *)

Section Live.
Context (r w : Z) (waker : Z -> Z).
Hypothesis tasks_differ : r <> w.
Hypothesis waker_r : (unpack (waker r)).1.1 = r.
Hypothesis waker_w : (unpack (waker w)).1.1 = w.

(** The other side is about to wake this one. *)
Definition writer_waking (y : PipeSys) : Prop :=
  (exists n, y_tasks y !! w = Some (WWake n)) \/ y_tasks y !! w = Some WDrop.

Definition reader_waking (y : PipeSys) : Prop :=
  (exists buf n, y_tasks y !! r = Some (RWake buf n)) \/ y_tasks y !! r = Some RDrop.

Definition reader_live (y : PipeSys) : Prop :=
  (forall v, v ∈ p_read_wq (y_pipe y) -> v = waker r) /\
  match y_tasks y !! r with
  | Some (RChk _) => waker r ∈ p_read_wq (y_pipe y) \/ r ∈ y_notified y
  | Some (RPend _) => r ∈ y_notified y \/
      waker r ∈ p_read_wq (y_pipe y) /\ (reader_ready (y_pipe y) = false \/ writer_waking y)
  | Some RDrop | Some Gone => p_readers (y_pipe y) = 0
  | _ => True
  end.

Definition writer_live (y : PipeSys) : Prop :=
  (forall v, v ∈ p_write_wq (y_pipe y) -> v = waker w) /\
  match y_tasks y !! w with
  | Some (WChk _) => waker w ∈ p_write_wq (y_pipe y) \/ w ∈ y_notified y
  | Some (WPend _) => w ∈ y_notified y \/
      waker w ∈ p_write_wq (y_pipe y) /\ (writer_ready (y_pipe y) = false \/ reader_waking y)
  | Some WDrop | Some Gone => p_writers (y_pipe y) = 0
  | _ => True
  end.

(** What a step of one side must leave the other. *)
Lemma reader_live_mono y y' :
  reader_live y -> y_tasks y' !! r = y_tasks y !! r -> y_notified y ⊆ y_notified y' ->
  (forall v, v ∈ p_read_wq (y_pipe y') -> v ∈ p_read_wq (y_pipe y)) ->
  (waker r ∈ p_read_wq (y_pipe y) -> waker r ∈ p_read_wq (y_pipe y') \/ r ∈ y_notified y') ->
  (waker r ∈ p_read_wq (y_pipe y) -> reader_ready (y_pipe y) = false \/ writer_waking y ->
     r ∈ y_notified y' \/ reader_ready (y_pipe y') = false \/ writer_waking y') ->
  p_readers (y_pipe y') = p_readers (y_pipe y) -> reader_live y'.
Proof.
  intros [H1 H2] Ht Hn Hq Hq' Hr Hp. split; [auto|]. rewrite Ht.
  destruct (y_tasks y !! r) as [[]|]; try done; try congruence.
  - destruct H2 as [H2|H2]; [by apply Hq'|right; by apply Hn].
  - destruct H2 as [H2|[H2 H3]]; [left; by apply Hn|]. destruct (Hq' H2) as [?|?]; [|by left].
    destruct (Hr H2 H3) as [?|?]; [by left|right; auto].
Qed.

Lemma writer_live_mono y y' :
  writer_live y -> y_tasks y' !! w = y_tasks y !! w -> y_notified y ⊆ y_notified y' ->
  (forall v, v ∈ p_write_wq (y_pipe y') -> v ∈ p_write_wq (y_pipe y)) ->
  (waker w ∈ p_write_wq (y_pipe y) -> waker w ∈ p_write_wq (y_pipe y') \/ w ∈ y_notified y') ->
  (waker w ∈ p_write_wq (y_pipe y) -> writer_ready (y_pipe y) = false \/ reader_waking y ->
     w ∈ y_notified y' \/ writer_ready (y_pipe y') = false \/ reader_waking y') ->
  p_writers (y_pipe y') = p_writers (y_pipe y) -> writer_live y'.
Proof.
  intros [H1 H2] Ht Hn Hq Hq' Hr Hp. split; [auto|]. rewrite Ht.
  destruct (y_tasks y !! w) as [[]|]; try done; try congruence.
  - destruct H2 as [H2|H2]; [by apply Hq'|right; by apply Hn].
  - destruct H2 as [H2|[H2 H3]]; [left; by apply Hn|]. destruct (Hq' H2) as [?|?]; [|by left].
    destruct (Hr H2 H3) as [?|?]; [by left|right; auto].
Qed.

Definition is_waking (s : ptask) : bool :=
  match s with RWake _ _ | RDrop | WWake _ | WDrop => true | _ => false end.

(** A step of the reader that does not touch what the writer waits for. *)
Lemma writer_unmoved y y' s :
  writer_live y -> y_tasks y !! r = Some s -> is_waking s = false ->
  y_tasks y' !! w = y_tasks y !! w -> y_notified y ∖ {[r]} ⊆ y_notified y' ->
  p_write_wq (y_pipe y') = p_write_wq (y_pipe y) -> p_buffer (y_pipe y') = p_buffer (y_pipe y) ->
  p_readers (y_pipe y') = p_readers (y_pipe y) -> p_writers (y_pipe y') = p_writers (y_pipe y) -> writer_live y'.
Proof.
  intros [H1 H2] Hs Hw Ht Hn Hq Hb Hpr Hpw. split; [by rewrite Hq|]. rewrite Ht, Hq, Hpw.
  assert (w ∈ y_notified y -> w ∈ y_notified y') as Hn' by set_solver.
  assert (reader_waking y -> False) as Hno.
  { intros [(buf & n & E)|E]; rewrite Hs in E; injection E as E; by rewrite E in Hw. }
  unfold writer_ready in *. rewrite Hpr, Hb. destruct (y_tasks y !! w) as [[]|]; try done.
  - destruct H2; auto.
  - destruct H2 as [?|[? [?|?]]]; auto. done.
Qed.

Lemma reader_unmoved y y' s :
  reader_live y -> y_tasks y !! w = Some s -> is_waking s = false ->
  y_tasks y' !! r = y_tasks y !! r -> y_notified y ∖ {[w]} ⊆ y_notified y' ->
  p_read_wq (y_pipe y') = p_read_wq (y_pipe y) -> p_buffer (y_pipe y') = p_buffer (y_pipe y) ->
  p_readers (y_pipe y') = p_readers (y_pipe y) -> p_writers (y_pipe y') = p_writers (y_pipe y) -> reader_live y'.
Proof.
  intros [H1 H2] Hs Hw Ht Hn Hq Hb Hpr Hpw. split; [by rewrite Hq|]. rewrite Ht, Hq, Hpr.
  assert (r ∈ y_notified y -> r ∈ y_notified y') as Hn' by set_solver.
  assert (writer_waking y -> False) as Hno.
  { intros [(n & E)|E]; rewrite Hs in E; injection E as E; by rewrite E in Hw. }
  unfold reader_ready in *. rewrite Hpw, Hb. destruct (y_tasks y !! r) as [[]|]; try done.
  - destruct H2; auto.
  - destruct H2 as [?|[? [?|?]]]; auto. done.
Qed.

Lemma register_only v q u : (forall x, x ∈ q -> x = v) -> u ∈ heap_register_waker q v -> u = v.
Proof. intros Hq Hu. apply (heap_register_spec q v) in Hu as [?|?]; auto. Qed.

(** Waking one side of a queue whose wakers are all of task [t]. *)
Lemma wake_one_names q t q' ws :
  (unpack (waker t)).1.1 = t -> (forall v, v ∈ q -> v = waker t) -> heap_wake_one q = (q', ws) ->
  (forall v, v ∈ q' -> v ∈ q) /\ (waker t ∈ q -> t ∈ (list_to_set ((fun w => (unpack w).1.1) <$> ws) : gset Z)).
Proof.
  intros Hw Hq. destruct q as [|v q]; intros [= <- <-]; [split; [done|by intros ?%not_elem_of_nil]|].
  split; [set_solver|]. intros _. apply elem_of_list_to_set, list_elem_of_fmap. exists v.
  rewrite (Hq v), Hw by set_solver. set_solver.
Qed.

Lemma wake_all_names q t :
  (unpack (waker t)).1.1 = t -> waker t ∈ q ->
  t ∈ (list_to_set ((fun w => (unpack w).1.1) <$> q) : gset Z).
Proof. intros Hw Hq. apply elem_of_list_to_set, list_elem_of_fmap. by exists (waker t). Qed.

Definition live (y : PipeSys) : Prop := pipe_inv [r] [w] y /\ reader_live y /\ writer_live y.

Lemma reader_step_live y y' :
  reader_live y -> writer_live y -> pipe_step waker y r = Ret (Some y') ->
  (forall s, y_tasks y !! r = Some s -> rstate s = true) -> reader_live y' /\ writer_live y'.
Proof.
  intros Hr Hw. unfold pipe_step, reader_step, writer_step. destruct (y_tasks y !! r) as [s|] eqn:Hs; [|done]. intros Hk Hst.
  specialize (Hst s eq_refl). pose proof Hr as [R1 R2]. rewrite Hs in R2.
  destruct s; try done; simplify_eq; unfold reader_live.
  - split.
    + simpl. rewrite lookup_insert_eq. split; [intros v; by apply register_only|left; exact (proj1 (heap_register_spec _ _))].
    + eapply (writer_unmoved y); try done; simpl; [by rewrite lookup_insert_ne|set_solver].
  - destruct (reader_ready (y_pipe y)) eqn:Hrd; simplify_eq; (split;
      [simpl; rewrite lookup_insert_eq|eapply (writer_unmoved y); try done; simpl; [by rewrite lookup_insert_ne|set_solver]]).
    + done.
    + split; [done|]. destruct R2; auto.
  - case_bool_decide; simplify_eq. split; [simpl; by rewrite lookup_insert_eq|].
    eapply (writer_unmoved y); try done; simpl; [by rewrite lookup_insert_ne].
  - unfold reader_take in Hk. destruct (cb_is_empty (p_buffer (y_pipe y))) eqn:He; simpl in Hk.
    + destruct (p_writers (y_pipe y) =? 0); simpl in Hk; simplify_eq; (split; [simpl; by rewrite lookup_insert_eq|]);
        (eapply (writer_unmoved y); try done; simpl; [by rewrite lookup_insert_ne|set_solver]).
    + apply bind_Ret_inv in Hk as ([p1 r1] & H1 & Hk). apply bind_Ret_inv in H1 as ([[b buf'] n] & H1 & H2).
      simplify_eq. split; [simpl; by rewrite lookup_insert_eq|].
      eapply (writer_live_mono y); try done; simpl; [by rewrite lookup_insert_ne|auto|].
      intros _ _. right; right. left. exists buf', n. simpl. by rewrite lookup_insert_eq.
  - unfold reader_wake in Hk. destruct (heap_wake_one (p_write_wq (y_pipe y))) as [q ws] eqn:Hq. simplify_eq.
    split; [simpl; by rewrite lookup_insert_eq|]. destruct Hw as [W1 W2].
    destruct (wake_one_names _ w q ws waker_w W1 Hq) as [Hsub Hin].
    eapply (writer_live_mono y); try done; simpl; [by rewrite lookup_insert_ne|set_solver|set_solver|set_solver].
  - unfold PipeReader_drop_wake in Hk. simpl in Hk. simplify_eq. split; [simpl; by rewrite lookup_insert_eq|].
    eapply (writer_live_mono y); try done; simpl; [by rewrite lookup_insert_ne|set_solver| | |].
    + set_solver.
    + intros Hin. right. apply elem_of_union_l. by apply wake_all_names.
    + intros Hin. left. apply elem_of_union_l. by apply wake_all_names.
Qed.

Lemma writer_step_live y y' :
  reader_live y -> writer_live y -> pipe_step waker y w = Ret (Some y') ->
  (forall s, y_tasks y !! w = Some s -> wstate s = true) -> reader_live y' /\ writer_live y'.
Proof.
  intros Hr Hw. unfold pipe_step, reader_step, writer_step. destruct (y_tasks y !! w) as [s|] eqn:Hs; [|done]. intros Hk Hst.
  specialize (Hst s eq_refl). pose proof Hw as [W1 W2]. rewrite Hs in W2.
  destruct s; try done; simplify_eq; unfold writer_live.
  - split.
    + eapply (reader_unmoved y); try done; simpl; [by rewrite lookup_insert_ne|set_solver].
    + simpl. rewrite lookup_insert_eq. split; [intros v; by apply register_only|left; exact (proj1 (heap_register_spec _ _))].
  - destruct (writer_ready (y_pipe y)) eqn:Hrd; simplify_eq; (split;
      [eapply (reader_unmoved y); try done; simpl; [by rewrite lookup_insert_ne|set_solver]|simpl; rewrite lookup_insert_eq]).
    + done.
    + split; [done|]. destruct W2; auto.
  - case_bool_decide; simplify_eq. split; [|simpl; by rewrite lookup_insert_eq].
    eapply (reader_unmoved y); try done; simpl; [by rewrite lookup_insert_ne].
  - unfold writer_put in Hk. destruct (p_readers (y_pipe y) =? 0); simpl in Hk; simplify_eq.
    { split; [|simpl; by rewrite lookup_insert_eq].
      eapply (reader_unmoved y); try done; simpl; [by rewrite lookup_insert_ne|set_solver]. }
    destruct (cb_is_full (p_buffer (y_pipe y))); simpl in Hk; simplify_eq.
    { split; [|simpl; by rewrite lookup_insert_eq].
      eapply (reader_unmoved y); try done; simpl; [by rewrite lookup_insert_ne|set_solver]. }
    apply bind_Ret_inv in Hk as ([p1 r1] & H1 & Hk). apply bind_Ret_inv in H1 as ([b n] & H1 & H2).
    simplify_eq. split; [|simpl; by rewrite lookup_insert_eq].
    eapply (reader_live_mono y); try done; simpl; [by rewrite lookup_insert_ne|auto|].
    intros _ _. right; right. left. exists n. simpl. by rewrite lookup_insert_eq.
  - unfold writer_wake in Hk. destruct (heap_wake_one (p_read_wq (y_pipe y))) as [q ws] eqn:Hq. simplify_eq.
    split; [|simpl; by rewrite lookup_insert_eq]. destruct Hr as [R1 R2].
    destruct (wake_one_names _ r q ws waker_r R1 Hq) as [Hsub Hin].
    eapply (reader_live_mono y); try done; simpl; [by rewrite lookup_insert_ne|set_solver|set_solver|set_solver].
  - unfold PipeWriter_drop_wake in Hk. simpl in Hk. simplify_eq. split; [|simpl; by rewrite lookup_insert_eq].
    eapply (reader_live_mono y); try done; simpl; [by rewrite lookup_insert_ne|set_solver| | |].
    + set_solver.
    + intros Hin. right. apply elem_of_union_l. by apply wake_all_names.
    + intros Hin. left. apply elem_of_union_l. by apply wake_all_names.
Qed.

Lemma role_of y t s :
  pipe_inv [r] [w] y -> y_tasks y !! t = Some s -> t = r /\ rstate s = true \/ t = w /\ wstate s = true.
Proof.
  intros [_ (H & _)] Ht. destruct (H t s Ht) as [[Hin ?]|[Hin ?]]; apply list_elem_of_singleton in Hin; auto.
Qed.

(** A step of an idle task that only moves itself and its own queue. *)
Lemma idle_live y t last s p :
  live y -> y_tasks y !! t = Some (Idle last) ->
  p_buffer p = p_buffer (y_pipe y) -> p_readers p = p_readers (y_pipe y) -> p_writers p = p_writers (y_pipe y) ->
  (t = r -> p_write_wq p = p_write_wq (y_pipe y) /\ (forall v, v ∈ p_read_wq p -> v = waker r)) ->
  (t = w -> p_read_wq p = p_read_wq (y_pipe y) /\ (forall v, v ∈ p_write_wq p -> v = waker w)) ->
  match s with Idle _ | RReg _ | WReg _ => True | _ => False end ->
  reader_live (goto y t p s) /\ writer_live (goto y t p s).
Proof.
  intros (Hi & Hr & Hw) Ht Hb Hpr Hpw Hqr Hqw Hs. destruct (role_of y t _ Hi Ht) as [[-> _]|[-> _]].
  - destruct (Hqr eq_refl) as [Hq Hv]. split.
    + split; [done|]. simpl. rewrite lookup_insert_eq. by destruct s.
    + eapply (writer_unmoved y); try done; simpl; [by rewrite lookup_insert_ne|set_solver].
  - destruct (Hqw eq_refl) as [Hq Hv]. split.
    + eapply (reader_unmoved y); try done; simpl; [by rewrite lookup_insert_ne|set_solver].
    + split; [done|]. simpl. rewrite lookup_insert_eq. by destruct s.
Qed.

Lemma release_live y t y' :
  live y -> pipe_release [r] [w] y t = Some y' -> reader_live y' /\ writer_live y'.
Proof.
  intros (Hi & Hr & Hw). unfold pipe_release.
  destruct (y_tasks y !! t) as [[last| | | | | | | | | | | | |]|] eqn:Ht; try done.
  pose proof Hi as [_ (_ & R2 & R3)].
  destruct (role_of y t _ Hi Ht) as [[-> _]|[-> _]].
  - rewrite bool_decide_eq_true_2 by set_solver. simpl. rewrite Z.eqb_refl. simpl. intros [= <-].
    assert (p_readers (y_pipe y) = 1) as Hone.
    { destruct R2 as [?|[_ Hrel]]; [done|]. specialize (Hrel r ltac:(set_solver)). rewrite Ht in Hrel.
      by destruct Hrel as [?|[?|?]]. }
    split; [split; [apply Hr|simpl; rewrite lookup_insert_eq, Hone; done]|].
    eapply (writer_live_mono y); try done; simpl; [by rewrite lookup_insert_ne|auto|].
    intros _ _. right; right; right. simpl. by rewrite lookup_insert_eq.
  - rewrite bool_decide_eq_false_2 by set_solver. simpl. rewrite Z.eqb_refl. simpl. intros [= <-].
    assert (p_writers (y_pipe y) = 1) as Hone.
    { destruct R3 as [?|[_ Hrel]]; [done|]. specialize (Hrel w ltac:(set_solver)). rewrite Ht in Hrel.
      by destruct Hrel as [?|[?|?]]. }
    split; [|split; [apply Hw|simpl; rewrite lookup_insert_eq, Hone; done]].
    eapply (reader_live_mono y); try done; simpl; [by rewrite lookup_insert_ne|auto|].
    intros _ _. right; right; right. simpl. by rewrite lookup_insert_eq.
Qed.

Lemma do_live y l y' : live y -> pipe_do [r] [w] waker y l = Ret (Some y') -> live y'.
Proof.
  intros Hl Hk. pose proof Hl as (Hi & Hr & Hw).
  split; [by apply (wp_use _ _ _ (wp_pipe_do [r] [w] waker y l Hi) Hk)|].
  destruct l as [t|t buf|t buf|t|t|t]; simpl in Hk.
  - destruct (y_tasks y !! t) as [s|] eqn:Ht; [|unfold pipe_step in Hk; by rewrite Ht in Hk].
    destruct (role_of y t s Hi Ht) as [[-> ?]|[-> ?]].
    + apply (reader_step_live y); try done. intros s' Hs. congruence.
    + apply (writer_step_live y); try done. intros s' Hs. congruence.
  - destruct (y_tasks y !! t) as [[last| | | | | | | | | | | | |]|] eqn:Ht; try done.
    case_bool_decide; simplify_eq. apply (idle_live y t last); try done; intros ->; (split; [done|]); [apply Hr|apply Hw].
  - destruct (y_tasks y !! t) as [[last| | | | | | | | | | | | |]|] eqn:Ht; try done.
    case_bool_decide; simplify_eq. apply (idle_live y t last); try done; intros ->; (split; [done|]); [apply Hr|apply Hw].
  - simplify_eq. by eapply release_live.
  - destruct (y_tasks y !! t) as [[last| | | | | | | | | | | | |]|] eqn:Ht; try done.
    case_bool_decide as Hrt; [unfold PipeReader_poll_readiness in Hk|unfold PipeWriter_poll_readiness in Hk];
      simplify_eq; apply (idle_live y t last); try done; intros ->; try set_solver;
      (split; [done|]); intros v; apply register_only; [apply Hr|apply Hw].
  - simplify_eq. split; [eapply (reader_live_mono y)|eapply (writer_live_mono y)]; try done; simpl; try set_solver; auto.
Qed.

Lemma run_live ls y y' : live y -> pipe_run [r] [w] waker y ls = Ret (Some y') -> live y'.
Proof.
  revert y. induction ls as [|l ls IH]; intros y Hl; simpl; [by intros [= <-]|].
  intros ([y1|] & H1 & H2)%bind_Ret_inv; [|done]. eapply IH; [|done]. by eapply do_live.
Qed.

Lemma live_start : live (pipe_start [r] [w]).
Proof.
  split; [apply pipe_inv_start|]. unfold reader_live, writer_live. simpl.
  rewrite lookup_insert_eq, lookup_insert_ne, lookup_insert_eq by done.
  split; (split; [by intros v ?%not_elem_of_nil|done]).
Qed.

(** A task that cannot go on by itself. *)
Lemma stuck_state y t s :
  y_tasks y !! t = Some s -> pipe_step waker y t = Ret None ->
  (exists last, s = Idle last) \/ s = Gone \/
  ((exists buf, s = RPend buf \/ s = WPend buf) /\ (t ∉ y_notified y)).
Proof.
  intros Ht. unfold pipe_step, reader_step, writer_step. rewrite Ht. destruct s; try done; eauto.
  - case_bool_decide; [done|]. eauto 6.
  - intros ([p o] & _ & H)%bind_Ret_inv. by destruct o.
  - unfold reader_wake. by destruct (heap_wake_one _).
  - case_bool_decide; [done|]. eauto 6.
  - intros ([p o] & _ & H)%bind_Ret_inv. by destruct o.
  - unfold writer_wake. by destruct (heap_wake_one _).
Qed.

Lemma ready_both p :
  cb_capacity (p_buffer p) = PIPE_BUF_SIZE -> reader_ready p = false -> writer_ready p = false -> False.
Proof.
  unfold reader_ready, writer_ready, cb_is_empty, cb_is_full. intros ->.
  destruct (Z.eqb_spec (cb_count (p_buffer p)) 0) as [->|]; [|done].
  destruct (p_readers p =? 0); [done|]. done.
Qed.

Lemma stuck_reader y buf :
  live y -> pipe_step waker y r = Ret None -> pipe_step waker y w = Ret None ->
  y_tasks y !! r = Some (RPend buf) -> reader_ready (y_pipe y) = false.
Proof.
  intros (Hi & [_ Lr] & _) Hsr Hsw Hr. rewrite Hr in Lr.
  destruct (stuck_state y r _ Hr Hsr) as [[? ?]|[?|[_ Hn]]]; [done|done|].
  destruct Lr as [?|[_ [?|[[n Hk]|Hk]]]]; [done|done| |]; (destruct (stuck_state y w _ Hk Hsw) as [[? ?]|[?|[[? [?|?]] ?]]]; done).
Qed.

Lemma stuck_writer y buf :
  live y -> pipe_step waker y r = Ret None -> pipe_step waker y w = Ret None ->
  y_tasks y !! w = Some (WPend buf) -> writer_ready (y_pipe y) = false.
Proof.
  intros (Hi & _ & [_ Lw]) Hsr Hsw Hw. rewrite Hw in Lw.
  destruct (stuck_state y w _ Hw Hsw) as [[? ?]|[?|[_ Hn]]]; [done|done|].
  destruct Lw as [?|[_ [?|[(b & n & Hk)|Hk]]]]; [done|done| |]; (destruct (stuck_state y r _ Hk Hsr) as [[? ?]|[?|[[? [?|?]] ?]]]; done).
Qed.

End Live.

(** A step moves at most one task. *)
Lemma step_tasks rt wt wk y l y' :
  pipe_do rt wt wk y l = Ret (Some y') ->
  y_tasks y' = y_tasks y \/ exists t s, y_tasks y' = <[t := s]> (y_tasks y).
Proof.
  assert (forall t s m, m = <[t := s]> (y_tasks y) -> m = y_tasks y \/ exists t s, m = <[t := s]> (y_tasks y)) as Hgo by eauto.
  destruct l as [t|t buf|t buf|t|t|t]; simpl.
  - unfold pipe_step, reader_step, writer_step. destruct (y_tasks y !! t) as [[]|]; try done; try (intros [= <-]; by eapply Hgo);
      try (intros ([p o] & _ & H)%bind_Ret_inv; destruct o; simplify_eq; by eapply Hgo).
    + case_bool_decide; intros [= <-]. by eapply Hgo.
    + destruct (reader_wake _). intros [= <-]. by eapply Hgo.
    + case_bool_decide; intros [= <-]. by eapply Hgo.
    + destruct (writer_wake _). intros [= <-]. by eapply Hgo.
  - destruct (y_tasks y !! t) as [[]|]; try done. case_bool_decide; intros [= <-]. by eapply Hgo.
  - destruct (y_tasks y !! t) as [[]|]; try done. case_bool_decide; intros [= <-]. by eapply Hgo.
  - unfold pipe_release. destruct (y_tasks y !! t) as [[]|]; try done. repeat case_match; intros [= <-]; by eapply Hgo.
  - destruct (y_tasks y !! t) as [[]|]; try done.
    destruct (if bool_decide _ then _ else _) as [p ?]. intros [= <-]. by eapply Hgo.
  - intros [= <-]. by left.
Qed.

Lemma tasks_stay rt wt wk ls y y' t :
  pipe_run rt wt wk y ls = Ret (Some y') -> is_Some (y_tasks y !! t) -> is_Some (y_tasks y' !! t).
Proof.
  revert y. induction ls as [|l ls IH]; intros y; simpl; [by intros [= <-]|].
  intros ([y1|] & H1 & H2)%bind_Ret_inv Ht; [|done]. apply (IH y1 H2).
  destruct (step_tasks _ _ _ _ _ _ H1) as [->|(u & s & ->)]; [done|]. apply lookup_insert_is_Some'. auto.
Qed.

(** ** Properties *)

(** C25: A pipe is a byte stream, whatever tasks share its ends and however they
    interleave: no operation panics, the bytes handed to readers followed by
    those in the buffer are the bytes accepted from writers, at most
    [PIPE_BUF_SIZE] are on their way, and once a reader has been told the end
    of the file every byte has been read. *)
Theorem pipe_stream rtasks wtasks waker ls :
  exists o, pipe_run rtasks wtasks waker (pipe_start rtasks wtasks) ls = Ret o /\
    forall y, o = Some y -> exists q, y_in y = y_out y ++ q /\ Z.of_nat (length q) <= PIPE_BUF_SIZE /\
      (y_eof y = true -> y_in y = y_out y).
Proof.
  pose proof (wp_pipe_run rtasks wtasks waker ls _ (pipe_inv_start rtasks wtasks)) as H.
  apply wp_exists in H as (o & -> & Ho). exists o. split; [done|]. intros y Hy.
  destruct (Ho y Hy) as [(q & Hq & Hc & Hin & Heof) _]. exists q. destruct Hq as ((Hb & _) & Hl & _).
  split_and!; [done|lia|]. intros He. destruct (Heof He) as [_ ->]. by rewrite Hin, app_nil_r.
Qed.

(** The wakers of tasks that stay on their CPU. *)
Definition fixed_waker (cpu : Z -> Z) (prio : Z -> Priority) (t : Z) : Z := task_waker (cpu t) t (prio t).

(** C13: With one reader and one writer no wakeup is lost.  In every reachable state
    in which neither task can go on by itself, a waiting reader waits for an
    empty pipe whose writer still holds its end and is not waiting, and a
    waiting writer waits for a full pipe whose reader still holds its end and
    is not waiting. *)
Theorem pipe_no_lost_wakeup r w cpu prio ls y :
  r <> w -> 0 <= r < 2 ^ 56 -> 0 <= w < 2 ^ 56 -> 0 <= cpu r < 64 -> 0 <= cpu w < 64 ->
  pipe_run [r] [w] (fixed_waker cpu prio) (pipe_start [r] [w]) ls = Ret (Some y) ->
  pipe_step (fixed_waker cpu prio) y r = Ret None -> pipe_step (fixed_waker cpu prio) y w = Ret None ->
  (forall buf, y_tasks y !! r = Some (RPend buf) ->
     cb_is_empty (p_buffer (y_pipe y)) = true /\ exists last, y_tasks y !! w = Some (Idle last)) /\
  (forall buf, y_tasks y !! w = Some (WPend buf) ->
     cb_is_full (p_buffer (y_pipe y)) = true /\ exists last, y_tasks y !! r = Some (Idle last)).
Proof.
  intros Hne Hr Hw Hcr Hcw Hrun Hsr Hsw. set (wk := fixed_waker cpu prio) in *.
  assert (forall t, 0 <= t < 2 ^ 56 -> 0 <= cpu t < 64 -> (unpack (wk t)).1.1 = t) as Hwk.
  { intros t H1 H2. unfold wk, fixed_waker, task_waker. by rewrite unpack_pack. }
  pose proof (run_live r w wk Hne (Hwk r Hr Hcr) (Hwk w Hw Hcw) ls _ y (live_start r w wk Hne) Hrun) as Hl.
  pose proof Hl as ([(q & _ & Hc & _) (R1 & _)] & [_ Lr] & [_ Lw]).
  assert (is_Some (y_tasks y !! r) /\ is_Some (y_tasks y !! w)) as [[sr Er] [sw Ew]].
  { split; (eapply tasks_stay; [exact Hrun|]); simpl; by rewrite !lookup_insert_is_Some'; auto. }
  split; intros buf Hp.
  - pose proof (stuck_reader r w wk y buf Hl Hsr Hsw Hp) as Hrd.
    apply orb_false_iff in Hrd as Hrd'. destruct Hrd' as [He Hz]. split; [by apply negb_false_iff|].
    destruct (stuck_state wk y w sw Ew Hsw) as [[last ?]|[?|[[b [?|?]] _]]]; subst; [by eauto| | |].
    + rewrite Ew in Lw. by rewrite Lw in Hz.
    + destruct (role_of r w y w _ (proj1 Hl) Ew) as [[? _]|[_ ?]]; done.
    + exfalso. eapply ready_both; [done|done|]. by eapply stuck_writer.
  - pose proof (stuck_writer r w wk y buf Hl Hsr Hsw Hp) as Hwd.
    apply orb_false_iff in Hwd as Hwd'. destruct Hwd' as [Hz He]. split; [by apply negb_false_iff|].
    destruct (stuck_state wk y r sr Er Hsr) as [[last ?]|[?|[[b [?|?]] _]]]; subst; [by eauto| | |].
    + rewrite Er in Lr. by rewrite Lr in Hz.
    + exfalso. eapply ready_both; [done| |done]. by eapply stuck_reader.
    + destruct (role_of r w y r _ (proj1 Hl) Er) as [[_ ?]|[? _]]; done.
Qed.

(** Tasks of CPU 0, and a whole call of one that does not have to wait. *)
Definition on_cpu0 : Z -> Z := fixed_waker (fun _ => 0) (fun _ => Normal).

Definition call (t : Z) : list plabel := replicate 4 (PStep t).

Definition halted (y : PipeSys) (t : Z) : bool :=
  match pipe_step on_cpu0 y t with Ret None => true | _ => false end.

Definition waits_for (y : PipeSys) (t : Z) (buf : list Z) : bool :=
  match y_tasks y !! t with Some (RPend b) => bool_decide (b = buf) | _ => false end.

Lemma halted_spec y t : halted y t = true -> pipe_step on_cpu0 y t = Ret None.
Proof. unfold halted. by destruct (pipe_step _ y t) as [[]|]. Qed.

Lemma waits_for_spec y t buf : waits_for y t buf = true -> y_tasks y !! t = Some (RPend buf).
Proof. unfold waits_for. destruct (y_tasks y !! t) as [[]|]; try done. by intros ->%bool_decide_eq_true. Qed.

(** A run ends in a state that passes a test. *)
Definition ends_in (f : PipeSys -> bool) (o : exec (option PipeSys)) : bool :=
  match o with Ret (Some y) => f y | _ => false end.

Lemma ends_in_spec f o : ends_in f o = true -> exists y, o = Ret (Some y) /\ f y = true.
Proof. destruct o as [[y|]|]; try done. by exists y. Qed.

(** The reader waits, the writer writes and wakes it, it reads and waits again. *)
Definition ping : list plabel :=
  [PRead 1 [0]; PStep 1; PStep 1; PWrite 2 [97]] ++ call 2 ++ replicate 5 (PStep 1) ++
  [PRead 1 [0]; PStep 1; PStep 1].

Lemma ping_runs :
  exists y, pipe_run [1] [2] on_cpu0 (pipe_start [1] [2]) ping = Ret (Some y) /\
    halted y 1 && halted y 2 && waits_for y 1 [0] = true.
Proof. apply ends_in_spec. vm_compute. reflexivity. Qed.

Lemma pipe_no_lost_wakeup_witness :
  exists y last, pipe_run [1] [2] on_cpu0 (pipe_start [1] [2]) ping = Ret (Some y) /\
    cb_is_empty (p_buffer (y_pipe y)) = true /\ y_tasks y !! 2 = Some (Idle last).
Proof.
  destruct ping_runs as (y & Hrun & Hy).
  apply andb_true_iff in Hy as [Hy Hp%waits_for_spec]. apply andb_true_iff in Hy as [H1%halted_spec H2%halted_spec].
  destruct (pipe_no_lost_wakeup 1 2 (fun _ => 0) (fun _ => Normal) ping y ltac:(lia) ltac:(lia) ltac:(lia)
    ltac:(lia) ltac:(lia) Hrun H1 H2) as [H _].
  destruct (H [0] Hp) as [He [last Hw]]. exists y, last. exact (conj Hrun (conj He Hw)).
Defined.

(** Two readers share the pipe.  The first reads a byte without waiting, and
    its waker stays in the queue; the second waits.  The next write wakes the
    first reader, which is not reading. *)
Definition stale : list plabel :=
  [PWrite 3 [97]] ++ call 3 ++ [PRead 1 [0]] ++ call 1 ++ [PRead 2 [0]; PStep 2; PStep 2; PWrite 3 [98]] ++ call 3.

Lemma stale_runs :
  exists y, pipe_run [1; 2] [3] on_cpu0 (pipe_start [1; 2] [3]) stale = Ret (Some y) /\
    halted y 1 && halted y 2 && halted y 3 && waits_for y 2 [0] && reader_ready (y_pipe y) = true.
Proof. apply ends_in_spec. vm_compute. reflexivity. Qed.

(** With two readers a wakeup can be lost: a state is reachable in which there
    is a byte in the pipe, a reader waits for it, and no task of the system
    will do anything. *)
Theorem pipe_two_readers_lose_wakeup :
  exists y, pipe_run [1; 2] [3] on_cpu0 (pipe_start [1; 2] [3]) stale = Ret (Some y) /\
    y_tasks y !! 2 = Some (RPend [0]) /\ reader_ready (y_pipe y) = true /\
    forall t, t ∈ [1; 2; 3] -> pipe_step on_cpu0 y t = Ret None.
Proof.
  destruct stale_runs as (y & Hrun & Hy). exists y. rewrite !andb_true_iff in Hy.
  destruct Hy as [[[[H1 H2] H3] Hp] Hr]. apply waits_for_spec in Hp. split; [exact Hrun|split; [exact Hp|split; [exact Hr|]]].
  clear Hrun. intros t. rewrite !elem_of_cons. intros [E|[E|[E|E%not_elem_of_nil]]]; [| | |destruct E]; rewrite E.
  - exact (halted_spec _ _ H1).
  - exact (halted_spec _ _ H2).
  - exact (halted_spec _ _ H3).
Qed.
