(* ===== verification/Channel.v ===== *)
(** * Channels and service endpoints
    (kernel/ipc/src/channel.rs, kernel/ipc/src/service.rs)

    A side of a channel is a [bool]: [true] for A.  The inode a message may
    carry is of an arbitrary type [I].  The pieces of the asynchronous [read]
    and [write] between two lock operations are separate definitions; a run is
    any sequence of them, by any tasks of either side. *)

From S2P Require Import Prelude Std Sched WaitQueue FsTypes.

Definition MAX_MESSAGE_SIZE : Z := 4096.
Definition MAX_BUFFERED_MESSAGES : Z := 16.

Section Channel.
Context {I : Type}.

Record ChannelMessage : Type := mkChannelMessage { cm_data : list Z; cm_attached : option I }.

Record ChannelInner : Type := mkChannelInner {
  a_to_b : list ChannelMessage;
  b_to_a : list ChannelMessage;
  a_send_wq : HeapWaitQueue;
  a_recv_wq : HeapWaitQueue;
  b_send_wq : HeapWaitQueue;
  b_recv_wq : HeapWaitQueue;
  a_endpoints : Z;
  b_endpoints : Z;
}.

Definition channel : ChannelInner := mkChannelInner [] [] [] [] [] [] 1 1.

(** [send_queue]: the queue, the sender's wait queue, the peer's receivers. *)
Definition send_queue (c : ChannelInner) (is_a : bool) : list ChannelMessage * HeapWaitQueue * HeapWaitQueue :=
  if is_a then (a_to_b c, a_send_wq c, b_recv_wq c) else (b_to_a c, b_send_wq c, a_recv_wq c).

Definition recv_queue (c : ChannelInner) (is_a : bool) : list ChannelMessage * HeapWaitQueue * HeapWaitQueue :=
  if is_a then (b_to_a c, a_recv_wq c, b_send_wq c) else (a_to_b c, b_recv_wq c, a_send_wq c).

Definition peer_counter (c : ChannelInner) (is_a : bool) : Z :=
  if is_a then b_endpoints c else a_endpoints c.

(** Writes through the references these return. *)
Definition set_send_q (c : ChannelInner) (is_a : bool) (q : list ChannelMessage) : ChannelInner :=
  if is_a then mkChannelInner q (b_to_a c) (a_send_wq c) (a_recv_wq c) (b_send_wq c) (b_recv_wq c) (a_endpoints c) (b_endpoints c)
  else mkChannelInner (a_to_b c) q (a_send_wq c) (a_recv_wq c) (b_send_wq c) (b_recv_wq c) (a_endpoints c) (b_endpoints c).

Definition set_recv_q (c : ChannelInner) (is_a : bool) (q : list ChannelMessage) : ChannelInner :=
  set_send_q c (negb is_a) q.

Definition set_send_wq (c : ChannelInner) (is_a : bool) (q : HeapWaitQueue) : ChannelInner :=
  if is_a then mkChannelInner (a_to_b c) (b_to_a c) q (a_recv_wq c) (b_send_wq c) (b_recv_wq c) (a_endpoints c) (b_endpoints c)
  else mkChannelInner (a_to_b c) (b_to_a c) (a_send_wq c) (a_recv_wq c) q (b_recv_wq c) (a_endpoints c) (b_endpoints c).

Definition set_recv_wq (c : ChannelInner) (is_a : bool) (q : HeapWaitQueue) : ChannelInner :=
  if is_a then mkChannelInner (a_to_b c) (b_to_a c) (a_send_wq c) q (b_send_wq c) (b_recv_wq c) (a_endpoints c) (b_endpoints c)
  else mkChannelInner (a_to_b c) (b_to_a c) (a_send_wq c) (a_recv_wq c) (b_send_wq c) q (a_endpoints c) (b_endpoints c).

(** [ChannelEndpoint::drop]: the count, then the peer's waiters. *)
Definition endpoint_drop_count (c : ChannelInner) (is_a : bool) : ChannelInner :=
  if is_a then mkChannelInner (a_to_b c) (b_to_a c) (a_send_wq c) (a_recv_wq c) (b_send_wq c) (b_recv_wq c)
                 (wrapping_sub64 (a_endpoints c) 1) (b_endpoints c)
  else mkChannelInner (a_to_b c) (b_to_a c) (a_send_wq c) (a_recv_wq c) (b_send_wq c) (b_recv_wq c)
         (a_endpoints c) (wrapping_sub64 (b_endpoints c) 1).

Definition endpoint_drop_wake (c : ChannelInner) (is_a : bool) : ChannelInner * list Z :=
  let peer := negb is_a in
  let '(rq, ws1) := heap_wake_all (recv_queue c peer).1.2 in
  let '(sq, ws2) := heap_wake_all (send_queue c peer).1.2 in
  (set_send_wq (set_recv_wq c peer rq) peer sq, ws1 ++ ws2).

Definition endpoint_drop (c : ChannelInner) (is_a : bool) : ChannelInner * list Z :=
  endpoint_drop_wake (endpoint_drop_count c is_a) is_a.

(** ** Sending *)

(** Under the lock of the send queue: [None] when it is full. *)
Definition push_message (c : ChannelInner) (is_a : bool) (data : list Z) (attached : option I)
    : option ChannelInner :=
  let queue := (send_queue c is_a).1.1 in
  if Z.of_nat (length queue) <? MAX_BUFFERED_MESSAGES
  then Some (set_send_q c is_a (queue ++ [mkChannelMessage data attached]))
  else None.

Definition wake_peer_recv (c : ChannelInner) (is_a : bool) : ChannelInner * list Z :=
  let '(q, ws) := heap_wake_one (send_queue c is_a).2 in (set_recv_wq c (negb is_a) q, ws).

(** The result is [None] when the call would block. *)
Definition send_with_attachment (c : ChannelInner) (is_a : bool) (data : list Z) (attached : option I)
    : ChannelInner * list Z * option (result Z FsError) :=
  if MAX_MESSAGE_SIZE <? Z.of_nat (length data) then (c, [], Some (Err InvalidArgument)) else
  if peer_counter c is_a =? 0 then (c, [], Some (Err BrokenPipe)) else
  match push_message c is_a data attached with
  | Some c => let '(c, ws) := wake_peer_recv c is_a in (c, ws, Some (Ok (Z.of_nat (length data))))
  | None => (c, [], None)
  end.

(** The closure polled by [write]; [true] is [Ready]. *)
Definition write_poll (c : ChannelInner) (is_a : bool) (waker : Z) : ChannelInner * bool :=
  let '(queue, wq, _) := send_queue c is_a in
  let c := set_send_wq c is_a (heap_register_waker wq waker) in
  (c, (peer_counter c is_a =? 0) || (Z.of_nat (length queue) <? MAX_BUFFERED_MESSAGES)).

(** What follows it in the loop; [None] to go round again. *)
Definition write_try (c : ChannelInner) (is_a : bool) (buf : list Z)
    : ChannelInner * list Z * option (result Z FsError) :=
  if peer_counter c is_a =? 0 then (c, [], Some (Err BrokenPipe)) else
  match push_message c is_a buf None with
  | Some c => let '(c, ws) := wake_peer_recv c is_a in (c, ws, Some (Ok (Z.of_nat (length buf))))
  | None => (c, [], None)
  end.

(** [write] before its loop. *)
Definition write_check (buf : list Z) : option (result Z FsError) :=
  if MAX_MESSAGE_SIZE <? Z.of_nat (length buf) then Some (Err InvalidArgument) else None.

(** ** Receiving *)

(** Under the lock of the receive queue: the message copied to the buffer. *)
Definition pop_message (c : ChannelInner) (is_a : bool) (buf : list Z)
    : exec (option (ChannelInner * list Z * Z * option I)) :=
  match (recv_queue c is_a).1.1 with
  | msg :: queue =>
      let copy_len := Z.min (Z.of_nat (length (cm_data msg))) (Z.of_nat (length buf)) in
      src ← slice (cm_data msg) 0 copy_len;
      buf ← copy_from_slice buf 0 copy_len src;
      Ret (Some (set_recv_q c is_a queue, buf, Z.of_nat (length (cm_data msg)), cm_attached msg))
  | [] => Ret None
  end.

Definition wake_peer_send (c : ChannelInner) (is_a : bool) : ChannelInner * list Z :=
  let '(q, ws) := heap_wake_one (recv_queue c is_a).2 in (set_send_wq c (negb is_a) q, ws).

Definition recv_with_attachment (c : ChannelInner) (is_a : bool) (buf : list Z)
    : exec (ChannelInner * list Z * list Z * option (result (Z * option I) FsError)) :=
  o ← pop_message c is_a buf;
  match o with
  | Some (c, buf, n, att) => let '(c, ws) := wake_peer_send c is_a in Ret (c, buf, ws, Some (Ok (n, att)))
  | None =>
      if peer_counter c is_a =? 0 then Ret (c, buf, [], Some (Ok (0, None)))
      else Ret (c, buf, [], None)
  end.

Definition read_poll (c : ChannelInner) (is_a : bool) (waker : Z) : ChannelInner * bool :=
  let '(queue, wq, _) := recv_queue c is_a in
  let c := set_recv_wq c is_a (heap_register_waker wq waker) in
  (c, negb (is_empty queue) || (peer_counter c is_a =? 0)).

(** The loop of [read] drops the attached inode. *)
Definition read_try (c : ChannelInner) (is_a : bool) (buf : list Z)
    : exec (ChannelInner * list Z * list Z * option (result Z FsError)) :=
  o ← pop_message c is_a buf;
  match o with
  | Some (c, buf, n, _) => let '(c, ws) := wake_peer_send c is_a in Ret (c, buf, ws, Some (Ok n))
  | None =>
      if peer_counter c is_a =? 0 then Ret (c, buf, [], Some (Ok 0))
      else Ret (c, buf, [], None)
  end.

Definition channel_size (c : ChannelInner) (is_a : bool) : Z := Z.of_nat (length (recv_queue c is_a).1.1).

Definition channel_poll_readiness (c : ChannelInner) (is_a : bool) (waker : option Z) : ChannelInner * Z :=
  let c := match waker with
           | Some w =>
               let c := set_recv_wq c is_a (heap_register_waker (recv_queue c is_a).1.2 w) in
               set_send_wq c is_a (heap_register_waker (send_queue c is_a).1.2 w)
           | None => c
           end in
  let events := 0 in
  let events := if negb (is_empty (recv_queue c is_a).1.1) then Z.lor events POLLIN else events in
  let events := if Z.of_nat (length (send_queue c is_a).1.1) <? MAX_BUFFERED_MESSAGES
                then Z.lor events POLLOUT else events in
  let events := if peer_counter c is_a =? 0 then Z.lor (Z.lor events POLLHUP) POLLIN else events in
  (c, events).

(** ** Runs *)

Inductive chan_op : Type :=
  | OSend (is_a : bool) (data : list Z) (attached : option I)
  | OWritePoll (is_a : bool) (waker : Z)
  | OWriteTry (is_a : bool) (buf : list Z)
  | ORecv (is_a : bool) (buf : list Z)
  | OReadPoll (is_a : bool) (waker : Z)
  | OReadTry (is_a : bool) (buf : list Z)
  | OPollFd (is_a : bool) (waker : option Z)
  | ODropCount (is_a : bool)
  | ODropWake (is_a : bool).

(** The channel, the messages each side has sent, and what each side has been
    given: the buffer it passed, and the length and buffer it got back. *)
Record ChanSys : Type := mkChanSys {
  cs_chan : ChannelInner;
  cs_sent : bool -> list (list Z);
  cs_got : bool -> list (list Z * (Z * list Z));
}.

Definition add_at {A} (f : bool -> list A) (s : bool) (x : A) : bool -> list A :=
  fun s' => if Bool.eqb s' s then f s' ++ [x] else f s'.

Definition with_chan (y : ChanSys) (c : ChannelInner) : ChanSys := mkChanSys c (cs_sent y) (cs_got y).

Definition chan_step (y : ChanSys) (op : chan_op) : exec ChanSys :=
  let c := cs_chan y in
  match op with
  | OSend s data att =>
      let '(c, _, r) := send_with_attachment c s data att in
      match r with
      | Some (Ok _) => Ret (mkChanSys c (add_at (cs_sent y) s data) (cs_got y))
      | _ => Ret (with_chan y c)
      end
  | OWritePoll s w => Ret (with_chan y (write_poll c s w).1)
  | OWriteTry s buf =>
      match write_check buf with
      | Some _ => Ret y
      | None =>
          let '(c, _, r) := write_try c s buf in
          match r with
          | Some (Ok _) => Ret (mkChanSys c (add_at (cs_sent y) s buf) (cs_got y))
          | _ => Ret (with_chan y c)
          end
      end
  | ORecv s buf =>
      let waiting := negb (is_empty (recv_queue c s).1.1) in
      '(c, buf', _, r) ← recv_with_attachment c s buf;
      match r with
      | Some (Ok (n, _)) =>
          if waiting then Ret (mkChanSys c (cs_sent y) (add_at (cs_got y) s (buf, (n, buf'))))
          else Ret (with_chan y c)
      | _ => Ret (with_chan y c)
      end
  | OReadPoll s w => Ret (with_chan y (read_poll c s w).1)
  | OReadTry s buf =>
      let waiting := negb (is_empty (recv_queue c s).1.1) in
      '(c, buf', _, r) ← read_try c s buf;
      match r with
      | Some (Ok n) =>
          if waiting then Ret (mkChanSys c (cs_sent y) (add_at (cs_got y) s (buf, (n, buf'))))
          else Ret (with_chan y c)
      | _ => Ret (with_chan y c)
      end
  | OPollFd s w => Ret (with_chan y (channel_poll_readiness c s w).1)
  | ODropCount s => Ret (with_chan y (endpoint_drop_count c s))
  | ODropWake s => Ret (with_chan y (endpoint_drop_wake c s).1)
  end.

Fixpoint chan_run (y : ChanSys) (ops : list chan_op) : exec ChanSys :=
  match ops with
  | [] => Ret y
  | op :: ops => y ← chan_step y op; chan_run y ops
  end.

Definition chan_start : ChanSys := mkChanSys channel (fun _ => []) (fun _ => []).

(** What a receiver with buffer [buf] is given for message [data]. *)
Definition delivered (data buf : list Z) : Z * list Z :=
  let n := Nat.min (length data) (length buf) in (Z.of_nat (length data), take n data ++ drop n buf).

(** Messages sent by side [s]: those its peer was given, then those queued. *)
Definition direction_ok (y : ChanSys) (s : bool) : Prop :=
  exists ds, cs_sent y s = ds ++ (cm_data <$> (send_queue (cs_chan y) s).1.1) /\
    Forall2 (fun d g => g.2 = delivered d g.1) ds (cs_got y (negb s)) /\
    Z.of_nat (length (send_queue (cs_chan y) s).1.1) <= MAX_BUFFERED_MESSAGES /\
    Forall (fun m => Z.of_nat (length (cm_data m)) <= MAX_MESSAGE_SIZE) (send_queue (cs_chan y) s).1.1.

Definition chan_inv (y : ChanSys) : Prop := forall s, direction_ok y s.

(** Steps that leave the message queues alone. *)
Lemma inv_same_queues y c :
  chan_inv y -> (forall s, (send_queue c s).1.1 = (send_queue (cs_chan y) s).1.1) -> chan_inv (with_chan y c).
Proof. intros Hi Hq s. destruct (Hi s) as (ds & H1 & H2 & H3 & H4). exists ds. simpl. by rewrite Hq. Qed.

Lemma recv_is_peer_send c s : (recv_queue c s).1.1 = (send_queue c (negb s)).1.1.
Proof. by destruct s. Qed.

Lemma set_send_q_queue c s q s' :
  (send_queue (set_send_q c s q) s').1.1 = if Bool.eqb s' s then q else (send_queue c s').1.1.
Proof. by destruct s, s'. Qed.

Lemma wake_peer_recv_queue c s s' : (send_queue (wake_peer_recv c s).1 s').1.1 = (send_queue c s').1.1.
Proof. unfold wake_peer_recv. destruct (heap_wake_one _). by destruct s, s'. Qed.

Lemma wake_peer_send_queue c s s' : (send_queue (wake_peer_send c s).1 s').1.1 = (send_queue c s').1.1.
Proof. unfold wake_peer_send. destruct (heap_wake_one _). by destruct s, s'. Qed.

(** A message is accepted. *)
Lemma inv_push y s data att c c' ws :
  chan_inv y -> Z.of_nat (length data) <= MAX_MESSAGE_SIZE ->
  push_message (cs_chan y) s data att = Some c -> wake_peer_recv c s = (c', ws) ->
  chan_inv (mkChanSys c' (add_at (cs_sent y) s data) (cs_got y)).
Proof.
  intros Hi Hd. unfold push_message. destruct (Z.ltb_spec (Z.of_nat (length (send_queue (cs_chan y) s).1.1)) MAX_BUFFERED_MESSAGES); [|done].
  intros [= <-] Hw s'. pose proof (wake_peer_recv_queue (set_send_q (cs_chan y) s
    ((send_queue (cs_chan y) s).1.1 ++ [mkChannelMessage data att])) s s') as Hq. rewrite Hw in Hq. simpl in Hq.
  rewrite set_send_q_queue in Hq. destruct (Hi s') as (ds & H1 & H2 & H3 & H4). exists ds. simpl. rewrite Hq.
  unfold add_at. destruct (Bool.eqb s' s) eqn:E; [|done]. apply eqb_prop in E as ->.
  split_and!; [by rewrite H1, fmap_app, app_assoc|done|rewrite length_app; simpl; lia|].
  apply Forall_app. split; [done|]. by constructor.
Qed.

Lemma wp_pop y s buf :
  chan_inv y ->
  wp (pop_message (cs_chan y) s buf) (fun o =>
    match o with
    | Some (c, buf', n, att) =>
        is_empty (recv_queue (cs_chan y) s).1.1 = false /\
        forall c' ws, wake_peer_send c s = (c', ws) ->
          chan_inv (mkChanSys c' (cs_sent y) (add_at (cs_got y) s (buf, (n, buf'))))
    | None => is_empty (recv_queue (cs_chan y) s).1.1 = true
    end).
Proof.
  intros Hi. unfold pop_message. destruct ((recv_queue (cs_chan y) s).1.1) as [|msg queue] eqn:Hq; [by apply wp_ret|].
  set (n := Nat.min (length (cm_data msg)) (length buf)).
  replace (Z.min (Z.of_nat (length (cm_data msg))) (Z.of_nat (length buf))) with (Z.of_nat n) by lia.
  wp_step. apply wp_slice; [lia|lia|]. wp_step. rewrite Z.sub_0_r, Nat2Z.id. change (Z.to_nat 0) with 0%nat. rewrite drop_0.
  apply wp_copy_from_slice; [lia|lia|rewrite length_take; lia|]. apply wp_ret. split; [done|].
  intros c' ws Hw s'. pose proof (wake_peer_send_queue (set_recv_q (cs_chan y) s queue) s s') as Hs. rewrite Hw in Hs.
  simpl in Hs. unfold set_recv_q in Hs. rewrite set_send_q_queue in Hs.
  destruct (Hi s') as (ds & H1 & H2 & H3 & H4). unfold direction_ok, add_at. simpl. rewrite Hs.
  destruct (Bool.eqb s' (negb s)) eqn:E.
  - apply eqb_prop in E as ->. rewrite negb_involutive, eqb_reflx. rewrite recv_is_peer_send in Hq. rewrite Hq in *.
    rewrite negb_involutive in H2. exists (ds ++ [cm_data msg]). split_and!.
    + by rewrite H1, <- app_assoc.
    + apply Forall2_app; [done|]. constructor; [|done]. simpl. unfold delivered. fold n. by rewrite Nat2Z.id.
    + simpl in H3. lia.
    + by inversion H4.
  - exists ds. assert (Bool.eqb (negb s') s = false) as -> by (by destruct s, s'). done.
Qed.

Lemma wp_chan_step y op : chan_inv y -> wp (chan_step y op) chan_inv.
Proof.
  intros Hi. destruct op as [s data att|s w|s buf|s buf|s w|s buf|s w|s|s]; simpl.
  - unfold send_with_attachment. destruct (Z.ltb_spec MAX_MESSAGE_SIZE (Z.of_nat (length data))); [by apply wp_ret|].
    destruct (peer_counter _ s =? 0); [by apply wp_ret|].
    destruct (push_message _ s data att) as [c|] eqn:Hp; [|by apply wp_ret].
    destruct (wake_peer_recv c s) as [c' ws] eqn:Hw. apply wp_ret. by eapply inv_push.
  - apply wp_ret, inv_same_queues; [done|]. intros s'. by destruct s, s'.
  - unfold write_check. destruct (Z.ltb_spec MAX_MESSAGE_SIZE (Z.of_nat (length buf))); [by apply wp_ret|].
    unfold write_try. destruct (peer_counter _ s =? 0); [by apply wp_ret|].
    destruct (push_message _ s buf None) as [c|] eqn:Hp; [|by apply wp_ret].
    destruct (wake_peer_recv c s) as [c' ws] eqn:Hw. apply wp_ret. by eapply inv_push.
  - unfold recv_with_attachment. wp_step. wp_step. eapply wp_mono; [by apply (wp_pop y s buf)|].
    intros [[[[c buf'] n] att]|] H.
    + destruct H as [-> H]. destruct (wake_peer_send c s) as [c' ws]. apply wp_ret, wp_ret. by eapply H.
    + rewrite H. destruct (peer_counter _ s =? 0); apply wp_ret, wp_ret; by apply inv_same_queues.
  - apply wp_ret, inv_same_queues; [done|]. intros s'. by destruct s, s'.
  - unfold read_try. wp_step. wp_step. eapply wp_mono; [by apply (wp_pop y s buf)|].
    intros [[[[c buf'] n] att]|] H.
    + destruct H as [-> H]. destruct (wake_peer_send c s) as [c' ws]. apply wp_ret, wp_ret. by eapply H.
    + rewrite H. destruct (peer_counter _ s =? 0); apply wp_ret, wp_ret; by apply inv_same_queues.
  - apply wp_ret, inv_same_queues; [done|]. intros s'. by destruct s, s', w.
  - apply wp_ret, inv_same_queues; [done|]. intros s'. by destruct s, s'.
  - apply wp_ret, inv_same_queues; [done|]. intros s'. by destruct s, s'.
Qed.

Lemma wp_chan_run ops y : chan_inv y -> wp (chan_run y ops) chan_inv.
Proof.
  revert y. induction ops as [|op ops IH]; intros y Hi; simpl; [by apply wp_ret|].
  wp_step. eapply wp_mono; [by apply wp_chan_step|]. auto.
Qed.

(** ** Properties *)


End Channel.

Arguments ChannelInner : clear implicits.

(** A message longer than the reader's buffer is cut, and [read] still returns
    its full length. *)
Theorem channel_read_length :
  exists (c c' : ChannelInner unit) ws, (send_with_attachment channel true [1; 2; 3] None).1.1 = c /\
    read_try c false [0; 0] = Ret (c', [1; 2], ws, Some (Ok 3)).
Proof. eexists _, _, _. split; [done|]. vm_compute. reflexivity. Qed.

(** ** Service endpoints *)

Section Service.
Context {E : Type}.

Definition MAX_PENDING : Z := 16.

Record ServiceInner : Type := mkServiceInner { sv_pending : list E; sv_accept_wq : HeapWaitQueue }.

Definition create_service : ServiceInner := mkServiceInner [] HeapWaitQueue_new.

Definition try_accept (s : ServiceInner) : ServiceInner * option E :=
  match sv_pending s with
  | e :: q => (mkServiceInner q (sv_accept_wq s), Some e)
  | [] => (s, None)
  end.

Definition listener_size (s : ServiceInner) : Z := Z.of_nat (length (sv_pending s)).

Definition listener_poll_readiness (s : ServiceInner) (waker : option Z) : ServiceInner * Z :=
  let s := match waker with
           | Some w => mkServiceInner (sv_pending s) (heap_register_waker (sv_accept_wq s) w)
           | None => s
           end in
  (s, if is_empty (sv_pending s) then 0 else POLLIN).

(** [ends]: the server's and the client's end of a new channel. *)
Definition connector_on_open (s : ServiceInner) (ends : E * E) : ServiceInner * list Z * result (option E) FsError :=
  if MAX_PENDING <=? Z.of_nat (length (sv_pending s)) then (s, [], Err NotSupported) else
  let '(server_end, client_end) := ends in
  let pending := sv_pending s ++ [server_end] in
  let '(q, ws) := heap_wake_one (sv_accept_wq s) in
  (mkServiceInner pending q, ws, Ok (Some client_end)).

Inductive svc_op : Type := SOpen (ends : E * E) | SAccept | SPoll (waker : option Z).

(** The clients' ends handed out, with the servers' ends accepted. *)
Fixpoint svc_run (s : ServiceInner) (ops : list svc_op) : ServiceInner * list E * list E :=
  match ops with
  | [] => (s, [], [])
  | op :: ops =>
      let '(s, opened, accepted) :=
        match op with
        | SOpen ends => let '(s, _, r) := connector_on_open s ends in
                        (s, match r with Ok (Some _) => [ends.1] | _ => [] end, [])
        | SAccept => let '(s, o) := try_accept s in (s, [], option_list o)
        | SPoll w => ((listener_poll_readiness s w).1, [], [])
        end in
      let '(s, opened', accepted') := svc_run s ops in
      (s, opened ++ opened', accepted ++ accepted')
  end.

Lemma svc_run_fifo ops s :
  let '(s', opened, accepted) := svc_run s ops in
  sv_pending s ++ opened = accepted ++ sv_pending s' /\
  (Z.of_nat (length (sv_pending s)) <= MAX_PENDING -> Z.of_nat (length (sv_pending s')) <= MAX_PENDING).
Proof.
  revert s. induction ops as [|op ops IH]; intros s; simpl; [by rewrite app_nil_r|].
  destruct op as [ends| |w].
  - unfold connector_on_open. destruct (Z.leb_spec MAX_PENDING (Z.of_nat (length (sv_pending s)))) as [Hf|Hf].
    + specialize (IH s). destruct (svc_run s ops) as [[s' o] a]. done.
    + destruct ends as [e1 e2]. destruct (heap_wake_one _) as [q ws].
      specialize (IH (mkServiceInner (sv_pending s ++ [e1]) q)). destruct (svc_run _ ops) as [[s' o] a].
      simpl in *. rewrite <- app_assoc in IH. rewrite length_app in IH. simpl in IH. split; [apply IH|intros; apply IH; lia].
  - unfold try_accept. destruct (sv_pending s) as [|e q] eqn:Hp.
    + specialize (IH s). destruct (svc_run s ops) as [[s' o] a]. by rewrite Hp in IH.
    + specialize (IH (mkServiceInner q (sv_accept_wq s))). destruct (svc_run _ ops) as [[s' o] a]. simpl in *.
      destruct IH as [-> H]. split; [done|intros; apply H; lia].
  - specialize (IH (listener_poll_readiness s w).1). destruct (svc_run _ ops) as [[s' o] a].
    assert (sv_pending (listener_poll_readiness s w).1 = sv_pending s) as Hs by (by destruct w). rewrite Hs in IH. done.
Qed.

End Service.

(** A service hands the listener every connection a client opened, in order,
    and holds at most [MAX_PENDING] of them. *)
Theorem service_fifo {E : Type} (ops : list (svc_op (E := E))) :
  let '(s, opened, accepted) := svc_run create_service ops in
  opened = accepted ++ sv_pending s /\ Z.of_nat (length (sv_pending s)) <= MAX_PENDING.
Proof.
  pose proof (svc_run_fifo ops (create_service (E := E))) as H. destruct (svc_run create_service ops) as [[s o] a].
  destruct H as [H1 H2]. split; [done|]. by apply H2.
Qed.
