(* ===== verification/Threads.v ===== *)
(** * Threads that share state

    The synchronization primitives are modelled as threads that take turns: a
    step is one atomic access to the shared state, or work on data that only
    the thread can see.  Memory is sequentially consistent.  A run is a list of
    labels; a label says which thread goes on, and settles what the code leaves
    open (which call comes next, whether a weak compare-exchange fails). *)

From S2P Require Import Prelude.

(** [None]: the step is not possible. *)
Fixpoint run {S L} (step : S -> L -> exec (option S)) (s : S) (ls : list L) : exec (option S) :=
  match ls with
  | [] => Ret (Some s)
  | l :: ls =>
      o ← step s l;
      match o with
      | Some s => run step s ls
      | None => Ret None
      end
  end.

Definition if_possible {S} (I : S -> Prop) (o : option S) : Prop := forall s, o = Some s -> I s.

Lemma if_possible_some {S} (I : S -> Prop) s : I s -> if_possible I (Some s).
Proof. by intros H ? [= <-]. Qed.

Lemma if_possible_none {S} (I : S -> Prop) : if_possible I None.
Proof. done. Qed.

Create HintDb threads discriminated.
#[export] Hint Resolve if_possible_some if_possible_none : threads.

(** An invariant of the steps is an invariant of the runs, and code that never
    panics in a step never panics in a run. *)
Lemma run_inv {S L} (step : S -> L -> exec (option S)) (I : S -> Prop) s ls :
  (forall s l, I s -> wp (step s l) (if_possible I)) ->
  I s -> wp (run step s ls) (if_possible I).
Proof.
  intros Hstep. revert s. induction ls as [|l ls IH]; intros s Hs; simpl.
  { apply wp_ret. by apply if_possible_some. }
  apply wp_bind. eapply wp_mono; [by apply Hstep|]. intros [s'|] H; [apply IH; by apply H|].
  apply wp_ret. apply if_possible_none.
Qed.

Lemma run_inv_eq {S L} (step : S -> L -> exec (option S)) (I : S -> Prop) s ls s' :
  (forall s l, I s -> wp (step s l) (if_possible I)) ->
  I s -> run step s ls = Ret (Some s') -> I s'.
Proof. intros Hstep Hs Hrun. eapply wp_use in Hrun; [|by apply run_inv]. by apply Hrun. Qed.

(** The same for invariants of steps that may panic. *)
Lemma run_preserves {S L} (step : S -> L -> exec (option S)) (I : S -> Prop) ls : forall s s',
  (forall s l s', I s -> step s l = Ret (Some s') -> I s') ->
  I s -> run step s ls = Ret (Some s') -> I s'.
Proof.
  induction ls as [|l ls IH]; intros s s' Hstep Hs; simpl; [by intros [= <-]|].
  intros ([s1|] & Hst & Hr)%bind_Ret_inv; [|done]. eapply IH; [done| |done]. by eapply Hstep.
Qed.

(** And for runs with labels of some kind only. *)
Lemma run_inv_labels {S L} (step : S -> L -> exec (option S)) (I : S -> Prop) (P : L -> Prop) ls : forall s,
  (forall s l, P l -> I s -> wp (step s l) (if_possible I)) ->
  Forall P ls -> I s -> wp (run step s ls) (if_possible I).
Proof.
  induction ls as [|l ls IH]; intros s Hstep Hf Hs; simpl; [by apply wp_ret, if_possible_some|].
  apply Forall_cons in Hf as [Hl Hf]. apply wp_bind. eapply wp_mono; [by apply Hstep|].
  intros [s'|] H; [apply IH; [done|done|by apply H]|]. apply wp_ret, if_possible_none.
Qed.

Lemma list_delete_insert {A} (l : list A) i x : delete i (<[i := x]> l) = delete i l.
Proof. revert i. induction l as [|a l IH]; intros [|i]; simpl; [done..|]. by rewrite IH. Qed.

(** What the threads own, all together, when one of them changes. *)
Lemma bind_insert_perm {A B} (f : A -> list B) (l : list A) i x y :
  l !! i = Some x -> exists r, l ≫= f ≡ₚ f x ++ r /\ <[i := y]> l ≫= f ≡ₚ f y ++ r.
Proof.
  intros Hx. exists (delete i l ≫= f).
  assert (forall z l', l' !! i = Some z -> l' ≫= f ≡ₚ f z ++ (delete i l' ≫= f)) as Hp.
  { intros z l' Hz. by rewrite (delete_Permutation l' i z Hz) at 1. }
  split; [by apply Hp|]. rewrite (Hp y) by (apply list_lookup_insert_eq; by eapply lookup_lt_Some).
  by rewrite list_delete_insert.
Qed.

(** ** Counting threads *)

Section Count.
Context {A : Type} (P : A -> bool).

Definition count (l : list A) : Z := Z.of_nat (length (filter (fun x => P x = true) l)).

Lemma count_cons x l : count (x :: l) = (if P x then 1 else 0) + count l.
Proof.
  unfold count. rewrite filter_cons.
  destruct (decide (P x = true)) as [->|H%not_true_is_false]; [|rewrite H]; simpl; lia.
Qed.

Lemma count_app l1 l2 : count (l1 ++ l2) = count l1 + count l2.
Proof. unfold count. rewrite filter_app, length_app. lia. Qed.

Lemma count_perm l1 l2 : l1 ≡ₚ l2 -> count l1 = count l2.
Proof. intros Hp. unfold count. by rewrite Hp. Qed.

Lemma count_all l : Forall (fun x => P x = true) l -> count l = Z.of_nat (length l).
Proof. induction 1 as [|x l Hx _ IH]; [done|]. rewrite count_cons, Hx, IH. simpl. lia. Qed.

Lemma count_insert (l : list A) i x y :
  l !! i = Some x ->
  count (<[i := y]> l) = count l - (if P x then 1 else 0) + (if P y then 1 else 0).
Proof.
  revert i. induction l as [|a l IH]; intros [|i] Hx; simplify_eq/=.
  - rewrite !count_cons. lia.
  - rewrite !count_cons, (IH i) by done. lia.
Qed.

Lemma count_bound l : 0 <= count l <= Z.of_nat (length l).
Proof. unfold count. pose proof (length_filter (fun x => P x = true) l). lia. Qed.

Lemma count_pos l i x : l !! i = Some x -> P x = true -> 0 < count l.
Proof.
  intros Hx HP. assert (x ∈ filter (fun x => P x = true) l) as Hin.
  { apply list_elem_of_filter. split; [done|]. by eapply list_elem_of_lookup_2. }
  unfold count. destruct (filter _ l); [by apply not_elem_of_nil in Hin|simpl; lia].
Qed.

Lemma count_zero l : (forall i x, l !! i = Some x -> P x = false) -> count l = 0.
Proof.
  intros H. induction l as [|a l IH]; [done|]. rewrite count_cons, (H 0%nat a) by done.
  rewrite IH; [done|]. intros i x Hx. by apply (H (S i)).
Qed.

(** Two different threads count twice. *)
Lemma count_two l i j x y :
  l !! i = Some x -> l !! j = Some y -> P x = true -> P y = true -> i <> j -> 2 <= count l.
Proof.
  revert i j. induction l as [|a l IH]; intros [|i] [|j] Hx Hy HPx HPy Hne; simplify_eq/=.
  - rewrite count_cons, HPx. pose proof (count_pos l j y Hy HPy). lia.
  - rewrite count_cons, HPy. pose proof (count_pos l i x Hx HPx). lia.
  - rewrite count_cons. specialize (IH i j Hx Hy HPx HPy ltac:(congruence)). destruct (P a); lia.
Qed.
End Count.
