(* ===== verification/Signal.v ===== *)
(** * Signals

    Pending, blocked and handled signals of a process (kernel/src/proc/signal.rs),
    their delivery to handlers of the program (kernel/src/proc/mod.rs), and the
    system calls around them (kernel/src/syscall/process.rs, userptr.rs).  The
    operations exist twice: as calls that run alone, for the code that delivers
    signals, and as threads that share a [SignalState], one atomic access at a
    time. *)

From S2P Require Import Prelude Mem Std FsTypes Threads.

Definition SIGINT : Z := 2.
Definition SIGQUIT : Z := 3.
Definition SIGKILL : Z := 9.
Definition SIGSEGV : Z := 11.
Definition SIGPIPE : Z := 13.
Definition SIGTERM : Z := 15.
Definition SIGCHLD : Z := 17.
Definition SIGSTOP : Z := 19.
Definition SIG_DFL : Z := 0.
Definition SIG_IGN : Z := 1.
Definition SA_RESTART : Z := 0x10000000.
Definition SA_RESETHAND : Z := 0x80000000.
Definition MAX_SIGNAL : Z := 63.
Definition HANDLER_TABLE_SIZE : nat := 64.

Definition is_valid (signum : Z) : bool := (1 <=? signum) && (signum <=? MAX_SIGNAL).

Inductive SignalAction : Type := ActTerminate | ActIgnore.

Definition default_action (signum : Z) : SignalAction :=
  if existsb (Z.eqb signum) [SIGINT; SIGKILL; SIGQUIT; SIGSEGV; SIGPIPE; SIGTERM] then ActTerminate
  else if signum =? SIGCHLD then ActIgnore
  else ActTerminate.

Inductive SignalDisposition : Type :=
| DispDefault (a : SignalAction)
| DispIgnore
| DispHandler (handler : Z).

Definition PACKED_FLAG_RESTART : Z := Z.shiftl 1 48.
Definition PACKED_FLAG_RESETHAND : Z := Z.shiftl 1 49.
Definition PACKED_HANDLER_MASK : Z := Z.shiftl 1 48 - 1.

Definition pack_flags (sa_flags : Z) : Z :=
  let packed := 0 in
  let packed := if negb (Z.land sa_flags SA_RESTART =? 0) then Z.lor packed PACKED_FLAG_RESTART else packed in
  if negb (Z.land sa_flags SA_RESETHAND =? 0) then Z.lor packed PACKED_FLAG_RESETHAND else packed.

Definition unpack_flags (packed : Z) : Z :=
  let flags := 0 in
  let flags := if negb (Z.land packed PACKED_FLAG_RESTART =? 0) then Z.lor flags SA_RESTART else flags in
  if negb (Z.land packed PACKED_FLAG_RESETHAND =? 0) then Z.lor flags SA_RESETHAND else flags.

Record SignalState : Type := mkSignalState {
  ss_pending : Z;
  ss_blocked : Z;
  ss_handlers : list Z;
}.

Definition with_pending (self : SignalState) (p : Z) : SignalState := mkSignalState p (ss_blocked self) (ss_handlers self).
Definition with_blocked (self : SignalState) (b : Z) : SignalState := mkSignalState (ss_pending self) b (ss_handlers self).
Definition with_handlers (self : SignalState) (h : list Z) : SignalState := mkSignalState (ss_pending self) (ss_blocked self) h.

Definition SignalState_new : SignalState := mkSignalState 0 0 (replicate HANDLER_TABLE_SIZE SIG_DFL).

Definition post (self : SignalState) (signum : Z) : SignalState :=
  if is_valid signum then with_pending self (Z.lor (ss_pending self) (Z.shiftl 1 signum)) else self.

Definition unblockable : Z := Z.lor (Z.shiftl 1 SIGKILL) (Z.shiftl 1 SIGSTOP).

Definition deliverable (pending blocked : Z) : Z := Z.land pending (Z.lor (not64 blocked) unblockable).

(** The signal a round of [dequeue] chooses. *)
Definition dequeue_pick (pending blocked : Z) : option Z :=
  let d := deliverable pending blocked in
  if d =? 0 then None
  else Some (if negb (Z.land d (Z.shiftl 1 SIGKILL) =? 0) then SIGKILL else trailing_zeros64 d).

Definition dequeue_clear (pending signum : Z) : Z := Z.land pending (not64 (Z.shiftl 1 signum)).

Definition dequeue (self : SignalState) : SignalState * option Z :=
  match dequeue_pick (ss_pending self) (ss_blocked self) with
  | None => (self, None)
  | Some signum => (with_pending self (dequeue_clear (ss_pending self) signum), Some signum)
  end.

Definition has_pending (self : SignalState) : bool := negb (deliverable (ss_pending self) (ss_blocked self) =? 0).

(** The mask a round of [set_mask] computes; none for another [how]. *)
Definition set_mask_new (how set old : Z) : option Z :=
  let new := if how =? 0 then Some (Z.lor old set)
             else if how =? 1 then Some (Z.land old (not64 set))
             else if how =? 2 then Some set
             else None in
  match new with
  | Some new => Some (Z.land new (not64 unblockable))
  | None => None
  end.

Definition set_mask (self : SignalState) (how set : Z) : SignalState * Z :=
  let old := ss_blocked self in
  match set_mask_new how set old with
  | Some new => (with_blocked self new, old)
  | None => (self, old)
  end.

Definition handler_at (self : SignalState) (signum : Z) : exec Z :=
  match ss_handlers self !! Z.to_nat signum with Some p => Ret p | None => Panic end.

Definition store_handler (self : SignalState) (signum p : Z) : SignalState :=
  with_handlers self (<[Z.to_nat signum := p]> (ss_handlers self)).

Definition set_handler (self : SignalState) (signum handler sa_flags : Z) : exec (SignalState * option Z) :=
  if negb (is_valid signum) || (signum =? SIGKILL) || (signum =? SIGSTOP) then Ret (self, None) else
  let packed := Z.lor (Z.land handler PACKED_HANDLER_MASK) (pack_flags sa_flags) in
  old ← handler_at self signum;
  Ret (store_handler self signum packed, Some (Z.land old PACKED_HANDLER_MASK)).

Definition get_handler (self : SignalState) (signum : Z) : exec Z :=
  if negb (is_valid signum) then Ret SIG_DFL else
  p ← handler_at self signum;
  Ret (Z.land p PACKED_HANDLER_MASK).

Definition get_flags (self : SignalState) (signum : Z) : exec Z :=
  if negb (is_valid signum) then Ret 0 else
  p ← handler_at self signum;
  Ret (unpack_flags p).

Definition has_restart (self : SignalState) (signum : Z) : exec bool :=
  f ← get_flags self signum;
  Ret (negb (Z.land f SA_RESTART =? 0)).

(** The loop of [reset_handlers], from entry [i] on, [n] entries left. *)
Fixpoint reset_from (i : Z) (n : nat) (self : SignalState) : SignalState :=
  match n with
  | O => self
  | S n => reset_from (i + 1) n (store_handler self i SIG_DFL)
  end.

Definition reset_handlers (self : SignalState) : SignalState := reset_from 1 (HANDLER_TABLE_SIZE - 1) self.

Definition needs_reset (current : Z) : bool :=
  negb (Z.land current PACKED_FLAG_RESETHAND =? 0) && negb (Z.land current PACKED_HANDLER_MASK =? SIG_DFL).

(** The end of [disposition]. *)
Definition disposition_of (signum packed : Z) : SignalDisposition :=
  let handler := Z.land packed PACKED_HANDLER_MASK in
  if handler =? SIG_DFL then DispDefault (default_action signum)
  else if handler =? SIG_IGN then DispIgnore
  else DispHandler handler.

Definition disposition (self : SignalState) (signum : Z) : exec (SignalState * SignalDisposition) :=
  if (signum =? SIGKILL) || (signum =? SIGSTOP) then Ret (self, DispDefault (default_action signum)) else
  if is_valid signum then
    current ← handler_at self signum;
    Ret (if needs_reset current then store_handler self signum SIG_DFL else self, disposition_of signum current)
  else Ret (self, disposition_of signum SIG_DFL).

(** ** Delivery *)

Record UserRegisters : Type := mkUserRegisters {
  ur_rax : Z; ur_rbx : Z; ur_rcx : Z; ur_rdx : Z; ur_rsi : Z; ur_rdi : Z; ur_rbp : Z; ur_r8 : Z; ur_r9 : Z;
  ur_r10 : Z; ur_r11 : Z; ur_r12 : Z; ur_r13 : Z; ur_r14 : Z; ur_r15 : Z; ur_rip : Z; ur_rsp : Z; ur_rflags : Z;
}.

Record SignalFrame : Type := mkSignalFrame {
  sg_ret_addr : Z; sg_signum : Z;
  sg_rax : Z; sg_rbx : Z; sg_rcx : Z; sg_rdx : Z; sg_rsi : Z; sg_rdi : Z; sg_rbp : Z; sg_r8 : Z; sg_r9 : Z;
  sg_r10 : Z; sg_r11 : Z; sg_r12 : Z; sg_r13 : Z; sg_r14 : Z; sg_r15 : Z; sg_rip : Z; sg_rsp : Z; sg_rflags : Z;
}.

Definition SIGRETURN_TRAMPOLINE : Z := 0x7FFFFFFE0000.

(** The words of a frame in memory. *)
Definition frame_words (f : SignalFrame) : list Z :=
  [sg_ret_addr f; sg_signum f; sg_rax f; sg_rbx f; sg_rcx f; sg_rdx f; sg_rsi f; sg_rdi f; sg_rbp f; sg_r8 f; sg_r9 f;
   sg_r10 f; sg_r11 f; sg_r12 f; sg_r13 f; sg_r14 f; sg_r15 f; sg_rip f; sg_rsp f; sg_rflags f].

Definition frame_at (m : mem) (a : Z) : SignalFrame :=
  let w i := load64 m (a + 8 * i) in
  mkSignalFrame (w 0) (w 1) (w 2) (w 3) (w 4) (w 5) (w 6) (w 7) (w 8) (w 9) (w 10) (w 11) (w 12) (w 13) (w 14) (w 15) (w 16) (w 17) (w 18) (w 19).

(** The memory behind a page table, and the bytes the kernel can reach there; to
    touch another one is a fault in the kernel. *)
Record UserMemory : Type := mkUserMemory {
  um_bytes : mem;
  um_ok : Z -> bool;
}.

Definition reachable (um : UserMemory) (a n : Z) : bool := forallb (um_ok um) (seqZ a n).

Fixpoint store_words (m : mem) (a : Z) (ws : list Z) : mem :=
  match ws with
  | [] => m
  | w :: ws => store_words (store64 m a w) (a + 8) ws
  end.

Definition write_user (um : UserMemory) (a : Z) (ws : list Z) : exec UserMemory :=
  if reachable um a (8 * Z.of_nat (length ws)) then Ret (mkUserMemory (store_words (um_bytes um) a ws) (um_ok um))
  else Panic.

Definition read_frame (um : UserMemory) (a : Z) : exec SignalFrame :=
  if reachable um a 160 then Ret (frame_at (um_bytes um) a) else Panic.

Definition deliver_signal_to_handler (um : UserMemory) (ctx : UserRegisters) (signum handler_addr : Z)
    : exec (UserMemory * UserRegisters * bool) :=
  let frame := mkSignalFrame SIGRETURN_TRAMPOLINE signum
    (ur_rax ctx) (ur_rbx ctx) (ur_rcx ctx) (ur_rdx ctx) (ur_rsi ctx) (ur_rdi ctx) (ur_rbp ctx) (ur_r8 ctx) (ur_r9 ctx)
    (ur_r10 ctx) (ur_r11 ctx) (ur_r12 ctx) (ur_r13 ctx) (ur_r14 ctx) (ur_r15 ctx) (ur_rip ctx) (ur_rsp ctx) (ur_rflags ctx) in
  let frame_size := 160 in
  below ← sub64 (ur_rsp ctx) frame_size;
  let new_rsp := Z.land below (not64 0xF) in
  if (new_rsp <? 0x1000) || (ur_rsp ctx <? new_rsp) then Ret (um, ctx, false) else
  um ← write_user um new_rsp (frame_words frame);
  Ret (um, mkUserRegisters (ur_rax ctx) (ur_rbx ctx) (ur_rcx ctx) 0 0 signum (ur_rbp ctx) (ur_r8 ctx) (ur_r9 ctx)
    (ur_r10 ctx) (ur_r11 ctx) (ur_r12 ctx) (ur_r13 ctx) (ur_r14 ctx) (ur_r15 ctx) handler_addr new_rsp (ur_rflags ctx), true).

Inductive SignalCheckResult : Type := CheckNone | CheckTerminate (exit_code : Z) | CheckDelivered.

(** The loop of [check_signals]; [n] bounds its rounds. *)
Fixpoint check_signals_loop (n : nat) (self : SignalState) (um : UserMemory) (ctx : UserRegisters)
    : exec (SignalState * UserMemory * UserRegisters * SignalCheckResult) :=
  match n with
  | O => Panic
  | S n =>
      let '(self, o) := dequeue self in
      match o with
      | None => Ret (self, um, ctx, CheckNone)
      | Some sig =>
          '(self, d) ← disposition self sig;
          match d with
          | DispDefault ActTerminate => Ret (self, um, ctx, CheckTerminate (128 + sig))
          | DispDefault ActIgnore | DispIgnore => check_signals_loop n self um ctx
          | DispHandler handler_addr =>
              '(um, ctx, delivered) ← deliver_signal_to_handler um ctx sig handler_addr;
              Ret (self, um, ctx, if delivered : bool then CheckDelivered else CheckTerminate (128 + sig))
          end
      end
  end.

(** 64 signals at most are pending, and each round takes one. *)
Definition check_signals (self : SignalState) (um : UserMemory) (ctx : UserRegisters)
    : exec (SignalState * UserMemory * UserRegisters * SignalCheckResult) := check_signals_loop 65 self um ctx.

Definition sys_task_sigreturn (um : UserMemory) (user_rsp : Z) : exec UserRegisters :=
  frame_addr ← sub64 user_rsp 8;
  f ← read_frame um frame_addr;
  Ret (mkUserRegisters (sg_rax f) (sg_rbx f) (sg_rcx f) (sg_rdx f) (sg_rsi f) (sg_rdi f) (sg_rbp f) (sg_r8 f) (sg_r9 f)
    (sg_r10 f) (sg_r11 f) (sg_r12 f) (sg_r13 f) (sg_r14 f) (sg_r15 f) (sg_rip f) (sg_rsp f) (sg_rflags f)).

(** ** System calls *)

Definition USER_ADDR_MAX : Z := 0x800000000000.

Record UserSlice : Type := mkUserSlice { us_addr : Z; us_len : Z }.

Definition UserSlice_new (addr len : Z) : result UserSlice Z :=
  if len =? 0 then Ok (mkUserSlice 0 0) else
  match checked_add64 addr len with
  | None => Err (- errno EFAULT)
  | Some e => if USER_ADDR_MAX <? e then Err (- errno EFAULT) else Ok (mkUserSlice addr len)
  end.

(** [UserPtr::<T>::new], for a [T] of the given size and alignment. *)
Definition UserPtr_new (size align addr : Z) : result Z Z :=
  if (1 <? align) && negb (addr mod align =? 0) then Err (- errno EFAULT) else
  match checked_add64 addr size with
  | None => Err (- errno EFAULT)
  | Some e => if USER_ADDR_MAX <? e then Err (- errno EFAULT) else Ok addr
  end.

Definition sys_task_sigaction (self : SignalState) (um : UserMemory) (signum handler flags old_handler_out : Z)
    : exec (SignalState * UserMemory * Z) :=
  '(self, o) ← set_handler self signum handler (flags mod 2 ^ 32);
  match o with
  | None => Ret (self, um, - errno EINVAL)
  | Some old =>
      if negb (old_handler_out =? 0) then
        match UserSlice_new old_handler_out 8 with
        | Ok slice => um ← write_user um (us_addr slice) [old]; Ret (self, um, 0)
        | Err e => Ret (self, um, e)
        end
      else Ret (self, um, 0)
  end.

Definition sys_task_sigprocmask (self : SignalState) (um : UserMemory) (how set oldset_out : Z)
    : exec (SignalState * UserMemory * Z) :=
  let '(self, old_mask) := set_mask self how set in
  if negb (oldset_out =? 0) then
    match UserPtr_new 8 8 oldset_out with
    | Err _ => Ret (self, um, - errno EFAULT)
    | Ok user_ptr => um ← write_user um user_ptr [old_mask]; Ret (self, um, 0)
    end
  else Ret (self, um, 0).

(** ** A handler and its return *)

Definition reg_words (r : UserRegisters) : list Z :=
  [ur_rax r; ur_rbx r; ur_rcx r; ur_rdx r; ur_rsi r; ur_rdi r; ur_rbp r; ur_r8 r; ur_r9 r; ur_r10 r; ur_r11 r;
   ur_r12 r; ur_r13 r; ur_r14 r; ur_r15 r; ur_rip r; ur_rsp r; ur_rflags r].

Lemma store_words_out m a ws x : ~ (a <= x < a + 8 * Z.of_nat (length ws)) -> store_words m a ws x = m x.
Proof.
  revert m a. induction ws as [|w ws IH]; intros m a Hx; [done|]. cbn [store_words length] in *.
  rewrite IH by lia. apply (store_changed 8). change (Z.of_nat 8) with 8. lia.
Qed.

Lemma load_store_words m a ws i w :
  Forall is_u64 ws -> ws !! i = Some w -> load64 (store_words m a ws) (a + 8 * Z.of_nat i) = w.
Proof.
  intros Hws. revert m a i. induction Hws as [|v ws Hv Hws IH]; intros m a i Hi; [done|].
  cbn [store_words]. destruct i as [|i]; simplify_eq/=.
  - rewrite Z.add_0_r. rewrite (load_ext 8 (store64 m a w)); [by apply load64_store64_eq|].
    intros x Hx. apply store_words_out. lia.
  - rewrite <- (IH (store64 m a v) (a + 8) i Hi). f_equal. lia.
Qed.

(** A frame in memory is read back. *)
Lemma frame_at_stored m m' a f :
  Forall is_u64 (frame_words f) ->
  (forall x, a + 8 <= x < a + 160 -> m' x = store_words m a (frame_words f) x) ->
  forall i w, (0 < i)%nat -> frame_words f !! i = Some w -> load64 m' (a + 8 * Z.of_nat i) = w.
Proof.
  intros Hf Hm i w Hi Hw. rewrite <- (load_store_words m a (frame_words f) i w Hf Hw).
  apply lookup_lt_Some in Hw. change (length (frame_words f)) with 20%nat in Hw.
  apply load_ext. intros x Hx. apply Hm. lia.
Qed.

Ltac word_of H k :=
  first [exact (H k _ ltac:(lia) eq_refl) | let k' := constr:(S k) in word_of H k'].

(** The registers come back from the frame, whatever became of the first word. *)
Lemma frame_registers m m' a ctx signum :
  let f := mkSignalFrame SIGRETURN_TRAMPOLINE signum
    (ur_rax ctx) (ur_rbx ctx) (ur_rcx ctx) (ur_rdx ctx) (ur_rsi ctx) (ur_rdi ctx) (ur_rbp ctx) (ur_r8 ctx) (ur_r9 ctx)
    (ur_r10 ctx) (ur_r11 ctx) (ur_r12 ctx) (ur_r13 ctx) (ur_r14 ctx) (ur_r15 ctx) (ur_rip ctx) (ur_rsp ctx) (ur_rflags ctx) in
  Forall is_u64 (frame_words f) ->
  (forall x, a + 8 <= x < a + 160 -> m' x = store_words m a (frame_words f) x) ->
  let g := frame_at m' a in
  mkUserRegisters (sg_rax g) (sg_rbx g) (sg_rcx g) (sg_rdx g) (sg_rsi g) (sg_rdi g) (sg_rbp g) (sg_r8 g) (sg_r9 g)
    (sg_r10 g) (sg_r11 g) (sg_r12 g) (sg_r13 g) (sg_r14 g) (sg_r15 g) (sg_rip g) (sg_rsp g) (sg_rflags g) = ctx.
Proof.
  intros f Hf Hm g. pose proof (frame_at_stored m m' a f Hf Hm) as H. unfold f, frame_words in H. simpl in H. clear Hm Hf f.
  unfold g, frame_at. simpl. clear g. destruct ctx. simpl in H. f_equal; word_of H 2%nat.
Qed.

(** The stack a frame goes to. *)
Definition frame_base (rsp : Z) : Z := 16 * ((rsp - 160) / 16).

Lemma frame_base_range rsp : frame_base rsp mod 16 = 0 /\ rsp - 175 <= frame_base rsp /\ frame_base rsp <= rsp - 160.
Proof. unfold frame_base. divlia. Qed.

Lemma is_valid_range s : is_valid s = true <-> 1 <= s <= 63.
Proof. unfold is_valid, MAX_SIGNAL. rewrite andb_true_iff, !Z.leb_le. lia. Qed.

(** The program is in the handler of [signum], on a frame below its stack; when
    the handler returns, it goes on where it was. *)
Definition in_handler (um : UserMemory) (ctx : UserRegisters) (signum handler : Z) (um' : UserMemory) (ctx' : UserRegisters) : Prop :=
  let rsp := ur_rsp ctx' in
  ur_rip ctx' = handler /\ ur_rdi ctx' = signum /\ rsp mod 16 = 0 /\ rsp + 160 <= ur_rsp ctx /\
  load64 (um_bytes um') rsp = SIGRETURN_TRAMPOLINE /\
  (forall x, ~ (rsp <= x < rsp + 160) -> um_bytes um' x = um_bytes um x) /\
  forall m, (forall x, rsp + 8 <= x < rsp + 160 -> m x = um_bytes um' x) ->
    sys_task_sigreturn (mkUserMemory m (um_ok um)) (rsp + 8) = Ret ctx.

(** A stack with room for a frame. *)
Definition stack_ok (um : UserMemory) (ctx : UserRegisters) : Prop :=
  Forall is_u64 (reg_words ctx) /\ 0x1000 + 175 <= ur_rsp ctx /\ reachable um (frame_base (ur_rsp ctx)) 160 = true.

Lemma wp_deliver_signal um ctx signum handler :
  stack_ok um ctx -> is_valid signum = true ->
  wp (deliver_signal_to_handler um ctx signum handler) (fun '(um', ctx', delivered) =>
    delivered = true /\ in_handler um ctx signum handler um' ctx').
Proof.
  intros (Hregs & Hrsp & Hok) Hsig. unfold in_handler. pose proof (proj1 (is_valid_range signum) Hsig) as Hs.
  assert (is_u64 (ur_rsp ctx)) as Hu by (rewrite Forall_forall in Hregs; apply Hregs; do 16 right; left).
  assert (is_u64 (ur_rsp ctx - 160)) as Hu' by (unfold is_u64 in *; lia).
  pose proof (frame_base_range (ur_rsp ctx)) as (Hb1 & Hb2 & Hb3).
  unfold deliver_signal_to_handler. wp_step. wp_step. change 0xF with (2 ^ 4 - 1). rewrite (land_not_mask _ 4) by (done || lia).
  change (2 ^ 4 * ((ur_rsp ctx - 160) / 2 ^ 4)) with (frame_base (ur_rsp ctx)).
  rewrite (proj2 (Z.ltb_ge _ _)), (proj2 (Z.ltb_ge _ _)) by lia. cbn [orb]. set (f := mkSignalFrame _ _ _ _ _ _ _ _ _ _ _ _ _ _ _ _ _ _ _ _).
  assert (Forall is_u64 (frame_words f)) as Hf.
  { unfold f, frame_words. simpl. apply Forall_cons. split; [done|]. apply Forall_cons. split; [unfold is_u64, U64; lia|]. exact Hregs. }
  unfold write_user. change (8 * Z.of_nat (length (frame_words f))) with 160. rewrite Hok. do 2 wp_step. apply wp_ret. cbv beta iota zeta. cbn [ur_rsp ur_rip ur_rdi um_bytes].
  split_and!; [done|done|done|done|lia| |by intros x Hx; apply store_words_out|].
  - rewrite <- (Z.add_0_r (frame_base _)) at 2. by apply (load_store_words _ _ (frame_words f) 0%nat).
  - intros m Hm. unfold sys_task_sigreturn, sub64. rewrite (proj2 (Z.leb_le _ _)) by lia. cbn [mbind exec_bind].
    replace (frame_base (ur_rsp ctx) + 8 - 8) with (frame_base (ur_rsp ctx)) by lia. unfold read_frame.
    change (reachable (mkUserMemory m (um_ok um))) with (reachable um). rewrite Hok. cbn [mbind exec_bind um_bytes].
    f_equal. by apply (frame_registers (um_bytes um) m _ ctx signum).
Qed.

(** ** Bits as sets of signals *)

Definition bits (x : Z) : gset Z := list_to_set (filter (fun s => Z.testbit x s = true) (seqZ 1 63)).

Definition fatal : gset Z := {[SIGKILL; SIGSTOP]}.

Lemma elem_of_bits s x : s ∈ bits x <-> 1 <= s <= 63 /\ Z.testbit x s = true.
Proof. unfold bits. rewrite elem_of_list_to_set, list_elem_of_filter, elem_of_seqZ. split; intros [? ?]; split; (done || lia). Qed.

Lemma shift_testbit s i : 0 <= s -> 0 <= i -> Z.testbit (Z.shiftl 1 s) i = (i =? s).
Proof. intros Hs Hi. rewrite Z.shiftl_1_l, Z.pow2_bits_eqb by done. by rewrite Z.eqb_sym. Qed.

Lemma bits_post p s : 1 <= s <= 63 -> bits (Z.lor p (Z.shiftl 1 s)) = {[s]} ∪ bits p.
Proof.
  intros Hs. apply set_eq. intros i. rewrite elem_of_union, elem_of_singleton, !elem_of_bits, Z.lor_spec.
  destruct (decide (1 <= i)) as [Hi|Hi]; [|naive_solver lia]. rewrite shift_testbit, orb_true_iff, Z.eqb_eq by lia. naive_solver.
Qed.

Lemma bits_clear p s : 1 <= s <= 63 -> bits (dequeue_clear p s) = bits p ∖ {[s]}.
Proof.
  intros Hs. apply set_eq. intros i. rewrite elem_of_difference, elem_of_singleton, !elem_of_bits. unfold dequeue_clear.
  destruct (decide (1 <= i <= 63)) as [Hi|Hi]; [|naive_solver lia].
  rewrite Z.land_spec, not64_testbit, shift_testbit, andb_true_iff, negb_true_iff, Z.eqb_neq by lia. naive_solver.
Qed.

Lemma unblockable_testbit i : 0 <= i -> Z.testbit unblockable i = (i =? SIGKILL) || (i =? SIGSTOP).
Proof. intros Hi. unfold unblockable. by rewrite Z.lor_spec, !shift_testbit. Qed.

(** The signals a process can get, and the one it gets. *)
Definition open (P B : gset Z) : gset Z := P ∖ (B ∖ fatal).

Definition chosen (P B : gset Z) (s : Z) : Prop :=
  s ∈ open P B /\ (SIGKILL ∈ P -> s = SIGKILL) /\ (SIGKILL ∉ P -> forall j, j ∈ open P B -> s <= j).

Lemma bits_deliverable p b : bits (deliverable p b) = open (bits p) (bits b).
Proof.
  apply set_eq. intros i. unfold open, fatal, deliverable.
  rewrite !elem_of_difference, elem_of_union, !elem_of_singleton, !elem_of_bits.
  destruct (decide (1 <= i <= 63)) as [Hi|Hi]; [|naive_solver lia].
  rewrite Z.land_spec, Z.lor_spec, not64_testbit, unblockable_testbit by lia.
  destruct (Z.testbit p i), (Z.testbit b i), (Z.eqb_spec i SIGKILL), (Z.eqb_spec i SIGSTOP); naive_solver.
Qed.

(** A mask of pending signals: 64 bits, the lowest unused. *)
Definition mask_ok (p : Z) : Prop := is_u64 p /\ Z.testbit p 0 = false.

Lemma bits_empty p : mask_ok p -> bits p = ∅ -> p = 0.
Proof.
  intros [Hu H0] He. apply Z.bits_inj'. intros i Hi. rewrite Z.bits_0. destruct (decide (i = 0)) as [->|Hne]; [done|].
  destruct (decide (i <= 63)) as [Hl|Hl]; [|by apply (proj2 (proj1 (is_u64_bits p) Hu)); lia].
  apply not_true_is_false. intros Ht. assert (i ∈ bits p) as Hin by (apply elem_of_bits; split; [lia|done]).
  by rewrite He in Hin.
Qed.

Lemma trailing_zeros64_below x i : is_u64 x -> 0 <= i < trailing_zeros64 x -> Z.testbit x i = false.
Proof. destruct x as [|p|p]; simpl; intros [? ?] Hi; [apply Z.testbit_0_l|by apply pos_tz_below|lia]. Qed.

Lemma deliverable_ok p b : mask_ok p -> mask_ok (deliverable p b).
Proof.
  intros [[Hp Hb]%is_u64_bits H0]. unfold deliverable. split; [|by rewrite Z.land_spec, H0].
  apply is_u64_bits. split; [apply Z.land_nonneg; by left|]. intros i Hi. by rewrite Z.land_spec, Hb.
Qed.

(** [dequeue] chooses among the open signals: SIGKILL, else the lowest. *)
Lemma dequeue_pick_spec p b :
  mask_ok p ->
  match dequeue_pick p b with
  | None => open (bits p) (bits b) = ∅
  | Some s => chosen (bits p) (bits b) s
  end.
Proof.
  intros Hp. pose proof (deliverable_ok p b Hp) as [Hu H0]. unfold dequeue_pick, chosen. rewrite <- bits_deliverable.
  destruct (Z.eqb_spec (deliverable p b) 0) as [->|Hd]; [by vm_compute|].
  rewrite land_bit_eqb, negb_involutive by done.
  assert (SIGKILL ∈ bits (deliverable p b) <-> SIGKILL ∈ bits p) as Hk.
  { rewrite bits_deliverable. unfold open, fatal. set_solver. }
  destruct (Z.testbit (deliverable p b) SIGKILL) eqn:E.
  - assert (SIGKILL ∈ bits (deliverable p b)) as Hin by (apply elem_of_bits; by split; [unfold SIGKILL|]).
    split; [done|]. split; [done|]. intros Hn. by rewrite Hk in Hin.
  - assert (SIGKILL ∉ bits (deliverable p b)) as Hn by (rewrite elem_of_bits, E; naive_solver).
    destruct (trailing_zeros64_spec _ Hu Hd) as [Hr Ht]. set (s := trailing_zeros64 _) in *.
    assert (s <> 0) as Hs0 by (intros Es; congruence).
    split; [apply elem_of_bits; split; [lia|done]|]. split; [by rewrite <- Hk; intros ?|].
    intros _ j [Hj Hjt]%elem_of_bits. destruct (Z.lt_ge_cases j s) as [Hlt|]; [|done].
    rewrite (trailing_zeros64_below _ j Hu) in Hjt by (fold s; lia). done.
Qed.

Lemma chosen_range p B s : chosen (bits p) B s -> 1 <= s <= 63 /\ s ∈ bits p.
Proof. intros [Hs _]. unfold open in Hs. apply elem_of_difference in Hs as [Hs _]. split; [by apply elem_of_bits in Hs as [? _]|done]. Qed.

Lemma clear_ok p s : mask_ok p -> mask_ok (dequeue_clear p s).
Proof.
  intros [[Hp Hb]%is_u64_bits H0]. unfold dequeue_clear. split; [|by rewrite Z.land_spec, H0].
  apply is_u64_bits. split; [apply Z.land_nonneg; by left|]. intros i Hi. by rewrite Z.land_spec, Hb.
Qed.

Lemma post_ok p s : 1 <= s <= 63 -> mask_ok p -> mask_ok (Z.lor p (Z.shiftl 1 s)).
Proof.
  intros Hs [[Hp Hb]%is_u64_bits H0]. split; [|rewrite Z.lor_spec, H0, shift_testbit by lia; apply Z.eqb_neq; lia].
  apply is_u64_bits. split; [apply Z.lor_nonneg; split; [done|by apply Z.shiftl_nonneg]|].
  intros i Hi. rewrite Z.lor_spec, Hb, shift_testbit by lia. apply Z.eqb_neq. lia.
Qed.

(** The mask after [set_mask]. *)
Definition new_mask (how : Z) (S B : gset Z) : option (gset Z) :=
  if how =? 0 then Some ((B ∪ S) ∖ fatal)
  else if how =? 1 then Some ((B ∖ S) ∖ fatal)
  else if how =? 2 then Some (S ∖ fatal)
  else None.

Lemma set_mask_bits how set old : new_mask how (bits set) (bits old) = bits <$> set_mask_new how set old.
Proof.
  assert (forall x, bits (Z.land x (not64 unblockable)) = bits x ∖ fatal) as Hf.
  { intros x. apply set_eq. intros i. unfold fatal. rewrite elem_of_difference, elem_of_union, !elem_of_singleton, !elem_of_bits.
    destruct (decide (1 <= i <= 63)) as [Hi|Hi]; [|naive_solver lia].
    rewrite Z.land_spec, not64_testbit, unblockable_testbit by lia.
    destruct (Z.testbit x i), (Z.eqb_spec i SIGKILL), (Z.eqb_spec i SIGSTOP); naive_solver. }
  unfold new_mask, set_mask_new. destruct (how =? 0); [|destruct (how =? 1); [|destruct (how =? 2); [|done]]];
    simpl; rewrite Hf; do 2 f_equal; apply set_eq; intros i; rewrite ?elem_of_union, ?elem_of_difference, !elem_of_bits.
  - rewrite Z.lor_spec, orb_true_iff. naive_solver.
  - destruct (decide (1 <= i <= 63)) as [Hi|Hi]; [|naive_solver lia].
    rewrite Z.land_spec, not64_testbit, andb_true_iff, negb_true_iff by lia. destruct (Z.testbit set i); naive_solver.
Qed.

(** ** Packed handlers as actions *)

Record action : Type := mkAction { ac_handler : Z; ac_restart : bool; ac_once : bool }.

Definition plain : action := mkAction SIG_DFL false false.

Definition action_of (packed : Z) : action :=
  mkAction (Z.land packed PACKED_HANDLER_MASK) (Z.testbit packed 48) (Z.testbit packed 49).

Definition action_for (handler sa_flags : Z) : action :=
  mkAction (handler mod 2 ^ 48) (Z.testbit sa_flags 28) (Z.testbit sa_flags 31).

Definition fires_once (a : action) : bool := ac_once a && negb (ac_handler a =? SIG_DFL).

Definition outcome (signum : Z) (a : action) : SignalDisposition :=
  if ac_handler a =? SIG_DFL then DispDefault (default_action signum)
  else if ac_handler a =? SIG_IGN then DispIgnore
  else DispHandler (ac_handler a).

Lemma needs_reset_eq p : needs_reset p = fires_once (action_of p).
Proof. unfold needs_reset, fires_once, PACKED_FLAG_RESETHAND. by rewrite land_bit_eqb, negb_involutive. Qed.

Lemma mask48 x : Z.land x PACKED_HANDLER_MASK = x mod 2 ^ 48.
Proof. change PACKED_HANDLER_MASK with (Z.ones 48). by apply Z.land_ones. Qed.

Lemma pack_flags_eq f : pack_flags f =
  Z.lor (if Z.testbit f 28 then Z.shiftl 1 48 else 0) (if Z.testbit f 31 then Z.shiftl 1 49 else 0).
Proof.
  unfold pack_flags, SA_RESTART, SA_RESETHAND. change 0x10000000 with (Z.shiftl 1 28). change 0x80000000 with (Z.shiftl 1 31).
  rewrite !land_bit_eqb, !negb_involutive by done. by destruct (Z.testbit f 28), (Z.testbit f 31).
Qed.

(** What [set_handler] stores is the action it was given. *)
Lemma pack_action handler f :
  action_of (Z.lor (Z.land handler PACKED_HANDLER_MASK) (pack_flags f)) = action_for handler f.
Proof.
  rewrite mask48, pack_flags_eq. unfold action_of, action_for. rewrite mask48, !Z.lor_spec.
  assert (forall i, 48 <= i -> Z.testbit (handler mod 2 ^ 48) i = false) as Hh
    by (intros i Hi; rewrite Z.mod_pow2_bits_high by lia; done).
  rewrite (Hh 48), (Hh 49) by lia. rewrite <- !Z.land_ones, Z.land_lor_distr_l, <- Z.land_assoc, Z.land_diag by done.
  by destruct (Z.testbit f 28), (Z.testbit f 31); rewrite Z.lor_0_r.
Qed.

(** ** Threads that share a [SignalState]

    A thread runs one of the calls; [post] is one access and comes from
    anywhere.  A step is one access to an atomic; [weak] makes a weak
    compare-exchange fail.  The log says what happened, the newest event first. *)

Inductive pc : Type :=
| PIdle
| PLook                      (* dequeue: load pending *)
| PRead (pending : Z)        (* dequeue: load blocked *)
| PTake (pending s : Z)      (* dequeue: compare-exchange *)
| PLoad (how set : Z)        (* set_mask: load blocked *)
| PMask (how set old : Z)    (* set_mask: compare-exchange *)
| PReset (i : Z)             (* reset_handlers: store entry i *)
| PAct (s current : Z).      (* disposition: compare-exchange *)

Inductive call : Type :=
| CDequeue
| CSetMask (how set : Z)
| CSetHandler (s handler sa_flags : Z)
| CReset
| CDisposition (s : Z).

Inductive event : Type :=
| EvPost (s : Z)
| EvLook (i : nat)
| EvNone (i : nat)
| EvRead (i : nat)
| EvTake (i : nat) (s : Z)
| EvMask (how : Z) (S old : gset Z)
| EvSet (s : Z) (a : action) (old : Z)
| EvRefused (s : Z)
| EvDefault (s : Z)
| EvAct (s : Z) (d : SignalDisposition).

Record sig_sys : Type := mkSys {
  sy_state : SignalState;
  sy_threads : list pc;
  sy_log : list event;
}.

Definition goes (sys : sig_sys) (st : SignalState) (i : nat) (c : pc) (es : list event) : sig_sys :=
  mkSys st (<[i := c]> (sy_threads sys)) (es ++ sy_log sys).

(** [disposition], with a value of the entry at hand. *)
Definition disposition_step (sys : sig_sys) (i : nat) (s current : Z) : sig_sys :=
  if needs_reset current then goes sys (sy_state sys) i (PAct s current) []
  else goes sys (sy_state sys) i PIdle [EvAct s (disposition_of s current)].

Definition set_mask_step (sys : sig_sys) (i : nat) (how set : Z) : sig_sys :=
  let st := sy_state sys in
  match set_mask_new how set (ss_blocked st) with
  | Some _ => goes sys st i (PMask how set (ss_blocked st)) []
  | None => goes sys st i PIdle [EvMask how (bits set) (bits (ss_blocked st))]
  end.

Definition call_step (sys : sig_sys) (i : nat) (c : call) : exec sig_sys :=
  let st := sy_state sys in
  match c with
  | CDequeue => Ret (goes sys st i PLook [])
  | CSetMask how set => Ret (set_mask_step sys i how set)
  | CSetHandler s handler sa_flags =>
      '(st', o) ← set_handler st s handler sa_flags;
      Ret (goes sys st' i PIdle [match o with Some old => EvSet s (action_for handler sa_flags) old | None => EvRefused s end])
  | CReset => Ret (goes sys st i (PReset 1) [])
  | CDisposition s =>
      if (s =? SIGKILL) || (s =? SIGSTOP) || negb (is_valid s) then
        Ret (goes sys st i PIdle [EvAct s (DispDefault (default_action s))])
      else
        current ← handler_at st s;
        Ret (disposition_step sys i s current)
  end.

Definition go_step (sys : sig_sys) (i : nat) (weak : bool) (c : pc) : exec (option sig_sys) :=
  let st := sy_state sys in
  match c with
  | PIdle => Ret None
  | PLook => Ret (Some (goes sys st i (PRead (ss_pending st)) [EvLook i]))
  | PRead pending =>
      Ret (Some match dequeue_pick pending (ss_blocked st) with
                | None => goes sys st i PIdle [EvNone i]
                | Some s => goes sys st i (PTake pending s) [EvRead i]
                end)
  | PTake pending s =>
      Ret (Some (if (ss_pending st =? pending) && negb weak
                 then goes sys (with_pending st (dequeue_clear pending s)) i PIdle [EvTake i s]
                 else goes sys st i PLook []))
  | PLoad how set => Ret (Some (set_mask_step sys i how set))
  | PMask how set old =>
      Ret (Some (if (ss_blocked st =? old) && negb weak
                 then match set_mask_new how set old with
                      | Some new => goes sys (with_blocked st new) i PIdle [EvMask how (bits set) (bits old)]
                      | None => sys
                      end
                 else goes sys st i (PLoad how set) []))
  | PReset k =>
      Ret (Some (goes sys (store_handler st k SIG_DFL) i (if k <? 63 then PReset (k + 1) else PIdle) [EvDefault k]))
  | PAct s current =>
      now ← handler_at st s;
      Ret (Some (if (now =? current) && negb weak
                 then goes sys (store_handler st s SIG_DFL) i PIdle [EvAct s (disposition_of s current)]
                 else disposition_step sys i s now))
  end.

Inductive sig_label : Type :=
| LPost (s : Z)
| LCall (i : nat) (c : call)
| LGo (i : nat) (weak : bool).

Definition sig_step (sys : sig_sys) (l : sig_label) : exec (option sig_sys) :=
  match l with
  | LPost s => Ret (Some (mkSys (post (sy_state sys) s) (sy_threads sys)
                      (if is_valid s then EvPost s :: sy_log sys else sy_log sys)))
  | LCall i c =>
      match sy_threads sys !! i with
      | Some PIdle => sys ← call_step sys i c; Ret (Some sys)
      | _ => Ret None
      end
  | LGo i weak =>
      match sy_threads sys !! i with
      | Some c => go_step sys i weak c
      | None => Ret None
      end
  end.

(** ** What the calls promise *)

Record sig_spec : Type := mkSpec {
  sp_pending : gset Z;
  sp_blocked : gset Z;
  sp_actions : list action;
  (** What a thread in [dequeue] last saw. *)
  sp_looked : gmap nat (gset Z);
  sp_read : gmap nat (gset Z);
}.

Definition sig_spec_init : sig_spec := mkSpec ∅ ∅ (replicate HANDLER_TABLE_SIZE plain) ∅ ∅.

Inductive sig_spec_step : sig_spec -> event -> sig_spec -> Prop :=
| spec_post P B A L R s : is_valid s = true ->
    sig_spec_step (mkSpec P B A L R) (EvPost s) (mkSpec ({[s]} ∪ P) B A L R)
| spec_look P B A L R i :
    sig_spec_step (mkSpec P B A L R) (EvLook i) (mkSpec P B A (<[i := P]> L) R)
| spec_none P B A L R i P' : L !! i = Some P' -> open P' B = ∅ ->
    sig_spec_step (mkSpec P B A L R) (EvNone i) (mkSpec P B A L R)
| spec_read P B A L R i :
    sig_spec_step (mkSpec P B A L R) (EvRead i) (mkSpec P B A L (<[i := B]> R))
| spec_take P B A L R i B' s : R !! i = Some B' -> chosen P B' s ->
    sig_spec_step (mkSpec P B A L R) (EvTake i s) (mkSpec (P ∖ {[s]}) B A L R)
| spec_mask P B A L R how S :
    sig_spec_step (mkSpec P B A L R) (EvMask how S B) (mkSpec P (match new_mask how S B with Some B' => B' | None => B end) A L R)
| spec_set P B A L R s a old : is_valid s = true -> s ∉ fatal -> A !! Z.to_nat s = Some old ->
    sig_spec_step (mkSpec P B A L R) (EvSet s a (ac_handler old)) (mkSpec P B (<[Z.to_nat s := a]> A) L R)
| spec_refused P B A L R s : is_valid s = false \/ s ∈ fatal ->
    sig_spec_step (mkSpec P B A L R) (EvRefused s) (mkSpec P B A L R)
| spec_default P B A L R s : is_valid s = true ->
    sig_spec_step (mkSpec P B A L R) (EvDefault s) (mkSpec P B (<[Z.to_nat s := plain]> A) L R)
| spec_act P B A L R s a : is_valid s = true -> A !! Z.to_nat s = Some a ->
    sig_spec_step (mkSpec P B A L R) (EvAct s (outcome s a))
      (mkSpec P B (if fires_once a then <[Z.to_nat s := plain]> A else A) L R)
| spec_act_invalid P B A L R s : is_valid s = false ->
    sig_spec_step (mkSpec P B A L R) (EvAct s (outcome s plain)) (mkSpec P B A L R).

(** The newest event first. *)
Inductive sig_spec_run : list event -> sig_spec -> Prop :=
| sig_run_init : sig_spec_run [] sig_spec_init
| sig_run_event l σ e σ' : sig_spec_run l σ -> sig_spec_step σ e σ' -> sig_spec_run (e :: l) σ'.

(** ** Refinement *)

Definition pc_ok (σ : sig_spec) (i : nat) (c : pc) : Prop :=
  match c with
  | PRead p => mask_ok p /\ sp_looked σ !! i = Some (bits p)
  | PTake p s => mask_ok p /\ exists b, dequeue_pick p b = Some s /\ sp_read σ !! i = Some (bits b)
  | PMask how set old => set_mask_new how set old <> None
  | PReset k => 1 <= k <= 63
  | PAct s current => is_valid s = true /\ (s ∉ fatal) /\ needs_reset current = true
  | _ => True
  end.

Record shows (st : SignalState) (σ : sig_spec) : Prop := {
  sh_mask : mask_ok (ss_pending st);
  sh_pending : sp_pending σ = bits (ss_pending st);
  sh_blocked : sp_blocked σ = bits (ss_blocked st);
  sh_len : length (ss_handlers st) = HANDLER_TABLE_SIZE;
  sh_actions : sp_actions σ = action_of <$> ss_handlers st;
  sh_open : sp_blocked σ ## fatal;
  sh_fatal : forall s, s ∈ fatal -> ss_handlers st !! Z.to_nat s = Some SIG_DFL;
}.

Definition sig_inv (sys : sig_sys) : Prop := exists σ,
  sig_spec_run (sy_log sys) σ /\ shows (sy_state sys) σ /\
  forall i c, sy_threads sys !! i = Some c -> pc_ok σ i c.

Lemma goes_inv sys σ σ' st i c es :
  sig_spec_run (sy_log sys) σ -> (forall j c, sy_threads sys !! j = Some c -> pc_ok σ j c) ->
  (es = [] /\ σ' = σ \/ exists e, es = [e] /\ sig_spec_step σ e σ') -> shows st σ' ->
  (forall j, j <> i -> sp_looked σ' !! j = sp_looked σ !! j /\ sp_read σ' !! j = sp_read σ !! j) ->
  pc_ok σ' i c -> sig_inv (goes sys st i c es).
Proof.
  intros Hr Ht He Hs Hj Hc. exists σ'. split; [|split; [done|]].
  - destruct He as [[-> ->]|(e & -> & He)]; [done|]. by apply (sig_run_event _ σ).
  - intros j c' [(<- & <- & _)|[Hne Hj']]%list_lookup_insert_Some; [done|].
    specialize (Ht j c' Hj'). destruct (Hj j ltac:(done)) as [E1 E2]. unfold pc_ok in *. by rewrite E1, E2.
Qed.

Lemma shows_init : shows SignalState_new sig_spec_init.
Proof.
  constructor; try done.
  unfold fatal. intros s [->%elem_of_singleton| ->%elem_of_singleton]%elem_of_union; done.
Qed.

(** A handler entry changes, not one of SIGKILL and SIGSTOP. *)
Lemma shows_store st P B A L R s p :
  shows st (mkSpec P B A L R) -> is_valid s = true -> (s ∉ fatal) \/ p = SIG_DFL ->
  shows (store_handler st s p) (mkSpec P B (<[Z.to_nat s := action_of p]> A) L R).
Proof.
  intros [H1 H2 H3 H4 H5 H6 H7] Hv Hs. apply is_valid_range in Hv. simpl in *. constructor; simpl; try done.
  - by rewrite length_insert.
  - by rewrite H5, list_fmap_insert.
  - intros t Ht. destruct (decide (s = t)) as [<-|Hne].
    + destruct Hs as [Hs| ->]; [done|]. apply list_lookup_insert_eq. rewrite H4. unfold HANDLER_TABLE_SIZE. lia.
    + rewrite list_lookup_insert_ne; [by apply H7|]. unfold fatal, SIGKILL, SIGSTOP in Ht. apply elem_of_union in Ht.
      rewrite !elem_of_singleton in Ht. lia.
Qed.

Lemma shows_handler st σ s : shows st σ -> is_valid s = true ->
  exists p, handler_at st s = Ret p /\ ss_handlers st !! Z.to_nat s = Some p /\ sp_actions σ !! Z.to_nat s = Some (action_of p).
Proof.
  intros Hs Hv%is_valid_range. destruct (lookup_lt_is_Some_2 (ss_handlers st) (Z.to_nat s)) as [p Hp].
  { rewrite (sh_len _ _ Hs). unfold HANDLER_TABLE_SIZE. lia. }
  exists p. unfold handler_at. rewrite Hp, (sh_actions _ _ Hs), list_lookup_fmap, Hp. done.
Qed.

Lemma goes_quiet sys σ i c :
  sig_spec_run (sy_log sys) σ -> shows (sy_state sys) σ -> (forall j c, sy_threads sys !! j = Some c -> pc_ok σ j c) ->
  pc_ok σ i c -> sig_inv (goes sys (sy_state sys) i c []).
Proof. intros Hr Hs Ht Hc. apply (goes_inv sys σ σ); auto. Qed.

Lemma fatal_spec s : s ∈ fatal <-> s = SIGKILL \/ s = SIGSTOP.
Proof. unfold fatal. by rewrite elem_of_union, !elem_of_singleton. Qed.

Lemma disposition_outcome s p : disposition_of s p = outcome s (action_of p).
Proof. done. Qed.

(** A disposition that is settled by the entry [p] of the table. *)
Lemma act_inv sys σ i s p :
  sig_spec_run (sy_log sys) σ -> shows (sy_state sys) σ -> (forall j c, sy_threads sys !! j = Some c -> pc_ok σ j c) ->
  is_valid s = true -> (s ∉ fatal) \/ needs_reset p = false -> ss_handlers (sy_state sys) !! Z.to_nat s = Some p ->
  sig_inv (goes sys (if needs_reset p then store_handler (sy_state sys) s SIG_DFL else sy_state sys) i PIdle
    [EvAct s (disposition_of s p)]).
Proof.
  intros Hr Hs Ht Hv Hf Hp. destruct σ as [P B A L R].
  assert (A !! Z.to_nat s = Some (action_of p)) as Ha.
  { pose proof (sh_actions _ _ Hs) as E. simpl in E. by rewrite E, list_lookup_fmap, Hp. }
  apply (goes_inv sys (mkSpec P B A L R) (mkSpec P B (if fires_once (action_of p) then <[Z.to_nat s := plain]> A else A) L R)); try done.
  - right. eexists. split; [done|]. rewrite disposition_outcome. by apply spec_act.
  - rewrite <- needs_reset_eq. destruct (needs_reset p); [|done]. apply (shows_store _ _ _ _ _ _ s SIG_DFL); [done|done|by right].
Qed.

Lemma disposition_step_inv sys σ i s p :
  sig_spec_run (sy_log sys) σ -> shows (sy_state sys) σ -> (forall j c, sy_threads sys !! j = Some c -> pc_ok σ j c) ->
  is_valid s = true -> s ∉ fatal -> ss_handlers (sy_state sys) !! Z.to_nat s = Some p ->
  sig_inv (disposition_step sys i s p).
Proof.
  intros Hr Hs Ht Hv Hf Hp. unfold disposition_step. pose proof (act_inv sys σ i s p Hr Hs Ht Hv (or_introl Hf) Hp) as Ha.
  destruct (needs_reset p) eqn:E; [|done]. by apply (goes_quiet sys σ).
Qed.

Lemma set_mask_step_inv sys σ i how set :
  sig_spec_run (sy_log sys) σ -> shows (sy_state sys) σ -> (forall j c, sy_threads sys !! j = Some c -> pc_ok σ j c) ->
  sig_inv (set_mask_step sys i how set).
Proof.
  intros Hr Hs Ht. unfold set_mask_step. destruct (set_mask_new _ _ _) eqn:E.
  - apply (goes_quiet sys σ); [done..|]. simpl. by rewrite E.
  - apply (goes_inv sys σ σ); try done. right. eexists. split; [done|]. destruct σ as [P B A L R].
    rewrite <- (sh_blocked _ _ Hs). simpl. pose proof (spec_mask P B A L R how (bits set)) as Hm.
    pose proof (sh_blocked _ _ Hs) as Hb. simpl in Hb. by rewrite Hb, set_mask_bits, E, <- Hb in Hm.
Qed.

Lemma call_step_inv sys i c : sig_inv sys -> wp (call_step sys i c) sig_inv.
Proof.
  intros (σ & Hr & Hs & Ht). destruct c as [|how set|s handler f| |s]; simpl.
  - wp_step. by apply (goes_quiet sys σ).
  - wp_step. by apply (set_mask_step_inv sys σ).
  - unfold set_handler. destruct (negb (is_valid s) || (s =? SIGKILL) || (s =? SIGSTOP)) eqn:E.
    + cbn [mbind exec_bind]. apply wp_ret. apply (goes_inv sys σ σ); try done. right. eexists. split; [done|]. destruct σ.
      apply spec_refused. rewrite fatal_spec. apply orb_true_iff in E as [[E|E]%orb_true_iff|E];
        [left; by apply negb_true_iff|right; left; by apply Z.eqb_eq|right; right; by apply Z.eqb_eq].
    + apply orb_false_iff in E as [[E1%negb_false_iff E2%Z.eqb_neq]%orb_false_iff E3%Z.eqb_neq].
      assert (s ∉ fatal) as Hf by (rewrite fatal_spec; naive_solver).
      destruct (shows_handler _ _ s Hs E1) as (p & Ep & Hp & Ha). rewrite Ep. cbn [mbind exec_bind]. apply wp_ret.
      destruct σ as [P B A L R]. rewrite <- pack_action.
      apply (goes_inv sys (mkSpec P B A L R) (mkSpec P B (<[Z.to_nat s := action_of (Z.lor (Z.land handler PACKED_HANDLER_MASK) (pack_flags f))]> A) L R)); try done.
      * right. eexists. split; [done|]. by apply (spec_set _ _ _ _ _ _ _ (action_of p)).
      * apply shows_store; [done|done|by left].
  - wp_step. by apply (goes_quiet sys σ).
  - destruct ((s =? SIGKILL) || (s =? SIGSTOP) || negb (is_valid s)) eqn:E.
    + wp_step. destruct (is_valid s) eqn:Ev.
      * assert (s ∈ fatal) as Hf.
        { rewrite fatal_spec. rewrite orb_false_r in E. apply orb_true_iff in E. by rewrite !Z.eqb_eq in E. }
        by apply (act_inv sys σ i s SIG_DFL Hr Hs Ht Ev (or_intror eq_refl)), (sh_fatal _ _ Hs).
      * apply (goes_inv sys σ σ); try done. right. eexists. split; [done|]. destruct σ. by apply (spec_act_invalid _ _ _ _ _ s).
    + apply orb_false_iff in E as [[E2%Z.eqb_neq E3%Z.eqb_neq]%orb_false_iff E1%negb_false_iff].
      destruct (shows_handler _ _ s Hs E1) as (p & Ep & Hp & _). rewrite Ep. cbn [mbind exec_bind]. apply wp_ret.
      apply (disposition_step_inv sys σ); try done. rewrite fatal_spec. naive_solver.
Qed.

Lemma shows_mask st P B A L R new :
  shows st (mkSpec P B A L R) -> bits new ## fatal -> shows (with_blocked st new) (mkSpec P (bits new) A L R).
Proof. intros [H1 H2 H3 H4 H5 H6 H7] Hn. by constructor. Qed.

Lemma set_mask_new_open how set old new : set_mask_new how set old = Some new -> bits new ## fatal.
Proof.
  intros E. pose proof (set_mask_bits how set old) as Hm. rewrite E in Hm. simpl in Hm. unfold new_mask in Hm.
  destruct (how =? 0), (how =? 1), (how =? 2); try done; injection Hm as Hm; rewrite <- Hm; set_solver.
Qed.

Lemma take_inv sys σ i s p :
  sig_spec_run (sy_log sys) σ -> shows (sy_state sys) σ -> (forall j c, sy_threads sys !! j = Some c -> pc_ok σ j c) ->
  pc_ok σ i (PTake p s) -> ss_pending (sy_state sys) = p ->
  sig_inv (goes sys (with_pending (sy_state sys) (dequeue_clear p s)) i PIdle [EvTake i s]).
Proof.
  intros Hr Hs Ht (Hm & b & Hpick & Hread) <-. pose proof (dequeue_pick_spec _ b Hm) as Hc. rewrite Hpick in Hc.
  destruct σ as [P B A L R]. destruct Hs as [H1 H2 H3 H4 H5 H6 H7]. simpl in *. subst P.
  destruct (chosen_range _ _ _ Hc) as [Hrng _].
  apply (goes_inv sys (mkSpec (bits (ss_pending (sy_state sys))) B A L R)
    (mkSpec (bits (ss_pending (sy_state sys)) ∖ {[s]}) B A L R)); try done.
  - right. eexists. split; [done|]. by apply (spec_take _ _ _ _ _ _ (bits b)).
  - constructor; simpl; try done; [by apply clear_ok|by rewrite bits_clear].
Qed.

Lemma go_step_inv sys i weak c :
  sig_inv sys -> sy_threads sys !! i = Some c -> wp (go_step sys i weak c) (if_possible sig_inv).
Proof.
  intros (σ & Hr & Hs & Ht) Hi. pose proof (Ht i c Hi) as Hc.
  destruct c as [| |p|p s|how set|how set old|k|s cur]; simpl.
  - wp_step. apply if_possible_none.
  - wp_step. apply if_possible_some. destruct σ as [P B A L R].
    apply (goes_inv sys (mkSpec P B A L R) (mkSpec P B A (<[i := P]> L) R)); try done.
    + right. eexists. split; [done|]. apply spec_look.
    + by destruct Hs.
    + intros j Hj. simpl. by rewrite lookup_insert_ne.
    + split; [by apply (sh_mask _ _ Hs)|]. simpl. rewrite lookup_insert_eq. f_equal. apply (sh_pending _ _ Hs).
  - wp_step. apply if_possible_some. destruct Hc as [Hm Hl]. pose proof (dequeue_pick_spec p (ss_blocked (sy_state sys)) Hm) as Hd.
    destruct σ as [P B A L R]. pose proof (sh_blocked _ _ Hs) as Hb. simpl in Hb.
    destruct (dequeue_pick p _) as [s|] eqn:E.
    + apply (goes_inv sys (mkSpec P B A L R) (mkSpec P B A L (<[i := B]> R))); try done.
      * right. eexists. split; [done|]. apply spec_read.
      * by destruct Hs.
      * intros j Hj. simpl. by rewrite lookup_insert_ne.
      * split; [done|]. eexists. split; [exact E|]. simpl. by rewrite lookup_insert_eq, Hb.
    + apply (goes_inv sys (mkSpec P B A L R) (mkSpec P B A L R)); try done.
      right. eexists. split; [done|]. apply (spec_none _ _ _ _ _ _ (bits p)); [done|]. by rewrite Hb.
  - wp_step. apply if_possible_some. destruct (Z.eqb_spec (ss_pending (sy_state sys)) p) as [E|_]; [destruct weak|]; simpl;
      [by apply (goes_quiet sys σ)|by apply (take_inv sys σ)|by apply (goes_quiet sys σ)].
  - wp_step. apply if_possible_some. by apply (set_mask_step_inv sys σ).
  - wp_step. apply if_possible_some. destruct (Z.eqb_spec (ss_blocked (sy_state sys)) old) as [<-|_]; [destruct weak|]; simpl;
      [by apply (goes_quiet sys σ)| |by apply (goes_quiet sys σ)].
    destruct (set_mask_new how set _) as [new|] eqn:E; [|by exists σ]. destruct σ as [P B A L R].
    pose proof (sh_blocked _ _ Hs) as Hb. simpl in Hb. rewrite <- Hb.
    apply (goes_inv sys (mkSpec P B A L R) (mkSpec P (bits new) A L R)); try done.
    + right. eexists. split; [done|]. pose proof (spec_mask P B A L R how (bits set)) as Hm.
      rewrite Hb, set_mask_bits, E in Hm. by rewrite Hb.
    + apply (shows_mask _ P B); [done|]. by apply (set_mask_new_open how set (ss_blocked (sy_state sys))).
  - wp_step. apply if_possible_some. destruct σ as [P B A L R]. assert (is_valid k = true) as Hk by (by apply is_valid_range).
    apply (goes_inv sys (mkSpec P B A L R) (mkSpec P B (<[Z.to_nat k := plain]> A) L R)); try done.
    + right. eexists. split; [done|]. by apply spec_default.
    + apply (shows_store _ _ _ _ _ _ k SIG_DFL); [done|done|by right].
    + simpl in Hc. destruct (Z.ltb_spec k 63); [simpl; lia|done].
  - destruct Hc as (Hv & Hf & Hn). destruct (shows_handler _ _ s Hs Hv) as (p & Ep & Hp & _). rewrite Ep. cbn [mbind exec_bind].
    apply wp_ret, if_possible_some. pose proof (act_inv sys σ i s p Hr Hs Ht Hv (or_introl Hf) Hp) as Ha.
    destruct (Z.eqb_spec p cur) as [->|_]; [destruct weak|]; simpl; [by apply (disposition_step_inv sys σ)| |by apply (disposition_step_inv sys σ)].
    by rewrite Hn in Ha.
Qed.

Lemma sig_step_inv sys l : sig_inv sys -> wp (sig_step sys l) (if_possible sig_inv).
Proof.
  intros Hinv. destruct l as [s|i c|i weak]; unfold sig_step.
  - wp_step. apply if_possible_some. destruct Hinv as (σ & Hr & Hs & Ht). unfold post.
    destruct (is_valid s) eqn:Hv; [|by exists σ]. destruct σ as [P B A L R]. exists (mkSpec ({[s]} ∪ P) B A L R).
    pose proof (proj1 (is_valid_range s) Hv) as Hrng.
    split; [by apply (sig_run_event _ (mkSpec P B A L R)); [|apply spec_post]|]. split; [|done].
    destruct Hs as [H1 H2 H3 H4 H5 H6 H7]. simpl in *.
    constructor; simpl; try done; [by apply post_ok|by rewrite H2, bits_post].
  - destruct (sy_threads sys !! i) as [[]|]; try (by apply wp_ret, if_possible_none).
    apply wp_bind. eapply wp_mono; [by apply call_step_inv|]. intros sys' H. apply wp_ret. by apply if_possible_some.
  - destruct (sy_threads sys !! i) as [c|] eqn:Hi; [by apply go_step_inv|wp_step; apply if_possible_none].
Qed.

(** C9: Any number of threads that post, take, mask and handle signals, in any
    order of their accesses and with compare-exchanges that fail, do what a set
    of pending signals, a mask and a table of actions promise: a signal is taken
    once for a time it became pending, SIGKILL first and then the lowest that
    the mask leaves open; SIGKILL and SIGSTOP are never masked and keep their
    default action; a one-shot handler fires once. *)
Theorem signals_refine n ls :
  wp (run sig_step (mkSys SignalState_new (replicate n PIdle) []) ls) (if_possible (fun sys =>
    let st := sy_state sys in exists σ, sig_spec_run (sy_log sys) σ /\
      sp_pending σ = bits (ss_pending st) /\ sp_blocked σ = bits (ss_blocked st) /\
      sp_actions σ = action_of <$> ss_handlers st /\ sp_blocked σ ## fatal /\
      forall s, s ∈ fatal -> sp_actions σ !! Z.to_nat s = Some plain)).
Proof.
  eapply wp_mono; [apply (run_inv sig_step sig_inv); [apply sig_step_inv|]|].
  - exists sig_spec_init. split; [apply sig_run_init|]. split; [apply shows_init|].
    intros i c [-> _]%lookup_replicate_1. done.
  - intros o H sys E. destruct (H sys E) as (σ & Hr & [H1 H2 H3 H4 H5 H6 H7] & _). exists σ. split_and!; try done.
    intros s Hs. by rewrite H5, list_lookup_fmap, (H7 s Hs).
Qed.

(** ** [check_signals] *)

(** How a process handles a signal. *)
Definition handled (self : SignalState) (s : Z) : SignalDisposition :=
  if (s =? SIGKILL) || (s =? SIGSTOP) then DispDefault (default_action s)
  else match ss_handlers self !! Z.to_nat s with Some p => outcome s (action_of p) | None => DispIgnore end.

Definition ignored (d : SignalDisposition) : Prop := d = DispIgnore \/ d = DispDefault ActIgnore.

Definition pending_open (self : SignalState) : gset Z := open (bits (ss_pending self)) (bits (ss_blocked self)).

Definition checked (self : SignalState) (um : UserMemory) (ctx : UserRegisters)
    (self' : SignalState) (um' : UserMemory) (ctx' : UserRegisters) (r : SignalCheckResult) : Prop :=
  match r with
  | CheckNone => um' = um /\ ctx' = ctx /\ pending_open self' = ∅ /\ forall s, s ∈ pending_open self -> ignored (handled self s)
  | CheckTerminate code => um' = um /\ ctx' = ctx /\ exists s, code = 128 + s /\ s ∈ pending_open self /\
      handled self s = DispDefault ActTerminate
  | CheckDelivered => exists s h, s ∈ pending_open self /\ (s ∉ bits (ss_pending self')) /\
      handled self s = DispHandler h /\ in_handler um ctx s h um' ctx'
  end.

Lemma wp_disposition self s :
  length (ss_handlers self) = HANDLER_TABLE_SIZE -> is_valid s = true ->
  wp (disposition self s) (fun '(self', d) =>
    d = handled self s /\ ss_pending self' = ss_pending self /\ ss_blocked self' = ss_blocked self /\
    length (ss_handlers self') = HANDLER_TABLE_SIZE /\ forall t, is_valid t = true -> t <> s -> handled self' t = handled self t).
Proof.
  intros Hl Hv. unfold disposition, handled at 1. destruct ((s =? SIGKILL) || (s =? SIGSTOP)); [by wp_step|].
  rewrite Hv. apply is_valid_range in Hv. destruct (lookup_lt_is_Some_2 (ss_handlers self) (Z.to_nat s)) as [p Hp].
  { rewrite Hl. unfold HANDLER_TABLE_SIZE. lia. }
  unfold handler_at. rewrite Hp. cbn [mbind exec_bind]. apply wp_ret. split; [done|].
  destruct (needs_reset p); [|done]. simpl. split; [done|]. split; [done|]. split; [by rewrite length_insert|].
  intros t Ht%is_valid_range Hne. unfold handled. simpl. rewrite list_lookup_insert_ne; [done|lia].
Qed.

Lemma dequeue_spec self :
  mask_ok (ss_pending self) ->
  let '(self', o) := dequeue self in
  match o with
  | None => self' = self /\ pending_open self = ∅
  | Some s => self' = with_pending self (dequeue_clear (ss_pending self) s) /\
      chosen (bits (ss_pending self)) (bits (ss_blocked self)) s /\ is_valid s = true /\ mask_ok (ss_pending self') /\
      bits (ss_pending self') = bits (ss_pending self) ∖ {[s]} /\ pending_open self' = pending_open self ∖ {[s]}
  end.
Proof.
  intros Hm. unfold dequeue. pose proof (dequeue_pick_spec _ (ss_blocked self) Hm) as Hd.
  destruct (dequeue_pick _ _) as [s|]; [|done]. destruct (chosen_range _ _ _ Hd) as [Hr Hs].
  split; [done|]. split; [done|]. split; [by apply is_valid_range|]. split; [by apply clear_ok|]. simpl.
  split; [by apply bits_clear|]. unfold pending_open, open. simpl. rewrite bits_clear by done. set_solver.
Qed.

Lemma bits_size p : (size (bits p) <= 63)%nat.
Proof.
  trans (size (list_to_set (seqZ 1 63) : gset Z)).
  - apply subseteq_size. intros s Hs. apply elem_of_bits in Hs as [Hs _]. apply elem_of_list_to_set, elem_of_seqZ. lia.
  - by vm_compute.
Qed.

(** One signal was ignored before. *)
Lemma checked_after self self2 s um ctx self' um' ctx' r :
  pending_open self2 = pending_open self ∖ {[s]} -> ignored (handled self s) ->
  (forall t, is_valid t = true -> t <> s -> handled self2 t = handled self t) ->
  checked self2 um ctx self' um' ctx' r -> checked self um ctx self' um' ctx' r.
Proof.
  intros Ho Hig Hh.
  assert (forall t, t ∈ pending_open self2 -> t ∈ pending_open self /\ handled self2 t = handled self t) as Ht.
  { intros t Ht. rewrite Ho in Ht. apply elem_of_difference in Ht as [Ht Hne]. split; [done|]. apply Hh; [|set_solver].
    unfold pending_open, open in Ht. apply elem_of_difference in Ht as [[? _]%elem_of_bits _]. by apply is_valid_range. }
  unfold checked. destruct r as [|code|].
  - intros (-> & -> & H1 & H2). split_and!; try done. intros t Hin. destruct (decide (t = s)) as [->|Hne]; [done|].
    assert (t ∈ pending_open self2) as Hin2 by (rewrite Ho; set_solver). destruct (Ht t Hin2) as [_ <-]. by apply H2.
  - intros (-> & -> & t & -> & [Hin E]%Ht & Hd). split_and!; try done. exists t. by rewrite <- E.
  - intros (t & h & [Hin E]%Ht & Hp & Hd & Hi). exists t, h. by rewrite <- E.
Qed.

Lemma wp_check_signals_loop n : forall self um ctx,
  mask_ok (ss_pending self) -> length (ss_handlers self) = HANDLER_TABLE_SIZE -> stack_ok um ctx ->
  (size (bits (ss_pending self)) < n)%nat ->
  wp (check_signals_loop n self um ctx) (fun '(self', um', ctx', r) =>
    checked self um ctx self' um' ctx' r /\ (SIGKILL ∈ bits (ss_pending self) -> r = CheckTerminate 137)).
Proof.
  induction n as [|n IH]; intros self um ctx Hm Hl Hst Hn; [lia|]. cbn [check_signals_loop].
  pose proof (dequeue_spec self Hm) as Hd. destruct (dequeue self) as [self1 [s|]].
  2:{ destruct Hd as [-> Ho]. wp_step. split; [split_and!; [done..|rewrite Ho; set_solver]|].
      intros Hk. exfalso. assert (SIGKILL ∈ pending_open self) as Hin by (unfold pending_open, open, fatal; set_solver).
      rewrite Ho in Hin. set_solver. }
  destruct Hd as (-> & Hc & Hv & Hm1 & Hb & Ho). set (self1 := with_pending _ _) in *.
  assert (s ∈ pending_open self) as Hs by apply Hc. apply wp_bind. eapply wp_mono; [by apply (wp_disposition self1)|].
  intros [self2 d] (-> & Ep & Eb & Hl2 & Hh). cbv beta iota.
  change (handled self1 s) with (handled self s). pose proof (proj1 (proj2 Hc)) as Hkill.
  assert (SIGKILL ∈ bits (ss_pending self) -> handled self s = DispDefault ActTerminate /\ s = SIGKILL) as Hk.
  { intros H. specialize (Hkill H). subst s. done. }
  assert (pending_open self2 = pending_open self ∖ {[s]}) as Ho2 by (unfold pending_open; rewrite Ep, Eb; exact Ho).
  assert (ignored (handled self s) -> wp (check_signals_loop n self2 um ctx) (fun '(self', um', ctx', r) =>
    checked self um ctx self' um' ctx' r /\ (SIGKILL ∈ bits (ss_pending self) -> r = CheckTerminate 137))) as Hnext.
  { intros Hig. assert (SIGKILL ∉ bits (ss_pending self)) as Hnk by (intros [E _]%Hk; rewrite E in Hig; by destruct Hig).
    eapply wp_mono; [apply (IH self2 um ctx); rewrite ?Ep; try done|].
    - rewrite Hb. pose proof (size_take_out _ _ (proj2 (chosen_range _ _ _ Hc))) as Hsz. lia.
    - intros [[[self' um'] ctx'] r] [Hch _]. split; [|done]. by apply (checked_after self self2 s). }
  destruct (handled self s) as [[|]| |h] eqn:Eh.
  - wp_step. split; [|by intros [_ ->]%Hk]. split_and!; [done|done|]. by exists s.
  - apply Hnext. by right.
  - apply Hnext. by left.
  - wp_step. eapply wp_mono; [by apply wp_deliver_signal|]. intros [[um' ctx'] b] [-> Hin]. wp_step.
    split; [|by intros [? _]%Hk]. exists s, h. split_and!; try done. rewrite Ep, Hb. set_solver.
Qed.



(** ** An example *)

Definition example_signals : SignalState :=
  mkSignalState (Z.shiftl 1 SIGINT) 0 (<[2%nat := 0x401000]> (replicate HANDLER_TABLE_SIZE SIG_DFL)).

Definition example_um : UserMemory := mkUserMemory (fun _ => 0) (fun _ => true).

Definition example_regs (rsp : Z) : UserRegisters := mkUserRegisters 1 2 3 4 5 6 7 8 9 10 11 12 13 14 15 0x400123 rsp 0x202.


(** ** What is not checked *)

(** A program that puts its stack pointer into the kernel has its registers
    written there. *)
Theorem signal_frame_in_kernel :
  wp (deliver_signal_to_handler example_um (example_regs 0xFFFF800000200000) SIGINT 0x401000) (fun '(um, _, delivered) =>
    delivered = true /\ load64 (um_bytes um) 0xFFFF8000001FFFF8 = 0x202 /\ load64 (um_bytes um) 0xFFFF8000001FFF70 = 1).
Proof. by vm_compute. Qed.

(** A stack pointer below the size of a frame stops the kernel. *)
Theorem signal_low_stack_panics :
  deliver_signal_to_handler example_um (example_regs 100) SIGINT 0x401000 = Panic.
Proof. by vm_compute. Qed.

(** The program chooses the flags it returns with: the interrupt flag and the
    I/O privilege level too. *)
Theorem sigreturn_restores_any_flags rflags :
  is_u64 rflags -> exists um regs, sys_task_sigreturn um 0x500008 = Ret regs /\ ur_rflags regs = rflags.
Proof.
  intros Hf. exists (mkUserMemory (store64 (fun _ => 0) (0x500000 + 8 * 19) rflags) (fun _ => true)). eexists. split; [reflexivity|].
  simpl ur_rflags. unfold frame_at. by apply load64_store64_eq.
Qed.

(** The frame reaches up to the stack pointer: what the program keeps in its red
    zone, the 128 bytes below the stack pointer, is lost. *)
Theorem signal_overwrites_red_zone :
  wp (deliver_signal_to_handler (mkUserMemory (fun _ => 0xAA) (fun _ => true)) (example_regs 0x7FFFFFFFE000) SIGINT 0x401000)
    (fun '(um, _, delivered) => delivered = true /\ load64 (um_bytes um) (0x7FFFFFFFE000 - 8) = 0x202).
Proof. by vm_compute. Qed.
