(* ===== verification/Futex.v ===== *)
(** * Futexes, and the mutex of the C library on them

    The kernel side is [kernel/kernel/src/ipc/futex.rs], the call of
    [kernel/kernel/src/syscall/event.rs] and the poll of a waiting thread in
    [kernel/kernel/src/proc/mod.rs]; the user side is the mutex of
    [userspace/hadron-libc/core/src/pthread.rs].  Threads of several processes
    interleave between their atomic accesses to user memory and the critical
    sections of the futex table; the one of a wait is cut at its read of user
    memory.  A thread is a number, and so is its waker; a thread that sleeps is
    polled again when its waker fires. *)

From S2P Require Import Prelude FsTypes Threads Signal.

(** ** The kernel *)

Definition MAX_FUTEX_ENTRIES : Z := 1024.
Definition FUTEX_WAIT : Z := 0.
Definition FUTEX_WAKE : Z := 1.

Record FutexTable : Type := mkFutexTable { waiters : gmap Z (list nat) }.

Definition FutexTable_new : FutexTable := mkFutexTable ∅.

Definition futex_register (self : FutexTable) (addr : Z) (waker : nat) : FutexTable * bool :=
  if (MAX_FUTEX_ENTRIES <=? Z.of_nat (size (waiters self))) && negb (bool_decide (is_Some (waiters self !! addr)))
  then (self, false)
  else (mkFutexTable (<[addr := default [] (waiters self !! addr) ++ [waker]]> (waiters self)), true).

(** The wakers that fire are returned, in order; their number is the result. *)
Definition FutexTable_wake (self : FutexTable) (addr count : Z) : FutexTable * list nat :=
  match waiters self !! addr with
  | None => (self, [])
  | Some ws =>
      let to_wake := Z.to_nat (count `min` Z.of_nat (length ws)) in
      let rest := drop to_wake ws in
      (mkFutexTable (match rest with [] => delete addr (waiters self) | _ => <[addr := rest]> (waiters self) end),
       take to_wake ws)
  end.

(** [read] is user memory, as the process sees it. *)
Definition futex_changed (read : Z -> Z) (addr expected : Z) : bool :=
  let current := read addr in negb (current =? expected).

Definition futex_wait_check (table : FutexTable) (read : Z -> Z) (addr expected : Z) (waker : nat) : FutexTable * bool :=
  if futex_changed read addr expected then (table, false) else
  let '(table, _) := futex_register table addr waker in
  (table, true).

Definition futex_wake (table : FutexTable) (addr count : Z) : FutexTable * list nat := FutexTable_wake table addr count.

(** The call returns, or leaves for the process loop, which polls the wait. *)
Inductive FutexOutcome : Type :=
| Returned (r : Z)
| TrapFutex (addr expected : Z).

Definition sys_futex (table : FutexTable) (addr op val : Z) : FutexTable * FutexOutcome * list nat :=
  if op =? FUTEX_WAIT then
    match UserSlice_new addr 4 with
    | Err _ => (table, Returned (- errno EFAULT), [])
    | Ok _ => (table, TrapFutex addr (val mod 2 ^ 32), [])
    end
  else if op =? FUTEX_WAKE then
    let '(table, woken) := futex_wake table addr val in
    (table, Returned (Z.of_nat (length woken)), woken)
  else (table, Returned (- errno EINVAL), []).

(** ** The mutex of the C library *)

Definition MUTEX_UNLOCKED : Z := 0.
Definition MUTEX_LOCKED : Z := 1.
Definition MUTEX_LOCKED_WAITERS : Z := 2.

(** Outside; in [pthread_mutex_lock] at the compare-exchange and at the swap
    of the loop; in the kernel, about to be polled, in [futex_wait_check] with
    the table locked before the read and after it, or asleep; holding the
    mutex; in [pthread_mutex_unlock] after the swap, about to wake. *)
Inductive mutex_pc : Type := POut | PFast | PSwap | PPoll | PRead | PReg | PSleep | PHold | PWake.

Definition asleep (pc : mutex_pc) : bool := match pc with PSleep => true | _ => false end.
Definition holding (pc : mutex_pc) : bool := match pc with PHold => true | _ => false end.

(** The word of the mutex of each process, the futex table and who has it
    locked, and the threads with their processes. *)
Record MutexSys : Type := mkMutexSys {
  my_word : nat -> Z;
  my_table : FutexTable;
  my_lock : option nat;
  my_threads : list (nat * mutex_pc);
}.

Definition set_word (w : nat -> Z) (p : nat) (x : Z) : nat -> Z := fun q => if bool_decide (q = p) then x else w q.

(** Firing a waker. *)
Definition notify (ts : list (nat * mutex_pc)) (t : nat) : list (nat * mutex_pc) :=
  match ts !! t with Some (p, PSleep) => <[t := (p, PPoll)]> ts | _ => ts end.

Section Mutex.
Context (addr : nat -> Z).

(** [compare_exchange(UNLOCKED, LOCKED)]. *)
Definition try_fast (w : Z) : Z * bool := if w =? MUTEX_UNLOCKED then (MUTEX_LOCKED, true) else (w, false).

(** The calls, and the next access of a thread. *)
Inductive mutex_label : Type := MLock (t : nat) | MTryLock (t : nat) | MStep (t : nat).

Definition mutex_step (y : MutexSys) (l : mutex_label) : exec (option MutexSys) :=
  let goto t p pc w := mkMutexSys (set_word (my_word y) p w) (my_table y) (my_lock y) (<[t := (p, pc)]> (my_threads y)) in
  let move t p pc table lock := mkMutexSys (my_word y) table lock (<[t := (p, pc)]> (my_threads y)) in
  match l with
  | MLock t =>
      match my_threads y !! t with
      | Some (p, POut) => Ret (Some (move t p PFast (my_table y) (my_lock y)))
      | _ => Ret None
      end
  | MTryLock t =>
      match my_threads y !! t with
      | Some (p, POut) =>
          let '(w, ok) := try_fast (my_word y p) in
          Ret (Some (goto t p (if ok then PHold else POut) w))
      | _ => Ret None
      end
  | MStep t =>
      match my_threads y !! t with
      | Some (p, PFast) =>
          let '(w, ok) := try_fast (my_word y p) in
          Ret (Some (goto t p (if ok then PHold else PSwap) w))
      | Some (p, PSwap) =>
          let prev := my_word y p in
          if prev =? MUTEX_UNLOCKED then Ret (Some (goto t p PHold MUTEX_LOCKED_WAITERS)) else
          let '(_, r, _) := sys_futex (my_table y) (addr p) FUTEX_WAIT MUTEX_LOCKED_WAITERS in
          Ret (Some (goto t p (match r with TrapFutex _ _ => PPoll | Returned _ => PSwap end) MUTEX_LOCKED_WAITERS))
      | Some (p, PPoll) =>
          match my_lock y with
          | None => Ret (Some (move t p PRead (my_table y) (Some t)))
          | Some _ => Ret None
          end
      | Some (p, PRead) =>
          if futex_changed (fun _ => my_word y p) (addr p) MUTEX_LOCKED_WAITERS
          then Ret (Some (move t p PSwap (my_table y) None))
          else Ret (Some (move t p PReg (my_table y) (my_lock y)))
      | Some (p, PReg) =>
          let '(table, _) := futex_register (my_table y) (addr p) t in
          Ret (Some (move t p PSleep table None))
      | Some (p, PHold) =>
          let prev := my_word y p in
          Ret (Some (goto t p (if prev =? MUTEX_LOCKED_WAITERS then PWake else POut) MUTEX_UNLOCKED))
      | Some (p, PWake) =>
          match my_lock y with
          | None =>
              let '(table, _, woken) := sys_futex (my_table y) (addr p) FUTEX_WAKE 1 in
              Ret (Some (mkMutexSys (my_word y) table None (foldl notify (<[t := (p, POut)]> (my_threads y)) woken)))
          | Some _ => Ret None
          end
      | _ => Ret None
      end
  end.
End Mutex.

Definition mutex_start (procs : list nat) : MutexSys :=
  mkMutexSys (fun _ => MUTEX_UNLOCKED) FutexTable_new None ((fun p => (p, POut)) <$> procs).

(** ** The table *)

(** Who sleeps at an address. *)
Definition queue (self : FutexTable) (a : Z) : list nat := default [] (waiters self !! a).

(** No entry is empty. *)
Definition table_ok (self : FutexTable) : Prop := forall a ws, waiters self !! a = Some ws -> ws <> [].

Lemma register_spec self a t :
  table_ok self -> Z.of_nat (size (waiters self)) < MAX_FUTEX_ENTRIES ->
  exists self', futex_register self a t = (self', true) /\ table_ok self' /\
    forall b, queue self' b = if decide (b = a) then queue self b ++ [t] else queue self b.
Proof.
  intros Hok Hsz. unfold futex_register. rewrite (proj2 (Z.leb_gt _ _) Hsz). simpl. eexists. split; [done|]. split.
  - intros b ws. cbn [waiters]. intros [[_ <-]|[_ E]]%lookup_insert_Some; [|by apply (Hok b)].
    by destruct (default [] (waiters self !! a)).
  - intros b. unfold queue. cbn [waiters]. case_decide as E; [subst b; by rewrite lookup_insert_eq|by rewrite lookup_insert_ne].
Qed.

Lemma wake_spec self a :
  table_ok self ->
  exists self' woken, FutexTable_wake self a 1 = (self', woken) /\ table_ok self' /\
    queue self a = woken ++ queue self' a /\ (forall b, b <> a -> queue self' b = queue self b) /\
    match queue self a with [] => woken = [] | w :: _ => woken = [w] end.
Proof.
  intros Hok. unfold FutexTable_wake, queue. destruct (waiters self !! a) as [[|w ws]|] eqn:E.
  - by destruct (Hok a []).
  - replace (Z.to_nat (1 `min` Z.of_nat (length (w :: ws)))) with 1%nat by (cbn [length]; lia).
    cbv zeta. rewrite (drop_0 ws : drop 1 (w :: ws) = ws). change (take 1 (w :: ws)) with [w].
    eexists _, _. split; [done|]. split; [|split; [|split; [|done]]]; cbn [waiters].
    + intros b l. cbn [waiters]. destruct ws; [intros [_ Hb]%lookup_delete_Some; by apply (Hok b)|].
      intros [[_ <-]|[_ Hb]]%lookup_insert_Some; [done|by apply (Hok b)].
    + destruct ws; [by rewrite lookup_delete_eq|by rewrite lookup_insert_eq].
    + intros b Hb. destruct ws; [by rewrite lookup_delete_ne|by rewrite lookup_insert_ne].
  - exists self, []. rewrite E. done.
Qed.

(** ** The invariant *)

(** On the way to the mutex: such a thread will look at the word again, or wake
    another one. *)
Definition moving (pc : mutex_pc) : bool := match pc with PSwap | PPoll | PRead | PWake => true | _ => false end.

(** Asleep, or decided to be. *)
Definition waiting (pc : mutex_pc) : bool := match pc with PSleep | PReg => true | _ => false end.

Definition in_check (pc : mutex_pc) : bool := match pc with PRead | PReg => true | _ => false end.

Definition holds_in (p : nat) (x : nat * mutex_pc) : bool := bool_decide (x.1 = p) && holding x.2.

Lemma filter_absent (w : nat) (l : list nat) : w ∉ l -> filter (fun u => u <> w) l = l.
Proof.
  induction l as [|x l IH]; [done|]. rewrite not_elem_of_cons. intros [Hx Hl]. by rewrite filter_cons, decide_True, IH by done.
Qed.

Section Invariant.
Context (addr : nat -> Z) (Hinj : forall p q, addr p = addr q -> p = q).

Definition on_queue (ts : list (nat * mutex_pc)) (table : FutexTable) : Prop :=
  table_ok table /\ (forall a, NoDup (queue table a)) /\
  forall t a, t ∈ queue table a <-> exists p, ts !! t = Some (p, PSleep) /\ addr p = a.

Definition lock_ok (ts : list (nat * mutex_pc)) (lock : option nat) : Prop :=
  forall t, lock = Some t <-> exists p pc, ts !! t = Some (p, pc) /\ in_check pc = true.

(** A thread that waits has the word say so, or another thread on its way. *)
Definition wakes (ts : list (nat * mutex_pc)) (word : nat -> Z) : Prop :=
  forall t p pc, ts !! t = Some (p, pc) -> waiting pc = true ->
    word p = MUTEX_LOCKED_WAITERS \/ exists u pc', ts !! u = Some (p, pc') /\ moving pc' = true.

Record mutex_inv (y : MutexSys) : Prop := {
  ym_value : forall p, 0 <= my_word y p <= 2;
  ym_held : forall p, count (holds_in p) (my_threads y) = if my_word y p =? 0 then 0 else 1;
  ym_queue : on_queue (my_threads y) (my_table y);
  ym_lock : lock_ok (my_threads y) (my_lock y);
  ym_wakes : wakes (my_threads y) (my_word y);
  ym_size : Z.of_nat (length (my_threads y)) <= MAX_FUTEX_ENTRIES;
}.

(** The table is never full: every entry has a thread that sleeps. *)
Lemma table_size y t p :
  mutex_inv y -> my_threads y !! t = Some (p, PReg) -> Z.of_nat (size (waiters (my_table y))) < MAX_FUTEX_ENTRIES.
Proof using.
  clear Hinj. intros Hi Ht. destruct (ym_queue _ Hi) as (Hok & _ & Hq). pose proof (ym_size _ Hi) as Hsz.
  set (sl := filter (fun x => asleep x.2 = true) (my_threads y)).
  assert (dom (waiters (my_table y)) ⊆ list_to_set ((fun x => addr x.1) <$> sl)) as Hsub.
  { intros a [ws E]%elem_of_dom. pose proof (Hok a ws E) as Hne. destruct ws as [|w ws]; [done|].
    destruct (proj1 (Hq w a)) as (q & Hw & <-); [unfold queue; rewrite E; simpl; by left|].
    apply elem_of_list_to_set, list_elem_of_fmap. exists (q, PSleep). split; [done|].
    apply list_elem_of_filter. split; [done|]. by eapply list_elem_of_lookup_2. }
  apply subseteq_size in Hsub. rewrite size_dom in Hsub.
  assert (forall l : list Z, (size (list_to_set l : gset Z) <= length l)%nat) as Hlen.
  { induction l as [|x l IH]; [done|]. rewrite list_to_set_cons, size_union_alt, size_singleton. cbn [length].
    pose proof (subseteq_size (list_to_set l ∖ {[x]}) (list_to_set l : gset Z) ltac:(set_solver)). lia. }
  specialize (Hlen ((fun x => addr x.1) <$> sl)). rewrite length_fmap in Hlen.
  assert (length sl < length (my_threads y))%nat; [|lia].
  pose proof (count_insert (fun x : nat * mutex_pc => asleep x.2) (my_threads y) t (p, PReg) (p, PSleep) Ht) as Hc. cbn in Hc.
  pose proof (count_bound (fun x : nat * mutex_pc => asleep x.2) (<[t := (p, PSleep)]> (my_threads y))) as Hb.
  rewrite length_insert in Hb. unfold count in Hc at 2. fold sl in Hc. lia.
Qed.

Lemma on_queue_move ts table t p pc pc' :
  on_queue ts table -> ts !! t = Some (p, pc) -> asleep pc = false -> asleep pc' = false ->
  on_queue (<[t := (p, pc')]> ts) table.
Proof using.
  intros (H1 & H2 & H3) Ht Hs Hs'. split; [done|]. split; [done|]. intros u a. rewrite H3.
  apply exist_proper. intros q. rewrite list_lookup_insert_Some. split; intros [H ?]; (split; [|done]).
  - right. split; [|done]. intros <-. rewrite Ht in H. by simplify_eq.
  - destruct H as [(_ & E & _)|[_ H]]; [by simplify_eq|done].
Qed.

Lemma lock_ok_move ts lock t p pc pc' lock' :
  lock_ok ts lock -> ts !! t = Some (p, pc) -> (in_check pc = true \/ lock = None \/ in_check pc' = false) ->
  lock' = (if in_check pc' then Some t else if in_check pc then None else lock) ->
  lock_ok (<[t := (p, pc')]> ts) lock'.
Proof using.
  intros Hl Ht Hc -> u. pose proof (Hl t) as Hlt.
  assert (in_check pc = true -> lock = Some t) as Hpc by (intros E; apply Hlt; by exists p, pc).
  split.
  - intros E. destruct (in_check pc') eqn:Ep'; [injection E as <-; exists p, pc'; split; [apply list_lookup_insert_eq; by eapply lookup_lt_Some|done]|].
    destruct (in_check pc) eqn:Ep; [done|]. apply Hl in E as (q & x & Hu & Hx). exists q, x. split; [|done].
    rewrite list_lookup_insert_ne; [done|]. intros <-. rewrite Ht in Hu. injection Hu as <- <-. congruence.
  - intros (q & x & Hu & Hx). apply list_lookup_insert_Some in Hu as [(<- & E & _)|[Hne Hu]]; [simplify_eq; by rewrite Hx|].
    assert (lock = Some u) as Elu by (apply Hl; by exists q, x).
    destruct (in_check pc); [by rewrite Hpc in Elu; simplify_eq|]. destruct Hc as [?|[?|Ep']]; [done|congruence|by rewrite Ep'].
Qed.

Lemma wakes_move ts word t p pc pc' w :
  wakes ts word -> ts !! t = Some (p, pc) ->
  (moving pc' = true \/ w = MUTEX_LOCKED_WAITERS \/
   moving pc = false /\ (word p = MUTEX_LOCKED_WAITERS -> w = MUTEX_LOCKED_WAITERS) /\ (waiting pc' = true -> waiting pc = true)) ->
  wakes (<[t := (p, pc')]> ts) (set_word word p w).
Proof using.
  intros Hw Ht Hc u q x Hu Hx. unfold set_word.
  assert (<[t := (p, pc')]> ts !! t = Some (p, pc')) as Et by (apply list_lookup_insert_eq; by eapply lookup_lt_Some).
  assert (exists x0, ts !! u = Some (q, x0) /\ (u = t \/ x0 = x) /\ (u = t -> q = p /\ x = pc' /\ x0 = pc)) as (x0 & Hu0 & Hx0 & Hut).
  { apply list_lookup_insert_Some in Hu as [(<- & E & _)|[Hne Hu]]; simplify_eq; eexists; (split; [done|]); naive_solver. }
  destruct (decide (q = p)) as [->|Hne].
  - rewrite bool_decide_eq_true_2 by done. destruct Hc as [Hm|[Ew|(Hm & Hw2 & Hwt)]]; [right; by exists t, pc'|by left|].
    assert (waiting x0 = true) as Hx0' by (destruct Hx0 as [E0|E0]; subst; [destruct (Hut eq_refl) as (_ & ? & ?); subst; auto|done]).
    destruct (Hw u p x0 Hu0 Hx0') as [E|(v & y & Hv & Hy)]; [left; auto|right].
    exists v, y. split; [|done]. rewrite list_lookup_insert_ne; [done|]. intros <-. rewrite Ht in Hv. injection Hv. congruence.
  - rewrite bool_decide_eq_false_2 by done. destruct Hx0 as [E0|E0]; subst; [by destruct (Hut eq_refl)|].
    destruct (Hw u q x Hu0 Hx) as [E|(v & y & Hv & Hy)]; [by left|right]. exists v, y. split; [|done].
    rewrite list_lookup_insert_ne; [done|]. intros <-. rewrite Ht in Hv. injection Hv. congruence.
Qed.

Lemma held_move (ts : list (nat * mutex_pc)) (word : nat -> Z) t p pc pc' w q :
  (forall q, count (holds_in q) ts = if word q =? 0 then 0 else 1) -> ts !! t = Some (p, pc) ->
  (if w =? 0 then 0 else 1) = (if word p =? 0 then 0 else 1) - Z.b2z (holding pc) + Z.b2z (holding pc') ->
  count (holds_in q) (<[t := (p, pc')]> ts) = if set_word word p w q =? 0 then 0 else 1.
Proof using.
  intros Hh Ht Hc. rewrite (count_insert _ _ _ (p, pc)), Hh by done. unfold holds_in, set_word. cbn [fst snd].
  destruct (decide (q = p)) as [->|Hne].
  - rewrite !bool_decide_eq_true_2 by done. simpl. rewrite Hc. by destruct (holding pc), (holding pc').
  - rewrite !bool_decide_eq_false_2 by done. simpl. lia.
Qed.

Lemma set_word_id word p q : set_word word p (word p) q = word q.
Proof using. unfold set_word. case_bool_decide; by subst. Qed.

(** A thread moves, the table stays or changes as said. *)
Lemma mutex_inv_move y t p pc pc' w table lock :
  mutex_inv y -> my_threads y !! t = Some (p, pc) -> 0 <= w <= 2 ->
  (if w =? 0 then 0 else 1) = (if my_word y p =? 0 then 0 else 1) - Z.b2z (holding pc) + Z.b2z (holding pc') ->
  on_queue (<[t := (p, pc')]> (my_threads y)) table ->
  (in_check pc = true \/ my_lock y = None \/ in_check pc' = false) ->
  lock = (if in_check pc' then Some t else if in_check pc then None else my_lock y) ->
  (moving pc' = true \/ w = MUTEX_LOCKED_WAITERS \/
   moving pc = false /\ (my_word y p = MUTEX_LOCKED_WAITERS -> w = MUTEX_LOCKED_WAITERS) /\ (waiting pc' = true -> waiting pc = true)) ->
  mutex_inv (mkMutexSys (set_word (my_word y) p w) table lock (<[t := (p, pc')]> (my_threads y))).
Proof using.
  intros [H1 H2 H3 H4 H5 H6] Ht Hw Hh Hq Hlc Hl Hwk. split; cbn [my_word my_table my_lock my_threads].
  - intros q. unfold set_word. case_bool_decide; [done|apply H1].
  - intros q. by apply (held_move _ _ _ _ pc).
  - done.
  - by apply (lock_ok_move _ (my_lock y) _ _ pc).
  - by apply (wakes_move _ _ _ _ pc).
  - by rewrite length_insert.
Qed.

Lemma mutex_inv_word w w' table lock ts :
  (forall p, w p = w' p) -> mutex_inv (mkMutexSys w table lock ts) -> mutex_inv (mkMutexSys w' table lock ts).
Proof using.
  intros E [H1 H2 H3 H4 H5 H6]. split; try done; cbn [my_word my_threads] in *.
  - intros p. by rewrite <- E.
  - intros p. by rewrite <- E.
  - intros t p pc Ht Hp. rewrite <- E. by apply (H5 t p pc).
Qed.

(** A thread moves and leaves the word as it is. *)
Lemma mutex_inv_keep y t p pc pc' table lock :
  mutex_inv y -> my_threads y !! t = Some (p, pc) -> holding pc = holding pc' ->
  on_queue (<[t := (p, pc')]> (my_threads y)) table ->
  (in_check pc = true \/ my_lock y = None \/ in_check pc' = false) ->
  lock = (if in_check pc' then Some t else if in_check pc then None else my_lock y) ->
  (moving pc' = true \/ my_word y p = MUTEX_LOCKED_WAITERS \/ moving pc = false /\ (waiting pc' = true -> waiting pc = true)) ->
  mutex_inv (mkMutexSys (my_word y) table lock (<[t := (p, pc')]> (my_threads y))).
Proof using.
  intros Hi Ht Hh Hq Hc Hl Hw. apply (mutex_inv_word (set_word (my_word y) p (my_word y p))).
  { intros q. apply set_word_id. }
  apply (mutex_inv_move y t p pc); try done; [apply Hi|rewrite Hh; lia|tauto].
Qed.

(** The other threads of a process can neither wait nor be on the queue. *)
Lemma nobody_waits y p :
  mutex_inv y -> my_lock y = None -> queue (my_table y) (addr p) = [] ->
  forall t pc, my_threads y !! t = Some (p, pc) -> waiting pc = false.
Proof using.
  intros Hi Hl Hq t pc Ht. destruct (waiting pc) eqn:E; [exfalso|done]. destruct pc; try done.
  - assert (my_lock y = Some t) by (apply (ym_lock _ Hi); by exists p, PReg). congruence.
  - destruct (ym_queue _ Hi) as (_ & _ & H). assert (t ∈ queue (my_table y) (addr p)) as Hin by (apply H; by exists p).
    rewrite Hq in Hin. by apply not_elem_of_nil in Hin.
Qed.

(** The thread at the head of a queue is woken. *)
Lemma on_queue_pop ts table table' w p ws :
  on_queue ts table -> table_ok table' -> queue table (addr p) = w :: ws -> queue table' (addr p) = ws ->
  (forall b, b <> addr p -> queue table' b = queue table b) ->
  ts !! w = Some (p, PSleep) /\ on_queue (<[w := (p, PPoll)]> ts) table'.
Proof using Hinj.
  intros (H1 & H2 & H3) Hok Eq Eq' Hoth.
  assert (ts !! w = Some (p, PSleep)) as Hw.
  { destruct (proj1 (H3 w (addr p))) as (q & Hq & Ea); [rewrite Eq; by left|]. by apply Hinj in Ea as ->. }
  split; [done|]. split; [done|].
  assert (forall a, queue table' a = filter (fun u => u <> w) (queue table a)) as Hfil.
  { intros a. pose proof (H2 (addr p)) as Hnd. rewrite Eq in Hnd. apply NoDup_cons in Hnd as [Hnin _].
    destruct (decide (a = addr p)) as [->|Hne].
    - rewrite Eq, Eq', filter_cons, decide_False by tauto. by rewrite filter_absent.
    - rewrite Hoth, filter_absent; [done| |done]. intros Hu. apply Hne. destruct (proj1 (H3 w a) Hu) as (q & Hq & <-). rewrite Hw in Hq. by injection Hq as <-. }
  split.
  - intros a. rewrite Hfil. by apply NoDup_filter.
  - intros u a. rewrite Hfil, list_elem_of_filter, H3. split.
    + intros [Hne (q & Hq & Ea)]. exists q. split; [|done]. by rewrite list_lookup_insert_ne.
    + intros (q & Hq & Ea). apply list_lookup_insert_Some in Hq as [(_ & E & _)|[Hne Hq]]; [done|].
      split; [done|]. by exists q.
Qed.

(** A thread is done with [pthread_mutex_unlock]; if others wait, somebody else
    is on the way. *)
Lemma mutex_inv_leave y t p :
  mutex_inv y -> my_threads y !! t = Some (p, PWake) ->
  (forall u x, my_threads y !! u = Some (p, x) -> waiting x = true ->
     exists v z, v <> t /\ my_threads y !! v = Some (p, z) /\ moving z = true) ->
  mutex_inv (mkMutexSys (my_word y) (my_table y) (my_lock y) (<[t := (p, POut)]> (my_threads y))).
Proof using.
  intros [H1 H2 H3 H4 H5 H6] Ht Hex. split; cbn [my_word my_table my_lock my_threads].
  - done.
  - intros q. rewrite (held_move _ (my_word y) t p PWake POut (my_word y p)) by (done || cbn; lia). by rewrite set_word_id.
  - by apply (on_queue_move _ _ _ _ PWake).
  - apply (lock_ok_move _ (my_lock y) _ _ PWake); try done. by right; right.
  - intros u q x Hu Hx. apply list_lookup_insert_Some in Hu as [(_ & Eu & _)|[Hne Hu]]; [by simplify_eq|].
    destruct (decide (q = p)) as [->|Hqp].
    + right. destruct (Hex u x Hu Hx) as (v & z & Hv & Hvz & Hz). exists v, z. by rewrite list_lookup_insert_ne.
    + destruct (H5 u q x Hu Hx) as [?|(v & z & Hv & Hz)]; [by left|right]. exists v, z. split; [|done].
      rewrite list_lookup_insert_ne; [done|]. intros <-. rewrite Ht in Hv. by simplify_eq.
  - by rewrite length_insert.
Qed.

Lemma wake_step y t p :
  mutex_inv y -> my_threads y !! t = Some (p, PWake) -> my_lock y = None ->
  let '(table, _, woken) := sys_futex (my_table y) (addr p) FUTEX_WAKE 1 in
  mutex_inv (mkMutexSys (my_word y) table None (foldl notify (<[t := (p, POut)]> (my_threads y)) woken)).
Proof using Hinj.
  intros Hi Ht Hl. destruct (ym_queue _ Hi) as (Hok & _ & _).
  destruct (wake_spec (my_table y) (addr p) Hok) as (table & woken & E & Hok' & Hq & Hoth & Hhd).
  unfold sys_futex, futex_wake. change (FUTEX_WAKE =? FUTEX_WAIT) with false. change (FUTEX_WAKE =? FUTEX_WAKE) with true.
  rewrite E. cbv beta iota zeta. destruct (queue (my_table y) (addr p)) as [|w ws] eqn:Eq; subst woken; cbn [foldl].
  - assert (table = my_table y) as ->.
    { unfold FutexTable_wake, queue in *. destruct (waiters (my_table y) !! addr p) as [[|]|] eqn:Ew; [by destruct (Hok (addr p) [])|done|].
      by injection E. }
    rewrite <- Hl. apply mutex_inv_leave; [done|done|]. intros u x Hu Hx. by rewrite (nobody_waits y p Hi Hl Eq u x Hu) in Hx.
  - injection Hq as Hq. destruct (on_queue_pop _ _ table w p ws (ym_queue _ Hi) Hok' Eq (eq_sym Hq) Hoth) as [Hw Hq'].
    assert (w <> t) as Hne by (intros ->; rewrite Ht in Hw; by simplify_eq).
    unfold notify. rewrite list_lookup_insert_ne, Hw, list_insert_insert_ne by done.
    assert (mutex_inv (mkMutexSys (my_word y) table (my_lock y) (<[w := (p, PPoll)]> (my_threads y)))) as Hi'
      by (apply (mutex_inv_keep y w p PSleep); try done; [by right; right|by left]).
    rewrite Hl in Hi'. apply (mutex_inv_leave _ t p Hi'); cbn [my_threads]; [by rewrite list_lookup_insert_ne|].
    intros _ _ _ _. exists w, PPoll. split; [done|]. split; [|done]. apply list_lookup_insert_eq. by eapply lookup_lt_Some.
Qed.

Lemma mutex_inv_start procs : Z.of_nat (length procs) <= MAX_FUTEX_ENTRIES -> mutex_inv (mutex_start procs).
Proof using.
  intros Hn. assert (forall t p pc, (my_threads (mutex_start procs)) !! t = Some (p, pc) -> pc = POut) as Hout.
  { intros t p pc. cbn. rewrite list_lookup_fmap. by destruct (procs !! t) as [q|]; simpl; intros; simplify_eq. }
  split.
  - intros p. cbn. unfold MUTEX_UNLOCKED. lia.
  - intros p. apply count_zero. intros t [q pc] Ht. unfold holds_in. cbn [fst snd]. by rewrite (Hout t q pc Ht), andb_false_r.
  - split; [by intros a ws|]. split; [intros a; apply NoDup_nil_2|]. intros t a. split; [by intros H%not_elem_of_nil|].
    intros (p & Ht & _). by apply Hout in Ht.
  - intros t. split; [done|]. intros (p & pc & Ht & Hc). by rewrite (Hout t p pc Ht) in Hc.
  - intros t p pc Ht Hw. by rewrite (Hout t p pc Ht) in Hw.
  - cbn. by rewrite length_fmap.
Qed.

Lemma try_fast_inv y t p pc pc' :
  mutex_inv y -> my_threads y !! t = Some (p, pc) -> moving pc = false -> in_check pc = false -> asleep pc = false ->
  holding pc = false -> holding pc' = false -> in_check pc' = false -> asleep pc' = false -> waiting pc' = false ->
  let '(w, ok) := try_fast (my_word y p) in
  mutex_inv (mkMutexSys (set_word (my_word y) p w) (my_table y) (my_lock y) (<[t := (p, if ok then PHold else pc')]> (my_threads y))).
Proof using.
  intros Hi Ht Hm Hc Ha Hh Hh' Hc' Ha' Hw'. pose proof (ym_value _ Hi p) as Hv. unfold try_fast, MUTEX_UNLOCKED.
  destruct (Z.eqb_spec (my_word y p) 0) as [E|E].
  - apply (mutex_inv_move y t p pc); try done; rewrite ?Hc, ?Hh; try done.
    + by rewrite E.
    + apply (on_queue_move _ _ _ _ pc); try done. apply Hi.
    + by right; right.
    + right; right. split_and!; [done| |done]. rewrite E. done.
  - apply (mutex_inv_move y t p pc); try done; rewrite ?Hc, ?Hc', ?Hh, ?Hh'; try done.
    + cbn. lia.
    + apply (on_queue_move _ _ _ _ pc); try done. apply Hi.
    + by right; right.
    + right; right. split_and!; [done|done|]. by rewrite Hw'.
Qed.

Lemma register_step y t p :
  mutex_inv y -> my_threads y !! t = Some (p, PReg) ->
  let '(table, _) := futex_register (my_table y) (addr p) t in
  mutex_inv (mkMutexSys (my_word y) table None (<[t := (p, PSleep)]> (my_threads y))).
Proof using.
  clear Hinj. intros Hi Ht. destruct (ym_queue _ Hi) as (Hok & Hnd & Hq).
  destruct (register_spec (my_table y) (addr p) t Hok (table_size y t p Hi Ht)) as (table & -> & Hok' & Hq').
  apply (mutex_inv_keep y t p PReg); try done; [|by left|by right; right].
  assert (forall a, t ∉ queue (my_table y) a) as Hnin.
  { intros a (q & Hq0 & _)%Hq. rewrite Ht in Hq0. by simplify_eq. }
  split; [done|]. split.
  - intros a. rewrite Hq'. case_decide; [|done]. apply NoDup_app. split_and!; [done|set_solver|apply NoDup_singleton].
  - intros u a. rewrite Hq'. assert (<[t := (p, PSleep)]> (my_threads y) !! t = Some (p, PSleep)) as Et
      by (apply list_lookup_insert_eq; by eapply lookup_lt_Some).
    destruct (decide (u = t)) as [->|Hne].
    + split.
      * case_decide as Ea; [intros _; by exists p|intros Hin; by apply Hnin in Hin].
      * intros (q & Eq & Ea). rewrite Et in Eq. injection Eq as <-. rewrite decide_True by done. set_solver.
    + rewrite list_lookup_insert_ne by done. rewrite <- Hq. case_decide; [|done]. set_solver.
Qed.

Lemma mutex_step_inv y l : mutex_inv y -> wp (mutex_step addr y l) (if_possible mutex_inv).
Proof using Hinj.
  intros Hi. pose proof (fun p => ym_value _ Hi p) as Hv.
  assert (forall t p pc pc', my_threads y !! t = Some (p, pc) -> asleep pc = false -> asleep pc' = false ->
    on_queue (<[t := (p, pc')]> (my_threads y)) (my_table y)) as Hqm.
  { intros t p pc pc' Ht ? ?. apply (on_queue_move _ _ _ _ pc); try done. apply Hi. }
  destruct l as [t|t|t]; cbn [mutex_step]; destruct (my_threads y !! t) as [[p []]|] eqn:Ht;
    try (apply wp_ret; by apply if_possible_none).
  - apply wp_ret, if_possible_some. apply (mutex_inv_keep y t p POut); try done; [by apply (Hqm _ _ POut)|by right; right|by right; right].
  - pose proof (try_fast_inv y t p POut POut Hi Ht) as Hf. destruct (try_fast _) as [w ok].
    apply wp_ret, if_possible_some. by apply Hf.
  - pose proof (try_fast_inv y t p PFast PSwap Hi Ht) as Hf. destruct (try_fast _) as [w ok].
    apply wp_ret, if_possible_some. by apply Hf.
  - unfold MUTEX_UNLOCKED. destruct (Z.eqb_spec (my_word y p) 0) as [E|E].
    + apply wp_ret, if_possible_some. apply (mutex_inv_move y t p PSwap); try done; [by rewrite E|by apply (Hqm _ _ PSwap)|by right; right|by right; left].
    + unfold sys_futex. change (FUTEX_WAIT =? FUTEX_WAIT) with true. cbv iota. apply (proj2 (Z.eqb_neq _ _)) in E.
      destruct (UserSlice_new (addr p) 4); apply wp_ret, if_possible_some;
        (apply (mutex_inv_move y t p PSwap); try done; [by rewrite E|by apply (Hqm _ _ PSwap)|by right; right|by left]).
  - destruct (my_lock y) as [u|] eqn:El; apply wp_ret; [by apply if_possible_none|]. apply if_possible_some.
    apply (mutex_inv_keep y t p PPoll); try done; [by apply (Hqm _ _ PPoll)|by right; left|by left].
  - assert (my_lock y = Some t) as El by (apply (ym_lock _ Hi); by exists p, PRead).
    unfold futex_changed. destruct (Z.eqb_spec (my_word y p) MUTEX_LOCKED_WAITERS) as [E|E]; cbn [negb]; apply wp_ret, if_possible_some.
    + apply (mutex_inv_keep y t p PRead); try done; [by apply (Hqm _ _ PRead)|by left|by right; left].
    + apply (mutex_inv_keep y t p PRead); try done; [by apply (Hqm _ _ PRead)|by left|by left].
  - pose proof (register_step y t p Hi Ht) as Hr. destruct (futex_register _ _ _) as [table b]. by apply wp_ret, if_possible_some.
  - assert (my_word y p <> 0) as Hne.
    { intros E. pose proof (ym_held _ Hi p) as Hh. rewrite E in Hh. cbn in Hh.
      assert (0 < count (holds_in p) (my_threads y)); [|lia]. apply (count_pos _ _ t (p, PHold)); [done|].
      unfold holds_in. cbn. by rewrite bool_decide_eq_true_2. }
    apply wp_ret, if_possible_some. unfold MUTEX_UNLOCKED.
    destruct (Z.eqb_spec (my_word y p) MUTEX_LOCKED_WAITERS) as [E|E]; (apply (mutex_inv_move y t p PHold); try done;
      [rewrite (proj2 (Z.eqb_neq _ _) Hne); done|by apply (Hqm _ _ PHold)|by right; right|]); [by left|].
    right; right. split_and!; done.
  - destruct (my_lock y) as [u|] eqn:El; [apply wp_ret; by apply if_possible_none|].
    pose proof (wake_step y t p Hi Ht El) as Hw. destruct (sys_futex _ _ _ _) as [[table r] woken]. by apply wp_ret, if_possible_some.
Qed.
End Invariant.

Lemma count_witness {A} (P : A -> bool) l : 0 < count P l -> exists i x, l !! i = Some x /\ P x = true.
Proof.
  intros H. unfold count in H. destruct (filter (fun x => P x = true) l) as [|x r] eqn:E; [simpl in H; lia|].
  assert (x ∈ filter (fun x => P x = true) l) as Hin by (rewrite E; by left).
  apply list_elem_of_filter in Hin as [Hx Hin]. apply list_elem_of_lookup_1 in Hin as [i Hi]. by exists i, x.
Qed.

(** Somebody in the process of a sleeping thread holds the mutex or is on the
    way to it. *)
Lemma sleeper_has_help addr y t p :
  mutex_inv addr y -> my_threads y !! t = Some (p, PSleep) ->
  exists u pc, my_threads y !! u = Some (p, pc) /\ (holding pc = true \/ moving pc = true).
Proof.
  intros Hi Ht. destruct (ym_wakes _ _ Hi t p PSleep Ht eq_refl) as [E|(u & pc & Hu & Hm)]; [|exists u, pc; auto].
  pose proof (ym_held _ _ Hi p) as Hh. rewrite E in Hh. change (if MUTEX_LOCKED_WAITERS =? 0 then 0 else 1) with 1 in Hh.
  destruct (count_witness (holds_in p) (my_threads y)) as (u & [q pc] & Hu & Hx); [lia|].
  unfold holds_in in Hx. apply andb_true_iff in Hx as [Hq%bool_decide_eq_true Hx]. cbn in Hq, Hx. subst q. exists u, pc. auto.
Qed.

(** Only the lock of the table holds up a thread that is on the way. *)
Lemma helper_moves addr y u p pc :
  mutex_inv addr y -> my_threads y !! u = Some (p, pc) -> holding pc = true \/ moving pc = true ->
  exists v y', mutex_step addr y (MStep v) = Ret (Some y').
Proof.
  intros Hi Hu Hpc. destruct (my_lock y) as [v|] eqn:El.
  - destruct (proj1 (ym_lock _ _ Hi v) El) as (q & x & Hv & Hx). exists v. cbn [mutex_step]. rewrite Hv.
    destruct x; try done; [destruct (futex_changed _ _ _)|destruct (futex_register _ _ _)]; eauto.
  - exists u. cbn [mutex_step]. rewrite Hu, El. destruct pc; try (by destruct Hpc); try eauto.
    + destruct (_ =? _); [eauto|]. destruct (sys_futex _ _ _ _) as [[? ?] ?]. eauto.
    + destruct (futex_changed _ _ _); eauto.
    + destruct (sys_futex _ _ _ _) as [[? ?] ?]. eauto.
Qed.

(** ** Properties *)

(** C10: The mutex of the C library is a mutex, and no wakeup is lost between it
    and the kernel's futexes.  Take up to 1024 threads of any processes whose
    mutexes are at different addresses, and any interleaving.  At most one
    thread of a process holds the mutex.  A thread that sleeps is in the futex
    table, once; somebody of its process holds the mutex or is on the way to
    it, and the system can move. *)
Theorem pthread_mutex_safe (addr : nat -> Z) (procs : list nat) (ls : list mutex_label) (y : MutexSys) :
  (forall p q, addr p = addr q -> p = q) -> Z.of_nat (length procs) <= MAX_FUTEX_ENTRIES ->
  run (mutex_step addr) (mutex_start procs) ls = Ret (Some y) ->
  (forall t u p, my_threads y !! t = Some (p, PHold) -> my_threads y !! u = Some (p, PHold) -> t = u) /\
  (forall t p, my_threads y !! t = Some (p, PSleep) ->
     t ∈ queue (my_table y) (addr p) /\ NoDup (queue (my_table y) (addr p)) /\
     (exists u pc, my_threads y !! u = Some (p, pc) /\ (holding pc = true \/ moving pc = true)) /\
     (exists u y', mutex_step addr y (MStep u) = Ret (Some y'))) /\
  (forall l, mutex_step addr y l <> Panic).
Proof.
  intros Hinj Hn Hrun.
  pose proof (run_inv_eq _ _ _ _ _ (mutex_step_inv addr Hinj) (mutex_inv_start addr procs Hn) Hrun) as Hi. split_and!.
  - intros t u p Ht Hu. destruct (decide (t = u)); [done|exfalso]. pose proof (ym_held _ _ Hi p) as Hh.
    assert (holds_in p (p, PHold) = true) as Hp by (unfold holds_in; cbn; by rewrite bool_decide_eq_true_2).
    pose proof (count_two (holds_in p) (my_threads y) t u _ _ Ht Hu Hp Hp ltac:(done)). destruct (_ =? _); lia.
  - intros t p Ht. destruct (ym_queue _ _ Hi) as (_ & Hnd & Hq). split; [apply Hq; by exists p|]. split; [apply Hnd|].
    destruct (sleeper_has_help addr y t p Hi Ht) as (u & pc & Hu & Hpc). split; [by exists u, pc|]. by apply (helper_moves addr y u p pc).
  - intros l E. pose proof (mutex_step_inv addr Hinj y l Hi) as Hw. by rewrite E in Hw.
Qed.

(** A run in which one thread has the mutex and another one sleeps for it. *)
Definition contended (holder sleeper : nat) : list mutex_label :=
  [MLock holder; MStep holder; MLock sleeper; MStep sleeper; MStep sleeper; MStep sleeper; MStep sleeper; MStep sleeper].

Lemma pthread_mutex_safe_witness :
  exists y, run (mutex_step (fun p => 0x1000 * Z.of_nat p + 8)) (mutex_start [0; 0]%nat) (contended 0 1) = Ret (Some y) /\
    my_threads y = [(0%nat, PHold); (0%nat, PSleep)] /\ 1%nat ∈ queue (my_table y) 8.
Proof.
  destruct (run (mutex_step (fun p => 0x1000 * Z.of_nat p + 8)) (mutex_start [0; 0]%nat) (contended 0 1)) as [[y|]|] eqn:E;
    [|by vm_compute in E|by vm_compute in E].
  exists y. split; [done|]. assert (my_threads y = [(0%nat, PHold); (0%nat, PSleep)]) as Ey by (vm_compute in E; by injection E as <-).
  split; [done|].
  destruct (pthread_mutex_safe (fun p => 0x1000 * Z.of_nat p + 8) [0; 0]%nat (contended 0 1) y) as (_ & Hs & _).
  - intros p q Hpq. lia.
  - unfold MAX_FUTEX_ENTRIES. simpl. lia.
  - exact E.
  - by apply (Hs 1%nat 0%nat); rewrite Ey.
Defined.


(** When the table is full, a thread is put to sleep without being entered. *)
Theorem full_table_never_woken (table : FutexTable) (read : Z -> Z) (a : Z) (t : nat) :
  Z.of_nat (size (waiters table)) = MAX_FUTEX_ENTRIES -> waiters table !! a = None ->
  futex_wait_check table read a (read a) t = (table, true) /\ (FutexTable_wake table a 1).2 = [].
Proof.
  intros Hs Ha. unfold futex_wait_check, futex_changed, futex_register, FutexTable_wake. rewrite Z.eqb_refl, Hs, Ha. done.
Qed.

(** A thread that is woken while the word is as it expected sleeps again: the
    wake counts it, but its call does not return. *)
Theorem woken_thread_sleeps_again (a v : Z) (t : nat) :
  let '(table, sleeps) := futex_wait_check FutexTable_new (fun _ => v) a v t in
  let '(table, woken) := futex_wake table a 1 in
  sleeps = true /\ woken = [t] /\ (futex_wait_check table (fun _ => v) a v t).2 = true.
Proof.
  assert (forall table, futex_wait_check table (fun _ => v) a v t = ((futex_register table a t).1, true)) as E.
  { intros table. unfold futex_wait_check, futex_changed. rewrite Z.eqb_refl. by destruct (futex_register table a t). }
  assert (futex_register FutexTable_new a t = (mkFutexTable (<[a := [t]]> ∅), true)) as Er
    by (unfold futex_register; cbn [waiters FutexTable_new]; by rewrite map_size_empty, lookup_empty).
  rewrite E, Er. cbn [fst]. unfold futex_wake, FutexTable_wake. cbn [waiters]. rewrite lookup_insert_eq, E. done.
Qed.
