(* ===== verification/Spin.v ===== *)
(** * Spinning locks: reader-writer locks, sequence locks, lazy values

    [kernel/core/src/sync/rwlock.rs], [seqlock.rs] and [lazy.rs] of the same
    directory, with any number of threads in any interleaving. *)

From S2P Require Import Prelude Threads.

(** ** Reader-writer locks *)

Definition WRITE_LOCKED : Z := 2 ^ 32 - 1.

(** Where a thread is: outside, in a loop of [read] or [write], between load
    and compare-exchange with the state it has seen, or holding a guard. *)
Inductive rw_pc : Type :=
| RwOut
| RwRead
| RwReadCas (s : Z)
| RwTryRead
| RwTryReadCas (s : Z)
| RwWrite
| RwTryWrite
| RwReader
| RwWriter.

(** Each function is the thread's next access: new state and place.  [ok] is
    false when a weak compare-exchange fails for no reason. *)
Definition rwlock_read (state : Z) (pc : rw_pc) (ok : bool) : exec (Z * rw_pc) :=
  match pc with
  | RwReadCas s =>
      s1 ← add32 s 1;
      Ret (if (state =? s) && ok then (s1, RwReader) else (state, RwRead))
  | _ => Ret (state, if negb (state =? WRITE_LOCKED) then RwReadCas state else RwRead)
  end.

Definition rwlock_try_read (state : Z) (pc : rw_pc) : exec (Z * rw_pc) :=
  match pc with
  | RwTryReadCas s =>
      s1 ← add32 s 1;
      Ret (if state =? s then (s1, RwReader) else (state, RwOut))
  | _ => Ret (state, if negb (state =? WRITE_LOCKED) then RwTryReadCas state else RwOut)
  end.

Definition rwlock_write (state : Z) (ok : bool) : Z * rw_pc :=
  if (state =? 0) && ok then (WRITE_LOCKED, RwWriter) else (state, RwWrite).

Definition rwlock_try_write (state : Z) : Z * rw_pc :=
  if state =? 0 then (WRITE_LOCKED, RwWriter) else (state, RwOut).

Definition RwLockReadGuard_drop (state : Z) : Z * rw_pc := ((state - 1) mod 2 ^ 32, RwOut).

Definition RwLockWriteGuard_drop (state : Z) : Z * rw_pc := (0, RwOut).

Definition rw_access (state : Z) (pc : rw_pc) (ok : bool) : exec (Z * rw_pc) :=
  match pc with
  | RwOut => Ret (state, RwOut)
  | RwRead | RwReadCas _ => rwlock_read state pc ok
  | RwTryRead | RwTryReadCas _ => rwlock_try_read state pc
  | RwWrite => Ret (rwlock_write state ok)
  | RwTryWrite => Ret (rwlock_try_write state)
  | RwReader => Ret (RwLockReadGuard_drop state)
  | RwWriter => Ret (RwLockWriteGuard_drop state)
  end.

Record RwSys : Type := mkRwSys { rw_state : Z; rw_pcs : list rw_pc }.

Inductive rw_label : Type :=
| RwCall (t : nat) (entry : rw_pc)
| RwStep (t : nat) (ok : bool).

Definition is_entry (pc : rw_pc) : bool :=
  match pc with RwRead | RwTryRead | RwWrite | RwTryWrite => true | _ => false end.

Definition rw_step (y : RwSys) (l : rw_label) : exec (option RwSys) :=
  match l with
  | RwCall t entry =>
      match rw_pcs y !! t with
      | Some RwOut =>
          Ret (if is_entry entry then Some (mkRwSys (rw_state y) (<[t := entry]> (rw_pcs y))) else None)
      | _ => Ret None
      end
  | RwStep t ok =>
      match rw_pcs y !! t with
      | Some RwOut | None => Ret None
      | Some pc =>
          '(s, pc) ← rw_access (rw_state y) pc ok;
          Ret (Some (mkRwSys s (<[t := pc]> (rw_pcs y))))
      end
  end.

Definition rw_start (n : nat) : RwSys := mkRwSys 0 (replicate n RwOut).

Definition is_reader (pc : rw_pc) : bool := match pc with RwReader => true | _ => false end.
Definition is_writer (pc : rw_pc) : bool := match pc with RwWriter => true | _ => false end.

(** The state a thread has seen is not the sentinel. *)
Definition seen_ok (pc : rw_pc) : Prop :=
  match pc with
  | RwReadCas s | RwTryReadCas s => 0 <= s < WRITE_LOCKED
  | _ => True
  end.

Definition rw_inv (n : nat) (y : RwSys) : Prop :=
  length (rw_pcs y) = n /\ Forall seen_ok (rw_pcs y) /\
  ((rw_state y = WRITE_LOCKED /\ count is_writer (rw_pcs y) = 1 /\ count is_reader (rw_pcs y) = 0) \/
   (rw_state y = count is_reader (rw_pcs y) /\ count is_writer (rw_pcs y) = 0)).

(** Moving thread [t] keeps the invariant when state and counts agree. *)
Lemma rw_inv_move n y t pc s' pc' :
  rw_inv n y -> rw_pcs y !! t = Some pc -> seen_ok pc' ->
  (let writers := count is_writer (rw_pcs y) - Z.b2z (is_writer pc) + Z.b2z (is_writer pc') in
   let readers := count is_reader (rw_pcs y) - Z.b2z (is_reader pc) + Z.b2z (is_reader pc') in
   (s' = WRITE_LOCKED /\ writers = 1 /\ readers = 0) \/ (s' = readers /\ writers = 0)) ->
  rw_inv n (mkRwSys s' (<[t := pc']> (rw_pcs y))).
Proof.
  intros (Hn & Hs & _) Ht Hpc Hor. split_and!; cbn [rw_pcs rw_state].
  - by rewrite length_insert.
  - by apply Forall_insert.
  - rewrite !(count_insert _ _ _ pc) by done. exact Hor.
Qed.

Lemma rw_access_ok n y t pc ok :
  Z.of_nat n < WRITE_LOCKED -> rw_inv n y -> rw_pcs y !! t = Some pc ->
  wp (rw_access (rw_state y) pc ok) (fun r => rw_inv n (mkRwSys r.1 (<[t := r.2]> (rw_pcs y)))).
Proof.
  intros Hn Hinv Ht. pose proof Hinv as (Hlen & Hseen & Hst).
  pose proof (count_bound is_reader (rw_pcs y)) as Hr. rewrite Hlen in Hr.
  pose proof (Forall_lookup_1 _ _ _ _ Hseen Ht) as Hpc.
  assert (is_reader pc = true -> 0 < count is_reader (rw_pcs y)) as Hr1 by (by eapply count_pos).
  assert (is_writer pc = true -> 0 < count is_writer (rw_pcs y)) as Hw1 by (by eapply count_pos).
  unfold WRITE_LOCKED in *.
  assert (0 <= rw_state y <= WRITE_LOCKED) as Hrange by (unfold WRITE_LOCKED; lia).
  assert (forall s : Z, 0 <= s < WRITE_LOCKED -> add32 s 1 = Ret (s + 1)) as Hadd.
  { intros s Hs. unfold add32, WRITE_LOCKED in *. by zcases. }
  destruct pc; cbn [rw_access rwlock_read rwlock_try_read rwlock_write rwlock_try_write seen_ok] in *;
    rewrite ?Hadd by done; cbn [mbind exec_bind]; apply wp_ret;
    unfold rwlock_write, rwlock_try_write, RwLockReadGuard_drop, RwLockWriteGuard_drop;
    (destruct ok || idtac); rewrite ?andb_true_r, ?andb_false_r; zcases; cbn [fst snd negb];
    (eapply rw_inv_move; [done|done| |]); cbn [seen_ok is_reader is_writer Z.b2z] in *; unfold WRITE_LOCKED in *;
    try done; try lia.
  all: specialize (Hr1 eq_refl) || specialize (Hw1 eq_refl); rewrite ?Z.mod_small by lia; lia.
Qed.

Lemma rw_step_ok n y l :
  Z.of_nat n < WRITE_LOCKED -> rw_inv n y -> wp (rw_step y l) (if_possible (rw_inv n)).
Proof.
  intros Hn Hinv. destruct l as [t entry|t ok]; simpl; destruct (rw_pcs y !! t) as [pc|] eqn:Ht;
    [|by apply wp_ret|..].
  - destruct pc; try by apply wp_ret. apply wp_ret. destruct (is_entry entry) eqn:E; [|done].
    apply if_possible_some. eapply rw_inv_move; [done|done|by destruct entry|].
    destruct Hinv as (_ & _ & Hst). by destruct entry; cbn in *; lia.
  - assert (wp ('(s, pc) ← rw_access (rw_state y) pc ok;
        Ret (Some (mkRwSys s (<[t := pc]> (rw_pcs y))))) (if_possible (rw_inv n))) as H.
    { apply wp_bind. eapply wp_mono; [by eapply rw_access_ok|]. intros [s' pc'] H. apply wp_ret.
      by apply if_possible_some. }
    by destruct pc.
  - by apply wp_ret.
Qed.

Lemma rw_start_inv n : rw_inv n (rw_start n).
Proof.
  split_and!; cbn [rw_start rw_pcs rw_state].
  - apply length_replicate.
  - by apply Forall_replicate.
  - right. rewrite !count_zero; [done|..]; intros i x [-> _]%lookup_replicate; done.
Qed.

(** C21: A reader-writer lock never panics and never lets a writer in with anyone
    else: while a thread holds the write guard no other thread holds a guard
    of either kind, for any number of threads below 2^32 - 1. *)
Theorem rwlock_exclusion n ls :
  Z.of_nat n < WRITE_LOCKED ->
  exists o, run rw_step (rw_start n) ls = Ret o /\
    forall y, o = Some y -> forall t u pc, rw_pcs y !! t = Some RwWriter -> rw_pcs y !! u = Some pc -> u <> t ->
      pc <> RwReader /\ pc <> RwWriter.
Proof.
  intros Hn. destruct (proj1 (wp_exists _ _) (run_inv rw_step (rw_inv n) (rw_start n) ls
    (fun y l => rw_step_ok n y l Hn) (rw_start_inv n))) as (o & Hrun & Ho).
  exists o. split; [done|]. intros y -> t u pc Ht Hu Hne. destruct (Ho y eq_refl) as (_ & _ & Hst).
  pose proof (count_pos is_writer _ _ _ Ht eq_refl). split; intros ->.
  - pose proof (count_pos is_reader _ _ _ Hu eq_refl). lia.
  - pose proof (count_two is_writer _ _ _ _ _ Ht Hu eq_refl eq_refl ltac:(done)). lia.
Qed.

(** Two readers, then a writer that has to wait for them. *)
Lemma rwlock_exclusion_witness :
  exists y, run rw_step (rw_start 3)
      [RwCall 0 RwRead; RwStep 0 true; RwStep 0 true; RwCall 1 RwTryRead; RwStep 1 true; RwStep 1 true;
       RwCall 2 RwWrite; RwStep 2 true; RwStep 0 true; RwStep 1 true; RwStep 2 true] = Ret (Some y) /\
    rw_pcs y = [RwOut; RwOut; RwWriter] /\
    forall u pc, rw_pcs y !! u = Some pc -> u <> 2%nat -> pc <> RwReader /\ pc <> RwWriter.
Proof.
  destruct (rwlock_exclusion 3
      [RwCall 0 RwRead; RwStep 0 true; RwStep 0 true; RwCall 1 RwTryRead; RwStep 1 true; RwStep 1 true;
       RwCall 2 RwWrite; RwStep 2 true; RwStep 0 true; RwStep 1 true; RwStep 2 true] ltac:(done)) as (o & Hrun & Ho).
  eexists. split; [vm_compute; reflexivity|]. split; [reflexivity|]. intros u pc Hu Hne.
  vm_compute in Hrun. injection Hrun as <-. by apply (Ho _ eq_refl 2%nat u pc).
Defined.

(** ** Sequence locks

    The data are words that are copied and written one at a time. *)

Inductive sq_pc : Type :=
| SqOut
| SqRead
| SqCopy (s1 : Z) (value : list Z)
| SqWrite
| SqWriteCas (s : Z)
| SqHold.

(** One round of [read]: load, copy word by word, load again.  The value is
    returned when the two loads agree. *)
Definition seqlock_read (seq : Z) (data : list Z) (pc : sq_pc) : sq_pc * option (list Z) :=
  match pc with
  | SqCopy s1 value =>
      match data !! length value with
      | Some w => (SqCopy s1 (value ++ [w]), None)
      | None => if s1 =? seq then (SqOut, Some value) else (SqRead, None)
      end
  | _ => (if negb (Z.land seq 1 =? 0) then SqRead else SqCopy seq [], None)
  end.

Definition seqlock_write (seq : Z) (pc : sq_pc) (ok : bool) : exec (Z * sq_pc) :=
  match pc with
  | SqWriteCas s =>
      s1 ← add32 s 1;
      Ret (if (seq =? s) && ok then (s1, SqHold) else (seq, SqWrite))
  | _ => Ret (seq, if negb (Z.land seq 1 =? 0) then SqWrite else SqWriteCas seq)
  end.

Definition SeqLockWriteGuard_drop (seq : Z) : Z := (seq + 1) mod 2 ^ 32.

(** [sq_hist]: the values published so far, the last one first; [sq_reads]:
    each value a read returned, with the value published at that moment. *)
Record SqSys : Type := mkSqSys {
  sq_seq : Z;
  sq_data : list Z;
  sq_pcs : list sq_pc;
  sq_hist : list (list Z);
  sq_reads : list (list Z * list Z);
}.

Inductive sq_label : Type :=
| SqCall (t : nat) (write : bool)
| SqStep (t : nat) (ok : bool)
| SqSet (t : nat) (i : nat) (w : Z).

Definition sq_step (y : SqSys) (l : sq_label) : exec (option SqSys) :=
  let goto t pc := mkSqSys (sq_seq y) (sq_data y) (<[t := pc]> (sq_pcs y)) (sq_hist y) (sq_reads y) in
  match l with
  | SqCall t write =>
      match sq_pcs y !! t with
      | Some SqOut => Ret (Some (goto t (if write then SqWrite else SqRead)))
      | _ => Ret None
      end
  | SqStep t ok =>
      match sq_pcs y !! t with
      | Some SqOut | None => Ret None
      | Some (SqRead as pc) | Some (SqCopy _ _ as pc) =>
          let '(pc, o) := seqlock_read (sq_seq y) (sq_data y) pc in
          Ret (Some (mkSqSys (sq_seq y) (sq_data y) (<[t := pc]> (sq_pcs y)) (sq_hist y)
                       (match o with Some v => (v, default [] (head (sq_hist y))) :: sq_reads y | None => sq_reads y end)))
      | Some (SqWrite as pc) | Some (SqWriteCas _ as pc) =>
          '(seq, pc) ← seqlock_write (sq_seq y) pc ok;
          Ret (Some (mkSqSys seq (sq_data y) (<[t := pc]> (sq_pcs y)) (sq_hist y) (sq_reads y)))
      | Some SqHold =>
          Ret (Some (mkSqSys (SeqLockWriteGuard_drop (sq_seq y)) (sq_data y) (<[t := SqOut]> (sq_pcs y))
                       (sq_data y :: sq_hist y) (sq_reads y)))
      end
  | SqSet t i w =>
      match sq_pcs y !! t with
      | Some SqHold => Ret (Some (mkSqSys (sq_seq y) (<[i := w]> (sq_data y)) (sq_pcs y) (sq_hist y) (sq_reads y)))
      | _ => Ret None
      end
  end.

Definition sq_start (n : nat) (value : list Z) : SqSys := mkSqSys 0 value (replicate n SqOut) [value] [].

Definition is_hold (pc : sq_pc) : bool := match pc with SqHold => true | _ => false end.

(** Numbers seen are even; while the number has not moved on, what has been
    copied is still there. *)
Definition sq_pc_ok (fresh : bool) (seq : Z) (data : list Z) (pc : sq_pc) : Prop :=
  match pc with
  | SqCopy s1 value =>
      s1 mod 2 = 0 /\ (fresh = true -> 0 <= s1 <= seq /\ (seq = s1 -> value = take (length value) data))
  | SqWriteCas s => s mod 2 = 0 /\ 0 <= s < 2 ^ 32
  | _ => True
  end.

(** The numbers have not wrapped around. *)
Definition sq_fresh (hist : list (list Z)) : bool := Z.of_nat (length hist) <=? 2 ^ 31.

Record sq_inv (y : SqSys) : Prop := {
  si_range : 0 <= sq_seq y < 2 ^ 32;
  si_hold : count is_hold (sq_pcs y) = sq_seq y mod 2;
  si_hist : sq_hist y <> [];
  si_pcs : Forall (sq_pc_ok (sq_fresh (sq_hist y)) (sq_seq y) (sq_data y)) (sq_pcs y);
  si_seq : sq_fresh (sq_hist y) = true ->
    sq_seq y = 2 * (Z.of_nat (length (sq_hist y)) - 1) + sq_seq y mod 2;
  si_data : sq_fresh (sq_hist y) = true -> sq_seq y mod 2 = 0 -> head (sq_hist y) = Some (sq_data y);
  si_reads : sq_fresh (sq_hist y) = true -> Forall (fun r => r.1 = r.2) (sq_reads y);
}.

Lemma land_1_parity x : (Z.land x 1 =? 0) = (x mod 2 =? 0).
Proof. change 1 with (Z.ones 1) at 1. by rewrite Z.land_ones. Qed.

(** A thread that moves without touching the lock. *)
Lemma sq_inv_move y t pc pc' reads :
  sq_inv y -> sq_pcs y !! t = Some pc -> is_hold pc = false -> is_hold pc' = false ->
  sq_pc_ok (sq_fresh (sq_hist y)) (sq_seq y) (sq_data y) pc' ->
  (sq_fresh (sq_hist y) = true -> Forall (fun r => r.1 = r.2) reads) ->
  sq_inv (mkSqSys (sq_seq y) (sq_data y) (<[t := pc']> (sq_pcs y)) (sq_hist y) reads).
Proof.
  intros [Hr Hh Hne Hp Hs Hd _] Ht H1 H2 Hpc Hreads. constructor; cbn; try done.
  - rewrite (count_insert _ _ _ pc), H1, H2 by done. lia.
  - by apply Forall_insert.
Qed.

(** When the number moves on, what threads have copied no longer matters. *)
Lemma sq_pcs_bump f f' seq seq' data data' pcs :
  (f' = true -> f = true /\ seq < seq') -> Forall (sq_pc_ok f seq data) pcs -> Forall (sq_pc_ok f' seq' data') pcs.
Proof.
  intros Hf Hall. eapply Forall_impl; [exact Hall|]. intros pc. destruct pc as [| |s1 v| |s|]; simpl; try done.
  intros [He H]. split; [done|]. intros [-> Hlt]%Hf. specialize (H eq_refl). lia.
Qed.

(** One access of a reader. *)
Lemma sq_read_ok y t pc :
  sq_inv y -> sq_pcs y !! t = Some pc -> is_hold pc = false -> is_hold (seqlock_read (sq_seq y) (sq_data y) pc).1 = false ->
  let r := seqlock_read (sq_seq y) (sq_data y) pc in
  sq_inv (mkSqSys (sq_seq y) (sq_data y) (<[t := r.1]> (sq_pcs y)) (sq_hist y)
            (match r.2 with Some v => (v, default [] (head (sq_hist y))) :: sq_reads y | None => sq_reads y end)).
Proof.
  intros Hinv Ht H1 H2. pose proof Hinv as [Hr Hh Hne Hp Hs Hd Hre].
  pose proof (Forall_lookup_1 _ _ _ _ Hp Ht) as Hpc.
  assert (sq_pc_ok (sq_fresh (sq_hist y)) (sq_seq y) (sq_data y)
    (if negb (Z.land (sq_seq y) 1 =? 0) then SqRead else SqCopy (sq_seq y) [])) as Hload.
  { rewrite land_1_parity. destruct (Z.eqb_spec (sq_seq y mod 2) 0); simpl; [|done].
    split; [done|]. intros _. split; [lia|done]. }
  simpl. eapply sq_inv_move; try done; destruct pc as [| |s1 value| |s|]; try done; cbn [seqlock_read].
  - destruct Hpc as [He Hpc]. destruct (sq_data y !! length value) as [w|] eqn:Hw; [|destruct (s1 =? sq_seq y); exact I].
    split; [done|]. intros Hf. destruct (Hpc Hf) as [Hle Hv]. split; [done|]. intros E.
    rewrite length_app, Nat.add_1_r, (take_S_r _ _ w) by done. by rewrite <- Hv.
  - destruct Hpc as [He Hpc]. intros Hf. destruct (sq_data y !! length value) as [w|] eqn:Hw; [by apply Hre|].
    destruct (Z.eqb_spec s1 (sq_seq y)) as [->|]; [|by apply Hre]. constructor; [|by apply Hre]. cbn.
    rewrite (Hd Hf He). cbn. destruct (Hpc Hf) as [_ Hv]. rewrite (Hv eq_refl). apply take_ge.
    by apply lookup_ge_None.
Qed.

(** Taking the lock. *)
Lemma sq_take_ok y t :
  sq_inv y -> sq_pcs y !! t = Some (SqWriteCas (sq_seq y)) ->
  sq_inv (mkSqSys (sq_seq y + 1) (sq_data y) (<[t := SqHold]> (sq_pcs y)) (sq_hist y) (sq_reads y)).
Proof.
  intros [Hr Hh Hne Hp Hs Hd Hre] Ht. destruct (Forall_lookup_1 _ _ _ _ Hp Ht) as [He _].
  assert ((sq_seq y + 1) mod 2 = 1) as Ho by divlia. constructor; cbn; try done.
  - divlia.
  - rewrite (count_insert _ _ _ (SqWriteCas (sq_seq y))) by done. cbn. lia.
  - apply Forall_insert; [|done]. eapply sq_pcs_bump; [|done]. intros ->. split; [done|lia].
  - intros Hf. specialize (Hs Hf). lia.
  - lia.
Qed.

Lemma sq_held_odd y t : sq_inv y -> sq_pcs y !! t = Some SqHold -> sq_seq y mod 2 = 1.
Proof.
  intros Hinv Ht. pose proof (count_pos is_hold _ _ _ Ht eq_refl). rewrite (si_hold _ Hinv) in *.
  pose proof (Z.mod_pos_bound (sq_seq y) 2). lia.
Qed.

(** Releasing it. *)
Lemma sq_drop_ok y t :
  sq_inv y -> sq_pcs y !! t = Some SqHold ->
  sq_inv (mkSqSys (SeqLockWriteGuard_drop (sq_seq y)) (sq_data y) (<[t := SqOut]> (sq_pcs y))
            (sq_data y :: sq_hist y) (sq_reads y)).
Proof.
  intros Hinv Ht. pose proof (sq_held_odd y t Hinv Ht) as Ho. destruct Hinv as [Hr Hh Hne Hp Hs Hd Hre].
  assert (SeqLockWriteGuard_drop (sq_seq y) mod 2 = 0) as He by (unfold SeqLockWriteGuard_drop; divlia).
  assert (sq_fresh (sq_data y :: sq_hist y) = true -> sq_fresh (sq_hist y) = true /\
    SeqLockWriteGuard_drop (sq_seq y) = sq_seq y + 1 /\ sq_seq y + 1 = 2 * Z.of_nat (length (sq_hist y))) as Hf'.
  { intros Hf%Z.leb_le. rewrite length_cons in Hf.
    assert (sq_fresh (sq_hist y) = true) as Hf0 by (apply Z.leb_le; lia).
    specialize (Hs Hf0). split_and!; [done| |lia]. unfold SeqLockWriteGuard_drop. apply Z.mod_small. lia. }
  constructor; cbn [sq_seq sq_data sq_pcs sq_hist sq_reads]; try done.
  - unfold SeqLockWriteGuard_drop. apply Z.mod_pos_bound. lia.
  - rewrite (count_insert _ _ _ SqHold) by done. cbn. lia.
  - apply Forall_insert; [|done]. eapply sq_pcs_bump; [|done]. intros Hf. apply Hf' in Hf as (Hf & -> & _). split; [done|lia].
  - intros Hf. apply Hf' in Hf as (_ & Hd1 & Hd2). rewrite length_cons. lia.
  - intros Hf. apply Hf' in Hf as [Hf _]. by apply Hre.
Qed.

(** Writing under the lock. *)
Lemma sq_set_ok y t i w :
  sq_inv y -> sq_pcs y !! t = Some SqHold ->
  sq_inv (mkSqSys (sq_seq y) (<[i := w]> (sq_data y)) (sq_pcs y) (sq_hist y) (sq_reads y)).
Proof.
  intros Hinv Ht. pose proof (sq_held_odd y t Hinv Ht) as Ho. destruct Hinv as [Hr Hh Hne Hp Hs Hd Hre].
  constructor; cbn; try done; [|lia].
  eapply Forall_impl; [done|]. intros pc. destruct pc as [| |s1 v| |s|]; simpl; try done.
  intros [He Hpc]. split; [done|]. intros Hf. destruct (Hpc Hf). split; [done|]. intros <-. lia.
Qed.

Lemma sq_step_ok y l : sq_inv y -> wp (sq_step y l) (if_possible sq_inv).
Proof.
  intros Hinv. destruct l as [t write|t ok|t i w]; simpl; destruct (sq_pcs y !! t) as [pc|] eqn:Ht;
    try by apply wp_ret.
  - destruct pc; apply wp_ret; try done. apply if_possible_some.
    by eapply sq_inv_move; [..|destruct write|destruct write|apply Hinv].
  - pose proof (Forall_lookup_1 _ _ _ _ (si_pcs _ Hinv) Ht) as Hpc.
    destruct pc as [| |s1 value| |s|]; [by apply wp_ret|..].
    + pose proof (sq_read_ok y t SqRead Hinv Ht eq_refl) as H. cbn in *.
      apply wp_ret, if_possible_some, H. by destruct (negb _).
    + pose proof (sq_read_ok y t (SqCopy s1 value) Hinv Ht eq_refl) as H. cbn [fst snd] in H.
      destruct (seqlock_read _ _ (SqCopy s1 value)) as [pc' o] eqn:E. apply wp_ret, if_possible_some, H. cbn.
      cbn in E. destruct (sq_data y !! length value); [by simplify_eq|]. by destruct (s1 =? sq_seq y); simplify_eq.
    + apply wp_ret, if_possible_some. rewrite land_1_parity.
      pose proof (si_range _ Hinv).
      destruct (Z.eqb_spec (sq_seq y mod 2) 0); simpl; by eapply sq_inv_move; [..|apply Hinv].
    + destruct Hpc as [He Hrs]. wp_step. cbn [seqlock_write]. wp_step. unfold add32.
      destruct (Z.ltb_spec (s + 1) (2 ^ 32)); [|divlia]. apply wp_ret, wp_ret.
      assert (sq_inv (mkSqSys (sq_seq y) (sq_data y) (<[t := SqWrite]> (sq_pcs y)) (sq_hist y) (sq_reads y)))
        by (by eapply sq_inv_move; [..|apply Hinv]).
      destruct (Z.eqb_spec (sq_seq y) s) as [<-|]; [destruct ok|]; apply wp_ret, if_possible_some; try done.
      by apply sq_take_ok.
    + apply wp_ret, if_possible_some. by apply sq_drop_ok.
  - destruct pc; apply wp_ret; try done. apply if_possible_some. by eapply sq_set_ok.
Qed.

Lemma sq_start_inv n value : sq_inv (sq_start n value).
Proof.
  constructor; cbn; try done.
  - apply count_zero. intros i x [-> _]%lookup_replicate. done.
  - by apply Forall_replicate.
Qed.


(** ** Lazy values *)

Definition UNINIT : Z := 0.
Definition INITIALIZING : Z := 1.
Definition READY : Z := 2.
Definition POISONED : Z := 3.

Section Lazy.
Context {T : Type}.

(** Where a thread is in [force]: before the first load, before the
    compare-exchange, taking the initializer, running it, about to write its
    result, about to publish it, spinning, or back with a value. *)
Inductive lz_pc : Type :=
| LzOut
| LzForce
| LzTry
| LzTake
| LzInit
| LzStore (v : T)
| LzPublish
| LzSpin
| LzGot (v : T).

Record LazyLock : Type := mkLazyLock {
  lz_state : Z;
  lz_value : option T;
  lz_init : bool;
}.

Definition LazyLock_new : LazyLock := mkLazyLock UNINIT None true.

(** The next access of a thread in [force]; [v] is what the initializer
    returns when it is called. *)
Definition lazy_force (z : LazyLock) (pc : lz_pc) (v : T) : exec (LazyLock * lz_pc) :=
  match pc with
  | LzOut | LzGot _ => Ret (z, pc)
  | LzForce =>
      if lz_state z =? READY then x ← expect (lz_value z); Ret (z, LzGot x)
      else if lz_state z =? POISONED then Panic
      else if lz_state z =? UNINIT then Ret (z, LzTry)
      else Ret (z, LzSpin)
  | LzTry =>
      if lz_state z =? UNINIT then Ret (mkLazyLock INITIALIZING (lz_value z) (lz_init z), LzTake)
      else Ret (z, LzSpin)
  | LzTake => _ ← assert (lz_init z); Ret (mkLazyLock (lz_state z) (lz_value z) false, LzInit)
  | LzInit => Ret (z, LzStore v)
  | LzStore v => Ret (mkLazyLock (lz_state z) (Some v) (lz_init z), LzPublish)
  | LzPublish =>
      x ← expect (lz_value z);
      Ret (mkLazyLock READY (lz_value z) (lz_init z), LzGot x)
  | LzSpin =>
      if lz_state z =? READY then x ← expect (lz_value z); Ret (z, LzGot x)
      else if lz_state z =? POISONED then Panic
      else Ret (z, LzSpin)
  end.

(** Unwinding out of the initializer drops the guard. *)
Definition InitGuard_drop (z : LazyLock) : LazyLock := mkLazyLock POISONED (lz_value z) (lz_init z).

(** [lz_made]: what the calls of the initializer returned. *)
Record LzSys : Type := mkLzSys { lz_lock : LazyLock; lz_pcs : list lz_pc; lz_made : list T }.

Inductive lz_label : Type :=
| LzCall (t : nat)
| LzStep (t : nat) (v : T)
| LzUnwind (t : nat).

Definition lz_step (y : LzSys) (l : lz_label) : exec (option LzSys) :=
  match l with
  | LzCall t =>
      match lz_pcs y !! t with
      | Some LzOut | Some (LzGot _) => Ret (Some (mkLzSys (lz_lock y) (<[t := LzForce]> (lz_pcs y)) (lz_made y)))
      | _ => Ret None
      end
  | LzStep t v =>
      match lz_pcs y !! t with
      | Some LzOut | Some (LzGot _) | None => Ret None
      | Some pc =>
          '(z, pc') ← lazy_force (lz_lock y) pc v;
          Ret (Some (mkLzSys z (<[t := pc']> (lz_pcs y))
                       (match pc with LzInit => v :: lz_made y | _ => lz_made y end)))
      end
  | LzUnwind t =>
      match lz_pcs y !! t with
      | Some LzInit => Ret (Some (mkLzSys (InitGuard_drop (lz_lock y)) (<[t := LzOut]> (lz_pcs y)) (lz_made y)))
      | _ => Ret None
      end
  end.

Definition lz_start (n : nat) : LzSys := mkLzSys LazyLock_new (replicate n LzOut) [].

Definition no_unwind (l : lz_label) : bool := match l with LzUnwind _ => false | _ => true end.

(** The thread that won the race. *)
Definition is_initializer (pc : lz_pc) : bool :=
  match pc with LzTake | LzInit | LzStore _ | LzPublish => true | _ => false end.

(** What each place says about the lock and the calls made. *)
Definition lz_pc_ok (z : LazyLock) (made : list T) (pc : lz_pc) : Prop :=
  match pc with
  | LzTake => lz_init z = true /\ made = []
  | LzInit => made = []
  | LzStore v => made = [v]
  | LzPublish => exists v, lz_value z = Some v /\ made = [v]
  | LzGot v => lz_state z = READY /\ made = [v]
  | _ => True
  end.

Record lz_inv (y : LzSys) : Prop := {
  li_state : lz_state (lz_lock y) = UNINIT \/ lz_state (lz_lock y) = INITIALIZING \/ lz_state (lz_lock y) = READY;
  li_count : count is_initializer (lz_pcs y) = if lz_state (lz_lock y) =? INITIALIZING then 1 else 0;
  li_pcs : Forall (lz_pc_ok (lz_lock y) (lz_made y)) (lz_pcs y);
  li_uninit : lz_state (lz_lock y) = UNINIT -> lz_init (lz_lock y) = true /\ lz_made y = [];
  li_ready : lz_state (lz_lock y) = READY -> exists v, lz_value (lz_lock y) = Some v /\ lz_made y = [v];
  li_made : (length (lz_made y) <= 1)%nat;
}.

(** A thread that moves and leaves the lock alone. *)
Lemma lz_inv_move y t pc pc' :
  lz_inv y -> lz_pcs y !! t = Some pc -> is_initializer pc = false -> is_initializer pc' = false ->
  lz_pc_ok (lz_lock y) (lz_made y) pc' ->
  lz_inv (mkLzSys (lz_lock y) (<[t := pc']> (lz_pcs y)) (lz_made y)).
Proof.
  intros [Hs Hc Hp Hu Hr Hm] Ht H1 H2 Hpc. constructor; cbn; try done.
  - rewrite (count_insert _ _ _ pc), H1, H2 by done. lia.
  - by apply Forall_insert.
Qed.

(** While the value is not ready, only the thread that initializes it is
    concerned when the lock changes. *)
Lemma lz_others y t pc z' made' pc' :
  lz_inv y -> lz_pcs y !! t = Some pc -> lz_state (lz_lock y) <> READY ->
  is_initializer pc = true \/ lz_state (lz_lock y) = UNINIT -> lz_pc_ok z' made' pc' ->
  Forall (lz_pc_ok z' made') (<[t := pc']> (lz_pcs y)).
Proof.
  intros [Hs Hc Hp Hu Hr Hm] Ht Hnr Hor Hpc. apply Forall_lookup_2. intros i x.
  rewrite list_lookup_insert_Some. intros [(<- & <- & _)|[Hne Hx]]; [done|].
  assert (is_initializer x = false) as Hni.
  { destruct (is_initializer x) eqn:E; [|done]. exfalso. pose proof (count_pos _ _ _ _ Hx E) as Hpos.
    destruct Hor as [Hi|Hun].
    - pose proof (count_two _ _ _ _ _ _ Ht Hx Hi E Hne). destruct (_ =? _); lia.
    - rewrite Hun in Hc. simpl in Hc. lia. }
  pose proof (Forall_lookup_1 _ _ _ _ Hp Hx) as Hok. destruct x; try done. by destruct Hok.
Qed.

Lemma lz_initializing y t pc :
  lz_inv y -> lz_pcs y !! t = Some pc -> is_initializer pc = true -> lz_state (lz_lock y) = INITIALIZING.
Proof.
  intros Hinv Ht Hi. pose proof (count_pos _ _ _ _ Ht Hi) as Hpos. rewrite (li_count _ Hinv) in Hpos.
  destruct (Z.eqb_spec (lz_state (lz_lock y)) INITIALIZING); [done|lia].
Qed.

(** A step of the initializing thread up to publication. *)
Lemma lz_inv_init y t pc z' made' pc' :
  lz_inv y -> lz_pcs y !! t = Some pc -> is_initializer pc = true -> is_initializer pc' = true ->
  lz_state z' = INITIALIZING -> lz_pc_ok z' made' pc' -> (length made' <= 1)%nat ->
  lz_inv (mkLzSys z' (<[t := pc']> (lz_pcs y)) made').
Proof.
  intros Hinv Ht H1 H2 Hz Hpc Hm. pose proof (lz_initializing _ _ _ Hinv Ht H1) as Hst.
  constructor; cbn; rewrite ?Hz; try done; auto.
  - rewrite (count_insert _ _ _ pc), H1, H2 by done. rewrite (li_count _ Hinv), Hst. done.
  - eapply lz_others; try done; [by rewrite Hst|by left].
Qed.

Lemma lz_get y (Q : LazyLock * lz_pc -> Prop) :
  lz_inv y -> lz_state (lz_lock y) = READY ->
  (forall v, lz_made y = [v] -> Q (lz_lock y, LzGot v)) ->
  wp (x ← expect (lz_value (lz_lock y)); Ret (lz_lock y, LzGot x)) Q.
Proof.
  intros Hinv Hr HQ. destruct (li_ready _ Hinv Hr) as (v & Hv & Hm). rewrite Hv. cbn. apply wp_ret. by apply HQ.
Qed.

Lemma lz_access_ok y t pc v :
  lz_inv y -> lz_pcs y !! t = Some pc ->
  wp (lazy_force (lz_lock y) pc v) (fun r =>
    lz_inv (mkLzSys r.1 (<[t := r.2]> (lz_pcs y)) (match pc with LzInit => v :: lz_made y | _ => lz_made y end))).
Proof.
  intros Hinv Ht. pose proof (Forall_lookup_1 _ _ _ _ (li_pcs _ Hinv) Ht) as Hpc.
  pose proof (li_state _ Hinv) as Hs.
  assert (lz_state (lz_lock y) <> POISONED) as Hnp by (unfold UNINIT, INITIALIZING, READY, POISONED in *; lia).
  destruct pc as [| | | | |x| | |x]; cbn [lazy_force lz_pc_ok] in *.
  - apply wp_ret. by eapply lz_inv_move.
  - destruct (Z.eqb_spec (lz_state (lz_lock y)) READY) as [Hr|Hr].
    { apply lz_get; [done|done|]. intros x Hx. by eapply lz_inv_move. }
    destruct (Z.eqb_spec (lz_state (lz_lock y)) POISONED); [done|].
    destruct (_ =? UNINIT); apply wp_ret; by eapply lz_inv_move.
  - destruct (Z.eqb_spec (lz_state (lz_lock y)) UNINIT) as [Hu|Hu]; apply wp_ret; [|by eapply lz_inv_move].
    destruct (li_uninit _ Hinv Hu) as [Hi Hm]. pose proof Hinv as [_ Hc _ _ _ Hl]. constructor; cbn; auto; try done.
    + rewrite (count_insert _ _ _ LzTry), Hc, Hu by done. done.
    + eapply lz_others; try done; [by rewrite Hu|by right].
  - destruct Hpc as [Hi Hm]. rewrite Hi. cbn. apply wp_ret. eapply lz_inv_init; try done.
    + by eapply lz_initializing.
    + rewrite Hm. simpl. lia.
  - apply wp_ret. cbn. eapply lz_inv_init; try done; [by eapply lz_initializing|by rewrite Hpc..].
  - apply wp_ret. cbn. eapply lz_inv_init; try done; [by eapply lz_initializing|by exists x|by rewrite Hpc].
  - destruct Hpc as (x & Hx & Hm). rewrite Hx. cbn. apply wp_ret.
    pose proof (lz_initializing _ _ _ Hinv Ht eq_refl) as Hst. pose proof Hinv as [_ Hc _ _ _ Hl].
    constructor; cbn; auto; try done.
    + rewrite (count_insert _ _ _ LzPublish), Hc, Hst by done. done.
    + eapply lz_others; try done; [by rewrite Hst|by left].
    + intros _. by exists x.
  - destruct (Z.eqb_spec (lz_state (lz_lock y)) READY) as [Hr|Hr].
    { apply lz_get; [done|done|]. intros x Hx. by eapply lz_inv_move. }
    destruct (Z.eqb_spec (lz_state (lz_lock y)) POISONED); [done|]. apply wp_ret. by eapply lz_inv_move.
  - apply wp_ret. by eapply lz_inv_move.
Qed.

Lemma lz_step_ok y l : no_unwind l = true -> lz_inv y -> wp (lz_step y l) (if_possible lz_inv).
Proof.
  intros Hl Hinv. destruct l as [t|t v|t]; [| |done]; simpl; destruct (lz_pcs y !! t) as [pc|] eqn:Ht;
    try by apply wp_ret.
  - destruct pc; apply wp_ret; try done; apply if_possible_some; by eapply lz_inv_move.
  - assert (wp ('(z, pc') ← lazy_force (lz_lock y) pc v;
          Ret (Some (mkLzSys z (<[t := pc']> (lz_pcs y))
                       (match pc with LzInit => v :: lz_made y | _ => lz_made y end)))) (if_possible lz_inv)) as H.
    { apply wp_bind. eapply wp_mono; [by apply lz_access_ok|]. intros [z pc'] H. apply wp_ret. by apply if_possible_some. }
    destruct pc; try exact H; by apply wp_ret.
Qed.

Lemma lz_start_inv n : lz_inv (lz_start n).
Proof.
  constructor; cbn; auto; try done.
  - apply count_zero. intros i x [-> _]%lookup_replicate. done.
  - by apply Forall_replicate.
Qed.

(** C24: However many threads race for a lazy value, and however they interleave,
    no access panics, the initializer is called at most once, and every thread
    gets what that call returned. *)
Theorem lazy_init_once n ls :
  Forall (fun l => no_unwind l = true) ls ->
  exists o, run lz_step (lz_start n) ls = Ret o /\
    forall y, o = Some y -> (length (lz_made y) <= 1)%nat /\
      forall t v, lz_pcs y !! t = Some (LzGot v) -> lz_made y = [v].
Proof.
  intros Hf. destruct (proj1 (wp_exists _ _) (run_inv_labels lz_step lz_inv _ ls _ lz_step_ok Hf (lz_start_inv n)))
    as (o & Hrun & Ho).
  exists o. split; [done|]. intros y ->. destruct (Ho y eq_refl) as [_ _ Hp _ _ Hm]. split; [done|].
  intros t v Ht. by destruct (Forall_lookup_1 _ _ _ _ Hp Ht).
Qed.
End Lazy.
Arguments lz_pc : clear implicits.
Arguments LazyLock : clear implicits.
Arguments LzSys : clear implicits.
Arguments lz_label : clear implicits.

(** Two threads race; one runs the initializer, the other waits for it. *)
Lemma lazy_init_once_witness :
  let ls := [LzCall 0; LzCall 1; LzStep 0 7; LzStep 1 8; LzStep 1 8; LzStep 0 7; LzStep 0 7; LzStep 1 8; LzStep 1 8;
             LzStep 1 8; LzStep 1 8; LzStep 0 7] in
  exists y, run lz_step (lz_start 2) ls = Ret (Some y) /\ lz_pcs y = [LzGot 8; LzGot 8] /\ lz_made y = [8].
Proof.
  intros ls. destruct (lazy_init_once 2 ls ltac:(repeat constructor)) as (o & Hrun & Ho).
  vm_compute in Hrun. injection Hrun as <-. eexists. split; [vm_compute; reflexivity|]. split; [reflexivity|].
  by apply (Ho _ eq_refl) with 0%nat.
Defined.
