(* ===== verification/IrqLock.v ===== *)
(** * Spin locks and interrupt-safe spin locks

    [kernel/core/src/sync/spinlock.rs], [irq_spinlock.rs] and the interrupt
    flag operations of [backend.rs] in the same directory, for x86_64.

    A plain spin lock is shared by threads.  Interrupt-safe spin locks are
    shared by CPUs; on each CPU an interrupt may come whenever interrupts are
    enabled, and its handler runs, and may take locks, before the interrupted
    code goes on. *)

From S2P Require Import Prelude Threads.

(** ** Plain spin locks *)

(** [SlLock]: before the compare-exchange of [lock]; [SlWait]: in its inner
    loop; [SlTry]: in [try_lock]. *)
Inductive sl_pc : Type := SlOut | SlLock | SlWait | SlTry | SlHold.

(** [depth] is the number of interrupt-safe locks the CPU holds, checked in
    builds with [hadron_lock_debug]; [lock_unchecked] is [lock] without the
    check. *)
Definition spinlock_check (debug : bool) (depth : Z) : exec unit :=
  assert (negb debug || (depth =? 0)).

Definition spinlock_lock (locked : bool) (pc : sl_pc) (ok : bool) : bool * sl_pc :=
  match pc with
  | SlWait => (locked, if locked then SlWait else SlLock)
  | _ => if negb locked && ok then (true, SlHold) else (locked, SlWait)
  end.

Definition spinlock_try_lock (locked : bool) : bool * sl_pc :=
  if negb locked then (true, SlHold) else (locked, SlOut).

Definition SpinLockGuard_drop (locked : bool) : bool * sl_pc := (false, SlOut).

Record SlSys : Type := mkSlSys { sl_locked : bool; sl_pcs : list sl_pc }.

Inductive sl_label : Type :=
| SlCall (t : nat) (depth : Z) (try checked : bool)
| SlStep (t : nat) (ok : bool).

Section Debug.
Variable debug : bool.

Definition sl_step (y : SlSys) (l : sl_label) : exec (option SlSys) :=
  match l with
  | SlCall t depth try checked =>
      match sl_pcs y !! t with
      | Some SlOut =>
          _ ← (if checked && negb try then spinlock_check debug depth else Ret tt);
          Ret (Some (mkSlSys (sl_locked y) (<[t := if try then SlTry else SlLock]> (sl_pcs y))))
      | _ => Ret None
      end
  | SlStep t ok =>
      match sl_pcs y !! t with
      | Some SlOut | None => Ret None
      | Some pc =>
          let '(b, pc) := match pc with
                          | SlTry => spinlock_try_lock (sl_locked y)
                          | SlHold => SpinLockGuard_drop (sl_locked y)
                          | _ => spinlock_lock (sl_locked y) pc ok
                          end in
          Ret (Some (mkSlSys b (<[t := pc]> (sl_pcs y))))
      end
  end.

Definition sl_held (pc : sl_pc) : bool := match pc with SlHold => true | _ => false end.

Definition sl_inv (y : SlSys) : Prop := count sl_held (sl_pcs y) = Z.b2z (sl_locked y).

Lemma sl_step_inv y l y' : sl_inv y -> sl_step y l = Ret (Some y') -> sl_inv y'.
Proof.
  unfold sl_inv. intros Hinv. destruct l as [t depth try checked|t ok]; simpl;
    destruct (sl_pcs y !! t) as [pc|] eqn:Ht; try done.
  - destruct pc; try done. intros (u & _ & [= <-])%bind_Ret_inv. cbn.
    rewrite (count_insert _ _ _ SlOut) by done. destruct try; cbn; lia.
  - assert (sl_held pc = true -> sl_locked y = true) as Hh.
    { intros E. pose proof (count_pos _ _ _ _ Ht E). rewrite Hinv in *. destruct (sl_locked y); cbn in *; lia. }
    destruct pc, (sl_locked y), ok; intros [= <-]; cbn; rewrite (count_insert _ _ _ _ _ Ht); cbn in *;
      try lia; by specialize (Hh eq_refl).
Qed.
End Debug.

Definition sl_start (n : nat) : SlSys := mkSlSys false (replicate n SlOut).

(** A spin lock is held by one thread at most. *)
Theorem spinlock_exclusion debug n ls y t u :
  run (sl_step debug) (sl_start n) ls = Ret (Some y) ->
  sl_pcs y !! t = Some SlHold -> sl_pcs y !! u = Some SlHold -> t = u.
Proof.
  intros Hrun Ht Hu. assert (sl_inv y) as Hinv.
  { eapply run_preserves; [apply sl_step_inv| |done]. unfold sl_inv. cbn. apply count_zero.
    by intros i x [-> _]%lookup_replicate. }
  destruct (decide (t = u)) as [|Hne]; [done|]. exfalso.
  pose proof (count_two sl_held _ _ _ _ _ Ht Hu eq_refl eq_refl Hne) as Hc. rewrite Hinv in Hc.
  destruct (sl_locked y); cbn in Hc; lia.
Qed.

(** ** Interrupt-safe spin locks *)

Definition save_flags_and_cli (if_flag : bool) : bool * bool := (false, if_flag).

(** [restore_flags] enables interrupts if they were enabled, and does nothing
    otherwise. *)
Definition restore_flags (if_flag saved : bool) : bool := if saved then true else if_flag.

(** A guard: its lock and the saved flag. *)
Definition guard : Type := nat * bool.

(** Code that runs on a CPU: its guards, the last acquired first, whether it is
    spinning in [lock], and the interrupt flag it has chosen itself. *)
Record frame : Type := mkFrame {
  fr_guards : list guard;
  fr_spin : option guard;
  fr_if : bool;
}.

Definition frame_new (b : bool) : frame := mkFrame [] None b.

(** The innermost code first: interrupted code waits behind it. *)
Record IrqCpu : Type := mkIrqCpu {
  ic_if : bool;
  ic_depth : Z;
  ic_cur : frame;
  ic_waiting : list frame;
}.

Record IrqSys : Type := mkIrqSys { iq_locked : list bool; iq_cpus : list IrqCpu }.

(** [lock] up to its loop. *)
Definition irq_lock_enter (x : IrqCpu) (l : nat) : IrqCpu :=
  let '(if_flag, saved) := save_flags_and_cli (ic_if x) in
  mkIrqCpu if_flag (ic_depth x) (mkFrame (fr_guards (ic_cur x)) (Some (l, saved)) (fr_if (ic_cur x)))
    (ic_waiting x).

Definition irq_acquired (x : IrqCpu) (if_flag : bool) (g : guard) : IrqCpu :=
  mkIrqCpu if_flag (ic_depth x + 1) (mkFrame (g :: fr_guards (ic_cur x)) None (fr_if (ic_cur x))) (ic_waiting x).

(** A round of the loop of [lock]. *)
Definition irq_lock_spin (locked : list bool) (x : IrqCpu) (g : guard) (ok : bool) : exec (list bool * IrqCpu) :=
  b ← expect (locked !! g.1);
  Ret (if negb b && ok then (<[g.1 := true]> locked, irq_acquired x (ic_if x) g) else (locked, x)).

Definition irq_try_lock (locked : list bool) (x : IrqCpu) (l : nat) : exec (list bool * IrqCpu) :=
  let '(if_flag, saved) := save_flags_and_cli (ic_if x) in
  b ← expect (locked !! l);
  Ret (if negb b then (<[l := true]> locked, irq_acquired x if_flag (l, saved))
       else (locked, mkIrqCpu (restore_flags if_flag saved) (ic_depth x) (ic_cur x) (ic_waiting x))).

(** Dropping guard [i]. *)
Definition IrqSpinLockGuard_drop (locked : list bool) (x : IrqCpu) (i : nat) (g : guard) : list bool * IrqCpu :=
  (<[g.1 := false]> locked,
   mkIrqCpu (restore_flags (ic_if x) g.2) (ic_depth x - 1)
     (mkFrame (delete i (fr_guards (ic_cur x))) (fr_spin (ic_cur x)) (fr_if (ic_cur x))) (ic_waiting x)).

(** The processor: an interrupt, the return from one, and code that sets the
    flag itself while it holds no lock. *)
Definition take_irq (x : IrqCpu) : IrqCpu :=
  mkIrqCpu false (ic_depth x) (frame_new false) (ic_cur x :: ic_waiting x).

Inductive iq_label : Type :=
| IqLock (c : nat) (l : nat)
| IqSpin (c : nat) (ok : bool)
| IqTry (c : nat) (l : nat)
| IqDrop (c : nat) (i : nat)
| IqIrq (c : nat)
| IqIret (c : nat)
| IqSetIf (c : nat) (b : bool).

Definition iq_cpu (l : iq_label) : nat :=
  match l with
  | IqLock c _ | IqSpin c _ | IqTry c _ | IqDrop c _ | IqIrq c | IqIret c | IqSetIf c _ => c
  end.

(** What a CPU does; [None] when it cannot. *)
Definition iq_act (locked : list bool) (x : IrqCpu) (l : iq_label) : exec (option (list bool * IrqCpu)) :=
  match l, fr_spin (ic_cur x) with
  | IqLock _ l, None =>
      if bool_decide (l < length locked)%nat then Ret (Some (locked, irq_lock_enter x l)) else Ret None
  | IqSpin _ ok, Some g => r ← irq_lock_spin locked x g ok; Ret (Some r)
  | IqTry _ l, None =>
      if bool_decide (l < length locked)%nat then r ← irq_try_lock locked x l; Ret (Some r) else Ret None
  | IqDrop _ i, None =>
      match fr_guards (ic_cur x) !! i with
      | Some g => Ret (Some (IrqSpinLockGuard_drop locked x i g))
      | None => Ret None
      end
  | IqIrq _, _ => if ic_if x then Ret (Some (locked, take_irq x)) else Ret None
  | IqIret _, None =>
      match fr_guards (ic_cur x), ic_waiting x with
      | [], f :: fs => Ret (Some (locked, mkIrqCpu true (ic_depth x) f fs))
      | _, _ => Ret None
      end
  | IqSetIf _ b, None =>
      match fr_guards (ic_cur x) with
      | [] => Ret (Some (locked, mkIrqCpu b (ic_depth x) (mkFrame [] None b) (ic_waiting x)))
      | _ => Ret None
      end
  | _, _ => Ret None
  end.

Definition iq_step (y : IrqSys) (l : iq_label) : exec (option IrqSys) :=
  match iq_cpus y !! iq_cpu l with
  | Some x =>
      o ← iq_act (iq_locked y) x l;
      match o with
      | Some (locked, x) => Ret (Some (mkIrqSys locked (<[iq_cpu l := x]> (iq_cpus y))))
      | None => Ret None
      end
  | None => Ret None
  end.

Definition iq_start (locks cpus : nat) : IrqSys :=
  mkIrqSys (replicate locks false) (replicate cpus (mkIrqCpu true 0 (frame_new true) [])).

(** Guards are dropped in the reverse order of their acquisition. *)
Definition lifo (l : iq_label) : bool := match l with IqDrop _ (S _) => false | _ => true end.

(** *** The invariant *)

(** The oldest guard has saved the flag of its code; interrupts were off when
    the others were taken. *)
Fixpoint saved_ok (b : bool) (gs : list guard) : Prop :=
  match gs with
  | [] => True
  | [g] => g.2 = b
  | g :: gs => g.2 = false /\ saved_ok b gs
  end.

(** The flag the next [lock] of this code will save, and the flag now. *)
Definition frame_if (f : frame) : bool := match fr_guards f with [] => fr_if f | _ => false end.

Definition irq_cpu_ok (n : nat) (x : IrqCpu) : Prop :=
  let f := ic_cur x in
  saved_ok (fr_if f) (fr_guards f) /\ Forall (fun g => (g.1 < n)%nat) (fr_guards f) /\
  match fr_spin f with
  | Some g => g.2 = frame_if f /\ (g.1 < n)%nat /\ ic_if x = false
  | None => ic_if x = frame_if f
  end /\
  Forall (fun f => f = frame_new true) (ic_waiting x) /\
  ic_depth x = Z.of_nat (length (fr_guards f)).

Definition cpu_locks (x : IrqCpu) : list nat := fst <$> fr_guards (ic_cur x).

Definition held_locks (y : IrqSys) : list nat := iq_cpus y ≫= cpu_locks.

Definition locks_ok (locked : list bool) (held : list nat) : Prop :=
  NoDup held /\ forall l b, locked !! l = Some b -> b = true <-> l ∈ held.

Definition iq_inv (n : nat) (y : IrqSys) : Prop :=
  length (iq_locked y) = n /\ Forall (irq_cpu_ok n) (iq_cpus y) /\ locks_ok (iq_locked y) (held_locks y).

#[export] Instance locks_ok_proper locked : Proper ((≡ₚ) ==> iff) (locks_ok locked).
Proof.
  intros h h' Hp. unfold locks_ok. rewrite Hp. split; intros [? H]; (split; [done|]); intros l b Hl.
  - by rewrite <- Hp, H.
  - by rewrite Hp, H.
Qed.

Lemma locks_ok_acquire locked l held :
  locks_ok locked held -> locked !! l = Some false -> locks_ok (<[l := true]> locked) (l :: held).
Proof.
  intros [Hnd Hl] Hf. assert (l ∉ held) as Hni by (intros Hin; by apply Hl in Hf; apply Hf in Hin).
  split; [by constructor|]. intros k b. rewrite list_lookup_insert_Some, elem_of_cons.
  intros [(<- & <- & _)|[Hne Hk]]; [tauto|]. rewrite (Hl k b Hk). split; [tauto|]. intros [->|]; done.
Qed.

Lemma locks_ok_release locked l held : locks_ok locked (l :: held) -> locks_ok (<[l := false]> locked) held.
Proof.
  intros [[Hni Hnd]%NoDup_cons Hl]. split; [done|]. intros k b. rewrite list_lookup_insert_Some.
  intros [(<- & <- & _)|[Hne Hk]]; [done|]. rewrite (Hl k b Hk), elem_of_cons. split; [|tauto]. intros [->|]; done.
Qed.

(** The locks of all CPUs when one of them changes its own. *)
Lemma held_locks_cpu y c x x' locked n :
  iq_inv n y -> iq_cpus y !! c = Some x -> irq_cpu_ok n x' -> length locked = n ->
  (forall r, locks_ok (iq_locked y) (cpu_locks x ++ r) -> locks_ok locked (cpu_locks x' ++ r)) ->
  iq_inv n (mkIrqSys locked (<[c := x']> (iq_cpus y))).
Proof.
  intros (Hn & Hc & Hl) Hx Hx' Hlen Hstep. split_and!; cbn; [done|by apply Forall_insert|].
  destruct (bind_insert_perm cpu_locks _ c x x' Hx) as (r & H1 & H2).
  unfold held_locks in *. cbn. rewrite H2. apply Hstep. by rewrite <- H1.
Qed.

Lemma saved_ok_cons b g gs :
  saved_ok b gs -> g.2 = match gs with [] => b | _ => false end -> saved_ok b (g :: gs).
Proof. destruct gs; simpl; auto. Qed.

Lemma saved_ok_head b g gs :
  saved_ok b (g :: gs) -> saved_ok b gs /\ g.2 = match gs with [] => b | _ => false end.
Proof. destruct gs as [|g' gs]; simpl; [done|]. tauto. Qed.

(** A guard is taken. *)
Lemma irq_acquired_ok n x g :
  irq_cpu_ok n x -> g.2 = frame_if (ic_cur x) -> (g.1 < n)%nat -> irq_cpu_ok n (irq_acquired x false g).
Proof.
  intros (Hs & Hg & _ & Hw & Hd) Hg2 Hg1. unfold irq_acquired. split_and!; cbn; [|by constructor|done|done|lia].
  by apply saved_ok_cons.
Qed.

Lemma iq_act_ok n y c x l :
  iq_inv n y -> iq_cpus y !! c = Some x -> lifo l = true ->
  wp (iq_act (iq_locked y) x l) (fun o => forall locked x', o = Some (locked, x') ->
    iq_inv n (mkIrqSys locked (<[c := x']> (iq_cpus y)))).
Proof.
  intros Hinv Hx Hlifo. pose proof Hinv as (Hn & Hc & Hl).
  pose proof (Forall_lookup_1 _ _ _ _ Hc Hx) as Hok. pose proof Hok as (Hs & Hg & Hsp & Hw & Hd).
  unfold iq_act. destruct (fr_spin (ic_cur x)) as [g|] eqn:Esp.
  { destruct Hsp as (Hg2 & Hg1 & Hif).
    destruct l as [c' l|c' ok|c' l|c' i|c'|c'|c' b]; try by apply wp_ret.
    - unfold irq_lock_spin. destruct (lookup_lt_is_Some_2 (iq_locked y) g.1) as [b Hb]; [lia|]. rewrite Hb. cbn.
      apply wp_ret. intros locked x' [= Heq]. destruct b, ok; cbn in Heq; simplify_eq; try by eapply held_locks_cpu.
      rewrite Hif. eapply held_locks_cpu; [done|done|by apply irq_acquired_ok|by rewrite length_insert|].
      intros r Hr. cbn. by apply locks_ok_acquire.
    - rewrite Hif. by apply wp_ret. }
  destruct l as [c' l|c' ok|c' l|c' i|c'|c'|c' b]; try by apply wp_ret.
  - case_bool_decide; apply wp_ret; [|done]. intros locked x' [= <- <-].
    eapply held_locks_cpu; [done|done| |done|done]. split_and!; cbn; try done.
    split_and!; [exact Hsp|lia|done].
  - case_bool_decide as Hlt; [|by apply wp_ret]. unfold irq_try_lock. cbn.
    destruct (lookup_lt_is_Some_2 (iq_locked y) l) as [b Hb]; [lia|]. rewrite Hb. cbn. apply wp_ret.
    intros locked x' [= Heq]. destruct b; cbn in Heq; simplify_eq.
    + eapply held_locks_cpu; [done|done| |done|done]. split_and!; cbn; try done. rewrite Esp, Hsp. by destruct (frame_if _).
    + eapply held_locks_cpu; [done|done|apply irq_acquired_ok; [done|done|cbn; lia]|by rewrite length_insert|].
      intros r Hr. cbn. by apply locks_ok_acquire.
  - destruct i as [|i]; [|done]. destruct (fr_guards (ic_cur x)) as [|g gs] eqn:Egs; [by apply wp_ret|].
    apply wp_ret. intros locked x' [= <- <-]. apply saved_ok_head in Hs as [Hs Hg2].
    apply Forall_cons in Hg as [Hg1 Hg]. rewrite length_cons in Hd.
    eapply held_locks_cpu; [done|done| |by rewrite length_insert|].
    + unfold frame_if in Hsp. rewrite Egs in Hsp. unfold irq_cpu_ok, frame_if. cbn. rewrite Egs, Esp, Hsp, Hg2.
      split_and!; cbn; try done; [|lia]. by destruct gs, (fr_if _).
    + intros r. unfold cpu_locks. rewrite Egs. cbn. apply locks_ok_release.
  - destruct (ic_if x) eqn:Eif; apply wp_ret; [|done]. intros locked x' [= <- <-].
    unfold frame_if in Hsp. destruct (fr_guards (ic_cur x)) eqn:Egs; [|done].
    eapply held_locks_cpu; [done|done| |done|intros r; unfold cpu_locks; by rewrite Egs].
    split_and!; cbn; try done. constructor; [|done]. destruct (ic_cur x); cbn in *. by subst.
  - destruct (fr_guards (ic_cur x)) eqn:Egs; [|by apply wp_ret].
    destruct (ic_waiting x) as [|f fs]; [by apply wp_ret|]. apply wp_ret. intros locked x' [= <- <-].
    apply Forall_cons in Hw as [-> Hw]. eapply held_locks_cpu; [done|done| |done|intros r; unfold cpu_locks; by rewrite Egs].
    split_and!; cbn; done.
  - destruct (fr_guards (ic_cur x)) eqn:Egs; [|by apply wp_ret]. apply wp_ret. intros locked x' [= <- <-].
    eapply held_locks_cpu; [done|done| |done|intros r; unfold cpu_locks; by rewrite Egs]. split_and!; cbn; done.
Qed.

Lemma iq_step_ok n y l : lifo l = true -> iq_inv n y -> wp (iq_step y l) (if_possible (iq_inv n)).
Proof.
  intros Hl Hinv. unfold iq_step. destruct (iq_cpus y !! iq_cpu l) as [x|] eqn:Hx; [|by apply wp_ret].
  apply wp_bind. eapply wp_mono; [by eapply iq_act_ok|]. intros [[locked x']|] H; apply wp_ret; [|done].
  apply if_possible_some. by apply H.
Qed.

Lemma iq_start_inv n cpus : iq_inv n (iq_start n cpus).
Proof.
  assert (held_locks (iq_start n cpus) = []) as Hh.
  { unfold held_locks. cbn. induction cpus as [|k IH]; [done|exact IH]. }
  split_and!; cbn [iq_start iq_locked iq_cpus].
  - apply length_replicate.
  - apply Forall_replicate. split_and!; try done; constructor.
  - rewrite Hh. split; [constructor|]. intros l b [-> _]%lookup_replicate. split; [done|]. by intros ?%not_elem_of_nil.
Qed.


(** Code takes two locks and drops them, with an interrupt before and after. *)
Definition nested_locks : list iq_label :=
  [IqIrq 0; IqTry 0 1; IqDrop 0 0; IqIret 0; IqLock 0 0; IqSpin 0 true; IqLock 0 1; IqSpin 0 true;
   IqDrop 0 0; IqDrop 0 0; IqIrq 0].


(** The order matters.  A CPU that drops the first of two guards first has
    interrupts enabled with the second lock held, and a handler that wants that
    lock spins for ever: no step of the CPU leads out of the handler. *)
Theorem irq_lock_out_of_order :
  exists y x, run iq_step (iq_start 2 1)
      [IqLock 0 0; IqSpin 0 true; IqLock 0 1; IqSpin 0 true; IqDrop 0 1; IqIrq 0; IqLock 0 1] = Ret (Some y) /\
    iq_cpus y = [x] /\ fr_spin (ic_cur x) = Some (1%nat, false) /\
    (exists f, ic_waiting x = [f] /\ fr_guards f = [(1%nat, false)]) /\
    forall l y', iq_step y l = Ret (Some y') -> y' = y.
Proof.
  eexists _, _. split; [vm_compute; reflexivity|]. split; [reflexivity|]. split; [reflexivity|].
  split; [by eexists|]. intros l y'.
  destruct l as [[|c] l|[|c] [|]|[|c] l|[|c] i|[|c]|[|c]|[|c] b]; cbn; try done; by intros [= <-].
Qed.
