(* ===== verification/AsyncLock.v ===== *)
(** * Locks that tasks wait for: mutex, semaphore, condition variable

    [kernel/core/src/sync/mutex.rs], [semaphore.rs] and [condvar.rs] of the same
    directory.  A task is a number, and so is its waker.  Firing a waker makes
    its task runnable ([notified]); a task that was told to wait is polled
    again only then.  Tasks interleave between atomic accesses; an operation of
    a wait queue is one critical section. *)

From S2P Require Import Prelude Threads Extern Sched WaitQueue Spin IrqLock.

(** ** Mutex *)

Section Mutex.
Context {V : Type} `{AV : !ArrayVec Z V MAX_WAITERS}.

Record Mutex : Type := mkMutex { mx_locked : bool; mx_waiters : WaitQueue V }.

Definition Mutex_new : Mutex := mkMutex false WaitQueue_new.

(** In [lock]: at the first compare-exchange, about to register, at the second
    compare-exchange, told to wait.  Spinning in [lock_sync].  Holding the
    guard.  In its drop, the lock released and the wakeup to come. *)
Inductive mx_pc : Type :=
| MxOut
| MxPoll
| MxReg
| MxRetry (registered : bool)
| MxPend
| MxSync
| MxHold
| MxWake.

Definition mutex_try_lock (self : Mutex) : Mutex * bool :=
  if negb (mx_locked self) then (mkMutex true (mx_waiters self), true) else (self, false).

(** The next access of a task in [poll], with the wakers it fires.  [ok] is
    false when the weak compare-exchange fails for no reason. *)
Definition MutexLockFuture_poll (self : Mutex) (pc : mx_pc) (waker : Z) (ok : bool)
    : exec (Mutex * mx_pc * list Z) :=
  match pc with
  | MxPoll =>
      if negb (mx_locked self) && ok then Ret (mkMutex true (mx_waiters self), MxHold, [])
      else Ret (self, MxReg, [])
  | MxReg =>
      '(q, registered) ← wq_register_waker (mx_waiters self) waker;
      Ret (mkMutex (mx_locked self) q, MxRetry registered, [])
  | MxRetry registered =>
      if negb (mx_locked self) then Ret (mkMutex true (mx_waiters self), MxHold, [])
      else Ret (self, MxPend, if negb registered then [waker] else [])
  | _ => Ret (self, pc, [])
  end.

(** A round of the loop of [lock_sync]. *)
Definition mutex_lock_sync (self : Mutex) : Mutex * mx_pc :=
  let '(m, b) := mutex_try_lock self in (m, if b then MxHold else MxSync).

(** The two accesses of the guard's drop. *)
Definition MutexGuard_drop_store (self : Mutex) : Mutex := mkMutex false (mx_waiters self).

Definition MutexGuard_drop_wake (self : Mutex) : exec (Mutex * list Z) :=
  '(q, ws) ← wq_wake_one (mx_waiters self);
  Ret (mkMutex (mx_locked self) q, ws).

Record MxSys : Type := mkMxSys { mx_lock : Mutex; mx_pcs : list mx_pc; mx_notified : list Z }.

Inductive mx_label : Type :=
| MxCall (t : nat) (sync : bool)
| MxTryLock (t : nat)
| MxStep (t : nat) (ok : bool).

Definition mx_step (y : MxSys) (l : mx_label) : exec (option MxSys) :=
  let goto m t pc ws := mkMxSys m (<[t := pc]> (mx_pcs y)) (ws ++ mx_notified y) in
  let m := mx_lock y in
  match l with
  | MxCall t sync =>
      match mx_pcs y !! t with
      | Some MxOut => Ret (Some (goto m t (if sync then MxSync else MxPoll) []))
      | _ => Ret None
      end
  | MxTryLock t =>
      match mx_pcs y !! t with
      | Some MxOut => let '(m, b) := mutex_try_lock m in Ret (Some (goto m t (if b then MxHold else MxOut) []))
      | _ => Ret None
      end
  | MxStep t ok =>
      match mx_pcs y !! t with
      | Some MxOut | None => Ret None
      | Some MxSync => let '(m, pc) := mutex_lock_sync m in Ret (Some (goto m t pc []))
      | Some MxHold => Ret (Some (goto (MutexGuard_drop_store m) t MxWake []))
      | Some MxWake => '(m, ws) ← MutexGuard_drop_wake m; Ret (Some (goto m t MxOut ws))
      | Some MxPend =>
          if bool_decide (Z.of_nat t ∈ mx_notified y) then
            Ret (Some (mkMxSys m (<[t := MxPoll]> (mx_pcs y)) (filter (fun w => w <> Z.of_nat t) (mx_notified y))))
          else Ret None
      | Some pc =>
          '(m, pc, ws) ← MutexLockFuture_poll m pc (Z.of_nat t) ok;
          Ret (Some (goto m t pc ws))
      end
  end.

Definition mx_start (n : nat) : MxSys := mkMxSys Mutex_new (replicate n MxOut) [].

Definition mx_held (pc : mx_pc) : bool := match pc with MxHold => true | _ => false end.

Definition mx_queue (y : MxSys) : list Z := wq_list (mx_waiters (mx_lock y)).

(** A waiting task is in the queue or runnable; one that has registered is in
    the queue or has been notified since. *)
Definition mx_pc_ok (queue notified : list Z) (t : nat) (pc : mx_pc) : Prop :=
  match pc with
  | MxPend => Z.of_nat t ∈ queue \/ Z.of_nat t ∈ notified
  | MxRetry true => Z.of_nat t ∈ queue \/ Z.of_nat t ∈ notified
  | _ => True
  end.

Record mx_inv (y : MxSys) : Prop := {
  mi_count : count mx_held (mx_pcs y) = Z.b2z (mx_locked (mx_lock y));
  mi_queue : Z.of_nat (length (mx_queue y)) <= MAX_WAITERS;
  mi_pcs : forall t pc, mx_pcs y !! t = Some pc -> mx_pc_ok (mx_queue y) (mx_notified y) t pc;
}.

Lemma mx_pc_ok_mono q n q' n' t pc :
  (forall w, w ∈ q \/ w ∈ n -> w ∈ q' \/ w ∈ n') -> mx_pc_ok q n t pc -> mx_pc_ok q' n' t pc.
Proof. intros H. destruct pc as [| | |[]| | | |]; simpl; auto. Qed.

(** A task moves; the queue and the notified tasks keep all wakers between
    them. *)
Lemma mx_inv_move y t pc m pc' ws :
  mx_inv y -> mx_pcs y !! t = Some pc ->
  Z.b2z (mx_locked m) = Z.b2z (mx_locked (mx_lock y)) - Z.b2z (mx_held pc) + Z.b2z (mx_held pc') ->
  Z.of_nat (length (wq_list (mx_waiters m))) <= MAX_WAITERS ->
  (forall w, w ∈ mx_queue y -> w ∈ wq_list (mx_waiters m) \/ w ∈ ws) ->
  mx_pc_ok (wq_list (mx_waiters m)) (ws ++ mx_notified y) t pc' ->
  mx_inv (mkMxSys m (<[t := pc']> (mx_pcs y)) (ws ++ mx_notified y)).
Proof.
  intros [Hc Hq Hp] Ht Hl Hlen Hk Hpc. constructor; cbn.
  - rewrite (count_insert _ _ _ pc), Hc, Hl by done. destruct (mx_held pc), (mx_held pc'); cbn; lia.
  - done.
  - intros u x. rewrite list_lookup_insert_Some. intros [(<- & <- & _)|[Hne Hx]]; [done|].
    eapply mx_pc_ok_mono; [|by apply Hp]. unfold mx_queue. cbn. intros w. rewrite elem_of_app. naive_solver.
Qed.

Lemma mx_start_inv n : mx_inv (mx_start n).
Proof.
  constructor; cbn.
  - apply count_zero. by intros i x [-> _]%lookup_replicate.
  - unfold mx_queue, wq_list. cbn. by rewrite av_new_spec.
  - by intros t pc [-> _]%lookup_replicate.
Qed.

(** The queue after a wakeup. *)
Lemma wake_one_keeps (q : WaitQueue V) :
  Z.of_nat (length (wq_list q)) <= MAX_WAITERS ->
  wp (wq_wake_one q) (fun r => Z.of_nat (length (wq_list r.1)) <= MAX_WAITERS /\
    forall w, w ∈ wq_list q -> w ∈ wq_list r.1 \/ w ∈ r.2).
Proof.
  intros Hl. eapply wp_mono; [apply wp_wake_one|]. intros [q' ws]. cbn.
  destruct (wq_list q) as [|w [|w' rest]]; [intros [-> ->]; cbn in *; split; [lia|set_solver]|
    intros [-> ->]; cbn in *; split; [lia|set_solver]|].
  intros (-> & z & l & E & ->). rewrite E in *. rewrite length_cons, length_app in Hl. cbn in *. split; [lia|set_solver].
Qed.

Lemma mx_poll_ok y t pc ok :
  mx_inv y -> mx_pcs y !! t = Some pc -> mx_held pc = false ->
  wp (MutexLockFuture_poll (mx_lock y) pc (Z.of_nat t) ok) (fun r =>
    mx_inv (mkMxSys r.1.1 (<[t := r.1.2]> (mx_pcs y)) (r.2 ++ mx_notified y))).
Proof.
  intros Hinv Ht Hh. pose proof Hinv as [Hc Hq Hp]. specialize (Hp t pc Ht). unfold mx_queue in *.
  assert (forall pc' ws, mx_held pc' = false ->
    mx_pc_ok (wq_list (mx_waiters (mx_lock y))) (ws ++ mx_notified y) t pc' ->
    mx_inv (mkMxSys (mx_lock y) (<[t := pc']> (mx_pcs y)) (ws ++ mx_notified y))) as Hstay.
  { intros pc' ws Hh' Hpc. eapply mx_inv_move; try done; [|by left]. rewrite Hh, Hh'. lia. }
  assert (mx_locked (mx_lock y) = false ->
    mx_inv (mkMxSys (mkMutex true (mx_waiters (mx_lock y))) (<[t := MxHold]> (mx_pcs y)) (mx_notified y))) as Htake.
  { intros Hf. apply (mx_inv_move y t pc _ MxHold []); try done; [|by left]. rewrite Hf, Hh. done. }
  destruct pc; cbn [MutexLockFuture_poll]; try (apply wp_ret; by apply (Hstay _ [])).
  - destruct (mx_locked (mx_lock y)) eqn:E; cbn; [apply wp_ret; by apply (Hstay MxReg [])|].
    destruct ok; apply wp_ret; [by apply Htake|by apply (Hstay MxReg [])].
  - wp_step. eapply wp_mono; [by apply wp_register_waker|]. intros [q b] [Hb Hl]. wp_step.
    apply (mx_inv_move y t MxReg _ (MxRetry b) []); cbn; try done; try lia.
    + rewrite Hl. destruct b; [|done]. rewrite length_app. cbn. apply symmetry, Z.ltb_lt in Hb. unfold MAX_WAITERS in *. lia.
    + intros w Hw. left. rewrite Hl. destruct b; set_solver.
    + destruct b; [|done]. left. rewrite Hl. set_solver.
  - destruct (mx_locked (mx_lock y)) eqn:E; cbn; apply wp_ret; [|by apply Htake].
    apply Hstay; [done|]. destruct registered; cbn in *; [done|]. right. set_solver.
Qed.

(** A task moves and leaves the lock alone. *)
Lemma mx_inv_stay y t pc pc' :
  mx_inv y -> mx_pcs y !! t = Some pc -> mx_held pc = false -> mx_held pc' = false ->
  (forall q n, mx_pc_ok q n t pc') -> mx_inv (mkMxSys (mx_lock y) (<[t := pc']> (mx_pcs y)) (mx_notified y)).
Proof.
  intros Hinv Ht H1 H2 Hpc. apply (mx_inv_move y t pc _ pc' []); try done; [|apply Hinv|by left].
  rewrite H1, H2. lia.
Qed.

Lemma mx_try_ok y t pc pc' :
  mx_inv y -> mx_pcs y !! t = Some pc -> mx_held pc = false -> mx_held pc' = false ->
  (forall q n, mx_pc_ok q n t pc') ->
  mx_inv (mkMxSys (mutex_try_lock (mx_lock y)).1
            (<[t := if (mutex_try_lock (mx_lock y)).2 then MxHold else pc']> (mx_pcs y)) (mx_notified y)).
Proof.
  intros Hinv Ht H1 H2 Hpc. unfold mutex_try_lock. destruct (mx_locked (mx_lock y)) eqn:E; cbn.
  - by eapply mx_inv_stay.
  - apply (mx_inv_move y t pc _ MxHold []); cbn; try done; [|apply Hinv|by left]. rewrite E, H1. done.
Qed.

(** A task that was notified is polled again. *)
Lemma mx_repoll_ok y t :
  mx_inv y -> mx_pcs y !! t = Some MxPend ->
  mx_inv (mkMxSys (mx_lock y) (<[t := MxPoll]> (mx_pcs y)) (filter (fun w => w <> Z.of_nat t) (mx_notified y))).
Proof.
  intros [Hc Hq Hp] Ht. constructor; cbn; [|done|].
  - rewrite (count_insert _ _ _ MxPend) by done. cbn. lia.
  - intros u x. rewrite list_lookup_insert_Some. intros [(<- & <- & _)|[Hne Hx]]; [done|].
    specialize (Hp u x Hx). unfold mx_queue in *. cbn.
    assert (Z.of_nat u ∈ filter (fun w => w <> Z.of_nat t) (mx_notified y) <-> Z.of_nat u ∈ mx_notified y) as Hf.
    { rewrite list_elem_of_filter. split; [tauto|]. intros. split; [lia|done]. }
    destruct x as [| | |[]| | | |]; cbn in *; try done; by rewrite Hf.
Qed.

Lemma mx_drop_ok y t :
  mx_inv y -> mx_pcs y !! t = Some MxHold ->
  mx_inv (mkMxSys (MutexGuard_drop_store (mx_lock y)) (<[t := MxWake]> (mx_pcs y)) (mx_notified y)).
Proof.
  intros Hinv Ht. apply (mx_inv_move y t MxHold _ MxWake []); cbn; try done; [|apply Hinv|by left].
  pose proof (count_pos mx_held _ _ _ Ht eq_refl). rewrite (mi_count _ Hinv) in *.
  destruct (mx_locked (mx_lock y)); cbn in *; lia.
Qed.

Lemma mx_wake_ok y t :
  mx_inv y -> mx_pcs y !! t = Some MxWake ->
  wp (MutexGuard_drop_wake (mx_lock y)) (fun r =>
    mx_inv (mkMxSys r.1 (<[t := MxOut]> (mx_pcs y)) (r.2 ++ mx_notified y))).
Proof.
  intros Hinv Ht. unfold MutexGuard_drop_wake. wp_step. eapply wp_mono; [apply wake_one_keeps, Hinv|].
  intros [q ws] [Hl Hk]. wp_step. apply (mx_inv_move y t MxWake _ MxOut ws); cbn; try done; lia.
Qed.

Lemma mx_step_ok y l : mx_inv y -> wp (mx_step y l) (if_possible mx_inv).
Proof.
  intros Hinv. destruct l as [t sync|t|t ok]; cbn [mx_step]; destruct (mx_pcs y !! t) as [pc|] eqn:Ht;
    try by apply wp_ret.
  - destruct pc; apply wp_ret; try done. apply if_possible_some. by destruct sync; eapply mx_inv_stay.
  - destruct pc; try by apply wp_ret. pose proof (mx_try_ok y t MxOut MxOut Hinv Ht eq_refl eq_refl ltac:(done)) as H.
    destruct (mutex_try_lock (mx_lock y)) as [m b]. apply wp_ret, if_possible_some. by destruct b.
  - destruct pc; try by apply wp_ret.
    1-3: wp_step; eapply wp_mono; [by apply mx_poll_ok|]; intros [[m pc'] ws] H; wp_step; by apply if_possible_some.
    + case_bool_decide; apply wp_ret; [|done]. by apply if_possible_some, mx_repoll_ok.
    + unfold mutex_lock_sync. pose proof (mx_try_ok y t MxSync MxSync Hinv Ht eq_refl eq_refl ltac:(done)) as H.
      destruct (mutex_try_lock (mx_lock y)) as [m b]. apply wp_ret, if_possible_some. by destruct b.
    + apply wp_ret, if_possible_some. by apply mx_drop_ok.
    + wp_step. eapply wp_mono; [by apply mx_wake_ok|]. intros [m ws] H. wp_step. by apply if_possible_some.
Qed.

End Mutex.
Arguments Mutex : clear implicits.
Arguments MxSys : clear implicits.

(** Task 1 gets the lock on its second attempt and unlocks it while task 0 waits. *)
Definition stale_waker : list mx_label :=
  [MxTryLock 0; MxCall 1 false; MxStep 1 true; MxStep 0 true; MxStep 0 true; MxStep 1 true; MxStep 1 true;
   MxCall 0 false; MxStep 0 true; MxStep 0 true; MxStep 0 true; MxStep 1 true; MxStep 1 true].


(** ** Semaphore *)

Record Semaphore : Type := mkSemaphore { sm_permits : Z; sm_waiters : HeapWaitQueue }.

Definition Semaphore_new (permits : Z) : Semaphore := mkSemaphore permits HeapWaitQueue_new.

(** Which call of [try_acquire]: by itself, or the first or second of [poll]. *)
Inductive sm_call : Type := SmTry | SmFirst | SmSecond.

Inductive sm_pc : Type :=
| SmOut
| SmLoad (k : sm_call)
| SmCas (k : sm_call) (current : Z)
| SmReg
| SmPend
| SmHold
| SmWake.

(** What follows when there is no permit. *)
Definition sm_none (k : sm_call) : sm_pc :=
  match k with SmTry => SmOut | SmFirst => SmReg | SmSecond => SmPend end.

(** The next access of a task in [try_acquire]. *)
Definition semaphore_try_acquire (self : Semaphore) (pc : sm_pc) (ok : bool) : exec (Semaphore * sm_pc) :=
  match pc with
  | SmLoad k =>
      let current := sm_permits self in
      Ret (self, if current =? 0 then sm_none k else SmCas k current)
  | SmCas k current =>
      n ← sub64 current 1;
      if (sm_permits self =? current) && ok then Ret (mkSemaphore n (sm_waiters self), SmHold)
      else Ret (self, SmLoad k)
  | _ => Ret (self, pc)
  end.

Definition semaphore_register (self : Semaphore) (waker : Z) : Semaphore :=
  mkSemaphore (sm_permits self) (heap_register_waker (sm_waiters self) waker).

(** The two accesses of [release]. *)
Definition semaphore_release_add (self : Semaphore) : Semaphore :=
  mkSemaphore ((sm_permits self + 1) mod 2 ^ 32) (sm_waiters self).

Definition semaphore_release_wake (self : Semaphore) : Semaphore * list Z :=
  let '(q, ws) := heap_wake_one (sm_waiters self) in (mkSemaphore (sm_permits self) q, ws).

Record SmSys : Type := mkSmSys { sm_sem : Semaphore; sm_pcs : list sm_pc; sm_notified : list Z }.

Inductive sm_label : Type :=
| SmCall (t : nat) (try : bool)
| SmStep (t : nat) (ok : bool).

Definition sm_step (y : SmSys) (l : sm_label) : exec (option SmSys) :=
  let goto s t pc ws := mkSmSys s (<[t := pc]> (sm_pcs y)) (ws ++ sm_notified y) in
  let s := sm_sem y in
  match l with
  | SmCall t try =>
      match sm_pcs y !! t with
      | Some SmOut => Ret (Some (goto s t (SmLoad (if try then SmTry else SmFirst)) []))
      | _ => Ret None
      end
  | SmStep t ok =>
      match sm_pcs y !! t with
      | Some SmOut | None => Ret None
      | Some SmReg => Ret (Some (goto (semaphore_register s (Z.of_nat t)) t (SmLoad SmSecond) []))
      | Some SmPend =>
          if bool_decide (Z.of_nat t ∈ sm_notified y) then
            Ret (Some (mkSmSys s (<[t := SmLoad SmFirst]> (sm_pcs y))
                         (filter (fun w => w <> Z.of_nat t) (sm_notified y))))
          else Ret None
      | Some SmHold => Ret (Some (goto (semaphore_release_add s) t SmWake []))
      | Some SmWake => let '(s, ws) := semaphore_release_wake s in Ret (Some (goto s t SmOut ws))
      | Some pc => '(s, pc) ← semaphore_try_acquire s pc ok; Ret (Some (goto s t pc []))
      end
  end.

Definition sm_start (n : nat) (permits : Z) : SmSys := mkSmSys (Semaphore_new permits) (replicate n SmOut) [].

Definition sm_held (pc : sm_pc) : bool := match pc with SmHold => true | _ => false end.

Definition sm_pc_ok (pc : sm_pc) : Prop := match pc with SmCas _ current => 0 < current | _ => True end.

Definition sm_inv (permits : Z) (y : SmSys) : Prop :=
  0 <= sm_permits (sm_sem y) /\ sm_permits (sm_sem y) + count sm_held (sm_pcs y) = permits /\
  Forall sm_pc_ok (sm_pcs y).

Lemma sm_inv_move permits y t pc s pc' ws :
  sm_inv permits y -> sm_pcs y !! t = Some pc -> sm_pc_ok pc' -> 0 <= sm_permits s ->
  sm_permits s - Z.b2z (sm_held pc) + Z.b2z (sm_held pc') = sm_permits (sm_sem y) ->
  sm_inv permits (mkSmSys s (<[t := pc']> (sm_pcs y)) ws).
Proof.
  intros (Hn & Hc & Hp) Ht Hpc Hs Hb. split_and!; cbn; [done| |by apply Forall_insert].
  rewrite (count_insert _ _ _ pc) by done. destruct (sm_held pc), (sm_held pc'); cbn in *; lia.
Qed.

Lemma sm_step_ok permits y l :
  permits < 2 ^ 32 -> sm_inv permits y -> wp (sm_step y l) (if_possible (sm_inv permits)).
Proof.
  intros Hm Hinv. pose proof Hinv as (Hn & Hc & Hp).
  destruct l as [t try|t ok]; cbn [sm_step]; destruct (sm_pcs y !! t) as [pc|] eqn:Ht; try by apply wp_ret.
  - destruct pc; apply wp_ret; try done. apply if_possible_some. eapply sm_inv_move; try done. cbn. lia.
  - pose proof (Forall_lookup_1 _ _ _ _ Hp Ht) as Hpc.
    destruct pc as [|k|k current| | | |]; try by apply wp_ret.
    + apply wp_ret, if_possible_some. eapply sm_inv_move; try done; [|by destruct (_ =? _), k; cbn; lia].
      destruct (Z.eqb_spec (sm_permits (sm_sem y)) 0); [by destruct k|cbn; lia].
    + cbn in Hpc. wp_step. cbn [semaphore_try_acquire]. wp_step. wp_step.
      destruct (Z.eqb_spec (sm_permits (sm_sem y)) current) as [E|]; [destruct ok|]; cbn; wp_steps;
        apply if_possible_some; eapply sm_inv_move; try done; cbn; lia.
    + apply wp_ret, if_possible_some. eapply sm_inv_move; try done. cbn. lia.
    + case_bool_decide; apply wp_ret; [|done]. apply if_possible_some. eapply sm_inv_move; try done. cbn. lia.
    + apply wp_ret, if_possible_some. pose proof (count_pos sm_held _ _ _ Ht eq_refl).
      eapply sm_inv_move; try done; cbn; rewrite Z.mod_small; lia.
    + destruct (semaphore_release_wake (sm_sem y)) as [s ws] eqn:E. unfold semaphore_release_wake in E.
      destruct (heap_wake_one _). simplify_eq. apply wp_ret, if_possible_some. eapply sm_inv_move; try done. cbn. lia.
Qed.

(** A semaphore never gives out more permits than it has: what is held and
    what is available add up to the initial number, and nothing panics. *)
Theorem semaphore_permits n permits ls :
  0 <= permits < 2 ^ 32 ->
  exists o, run sm_step (sm_start n permits) ls = Ret o /\
    forall y, o = Some y -> sm_permits (sm_sem y) + count sm_held (sm_pcs y) = permits /\
      count sm_held (sm_pcs y) <= permits.
Proof.
  intros Hm. assert (sm_inv permits (sm_start n permits)) as H0.
  { split_and!; cbn; [lia| |by apply Forall_replicate]. rewrite count_zero; [lia|].
    by intros i x [-> _]%lookup_replicate. }
  destruct (proj1 (wp_exists _ _) (run_inv sm_step (sm_inv permits) _ ls
    (fun y l => sm_step_ok permits y l (proj2 Hm)) H0)) as (o & Hrun & Ho).
  exists o. split; [done|]. intros y ->. destruct (Ho y eq_refl) as (Hp & Hc & _). lia.
Qed.

(** Three tasks and two permits. *)
Lemma semaphore_permits_witness :
  exists y, run sm_step (sm_start 3 2)
      [SmCall 0 true; SmStep 0 true; SmStep 0 true; SmCall 1 false; SmStep 1 true; SmStep 1 false; SmStep 1 true;
       SmStep 1 true; SmCall 2 false; SmStep 2 true; SmStep 2 true; SmStep 2 true; SmStep 0 true; SmStep 0 true;
       SmStep 2 true; SmStep 2 true; SmStep 2 true] = Ret (Some y) /\
    sm_pcs y = [SmOut; SmHold; SmHold] /\ sm_permits (sm_sem y) + count sm_held (sm_pcs y) = 2.
Proof.
  destruct (semaphore_permits 3 2
      [SmCall 0 true; SmStep 0 true; SmStep 0 true; SmCall 1 false; SmStep 1 true; SmStep 1 false; SmStep 1 true;
       SmStep 1 true; SmCall 2 false; SmStep 2 true; SmStep 2 true; SmStep 2 true; SmStep 0 true; SmStep 0 true;
       SmStep 2 true; SmStep 2 true; SmStep 2 true] ltac:(lia)) as (o & Hrun & Ho).
  vm_compute in Hrun. injection Hrun as <-. eexists. split; [vm_compute; reflexivity|].
  split; [reflexivity|]. apply (Ho _ eq_refl).
Defined.

(** The stale waker again: a permit is available, a task waits for one, and no
    task is at work. *)
Theorem semaphore_lost_wakeup :
  exists y, run sm_step (sm_start 2 1)
      [SmCall 0 true; SmStep 0 true; SmStep 0 true; SmCall 1 false; SmStep 1 true; SmStep 0 true; SmStep 0 true;
       SmStep 1 true; SmStep 1 true; SmStep 1 true; SmCall 0 false; SmStep 0 true; SmStep 0 true; SmStep 0 true;
       SmStep 1 true; SmStep 1 true] = Ret (Some y) /\
    sm_permits (sm_sem y) = 1 /\ sm_pcs y = [SmPend; SmOut] /\ forall ok, sm_step y (SmStep 0 ok) = Ret None.
Proof. eexists. split; [vm_compute; reflexivity|]. by split_and!. Qed.

(** ** Condition variable *)

Section Condvar.
Context {V : Type} `{AV : !ArrayVec Z V MAX_WAITERS}.

Record Condvar : Type := mkCondvar { cv_waiters : V }.

Definition Condvar_new : Condvar := mkCondvar av_new.

Definition notify_one (self : Condvar) : exec (Condvar * list Z) :=
  if av_len (cv_waiters self) =? 0 then Ret (self, []) else
  '(waiters, w) ← av_swap_remove (cv_waiters self) 0;
  Ret (mkCondvar waiters, [w]).

Definition notify_all (self : Condvar) : exec (Condvar * list Z) :=
  '(waiters, temp) ← drain_into wq_fuel (cv_waiters self) av_new;
  ws ← drain_wake wq_fuel temp;
  Ret (mkCondvar waiters, ws).

(** A poll of the future of [wait_async]; the last component is [Ready]. *)
Definition CondvarWaitFuture_poll (registered : bool) (self : Condvar) (waker : Z) : exec (bool * Condvar * bool) :=
  if registered then Ret (registered, self, true) else
  if av_len (cv_waiters self) <? MAX_WAITERS then
    waiters ← av_push (cv_waiters self) waker;
    Ret (true, mkCondvar waiters, false)
  else Ret (true, self, false).

(** A task runs its own code, or is in [wait_async]: dropping the guard, the
    future not polled yet, or waiting for a notification.  Taking the mutex
    again is a call of [lock]. *)
Inductive cv_pc : Type := CvRun | CvDropping | CvPend.

(** [cv_pred] is the data the mutex protects. *)
Record CvSys : Type := mkCvSys { cv_mx : MxSys V; cv_cond : Condvar; cv_pcs : list cv_pc; cv_pred : bool }.

Inductive cv_label : Type :=
| CvMutex (l : mx_label)
| CvSet (t : nat) (b : bool)
| CvWait (t : nat)
| CvPoll (t : nat)
| CvNotify (t : nat) (all : bool).

Definition mx_task (l : mx_label) : nat := match l with MxCall t _ | MxTryLock t | MxStep t _ => t end.

Definition is_mx_step (l : mx_label) : bool := match l with MxStep _ _ => true | _ => false end.

Definition cv_step (y : CvSys) (l : cv_label) : exec (option CvSys) :=
  let mx := cv_mx y in
  match l with
  | CvMutex l =>
      let may := match cv_pcs y !! mx_task l with
                 | Some CvRun => true
                 | Some CvDropping => is_mx_step l
                 | _ => false
                 end in
      if may then
        o ← mx_step mx l;
        Ret (option_map (fun mx => mkCvSys mx (cv_cond y) (cv_pcs y) (cv_pred y)) o)
      else Ret None
  | CvSet t b =>
      match cv_pcs y !! t, mx_pcs mx !! t with
      | Some CvRun, Some MxHold => Ret (Some (mkCvSys mx (cv_cond y) (cv_pcs y) b))
      | _, _ => Ret None
      end
  | CvWait t =>
      match cv_pcs y !! t, mx_pcs mx !! t with
      | Some CvRun, Some MxHold =>
          o ← mx_step mx (MxStep t true);
          Ret (option_map (fun mx => mkCvSys mx (cv_cond y) (<[t := CvDropping]> (cv_pcs y)) (cv_pred y)) o)
      | _, _ => Ret None
      end
  | CvPoll t =>
      match cv_pcs y !! t, mx_pcs mx !! t with
      | Some CvDropping, Some MxOut =>
          '(_, c, _) ← CondvarWaitFuture_poll false (cv_cond y) (Z.of_nat t);
          Ret (Some (mkCvSys mx c (<[t := CvPend]> (cv_pcs y)) (cv_pred y)))
      | Some CvPend, _ =>
          if bool_decide (Z.of_nat t ∈ mx_notified mx) then
            '(_, c, _) ← CondvarWaitFuture_poll true (cv_cond y) (Z.of_nat t);
            o ← mx_step (mkMxSys (mx_lock mx) (mx_pcs mx) (filter (fun w => w <> Z.of_nat t) (mx_notified mx)))
                  (MxCall t false);
            Ret (option_map (fun mx => mkCvSys mx c (<[t := CvRun]> (cv_pcs y)) (cv_pred y)) o)
          else Ret None
      | _, _ => Ret None
      end
  | CvNotify t all =>
      match cv_pcs y !! t with
      | Some CvRun =>
          '(c, ws) ← (if all then notify_all (cv_cond y) else notify_one (cv_cond y));
          Ret (Some (mkCvSys (mkMxSys (mx_lock mx) (mx_pcs mx) (ws ++ mx_notified mx)) c (cv_pcs y) (cv_pred y)))
      | _ => Ret None
      end
  end.

Definition cv_start (n : nat) : CvSys := mkCvSys (mx_start n) Condvar_new (replicate n CvRun) false.
End Condvar.
Arguments Condvar : clear implicits.
Arguments CvSys : clear implicits.

(** Task 0 finds the predicate false and waits; task 1 sets it and notifies,
    after the mutex was released and before the future was first polled. *)
Definition late_registration : list cv_label :=
  [CvMutex (MxTryLock 0); CvWait 0; CvMutex (MxStep 0 true); CvMutex (MxTryLock 1); CvSet 1 true;
   CvMutex (MxStep 1 true); CvMutex (MxStep 1 true); CvNotify 1 true; CvPoll 0].

(** The waker is registered when the future is first polled, after the mutex
    has been released: a notification in between is lost.  The predicate holds,
    all waiters have been notified, and task 0 waits for ever. *)
Theorem condvar_lost_wakeup :
  exists y : CvSys (list Z), run cv_step (cv_start 2) late_registration = Ret (Some y) /\
    cv_pred y = true /\ mx_locked (mx_lock (cv_mx y)) = false /\ cv_pcs y = [CvPend; CvRun] /\
    mx_notified (cv_mx y) = [] /\ cv_step y (CvPoll 0) = Ret None.
Proof. eexists. split; [vm_compute; reflexivity|]. by split_and!. Qed.

(** The synchronous [wait]: the guard is dropped, then [try_lock] is repeated
    until it succeeds. *)
Inductive cw_pc : Type := CwHold | CwSpin | CwBack.

Definition condvar_wait (locked : bool) (pc : cw_pc) : bool * cw_pc :=
  match pc with
  | CwHold => ((SpinLockGuard_drop locked).1, CwSpin)
  | CwSpin =>
      let '(b, pc) := spinlock_try_lock locked in (b, match pc with SlHold => CwBack | _ => CwSpin end)
  | CwBack => (locked, CwBack)
  end.

(** The synchronous [wait] waits for no notification: alone on the lock it is
    back after two accesses, before anyone can have notified. *)
Theorem condvar_wait_returns_at_once :
  let '(b, pc) := condvar_wait true CwHold in condvar_wait b pc = (true, CwBack).
Proof. reflexivity. Qed.
