(* ===== verification/Net.v ===== *)
(** * The network stack (kernel/net/src)

    Ethernet, ARP, IPv4 and ICMP echo, and the receive loop that ties them
    together.  A byte is an integer, an array or slice a list.  A function that
    writes into a caller's buffer returns the buffer.

    The receive loop runs against any device that keeps the promises of the
    trait [NetworkDevice]; its model records the frames received and sent.  The
    specification [answer] says which frames have an answer and what it is. *)

From S2P Require Import Prelude Std.

(** ** Bytes and integers of 16 bits *)

(** [!x] of a [u16]. *)
Definition not16 (x : Z) : Z := Z.lnot x mod 2 ^ 16.

(** [u16::from_be_bytes] and [u16::to_be_bytes]. *)
Definition from_be_u16 (hi lo : Z) : Z := hi * 256 + lo.

Definition to_be_u16 (x : Z) : list Z := [x / 256; x mod 256].

(** [<\[u8; n\]>::try_from(slice).ok()]. *)
Definition array_from (n : nat) (l : list Z) : option (list Z) :=
  if decide (length l = n) then Some l else None.

(** The early return of [?] in a function that returns an [Option]. *)
Notation "'let?' x := o 'in' k" := (match o with Some x => k | None => Ret None end)
  (at level 10, x pattern, k at level 200) : hadron_scope.
Local Open Scope hadron_scope.

(** ** The Internet checksum (checksum.rs) *)

Fixpoint sum_words (data : list Z) (fuel : nat) (i sum : Z) : exec (Z * Z) :=
  match fuel with
  | O => Panic
  | S fuel =>
      next ← add64 i 1;
      if next <? Z.of_nat (length data) then
        a ← idx data i;
        b ← idx data next;
        sum ← add32 sum (from_be_u16 a b);
        i ← add64 i 2;
        sum_words data fuel i sum
      else Ret (i, sum)
  end.

Fixpoint fold_sum (fuel : nat) (sum : Z) : exec Z :=
  match fuel with
  | O => Panic
  | S fuel =>
      if negb (Z.shiftr sum 16 =? 0) then
        sum ← add32 (Z.land sum 0xFFFF) (Z.shiftr sum 16);
        fold_sum fuel sum
      else Ret sum
  end.

Definition internet_checksum (data : list Z) : exec Z :=
  '(i, sum) ← sum_words data (S (length data)) 0 0;
  sum ← (if i <? Z.of_nat (length data) then
           a ← idx data i;
           add32 sum (Z.shiftl a 8)
         else Ret sum);
  sum ← fold_sum 3 sum;
  Ret (not16 (sum mod 2 ^ 16)).

(** ** Ethernet (ethernet.rs) *)

Definition ETHERNET_HEADER_LEN : Z := 14.
Definition ETHERTYPE_ARP : list Z := [0x08; 0x06].
Definition ETHERTYPE_IPV4 : list Z := [0x08; 0x00].

Record EthernetHeader : Type := mkEthernetHeader {
  eth_dst : list Z;
  eth_src : list Z;
  eth_ethertype : list Z;
}.

Definition EthernetHeader_parse (buf : list Z) : exec (option (EthernetHeader * list Z)) :=
  if Z.of_nat (length buf) <? ETHERNET_HEADER_LEN then Ret None else
  s ← slice buf 0 6;
  let? dst := array_from 6 s in
  s ← slice buf 6 12;
  let? src := array_from 6 s in
  s ← slice buf 12 14;
  let? ethertype := array_from 2 s in
  payload ← slice buf ETHERNET_HEADER_LEN (Z.of_nat (length buf));
  Ret (Some (mkEthernetHeader dst src ethertype, payload)).

Definition EthernetHeader_write (buf dst src ethertype : list Z) : exec (list Z * option Z) :=
  if Z.of_nat (length buf) <? ETHERNET_HEADER_LEN then Ret (buf, None) else
  buf ← copy_from_slice buf 0 6 dst;
  buf ← copy_from_slice buf 6 12 src;
  buf ← copy_from_slice buf 12 14 ethertype;
  Ret (buf, Some ETHERNET_HEADER_LEN).

(** ** IPv4 (ipv4.rs) *)

Definition IPV4_HEADER_LEN : Z := 20.
Definition PROTO_ICMP : Z := 1.

Record Ipv4Header : Type := mkIpv4Header {
  ip_src : list Z;
  ip_dst : list Z;
  ip_protocol : Z;
  ip_total_len : Z;
}.

Definition Ipv4Header_parse (buf : list Z) : exec (option (Ipv4Header * list Z)) :=
  if Z.of_nat (length buf) <? IPV4_HEADER_LEN then Ret None else
  version_ihl ← idx buf 0;
  let version := Z.shiftr version_ihl 4 in
  let ihl := Z.land version_ihl 0x0F in
  if negb (version =? 4) || negb (ihl =? 5) then Ret None else
  a ← idx buf 2;
  b ← idx buf 3;
  let total_len := from_be_u16 a b in
  protocol ← idx buf 9;
  s ← slice buf 12 16;
  let? src := array_from 4 s in
  s ← slice buf 16 20;
  let? dst := array_from 4 s in
  let payload_end := Z.min total_len (Z.of_nat (length buf)) in
  if payload_end <=? IPV4_HEADER_LEN then Ret None else
  payload ← slice buf IPV4_HEADER_LEN payload_end;
  Ret (Some (mkIpv4Header src dst protocol total_len, payload)).

(** The fields of a header, with a zero checksum. *)
Definition write_fields (b : list Z) (total_len protocol : Z) (src dst : list Z) : exec (list Z) :=
  b ← upd b 0 0x45;
  b ← upd b 1 0;
  b ← copy_from_slice b 2 4 (to_be_u16 total_len);
  b ← copy_from_slice b 4 6 [0; 0];
  b ← copy_from_slice b 6 8 [0x40; 0x00];
  b ← upd b 8 64;
  b ← upd b 9 protocol;
  b ← copy_from_slice b 10 12 [0; 0];
  b ← copy_from_slice b 12 16 src;
  copy_from_slice b 16 20 dst.

Definition Ipv4Header_write (buf : list Z) (offset : Z) (src dst : list Z)
    (protocol payload_len : Z) : exec (list Z * option Z) :=
  stop ← add64 offset IPV4_HEADER_LEN;
  if Z.of_nat (length buf) <? stop then Ret (buf, None) else
  n ← add64 IPV4_HEADER_LEN payload_len;
  let total_len := n mod 2 ^ 16 in
  b ← slice buf offset stop;
  b ← write_fields b total_len protocol src dst;
  buf ← copy_from_slice buf offset stop b;
  header ← slice buf offset stop;
  cksum ← internet_checksum header;
  lo ← add64 offset 10;
  hi ← add64 offset 12;
  buf ← copy_from_slice buf lo hi (to_be_u16 cksum);
  Ret (buf, Some stop).

(** ** ARP (arp.rs) *)

Definition ARP_PACKET_LEN : Z := 28.
Definition ARP_OP_REQUEST : Z := 1.
Definition ARP_OP_REPLY : Z := 2.
Definition ARP_TABLE_SIZE : Z := 16.

Record ArpPacket : Type := mkArpPacket {
  arp_htype : Z;
  arp_ptype : Z;
  arp_hlen : Z;
  arp_plen : Z;
  arp_oper : Z;
  arp_sha : list Z;
  arp_spa : list Z;
  arp_tha : list Z;
  arp_tpa : list Z;
}.

Definition ArpPacket_parse (data : list Z) : exec (option ArpPacket) :=
  if Z.of_nat (length data) <? ARP_PACKET_LEN then Ret None else
  a ← idx data 0;
  b ← idx data 1;
  let htype := from_be_u16 a b in
  a ← idx data 2;
  b ← idx data 3;
  let ptype := from_be_u16 a b in
  hlen ← idx data 4;
  plen ← idx data 5;
  a ← idx data 6;
  b ← idx data 7;
  let oper := from_be_u16 a b in
  if negb (htype =? 1) || negb (ptype =? 0x0800) || negb (hlen =? 6) || negb (plen =? 4)
  then Ret None else
  s ← slice data 8 14;
  let? sha := array_from 6 s in
  s ← slice data 14 18;
  let? spa := array_from 4 s in
  s ← slice data 18 24;
  let? tha := array_from 6 s in
  s ← slice data 24 28;
  let? tpa := array_from 4 s in
  Ret (Some (mkArpPacket htype ptype hlen plen oper sha spa tha tpa)).

Definition ArpPacket_write_reply (buf : list Z) (offset : Z)
    (our_mac our_ip target_mac target_ip : list Z) : exec (list Z * option Z) :=
  stop ← add64 offset ARP_PACKET_LEN;
  if Z.of_nat (length buf) <? stop then Ret (buf, None) else
  b ← slice buf offset (Z.of_nat (length buf));
  b ← copy_from_slice b 0 2 (to_be_u16 1);
  b ← copy_from_slice b 2 4 (to_be_u16 0x0800);
  b ← upd b 4 6;
  b ← upd b 5 4;
  b ← copy_from_slice b 6 8 (to_be_u16 ARP_OP_REPLY);
  b ← copy_from_slice b 8 14 our_mac;
  b ← copy_from_slice b 14 18 our_ip;
  b ← copy_from_slice b 18 24 target_mac;
  b ← copy_from_slice b 24 28 target_ip;
  buf ← copy_from_slice buf offset (Z.of_nat (length buf)) b;
  Ret (buf, Some ARP_PACKET_LEN).

Record ArpEntry : Type := mkArpEntry { ae_ip : list Z; ae_mac : list Z }.

Record ArpTable : Type := mkArpTable { at_entries : list (option ArpEntry); at_next : Z }.

Definition ArpTable_new : ArpTable :=
  mkArpTable (replicate (Z.to_nat ARP_TABLE_SIZE) None) 0.

(** The loop of [learn]: the first entry for the address gets the new
    hardware address. *)
Fixpoint learn_existing (entries : list (option ArpEntry)) (ip mac : list Z)
    : option (list (option ArpEntry)) :=
  match entries with
  | [] => None
  | Some entry :: rest =>
      if bytes_eqb (ae_ip entry) ip then Some (Some (mkArpEntry (ae_ip entry) mac) :: rest)
      else option_map (cons (Some entry)) (learn_existing rest ip mac)
  | None :: rest => option_map (cons None) (learn_existing rest ip mac)
  end.

Definition ArpTable_learn (self : ArpTable) (ip mac : list Z) : exec ArpTable :=
  match learn_existing (at_entries self) ip mac with
  | Some entries => Ret (mkArpTable entries (at_next self))
  | None =>
      entries ← upd (at_entries self) (at_next self) (Some (mkArpEntry ip mac));
      n ← add64 (at_next self) 1;
      Ret (mkArpTable entries (n mod ARP_TABLE_SIZE))
  end.

Definition handle_arp (self : ArpTable) (our_ip our_mac payload reply_buf : list Z)
    : exec (ArpTable * list Z * option Z) :=
  pkt ← ArpPacket_parse payload;
  match pkt with
  | None => Ret (self, reply_buf, None)
  | Some pkt =>
      self ← ArpTable_learn self (arp_spa pkt) (arp_sha pkt);
      if negb (arp_oper pkt =? ARP_OP_REQUEST) || negb (bytes_eqb (arp_tpa pkt) our_ip)
      then Ret (self, reply_buf, None) else
      '(reply_buf, r) ← EthernetHeader_write reply_buf (arp_sha pkt) our_mac ETHERTYPE_ARP;
      match r with
      | None => Ret (self, reply_buf, None)
      | Some eth_off =>
          '(reply_buf, r) ← ArpPacket_write_reply reply_buf eth_off our_mac our_ip
                              (arp_sha pkt) (arp_spa pkt);
          match r with
          | None => Ret (self, reply_buf, None)
          | Some arp_len => total ← add64 eth_off arp_len; Ret (self, reply_buf, Some total)
          end
      end
  end.

(** ** ICMP echo (icmp.rs) *)

Definition ICMP_ECHO_REQUEST : Z := 8.
Definition ICMP_ECHO_REPLY : Z := 0.
Definition ICMP_HEADER_LEN : Z := 8.

(** The message: type, code, a zero checksum, identifier, sequence number and
    data of the request, then the checksum of all of it. *)
Definition write_echo_reply (reply_buf : list Z) (off : Z) (icmp_payload icmp_data : list Z)
    (icmp_reply_len : Z) : exec (list Z) :=
  let icmp_start := off in
  reply_buf ← upd reply_buf off ICMP_ECHO_REPLY;
  i ← add64 off 1;
  reply_buf ← upd reply_buf i 0;
  i ← add64 off 2;
  reply_buf ← upd reply_buf i 0;
  i ← add64 off 3;
  reply_buf ← upd reply_buf i 0;
  lo ← add64 off 4;
  hi ← add64 off ICMP_HEADER_LEN;
  s ← slice icmp_payload 4 ICMP_HEADER_LEN;
  reply_buf ← copy_from_slice reply_buf lo hi s;
  stop ← add64 off icmp_reply_len;
  reply_buf ← copy_from_slice reply_buf hi stop icmp_data;
  msg ← slice reply_buf icmp_start stop;
  cksum ← internet_checksum msg;
  lo ← add64 icmp_start 2;
  hi ← add64 icmp_start 4;
  copy_from_slice reply_buf lo hi (to_be_u16 cksum).

Definition handle_icmp (eth_src ip_src our_mac our_ip icmp_payload reply_buf : list Z)
    : exec (list Z * option Z) :=
  if Z.of_nat (length icmp_payload) <? ICMP_HEADER_LEN then Ret (reply_buf, None) else
  icmp_type ← idx icmp_payload 0;
  if negb (icmp_type =? ICMP_ECHO_REQUEST) then Ret (reply_buf, None) else
  icmp_data ← slice icmp_payload ICMP_HEADER_LEN (Z.of_nat (length icmp_payload));
  icmp_reply_len ← add64 ICMP_HEADER_LEN (Z.of_nat (length icmp_data));
  n ← add64 ETHERNET_HEADER_LEN IPV4_HEADER_LEN;
  total_len ← add64 n icmp_reply_len;
  if Z.of_nat (length reply_buf) <? total_len then Ret (reply_buf, None) else
  '(reply_buf, r) ← EthernetHeader_write reply_buf eth_src our_mac ETHERTYPE_IPV4;
  match r with
  | None => Ret (reply_buf, None)
  | Some off =>
      '(reply_buf, r) ← Ipv4Header_write reply_buf off our_ip ip_src PROTO_ICMP icmp_reply_len;
      match r with
      | None => Ret (reply_buf, None)
      | Some off =>
          reply_buf ← write_echo_reply reply_buf off icmp_payload icmp_data icmp_reply_len;
          Ret (reply_buf, Some total_len)
      end
  end.

(** ** Network devices (kernel/driver-api/src/net.rs) *)

Inductive NetError : Type :=
  | DeviceError | BufferTooSmall | PacketTooLarge | DmaError | NotReady | WouldBlock | TxQueueFull.

(** The trait: [recv] fills the front of the buffer and returns the number of
    bytes written to it. *)
Class NetworkDevice (D : Type) : Type := {
  nd_recv : D -> list Z -> D * list Z * result Z NetError;
  nd_send : D -> list Z -> D * result unit NetError;
  nd_mac_address : D -> list Z;

  nd_mac_len : forall d, length (nd_mac_address d) = 6%nat;
  nd_mac_bytes : forall d, Forall is_byte (nd_mac_address d);
  nd_recv_buf : forall d buf, Forall is_byte buf ->
    length (nd_recv d buf).1.2 = length buf /\ Forall is_byte (nd_recv d buf).1.2;
  nd_recv_len : forall d buf n, (nd_recv d buf).2 = Ok n -> 0 <= n <= Z.of_nat (length buf);
}.

(** ** The receive loop (task.rs) *)

Record NetConfig : Type := mkNetConfig {
  nc_ip : list Z;
  nc_netmask : list Z;
  nc_gateway : list Z;
}.

Definition MAX_FRAME : Z := 1518.

(** What the task does with the device: a failed [recv], a frame received, a
    frame sent. *)
Inductive net_event : Type :=
  | RecvFailed (e : NetError)
  | Received (frame : list Z)
  | Sent (frame : list Z).

(** The variables of the task. *)
Record net_task : Type := mkNetTask {
  nt_rx_buf : list Z;
  nt_tx_buf : list Z;
  nt_arp_table : ArpTable;
}.

Definition net_task_new : net_task :=
  mkNetTask (replicate (Z.to_nat MAX_FRAME) 0) (replicate (Z.to_nat MAX_FRAME) 0) ArpTable_new.

Section Loop.
Context `{NetworkDevice D}.

(** [nic.send(&tx_buf\[..reply_len\])]. *)
Definition send_reply (nic : D) (tx_buf : list Z) (reply_len : option Z)
    : exec (D * list net_event) :=
  match reply_len with
  | None => Ret (nic, [])
  | Some n =>
      reply ← slice tx_buf 0 n;
      Ret ((nd_send nic reply).1, [Sent reply])
  end.

(** The body of the loop after a frame was received. *)
Definition net_dispatch (nic : D) (our_mac our_ip frame tx_buf : list Z) (arp_table : ArpTable)
    : exec (D * list Z * ArpTable * list net_event) :=
  parsed ← EthernetHeader_parse frame;
  match parsed with
  | None => Ret (nic, tx_buf, arp_table, [])
  | Some (eth, payload) =>
      if bytes_eqb (eth_ethertype eth) ETHERTYPE_ARP then
        '(arp_table, tx_buf, r) ← handle_arp arp_table our_ip our_mac payload tx_buf;
        '(nic, evs) ← send_reply nic tx_buf r;
        Ret (nic, tx_buf, arp_table, evs)
      else if bytes_eqb (eth_ethertype eth) ETHERTYPE_IPV4 then
        parsed ← Ipv4Header_parse payload;
        match parsed with
        | None => Ret (nic, tx_buf, arp_table, [])
        | Some (ip_hdr, ip_payload) =>
            if negb (bytes_eqb (ip_dst ip_hdr) our_ip) then Ret (nic, tx_buf, arp_table, []) else
            if ip_protocol ip_hdr =? PROTO_ICMP then
              '(tx_buf, r) ← handle_icmp (eth_src eth) (ip_src ip_hdr) our_mac our_ip ip_payload tx_buf;
              '(nic, evs) ← send_reply nic tx_buf r;
              Ret (nic, tx_buf, arp_table, evs)
            else Ret (nic, tx_buf, arp_table, [])
        end
      else Ret (nic, tx_buf, arp_table, [])
  end.

(** One iteration of the loop. *)
Definition net_rx_step (nic : D) (our_mac our_ip : list Z) (t : net_task)
    : exec (D * net_task * list net_event) :=
  let '(nic, rx_buf, r) := nd_recv nic (nt_rx_buf t) in
  match r with
  | Err e => Ret (nic, mkNetTask rx_buf (nt_tx_buf t) (nt_arp_table t), [RecvFailed e])
  | Ok len =>
      frame ← slice rx_buf 0 len;
      '(nic, tx_buf, arp_table, evs) ←
        net_dispatch nic our_mac our_ip frame (nt_tx_buf t) (nt_arp_table t);
      Ret (nic, mkNetTask rx_buf tx_buf arp_table, Received frame :: evs)
  end.

(** The first [n] iterations of the loop. *)
Fixpoint net_loop (n : nat) (nic : D) (our_mac our_ip : list Z) (t : net_task)
    : exec (list net_event) :=
  match n with
  | O => Ret []
  | S n =>
      '(nic, t, evs) ← net_rx_step nic our_mac our_ip t;
      rest ← net_loop n nic our_mac our_ip t;
      Ret (evs ++ rest)
  end.

Definition net_rx_loop (n : nat) (nic : D) (config : NetConfig) : exec (list net_event) :=
  let our_mac := nd_mac_address nic in
  let our_ip := nc_ip config in
  net_loop n nic our_mac our_ip net_task_new.
End Loop.

(** ** The checksum *)

(** The sum of the 16-bit words of the data, an odd byte padded with zero. *)
Fixpoint words_sum (l : list Z) : Z :=
  match l with
  | a :: b :: l => from_be_u16 a b + words_sum l
  | [a] => a * 256
  | [] => 0
  end.

(** A message with its checksum in it: the ones' complement sum is all ones. *)
Definition checksum_ok (l : list Z) : Prop := 0 < words_sum l /\ (65535 | words_sum l).

Lemma pair_ind {A} (P : list A -> Prop) :
  P [] -> (forall a, P [a]) -> (forall a b l, P l -> P (a :: b :: l)) -> forall l, P l.
Proof.
  intros H0 H1 H2 l. enough (P l /\ forall a, P (a :: l)) by tauto.
  induction l as [|b l [IH1 IH2]]; split; auto.
Qed.

Lemma words_sum_bounds l :
  Forall is_byte l -> 0 <= words_sum l <= 65535 * (Z.of_nat (length l) + 1) / 2.
Proof.
  induction l as [|a|a b l IH] using pair_ind; intros Hl.
  - done.
  - apply Forall_cons in Hl as [Ha _]. unfold is_byte in *. cbn [words_sum length].
    change (65535 * (Z.of_nat 1 + 1) / 2) with 65535. lia.
  - apply Forall_cons in Hl as [Ha [Hb Hl]%Forall_cons]. specialize (IH Hl).
    unfold is_byte, from_be_u16 in *. cbn [words_sum length]. rewrite !Nat2Z.inj_succ. unfold from_be_u16.
    divlia.
Qed.

Lemma words_sum_app l1 l2 :
  Nat.Even (length l1) -> words_sum (l1 ++ l2) = words_sum l1 + words_sum l2.
Proof.
  induction l1 as [|a|a b l1 IH] using pair_ind; intros [k Hk].
  - done.
  - simpl in Hk. lia.
  - cbn [words_sum app length] in *. rewrite IH; [lia|]. exists (k - 1)%nat. lia.
Qed.

(** The words from an even position on. *)
Lemma words_sum_drop l i :
  words_sum (drop i l) =
  match l !! i, l !! S i with
  | Some a, Some b => from_be_u16 a b + words_sum (drop (S (S i)) l)
  | Some a, None => a * 256
  | None, _ => 0
  end.
Proof.
  revert i. induction l as [|a l IH]; intros [|i]; [done|done| |apply (IH i)].
  destruct l as [|b l]; [done|]. simpl. by rewrite drop_0.
Qed.

(** Messages whose words do not overflow the 32-bit accumulator. *)
Definition sum_fits (l : list Z) : Prop := Forall is_byte l /\ Z.of_nat (length l) <= 131072.

Lemma sum_fits_bound l : sum_fits l -> 0 <= words_sum l < 2 ^ 32.
Proof. intros [Hb Hl]. pose proof (words_sum_bounds l Hb). divlia. Qed.

Lemma sum_fits_drop l i : sum_fits l -> sum_fits (drop i l).
Proof. intros [Hb Hl]. split; [by apply Forall_drop|]. rewrite length_drop. lia. Qed.

Lemma wp_sum_words data fuel i sum :
  sum_fits data -> 0 <= i -> i <= Z.of_nat (length data) -> 0 <= sum ->
  sum + words_sum (drop (Z.to_nat i) data) < 2 ^ 32 ->
  Z.of_nat (length data) - i < Z.of_nat fuel ->
  wp (sum_words data fuel i sum) (fun '(j, s) =>
    0 <= j <= Z.of_nat (length data) /\ Z.of_nat (length data) <= j + 1 /\ 0 <= s /\
    s + words_sum (drop (Z.to_nat j) data) = sum + words_sum (drop (Z.to_nat i) data)).
Proof.
  intros Hd. revert i sum. induction fuel as [|fuel IH]; intros i sum Hi Hi2 Hs Hsum Hfuel; [lia|].
  destruct Hd as [Hb Hlen]. cbn [sum_words]. wp_step. wp_step.
  destruct (Z.ltb_spec (i + 1) (Z.of_nat (length data))) as [Hlt|Hge]; [|apply wp_ret; lia].
  destruct (lookup_lt_is_Some_2 data (Z.to_nat i) ltac:(lia)) as [a Ha].
  destruct (lookup_lt_is_Some_2 data (Z.to_nat (i + 1)) ltac:(lia)) as [b Hb'].
  pose proof (Forall_lookup_1 _ _ _ _ Hb Ha) as Ba. pose proof (Forall_lookup_1 _ _ _ _ Hb Hb') as Bb.
  pose proof (words_sum_drop data (Z.to_nat i)) as Hw.
  rewrite Ha in Hw. replace (S (Z.to_nat i)) with (Z.to_nat (i + 1)) in Hw by lia.
  rewrite Hb' in Hw. replace (S (Z.to_nat (i + 1))) with (Z.to_nat (i + 2)) in Hw by lia.
  pose proof (sum_fits_bound _ (sum_fits_drop data (Z.to_nat (i + 2)) (conj Hb Hlen))) as Hrest.
  rewrite Hw in Hsum |- *. unfold is_byte, from_be_u16 in *.
  wp_step. eapply wp_idx; [lia|done|]. wp_step. eapply wp_idx; [lia|done|].
  wp_step. unfold from_be_u16. apply wp_add32; [lia|]. wp_step. wp_step.
  eapply wp_mono; [apply (IH (i + 2)); lia|]. intros [j s]. lia.
Qed.

Lemma wp_fold_step sum (Q : Z -> Prop) :
  0 <= sum < 2 ^ 32 ->
  (forall s, 0 <= s -> s <= sum mod 65536 + sum / 65536 -> (65535 | sum - s) -> (0 < sum -> 0 < s) ->
     Q s) ->
  wp (add32 (Z.land sum 0xFFFF) (Z.shiftr sum 16)) Q.
Proof.
  intros Hs HQ. change 0xFFFF with (2 ^ 16 - 1). rewrite land_mask, Z.shiftr_div_pow2 by lia.
  change (2 ^ 16) with 65536. apply wp_add32; [divlia|]. apply HQ; [divlia|lia| |divlia].
  exists (sum / 65536). divlia.
Qed.

(** Two folds are enough for every 32-bit sum. *)
Lemma wp_fold_sum sum :
  0 <= sum < 2 ^ 32 ->
  wp (fold_sum 3 sum) (fun r =>
    0 <= r <= 65535 /\ (65535 | sum - r) /\ (sum = 0 -> r = 0) /\ (0 < sum -> 0 < r)).
Proof.
  intros Hs. cbn [fold_sum].
  destruct (Z.eqb_spec (Z.shiftr sum 16) 0) as [E|E]; cbn [negb]; rewrite Z.shiftr_div_pow2 in E by lia.
  { apply wp_ret. replace (sum - sum) with 0 by lia. split_and!; [divlia..|apply Z.divide_0_r|lia|lia]. }
  wp_step. apply wp_fold_step; [done|]. intros s1 H1 H2 D1 P1. assert (s1 <= 131070) by divlia.
  destruct (Z.eqb_spec (Z.shiftr s1 16) 0) as [E1|E1]; cbn [negb]; rewrite Z.shiftr_div_pow2 in E1 by lia.
  { apply wp_ret. split_and!; [divlia..|done|divlia|done]. }
  wp_step. apply wp_fold_step; [lia|]. intros s2 H3 H4 D2 P2. assert (s2 <= 65535) by divlia.
  destruct (Z.eqb_spec (Z.shiftr s2 16) 0) as [E2|E2]; cbn [negb]; rewrite Z.shiftr_div_pow2 in E2 by lia;
    [|divlia].
  apply wp_ret. split_and!; [lia|lia| |divlia|lia].
  replace (sum - s2) with (sum - s1 + (s1 - s2)) by lia. by apply Z.divide_add_r.
Qed.

Lemma not16_sub x : 0 <= x <= 65535 -> not16 x = 65535 - x.
Proof. intros Hx. unfold not16, Z.lnot. change (2 ^ 16) with 65536. divlia. Qed.

Lemma wp_internet_checksum data :
  sum_fits data ->
  wp (internet_checksum data) (fun c =>
    0 <= c <= 65535 /\ 0 < words_sum data + c /\ (65535 | words_sum data + c) /\
    (c = 0 <-> checksum_ok data)).
Proof.
  intros Hd. pose proof (sum_fits_bound _ Hd) as Hw. pose proof Hd as [Hb Hlen].
  unfold internet_checksum. wp_step.
  eapply wp_mono; [apply wp_sum_words; rewrite ?drop_0; try done; simpl; lia|].
  intros [i s]. cbn [Z.to_nat]. rewrite drop_0. intros (Hi & Hi2 & Hs & Hsum).
  assert (forall s', s' = words_sum data ->
    wp (sum ← fold_sum 3 s'; Ret (not16 (sum mod 2 ^ 16))) (fun c =>
    0 <= c <= 65535 /\ 0 < words_sum data + c /\ (65535 | words_sum data + c) /\
    (c = 0 <-> checksum_ok data))) as Hend.
  { intros s' ->. wp_step. eapply wp_mono; [by apply wp_fold_sum|]. intros r (Hr & [k Hk] & Hz & Hp).
    wp_step. rewrite Z.mod_small by lia. rewrite not16_sub by lia.
    assert (65535 | words_sum data + (65535 - r)) by (exists (k + 1); lia).
    split_and!; [lia|lia|lia|done|]. unfold checksum_ok. split.
    - intros. assert (r = 65535) by lia. split; [lia|]. exists (k + 1). lia.
    - intros [Hpos [m Hm]]. assert (65535 | r) as [j Hj] by (exists (m - k); lia). lia. }
  wp_step. pose proof (words_sum_drop data (Z.to_nat i)) as Hdr.
  destruct (Z.ltb_spec i (Z.of_nat (length data))) as [Hlt|Hge].
  - destruct (lookup_lt_is_Some_2 data (Z.to_nat i) ltac:(lia)) as [a Ha].
    rewrite Ha, (proj2 (lookup_ge_None data (S (Z.to_nat i)))) in Hdr by lia.
    pose proof (Forall_lookup_1 _ _ _ _ Hb Ha) as Ba. unfold is_byte in Ba.
    wp_step. eapply wp_idx; [lia|done|]. rewrite Z.shiftl_mul_pow2 by lia. change (2 ^ 8) with 256.
    apply wp_add32; [lia|]. apply Hend. lia.
  - apply wp_ret. apply Hend. rewrite (proj2 (lookup_ge_None data (Z.to_nat i))) in Hdr by lia. lia.
Qed.

Lemma to_be_u16_bytes x : 0 <= x <= 65535 -> Forall is_byte (to_be_u16 x).
Proof. intros Hx. unfold to_be_u16, is_byte. repeat constructor; divlia. Qed.

Lemma to_from_be a b : is_byte a -> is_byte b -> to_be_u16 (from_be_u16 a b) = [a; b].
Proof. unfold is_byte, to_be_u16, from_be_u16. intros Ha Hb. repeat f_equal; divlia. Qed.

Lemma from_to_be x : from_be_u16 (x / 256) (x mod 256) = x.
Proof. unfold from_be_u16. divlia. Qed.

(** Filling in the checksum of a message makes it verify. *)
Lemma checksum_fill l1 l2 c :
  Nat.Even (length l1) ->
  0 < words_sum (l1 ++ [0; 0] ++ l2) + c ->
  (65535 | words_sum (l1 ++ [0; 0] ++ l2) + c) ->
  checksum_ok (l1 ++ to_be_u16 c ++ l2).
Proof.
  intros He. unfold checksum_ok. rewrite (words_sum_app l1 ([0; 0] ++ l2)) by done.
  rewrite (words_sum_app l1 (to_be_u16 c ++ l2)) by done. unfold to_be_u16. cbn [words_sum app]. rewrite from_to_be. change (from_be_u16 0 0) with 0.
  intros Hp Hd. split; [lia|]. eapply eq_ind; [exact Hd|lia].
Qed.

(** ** Buffers in segments *)

Lemma split_at {A} (n : nat) (l : list A) :
  (n <= length l)%nat -> exists l1 l2, l = l1 ++ l2 /\ length l1 = n.
Proof. intros Hn. exists (take n l), (drop n l). rewrite take_drop, length_take. split; [done|lia]. Qed.

Lemma wp_slice_at {A} (l l1 m l2 : list A) lo hi (Q : list A -> Prop) :
  l = l1 ++ m ++ l2 -> lo = Z.of_nat (length l1) -> hi = lo + Z.of_nat (length m) ->
  Q m -> wp (slice l lo hi) Q.
Proof.
  intros -> -> -> HQ. apply wp_slice; [lia|rewrite !length_app; lia|].
  rewrite Nat2Z.id, drop_app_length. replace (Z.to_nat _) with (length m) by lia. by rewrite take_app_length.
Qed.

Lemma wp_copy_at {A} (l l1 old l2 src : list A) lo hi (Q : list A -> Prop) :
  l = l1 ++ old ++ l2 -> lo = Z.of_nat (length l1) -> hi = lo + Z.of_nat (length old) ->
  length src = length old ->
  Q (l1 ++ src ++ l2) -> wp (copy_from_slice l lo hi src) Q.
Proof.
  intros -> -> -> Hs HQ. apply wp_copy_from_slice; [lia|rewrite !length_app; lia|lia|].
  rewrite Nat2Z.id, take_app_length. replace (Z.to_nat _) with (length (l1 ++ old)) by (rewrite length_app; lia).
  by rewrite (app_assoc l1 old l2), drop_app_length.
Qed.

Lemma wp_upd_at {A} (l l1 l2 : list A) x y i (Q : list A -> Prop) :
  l = l1 ++ x :: l2 -> i = Z.of_nat (length l1) -> Q (l1 ++ y :: l2) -> wp (upd l i y) Q.
Proof.
  intros -> -> HQ. apply wp_upd; [rewrite length_app; simpl; lia|]. by rewrite Nat2Z.id, list_insert_mid.
Qed.

Lemma array_from_ok n l : length l = n -> array_from n l = Some l.
Proof. intros Hl. unfold array_from. by rewrite decide_True. Qed.

Lemma bytes_eqb_spec a b : bytes_eqb a b = true <-> a = b.
Proof. apply bool_decide_eq_true. Qed.

Lemma bytes_eqb_refl a : bytes_eqb a a = true.
Proof. by apply bytes_eqb_spec. Qed.

(** Reassociates segments and computes lengths. *)
Ltac seg := rewrite ?length_app, <- ?app_assoc; simpl; (done || lia).

Lemma length_S_inv {A} (l : list A) n :
  length l = S n -> exists x l', l = x :: l' /\ length l' = n.
Proof. destruct l as [|x l]; [done|]. intros [= H]. eauto. Qed.

(** A list of known length, byte by byte. *)
Tactic Notation "all_bytes" integer(n) hyp(H) :=
  do n (apply length_S_inv in H as (? & ? & -> & H)); apply nil_length_inv in H as ->.

(** Bytes written out. *)
Ltac bytes := repeat apply Forall_cons_2; try apply Forall_nil_2; unfold is_byte in *; lia.

(** *** Ethernet *)

Lemma wp_eth_parse buf :
  wp (EthernetHeader_parse buf) (fun r =>
    match r with
    | Some (h, p) => buf = eth_dst h ++ eth_src h ++ eth_ethertype h ++ p /\
        length (eth_dst h) = 6%nat /\ length (eth_src h) = 6%nat /\ length (eth_ethertype h) = 2%nat
    | None => (length buf < 14)%nat
    end).
Proof.
  unfold EthernetHeader_parse, ETHERNET_HEADER_LEN.
  destruct (Z.ltb_spec (Z.of_nat (length buf)) 14); [apply wp_ret; lia|].
  destruct (split_at 6 buf) as (d & b1 & -> & Hd); [lia|]. rewrite length_app in *.
  destruct (split_at 6 b1) as (s & b2 & -> & Hs); [lia|]. rewrite length_app in *.
  destruct (split_at 2 b2) as (t & p & -> & Ht); [lia|]. rewrite length_app in *.
  wp_step. apply (wp_slice_at _ [] d (s ++ t ++ p)); [seg..|]. rewrite array_from_ok by done.
  wp_step. apply (wp_slice_at _ d s (t ++ p)); [seg..|]. rewrite array_from_ok by done.
  wp_step. apply (wp_slice_at _ (d ++ s) t p); [seg..|]. rewrite array_from_ok by done.
  wp_step. apply (wp_slice_at _ (d ++ s ++ t) p []); [rewrite app_nil_r; seg|seg|seg|].
  by wp_steps.
Qed.

Lemma wp_eth_write old rest dst src ty :
  length old = 14%nat -> length dst = 6%nat -> length src = 6%nat -> length ty = 2%nat ->
  wp (EthernetHeader_write (old ++ rest) dst src ty) (eq (dst ++ src ++ ty ++ rest, Some 14)).
Proof.
  intros Ho Hd Hs Ht. unfold EthernetHeader_write, ETHERNET_HEADER_LEN.
  rewrite (proj2 (Z.ltb_ge _ _)) by (rewrite length_app; lia).
  destruct (split_at 6 old) as (d & b1 & -> & ?); [lia|]. rewrite length_app in *.
  destruct (split_at 6 b1) as (s & t & -> & ?); [lia|]. rewrite length_app in *.
  wp_step. apply (wp_copy_at _ [] d (s ++ t ++ rest)); [seg..|].
  wp_step. apply (wp_copy_at _ dst s (t ++ rest)); [seg..|].
  wp_step. apply (wp_copy_at _ (dst ++ src) t rest); [seg..|].
  wp_step. by rewrite <- app_assoc.
Qed.

(** *** IPv4 *)

(** A header without options as the stack writes it. *)
Definition ipv4_header (src dst : list Z) (protocol total_len : Z) (hdr : list Z) : Prop :=
  exists ck, 0 <= ck <= 65535 /\
    hdr = [0x45; 0] ++ to_be_u16 total_len ++ [0; 0; 0x40; 0; 64; protocol] ++ to_be_u16 ck ++ src ++ dst /\
    checksum_ok hdr.

Lemma wp_write_fields b total_len protocol src dst :
  length b = 20%nat -> length src = 4%nat -> length dst = 4%nat ->
  wp (write_fields b total_len protocol src dst)
    (eq ([0x45; 0] ++ to_be_u16 total_len ++ [0; 0; 0x40; 0; 64; protocol] ++ [0; 0] ++ src ++ dst)).
Proof.
  intros Hb Hs Hd. all_bytes 20 Hb. all_bytes 4 Hs. all_bytes 4 Hd. unfold write_fields.
  by repeat (wp_step || (apply wp_upd; [simpl; lia|]) || (apply wp_copy_from_slice; [lia|simpl; lia|done|])).
Qed.

Lemma wp_ipv4_write pre old rest src dst protocol payload_len :
  length old = 20%nat -> length src = 4%nat -> length dst = 4%nat ->
  Forall is_byte src -> Forall is_byte dst -> is_byte protocol ->
  Z.of_nat (length pre) < 2 ^ 32 -> 0 <= payload_len -> payload_len <= 65515 ->
  wp (Ipv4Header_write (pre ++ old ++ rest) (Z.of_nat (length pre)) src dst protocol payload_len)
    (fun '(buf, r) => exists hdr, r = Some (Z.of_nat (length pre) + 20) /\ buf = pre ++ hdr ++ rest /\
       length hdr = 20%nat /\ Forall is_byte hdr /\ ipv4_header src dst protocol (20 + payload_len) hdr).
Proof.
  intros Ho Hs Hd Bs Bd Bp Hpre Hl0 Hl. unfold Ipv4Header_write, IPV4_HEADER_LEN.
  wp_step. wp_step. rewrite (proj2 (Z.ltb_ge _ _)) by (rewrite !length_app; lia). wp_step. wp_step.
  rewrite Z.mod_small by lia.
  wp_step. apply (wp_slice_at _ pre old rest); [done|done|lia|].
  set (fields := [0x45; 0] ++ to_be_u16 (20 + payload_len) ++ [0; 0; 0x40; 0; 64; protocol]).
  set (addrs := src ++ dst).
  wp_step. eapply wp_mono; [by apply wp_write_fields|]. intros ? <-.
  match goal with |- context [copy_from_slice _ _ _ ?b] => change b with (fields ++ [0; 0] ++ addrs) end.
  assert (Forall is_byte (fields ++ [0; 0] ++ addrs)) as Hb.
  { pose proof (to_be_u16_bytes (20 + payload_len) ltac:(lia)). unfold fields, addrs.
    rewrite !Forall_app. split_and!; try done; bytes. }
  wp_step. apply (wp_copy_at _ pre old rest); [done|done|lia|unfold addrs; seg|].
  wp_step. apply (wp_slice_at _ pre (fields ++ [0; 0] ++ addrs) rest); [done|done|unfold addrs; seg|].
  wp_step. eapply wp_mono; [apply wp_internet_checksum; split; [done|unfold addrs; seg]|].
  intros ck (Hck & Hpos & Hdiv & _). wp_step. wp_step. wp_step. wp_step. wp_step.
  apply (wp_copy_at _ (pre ++ fields) [0; 0] (addrs ++ rest)); [seg..|]. wp_step.
  exists (fields ++ to_be_u16 ck ++ addrs). split_and!; [done|seg|unfold addrs; seg| |].
  - rewrite !Forall_app in Hb |- *. pose proof (to_be_u16_bytes ck Hck). tauto.
  - exists ck. split_and!; [lia|lia|done|]. apply checksum_fill; [by exists 5%nat|done|done].
Qed.

(** A packet without options that is for [dst], and what it carries: the bytes
    up to its total length, which padding may follow. *)
Definition ipv4_packet (buf : list Z) (h : Ipv4Header) (p : list Z) : Prop :=
  exists tos l1 l2 i1 i2 f1 f2 ttl c1 c2 rest,
    buf = [0x45; tos; l1; l2; i1; i2; f1; f2; ttl; ip_protocol h; c1; c2] ++ ip_src h ++ ip_dst h ++ rest /\
    length (ip_src h) = 4%nat /\ length (ip_dst h) = 4%nat /\
    ip_total_len h = from_be_u16 l1 l2 /\
    20 < Z.min (ip_total_len h) (Z.of_nat (length buf)) /\
    p = take (Z.to_nat (Z.min (ip_total_len h) (Z.of_nat (length buf)) - 20)) rest.

Lemma version_ihl b : is_byte b -> (Z.shiftr b 4 =? 4) && (Z.land b 0x0F =? 5) = true <-> b = 0x45.
Proof.
  intros Hb. unfold is_byte in Hb. change 0x0F with (2 ^ 4 - 1).
  rewrite land_mask, Z.shiftr_div_pow2, andb_true_iff, !Z.eqb_eq by lia. divlia.
Qed.

Lemma wp_ipv4_parse buf :
  Forall is_byte buf ->
  wp (Ipv4Header_parse buf) (fun r =>
    match r with
    | Some (h, p) => ipv4_packet buf h p
    | None => ~ exists h p, ipv4_packet buf h p
    end).
Proof.
  intros Hb. unfold Ipv4Header_parse, IPV4_HEADER_LEN.
  destruct (Z.ltb_spec (Z.of_nat (length buf)) 20).
  { apply wp_ret. intros (h & p & (tos & l1 & l2 & i1 & i2 & f1 & f2 & ttl & c1 & c2 & rest & -> & ? & ? & _)).
    rewrite !length_app in *. simpl in *. lia. }
  destruct (split_at 12 buf) as (hd & b1 & -> & Hhd); [lia|]. rewrite length_app in H.
  destruct (split_at 4 b1) as (s & b2 & -> & Hs); [lia|]. rewrite length_app in H.
  destruct (split_at 4 b2) as (d & rest & -> & Hd); [lia|]. rewrite length_app in H.
  all_bytes 12 Hhd. apply Forall_app in Hb as [Hb _]. apply Forall_cons in Hb as [Hb _].
  wp_step. eapply wp_idx; [lia|done|].
  rewrite <- negb_andb. destruct (_ && _) eqn:Ev; cbn [negb]; [apply version_ihl in Ev as ->; [|done]|].
  2:{ apply wp_ret. intros (h & p & (tos & l1 & l2 & i1 & i2 & f1 & f2 & ttl & c1 & c2 & rest' & E & _)).
      injection E as -> _. by apply not_true_iff_false in Ev. }
  wp_step. eapply wp_idx; [lia|done|]. wp_step. eapply wp_idx; [lia|done|].
  wp_step. eapply wp_idx; [lia|done|].
  match goal with |- context [slice (?h ++ s ++ d ++ rest)] => set (hd := h) end.
  wp_step. apply (wp_slice_at _ hd s (d ++ rest)); [done|done|simpl; lia|]. rewrite array_from_ok by done.
  wp_step. apply (wp_slice_at _ (hd ++ s) d rest); [seg..|]. rewrite array_from_ok by done.
  set (e := Z.min _ _). assert (Z.of_nat (length (hd ++ s ++ d ++ rest)) = 20 + Z.of_nat (length rest)) as Hlen by seg.
  destruct (Z.leb_spec e 20) as [He|He].
  - apply wp_ret. intros (h & p & (tos & l1 & l2 & i1 & i2 & f1 & f2 & ttl & c1 & c2 & rest' & E & ? & ? & Ht & Hmin & _)).
    injection E as -> -> -> -> -> -> -> -> -> -> -> _. rewrite Ht in Hmin. subst e. lia.
  - wp_step. apply (wp_slice_at _ (hd ++ s ++ d) (take (Z.to_nat (e - 20)) rest) (drop (Z.to_nat (e - 20)) rest)).
    { by rewrite take_drop, <- !app_assoc. }
    { seg. }
    { rewrite length_take. subst e. lia. }
    apply wp_ret. repeat eexists; simpl; try done.
Qed.

(** *** ARP *)

(** An ARP packet for Ethernet and IPv4, which padding may follow. *)
Definition arp_bytes (oper : Z) (sha spa tha tpa : list Z) : list Z :=
  [0; 1; 8; 0; 6; 4] ++ to_be_u16 oper ++ sha ++ spa ++ tha ++ tpa.

Definition arp_packet (data : list Z) (oper : Z) (sha spa tha tpa : list Z) : Prop :=
  length sha = 6%nat /\ length spa = 4%nat /\ length tha = 6%nat /\ length tpa = 4%nat /\
  exists pad, data = arp_bytes oper sha spa tha tpa ++ pad.

Lemma wp_arp_parse data :
  Forall is_byte data ->
  wp (ArpPacket_parse data) (fun r =>
    match r with
    | Some k => arp_packet data (arp_oper k) (arp_sha k) (arp_spa k) (arp_tha k) (arp_tpa k)
    | None => ~ exists oper sha spa tha tpa, arp_packet data oper sha spa tha tpa
    end).
Proof.
  intros Hb. unfold ArpPacket_parse, ARP_PACKET_LEN.
  destruct (Z.ltb_spec (Z.of_nat (length data)) 28).
  { apply wp_ret. intros (oper & sha & spa & tha & tpa & ? & ? & ? & ? & pad & ->).
    unfold arp_bytes in *. rewrite !length_app in *. simpl in *. lia. }
  destruct (split_at 8 data) as (hd & b1 & -> & Hhd); [lia|]. rewrite length_app in H.
  destruct (split_at 6 b1) as (sha & b2 & -> & H1); [lia|]. rewrite length_app in H.
  destruct (split_at 4 b2) as (spa & b3 & -> & H2); [lia|]. rewrite length_app in H.
  destruct (split_at 6 b3) as (tha & b4 & -> & H3); [lia|]. rewrite length_app in H.
  destruct (split_at 4 b4) as (tpa & pad & -> & H4); [lia|]. rewrite length_app in H.
  all_bytes 8 Hhd. apply Forall_app in Hb as [Hb _]. rewrite !Forall_cons in Hb.
  destruct Hb as (B0 & B1 & B2 & B3 & B4 & B5 & B6 & B7 & _).
  do 8 (wp_step; eapply wp_idx; [lia|done|]).
  rewrite <- !negb_andb. destruct (_ && _) eqn:Ev; cbn [negb].
  2:{ apply wp_ret. intros (oper & sha' & spa' & tha' & tpa' & ? & ? & ? & ? & pad' & E).
      injection E as -> -> -> -> -> -> _. done. }
  rewrite !andb_true_iff, !Z.eqb_eq in Ev. destruct Ev as (((E1 & E2) & ->) & ->).
  unfold from_be_u16 in E1, E2.
  match goal with |- context [slice (?h ++ sha ++ _)] => set (hd := h) end.
  wp_step. apply (wp_slice_at _ hd sha (spa ++ tha ++ tpa ++ pad)); [done|done|simpl; lia|].
  rewrite array_from_ok by done.
  wp_step. apply (wp_slice_at _ (hd ++ sha) spa (tha ++ tpa ++ pad)); [seg..|]. rewrite array_from_ok by done.
  wp_step. apply (wp_slice_at _ (hd ++ sha ++ spa) tha (tpa ++ pad)); [seg..|]. rewrite array_from_ok by done.
  wp_step. apply (wp_slice_at _ (hd ++ sha ++ spa ++ tha) tpa pad); [seg..|]. rewrite array_from_ok by done.
  apply wp_ret. split_and!; try done. exists pad. unfold arp_bytes, hd. cbn [arp_oper arp_sha arp_spa arp_tha arp_tpa].
  rewrite to_from_be by done. unfold is_byte in *.
  rewrite <- !app_assoc. cbn [app]. repeat f_equal; lia.
Qed.

Lemma wp_arp_write_reply pre old rest mac ip tmac tip :
  Z.of_nat (length pre) < 2 ^ 32 -> length old = 28%nat -> length mac = 6%nat ->
  length ip = 4%nat -> length tmac = 6%nat -> length tip = 4%nat ->
  wp (ArpPacket_write_reply (pre ++ old ++ rest) (Z.of_nat (length pre)) mac ip tmac tip)
    (eq (pre ++ arp_bytes 2 mac ip tmac tip ++ rest, Some 28)).
Proof.
  intros Hpre Ho Hm Hi Htm Hti. unfold ArpPacket_write_reply, ARP_PACKET_LEN.
  wp_step. wp_step. rewrite (proj2 (Z.ltb_ge _ _)) by (rewrite !length_app; lia).
  wp_step. apply (wp_slice_at _ pre (old ++ rest) []); [by rewrite app_nil_r|done|rewrite !length_app; lia|].
  remember (pre ++ old ++ rest) as buf eqn:Hbuf. remember (old ++ rest) as tail eqn:Ht in Hbuf.
  assert (length tail = (28 + length rest)%nat) as Hlt by (rewrite Ht, length_app; lia). clear Ht.
  all_bytes 28 Ho. all_bytes 6 Hm. all_bytes 4 Hi. all_bytes 6 Htm. all_bytes 4 Hti.
  do 9 (wp_step; first [apply wp_upd; [simpl; lia|] | apply wp_copy_from_slice; [lia|simpl; lia|done|]]).
  wp_step. apply (wp_copy_at _ pre tail []); [by rewrite app_nil_r|done|subst; rewrite length_app; lia| |].
  { rewrite Hlt. reflexivity. }
  wp_step. rewrite app_nil_r. reflexivity.
Qed.

(** *** The ARP table

    Seen from the slot that is overwritten next, the table is a queue of 16
    slots: a new address drops the oldest slot and joins at the end, an address
    that is known keeps its place and gets its new hardware address. *)

Definition arp_queue (t : ArpTable) : list (option ArpEntry) :=
  drop (Z.to_nat (at_next t)) (at_entries t) ++ take (Z.to_nat (at_next t)) (at_entries t).

Definition is_for (ip : list Z) (e : option ArpEntry) : bool :=
  match e with Some e => bytes_eqb (ae_ip e) ip | None => false end.

Definition set_mac (ip mac : list Z) (e : option ArpEntry) : option ArpEntry :=
  if is_for ip e then Some (mkArpEntry ip mac) else e.

Definition cache_learn (q : list (option ArpEntry)) (m : list Z * list Z) : list (option ArpEntry) :=
  if existsb (is_for m.1) q then map (set_mac m.1 m.2) q else tail q ++ [Some (mkArpEntry m.1 m.2)].

(** An address has one entry at most. *)
Fixpoint arp_unique (q : list (option ArpEntry)) : Prop :=
  match q with
  | [] => True
  | Some e :: q => existsb (is_for (ae_ip e)) q = false /\ arp_unique q
  | None :: q => arp_unique q
  end.

Definition arp_wf (t : ArpTable) : Prop :=
  length (at_entries t) = 16%nat /\ 0 <= at_next t < 16 /\ arp_unique (at_entries t).

Lemma is_for_spec ip e : is_for ip e = true <-> exists mac, e = Some (mkArpEntry ip mac).
Proof.
  destruct e as [[ip' mac']|]; simpl; [|naive_solver]. rewrite bytes_eqb_spec. naive_solver.
Qed.

Lemma set_mac_absent ip mac q : existsb (is_for ip) q = false -> map (set_mac ip mac) q = q.
Proof.
  induction q as [|e q IH]; simpl; [done|]. intros [He Hq]%orb_false_iff.
  unfold set_mac at 1. rewrite He, IH; done.
Qed.

Lemma is_for_set_mac ip ip' mac e : is_for ip' (set_mac ip mac e) = is_for ip' e.
Proof.
  unfold set_mac. destruct (is_for ip e) eqn:E; [|done]. apply is_for_spec in E as [? ->]. done.
Qed.

Lemma existsb_set_mac ip ip' mac q : existsb (is_for ip') (map (set_mac ip mac) q) = existsb (is_for ip') q.
Proof. induction q as [|e q IH]; simpl; [done|]. by rewrite is_for_set_mac, IH. Qed.

Lemma arp_unique_set_mac ip mac q : arp_unique q -> arp_unique (map (set_mac ip mac) q).
Proof.
  induction q as [|e q IH]; [done|]. intros Hu. cbn [map].
  destruct e as [e|]; cbn [arp_unique] in Hu; [|by apply IH]. destruct Hu as [H1 H2].
  assert (exists m, set_mac ip mac (Some e) = Some (mkArpEntry (ae_ip e) m)) as [m ->].
  { unfold set_mac. destruct (is_for ip (Some e)) eqn:E; [|exists (ae_mac e); by destruct e].
    apply is_for_spec in E as [? [= ->]]. eauto. }
  cbn [arp_unique ae_ip]. rewrite existsb_set_mac. auto.
Qed.

Lemma learn_existing_spec q ip mac :
  arp_unique q ->
  learn_existing q ip mac = if existsb (is_for ip) q then Some (map (set_mac ip mac) q) else None.
Proof.
  induction q as [|[[ip' mac']|] q IH]; cbn [arp_unique learn_existing existsb map is_for ae_ip]; [done| |].
  - intros [Hn Hu]. destruct (bytes_eqb ip' ip) eqn:E; simpl.
    + apply bytes_eqb_spec in E as ->. rewrite set_mac_absent by done. f_equal.
      unfold set_mac. simpl. by rewrite bytes_eqb_refl.
    + rewrite IH by done. unfold set_mac at 2. simpl. rewrite E.
      by destruct (existsb (is_for ip) q).
  - intros Hu. rewrite IH by done. simpl. by destruct (existsb (is_for ip) q).
Qed.

Lemma existsb_rotate {A} (f : A -> bool) n l : existsb f (drop n l ++ take n l) = existsb f l.
Proof. rewrite existsb_app, orb_comm, <- existsb_app. by rewrite take_drop. Qed.

Lemma arp_unique_insert q i e :
  arp_unique q -> existsb (is_for (ae_ip e)) q = false -> arp_unique (<[i := Some e]> q).
Proof.
  revert i. induction q as [|e' q IH]; intros i Hu Hn; [done|]. simpl in Hn.
  apply orb_false_iff in Hn as [He Hq]. destruct i as [|i]; cbn [insert list_insert].
  - split; [done|]. by destruct e' as [|]; [destruct Hu|].
  - assert (forall ip, bytes_eqb (ae_ip e) ip = false -> existsb (is_for ip) q = false ->
      existsb (is_for ip) (<[i := Some e]> q) = false) as Hins.
    { intros ip Hne. clear -Hne. revert i. induction q as [|x q IHq]; intros [|i]; simpl; auto.
      - intros [_ ->]%orb_false_iff. by rewrite Hne.
      - intros [-> Hx]%orb_false_iff. simpl. by apply IHq. }
    destruct e' as [e'|]; cbn [arp_unique] in *; [|by apply IH]. destruct Hu as [H1 H2].
    split; [|by apply IH]. apply Hins; [|done]. apply not_true_iff_false. intros E.
    apply bytes_eqb_spec in E. simpl in He. rewrite E, bytes_eqb_refl in He. done.
Qed.

(** Overwriting the slot [next] and moving on rotates the queue. *)
Lemma rotate_insert {A} (l : list A) (n : nat) x :
  (n < length l)%nat ->
  let n' := (if decide (S n = length l) then 0 else S n)%nat in
  drop n' (<[n := x]> l) ++ take n' (<[n := x]> l) = tail (drop n l ++ take n l) ++ [x].
Proof.
  intros Hn. destruct (split_at n l) as (l1 & l2 & -> & Hl1); [lia|]. rewrite length_app in Hn.
  destruct l2 as [|y l2]; [simpl in *; lia|]. subst n. rewrite list_insert_mid, drop_app_length, take_app_length.
  cbn [tail app]. case_decide as Hd; simpl.
  - rewrite drop_0, app_nil_r. rewrite length_app in Hd. simpl in Hd. destruct l2; [done|simpl in Hd; lia].
  - replace (l1 ++ x :: l2) with ((l1 ++ [x]) ++ l2) by (by rewrite <- app_assoc).
    replace (S (length l1)) with (length (l1 ++ [x])) by (rewrite length_app; simpl; lia).
    by rewrite drop_app_length, take_app_length, app_assoc.
Qed.

Lemma wp_arp_learn t ip mac :
  arp_wf t ->
  wp (ArpTable_learn t ip mac) (fun t' => arp_wf t' /\ arp_queue t' = cache_learn (arp_queue t) (ip, mac)).
Proof.
  intros (Hl & Hn & Hu). unfold ArpTable_learn, cache_learn, arp_queue, ARP_TABLE_SIZE.
  rewrite learn_existing_spec by done. cbn [fst snd]. rewrite existsb_rotate.
  destruct (existsb (is_for ip) (at_entries t)) eqn:Ek.
  - apply wp_ret. split.
    + split_and!; simpl; [by rewrite length_map|lia|lia|by apply arp_unique_set_mac].
    + cbn [at_entries at_next]. rewrite map_app. f_equal; symmetry; [apply fmap_drop|apply fmap_take].
  - wp_step. apply wp_upd; [lia|]. wp_step. wp_step. apply wp_ret. cbn [at_entries at_next]. split.
    + split_and!; simpl; [by rewrite length_insert|apply Z.mod_pos_bound; lia..|by apply arp_unique_insert].
    + rewrite <- (rotate_insert (at_entries t)) by lia.
      replace (Z.to_nat ((at_next t + 1) mod 16)) with
        (if decide (S (Z.to_nat (at_next t)) = length (at_entries t)) then 0 else S (Z.to_nat (at_next t)))%nat; [done|].
      case_decide; [replace (at_next t) with 15 by lia; done|]. rewrite Z.mod_small by lia. lia.
Qed.

(** *** ICMP *)

(** An echo message: the type and code, the checksum, then identifier, sequence
    number and data. *)
Definition echo_reply (tail msg : list Z) : Prop :=
  exists ck, 0 <= ck <= 65535 /\ msg = [0; 0] ++ to_be_u16 ck ++ tail /\ checksum_ok msg.

Lemma wp_write_echo_reply pre old rest q tail data :
  Z.of_nat (length pre) < 2 ^ 32 -> length q = 4%nat -> (4 <= length tail)%nat -> data = drop 4 tail ->
  length old = (4 + length tail)%nat -> Forall is_byte tail -> Z.of_nat (length tail) < 131000 ->
  wp (write_echo_reply (pre ++ old ++ rest) (Z.of_nat (length pre)) (q ++ tail) data
        (8 + Z.of_nat (length data)))
    (fun buf => exists msg, buf = pre ++ msg ++ rest /\ length msg = length old /\ echo_reply tail msg).
Proof.
  intros Hpre Hq Ht -> Ho Bt Hlt. rewrite length_drop.
  destruct (split_at 4 tail) as (ids & data & -> & Hids); [done|]. rewrite length_app in *.
  assert (drop 4 (ids ++ data) = data) as -> by (rewrite <- Hids; apply drop_app_length).
  destruct (split_at 4 old) as (o1 & o2 & -> & Ho1); [lia|]. rewrite length_app in *.
  destruct (split_at 4 o2) as (o3 & o4 & -> & Ho3); [lia|]. rewrite length_app in *.
  replace (pre ++ (o1 ++ o3 ++ o4) ++ rest) with (pre ++ o1 ++ o3 ++ o4 ++ rest) by seg.
  all_bytes 4 Ho1. simpl in Ho. cbn [app]. unfold write_echo_reply, ICMP_HEADER_LEN, ICMP_ECHO_REPLY.
  wp_step. eapply (wp_upd_at _ pre); [done|done|].
  wp_step. wp_step. wp_step. eapply (wp_upd_at _ (pre ++ [0])); [by rewrite <- app_assoc|seg|].
  wp_step. wp_step. wp_step. eapply (wp_upd_at _ (pre ++ [0; 0])); [by rewrite <- !app_assoc|seg|].
  wp_step. wp_step. wp_step. eapply (wp_upd_at _ (pre ++ [0; 0; 0])); [by rewrite <- !app_assoc|seg|].
  wp_step. wp_step. wp_step. wp_step.
  wp_step. apply (wp_slice_at _ q ids data); [done|lia|lia|].
  wp_step. apply (wp_copy_at _ (pre ++ [0; 0; 0; 0]) o3 (o4 ++ rest)); [seg..|].
  wp_step. wp_step. wp_step. apply (wp_copy_at _ (pre ++ [0; 0; 0; 0] ++ ids) o4 rest); [seg..|].
  set (msg0 := [0; 0] ++ [0; 0] ++ ids ++ data).
  replace ((pre ++ [0; 0; 0; 0] ++ ids) ++ data ++ rest) with (pre ++ msg0 ++ rest) by (unfold msg0; seg).
  assert (length msg0 = (8 + length data)%nat) as Hl0 by (unfold msg0; seg).
  wp_step. apply (wp_slice_at _ pre msg0 rest); [done|done|lia|].
  wp_step. eapply wp_mono; [apply wp_internet_checksum; split; [|lia]|].
  { unfold msg0. rewrite Forall_app in Bt |- *. split; [bytes|]. rewrite !Forall_app. split_and!; [bytes|tauto..]. }
  intros ck (Hck & Hpos & Hdiv & _). wp_step. wp_step. wp_step. wp_step.
  apply (wp_copy_at _ (pre ++ [0; 0]) [0; 0] (ids ++ data ++ rest)); [unfold msg0; seg|seg|seg|done|].
  exists ([0; 0] ++ to_be_u16 ck ++ ids ++ data). split_and!; [seg|seg|].
  exists ck. split_and!; [lia|lia|done|]. apply checksum_fill; [by exists 1%nat|done|done].
Qed.

(** ** The specification of the stack *)

(** [answer mac ip frame reply]: the frame asks for an answer, and the reply is
    one.  There are two questions, an ARP request for our address and an ICMP
    echo request to our address. *)
Inductive answer (mac ip : list Z) : list Z -> list Z -> Prop :=
  | answer_arp dst src sha spa tha payload :
      length dst = 6%nat -> length src = 6%nat ->
      arp_packet payload ARP_OP_REQUEST sha spa tha ip ->
      answer mac ip (dst ++ src ++ ETHERTYPE_ARP ++ payload)
        (sha ++ mac ++ ETHERTYPE_ARP ++ arp_bytes ARP_OP_REPLY mac ip sha spa)
  | answer_echo dst src h packet code k1 k2 tail hdr msg :
      length dst = 6%nat -> length src = 6%nat ->
      ipv4_packet packet h (ICMP_ECHO_REQUEST :: code :: k1 :: k2 :: tail) ->
      (4 <= length tail)%nat -> ip_dst h = ip -> ip_protocol h = PROTO_ICMP ->
      ipv4_header ip (ip_src h) PROTO_ICMP (24 + Z.of_nat (length tail)) hdr ->
      echo_reply tail msg ->
      answer mac ip (dst ++ src ++ ETHERTYPE_IPV4 ++ packet)
        (src ++ mac ++ ETHERTYPE_IPV4 ++ hdr ++ msg).

(** What a function that builds a reply leaves in the buffer. *)
Definition built (reply_buf buf : list Z) (r : option Z) (P : list Z -> Prop) (none : Prop) : Prop :=
  length buf = length reply_buf /\
  match r with
  | Some n => exists reply rest, buf = reply ++ rest /\ n = Z.of_nat (length reply) /\ P reply
  | None => none
  end.

Lemma frame_inj (d s t p d' s' t' p' : list Z) :
  length d = 6%nat -> length d' = 6%nat -> length s = 6%nat -> length s' = 6%nat ->
  length t = length t' -> d ++ s ++ t ++ p = d' ++ s' ++ t' ++ p' -> s = s' /\ t = t' /\ p = p'.
Proof.
  intros ????? E. apply app_inj_1 in E as [_ E]; [|congruence]. apply app_inj_1 in E as [-> E]; [|congruence].
  by apply app_inj_1 in E as [-> ->].
Qed.

Lemma ipv4_packet_inj buf h p h' p' : ipv4_packet buf h p -> ipv4_packet buf h' p' -> h = h' /\ p = p'.
Proof.
  intros (tos & l1 & l2 & i1 & i2 & f1 & f2 & ttl & c1 & c2 & rest & E & H1 & H2 & H3 & _ & ->).
  intros (tos' & l1' & l2' & i1' & i2' & f1' & f2' & ttl' & c1' & c2' & rest' & E' & H1' & H2' & H3' & _ & ->).
  rewrite H3, H3', E. rewrite E in E'. injection E' as -> -> -> -> -> -> -> -> Hp -> -> E'.
  apply app_inj_1 in E' as [Hs E']; [|congruence]. apply app_inj_1 in E' as [Hd ->]; [|congruence].
  split; [|done]. destruct h, h'. simpl in *. congruence.
Qed.

(** The frames that have an answer. *)
Lemma answer_inv mac ip dst src ty payload reply :
  length dst = 6%nat -> length src = 6%nat -> length ty = 2%nat ->
  answer mac ip (dst ++ src ++ ty ++ payload) reply ->
  (ty = ETHERTYPE_ARP /\ exists sha spa tha, arp_packet payload ARP_OP_REQUEST sha spa tha ip) \/
  (ty = ETHERTYPE_IPV4 /\
   exists h code k1 k2 tail, ipv4_packet payload h (ICMP_ECHO_REQUEST :: code :: k1 :: k2 :: tail) /\
     (4 <= length tail)%nat /\ ip_dst h = ip /\ ip_protocol h = PROTO_ICMP).
Proof.
  intros Hd Hs Ht Ha. remember (dst ++ src ++ ty ++ payload) as frame eqn:E.
  destruct Ha; apply frame_inj in E as (_ & <- & ->); try done; [left|right]; eauto 12.
Qed.

Section Stack.
Context (our_mac our_ip : list Z).
Hypothesis Hmac : length our_mac = 6%nat.
Hypothesis Hip : length our_ip = 4%nat.
Hypothesis Bip : Forall is_byte our_ip.

Lemma wp_handle_arp t payload buf :
  arp_wf t -> Forall is_byte payload -> (42 <= length buf)%nat ->
  wp (handle_arp t our_ip our_mac payload buf) (fun '(t', buf', r) =>
    arp_wf t' /\
    built buf buf' r
      (fun reply => exists sha spa tha, arp_packet payload ARP_OP_REQUEST sha spa tha our_ip /\
         reply = sha ++ our_mac ++ ETHERTYPE_ARP ++ arp_bytes ARP_OP_REPLY our_mac our_ip sha spa)
      (~ exists sha spa tha, arp_packet payload ARP_OP_REQUEST sha spa tha our_ip)).
Proof using Hmac Hip.
  intros Hwf Hb Hlen. unfold handle_arp, built. wp_step.
  eapply wp_mono; [by apply wp_arp_parse|]. intros [k|] Hk; [|apply wp_ret; naive_solver].
  wp_step. eapply wp_mono; [by apply wp_arp_learn|]. intros t' [Hwf' _].
  pose proof Hk as (H1 & H2 & H3 & H4 & pad & Hd). destruct (negb _ || negb _) eqn:E.
  { apply wp_ret. split_and!; try done. intros (sha & spa & tha & ? & ? & ? & ? & pad' & Hd').
    rewrite Hd in Hd'. unfold arp_bytes, to_be_u16 in Hd'. cbn [app] in Hd'. injection Hd' as E1 E2 E3.
    assert (arp_oper k = 1) as Ho by (change (ARP_OP_REQUEST / 256) with 0 in E1;
      change (ARP_OP_REQUEST mod 256) with 1 in E2; divlia).
    rewrite <- !app_assoc in E3. apply app_inj_1 in E3 as [_ E3]; [|congruence].
    apply app_inj_1 in E3 as [_ E3]; [|congruence]. apply app_inj_1 in E3 as [_ E3]; [|congruence].
    apply app_inj_1 in E3 as [E3 _]; [|congruence]. rewrite Ho, E3, bytes_eqb_refl in E. done. }
  apply orb_false_iff in E as [E1 E2]. apply negb_false_iff in E1, E2.
  apply Z.eqb_eq in E1. apply bytes_eqb_spec in E2. rewrite E1, E2 in Hk.
  destruct (split_at 14 buf) as (o1 & b1 & -> & Ho1); [lia|]. rewrite length_app in *.
  destruct (split_at 28 b1) as (o2 & rest & -> & Ho2); [lia|].
  wp_step. eapply wp_mono; [by apply wp_eth_write|]. intros ? <-. cbn beta iota.
  set (pre := arp_sha k ++ our_mac ++ ETHERTYPE_ARP).
  replace (arp_sha k ++ our_mac ++ ETHERTYPE_ARP ++ o2 ++ rest) with (pre ++ o2 ++ rest) by (unfold pre; seg).
  assert (length pre = 14%nat) as Hpre by (unfold pre; seg). replace 14 with (Z.of_nat (length pre)) by lia.
  wp_step. eapply wp_mono; [apply wp_arp_write_reply; (done || lia)|]. intros ? <-. cbn beta iota.
  wp_step. wp_step. apply wp_ret. split; [done|].
  assert (length (arp_bytes 2 our_mac our_ip (arp_sha k) (arp_spa k)) = 28%nat) as Hl by (unfold arp_bytes; seg).
  split; [rewrite !length_app, Hl; lia|].
  exists (pre ++ arp_bytes 2 our_mac our_ip (arp_sha k) (arp_spa k)), rest.
  split_and!; [by rewrite <- app_assoc|rewrite length_app; lia|].
  exists (arp_sha k), (arp_spa k), (arp_tha k). split; [done|]. unfold pre. by rewrite <- !app_assoc.
Qed.

Lemma wp_handle_icmp src sip payload buf :
  length src = 6%nat -> length sip = 4%nat -> Forall is_byte sip -> Forall is_byte payload ->
  (34 + length payload <= length buf)%nat -> Z.of_nat (length payload) <= 65515 ->
  wp (handle_icmp src sip our_mac our_ip payload buf) (fun '(buf', r) =>
    built buf buf' r
      (fun reply => exists code k1 k2 tail hdr msg,
         payload = ICMP_ECHO_REQUEST :: code :: k1 :: k2 :: tail /\ (4 <= length tail)%nat /\
         ipv4_header our_ip sip PROTO_ICMP (24 + Z.of_nat (length tail)) hdr /\ echo_reply tail msg /\
         reply = src ++ our_mac ++ ETHERTYPE_IPV4 ++ hdr ++ msg)
      (~ exists code k1 k2 tail, payload = ICMP_ECHO_REQUEST :: code :: k1 :: k2 :: tail /\
         (4 <= length tail)%nat)).
Proof using Hmac Hip Bip.
  intros Hsrc Hsip Bsip Bp Hbuf Hmax. unfold handle_icmp, built, ICMP_HEADER_LEN.
  destruct (Z.ltb_spec (Z.of_nat (length payload)) 8) as [Hs|Hs].
  { apply wp_ret. split; [done|]. intros (code & k1 & k2 & tail & -> & ?). simpl in *. lia. }
  destruct (split_at 4 payload) as (q & tail & -> & Hq); [lia|]. rewrite length_app in *.
  assert (4 <= length tail)%nat as Ht by lia. pose proof Hq as Hq4. all_bytes 4 Hq.
  wp_step. eapply wp_idx; [lia|done|]. unfold ICMP_ECHO_REQUEST in *.
  destruct (Z.eqb_spec x 8) as [->|Hx]; cbn [negb].
  2:{ apply wp_ret. split; [done|]. intros (code & k1 & k2 & tail' & [= ->] & _). done. }
  match goal with |- context [slice (?l ++ tail)] => set (q := l) in * end.
  destruct (split_at 4 tail) as (ids & data & Htail & Hids); [done|].
  assert (length tail = (4 + length data)%nat) as Hlt by (rewrite Htail, length_app; lia).
  wp_step. apply (wp_slice_at _ (q ++ ids) data []); [rewrite Htail, app_nil_r; seg|seg|seg|].
  unfold ETHERNET_HEADER_LEN, IPV4_HEADER_LEN. do 6 wp_step.
  rewrite (proj2 (Z.ltb_ge _ _)) by lia.
  destruct (split_at 14 buf) as (o1 & b1 & -> & Ho1); [lia|]. rewrite length_app in *.
  destruct (split_at 20 b1) as (o2 & b2 & -> & Ho2); [lia|]. rewrite length_app in *.
  destruct (split_at (4 + length tail) b2) as (o3 & rest & -> & Ho3); [lia|]. rewrite length_app in *.
  wp_step. eapply wp_mono; [by apply wp_eth_write|]. intros ? <-. cbn beta iota.
  set (pre := src ++ our_mac ++ ETHERTYPE_IPV4).
  replace (src ++ our_mac ++ ETHERTYPE_IPV4 ++ o2 ++ o3 ++ rest) with (pre ++ o2 ++ o3 ++ rest) by (unfold pre; seg).
  assert (length pre = 14%nat) as Hpre by (unfold pre; seg).
  replace 14 with (Z.of_nat (length pre)) by lia.
  wp_step. eapply wp_mono; [apply wp_ipv4_write; try done; lia|].
  intros [buf' r] (hdr & -> & -> & Hhdr & Bhdr & Hip4). cbn beta iota.
  replace (Z.of_nat (length pre) + 20) with (Z.of_nat (length (pre ++ hdr))) by (rewrite length_app; lia).
  rewrite (app_assoc pre hdr).
  wp_step. eapply wp_mono; [apply (wp_write_echo_reply (pre ++ hdr) o3 rest q tail data)|].
  all: try (done || lia || (rewrite length_app; lia)).
  { rewrite Htail. replace 4%nat with (length ids). by rewrite drop_app_length. }
  { apply Forall_app in Bp as [_ Bp]. done. }
  intros buf' (msg & -> & Hmsg & Hecho). apply wp_ret. split; [rewrite !length_app; lia|].
  exists ((pre ++ hdr) ++ msg), rest. split_and!; [by rewrite <- !app_assoc|rewrite !length_app; lia|].
  eexists _, _, _, tail, hdr, msg. split_and!; try done.
  - by replace (24 + Z.of_nat (length tail)) with (20 + (8 + Z.of_nat (length data))) by lia.
  - unfold pre. by rewrite <- !app_assoc.
Qed.

(** The conversation of the task with the device: every frame that asks for an
    answer gets one at once, and nothing else is sent. *)
Inductive net_trace : list net_event -> Prop :=
  | trace_start : net_trace []
  | trace_failed e tr : net_trace tr -> net_trace (RecvFailed e :: tr)
  | trace_silent frame tr :
      (forall reply, ~ answer our_mac our_ip frame reply) -> net_trace tr ->
      net_trace (Received frame :: tr)
  | trace_answered frame reply tr :
      answer our_mac our_ip frame reply -> net_trace tr ->
      net_trace (Received frame :: Sent reply :: tr).

Definition is_recv (e : net_event) : bool :=
  match e with Sent _ => false | _ => true end.

Section Device.
Context `{NetworkDevice D}.

(** What one frame leads to. *)
Definition dispatched (frame : list Z) (evs : list net_event) : Prop :=
  match evs with
  | [] => forall reply, ~ answer our_mac our_ip frame reply
  | [Sent reply] => answer our_mac our_ip frame reply
  | _ => False
  end.

Lemma wp_send_reply (nic : D) buf0 buf r P none (Q : D * list net_event -> Prop) :
  built buf0 buf r P none ->
  (forall nic' reply, P reply -> Q (nic', [Sent reply])) -> (none -> Q (nic, [])) ->
  wp (send_reply nic buf r) Q.
Proof using Type.
  clear Hmac Hip Bip. intros [_ Hb] HP HN. destruct r as [n|]; [|by apply HN].
  destruct Hb as (reply & rest & -> & -> & Hreply). cbn [send_reply].
  wp_step. apply (wp_slice_at _ [] reply rest); [done|done|lia|]. wp_step. by apply HP.
Qed.

Lemma wp_net_dispatch (nic : D) frame tx t :
  Forall is_byte frame -> (length frame <= 1518)%nat -> length tx = 1518%nat -> arp_wf t ->
  wp (net_dispatch nic our_mac our_ip frame tx t) (fun '(nic', tx', t', evs) =>
    length tx' = 1518%nat /\ arp_wf t' /\ dispatched frame evs).
Proof using Hmac Hip Bip.
  intros Hb Hlen Htx Hwf. unfold net_dispatch. wp_step.
  eapply wp_mono; [apply wp_eth_parse|]. intros [[[dst src ty] payload]|] He; cbn [eth_ethertype eth_src].
  2:{ apply wp_ret. split_and!; try done. intros reply Ha. inversion Ha; subst; rewrite !length_app in He; simpl in *; lia. }
  simpl in He. destruct He as (-> & Hd & Hs & Ht).
  apply Forall_app in Hb as [_ [Bsrc [_ Bp]%Forall_app]%Forall_app]. rewrite !length_app in Hlen.
  destruct (bytes_eqb ty ETHERTYPE_ARP) eqn:E1; [apply bytes_eqb_spec in E1 as ->|].
  { wp_step. eapply wp_mono; [apply wp_handle_arp; (done || lia)|]. intros [[t' tx'] r] [Hwf' Hbuilt].
    pose proof Hbuilt as [Hl _]. wp_step. eapply wp_send_reply; [done| |].
    - intros nic' reply (sha & spa & tha & Hp & ->). apply wp_ret. split_and!; [congruence|done|].
      by apply (answer_arp _ _ dst src sha spa tha).
    - intros Hn. apply wp_ret. split_and!; [congruence|done|]. intros reply Ha.
      apply answer_inv in Ha as [[_ Ha]|[? _]]; done. }
  destruct (bytes_eqb ty ETHERTYPE_IPV4) eqn:E2; [apply bytes_eqb_spec in E2 as ->|].
  2:{ apply wp_ret. split_and!; try done. intros reply Ha.
      apply answer_inv in Ha as [[-> _]|[-> _]]; done. }
  wp_step. eapply wp_mono; [by apply wp_ipv4_parse|]. intros [[h p]|] Hp.
  2:{ apply wp_ret. split_and!; try done. intros reply Ha.
      apply answer_inv in Ha as [[? _]|[_ (h & code & k1 & k2 & tail & ? & _)]]; try done. naive_solver. }
  assert (forall reply, answer our_mac our_ip (dst ++ src ++ ETHERTYPE_IPV4 ++ payload) reply ->
    ip_dst h = our_ip /\ ip_protocol h = PROTO_ICMP /\
    exists code k1 k2 tail, p = ICMP_ECHO_REQUEST :: code :: k1 :: k2 :: tail /\ (4 <= length tail)%nat) as Hans2.
  { intros reply Ha.
    apply answer_inv in Ha as [[? _]|[_ (h' & code & k1 & k2 & tail & Hp' & ? & ? & ?)]]; try done.
    destruct (ipv4_packet_inj _ _ _ _ _ Hp Hp') as [-> ->]. eauto 10. }
  destruct (bytes_eqb (ip_dst h) our_ip) eqn:E3; cbn [negb]; [apply bytes_eqb_spec in E3|].
  2:{ apply wp_ret. split_and!; try done. intros reply (E & _)%Hans2. rewrite E, bytes_eqb_refl in E3. done. }
  destruct (Z.eqb_spec (ip_protocol h) PROTO_ICMP) as [E4|E4].
  2:{ apply wp_ret. split_and!; try done. by intros reply (_ & E & _)%Hans2. }
  pose proof Hp as (tos & l1 & l2 & i1 & i2 & f1 & f2 & ttl & c1 & c2 & rest & Hpay & Hs4 & Hd4 & _ & _ & Htake).
  assert (Forall is_byte (ip_src h) /\ Forall is_byte p) as [Bs Bpp].
  { rewrite Hpay in Bp. apply Forall_app in Bp as [_ [? [_ ?]%Forall_app]%Forall_app].
    split; [done|]. rewrite Htake. by apply Forall_take. }
  assert (34 + length p <= 1518)%nat as Hpl.
  { rewrite Htake, length_take. rewrite Hpay, !length_app in Hlen. simpl in Hlen. lia. }
  wp_step. eapply wp_mono; [apply wp_handle_icmp; (done || lia)|]. intros [tx' r] Hbuilt.
  pose proof Hbuilt as [Hl _]. wp_step. eapply wp_send_reply; [done| |].
  - intros nic' reply (code & k1 & k2 & tail & hdr & msg & Hpe & H4 & Hhdr & Hmsg & ->).
    apply wp_ret. split_and!; [congruence|done|]. rewrite Hpe in Hp.
    by apply (answer_echo _ _ dst src h payload code k1 k2 tail).
  - intros Hn. apply wp_ret. split_and!; [congruence|done|]. by intros reply (_ & _ & ?)%Hans2.
Qed.

Lemma net_trace_dispatched frame evs tr :
  dispatched frame evs -> net_trace tr -> net_trace (Received frame :: evs ++ tr).
Proof using Type.
  destruct evs as [|[| |reply] [|]]; simpl; try done; intros; by constructor.
Qed.

Lemma wp_net_rx_step (nic : D) rx tx t :
  Forall is_byte rx -> length rx = 1518%nat -> length tx = 1518%nat -> arp_wf t ->
  wp (net_rx_step nic our_mac our_ip (mkNetTask rx tx t)) (fun '(nic', k, evs) =>
    Forall is_byte (nt_rx_buf k) /\ length (nt_rx_buf k) = 1518%nat /\ length (nt_tx_buf k) = 1518%nat /\
    arp_wf (nt_arp_table k) /\ length (filter is_recv evs) = 1%nat /\
    forall tr, net_trace tr -> net_trace (evs ++ tr)).
Proof using Hmac Hip Bip.
  intros Hb Hrx Htx Hwf. unfold net_rx_step. cbn [nt_rx_buf nt_tx_buf nt_arp_table].
  pose proof (nd_recv_buf nic rx Hb) as [Hl Hb']. pose proof (nd_recv_len nic rx) as Hn.
  destruct (nd_recv nic rx) as [[nic' rx'] [n|e]]; cbn [fst snd] in *.
  2:{ apply wp_ret. cbn [nt_rx_buf nt_tx_buf nt_arp_table].
      split_and!; try done; [congruence|]. intros. by apply trace_failed. }
  specialize (Hn n eq_refl). wp_step. apply wp_slice; [lia|lia|].
  set (frame := take _ _). assert (length frame <= 1518)%nat by (unfold frame; rewrite length_take, length_drop; lia).
  wp_step. eapply wp_mono; [apply wp_net_dispatch; try done; by apply Forall_take, Forall_drop|].
  intros [[[nic2 tx'] t'] evs] (H1 & H2 & H3). apply wp_ret. cbn [nt_rx_buf nt_tx_buf nt_arp_table].
  split_and!; try done; [congruence| |].
  - destruct evs as [|[| |reply] [|]]; done.
  - intros tr Htr. by apply net_trace_dispatched.
Qed.

Lemma wp_net_loop n (nic : D) k :
  Forall is_byte (nt_rx_buf k) -> length (nt_rx_buf k) = 1518%nat -> length (nt_tx_buf k) = 1518%nat ->
  arp_wf (nt_arp_table k) ->
  wp (net_loop n nic our_mac our_ip k) (fun tr => net_trace tr /\ length (filter is_recv tr) = n).
Proof using Hmac Hip Bip.
  revert nic k. induction n as [|n IH]; intros nic [rx tx t] H1 H2 H3 H4; cbn [net_loop].
  { apply wp_ret. split; [constructor|done]. }
  wp_step. eapply wp_mono; [by apply wp_net_rx_step|]. intros [[nic' k] evs] (? & ? & ? & ? & Hevs & Htr).
  wp_step. eapply wp_mono; [by apply IH|]. intros tr [Ht Hc]. apply wp_ret.
  split; [by apply Htr|]. rewrite filter_app, length_app. lia.
Qed.
End Device.
End Stack.

Lemma arp_wf_new : arp_wf ArpTable_new.
Proof. by split_and!. Qed.

(** A table that learns the senders of a sequence of packets. *)
Fixpoint learn_all (t : ArpTable) (ms : list (list Z * list Z)) : exec ArpTable :=
  match ms with
  | [] => Ret t
  | (ip, mac) :: ms => t ← ArpTable_learn t ip mac; learn_all t ms
  end.

Lemma wp_learn_all t ms :
  arp_wf t -> wp (learn_all t ms) (fun t' => arp_wf t' /\ arp_queue t' = foldl cache_learn (arp_queue t) ms).
Proof.
  revert t. induction ms as [|[ip mac] ms IH]; intros t Hwf; cbn [learn_all foldl]; [by apply wp_ret|].
  wp_step. eapply wp_mono; [by apply wp_arp_learn|]. intros t' [Hwf' <-]. by apply IH.
Qed.

(** ** A device for examples: it delivers the frames of a list *)

Definition script_recv (d : list (list Z)) (buf : list Z) : list (list Z) * list Z * result Z NetError :=
  match d with
  | [] => ([], buf, Err WouldBlock)
  | f :: d =>
      let f := take (length buf) (map (fun b => b mod 256) f) in
      (d, f ++ drop (length f) buf, Ok (Z.of_nat (length f)))
  end.

#[export, refine] Instance script_device : NetworkDevice (list (list Z)) := {|
  nd_recv := script_recv;
  nd_send := fun d _ => (d, Ok tt);
  nd_mac_address := fun _ => [2; 0; 0; 0; 0; 1];
|}.
Proof.
  - done.
  - intros _. bytes.
  - intros [|f d] buf Hb; [done|]. cbn [script_recv fst snd]. set (l := take _ _).
    assert (length l <= length buf)%nat by (unfold l; rewrite length_take; lia).
    split; [rewrite length_app, length_drop; lia|]. apply Forall_app_2; [|by apply Forall_drop].
    apply Forall_take, Forall_map, Forall_true. intros b. unfold compose, is_byte. apply Z.mod_pos_bound. lia.
  - intros [|f d] buf n; [done|]. cbn [script_recv fst snd]. intros [= <-]. rewrite length_take. lia.
Defined.

(** ** Properties *)

(** C12: The network task answers every ARP request for its address and every ICMP
    echo request to its address with the reply of the specification, at once,
    and sends nothing else: whatever frames a device delivers, of any length
    and content, in any number, no iteration of the loop panics. *)
Theorem net_stack_answers `{NetworkDevice D} (n : nat) (nic : D) (config : NetConfig) :
  length (nc_ip config) = 4%nat -> Forall is_byte (nc_ip config) ->
  wp (net_rx_loop n nic config) (fun tr =>
    net_trace (nd_mac_address nic) (nc_ip config) tr /\ length (filter is_recv tr) = n).
Proof.
  intros Hip Bip. unfold net_rx_loop. 
  apply wp_net_loop; try done; [apply nd_mac_len|apply Forall_replicate; by unfold is_byte].
Qed.

(** An echo request with padding, an ARP request for our address and one for
    another address. *)
Definition ping_frame : list Z :=
  [2; 0; 0; 0; 0; 1] ++ [2; 0; 0; 0; 0; 2] ++ ETHERTYPE_IPV4 ++
  [0x45; 0; 0; 30; 0; 0; 0; 0; 64; 1; 0; 0] ++ [10; 0; 0; 1] ++ [10; 0; 0; 2] ++
  [8; 0; 0; 0; 0; 1; 0; 1; 7; 9] ++ [0; 0; 0; 0].

Definition who_has (ip : list Z) : list Z :=
  replicate 6 255 ++ [2; 0; 0; 0; 0; 2] ++ ETHERTYPE_ARP ++
  arp_bytes ARP_OP_REQUEST [2; 0; 0; 0; 0; 2] [10; 0; 0; 1] (replicate 6 0) ip.

Lemma net_stack_answers_witness :
  exists tr, net_rx_loop 4 [ping_frame; who_has [10; 0; 0; 2]; who_has [10; 0; 0; 3]]
               (mkNetConfig [10; 0; 0; 2] [255; 255; 255; 0] [10; 0; 0; 1]) = Ret tr /\
    net_trace [2; 0; 0; 0; 0; 1] [10; 0; 0; 2] tr /\
    tr = [Received ping_frame;
          Sent ([2; 0; 0; 0; 0; 2] ++ [2; 0; 0; 0; 0; 1] ++ ETHERTYPE_IPV4 ++
                [0x45; 0; 0; 30; 0; 0; 0x40; 0; 64; 1; 0x26; 0xdd] ++ [10; 0; 0; 2] ++ [10; 0; 0; 1] ++
                [0; 0; 0xf8; 0xf4; 0; 1; 0; 1; 7; 9]);
          Received (who_has [10; 0; 0; 2]);
          Sent ([2; 0; 0; 0; 0; 2] ++ [2; 0; 0; 0; 0; 1] ++ ETHERTYPE_ARP ++
                arp_bytes ARP_OP_REPLY [2; 0; 0; 0; 0; 1] [10; 0; 0; 2] [2; 0; 0; 0; 0; 2] [10; 0; 0; 1]);
          Received (who_has [10; 0; 0; 3]); RecvFailed WouldBlock].
Proof.
  destruct (proj1 (wp_exists _ _) (net_stack_answers 4
    [ping_frame; who_has [10; 0; 0; 2]; who_has [10; 0; 0; 3]]
    (mkNetConfig [10; 0; 0; 2] [255; 255; 255; 0] [10; 0; 0; 1]) eq_refl ltac:(bytes))) as (tr & E & Ht & _).
  exists tr. split; [exact E|]. split; [exact Ht|]. vm_compute in E. injection E as <-. reflexivity.
Defined.

(** The ARP table is a queue of 16 slots: after any sequence of senders it
    holds what the queue specification holds, each address at most once with
    the hardware address learned last, and learning never panics. *)
Theorem arp_table_is_fifo_cache (ms : list (list Z * list Z)) :
  wp (learn_all ArpTable_new ms) (fun t =>
    arp_queue t = foldl cache_learn (replicate 16 None) ms /\ arp_unique (at_entries t)).
Proof.
  eapply wp_mono; [apply wp_learn_all, arp_wf_new|]. intros t [(_ & _ & Hu) Hq]. by split.
Qed.

(** The receiver's check: the checksum of a message is zero exactly when the
    ones' complement sum of its words is all ones, for messages of up to
    128 KiB; the 32-bit accumulator does not overflow. *)
Theorem internet_checksum_verifies (data : list Z) :
  Forall is_byte data -> Z.of_nat (length data) <= 131072 ->
  wp (internet_checksum data) (fun c => 0 <= c <= 65535 /\ (c = 0 <-> checksum_ok data)).
Proof.
  intros Hb Hl. eapply wp_mono; [by apply wp_internet_checksum|]. by intros c (? & _ & _ & ?).
Qed.
