(* ===== verification/Ldisc.v ===== *)
(** * The line discipline of the terminals (kernel/tty/src/ldisc.rs)

    Key codes, the scancode tables, the modifier state, line editing and the
    buffer of completed lines.  The keyboard path decodes scancodes, the path of
    pseudo terminals gets bytes.  The specification at the end is an editor on
    lists: the line being typed, the bytes ready to be read, and a pending end
    of file. *)

From S2P Require Import Prelude Std Extern.

Module KeyCode.
Inductive KeyCode : Type :=
  | A | B | C | D | E | F | G | H | I | J
  | K | L | M | N | O | P | Q | R | S | T
  | U | V | W | X | Y | Z | Num0 | Num1 | Num2 | Num3
  | Num4 | Num5 | Num6 | Num7 | Num8 | Num9 | F1 | F2 | F3 | F4
  | F5 | F6 | F7 | F8 | F9 | F10 | F11 | F12 | LeftShift | RightShift
  | LeftCtrl | RightCtrl | LeftAlt | RightAlt | CapsLock | ArrowUp | ArrowDown | ArrowLeft | ArrowRight | Home
  | End | PageUp | PageDown | Insert | Delete | Escape | Enter | Tab | Backspace | Space
  | Minus | Equals | LeftBracket | RightBracket | Backslash | Semicolon | Apostrophe | Grave | Comma | Period
  | Slash.
End KeyCode.

#[export] Instance KeyCode_eq_dec : EqDecision KeyCode.KeyCode.
Proof. solve_decision. Defined.

Definition LINE_BUF_SIZE : Z := 256.
Definition READY_BUF_SIZE : Z := 512.

Inductive LdiscAction : Type :=
  | Backspace
  | Newline
  | Char (c : Z)
  | Interrupt
  | Eof
  | FlushLine
  | SwitchVt (n : Z).

(** ** Scancode decoding *)

Definition scancode_to_keycode (scancode : Z) : option KeyCode.KeyCode :=
  let make := Z.land scancode 0x7F in
  match make with
  | 0x01 => Some KeyCode.Escape | 0x02 => Some KeyCode.Num1 | 0x03 => Some KeyCode.Num2
  | 0x04 => Some KeyCode.Num3 | 0x05 => Some KeyCode.Num4 | 0x06 => Some KeyCode.Num5
  | 0x07 => Some KeyCode.Num6 | 0x08 => Some KeyCode.Num7 | 0x09 => Some KeyCode.Num8
  | 0x0A => Some KeyCode.Num9 | 0x0B => Some KeyCode.Num0 | 0x0C => Some KeyCode.Minus
  | 0x0D => Some KeyCode.Equals | 0x0E => Some KeyCode.Backspace | 0x0F => Some KeyCode.Tab
  | 0x10 => Some KeyCode.Q | 0x11 => Some KeyCode.W | 0x12 => Some KeyCode.E
  | 0x13 => Some KeyCode.R | 0x14 => Some KeyCode.T | 0x15 => Some KeyCode.Y
  | 0x16 => Some KeyCode.U | 0x17 => Some KeyCode.I | 0x18 => Some KeyCode.O
  | 0x19 => Some KeyCode.P | 0x1A => Some KeyCode.LeftBracket | 0x1B => Some KeyCode.RightBracket
  | 0x1C => Some KeyCode.Enter | 0x1D => Some KeyCode.LeftCtrl | 0x1E => Some KeyCode.A
  | 0x1F => Some KeyCode.S | 0x20 => Some KeyCode.D | 0x21 => Some KeyCode.F
  | 0x22 => Some KeyCode.G | 0x23 => Some KeyCode.H | 0x24 => Some KeyCode.J
  | 0x25 => Some KeyCode.K | 0x26 => Some KeyCode.L | 0x27 => Some KeyCode.Semicolon
  | 0x28 => Some KeyCode.Apostrophe | 0x29 => Some KeyCode.Grave | 0x2A => Some KeyCode.LeftShift
  | 0x2B => Some KeyCode.Backslash | 0x2C => Some KeyCode.Z | 0x2D => Some KeyCode.X
  | 0x2E => Some KeyCode.C | 0x2F => Some KeyCode.V | 0x30 => Some KeyCode.B
  | 0x31 => Some KeyCode.N | 0x32 => Some KeyCode.M | 0x33 => Some KeyCode.Comma
  | 0x34 => Some KeyCode.Period | 0x35 => Some KeyCode.Slash | 0x36 => Some KeyCode.RightShift
  | 0x38 => Some KeyCode.LeftAlt | 0x39 => Some KeyCode.Space | 0x3A => Some KeyCode.CapsLock
  | 0x3B => Some KeyCode.F1 | 0x3C => Some KeyCode.F2 | 0x3D => Some KeyCode.F3
  | 0x3E => Some KeyCode.F4 | 0x3F => Some KeyCode.F5 | 0x40 => Some KeyCode.F6
  | 0x41 => Some KeyCode.F7 | 0x42 => Some KeyCode.F8 | 0x43 => Some KeyCode.F9
  | 0x44 => Some KeyCode.F10 | 0x57 => Some KeyCode.F11 | 0x58 => Some KeyCode.F12
  | _ => None
  end.

Definition extended_scancode_to_keycode (scancode : Z) : option KeyCode.KeyCode :=
  let make := Z.land scancode 0x7F in
  match make with
  | 0x1D => Some KeyCode.RightCtrl | 0x38 => Some KeyCode.RightAlt | 0x47 => Some KeyCode.Home
  | 0x48 => Some KeyCode.ArrowUp | 0x49 => Some KeyCode.PageUp | 0x4B => Some KeyCode.ArrowLeft
  | 0x4D => Some KeyCode.ArrowRight | 0x4F => Some KeyCode.End | 0x50 => Some KeyCode.ArrowDown
  | 0x51 => Some KeyCode.PageDown | 0x52 => Some KeyCode.Insert | 0x53 => Some KeyCode.Delete
  | _ => None
  end.

Definition keycode_to_ascii (key : KeyCode.KeyCode) (shifted caps : bool) : option Z :=
  match key with
  | KeyCode.A => Some (if xorb shifted caps then 65 else 97) | KeyCode.B => Some (if xorb shifted caps then 66 else 98)
  | KeyCode.C => Some (if xorb shifted caps then 67 else 99) | KeyCode.D => Some (if xorb shifted caps then 68 else 100)
  | KeyCode.E => Some (if xorb shifted caps then 69 else 101) | KeyCode.F => Some (if xorb shifted caps then 70 else 102)
  | KeyCode.G => Some (if xorb shifted caps then 71 else 103) | KeyCode.H => Some (if xorb shifted caps then 72 else 104)
  | KeyCode.I => Some (if xorb shifted caps then 73 else 105) | KeyCode.J => Some (if xorb shifted caps then 74 else 106)
  | KeyCode.K => Some (if xorb shifted caps then 75 else 107) | KeyCode.L => Some (if xorb shifted caps then 76 else 108)
  | KeyCode.M => Some (if xorb shifted caps then 77 else 109) | KeyCode.N => Some (if xorb shifted caps then 78 else 110)
  | KeyCode.O => Some (if xorb shifted caps then 79 else 111) | KeyCode.P => Some (if xorb shifted caps then 80 else 112)
  | KeyCode.Q => Some (if xorb shifted caps then 81 else 113) | KeyCode.R => Some (if xorb shifted caps then 82 else 114)
  | KeyCode.S => Some (if xorb shifted caps then 83 else 115) | KeyCode.T => Some (if xorb shifted caps then 84 else 116)
  | KeyCode.U => Some (if xorb shifted caps then 85 else 117) | KeyCode.V => Some (if xorb shifted caps then 86 else 118)
  | KeyCode.W => Some (if xorb shifted caps then 87 else 119) | KeyCode.X => Some (if xorb shifted caps then 88 else 120)
  | KeyCode.Y => Some (if xorb shifted caps then 89 else 121) | KeyCode.Z => Some (if xorb shifted caps then 90 else 122)
  | KeyCode.Num1 => Some (if shifted then 33 else 49) | KeyCode.Num2 => Some (if shifted then 64 else 50)
  | KeyCode.Num3 => Some (if shifted then 35 else 51) | KeyCode.Num4 => Some (if shifted then 36 else 52)
  | KeyCode.Num5 => Some (if shifted then 37 else 53) | KeyCode.Num6 => Some (if shifted then 94 else 54)
  | KeyCode.Num7 => Some (if shifted then 38 else 55) | KeyCode.Num8 => Some (if shifted then 42 else 56)
  | KeyCode.Num9 => Some (if shifted then 40 else 57) | KeyCode.Num0 => Some (if shifted then 41 else 48)
  | KeyCode.Minus => Some (if shifted then 95 else 45) | KeyCode.Equals => Some (if shifted then 43 else 61)
  | KeyCode.LeftBracket => Some (if shifted then 123 else 91) | KeyCode.RightBracket => Some (if shifted then 125 else 93)
  | KeyCode.Backslash => Some (if shifted then 124 else 92) | KeyCode.Semicolon => Some (if shifted then 58 else 59)
  | KeyCode.Apostrophe => Some (if shifted then 34 else 39) | KeyCode.Grave => Some (if shifted then 126 else 96)
  | KeyCode.Comma => Some (if shifted then 60 else 44) | KeyCode.Period => Some (if shifted then 62 else 46)
  | KeyCode.Slash => Some (if shifted then 63 else 47)
  | KeyCode.Space => Some 32 | KeyCode.Enter => Some 10 | KeyCode.Backspace => Some 8 | KeyCode.Tab => Some 9
  | _ => None
  end.

(** ** The line discipline *)

Section Ldisc.
Context `{RB : RingBuf Z V READY_BUF_SIZE}.

Record LineDiscipline : Type := mkLineDiscipline {
  ready_buf : V;
  line_buf : list Z;
  line_len : Z;
  shift_held : bool;
  ctrl_held : bool;
  alt_held : bool;
  caps_lock : bool;
  extended_prefix : bool;
  eof_pending : bool;
}.

Definition LineDiscipline_new : LineDiscipline :=
  mkLineDiscipline rb_new (replicate (Z.to_nat LINE_BUF_SIZE) 0) 0 false false false false false false.

(** The assignments to a field. *)
Definition set_ready (self : LineDiscipline) (r : V) : LineDiscipline :=
  mkLineDiscipline r (line_buf self) (line_len self) (shift_held self) (ctrl_held self)
    (alt_held self) (caps_lock self) (extended_prefix self) (eof_pending self).
Definition set_line (self : LineDiscipline) (l : list Z) (n : Z) : LineDiscipline :=
  mkLineDiscipline (ready_buf self) l n (shift_held self) (ctrl_held self)
    (alt_held self) (caps_lock self) (extended_prefix self) (eof_pending self).
Definition set_line_len (self : LineDiscipline) (n : Z) : LineDiscipline :=
  set_line self (line_buf self) n.
Definition set_shift (self : LineDiscipline) (b : bool) : LineDiscipline :=
  mkLineDiscipline (ready_buf self) (line_buf self) (line_len self) b (ctrl_held self)
    (alt_held self) (caps_lock self) (extended_prefix self) (eof_pending self).
Definition set_ctrl (self : LineDiscipline) (b : bool) : LineDiscipline :=
  mkLineDiscipline (ready_buf self) (line_buf self) (line_len self) (shift_held self) b
    (alt_held self) (caps_lock self) (extended_prefix self) (eof_pending self).
Definition set_alt (self : LineDiscipline) (b : bool) : LineDiscipline :=
  mkLineDiscipline (ready_buf self) (line_buf self) (line_len self) (shift_held self)
    (ctrl_held self) b (caps_lock self) (extended_prefix self) (eof_pending self).
Definition set_caps (self : LineDiscipline) (b : bool) : LineDiscipline :=
  mkLineDiscipline (ready_buf self) (line_buf self) (line_len self) (shift_held self)
    (ctrl_held self) (alt_held self) b (extended_prefix self) (eof_pending self).
Definition set_ext (self : LineDiscipline) (b : bool) : LineDiscipline :=
  mkLineDiscipline (ready_buf self) (line_buf self) (line_len self) (shift_held self)
    (ctrl_held self) (alt_held self) (caps_lock self) b (eof_pending self).
Definition set_eof (self : LineDiscipline) (b : bool) : LineDiscipline :=
  mkLineDiscipline (ready_buf self) (line_buf self) (line_len self) (shift_held self)
    (ctrl_held self) (alt_held self) (caps_lock self) (extended_prefix self) b.

(** [let _ = self.ready_buf.try_push(byte)]. *)
Definition push_ready (self : LineDiscipline) (byte : Z) : LineDiscipline :=
  set_ready self (rb_try_push (ready_buf self) byte).1.

(** The loop that copies the line into the ready buffer. *)
Definition push_line (self : LineDiscipline) : exec LineDiscipline :=
  for_range 0 (Z.to_nat (line_len self))
    (fun i self => byte ← idx (line_buf self) i; Ret (push_ready self byte)) self.

(** The part of [process_scancode] that handles a character. *)
Definition process_char (self : LineDiscipline) (ch : Z) (icanon : bool)
    : exec (LineDiscipline * option LdiscAction) :=
  if icanon then
    if ch =? 0x08 then
      if 0 <? line_len self then
        n ← sub64 (line_len self) 1;
        Ret (set_line_len self n, Some Backspace)
      else Ret (self, None)
    else if ch =? 10 then
      self ← push_line self;
      let self := push_ready self 10 in
      Ret (set_line_len self 0, Some Newline)
    else
      let len := line_len self in
      if len <? LINE_BUF_SIZE then
        l ← upd (line_buf self) len ch;
        n ← add64 len 1;
        Ret (set_line self l n, Some (Char ch))
      else Ret (self, None)
  else Ret (push_ready self ch, Some (Char ch)).

(** The part of [process_scancode] that handles the press of a key that is not a
    modifier. *)
Definition process_key (self : LineDiscipline) (key : KeyCode.KeyCode) (icanon isig : bool)
    : exec (LineDiscipline * option LdiscAction) :=
  let switch :=
    if alt_held self then
      match key with
      | KeyCode.F1 => Some 0
      | KeyCode.F2 => Some 1
      | KeyCode.F3 => Some 2
      | KeyCode.F4 => Some 3
      | KeyCode.F5 => Some 4
      | KeyCode.F6 => Some 5
      | _ => None
      end
    else None in
  match switch with
  | Some n => Ret (self, Some (SwitchVt n))
  | None =>
      if ctrl_held self && bool_decide (key = KeyCode.C) then
        if isig then Ret (set_line_len self 0, Some Interrupt)
        else Ret (push_ready self 0x03, Some (Char 0x03))
      else if ctrl_held self && bool_decide (key = KeyCode.D) then
        if icanon then
          if line_len self =? 0 then Ret (set_eof self true, Some Eof)
          else
            self ← push_line self;
            Ret (set_line_len self 0, Some FlushLine)
        else Ret (push_ready self 0x04, Some (Char 0x04))
      else
        match keycode_to_ascii key (shift_held self) (caps_lock self) with
        | Some ch => process_char self ch icanon
        | None => Ret (self, None)
        end
  end.

Definition process_scancode (self : LineDiscipline) (scancode : Z) (icanon isig : bool)
    : exec (LineDiscipline * option LdiscAction) :=
  if scancode =? 0xE0 then Ret (set_ext self true, None) else
  let is_release := negb (Z.land scancode 0x80 =? 0) in
  let '(self, keycode) :=
    if extended_prefix self then (set_ext self false, extended_scancode_to_keycode scancode)
    else (self, scancode_to_keycode scancode) in
  match keycode with
  | None => Ret (self, None)
  | Some key =>
      match key with
      | KeyCode.LeftShift | KeyCode.RightShift => Ret (set_shift self (negb is_release), None)
      | KeyCode.LeftCtrl | KeyCode.RightCtrl => Ret (set_ctrl self (negb is_release), None)
      | KeyCode.LeftAlt | KeyCode.RightAlt => Ret (set_alt self (negb is_release), None)
      | KeyCode.CapsLock =>
          Ret (if negb is_release then set_caps self (negb (caps_lock self)) else self, None)
      | _ =>
          if is_release then Ret (self, None) else
          process_key self key icanon isig
      end
  end.

Definition process_ascii_byte (self : LineDiscipline) (byte : Z) (icanon isig : bool)
    : exec (LineDiscipline * option LdiscAction) :=
  if byte =? 0x03 then
    if isig then Ret (set_line_len self 0, Some Interrupt)
    else Ret (push_ready self 0x03, Some (Char 0x03))
  else if byte =? 0x04 then
    if icanon then
      if line_len self =? 0 then Ret (set_eof self true, Some Eof)
      else
        self ← push_line self;
        Ret (set_line_len self 0, Some FlushLine)
    else Ret (push_ready self 0x04, Some (Char 0x04))
  else if icanon then
    if (byte =? 0x08) || (byte =? 0x7F) then
      if 0 <? line_len self then
        n ← sub64 (line_len self) 1;
        Ret (set_line_len self n, Some Backspace)
      else Ret (self, None)
    else if (byte =? 10) || (byte =? 13) then
      self ← push_line self;
      let self := push_ready self 10 in
      Ret (set_line_len self 0, Some Newline)
    else if line_len self <? LINE_BUF_SIZE then
      l ← upd (line_buf self) (line_len self) byte;
      n ← add64 (line_len self) 1;
      Ret (set_line self l n, Some (Char byte))
    else Ret (self, None)
  else Ret (push_ready self byte, Some (Char byte)).

(** The loop of [try_read] over the slots of the buffer. *)
Fixpoint read_slots (r : V) (buf : list Z) (n : Z) : exec (V * list Z * Z) :=
  match buf with
  | [] => Ret (r, [], n)
  | slot :: rest =>
      let '(r, b) := rb_pop r in
      match b with
      | Some byte =>
          n ← add64 n 1;
          '(r, rest, n) ← read_slots r rest n;
          Ret (r, byte :: rest, n)
      | None => Ret (r, slot :: rest, n)
      end
  end.

Definition try_read (self : LineDiscipline) (buf : list Z)
    : exec (LineDiscipline * list Z * option Z) :=
  if eof_pending self then Ret (set_eof self false, buf, Some 0) else
  '(r, buf, n) ← read_slots (ready_buf self) buf 0;
  let self := set_ready self r in
  Ret (self, buf, if 0 <? n then Some n else None).

Definition has_data (self : LineDiscipline) : bool :=
  eof_pending self || negb (rb_is_empty (ready_buf self)).
End Ldisc.

Arguments LineDiscipline V : clear implicits.

(** ** The specification *)

(** *** The keyboard: scancodes to bytes *)

Record mods : Type := mkMods { m_shift : bool; m_ctrl : bool; m_alt : bool; m_caps : bool; m_ext : bool }.

Inductive decoded : Type := DNone | DByte (b : Z) | DSwitch (n : Z).

Definition function_key (key : KeyCode.KeyCode) : option Z :=
  match key with
  | KeyCode.F1 => Some 0 | KeyCode.F2 => Some 1 | KeyCode.F3 => Some 2
  | KeyCode.F4 => Some 3 | KeyCode.F5 => Some 4 | KeyCode.F6 => Some 5
  | _ => None
  end.

(** The press of a key that is not a modifier: control C and D are the bytes 3
    and 4. *)
Definition decode_key (m : mods) (key : KeyCode.KeyCode) : decoded :=
  match function_key key with
  | Some n => if m_alt m then DSwitch n else DNone
  | None =>
      if m_ctrl m && bool_decide (key = KeyCode.C) then DByte 3
      else if m_ctrl m && bool_decide (key = KeyCode.D) then DByte 4
      else match keycode_to_ascii key (m_shift m) (m_caps m) with Some b => DByte b | None => DNone end
  end.

Definition decode (m : mods) (scancode : Z) : mods * decoded :=
  let 'mkMods shift ctrl alt caps ext := m in
  if scancode =? 0xE0 then (mkMods shift ctrl alt caps true, DNone) else
  let pressed := Z.land scancode 0x80 =? 0 in
  match (if ext then extended_scancode_to_keycode scancode else scancode_to_keycode scancode) with
  | None => (mkMods shift ctrl alt caps false, DNone)
  | Some (KeyCode.LeftShift | KeyCode.RightShift) => (mkMods pressed ctrl alt caps false, DNone)
  | Some (KeyCode.LeftCtrl | KeyCode.RightCtrl) => (mkMods shift pressed alt caps false, DNone)
  | Some (KeyCode.LeftAlt | KeyCode.RightAlt) => (mkMods shift ctrl pressed caps false, DNone)
  | Some KeyCode.CapsLock => (mkMods shift ctrl alt (if pressed then negb caps else caps) false, DNone)
  | Some key =>
      let m := mkMods shift ctrl alt caps false in
      (m, if pressed then decode_key m key else DNone)
  end.

(** *** The editor: bytes to lines *)

Record editor : Type := mkEditor { e_line : list Z; e_ready : list Z; e_eof : bool }.

(** The ready bytes are bounded: what does not fit is dropped. *)
Definition deliver (ready bytes : list Z) : list Z := take 511 (ready ++ bytes).

Definition edit (e : editor) (b : Z) (icanon isig : bool) : editor * option LdiscAction :=
  let 'mkEditor line ready eof := e in
  if decide (b = 3) then
    if isig then (mkEditor [] ready eof, Some Interrupt)
    else (mkEditor line (deliver ready [3]) eof, Some (Char 3))
  else if negb icanon then (mkEditor line (deliver ready [b]) eof, Some (Char b))
  else if decide (b = 4) then
    match line with
    | [] => (mkEditor [] ready true, Some Eof)
    | _ => (mkEditor [] (deliver ready line) eof, Some FlushLine)
    end
  else if decide (b ∈ [8; 127]) then
    match line with
    | [] => (e, None)
    | _ => (mkEditor (removelast line) ready eof, Some Backspace)
    end
  else if decide (b ∈ [10; 13]) then (mkEditor [] (deliver ready (line ++ [10])) eof, Some Newline)
  else if decide (length line < 256)%nat then (mkEditor (line ++ [b]) ready eof, Some (Char b))
  else (e, None).

Definition edit_read (e : editor) (buf : list Z) : editor * (list Z * option Z) :=
  let 'mkEditor line ready eof := e in
  if eof then (mkEditor line ready false, (buf, Some 0)) else
  let n := Nat.min (length buf) (length ready) in
  (mkEditor line (drop n ready) false,
   (take n ready ++ drop n buf, match n with O => None | _ => Some (Z.of_nat n) end)).

(** *** A terminal in use *)

Inductive tty_op : Type :=
  | Scancode (scancode : Z) (icanon isig : bool)
  | Byte (b : Z) (icanon isig : bool)
  | Read (buf : list Z)
  | Poll.

Inductive tty_out : Type :=
  | Action (a : option LdiscAction)
  | Bytes (buf : list Z) (n : option Z)
  | HasData (b : bool).

Definition spec_step (s : mods * editor) (op : tty_op) : (mods * editor) * tty_out :=
  let '(m, e) := s in
  match op with
  | Scancode sc icanon isig =>
      let '(m, d) := decode m sc in
      match d with
      | DNone => ((m, e), Action None)
      | DSwitch n => ((m, e), Action (Some (SwitchVt n)))
      | DByte b => let '(e, a) := edit e b icanon isig in ((m, e), Action a)
      end
  | Byte b icanon isig => let '(e, a) := edit e b icanon isig in ((m, e), Action a)
  | Read buf => let '(e, (buf, n)) := edit_read e buf in ((m, e), Bytes buf n)
  | Poll => (s, HasData (e_eof e || negb (bool_decide (e_ready e = []))))
  end.

Fixpoint spec_run (s : mods * editor) (ops : list tty_op) : list tty_out :=
  match ops with
  | [] => []
  | op :: ops => let '(s, o) := spec_step s op in o :: spec_run s ops
  end.

Definition spec_new : mods * editor := (mkMods false false false false false, mkEditor [] [] false).

(** ** The line discipline implements the specification *)

Lemma deliver_app ready a b : deliver (deliver ready a) b = deliver ready (a ++ b).
Proof.
  unfold deliver. rewrite app_assoc. generalize (ready ++ a). intros l.
  destruct (decide (length l <= 511)%nat); [by rewrite (take_ge l) by done|].
  rewrite !take_app, length_take. replace (511 - 511 `min` length l)%nat with 0%nat by lia.
  replace (511 - length l)%nat with 0%nat by lia. rewrite !take_0, !app_nil_r, take_take. f_equal.
Qed.

Lemma deliver_nil ready : (length ready <= 511)%nat -> deliver ready [] = ready.
Proof. intros. unfold deliver. rewrite app_nil_r. by apply take_ge. Qed.

Lemma deliver_length ready l : (length (deliver ready l) <= 511)%nat.
Proof. unfold deliver. rewrite length_take. lia. Qed.

(** No key gives a byte that the pseudo terminal treats differently. *)
Lemma keycode_ascii_plain key shifted caps b :
  keycode_to_ascii key shifted caps = Some b -> b <> 3 /\ b <> 4 /\ b <> 13 /\ b <> 127.
Proof. destruct key, shifted, caps; intros [= <-]; done. Qed.

Section Refines.
Context `{RB : RingBuf Z V READY_BUF_SIZE}.

Definition mods_of (self : LineDiscipline V) : mods :=
  mkMods (shift_held self) (ctrl_held self) (alt_held self) (caps_lock self) (extended_prefix self).

Definition with_mods (self : LineDiscipline V) (m : mods) : LineDiscipline V :=
  mkLineDiscipline (ready_buf self) (line_buf self) (line_len self) (m_shift m) (m_ctrl m) (m_alt m)
    (m_caps m) (m_ext m) (eof_pending self).

Lemma with_mods_of self : with_mods self (mods_of self) = self.
Proof. by destruct self. Qed.

Lemma process_char_ascii self ch icanon isig :
  ch <> 3 -> ch <> 4 -> ch <> 13 -> ch <> 127 ->
  process_char self ch icanon = process_ascii_byte self ch icanon isig.
Proof.
  intros H1 H2 H3 H4. unfold process_char, process_ascii_byte.
  rewrite (proj2 (Z.eqb_neq ch 3)), (proj2 (Z.eqb_neq ch 4)), (proj2 (Z.eqb_neq ch 13)),
    (proj2 (Z.eqb_neq ch 0x7F)), !orb_false_r by done. done.
Qed.

(** What a decoded key does. *)
Definition apply_decoded (self : LineDiscipline V) (d : decoded) (icanon isig : bool)
    : exec (LineDiscipline V * option LdiscAction) :=
  match d with
  | DNone => Ret (self, None)
  | DSwitch n => Ret (self, Some (SwitchVt n))
  | DByte b => process_ascii_byte self b icanon isig
  end.

Lemma process_key_decoded self key icanon isig :
  process_key self key icanon isig = apply_decoded self (decode_key (mods_of self) key) icanon isig.
Proof.
  unfold process_key, decode_key. simpl.
  change (match key with KeyCode.F1 => Some 0 | KeyCode.F2 => Some 1 | KeyCode.F3 => Some 2
    | KeyCode.F4 => Some 3 | KeyCode.F5 => Some 4 | KeyCode.F6 => Some 5 | _ => None end) with (function_key key).
  destruct (function_key key) as [n|] eqn:Ef.
  - destruct (alt_held self); [done|]. by destruct key; destruct (ctrl_held self).
  - assert ((if alt_held self then None else None) = @None Z) as -> by (by destruct (alt_held self)).
    destruct (ctrl_held self && bool_decide (key = KeyCode.C)); [done|].
    destruct (ctrl_held self && bool_decide (key = KeyCode.D)); [done|].
    destruct (keycode_to_ascii _ _ _) as [b|] eqn:E; [|done].
    apply keycode_ascii_plain in E as (? & ? & ? & ?). by apply process_char_ascii.
Qed.

(** The keyboard path is decoding followed by the path of pseudo terminals. *)
Lemma process_scancode_decoded self scancode icanon isig :
  process_scancode self scancode icanon isig =
  let '(m, d) := decode (mods_of self) scancode in apply_decoded (with_mods self m) d icanon isig.
Proof.
  unfold process_scancode, decode. destruct self as [r l n sh ct al ca ex eo]. cbn [mods_of
    shift_held ctrl_held alt_held caps_lock extended_prefix].
  destruct (Z.eqb_spec scancode 0xE0); [done|]. destruct ex; cbn [set_ext];
    [destruct (extended_scancode_to_keycode scancode) as [key|]|destruct (scancode_to_keycode scancode) as [key|]];
    try done; destruct (Z.land scancode 0x80 =? 0); cbn [negb];
    destruct key; try done; apply process_key_decoded.
Qed.

(** The state of the editor. *)
Record rep (self : LineDiscipline V) (e : editor) : Prop := {
  rep_len : 0 <= line_len self <= 256;
  rep_buf : length (line_buf self) = 256%nat;
  rep_line : e_line e = take (Z.to_nat (line_len self)) (line_buf self);
  rep_ready : e_ready e = rb_contents (ready_buf self);
  rep_bound : (length (e_ready e) <= 511)%nat;
  rep_eof : e_eof e = eof_pending self;
}.

Lemma rep_length self e : rep self e -> Z.of_nat (length (e_line e)) = line_len self.
Proof. intros [H1 H2 -> _ _ _]. rewrite length_take. lia. Qed.

Lemma push_ready_contents self b :
  (length (rb_contents (ready_buf self)) <= 511)%nat ->
  rb_contents (ready_buf (push_ready self b)) = deliver (rb_contents (ready_buf self)) [b].
Proof.
  intros Hl. unfold push_ready, deliver. cbn [set_ready ready_buf].
  pose proof (rb_try_push_spec (ready_buf self) b) as Hp. revert Hp.
  replace (READY_BUF_SIZE - 1) with 511 by done. case Z.ltb_spec; intros ? [-> _].
  - rewrite take_ge; [done|]. rewrite length_app. simpl. lia.
  - rewrite take_app_le by lia. by rewrite take_ge by lia.
Qed.

(** The fields that delivering bytes does not touch. *)
Definition same_but_ready (self self' : LineDiscipline V) : Prop :=
  exists r, self' = set_ready self r.

Lemma wp_push_line self line ready eof :
  rep self (mkEditor line ready eof) ->
  wp (push_line self) (fun self' => same_but_ready self self' /\
    rb_contents (ready_buf self') = deliver ready line).
Proof.
  intros [H1 H2 H3 H4 H5 H6]. cbn [e_line e_ready e_eof] in *. unfold push_line.
  eapply wp_mono.
  - apply (wp_for_range (fun i s => same_but_ready self s /\
      rb_contents (ready_buf s) = deliver ready (take (Z.to_nat i) (line_buf self)))).
    + split; [exists (ready_buf self); by destruct self|]. by rewrite take_0, deliver_nil, H4 by done.
    + intros i s Hi [[r ->] Hr].
      destruct (lookup_lt_is_Some_2 (line_buf self) (Z.to_nat i) ltac:(lia)) as [b Hb].
      wp_step. eapply wp_idx; [lia|exact Hb|]. wp_step. split; [by eexists|].
      rewrite push_ready_contents by (rewrite Hr; apply deliver_length). rewrite Hr, deliver_app. f_equal.
      replace (Z.to_nat (i + 1)) with (S (Z.to_nat i)) by lia. by rewrite (take_S_r _ _ _ Hb).
  - intros s [Hs Hc]. split; [done|]. rewrite Hc, H3. do 2 f_equal. lia.
Qed.

(** The outcome of a step agrees with the editor's. *)
Definition agrees (m : mods) (r : editor * option LdiscAction)
    (p : LineDiscipline V * option LdiscAction) : Prop :=
  rep p.1 r.1 /\ p.2 = r.2 /\ mods_of p.1 = m.

Lemma rep_push self line ready eof b :
  rep self (mkEditor line ready eof) ->
  rep (push_ready self b) (mkEditor line (deliver ready [b]) eof) /\
  mods_of (push_ready self b) = mods_of self.
Proof.
  intros [H1 H2 H3 H4 H5 H6]. cbn [e_line e_ready e_eof] in *. split; [|done]. split; try done.
  - cbn [e_ready]. rewrite push_ready_contents, H4; [done|congruence].
  - apply deliver_length.
Qed.

Lemma rep_clear self line ready eof :
  rep self (mkEditor line ready eof) -> rep (set_line_len self 0) (mkEditor [] ready eof).
Proof. intros [H1 H2 H3 H4 H5 H6]. by split. Qed.

Lemma rep_push_line self line ready eof self' :
  rep self (mkEditor line ready eof) -> same_but_ready self self' ->
  rb_contents (ready_buf self') = deliver ready line ->
  rep self' (mkEditor line (deliver ready line) eof) /\ mods_of self' = mods_of self.
Proof.
  intros [H1 H2 H3 H4 H5 H6] [r ->] Hc. split; [|done]. split; try done. apply deliver_length.
Qed.

Lemma rep_erase self line ready eof :
  rep self (mkEditor line ready eof) -> 0 < line_len self ->
  rep (set_line_len self (line_len self - 1)) (mkEditor (removelast line) ready eof).
Proof.
  intros [H1 H2 H3 H4 H5 H6] Hp. cbn [e_line e_ready e_eof] in *.
  split; cbn [e_line e_ready e_eof set_line_len set_line line_len line_buf ready_buf eof_pending]; try done; [lia|].
  rewrite H3, removelast_firstn_len, length_take, take_take. f_equal. lia.
Qed.

Lemma rep_type self line ready eof b :
  rep self (mkEditor line ready eof) -> line_len self < 256 ->
  rep (set_line self (<[Z.to_nat (line_len self) := b]> (line_buf self)) (line_len self + 1))
    (mkEditor (line ++ [b]) ready eof).
Proof.
  intros [H1 H2 H3 H4 H5 H6] Hp. cbn [e_line e_ready e_eof] in *.
  split; cbn [e_line e_ready e_eof set_line line_len line_buf ready_buf eof_pending]; try done; [lia|by rewrite length_insert|].
  rewrite H3. replace (Z.to_nat (line_len self + 1)) with (S (Z.to_nat (line_len self))) by lia.
  rewrite (take_S_r _ _ b) by (apply list_lookup_insert_eq; lia). by rewrite take_insert_ge.
Qed.

Lemma wp_process_ascii_byte self e b icanon isig :
  rep self e ->
  wp (process_ascii_byte self b icanon isig) (agrees (mods_of self) (edit e b icanon isig)).
Proof.
  intros Hr. pose proof (rep_length _ _ Hr) as Hlen. destruct e as [line ready eof]. cbn [e_line] in Hlen.
  pose proof (rep_push self line ready eof b Hr) as Hpb. unfold process_ascii_byte, edit, agrees.
  destruct (Z.eqb_spec b 3) as [->|H3]; [rewrite decide_True by done|rewrite decide_False by done].
  { destruct isig; apply wp_ret; [|naive_solver]. split_and!; [by eapply rep_clear|done|done]. }
  destruct (Z.eqb_spec b 4) as [->|H4]; [rewrite decide_True by done|rewrite decide_False by done].
  { destruct icanon; cbn [negb]; [|apply wp_ret; naive_solver].
    destruct (Z.eqb_spec (line_len self) 0) as [E|E].
    - assert (line = []) as -> by (destruct line; simpl in *; [done|lia]). apply wp_ret.
      split_and!; [|done|done]. destruct Hr. by split.
    - wp_step. eapply wp_mono; [by eapply wp_push_line|]. intros self' [Hs Hc]. apply wp_ret.
      destruct (rep_push_line _ _ _ _ _ Hr Hs Hc) as [Hr' Hm].
      destruct line; [simpl in *; lia|]. split_and!; [by eapply rep_clear|done|done]. }
  destruct icanon; cbn [negb]; [|apply wp_ret; naive_solver].
  destruct ((b =? 8) || (b =? 0x7F)) eqn:E8.
  { rewrite orb_true_iff, !Z.eqb_eq in E8. rewrite decide_True by set_solver.
    destruct (Z.ltb_spec 0 (line_len self)) as [Hpos|Hz].
    - wp_step. wp_step. apply wp_ret. destruct line; [simpl in *; lia|].
      split_and!; [by apply rep_erase|done|done].
    - apply wp_ret. destruct line; [|simpl in *; lia]. done. }
  rewrite orb_false_iff, !Z.eqb_neq in E8. rewrite decide_False by set_solver.
  destruct ((b =? 10) || (b =? 13)) eqn:E10.
  { rewrite orb_true_iff, !Z.eqb_eq in E10. rewrite decide_True by set_solver.
    wp_step. eapply wp_mono; [by eapply wp_push_line|]. intros self' [Hs Hc]. apply wp_ret.
    destruct (rep_push_line _ _ _ _ _ Hr Hs Hc) as [Hr' Hm].
    destruct (rep_push _ _ _ _ 10 Hr') as [Hr2 Hm2]. rewrite deliver_app in Hr2.
    split_and!; [by eapply rep_clear|done|]. etrans; [exact Hm2|exact Hm]. }
  rewrite orb_false_iff, !Z.eqb_neq in E10. rewrite decide_False by set_solver. unfold LINE_BUF_SIZE.
  destruct (Z.ltb_spec (line_len self) 256) as [Hlt|Hge].
  - rewrite decide_True by lia. wp_step. apply wp_upd; [destruct Hr; lia|]. wp_step. wp_step.
    apply wp_ret. split_and!; [by apply rep_type|done|done].
  - rewrite decide_False by lia. apply wp_ret. done.
Qed.

Lemma wp_read_slots r buf n :
  0 <= n -> n + Z.of_nat (length buf) < 2 ^ 62 ->
  let k := Nat.min (length buf) (length (rb_contents r)) in
  wp (read_slots r buf n) (fun '(r', buf', n') =>
    rb_contents r' = drop k (rb_contents r) /\ buf' = take k (rb_contents r) ++ drop k buf /\
    n' = n + Z.of_nat k).
Proof.
  revert r n. induction buf as [|slot buf IH]; intros r n Hn Hb k; cbn [read_slots].
  { apply wp_ret. split_and!; [done|done|unfold k; simpl; lia]. }
  pose proof (rb_pop_spec r) as [Hc Hp]. destruct (rb_pop r) as [r1 o]. cbn [fst snd] in *. subst o k.
  cbn [length] in Hb. destruct (rb_contents r) as [|b q] eqn:Eq; cbn [head tail] in *.
  { apply wp_ret. split_and!; [done|done|simpl; lia]. }
  wp_step. wp_step. wp_step. eapply wp_mono; [apply IH; lia|]. intros [[r' buf'] n'] (H1 & H2 & H3).
  wp_step. rewrite Hc in *. cbn [length Nat.min take drop app]. split_and!; [done|by rewrite H2|lia].
Qed.

Lemma wp_try_read self e buf :
  rep self e -> Z.of_nat (length buf) < 2 ^ 62 ->
  wp (try_read self buf) (fun '(self', buf', n) =>
    rep self' (edit_read e buf).1 /\ (buf', n) = (edit_read e buf).2 /\ mods_of self' = mods_of self).
Proof.
  intros Hr Hb. destruct e as [line ready eof]. unfold try_read, edit_read.
  pose proof Hr as [H1 H2 H3 H4 H5 H6]. cbn [e_line e_ready e_eof] in *. rewrite <- H6.
  destruct eof; [apply wp_ret; split_and!; [by split|done|done]|].
  wp_step. eapply wp_mono; [apply wp_read_slots; lia|]. intros [[r buf'] n] (Hc & -> & ->).
  apply wp_ret. rewrite <- H4 in *. split_and!; [|f_equal|done].
  - split; cbn [fst e_line e_ready e_eof set_ready line_len line_buf ready_buf eof_pending]; try done.
    rewrite length_drop. lia.
  - rewrite Z.add_0_l. destruct (Nat.min _ _); done.
Qed.

(** A terminal in use. *)
Definition tty_step (self : LineDiscipline V) (op : tty_op) : exec (LineDiscipline V * tty_out) :=
  match op with
  | Scancode sc icanon isig => '(self, a) ← process_scancode self sc icanon isig; Ret (self, Action a)
  | Byte b icanon isig => '(self, a) ← process_ascii_byte self b icanon isig; Ret (self, Action a)
  | Read buf => '(self, buf, n) ← try_read self buf; Ret (self, Bytes buf n)
  | Poll => Ret (self, HasData (has_data self))
  end.

Fixpoint tty_run (self : LineDiscipline V) (ops : list tty_op) : exec (list tty_out) :=
  match ops with
  | [] => Ret []
  | op :: ops =>
      '(self, o) ← tty_step self op;
      rest ← tty_run self ops;
      Ret (o :: rest)
  end.

(** Buffers that exist in memory. *)
Definition op_ok (op : tty_op) : Prop :=
  match op with Read buf => Z.of_nat (length buf) < 2 ^ 62 | _ => True end.

Lemma rep_with_mods self e m : rep self e -> rep (with_mods self m) e.
Proof. intros [H1 H2 H3 H4 H5 H6]. by split. Qed.

Lemma wp_tty_step self e op :
  rep self e -> op_ok op ->
  wp (tty_step self op) (fun '(self', o) =>
    let '(m', e', o') := spec_step (mods_of self, e) op in
    rep self' e' /\ mods_of self' = m' /\ o = o').
Proof.
  intros Hr Hok. destruct op as [sc icanon isig|b icanon isig|buf|]; cbn [tty_step spec_step].
  - rewrite process_scancode_decoded. destruct (decode (mods_of self) sc) as [m d].
    assert (mods_of (with_mods self m) = m) as Hm by (by destruct m). pose proof (rep_with_mods self e m Hr) as Hr'.
    destruct d as [|b|n]; cbn [apply_decoded]; wp_step; [by wp_steps| |by wp_steps].
    eapply wp_mono; [by apply wp_process_ascii_byte|]. intros [self' a] (H1 & H2 & H3).
    destruct (edit e b icanon isig) as [e' a']. wp_step. cbn [fst snd] in *. split_and!; congruence.
  - wp_step. eapply wp_mono; [by apply wp_process_ascii_byte|]. intros [self' a] (H1 & H2 & H3).
    destruct (edit e b icanon isig) as [e' a']. wp_step. cbn [fst snd] in *. split_and!; congruence.
  - wp_step. eapply wp_mono; [by apply wp_try_read|]. intros [[self' buf'] n] (H1 & H2 & H3).
    destruct (edit_read e buf) as [e' [buf2 n2]]. wp_step. cbn [fst snd] in *. split_and!; congruence.
  - apply wp_ret. split_and!; try done. unfold has_data. destruct Hr as [_ _ _ H4 _ H6]. rewrite H4, H6.
    do 3 f_equal. apply eq_true_iff_eq. rewrite rb_is_empty_spec, bool_decide_eq_true. done.
Qed.

Lemma tty_run_spec self e ops :
  rep self e -> Forall op_ok ops -> tty_run self ops = Ret (spec_run (mods_of self, e) ops).
Proof.
  intros Hr Hops. revert self e Hr. induction Hops as [|op ops Hop _ IH]; intros self e Hr; [done|].
  apply wp_eq. cbn [tty_run spec_run]. wp_step. eapply wp_mono; [by apply wp_tty_step|].
  intros [self' o]. destruct (spec_step _ op) as [[m' e'] o']. intros (Hr' & Hm & ->).
  rewrite (IH self' e' Hr'), Hm. by wp_steps.
Qed.

Lemma rep_new : rep LineDiscipline_new (mkEditor [] [] false).
Proof. split; try done; [simpl; by rewrite rb_new_spec|simpl; lia]. Qed.
End Refines.

(** ** Typing a line *)

(** The text that is left after the erase characters took effect. *)
Definition type_byte (l : list Z) (b : Z) : list Z :=
  if decide (b ∈ [8; 127]) then removelast l else l ++ [b].

Definition edited (bs : list Z) : list Z := foldl type_byte [] bs.

(** Bytes that neither end the line nor discard it. *)
Definition text_byte (b : Z) : Prop := b ∉ [3; 4; 10; 13].

Lemma length_removelast {A} (l : list A) : length (removelast l) = pred (length l).
Proof. rewrite removelast_firstn_len, length_take. lia. Qed.

Lemma spec_typing m ready bs line ops :
  Forall text_byte bs -> (length line + length bs <= 256)%nat ->
  exists outs, length outs = length bs /\
    spec_run (m, mkEditor line ready false) (map (fun b => Byte b true true) bs ++ ops) =
    outs ++ spec_run (m, mkEditor (foldl type_byte line bs) ready false) ops.
Proof.
  intros Hbs. revert line. induction Hbs as [|b bs Hb _ IH]; intros line Hl; [by exists []|].
  cbn [map app spec_run spec_step foldl]. unfold edit, text_byte in *. unfold type_byte at 2. cbn [length] in Hl.
  rewrite (decide_False (P := b = 3)) by set_solver. cbn [negb].
  rewrite (decide_False (P := b = 4)) by set_solver.
  destruct (decide (b ∈ [8; 127])).
  - destruct line as [|x line].
    + destruct (IH [] ltac:(simpl in *; lia)) as (outs & ? & ->). exists (Action None :: outs). simpl. auto.
    + destruct (IH (removelast (x :: line))) as (outs & ? & ->);
        [rewrite length_removelast; simpl in *; lia|]. exists (Action (Some Backspace) :: outs). simpl. auto.
  - rewrite decide_False by set_solver. rewrite decide_True by lia.
    destruct (IH (line ++ [b])) as (outs & ? & ->); [rewrite length_app; simpl; lia|].
    exists (Action (Some (Char b)) :: outs). simpl. auto.
Qed.

Lemma edited_length_from bs line :
  (length (foldl type_byte line bs)
   <= length line + length bs)%nat.
Proof.
  revert line. induction bs as [|b bs IH]; intros line; simpl; [lia|]. etrans; [apply IH|].
  unfold type_byte. destruct (decide _); [rewrite length_removelast|rewrite length_app]; simpl; lia.
Qed.

(** ** Properties *)

(** C19: The line discipline implements the editor: for every sequence of scancodes
    and bytes in either mode, of reads and polls, it gives the actions and the
    bytes of the specification, and it never panics.  In particular the keyboard
    path and the pseudo terminal path edit alike. *)
Theorem ldisc_refines `{RB : RingBuf Z V READY_BUF_SIZE} (ops : list tty_op) :
  Forall op_ok ops -> tty_run LineDiscipline_new ops = Ret (spec_run spec_new ops).
Proof. intros Hops. by rewrite (tty_run_spec _ _ ops rep_new). Qed.

(** Shift and the key A, backspace, the key B, Enter, on a keyboard. *)
Lemma ldisc_refines_witness :
  tty_run (V := list Z) LineDiscipline_new
    ((fun sc => Scancode sc true true) <$> [0x2A; 0x1E; 0x9E; 0xAA; 0x0E; 0x30; 0x1C]) =
  Ret (Action <$> [None; Some (Char 65); None; None; Some Backspace; Some (Char 98); Some Newline]) /\
  Ret (spec_run spec_new ([Byte 97 true true; Byte 13 true true; Read [0; 0; 0]])) =
  tty_run (V := list Z) LineDiscipline_new [Byte 97 true true; Byte 13 true true; Read [0; 0; 0]].
Proof.
  split; [rewrite ldisc_refines; [reflexivity|by repeat constructor]|].
  symmetry. apply (ldisc_refines (V := list Z)). by repeat constructor.
Defined.

(** A line typed in canonical mode, of up to 256 bytes with any use of the erase
    characters, is read back as its edited text followed by a newline. *)
Theorem typed_line_is_read `{RB : RingBuf Z V READY_BUF_SIZE} (bs buf : list Z) (enter : Z) :
  Forall text_byte bs -> (length bs <= 256)%nat -> enter ∈ [10; 13] ->
  (length bs < length buf)%nat -> Z.of_nat (length buf) < 2 ^ 62 ->
  exists outs, tty_run LineDiscipline_new
      (map (fun b => Byte b true true) bs ++ [Byte enter true true; Read buf]) =
    Ret (outs ++ [Action (Some Newline);
                  Bytes (edited bs ++ [10] ++ drop (S (length (edited bs))) buf)
                        (Some (Z.of_nat (S (length (edited bs)))))]) /\
    length outs = length bs.
Proof.
  intros Hbs Hl He Hb Hmax.
  rewrite (tty_run_spec _ _ _ rep_new) by (apply Forall_app_2; [by apply Forall_map, Forall_true|by repeat constructor]).
  destruct (spec_typing (mods_of (V := V) LineDiscipline_new) [] bs [] [Byte enter true true; Read buf] Hbs
    ltac:(simpl; lia)) as (outs & Ho & ->).
  fold (edited bs). pose proof (edited_length_from bs []) as Hle. fold (edited bs) in Hle. simpl in Hle.
  exists outs. split; [|done]. do 2 f_equal. cbn [spec_run spec_step edit].
  assert (enter <> 3 /\ enter <> 4 /\ enter ∉ [8; 127]) as (? & ? & ?) by set_solver.
  rewrite !decide_False, decide_True by done. cbn [negb].
  unfold deliver. rewrite take_ge by (simpl; rewrite length_app; simpl; lia). cbn [app spec_step edit_read].
  rewrite length_app, Nat.min_r by (simpl; lia). cbn [length]. rewrite Nat.add_1_r.
  rewrite take_ge by (rewrite length_app; simpl; lia). by rewrite <- app_assoc.
Qed.

Lemma typed_line_is_read_witness :
  edited [97; 98; 127; 99] = [97; 99] /\
  exists outs, tty_run (V := list Z) LineDiscipline_new
      (map (fun b => Byte b true true) [97; 98; 127; 99] ++ [Byte 13 true true; Read (replicate 8 0)]) =
    Ret (outs ++ [Action (Some Newline); Bytes [97; 99; 10; 0; 0; 0; 0; 0] (Some 3)]) /\ length outs = 4%nat.
Proof.
  split; [reflexivity|].
  apply (typed_line_is_read [97; 98; 127; 99] (replicate 8 0) 13).
  - by repeat (apply Forall_cons_2; [by vm_compute; set_solver|]).
  - simpl. lia.
  - set_solver.
  - simpl. lia.
  - simpl. lia.
Defined.

(** An end of file overtakes the lines before it: a line and then Ctrl+D on the
    empty line were typed, but the first read reports the end of file and the
    line comes after it. *)
Theorem ldisc_eof_overtakes_line :
  tty_run (V := list Z) LineDiscipline_new
    [Byte 97 true true; Byte 10 true true; Byte 4 true true; Read [0; 0]; Read [0; 0]] =
  Ret [Action (Some (Char 97)); Action (Some Newline); Action (Some Eof);
       Bytes [0; 0] (Some 0); Bytes [97; 10] (Some 2)].
Proof. reflexivity. Qed.
