(* ===== verification/Vfs.v ===== *)
(** * Path resolution (kernel/fs/src/path.rs and vfs.rs)

    A path is the list of its bytes.  Inodes and file systems are the
    implementations of a class: what an inode's [lookup], [inode_type] and
    [read_link] answer, and the root of a file system.  A [lookup] future that
    is not ready at its first poll makes [poll_immediate] panic.

    The specification works on lists of names instead of strings: the mount
    whose names are the longest prefix, then one lookup a name. *)

From Stdlib Require Import Strings.String.
From S2P Require Import Prelude Std FsTypes.

(** The bytes of a string literal. *)
Definition bytes_of (s : string) : list Z :=
  map (fun a => Z.of_N (Ascii.N_of_ascii a)) (list_ascii_of_string s).

(** [b'/'] and ["/"]. *)
Definition SLASH : Z := 47.
Definition ROOT : list Z := [SLASH].

(** ** Paths *)

(** [str::split('/')]: the pieces between the slashes. *)
Fixpoint split_slash (l : list Z) : list (list Z) :=
  match l with
  | [] => [[]]
  | c :: l =>
      if c =? SLASH then [] :: split_slash l
      else match split_slash l with
           | [] => [[c]]
           | w :: ws => (c :: w) :: ws
           end
  end.

Definition components (path : list Z) : list (list Z) :=
  filter (fun s => s <> []) (split_slash path).

Definition is_absolute (path : list Z) : bool :=
  match path with c :: _ => c =? SLASH | [] => false end.

(** [str::starts_with]. *)
Fixpoint starts_with (l p : list Z) {struct p} : bool :=
  match p, l with
  | [], _ => true
  | x :: p, y :: l => (x =? y) && starts_with l p
  | _ :: _, [] => false
  end.

(** The test of the loop of [longest_prefix_match]. *)
Definition mount_matches (path mp : list Z) : bool :=
  if bool_decide (mp = ROOT) then true
  else bool_decide (path = mp) || starts_with path mp && bool_decide (path !! length mp = Some SLASH).

Definition longest_prefix_match (path : list Z) (mount_points : list (list Z)) : option (list Z) :=
  foldl (fun best mp =>
    if mount_matches path mp &&
       match best with None => true | Some b => (length b <? length mp)%nat end
    then Some mp else best) None mount_points.

Definition strip_mount_prefix (path mount : list Z) : exec (list Z) :=
  if bool_decide (mount = ROOT) then
    Ret (match path with c :: rest => if c =? SLASH then rest else path | [] => path end)
  else if (length path =? length mount)%nat then Ret []
  else
    n ← add64 (Z.of_nat (length mount)) 1;
    slice path n (Z.of_nat (length path)).

(** ** Inodes and file systems *)

(** The methods of [Inode] and [FileSystem] that resolution uses.  [None] is a
    future that is pending when polled once. *)
Class FileTree (Ino Fsys : Type) : Type := {
  it_type : Ino -> InodeType;
  it_lookup : Ino -> list Z -> option (result Ino FsError);
  it_read_link : Ino -> result (list Z) FsError;
  fs_root : Fsys -> Ino;
}.

Definition poll_immediate {T} (future : option T) : exec T := expect future.

Section Vfs.
Context `{FT : FileTree Ino Fsys}.

(** ** The mount table *)

Record Vfs : Type := mkVfs { mounts : gmap (list Z) Fsys }.

Definition Vfs_new : Vfs := mkVfs ∅.

Definition Vfs_mount (self : Vfs) (path : list Z) (fs : Fsys) : Vfs := mkVfs (<[path := fs]> (mounts self)).

Definition MAX_SYMLINK_DEPTH : Z := 8.

Definition find_mount (self : Vfs) (abs_path : list Z) : exec (result (Ino * list Z) FsError) :=
  if negb (is_absolute abs_path) then Ret (Err InvalidArgument) else
  match longest_prefix_match abs_path (map_to_list (mounts self)).*1 with
  | None => Ret (Err NotFound)
  | Some mount_path =>
      match mounts self !! mount_path with
      | None => Ret (Err NotFound)
      | Some fs =>
          remainder ← strip_mount_prefix abs_path mount_path;
          Ret (Ok (fs_root fs, remainder))
      end
  end.

(** The loop over the components: look the next one up, and follow it when it is
    a symbolic link.  [resolve] is the function that is called for the target. *)
Fixpoint walk (resolve : list Z -> Z -> exec (result Ino FsError)) (depth : Z) (current : Ino)
    (cs : list (list Z)) : exec (result Ino FsError) :=
  match cs with
  | [] => Ret (Ok current)
  | component :: cs =>
      r ← poll_immediate (it_lookup current component);
      match r with
      | Err e => Ret (Err e)
      | Ok current =>
          if bool_decide (it_type current = Symlink) then
            match it_read_link current with
            | Err e => Ret (Err e)
            | Ok target =>
                d ← add64 depth 1;
                r ← resolve target d;
                match r with
                | Err e => Ret (Err e)
                | Ok current => walk resolve depth current cs
                end
            end
          else walk resolve depth current cs
      end
  end.

(** [Vfs::resolve_with_depth].  Each nested call is one level deeper, and level 9
    returns at once, so ten calls are enough. *)
Fixpoint Vfs_resolve_with_depth (fuel : nat) (self : Vfs) (abs_path : list Z) (depth : Z)
    : exec (result Ino FsError) :=
  match fuel with
  | O => Panic
  | S fuel =>
      if MAX_SYMLINK_DEPTH <? depth then Ret (Err SymlinkLoop) else
      r ← find_mount self abs_path;
      match r with
      | Err e => Ret (Err e)
      | Ok (root, remainder) =>
          if bool_decide (remainder = []) then Ret (Ok root)
          else walk (Vfs_resolve_with_depth fuel self) depth root (components remainder)
      end
  end.

Definition Vfs_resolve (self : Vfs) (abs_path : list Z) : exec (result Ino FsError) :=
  Vfs_resolve_with_depth 10 self abs_path 0.

(** ** The global instance *)

Definition vfs_init (VFS : option Vfs) : exec (option Vfs) :=
  _ ← assert (match VFS with None => true | Some _ => false end);
  Ret (Some Vfs_new).

(** The free function that takes the lock for the mount lookup only. *)
Fixpoint resolve_with_depth (fuel : nat) (VFS : option Vfs) (abs_path : list Z) (depth : Z)
    : exec (result Ino FsError) :=
  match fuel with
  | O => Panic
  | S fuel =>
      if MAX_SYMLINK_DEPTH <? depth then Ret (Err SymlinkLoop) else
      vfs ← expect VFS;
      r ← find_mount vfs abs_path;
      match r with
      | Err e => Ret (Err e)
      | Ok (root, remainder) =>
          if bool_decide (remainder = []) then Ret (Ok root)
          else walk (resolve_with_depth fuel VFS) depth root (components remainder)
      end
  end.

Definition resolve (VFS : option Vfs) (abs_path : list Z) : exec (result Ino FsError) :=
  resolve_with_depth 10 VFS abs_path 0.

Definition resolve_relative_with_depth (VFS : option Vfs) (base : Ino) (rel_path : list Z) (depth : Z)
    : exec (result Ino FsError) :=
  if MAX_SYMLINK_DEPTH <? depth then Ret (Err SymlinkLoop)
  else walk (resolve_with_depth 9 VFS) depth base (components rel_path).

Definition resolve_relative (VFS : option Vfs) (base : Ino) (rel_path : list Z) : exec (result Ino FsError) :=
  resolve_relative_with_depth VFS base rel_path 0.

Definition with_vfs {R} (VFS : option Vfs) (f : Vfs -> R) : exec R :=
  vfs ← expect VFS;
  Ret (f vfs).

Definition with_vfs_mut {R} (VFS : option Vfs) (f : Vfs -> Vfs * R) : exec (option Vfs * R) :=
  vfs ← expect VFS;
  let '(vfs, r) := f vfs in
  Ret (Some vfs, r).
End Vfs.

Arguments Vfs Fsys : clear implicits.

(** ** The specification *)

(** A name is not empty and has no slash. *)
Definition is_name (c : list Z) : Prop := c <> [] /\ SLASH ∉ c.

(** The path of a list of names. *)
Definition raw (cs : list (list Z)) : list Z := concat (map (cons SLASH) cs).

Definition path_of (cs : list (list Z)) : list Z := match cs with [] => ROOT | _ => raw cs end.

(** Names whose path fits in memory. *)
Definition path_ok (cs : list (list Z)) : Prop :=
  Forall is_name cs /\ Z.of_nat (length (path_of cs)) < 2 ^ 62.

Section Spec.
Context `{FT : FileTree Ino Fsys}.

(** The longest prefix of the names at which a file system is mounted: the number
    of its names and the file system. *)
Fixpoint spec_mount (ms : gmap (list Z) Fsys) (cs : list (list Z)) (n : nat) : option (nat * Fsys) :=
  match ms !! path_of (take n cs) with
  | Some fs => Some (n, fs)
  | None => match n with O => None | S n => spec_mount ms cs n end
  end.

(** One lookup a name; [follow] resolves the target of a symbolic link. *)
Fixpoint spec_walk (follow : list Z -> result Ino FsError) (i : Ino) (cs : list (list Z)) : result Ino FsError :=
  match cs with
  | [] => Ok i
  | c :: cs =>
      match it_lookup i c with
      | None => Err IoError
      | Some (Err e) => Err e
      | Some (Ok i) =>
          match (if bool_decide (it_type i = Symlink)
                 then match it_read_link i with Ok t => follow t | Err e => Err e end
                 else Ok i) with
          | Ok i => spec_walk follow i cs
          | Err e => Err e
          end
      end
  end.

(** [budget] symbolic links may be nested. *)
Fixpoint spec_resolve (ms : gmap (list Z) Fsys) (budget : nat) (cs : list (list Z)) : result Ino FsError :=
  match spec_mount ms cs (length cs) with
  | None => Err NotFound
  | Some (n, fs) =>
      spec_walk (fun t =>
        match budget with
        | O => Err SymlinkLoop
        | S b => spec_resolve ms b (components t)
        end) (fs_root fs) (drop n cs)
  end.

(** Mount points and the targets of symbolic links are paths of names, and
    lookups resolve at the first poll. *)
Definition mounts_ok (ms : gmap (list Z) Fsys) : Prop :=
  forall k, is_Some (ms !! k) -> exists cs, Forall is_name cs /\ k = path_of cs.

Definition tree_ok : Prop :=
  (forall i c, is_Some (it_lookup i c)) /\
  (forall i t, it_read_link i = Ok t -> exists cs, path_ok cs /\ t = path_of cs).
End Spec.

(** ** Strings and names *)

(** Empty, or starting with a slash. *)
Definition at_border (l : list Z) : Prop := l = [] \/ exists l', l = SLASH :: l'.

Lemma raw_border cs : at_border (raw cs).
Proof. destruct cs as [|c cs]; [by left|right]. by eexists. Qed.

Lemma raw_app cs ds : raw (cs ++ ds) = raw cs ++ raw ds.
Proof. unfold raw. by rewrite map_app, concat_app. Qed.

Lemma raw_nil_inv cs : raw cs = [] -> cs = [].
Proof. by destruct cs. Qed.

(** The first name of a path is where the first slash is. *)
Lemma name_border c d x y :
  SLASH ∉ c -> SLASH ∉ d -> at_border x -> at_border y -> c ++ x = d ++ y -> c = d /\ x = y.
Proof.
  revert d. induction c as [|a c IH]; intros [|b d] Hc Hd Hx Hy E; simpl in E.
  - done.
  - destruct Hx as [->|[? ->]]; [done|]. injection E as <- _. exfalso. by apply Hd; left.
  - destruct Hy as [->|[? ->]]; [done|]. injection E as -> _. exfalso. by apply Hc; left.
  - injection E as -> E. destruct (IH d) as [-> ->]; try done; intros ?; [apply Hc|apply Hd]; by right.
Qed.

(** A path that starts with another one, up to a border, starts with its names. *)
Lemma raw_prefix ms cs rest :
  Forall is_name ms -> Forall is_name cs -> at_border rest -> raw ms ++ rest = raw cs ->
  exists ks, cs = ms ++ ks /\ rest = raw ks.
Proof.
  intros Hms. revert cs. induction Hms as [|m ms Hm _ IH]; intros cs Hcs Hr E; [by exists cs|].
  destruct Hcs as [|c cs Hc Hcs]; [done|]. change (raw (m :: ms)) with (SLASH :: m ++ raw ms) in E.
  change (raw (c :: cs)) with (SLASH :: c ++ raw cs) in E. simpl in E. injection E as E.
  rewrite <- app_assoc in E. apply name_border in E as [-> E]; [|apply Hm|apply Hc| |apply raw_border].
  - destruct (IH cs Hcs Hr E) as (ks & -> & ->). by exists ks.
  - destruct (raw_border ms) as [->|[l ->]]; [done|]. right. by eexists.
Qed.

Lemma raw_length_2 c cs : is_name c -> (2 <= length (raw (c :: cs)))%nat.
Proof.
  intros [Hc _]. change (raw (c :: cs)) with (SLASH :: c ++ raw cs). destruct c; [done|]. simpl. lia.
Qed.

Lemma path_of_not_root ms : Forall is_name ms -> ms <> [] -> path_of ms = raw ms /\ raw ms <> ROOT.
Proof.
  intros [|c cs Hc _] Hne; [done|]. split; [done|]. intros E. pose proof (raw_length_2 c cs Hc) as H.
  rewrite E in H. simpl in H. lia.
Qed.

Lemma path_of_absolute cs : is_absolute (path_of cs) = true.
Proof. by destruct cs. Qed.

Lemma starts_with_spec l p : starts_with l p = true <-> exists rest, l = p ++ rest.
Proof.
  revert l. induction p as [|x p IH]; intros l; [split; [by exists l|done]|].
  destruct l as [|y l]; [split; [done|by intros [? ?]]|]. cbn [starts_with]. rewrite andb_true_iff, Z.eqb_eq, IH.
  split; [intros [-> [rest ->]]; by exists rest|intros [rest [= -> ->]]; eauto].
Qed.

(** The string test is the prefix test on names. *)
Lemma mount_matches_names ms cs :
  Forall is_name ms -> Forall is_name cs ->
  mount_matches (path_of cs) (path_of ms) = true <-> ms `prefix_of` cs.
Proof.
  intros Hms Hcs. unfold mount_matches. destruct (decide (ms = [])) as [->|Hne].
  { split; [intros _; apply prefix_nil|done]. }
  destruct (path_of_not_root ms Hms Hne) as [-> Hr]. rewrite bool_decide_eq_false_2 by done.
  rewrite orb_true_iff, andb_true_iff, !bool_decide_eq_true, starts_with_spec.
  assert (forall rest, at_border rest -> path_of cs = raw ms ++ rest -> ms `prefix_of` cs) as Hto.
  { intros rest Hb E. destruct cs as [|c cs].
    - exfalso. destruct Hms as [|m ms Hm _]; [done|]. pose proof (raw_length_2 m ms Hm) as H2.
      apply (f_equal length) in E. rewrite length_app in E. simpl in E, H2. lia.
    - change (path_of (c :: cs)) with (raw (c :: cs)) in E.
      destruct (raw_prefix ms (c :: cs) rest Hms Hcs Hb (eq_sym E)) as (ks & -> & _). by exists ks. }
  split.
  - intros [E|[[rest E] Hs]].
    + apply (Hto []); [by left|]. by rewrite app_nil_r.
    + apply (Hto rest); [|done]. rewrite E, lookup_app_r, Nat.sub_diag in Hs by lia.
      right. destruct rest as [|x rest]; [done|]. injection Hs as ->. by eexists.
  - intros [ks ->]. assert (path_of (ms ++ ks) = raw ms ++ raw ks) as ->.
    { rewrite <- raw_app. by destruct ms. }
    destruct ks as [|k ks]; [left; by rewrite app_nil_r|right]. split; [by eexists|].
    rewrite lookup_app_r, Nat.sub_diag by lia. done.
Qed.

(** Of two prefixes the one with more names has the longer path. *)
Lemma path_of_take_length cs n m :
  Forall is_name cs -> (n < m)%nat -> (m <= length cs)%nat ->
  (length (path_of (take n cs)) < length (path_of (take m cs)))%nat.
Proof.
  intros Hcs Hn Hm.
  assert (exists k ks, take m cs = take n cs ++ k :: ks) as (k & ks & E).
  { rewrite <- (take_drop n (take m cs)), take_take, Nat.min_l by lia.
    destruct (drop n (take m cs)) as [|k ks] eqn:E; [|eauto].
    apply (f_equal length) in E. rewrite length_drop, length_take in E. simpl in E. lia. }
  pose proof (Forall_take _ m _ Hcs) as Hnames. rewrite E in Hnames |- *.
  destruct (take n cs) as [|c l]; [apply raw_length_2; by apply Forall_cons in Hnames as [? _]|].
  change (length (raw (c :: l)) < length (raw ((c :: l) ++ k :: ks)))%nat.
  rewrite raw_app, length_app. simpl. lia.
Qed.

Lemma path_of_inj cs ds : Forall is_name cs -> Forall is_name ds -> path_of cs = path_of ds -> cs = ds.
Proof.
  intros Hcs Hds E. assert (forall a b, Forall is_name a -> Forall is_name b -> path_of a = path_of b ->
    a `prefix_of` b) as Hp.
  { intros a b Ha Hb Eab. apply mount_matches_names; [done|done|]. rewrite Eab. unfold mount_matches.
    rewrite (bool_decide_eq_true_2 (path_of b = path_of b)) by done. by destruct (bool_decide _). }
  apply (anti_symm prefix); auto.
Qed.

(** *** The longest match *)

(** [Some (take n cs)] is the longest of the given mount points that matches. *)
Definition best_match (cs : list (list Z)) (mps : list (list Z)) (best : option (list Z)) : Prop :=
  match best with
  | None => forall n, path_of (take n cs) ∉ mps
  | Some b => exists n, (n <= length cs)%nat /\ b = path_of (take n cs) /\ b ∈ mps /\
      forall m, (n < m <= length cs)%nat -> path_of (take m cs) ∉ mps
  end.

Lemma prefix_take {A} (l k : list A) : l `prefix_of` k -> l = take (length l) k /\ (length l <= length k)%nat.
Proof. intros [r ->]. rewrite take_app_length, length_app. split; [done|lia]. Qed.

Lemma longest_prefix_best cs mps :
  Forall is_name cs -> (forall k, k ∈ mps -> exists ms, Forall is_name ms /\ k = path_of ms) ->
  best_match cs mps (longest_prefix_match (path_of cs) mps).
Proof.
  intros Hcs. unfold longest_prefix_match. induction mps as [|mp mps IH] using rev_ind; intros Hmps.
  { intros n Hin. by apply not_elem_of_nil in Hin. }
  rewrite foldl_app. cbn [foldl].
  specialize (IH ltac:(intros k Hk; apply Hmps, elem_of_app; by left)).
  destruct (Hmps mp) as (ms & Hms & ->); [apply elem_of_app; right; by apply list_elem_of_singleton|].
  set (best := foldl _ None mps) in *.
  destruct (mount_matches (path_of cs) (path_of ms)) eqn:Em; cbn [andb].
  - apply mount_matches_names in Em; [|done|done]. apply prefix_take in Em as [Em Hl]. rewrite Em.
    set (k := length ms) in *. destruct best as [b|]; simpl in IH.
    + destruct IH as (n & Hn & -> & Hin & Hmax).
      destruct (Nat.ltb_spec (length (path_of (take n cs))) (length (path_of (take k cs)))) as [Hlt|Hge].
      * exists k. split_and!; [done|done|apply elem_of_app; right; by apply list_elem_of_singleton|].
        assert (n < k)%nat.
        { destruct (decide (n < k)%nat) as [|Hnk]; [done|]. destruct (decide (n = k)) as [->|]; [lia|].
          pose proof (path_of_take_length cs k n Hcs ltac:(lia) Hn). lia. }
        intros m Hm [Hi|E%list_elem_of_singleton]%elem_of_app; [by eapply (Hmax m); [lia|]|].
        pose proof (path_of_take_length cs k m Hcs ltac:(lia) ltac:(lia)) as Hlen. rewrite E in Hlen. lia.
      * exists n. split_and!; [done|done|apply elem_of_app; by left|].
        intros m Hm [Hi|E%list_elem_of_singleton]%elem_of_app; [by eapply (Hmax m)|].
        pose proof (path_of_take_length cs n m Hcs ltac:(lia) ltac:(lia)) as Hlen. rewrite E in Hlen. lia.
    + exists k. split_and!; [done|done|apply elem_of_app; right; by apply list_elem_of_singleton|].
      intros m Hm [Hi|E%list_elem_of_singleton]%elem_of_app; [by eapply IH|].
      pose proof (path_of_take_length cs k m Hcs ltac:(lia) ltac:(lia)) as Hlen. rewrite E in Hlen. lia.
  - assert (forall n, path_of (take n cs) <> path_of ms) as Hno.
    { intros n E. apply path_of_inj in E as <-; [|by apply Forall_take|done].
      apply not_true_iff_false in Em. apply Em, mount_matches_names; [done|done|]. exists (drop n cs). by rewrite take_drop. }
    destruct best as [b|]; simpl in IH.
    + destruct IH as (n & Hn & -> & Hin & Hmax). exists n. split_and!; [done|done|apply elem_of_app; by left|].
      intros m Hm [Hi|E%list_elem_of_singleton]%elem_of_app; [by eapply (Hmax m)|by eapply Hno].
    + intros n [Hi|E%list_elem_of_singleton]%elem_of_app; [by eapply IH|by eapply Hno].
Qed.

(** *** Components of what is left of a path *)

Lemma split_name c rest :
  SLASH ∉ c -> split_slash (c ++ SLASH :: rest) = c :: split_slash rest.
Proof.
  induction c as [|x c IH]; intros Hc; cbn [app split_slash]; [by rewrite Z.eqb_refl|].
  rewrite (proj2 (Z.eqb_neq x SLASH)) by (intros ->; by apply Hc; left).
  rewrite IH; [done|]. intros ?. apply Hc. by right.
Qed.

Lemma split_last c : SLASH ∉ c -> split_slash c = [c].
Proof.
  induction c as [|x c IH]; intros Hc; cbn [split_slash]; [done|].
  rewrite (proj2 (Z.eqb_neq x SLASH)) by (intros ->; by apply Hc; left).
  rewrite IH; [done|]. intros ?. apply Hc. by right.
Qed.

(** Names separated by slashes, without a leading one. *)
Lemma components_tail cs : Forall is_name cs -> components (tail (raw cs)) = cs.
Proof.
  intros Hcs. unfold components. induction Hcs as [|c cs Hc Hcs IH]; [done|].
  change (tail (raw (c :: cs))) with (c ++ raw cs). destruct Hc as [Hne Hns]. destruct cs as [|d cs].
  - unfold raw. simpl. rewrite app_nil_r, split_last, filter_cons_True by done. done.
  - change (raw (d :: cs)) with (SLASH :: tail (raw (d :: cs))). rewrite split_name by done.
    rewrite filter_cons_True by done. by rewrite IH.
Qed.

Lemma components_path cs : Forall is_name cs -> components (path_of cs) = cs.
Proof.
  intros Hcs. destruct cs as [|c cs]; [done|]. change (path_of (c :: cs)) with (SLASH :: tail (raw (c :: cs))).
  rewrite <- (components_tail (c :: cs)) at 2 by done. unfold components. cbn [split_slash].
  rewrite Z.eqb_refl, filter_cons_False; [done|]. intros Hn. by apply Hn.
Qed.

Lemma wp_strip cs n :
  Forall is_name cs -> (n <= length cs)%nat -> Z.of_nat (length (path_of cs)) < 2 ^ 62 ->
  wp (strip_mount_prefix (path_of cs) (path_of (take n cs))) (eq (tail (raw (drop n cs)))).
Proof.
  intros Hcs Hn Hlen. unfold strip_mount_prefix. destruct (decide (n = 0%nat)) as [->|Hn0].
  { rewrite take_0, bool_decide_eq_true_2 by done. apply wp_ret. rewrite drop_0. by destruct cs. }
  destruct (path_of_not_root (take n cs)) as [E Hr].
  { by apply Forall_take. }
  { intros E%(f_equal length). rewrite length_take in E. simpl in E. lia. }
  rewrite E, bool_decide_eq_false_2 by done.
  assert (path_of cs = raw (take n cs) ++ raw (drop n cs)) as Ep.
  { rewrite <- raw_app, take_drop. destruct cs; [simpl in *; lia|done]. }
  rewrite Ep in Hlen |- *. rewrite length_app in *. destruct (raw (drop n cs)) as [|x r] eqn:Ed.
  { simpl. rewrite Nat.add_0_r, Nat.eqb_refl. by apply wp_ret. }
  rewrite (proj2 (Nat.eqb_neq _ _)) by (simpl; lia). wp_step. wp_step.
  apply wp_slice; [simpl; lia|rewrite length_app; lia|]. cbn [tail]. simpl length.
  replace (Z.to_nat (Z.of_nat (length (raw (take n cs))) + 1)) with (length (raw (take n cs) ++ [x]))
    by (rewrite length_app; simpl; lia).
  rewrite (cons_middle x (raw (take n cs)) r), app_assoc, drop_app_length, take_ge; [done|]. lia.
Qed.

(** ** Resolution implements the specification *)

Section Refines.
Context `{FT : FileTree Ino Fsys}.

Lemma spec_mount_spec (ms : gmap (list Z) Fsys) cs n :
  match spec_mount ms cs n with
  | None => forall m, (m <= n)%nat -> ms !! path_of (take m cs) = None
  | Some (k, fs) => (k <= n)%nat /\ ms !! path_of (take k cs) = Some fs /\
      forall m, (k < m <= n)%nat -> ms !! path_of (take m cs) = None
  end.
Proof.
  induction n as [|n IH]; cbn [spec_mount].
  { destruct (ms !! path_of (take 0 cs)) eqn:E; [split_and!; [lia|done|lia]|].
    intros m Hm. by replace m with 0%nat by lia. }
  destruct (ms !! path_of (take (S n) cs)) eqn:E; [split_and!; [lia|done|lia]|].
  destruct (spec_mount ms cs n) as [[k fs]|].
  - destruct IH as (H1 & H2 & H3). split_and!; [lia|done|]. intros m Hm.
    destruct (decide (m = S n)) as [->|]; [done|]. apply H3. lia.
  - intros m Hm. destruct (decide (m = S n)) as [->|]; [done|]. apply IH. lia.
Qed.

Lemma elem_of_keys (ms : gmap (list Z) Fsys) k : k ∈ (map_to_list ms).*1 <-> is_Some (ms !! k).
Proof.
  rewrite list_elem_of_fmap. split.
  - intros ([k' fs] & -> & Hin%elem_of_map_to_list). by exists fs.
  - intros [fs Hfs]. exists (k, fs). split; [done|]. by apply elem_of_map_to_list.
Qed.

Lemma wp_find_mount (ms : gmap (list Z) Fsys) cs :
  mounts_ok ms -> path_ok cs ->
  wp (find_mount (mkVfs ms) (path_of cs)) (fun r =>
    match spec_mount ms cs (length cs) with
    | None => r = Err NotFound
    | Some (n, fs) => r = Ok (fs_root fs, tail (raw (drop n cs)))
    end).
Proof.
  intros Hms [Hcs Hlen]. unfold find_mount. rewrite path_of_absolute. cbn [negb mounts].
  pose proof (longest_prefix_best cs (map_to_list ms).*1 Hcs ltac:(intros k Hk%elem_of_keys; by apply Hms)) as Hbest.
  pose proof (spec_mount_spec ms cs (length cs)) as Hspec.
  destruct (longest_prefix_match _ _) as [b|]; simpl in Hbest.
  - destruct Hbest as (n & Hn & -> & [fs Hfs]%elem_of_keys & Hmax). rewrite Hfs.
    assert (spec_mount ms cs (length cs) = Some (n, fs)) as ->.
    { destruct (spec_mount ms cs (length cs)) as [[k fs']|].
      - destruct Hspec as (Hk & Hk2 & Hk3). destruct (Nat.lt_total k n) as [Hlt|[->|Hlt]].
        + rewrite Hk3 in Hfs by lia. done.
        + congruence.
        + exfalso. apply (Hmax k); [lia|]. apply elem_of_keys. by exists fs'.
      - rewrite Hspec in Hfs by done. done. }
    wp_step. eapply wp_mono; [by apply wp_strip|]. intros ? <-. by apply wp_ret.
  - destruct (spec_mount ms cs (length cs)) as [[k fs]|]; [|by apply wp_ret].
    destruct Hspec as (_ & Hk & _). exfalso. apply (Hbest k), elem_of_keys. by exists fs.
Qed.

Lemma walk_spec (res : list Z -> Z -> exec (result Ino FsError)) follow depth i cs :
  tree_ok -> 0 <= depth <= 8 ->
  (forall i t, it_read_link i = Ok t -> res t (depth + 1) = Ret (follow t)) ->
  walk res depth i cs = Ret (spec_walk follow i cs).
Proof.
  intros [Hl _] Hd Hres. revert i. induction cs as [|c cs IH]; intros i; [done|]. cbn [walk spec_walk].
  destruct (Hl i c) as [r ->]. simpl. destruct r as [j|e]; [|done].
  case_bool_decide; [|apply IH]. destruct (it_read_link j) as [t|e] eqn:Et; [|done].
  unfold add64. rewrite (proj2 (Z.ltb_lt _ _)) by ulia. simpl. rewrite (Hres j t) by done. simpl.
  destruct (follow t); [apply IH|done].
Qed.

Lemma remainder_nil cs n : Forall is_name cs -> tail (raw (drop n cs)) = [] -> drop n cs = [].
Proof. intros Hcs E. by rewrite <- (components_tail (drop n cs)), E by (by apply Forall_drop). Qed.

(** One level: [follow] is what the nested calls return. *)
Lemma resolve_level (ms : gmap (list Z) Fsys) fuel follow cs depth :
  mounts_ok ms -> tree_ok -> path_ok cs -> 0 <= depth <= 8 ->
  (forall i t, it_read_link i = Ok t ->
     Vfs_resolve_with_depth fuel (mkVfs ms) t (depth + 1) = Ret (follow t)) ->
  Vfs_resolve_with_depth (S fuel) (mkVfs ms) (path_of cs) depth =
  Ret (match spec_mount ms cs (length cs) with
       | None => Err NotFound
       | Some (n, fs) => spec_walk follow (fs_root fs) (drop n cs)
       end).
Proof.
  intros Hms Htree Hcs Hd Hf. cbn [Vfs_resolve_with_depth]. unfold MAX_SYMLINK_DEPTH.
  rewrite (proj2 (Z.ltb_ge 8 _)) by lia.
  pose proof (wp_find_mount ms cs Hms Hcs) as Hm. apply wp_exists in Hm as (r & -> & Hr). simpl.
  destruct (spec_mount ms cs (length cs)) as [[n fs]|]; subst r; [|done].
  case_bool_decide as Hrem; [apply remainder_nil in Hrem as ->; [done|apply Hcs]|].
  rewrite components_tail by (apply Forall_drop, Hcs). by apply walk_spec.
Qed.

Lemma resolve_spec (ms : gmap (list Z) Fsys) b cs :
  mounts_ok ms -> tree_ok -> path_ok cs -> (b <= 8)%nat ->
  Vfs_resolve_with_depth (S (S b)) (mkVfs ms) (path_of cs) (8 - Z.of_nat b) = Ret (spec_resolve ms b cs).
Proof.
  intros Hms Htree. revert cs. induction b as [|b IH]; intros cs Hcs Hb.
  - by rewrite (resolve_level ms 1 (fun _ => Err SymlinkLoop)).
  - rewrite (resolve_level ms (S (S b)) (fun t => spec_resolve ms b (components t))); try done; [lia|].
    intros i t Ht. destruct (proj2 Htree i t Ht) as (ts & Hts & ->).
    rewrite components_path by apply Hts. rewrite <- IH by (done || lia). f_equal. lia.
Qed.

Lemma walk_ext (f g : list Z -> Z -> exec (result Ino FsError)) depth i cs :
  (forall t d, f t d = g t d) -> walk f depth i cs = walk g depth i cs.
Proof.
  intros Hfg. revert i. induction cs as [|c cs IH]; intros i; [done|]. cbn [walk].
  destruct (it_lookup i c) as [[j|e]|]; simpl; try done. case_bool_decide; [|apply IH].
  destruct (it_read_link j) as [t|e]; [|done]. destruct (add64 depth 1) as [d|]; simpl; [|done].
  rewrite Hfg. destruct (g t d) as [[k|e]|]; simpl; [apply IH|done|done].
Qed.

Lemma resolve_same fuel (vfs : Vfs Fsys) path depth :
  resolve_with_depth fuel (Some vfs) path depth = Vfs_resolve_with_depth fuel vfs path depth.
Proof.
  revert path depth. induction fuel as [|fuel IH]; intros path depth; [done|].
  cbn [resolve_with_depth Vfs_resolve_with_depth]. destruct (_ <? _); [done|]. simpl.
  destruct (find_mount vfs path) as [[[root rem]|e]|]; simpl; try done. case_bool_decide; [done|].
  by apply walk_ext.
Qed.
End Refines.

(** ** An example tree

    The root file system has a directory [dev], a link [null] to [/dev/null] and
    a link [loop] to itself; another file system with a file [null] is mounted
    at [/dev]. *)

Definition ex_dir (i : Z) (entries : list (string * Z)) (name : list Z) : result Z FsError :=
  match list_find (fun e => bytes_of e.1 = name) entries with
  | Some (_, (_, j)) => Ok j
  | None => Err NotFound
  end.

#[export] Instance ex_tree : FileTree Z Z := {|
  it_type i := if decide (i = 0 \/ i = 1 \/ i = 10) then Directory
               else if decide (i = 2 \/ i = 3) then Symlink else File;
  it_lookup i name :=
    Some (if decide (i = 0) then ex_dir i [("dev", 1); ("loop", 2); ("null", 3)]%string name
          else if decide (i = 10) then ex_dir i [("null", 11)]%string name
          else if decide (i = 1) then Err NotFound else Err NotADirectory);
  it_read_link i :=
    if decide (i = 2) then Ok (bytes_of "/loop") else if decide (i = 3) then Ok (bytes_of "/dev/null")
    else Err NotSupported;
  fs_root fs := fs;
|}.

Definition ex_mounts : gmap (list Z) Z := {[ bytes_of "/" := 0; bytes_of "/dev" := 10 ]}.

Lemma name_ok s : bool_decide (bytes_of s <> [] /\ SLASH ∉ bytes_of s) = true -> is_name (bytes_of s).
Proof. by intros H%bool_decide_eq_true. Qed.

Lemma ex_mounts_ok : mounts_ok ex_mounts.
Proof.
  intros k [fs Hfs]. unfold ex_mounts in Hfs. apply lookup_insert_Some in Hfs as [[<- _]|[_ Hfs]].
  - by exists [].
  - apply lookup_singleton_Some in Hfs as [<- _]. exists [bytes_of "dev"]. split; [|done].
    constructor; [by apply name_ok|constructor].
Qed.

Lemma ex_tree_ok : tree_ok (FT := ex_tree).
Proof.
  split; [by eexists|]. intros i t. simpl. destruct (decide (i = 2)); [|destruct (decide (i = 3)); [|done]].
  - intros [= <-]. exists [bytes_of "loop"]. repeat split; try done. constructor; [by apply name_ok|constructor].
  - intros [= <-]. exists [bytes_of "dev"; bytes_of "null"].
    repeat split; try done. repeat constructor; try by apply name_ok.
Qed.

(** ** Properties *)

(** C14: Path resolution implements its specification: for every mount table of
    plain paths, every tree whose links have plain absolute targets, and every
    list of names, resolving the path of the names finds the mount that is the
    longest prefix of the names, looks the remaining names up one by one and
    follows up to eight nested links, the ninth being an error.  It always
    returns, also when links form a cycle, and the method and the function that
    takes the lock only for the mount lookup agree. *)
Theorem vfs_resolve_refines `{FT : FileTree Ino Fsys} (ms : gmap (list Z) Fsys) (cs : list (list Z)) :
  mounts_ok ms -> tree_ok -> path_ok cs ->
  Vfs_resolve (mkVfs ms) (path_of cs) = Ret (spec_resolve ms 8 cs) /\
  resolve (Some (mkVfs ms)) (path_of cs) = Ret (spec_resolve ms 8 cs).
Proof.
  intros Hms Ht Hcs. unfold resolve, Vfs_resolve. rewrite resolve_same. split; by apply (resolve_spec ms 8).
Qed.

Lemma vfs_resolve_refines_witness :
  resolve (Some (mkVfs ex_mounts)) (bytes_of "/null") = Ret (Ok 11) /\
  resolve (Some (mkVfs ex_mounts)) (bytes_of "/loop") = Ret (Err SymlinkLoop).
Proof.
  split.
  - apply (vfs_resolve_refines ex_mounts [bytes_of "null"] ex_mounts_ok ex_tree_ok).
    split; [constructor; [by apply name_ok|constructor]|done].
  - apply (vfs_resolve_refines ex_mounts [bytes_of "loop"] ex_mounts_ok ex_tree_ok).
    split; [constructor; [by apply name_ok|constructor]|done].
Defined.

(** A repeated slash escapes a mount: the two paths have the same components,
    but the second one is looked up in the root file system under the mount. *)
Theorem vfs_double_slash_escapes_mount :
  components (bytes_of "//dev") = components (bytes_of "/dev") /\
  resolve (Some (mkVfs ex_mounts)) (bytes_of "/dev") = Ret (Ok 10) /\
  resolve (Some (mkVfs ex_mounts)) (bytes_of "//dev") = Ret (Ok 1).
Proof. by vm_compute. Qed.
