(* ===== verification/Timer.v ===== *)
(** * Sleeping (kernel/sched/src/timer.rs, kernel/kernel/src/sched/primitives.rs)

    The queue of sleeping tasks, the timer tick that wakes those whose deadline
    has passed, and the future of [sleep_ticks].  A waker names a task, and the
    tick returns the wakers it calls in the order of the calls. *)

From S2P Require Import Prelude Std Extern Threads.

Record SleepEntry : Type := mkSleepEntry { se_deadline : Z; se_waker : nat }.

(** ** [BinaryHeap<Reverse<SleepEntry>>]

    [peek] shows an entry with the least deadline and [pop] takes it.  Which of
    several entries with the same deadline comes first is not specified by the
    library; here it is the one at the front of the list. *)

Fixpoint heap_pop (q : list SleepEntry) : option (SleepEntry * list SleepEntry) :=
  match q with
  | [] => None
  | e :: q' =>
      match heap_pop q' with
      | Some (m, rest) =>
          if se_deadline e <=? se_deadline m then Some (e, q') else Some (m, e :: rest)
      | None => Some (e, [])
      end
  end.

Definition heap_peek (q : list SleepEntry) : option SleepEntry := fst <$> heap_pop q.

Definition heap_push (q : list SleepEntry) (e : SleepEntry) : list SleepEntry := e :: q.

(** ** The queue *)

Definition register_sleep_waker (SLEEP_QUEUE : list SleepEntry) (deadline : Z) (waker : nat)
    : list SleepEntry :=
  heap_push SLEEP_QUEUE (mkSleepEntry deadline waker).

Definition WAKE_BATCH_SIZE : Z := 32.

Section Tick.
Context `{AV : ArrayVec nat V WAKE_BATCH_SIZE}.

(** The loop that moves expired wakers from the queue to the batch. *)
Fixpoint drain_expired (fuel : nat) (queue : list SleepEntry) (batch : V) (current_tick : Z)
    : exec (list SleepEntry * V) :=
  match fuel with
  | O => Panic
  | S fuel =>
      if av_len batch <? WAKE_BATCH_SIZE then
        match heap_peek queue with
        | Some entry =>
            if se_deadline entry <=? current_tick then
              '(entry, queue) ← expect (heap_pop queue);
              batch ← av_push batch (se_waker entry);
              drain_expired fuel queue batch current_tick
            else Ret (queue, batch)
        | None => Ret (queue, batch)
        end
      else Ret (queue, batch)
  end.

(** The loop that wakes the batch, with the lock released. *)
Fixpoint wake_batch (fuel : nat) (batch : V) : exec (list nat) :=
  match fuel with
  | O => Panic
  | S fuel =>
      match av_pop batch with
      | (batch, Some waker) => woken ← wake_batch fuel batch; Ret (waker :: woken)
      | (_, None) => Ret []
      end
  end.

Definition wake_expired (SLEEP_QUEUE : list SleepEntry) (current_tick : Z)
    : exec (list SleepEntry * list nat) :=
  '(queue, batch) ← drain_expired 33 SLEEP_QUEUE av_new current_tick;
  woken ← wake_batch 33 batch;
  Ret (queue, woken).
End Tick.

(** ** The future of [sleep_ticks] *)

(** [sleep_ticks] computes the deadline from the current tick. *)
Definition sleep_ticks_deadline (timer_ticks ticks : Z) : exec Z := add64 timer_ticks ticks.

(** A poll reads the clock; when the deadline is not reached, it registers the
    waker.  The tick may come in between. *)
Definition SleepFuture_poll_check (timer_ticks deadline : Z) : bool := deadline <=? timer_ticks.

Definition SleepFuture_poll_register (queue : list SleepEntry) (deadline : Z) (waker : nat)
    : list SleepEntry :=
  register_sleep_waker queue deadline waker.

(** ** One tick *)

Lemma heap_pop_spec q :
  match heap_pop q with
  | None => q = []
  | Some (m, rest) => q ≡ₚ m :: rest /\ Forall (fun e => se_deadline m <= se_deadline e) rest
  end.
Proof.
  induction q as [|e q IH]; cbn [heap_pop]; [done|].
  destruct (heap_pop q) as [[m rest]|]; [|by rewrite IH].
  destruct IH as [Hp Hall]. destruct (Z.leb_spec (se_deadline e) (se_deadline m)).
  - split; [done|]. rewrite Hp. constructor; [done|]. eapply Forall_impl; [exact Hall|]. simpl. lia.
  - split; [rewrite Hp; apply Permutation_swap|]. constructor; [lia|done].
Qed.

(** What a tick takes out of the queue: expired entries, earliest first, all of
    them or 32. *)
Definition tick_takes (q : list SleepEntry) (tick : Z) (taken rest : list SleepEntry) : Prop :=
  q ≡ₚ taken ++ rest /\ Forall (fun e => se_deadline e <= tick) taken /\
  (forall e r, e ∈ taken -> r ∈ rest -> se_deadline e <= se_deadline r) /\
  (length taken = 32%nat \/ (length taken < 32)%nat /\ Forall (fun e => tick < se_deadline e) rest).

Section TickSpec.
Context `{AV : ArrayVec nat V WAKE_BATCH_SIZE}.

Lemma wp_drain_expired fuel q0 q batch tick taken :
  av_as_slice batch = se_waker <$> taken -> (length taken <= 32)%nat -> (32 - length taken < fuel)%nat ->
  q0 ≡ₚ taken ++ q -> Forall (fun e => se_deadline e <= tick) taken ->
  (forall e r, e ∈ taken -> r ∈ q -> se_deadline e <= se_deadline r) ->
  wp (drain_expired fuel q batch tick) (fun '(rest, batch') =>
    exists taken', av_as_slice batch' = se_waker <$> taken' /\ tick_takes q0 tick taken' rest).
Proof.
  revert q batch taken. induction fuel as [|fuel IH]; intros q batch taken Hb Hlen Hfuel Hq Hexp Hord; [lia|].
  cbn [drain_expired]. assert (av_len batch = Z.of_nat (length taken)) as Hl.
  { unfold av_len. by rewrite Hb, length_fmap. }
  rewrite Hl. unfold WAKE_BATCH_SIZE at 1. destruct (Z.ltb_spec (Z.of_nat (length taken)) 32) as [Hlt|Hge].
  2:{ apply wp_ret. exists taken. split; [done|]. split_and!; try done. left. lia. }
  unfold heap_peek. pose proof (heap_pop_spec q) as Hpop. destruct (heap_pop q) as [[m rest]|] eqn:Ep; simpl.
  2:{ subst q. apply wp_ret. exists taken. split; [done|]. split_and!; try done. right. split; [lia|done]. }
  destruct Hpop as [Hp Hmin]. destruct (Z.leb_spec (se_deadline m) tick) as [Hle|Hgt].
  - wp_step.
    eapply wp_mono; [apply av_push_spec; rewrite Hb, length_fmap; unfold WAKE_BATCH_SIZE; lia|].
    intros batch' Hb'. apply (IH rest batch' (taken ++ [m])).
    + by rewrite Hb', Hb, fmap_app.
    + rewrite length_app. simpl. lia.
    + rewrite length_app. simpl. lia.
    + rewrite Hq, Hp, <- app_assoc. done.
    + apply Forall_app_2; [done|by constructor].
    + intros e r [He| ->%list_elem_of_singleton]%elem_of_app Hr.
      * apply Hord; [done|]. rewrite Hp. by right.
      * by apply (proj1 (Forall_forall _ _) Hmin).
  - apply wp_ret. exists taken. split; [done|]. split_and!; try done. right. split; [lia|].
    rewrite Hp. constructor; [done|]. eapply Forall_impl; [exact Hmin|]. simpl. lia.
Qed.

Lemma wp_wake_batch fuel batch :
  (length (av_as_slice batch) < fuel)%nat ->
  wp (wake_batch fuel batch) (eq (reverse (av_as_slice batch))).
Proof.
  revert batch. induction fuel as [|fuel IH]; intros batch Hl; [lia|]. cbn [wake_batch].
  destruct (av_pop_spec batch) as [H1 H2]. destruct (av_pop batch) as [b o]. cbn [fst snd] in *. subst o.
  destruct (av_as_slice batch) as [|w l _] eqn:E using rev_ind.
  - simpl. by apply wp_ret.
  - rewrite length_app in *. simpl in Hl, H1 |- *. replace (pred (length l + 1)) with (length l) in * by lia.
    rewrite list_lookup_middle by done. rewrite take_app_length in H1. wp_step.
    eapply wp_mono; [apply IH; rewrite H1; lia|]. intros ws <-. apply wp_ret. by rewrite H1, reverse_snoc.
Qed.

Lemma wp_wake_expired q tick :
  wp (wake_expired q tick) (fun '(rest, woken) =>
    exists taken, woken = reverse (se_waker <$> taken) /\ tick_takes q tick taken rest).
Proof.
  unfold wake_expired. wp_step.
  eapply wp_mono; [apply (wp_drain_expired 33 q q av_new tick []); simpl; try done; [by rewrite av_new_spec|lia|lia|]|].
  { intros e r He. by apply not_elem_of_nil in He. }
  intros [rest batch] (taken & Hb & Ht). wp_step.
  eapply wp_mono; [apply wp_wake_batch|].
  - rewrite Hb, length_fmap. destruct Ht as (_ & _ & _ & [H|[H _]]); lia.
  - intros woken <-. apply wp_ret. exists taken. by rewrite Hb.
Qed.
End TickSpec.

(** ** Sleeping tasks and the timer *)

(** Where a sleeping task is: about to be polled, between the two accesses of a
    poll, waiting to be woken, or back from [sleep_ticks]. *)
Inductive sl_pc : Type := SlPoll | SlRegister | SlAsleep | SlDone.

Record sleeper : Type := mkSleeper { sl_deadline : Z; sl_at : sl_pc }.

Record SlSys : Type := mkSlSys { sl_clock : Z; sl_queue : list SleepEntry; sl_tasks : list sleeper }.

(** A task calls [sleep_ticks], a task goes on, time passes, the timer
    interrupt comes. *)
Inductive sl_label : Type := SlSleep (ticks : Z) | SlGo (i : nat) | SlPass (n : nat) | SlTick.

(** The executor polls a woken task again. *)
Definition sl_wake (woken : list nat) (j : nat) (t : sleeper) : sleeper :=
  match sl_at t with
  | SlAsleep => if bool_decide (j ∈ woken) then mkSleeper (sl_deadline t) SlPoll else t
  | _ => t
  end.

Section System.
Context `{AV : ArrayVec nat V WAKE_BATCH_SIZE}.

Definition sl_step (y : SlSys) (l : sl_label) : exec (option SlSys) :=
  let 'mkSlSys clock queue tasks := y in
  match l with
  | SlSleep ticks =>
      d ← sleep_ticks_deadline clock ticks;
      Ret (Some (mkSlSys clock queue (tasks ++ [mkSleeper d SlPoll])))
  | SlGo i =>
      match tasks !! i with
      | Some (mkSleeper d SlPoll) =>
          Ret (Some (mkSlSys clock queue
            (<[i := mkSleeper d (if SleepFuture_poll_check clock d then SlDone else SlRegister)]> tasks)))
      | Some (mkSleeper d SlRegister) =>
          Ret (Some (mkSlSys clock (SleepFuture_poll_register queue d i) (<[i := mkSleeper d SlAsleep]> tasks)))
      | _ => Ret None
      end
  | SlPass n => Ret (Some (mkSlSys (clock + Z.of_nat n) queue tasks))
  | SlTick =>
      '(queue, woken) ← wake_expired (V := V) queue clock;
      Ret (Some (mkSlSys clock queue (imap (sl_wake woken) tasks)))
  end.

(** The tasks that are asleep are those in the queue, with their deadlines, and
    a task that is back has waited long enough. *)
Record sl_inv (y : SlSys) : Prop := {
  slinv_clock : 0 <= sl_clock y;
  slinv_queue : forall d i, mkSleepEntry d i ∈ sl_queue y <-> sl_tasks y !! i = Some (mkSleeper d SlAsleep);
  slinv_nodup : NoDup (se_waker <$> sl_queue y);
  slinv_done : forall i d, sl_tasks y !! i = Some (mkSleeper d SlDone) -> d <= sl_clock y;
}.

Lemma sl_wake_lookup woken tasks i t :
  imap (sl_wake woken) tasks !! i = Some t <-> exists t0, tasks !! i = Some t0 /\ t = sl_wake woken i t0.
Proof.
  rewrite list_lookup_imap. destruct (tasks !! i) as [t0|]; simpl; naive_solver.
Qed.

Lemma elem_of_wakers (q : list SleepEntry) i : i ∈ (se_waker <$> q) <-> exists d, mkSleepEntry d i ∈ q.
Proof.
  rewrite list_elem_of_fmap. split.
  - intros ([d j] & -> & Hin). by exists d.
  - intros [d Hin]. by exists (mkSleepEntry d i).
Qed.

(** What a tick does to the tasks. *)
Lemma sl_tick_inv clock q tasks taken rest :
  sl_inv (mkSlSys clock q tasks) -> q ≡ₚ taken ++ rest ->
  sl_inv (mkSlSys clock rest (imap (sl_wake (reverse (se_waker <$> taken))) tasks)).
Proof.
  intros [H1 H2 H3 H4] Hq. cbn [sl_clock sl_queue sl_tasks] in *.
  assert (forall j, j ∈ reverse (se_waker <$> taken) <-> exists d, mkSleepEntry d j ∈ taken) as Hw.
  { intros j. rewrite elem_of_reverse. apply elem_of_wakers. }
  rewrite Hq, fmap_app in H3. apply NoDup_app in H3 as (N1 & N2 & N3).
  split; cbn [sl_clock sl_queue sl_tasks]; try done.
  - intros d i. rewrite sl_wake_lookup. split.
    + intros Hin. exists (mkSleeper d SlAsleep). split; [apply H2; rewrite Hq; apply elem_of_app; by right|].
      unfold sl_wake. simpl. rewrite bool_decide_eq_false_2; [done|]. rewrite Hw. intros [d' Hd'].
      apply (N2 i); apply elem_of_wakers; eauto.
    + intros ([d0 pc] & Ht & E). unfold sl_wake in E. simpl in E. destruct pc; try done.
      case_bool_decide as Hin; [done|]. injection E as ->. apply H2 in Ht.
      rewrite Hq in Ht. apply elem_of_app in Ht as [Ht|Ht]; [|done]. exfalso. apply Hin, Hw. eauto.
  - intros i d. rewrite sl_wake_lookup. intros ([d0 pc] & Ht & E). unfold sl_wake in E. simpl in E.
    destruct pc; try done; [by case_bool_decide|]. injection E as ->. by apply (H4 i).
Qed.

Definition label_ok (l : sl_label) : Prop := match l with SlSleep ticks => 0 <= ticks | _ => True end.

(** A step that does not panic keeps the invariant. *)
Lemma sleep_step_inv y l y' : label_ok l -> sl_inv y -> sl_step y l = Ret (Some y') -> sl_inv y'.
Proof.
  intros Hl Hinv. destruct y as [clock q tasks]. pose proof Hinv as [H1 H2 H3 H4].
  cbn [sl_clock sl_queue sl_tasks] in *. destruct l as [ticks|i|n|]; cbn [sl_step].
  - unfold sleep_ticks_deadline. intros (d & Hd%add64_Ret_inv & [= <-])%bind_Ret_inv.
    split; cbn [sl_clock sl_queue sl_tasks]; try done.
    + intros d' i. rewrite H2. split; intros Ht; [by apply lookup_app_l_Some|].
      apply lookup_app_Some in Ht as [Ht|[_ Ht]]; [done|].
      destruct (i - length tasks)%nat as [|?]; simpl in Ht; [by injection Ht|done].
    + intros i d' Ht. apply lookup_app_Some in Ht as [Ht|[_ Ht]]; [by eapply H4|].
      destruct (i - length tasks)%nat as [|?]; simpl in Ht; [by injection Ht|done].
  - destruct (tasks !! i) as [[d pc]|] eqn:Ei; [|done]. destruct pc; try done; intros [= <-];
      (split; cbn [sl_clock sl_queue sl_tasks]; try done).
    + intros d' j. rewrite H2. destruct (decide (j = i)) as [->|Hne]; [|by rewrite list_lookup_insert_ne].
      rewrite Ei, list_lookup_insert_eq by (by eapply lookup_lt_Some).
      destruct (SleepFuture_poll_check clock d); naive_solver.
    + intros j d' Ht. apply list_lookup_insert_Some in Ht as [(-> & Ht & _)|[_ Ht]]; [|by eapply H4].
      unfold SleepFuture_poll_check in Ht. destruct (Z.leb_spec d clock); [|done]. injection Ht as <-. done.
    + intros d' j. unfold SleepFuture_poll_register, register_sleep_waker, heap_push.
      rewrite elem_of_cons, H2. destruct (decide (j = i)) as [->|Hne].
      * rewrite Ei, list_lookup_insert_eq by (by eapply lookup_lt_Some). split; [|naive_solver].
        intros [[= ->]|[=]]. done.
      * rewrite list_lookup_insert_ne by done. naive_solver.
    + cbn [SleepFuture_poll_register register_sleep_waker heap_push]. unfold SleepFuture_poll_register,
        register_sleep_waker, heap_push. rewrite fmap_cons. apply NoDup_cons. split; [|done].
      rewrite elem_of_wakers. intros [d' Hd']. apply H2 in Hd'. cbn [se_waker] in Hd'. congruence.
    + intros j d' Ht. apply list_lookup_insert_Some in Ht as [(-> & Ht & _)|[_ Ht]]; [done|by eapply H4].
  - intros [= <-]. split; cbn [sl_clock sl_queue sl_tasks]; try done; [lia|].
    intros i d Ht. specialize (H4 i d Ht). lia.
  - intros ([q' woken] & Hw & [= <-])%bind_Ret_inv.
    eapply wp_use in Hw; [|apply wp_wake_expired]. destruct Hw as (taken & -> & Hq & _).
    by apply (sl_tick_inv clock q).
Qed.

(** The wakeups that may come before that of a task with deadline [d]: the
    entries that are not later, and the tasks about to make such an entry. *)
Definition registers (d : Z) (t : sleeper) : bool :=
  match sl_at t with SlRegister => sl_deadline t <=? d | _ => false end.

Definition not_later (d : Z) (e : SleepEntry) : bool := se_deadline e <=? d.

Definition ahead (d : Z) (y : SlSys) : Z :=
  count (registers d) (sl_tasks y) + count (not_later d) (sl_queue y).

Definition is_tick (l : sl_label) : bool := match l with SlTick => true | _ => false end.

Lemma count_wake d woken tasks : count (registers d) (imap (sl_wake woken) tasks) = count (registers d) tasks.
Proof.
  enough (forall k, count (registers d) (imap (fun j => sl_wake woken (k + j)%nat) tasks) =
    count (registers d) tasks) as H by apply (H 0%nat).
  induction tasks as [|t tasks IH]; intros k; [done|]. rewrite imap_cons, !count_cons. f_equal.
  - unfold registers, sl_wake. destruct t as [d' []]; simpl; try done. by case_bool_decide.
  - rewrite <- (IH (S k)). f_equal. apply imap_ext. intros j x _. unfold compose. f_equal. lia.
Qed.

(** A tick that leaves a task asleep whose deadline has passed wakes 32 others. *)
Lemma tick_ahead clock q tasks taken rest d i :
  sl_inv (mkSlSys clock q tasks) -> d <= clock -> tick_takes q clock taken rest ->
  mkSleepEntry d i ∈ rest -> count (not_later d) rest + 32 = count (not_later d) q.
Proof.
  intros Hinv Hd (Hq & _ & Hord & Hlen) Hin. rewrite (count_perm _ _ _ Hq), count_app.
  assert (Forall (fun e => not_later d e = true) taken) as Hall.
  { apply Forall_forall. intros e He. apply Z.leb_le. by apply (Hord e (mkSleepEntry d i)). }
  rewrite (count_all _ _ Hall). destruct Hlen as [->|[_ Hlate]]; [lia|].
  apply (proj1 (Forall_forall _ _) Hlate) in Hin. simpl in Hin. lia.
Qed.

Lemma sl_step_progress y l y' i d pc :
  label_ok l -> sl_inv y -> sl_step y l = Ret (Some y') ->
  sl_tasks y !! i = Some (mkSleeper d pc) -> pc <> SlRegister -> d <= sl_clock y ->
  exists pc', sl_tasks y' !! i = Some (mkSleeper d pc') /\ pc' <> SlRegister /\ d <= sl_clock y' /\
    (pc' = SlAsleep -> pc = SlAsleep /\ ahead d y' + (if is_tick l then 32 else 0) <= ahead d y).
Proof.
  intros Hl Hinv Hstep Hi Hpc Hd. destruct y as [clock q tasks]. unfold ahead.
  cbn [sl_clock sl_queue sl_tasks] in *. destruct l as [ticks|j|n|]; cbn [sl_step is_tick] in *.
  - unfold sleep_ticks_deadline in Hstep. apply bind_Ret_inv in Hstep as (d' & Hd' & [= <-]).
    cbn [sl_clock sl_queue sl_tasks]. exists pc. split_and!; [by apply lookup_app_l_Some|done|done|].
    intros ->. split; [done|]. rewrite count_app. unfold count at 2. simpl. lia.
  - destruct (tasks !! j) as [[d' pc']|] eqn:Ej; [|done]. destruct pc'; try done; injection Hstep as <-;
      cbn [sl_clock sl_queue sl_tasks].
    + unfold SleepFuture_poll_check. rewrite (count_insert _ _ _ _ _ Ej).
      destruct (decide (j = i)) as [->|Hne].
      * rewrite Ej in Hi. injection Hi as -> <-. rewrite (proj2 (Z.leb_le _ _)) by done.
        rewrite list_lookup_insert_eq by (by eapply lookup_lt_Some). eexists. split_and!; done.
      * exists pc. rewrite list_lookup_insert_ne by done. split_and!; try done. intros ->. split; [done|].
        unfold registers at 2 3. simpl. destruct (Z.leb_spec d' clock); simpl; [lia|].
        rewrite (proj2 (Z.leb_gt _ _)) by lia. lia.
    + destruct (decide (j = i)) as [->|Hne]; [rewrite Ej in Hi; injection Hi as -> <-; done|].
      exists pc. rewrite list_lookup_insert_ne by done. split_and!; try done. intros ->. split; [done|].
      rewrite (count_insert _ _ _ _ _ Ej). unfold SleepFuture_poll_register, register_sleep_waker, heap_push.
      rewrite count_cons. unfold registers at 2 3, not_later at 1. simpl. lia.
  - injection Hstep as <-. exists pc. cbn [sl_clock sl_queue sl_tasks]. split_and!; [done|done|lia|].
    intros ->. split; [done|lia].
  - apply bind_Ret_inv in Hstep as ([q' woken] & Hw & [= <-]).
    eapply wp_use in Hw; [|apply wp_wake_expired]. destruct Hw as (taken & -> & Htick).
    cbn [sl_clock sl_queue sl_tasks]. exists (sl_at (sl_wake (reverse (se_waker <$> taken)) i (mkSleeper d pc))).
    assert (imap (sl_wake (reverse (se_waker <$> taken))) tasks !! i =
      Some (mkSleeper d (sl_at (sl_wake (reverse (se_waker <$> taken)) i (mkSleeper d pc))))) as Hlook.
    { apply sl_wake_lookup. exists (mkSleeper d pc). split; [done|]. unfold sl_wake. simpl.
      destruct pc; try done. by case_bool_decide. }
    split_and!; [done|destruct pc; try done; unfold sl_wake; simpl; by case_bool_decide|done|].
    intros Has. rewrite Has in Hlook. split; [destruct pc; by try (unfold sl_wake in Has; simpl in Has)|].
    rewrite count_wake. pose proof (sl_tick_inv clock q tasks taken q' Hinv (proj1 Htick)) as Hinv'.
    apply (slinv_queue _ Hinv') in Hlook. cbn [sl_queue] in Hlook.
    pose proof (tick_ahead clock q tasks taken q' d i Hinv Hd Htick Hlook). lia.
Qed.

Lemma sl_run_progress ls : forall y y' i d pc,
  Forall label_ok ls -> sl_inv y -> run sl_step y ls = Ret (Some y') ->
  sl_tasks y !! i = Some (mkSleeper d pc) -> pc <> SlRegister -> d <= sl_clock y ->
  exists pc', sl_tasks y' !! i = Some (mkSleeper d pc') /\ pc' <> SlRegister /\
    (pc' = SlAsleep -> pc = SlAsleep /\ ahead d y' + 32 * count is_tick ls <= ahead d y).
Proof.
  induction ls as [|l ls IH]; intros y y' i d pc Hls Hinv Hrun Hi Hpc Hd.
  { injection Hrun as <-. exists pc. split_and!; [done|done|]. intros Hp. split; [done|]. unfold count. simpl. lia. }
  apply Forall_cons in Hls as [Hl Hls]. cbn [run] in Hrun. apply bind_Ret_inv in Hrun as ([y1|] & Hstep & Hrun); [|done].
  destruct (sl_step_progress y l y1 i d pc Hl Hinv Hstep Hi Hpc Hd) as (pc1 & H1 & H2 & H3 & H4).
  pose proof (sleep_step_inv y l y1 Hl Hinv Hstep) as Hinv1.
  destruct (IH y1 y' i d pc1 Hls Hinv1 Hrun H1 H2 H3) as (pc' & H5 & H6 & H7).
  exists pc'. split_and!; [done|done|]. intros ->. destruct (H7 eq_refl) as [-> ?].
  destruct (H4 eq_refl) as [-> ?]. split; [done|]. rewrite count_cons. destruct (is_tick l); lia.
Qed.

Definition sl_start : SlSys := mkSlSys 0 [] [].

Lemma sl_inv_start : sl_inv sl_start.
Proof.
  split; try done; [|by constructor]. intros d i. split; [intros H; by apply not_elem_of_nil in H|done].
Qed.

Lemma sl_run_inv ls : forall y y',
  Forall label_ok ls -> sl_inv y -> run sl_step y ls = Ret (Some y') -> sl_inv y'.
Proof.
  induction ls as [|l ls IH]; intros y y' Hls Hinv Hrun; [by injection Hrun as <-|].
  apply Forall_cons in Hls as [Hl Hls]. cbn [run] in Hrun. apply bind_Ret_inv in Hrun as ([y1|] & Hstep & Hrun); [|done].
  apply (IH y1); [done| |done]. by eapply sleep_step_inv.
Qed.
End System.

(** ** Properties *)

(** C20: Sleeping is never too short and never lost: in every interleaving of tasks
    that sleep, of polls, of the clock and of timer ticks, a task that is back
    from [sleep_ticks] has reached its deadline, and a task that waits is in the
    queue with its deadline.  Once the deadline of a waiting task has passed, it
    is woken after at most as many ticks as batches of 32 are needed for the
    wakeups that are not later, whatever else happens. *)
Theorem sleeper_woken_in_time `{AV : ArrayVec nat V WAKE_BATCH_SIZE} (ls ls' : list sl_label) (y y' : SlSys)
    (i : nat) (d : Z) :
  Forall label_ok ls -> Forall label_ok ls' ->
  run (sl_step (V := V)) sl_start ls = Ret (Some y) -> run (sl_step (V := V)) y ls' = Ret (Some y') ->
  (forall j dj, sl_tasks y !! j = Some (mkSleeper dj SlDone) -> dj <= sl_clock y) /\
  (forall j dj, sl_tasks y !! j = Some (mkSleeper dj SlAsleep) -> mkSleepEntry dj j ∈ sl_queue y) /\
  (sl_tasks y !! i = Some (mkSleeper d SlAsleep) -> d <= sl_clock y -> ahead d y <= 32 * count is_tick ls' ->
   sl_tasks y' !! i = Some (mkSleeper d SlPoll) \/ sl_tasks y' !! i = Some (mkSleeper d SlDone)).
Proof.
  intros Hls Hls' Hrun Hrun'. pose proof (sl_run_inv ls _ _ Hls sl_inv_start Hrun) as Hinv.
  split_and!; [by apply slinv_done|intros j dj; apply (slinv_queue _ Hinv)|]. intros Hi Hd Hticks.
  destruct (sl_run_progress ls' y y' i d SlAsleep Hls' Hinv Hrun' Hi ltac:(done) Hd) as (pc & Hpc & Hne & Has).
  destruct pc; [by left|done| |by right]. destruct (Has eq_refl) as [_ Hle].
  pose proof (sl_run_inv ls' _ _ Hls' Hinv Hrun') as Hinv'. apply (slinv_queue _ Hinv') in Hpc.
  apply list_elem_of_lookup_1 in Hpc as [k Hk].
  pose proof (count_pos (not_later d) (sl_queue y') k _ Hk ltac:(by apply Z.leb_refl)).
  pose proof (count_bound (registers d) (sl_tasks y')). unfold ahead in *. lia.
Qed.

(** Two tasks sleep for one and two ticks; the tick at time two wakes both. *)
Lemma sleeper_woken_in_time_witness :
  let ls := [SlSleep 1; SlGo 0; SlGo 0; SlSleep 2; SlGo 1; SlPass 2; SlGo 1] in
  exists y y', run (sl_step (V := list nat)) sl_start ls = Ret (Some y) /\
    run (sl_step (V := list nat)) y [SlTick] = Ret (Some y') /\
    (sl_tasks y' !! 1%nat = Some (mkSleeper 2 SlPoll) \/ sl_tasks y' !! 1%nat = Some (mkSleeper 2 SlDone)).
Proof.
  intros ls. eexists _, _. split; [reflexivity|]. split; [reflexivity|].
  eapply (sleeper_woken_in_time (V := list nat) ls [SlTick] _ _ 1 2);
    [by repeat constructor|by repeat constructor|reflexivity|reflexivity|reflexivity|simpl; lia|].
  by vm_compute.
Defined.
